(* ===== verification/_CoqProject ===== *)
-Q . S2P
Prelude.v
Notifier.v
GoTime.v
RateLimit.v
Quota.v
Text.v
Sha256.v
Tables.v
Tx.v
Sessions.v
Pending.v
Opening.v
QuotaInv.v
Invocations.v
Rooms.v
Claims.v
Roles.v
Directory.v
Messages.v
Deliveries.v
Auth.v
Source.v
Export.v
Destination.v
Cutover.v
Epochs.v
Relay.v
QuotaOps.v
History.v
Replay.v
Members.v
Rights.v
Cursors.v
Mailbox.v
Progress.v
Occupancy.v
Paging.v
Fence.v
Atomic.v
Access.v
Authn.v
Http.v
Starts.v
Gateway.v
Handover.v
Authority.v
Execution.v
Prepare.v
Transfer.v
Exactness.v
Staging.v
Completion.v
Restart.v
Scenario.v
AuthWitness.v
Witness.v
CutoverWitness.v
Programs.v
TelegramState.v
TelegramHealth.v
TelegramClaims.v
TelegramBridge.v
TelegramPool.v
TelegramTopics.v
TelegramRuns.v
TelegramMail.v
TelegramResume.v
TelegramWitness.v
Adapter.v
AdapterRelay.v
AdapterMail.v
AdapterStarts.v
AdapterServe.v
AdapterWitness.v
Attachment.v
SourceStore.v
SourceInv.v
SourceRuns.v
SourceTheorems.v
SourceWitness.v
