(* ===== verification/Prelude.v ===== *)
(** * Punaro relay: a verification library (root file)

    Punaro's relay is a Go service ([src/internal/relay]) through which machines
    exchange mail: endpoints advertised by enrolled machines, rooms with
    memberships and capabilities, durable roles, at-least-once deliveries with
    leases, start requests, Telegram topic claims, all over one SQLite file, in
    front of it an authenticated HTTP surface and an in-memory wake notifier.
    The file can be handed over to a PostgreSQL backend by offline commands.
    A gateway process ([src/internal/telegram]) with a state file of its own
    carries mail between the relay and the topics of one Telegram user.  On each
    machine an adapter ([src/internal/adapter]) with a journal and an outbox hands
    deliveries to the local mailbox, starts roles and sends offer notices.
    Beside the relay runs the attachment service ([src/internal/attachment/v3]):
    a sender stages encrypted chunks in a database of its own, a recipient fetches
    them, and every request carries a permit and a signed operation record.

    ** Parts, files and sources

    - [Prelude]: this header, machine integers, finite-map counting, sorting,
      [bool_hyps]. [GoTime]: [time.Time] and [time.Duration] as nanoseconds.
    - [RateLimit] (rate_limit.go), [Quota] (quota.go, retention.go): the pure
      admission policies. [Text], [Sha256] (backend.go, store.go):
      identifier grammars over decoded UTF-8, digests, page tokens.
    - [Tables] (the CREATE TABLE statements of store.go and invocation.go): the
      record [Db] with a [gmap] per table and, per table, its CHECK, UNIQUE,
      FOREIGN KEY and guard trigger. [Tx]: the state [St] ([Store]), the error
      type, the state-and-error monad [M], SQL statements, [transact] (BeginTx,
      Commit, rollback), and the proof tactics [tx_inv], [preserve], [keep].
    - [Sessions], [Pending], [Opening], [Invocations], [Rooms], [Claims],
      [Roles], [Directory], [Messages], [Deliveries] (store.go, store_quota.go,
      store_retention.go, invocation.go): one definition per [Store] method.
    - [Relay] (backend.go): the [Backend] interface as the type [Op] with
      [run_op], the relation [step], [reachable], and the class [Stable] of
      invariants that every operation keeps.
    - [Auth] (auth.go, enrollment.go): enrollment, signed requests, nonces,
      bearer credentials. [Http] (http.go, fleet_config_http.go,
      fleet_config.go): every route with its guards. [Notifier] (notifier.go).
    - [Source] (migration_source.go), [Export] (migration_batch.go): inspecting,
      preparing, aborting and retiring the file, its digests, the paged export
      and the rehashing of exported rows.
    - [Destination] (src/internal/postgres/mail_cutover.go,
      mail_cutover_import.go): cutover epochs at the PostgreSQL side, each method
      one transaction of the monad [D] over [Pg]. [Cutover]
      (src/internal/cutover/executor.go): [DryRun], [Execute] and
      [AbortExecution] as sequences of durable calls over a [World] of file,
      destination and published marker (monad [X]).
    - [Programs]: transactions of a local database, programs as trees of calls
      with their events, any number of them interleaved on shared state, and the
      two logics for such runs ([tw] for one program, [wk] for many).
    - [TelegramState], [TelegramHealth] (src/internal/telegram/state.go): the
      gateway's tables as [TgDb], each method one transaction of the monad [T].
      [TelegramClaims] (claim.go), [TelegramBridge] (gateway.go, outbound.go,
      relay_submit.go, runner.go, bridge.go, the loop of
      src/cmd/punaro-telegram/main.go): the gateway's programs as trees of calls
      ([Prog]) to its state, the relay and Telegram.
    - [Adapter] (src/internal/adapter/sync.go, offer_outbox.go, mailbox.go, the
      loop of src/cmd/punaro-adapter/main.go): the journal, the outbox and the
      adapter's programs. [AdapterRelay]: those programs with the relay of the
      other files over a network that loses calls and answers ([siteRun]).
    - [Attachment] (src/internal/attachment/v3: transfer.go, manifest.go,
      permit.go, operation.go, envelope.go, offer.go, http_schema.go and the
      request of permit_issuer.go): the lifecycle of a transfer, the records
      with their wire form, and their verification. [SourceStore]
      (source_store.go, the *_store.go files, permit_ledger.go,
      permit_issuer.go, http.go, permit_http.go, reserveCrypto of artifact.go):
      the database as [SourceDb], one transaction of the monad [Tx] per
      operation, the routes, and opening a store.

    ** What the theorems show

    - At most once, in order: [Replay] (retries of sends), [History] (messages
      and deliveries only evolve), [Cursors] (cursors and sequence numbers),
      [Mailbox] (every step of the store refines an abstract mailbox of logs and unread mail).
    - Rights: [Members], [Rights] (pending mail only for receivers), [Access]
      (administrators), [Occupancy] (one exclusive room), [Starts] (start
      requests, no panic in the backoff).
    - Leases: [Fence] (a granted lease can be acknowledged, a stale one cannot).
    - Resources: [QuotaInv], [QuotaOps] (stored counters equal the measured
      backlog), [Progress] (maintenance makes progress), [Paging] (walking the
      role directory terminates and is exact), [RateLimit] (accepted rate).
    - Errors and phases: [Atomic] (a failed operation changes nothing, and
      nothing is written outside the active phase), [Restart] (reopening any reachable
      file succeeds).
    - The edge: [Authn] (sessions are authentic, replays confined), [Gateway]
      (an HTTP request acts only in the name of the admitted machine).
    - The handover: [Handover] (the commands stay within reachable states, fence
      every lease, are repeatable; retirement is final; an acknowledged delivery
      makes inspection fail), [Prepare] (inspection is the only obstacle),
      [Transfer] (an export is exact and a digest commits to its rows).
    - The cutover: [Epochs] (what one call does), [Authority] (runs of many
      executors, crashes included: one side has authority), [Execution] (the
      executor takes only such steps), [Exactness] (an activated destination holds
      the rows of the file), [Staging] and [Completion] ([Execute] completes from
      every durable boundary, and so does an abort without authority).
    - The Telegram gateway: [TelegramPool] (any number of gateway programs on
      one state, interleaved call by call; a logic with permits to create a
      topic), [TelegramTopics] (what each operation does to claims and routes),
      [TelegramRuns] (one topic per conversation, claims have their routes),
      [TelegramMail] (acknowledgements after sending, updates confirmed after
      they were handled, a delivery is rendered exactly), [TelegramResume]
      (an interrupted claim is brought to its end).
    - The adapter with the relay: [AdapterRelay] (which calls touch what),
      [AdapterMail] (acknowledged means injected, with the stored text; the
      outbox is bounded, active notices are not lost),
      [AdapterStarts] (starts and their reports have grounds), [AdapterServe]
      (executions in which everything answers; a pass over an endpoint delivers
      what it leases).
    - The attachment service: [SourceInv] (the invariant of the staged sources
      and what each transaction does to them and to the lifecycle), [SourceRuns]
      (the journal of permits and operations, the calls of the service and
      their runs), [SourceTheorems] (transfers follow [transition], quota
      counters are exact, permits are not overspent, chunks are immutable, an
      operation is executed once and its replay answers the same, the reaper
      succeeds, changes are authorized). [SourceWitness] also has two runs after
      which the service refuses to open its own store.
    - [Scenario], [Witness], [AuthWitness], [CutoverWitness], [TelegramWitness],
      [AdapterWitness], [SourceWitness]: concrete runs at which the hypotheses of
      the theorems hold.

    ** Conventions

    Integers of SQLite and Go are [Z]; where 64-bit wrap-around or clamping can
    matter it is written out ([wrap64], [wrapu64], [clamp64]).  Times are
    nanoseconds, columns milliseconds.  A SELECT without ORDER BY and a range
    over a Go map are read in the order of [map_to_list]; ORDER BY is [sortBy].
    Strings compare bytewise.  Store methods run one at a time, as the single
    connection makes them.  [uuid.NewString], the random tokens and
    [uuid.Validate] are the class [Env]; ed25519, time parsing, the transition
    authority and JSON decoding are [AuthEnv], [Json], [RowJson] or arguments;
    what the destination uses of JSON and of PostgreSQL's casts is [PgEnv].
    What is assumed of them is named ([UuidNonEmpty], [RowJsonRoundTrip],
    [CanonicalJson], [JsonBounded], [ManifestCodec]) and witnessed.  Of the
    attachment service, CBOR, BLAKE3 and ed25519 are the class [V3Env], of which
    [V3Laws] says that the encoding of a map decodes to it, that decoding yields
    bytes and 64-bit integers, and that a digest has 32 bytes; a toy codec in
    [SourceWitness] satisfies it.  The device directory is an argument of each
    of its calls ([AttachmentAuthority]).  Error texts
    of the relay are collapsed to [ErrInvalid].  Reachability admits a change of
    the migration phase and the fencing of a source at any time, so the
    invariants hold across aborted handovers.  The relay, Telegram, the clock and
    the random source may give the gateway any reply; its database may refuse a
    call or lose the answer of one it committed.  The adapter's mailbox, runtime
    and clock reply as they like too, while its relay is the modelled one.

    Loops: the fuel of [uniqueLegacyTelegramClaimKey] is the number of used keys
    plus two, that of UTF-8 decoding the length of the text, maintenance loops
    run for the batch size; [walkDirectory], [exportTable] and [importPages] take
    a number of pages, and their theorems say how many are enough.
    [ErrDiverges] is the result of a loop without exit; status 0 of a response
    is a connection aborted by a panic.  The programs of the gateway and the
    adapter are finite trees; their endless loops are the turns a pool starts.

    ** Not modelled

    The file system, SQLite itself (beyond constraints, triggers and
    transactions), column upgrades and schema variants of old files, the legacy
    Telegram repair, the frames of a notification socket, the device directory
    and its middleware, the PostgreSQL mail backend (of the destination: the
    schema audit, timestamps, the audit trail and the rebuilt quota counters),
    the Bot API client and the doctor of the Telegram gateway, the HTTP client,
    command runners, fleet reconciliation and doctor of the adapter, of the
    attachment service the encryption of artifacts and envelopes, the directory
    adapter, file permissions and the schema check, the controllers that use it,
    the earlier attachment protocol, and the other command-line tools.

    ** Plan

    Next: building and opening an artifact (artifact.go, envelope.go) and the
    attachment controllers of the adapter; which reachable stores pass
    inspection, exactly; the notification socket; the parsing of Telegram updates (src/internal/telegram/client.go);
    the publication of the cutover marker. *)

From stdpp Require Export sorting gmap strings fin_maps numbers.
From stdpp Require Export list list_tactics list_relations list_basics list_misc.

#[export] Set Default Goal Selector "!".
Open Scope Z_scope.

(** ** Machine integers

    Go's [int64] and [uint64] are [Z] with the wrap-around written out, and
    [time.Duration] subtraction saturates instead of wrapping. *)

Definition int64_min : Z := - 2 ^ 63.
Definition int64_max : Z := 2 ^ 63 - 1.

Definition wrap64 (z : Z) : Z := (z + 2 ^ 63) `mod` 2 ^ 64 - 2 ^ 63.
Definition wrapu64 (z : Z) : Z := z `mod` 2 ^ 64.
Definition clamp64 (z : Z) : Z := Z.max int64_min (Z.min int64_max z).

Definition is_int64 (z : Z) : Prop := int64_min <= z <= int64_max.

Lemma wrap64_id z : is_int64 z -> wrap64 z = z.
Proof.
  unfold is_int64, wrap64, int64_min, int64_max. intros Hz.
  rewrite Z.mod_small; lia.
Qed.

Lemma wrap64_range z : is_int64 (wrap64 z).
Proof.
  unfold is_int64, wrap64, int64_min, int64_max.
  pose proof (Z.mod_pos_bound (z + 2 ^ 63) (2 ^ 64) ltac:(lia)). lia.
Qed.

Lemma clamp64_id z : is_int64 z -> clamp64 z = z.
Proof. unfold is_int64, clamp64, int64_min, int64_max. lia. Qed.

Lemma clamp64_range z : is_int64 (clamp64 z).
Proof. unfold is_int64, clamp64, int64_min, int64_max. lia. Qed.

(** ** Sums over finite maps

    SQL aggregates ([COUNT], [SUM]) over a table are sums over a finite map. *)

Definition msum {K V} `{Countable K} (f : K -> V -> Z) (m : gmap K V) : Z :=
  map_fold (fun k v acc => f k v + acc) 0 m.

Section Msum.
Context {K V : Type} `{Countable K}.
Implicit Types (f g : K -> V -> Z) (m : gmap K V).

Lemma msum_empty f : msum f ∅ = 0.
Proof. apply map_fold_empty. Qed.

Lemma msum_insert_new f m k v :
  m !! k = None -> msum f (<[k:=v]> m) = f k v + msum f m.
Proof.
  intros Hk. unfold msum.
  apply (map_fold_insert_L (fun k v acc => f k v + acc) 0); [|done].
  intros. lia.
Qed.

Lemma msum_delete f m k v :
  m !! k = Some v -> msum f m = f k v + msum f (delete k m).
Proof.
  intros Hk. rewrite <-(insert_delete_id m k v Hk) at 1.
  apply msum_insert_new, lookup_delete_eq.
Qed.

Lemma msum_update f m k v w :
  m !! k = Some v -> msum f (<[k:=w]> m) = msum f m - f k v + f k w.
Proof.
  intros Hk. rewrite (msum_delete f m k v Hk), <-insert_delete_eq.
  rewrite msum_insert_new by apply lookup_delete_eq. lia.
Qed.

Lemma msum_ext f g m :
  (forall k v, m !! k = Some v -> f k v = g k v) -> msum f m = msum g m.
Proof.
  induction m as [|k v m Hk IH] using map_ind; intros Hfg.
  - by rewrite !msum_empty.
  - rewrite !msum_insert_new by done. rewrite (Hfg k v) by apply lookup_insert_eq.
    f_equal. apply IH. intros k' v' Hk'. apply Hfg.
    rewrite lookup_insert_ne; [done|]. intros ->. congruence.
Qed.

Lemma msum_nonneg f m :
  (forall k v, m !! k = Some v -> 0 <= f k v) -> 0 <= msum f m.
Proof.
  induction m as [|k v m Hk IH] using map_ind; intros Hf.
  - by rewrite msum_empty.
  - rewrite msum_insert_new by done.
    pose proof (Hf k v (lookup_insert_eq _ _ _)).
    enough (0 <= msum f m) by lia. apply IH. intros k' v' Hk'. apply Hf.
    rewrite lookup_insert_ne; [done|]. intros ->. congruence.
Qed.

Lemma msum_member f m k v :
  (forall k v, m !! k = Some v -> 0 <= f k v) ->
  m !! k = Some v -> f k v <= msum f m.
Proof.
  intros Hf Hk. rewrite (msum_delete f m k v Hk).
  enough (0 <= msum f (delete k m)) by lia. apply msum_nonneg.
  intros k' v' [_ Hk']%lookup_delete_Some. by apply Hf.
Qed.

Lemma msum_zero f m :
  (forall k v, m !! k = Some v -> f k v = 0) -> msum f m = 0.
Proof.
  induction m as [|k v m Hk IH] using map_ind; intros Hf.
  - by rewrite msum_empty.
  - rewrite msum_insert_new by done. rewrite (Hf k v) by apply lookup_insert_eq.
    rewrite IH; [done|]. intros k' v' Hk'. apply Hf.
    rewrite lookup_insert_ne; [done|]. intros ->. congruence.
Qed.

Lemma msum_add f g m :
  msum (fun k v => f k v + g k v) m = msum f m + msum g m.
Proof.
  induction m as [|k v m Hk IH] using map_ind.
  - by rewrite !msum_empty.
  - rewrite !msum_insert_new by done. lia.
Qed.

Lemma msum_imap f (g : K -> V -> V) m :
  msum f (map_imap (fun k v => Some (g k v)) m) = msum (fun k v => f k (g k v)) m.
Proof.
  induction m as [|k v m Hk IH] using map_ind.
  - by rewrite map_imap_empty, !msum_empty.
  - rewrite map_imap_insert_Some with (y := g k v) by done.
    rewrite !msum_insert_new; [by rewrite IH|done|].
    by rewrite map_lookup_imap, Hk.
Qed.
End Msum.

(** [indicator b] is the contribution of one row to a [COUNT]. *)
Definition indicator (b : bool) : Z := if b then 1 else 0.

Definition mcount {K V} `{Countable K} (p : K -> V -> bool) (m : gmap K V) : Z :=
  msum (fun k v => indicator (p k v)) m.

Lemma indicator_nonneg b : 0 <= indicator b.
Proof. destruct b; simpl; lia. Qed.

Lemma mcount_nonneg {K V} `{Countable K} (p : K -> V -> bool) (m : gmap K V) :
  0 <= mcount p m.
Proof. apply msum_nonneg. intros. apply indicator_nonneg. Qed.

Lemma mcount_pos {K V} `{Countable K} (p : K -> V -> bool) (m : gmap K V) :
  0 < mcount p m <-> exists k v, m !! k = Some v /\ p k v = true.
Proof.
  split.
  - unfold mcount. induction m as [|k v m Hk IH] using map_ind.
    + rewrite msum_empty. lia.
    + rewrite msum_insert_new by done. destruct (p k v) eqn:Hp.
      * intros _. exists k, v. by rewrite lookup_insert_eq.
      * simpl. intros Hpos. destruct IH as (k' & v' & Hk' & Hp'); [lia|].
        exists k', v'. split; [|done]. rewrite lookup_insert_ne; [done|].
        intros ->. congruence.
  - intros (k & v & Hk & Hp). unfold mcount.
    pose proof (msum_member (fun k v => indicator (p k v)) m k v) as Hle.
    cbv beta in Hle. rewrite Hp in Hle. simpl in Hle.
    enough (1 <= msum (fun k v => indicator (p k v)) m) by lia.
    apply Hle; [|done]. intros. apply indicator_nonneg.
Qed.

(** [mexists] is SQL's [EXISTS (SELECT 1 FROM m WHERE p)]. *)
Definition mexists {K V} `{Countable K} (p : K -> V -> bool) (m : gmap K V) : bool :=
  existsb (fun kv => p kv.1 kv.2) (map_to_list m).

Lemma mexists_true {K V} `{Countable K} (p : K -> V -> bool) (m : gmap K V) :
  mexists p m = true <-> exists k v, m !! k = Some v /\ p k v = true.
Proof.
  unfold mexists. rewrite existsb_exists. split.
  - intros ([k v] & Hin & Hp). exists k, v. split; [|done].
    by apply elem_of_map_to_list, list_elem_of_In.
  - intros (k & v & Hk & Hp). exists (k, v). split; [|done].
    by apply list_elem_of_In, elem_of_map_to_list.
Qed.

Lemma mexists_false {K V} `{Countable K} (p : K -> V -> bool) (m : gmap K V) :
  mexists p m = false <-> forall k v, m !! k = Some v -> p k v = false.
Proof.
  rewrite <-not_true_iff_false, mexists_true. split.
  - intros Hno k v Hk. destruct (p k v) eqn:Hp; [|done]. exfalso. eauto.
  - intros Hall (k & v & Hk & Hp). specialize (Hall k v Hk). congruence.
Qed.

(** Sums over lists. *)
Fixpoint lsum {A} (f : A -> Z) (l : list A) : Z :=
  match l with [] => 0 | x :: l => f x + lsum f l end.

Section Lsum.
Context {A : Type}.
Implicit Types (f g : A -> Z) (l : list A).

Lemma lsum_app f l1 l2 : lsum f (l1 ++ l2) = lsum f l1 + lsum f l2.
Proof. induction l1 as [|x l1 IH]; simpl; [done|]. rewrite IH. lia. Qed.

Lemma lsum_nonneg f l : (forall x, x ∈ l -> 0 <= f x) -> 0 <= lsum f l.
Proof.
  induction l as [|x l IH]; simpl; intros Hf; [done|].
  pose proof (Hf x ltac:(set_solver)). enough (0 <= lsum f l) by lia.
  apply IH. intros y Hy. apply Hf. set_solver.
Qed.

Lemma lsum_ext f g l : (forall x, x ∈ l -> f x = g x) -> lsum f l = lsum g l.
Proof.
  induction l as [|x l IH]; simpl; intros Hfg; [done|].
  rewrite (Hfg x) by set_solver. f_equal. apply IH. intros y Hy. apply Hfg. set_solver.
Qed.

Lemma lsum_const (k : Z) l : lsum (fun _ => k) l = k * Z.of_nat (length l).
Proof. induction l as [|x l IH]; simpl length; simpl lsum; lia. Qed.

#[export] Instance lsum_perm f : Proper ((≡ₚ) ==> eq) (lsum f).
Proof. induction 1; simpl; lia. Qed.
End Lsum.

Lemma filter_empty {A} (P : A -> Prop) `{!forall x, Decision (P x)} (l : list A) :
  (forall x, x ∈ l -> ~ P x) -> filter P l = [].
Proof.
  induction l as [|x l IH]; intros Hl; [done|]. rewrite filter_cons_False by (apply Hl; set_solver).
  apply IH. set_solver.
Qed.

Lemma filter_all {A} (P : A -> Prop) `{!forall x, Decision (P x)} (l : list A) :
  (forall x, x ∈ l -> P x) -> filter P l = l.
Proof.
  induction l as [|x l IH]; intros Hl; [done|]. rewrite filter_cons_True by (apply Hl; set_solver).
  f_equal. apply IH. set_solver.
Qed.

(** ** Sorting by a boolean comparison (ORDER BY, [sort.Slice]) *)

Definition bool_rel {A} (le : A -> A -> bool) (a b : A) : Prop := le a b = true.

#[export] Instance bool_rel_dec {A} (le : A -> A -> bool) a b : Decision (bool_rel le a b).
Proof. unfold bool_rel. apply _. Defined.

Definition sortBy {A} (le : A -> A -> bool) : list A -> list A := merge_sort (bool_rel le).

Lemma sortBy_perm {A} (le : A -> A -> bool) l : sortBy le l ≡ₚ l.
Proof. apply merge_sort_Permutation. Qed.

(** Selecting rows keeps their keys distinct. *)
Lemma NoDup_omap {A B C} (f : A -> option B) (g : B -> C) (h : A -> C) (l : list A) :
  (forall x y, f x = Some y -> g y = h x) -> NoDup (h <$> l) -> NoDup (g <$> omap f l).
Proof.
  intros Hf. assert ((g <$> omap f l) `sublist_of` (h <$> l)) as Hsub.
  { induction l as [|x l IH]; simpl; [constructor|].
    destruct (f x) as [y|] eqn:Hy; simpl; [rewrite (Hf _ _ Hy)|]; by constructor. }
  intros Hnd. by eapply sublist_NoDup.
Qed.

Lemma elem_of_sortBy {A} (le : A -> A -> bool) l x : x ∈ sortBy le l <-> x ∈ l.
Proof. by rewrite sortBy_perm. Qed.

(** ** Tactics shared by the components *)

(** Split boolean connectives in hypotheses into propositions. *)
Ltac bool_hyps :=
  repeat match goal with
  | H : (_ && _)%bool = true |- _ => apply andb_true_iff in H as [? ?]
  | H : (_ || _)%bool = false |- _ => apply orb_false_iff in H as [? ?]
  | H : negb _ = true |- _ => apply negb_true_iff in H
  | H : negb _ = false |- _ => apply negb_false_iff in H
  | H : bool_decide _ = true |- _ => apply bool_decide_eq_true in H
  | H : bool_decide _ = false |- _ => apply bool_decide_eq_false in H
  | H : (_ <=? _) = true |- _ => apply Z.leb_le in H
  | H : (_ <=? _) = false |- _ => apply Z.leb_gt in H
  | H : (_ <? _) = true |- _ => apply Z.ltb_lt in H
  | H : (_ <? _) = false |- _ => apply Z.ltb_ge in H
  | H : (_ =? _) = true |- _ => apply Z.eqb_eq in H
  | H : (_ =? _) = false |- _ => apply Z.eqb_neq in H
  end.

(** Case analysis on every boolean test of the goal, with its meaning. *)
Ltac bool_cases :=
  repeat match goal with
  | |- context [?a <=? ?b] => destruct (Z.leb_spec a b)
  | |- context [?a <? ?b] => destruct (Z.ltb_spec a b)
  | |- context [?a =? ?b] => destruct (Z.eqb_spec a b)
  | |- context [bool_decide ?P] => destruct (bool_decide_reflect P)
  end.

Create HintDb punaro.
#[export] Hint Resolve indicator_nonneg mcount_nonneg : punaro.
Create Rewrite HintDb punaro_rw.
#[export] Hint Rewrite @msum_empty @lookup_insert_eq @lookup_delete_eq @lookup_empty : punaro_rw.
