(* ===== verification/Notifier.v ===== *)
(** * The wake notifier ([notifier.go], [BroadcastFleetWake] of fleet_config.go)

    Machine-scoped, best-effort wake hints.  A subscription is a channel of 16
    events; publishing never blocks and drops the hint when a queue is full.
    The mutex makes each operation one step; a receiver takes events from its
    channel in between.  Clients are pointers, numbered in order of creation. *)

From S2P Require Import Prelude.
Open Scope Z_scope.

Record WakeEvent := { we_Type : string; we_TopicID : string; we_Sequence : Z }.

Definition queueCapacity : nat := 16.

(** [nt_clients] is the map of the code; the channel, the machine and the
    [sync.Once] of each client outlive its registration. *)
Record Notifier := mkNotifier {
  nt_clients : gmap string (gset nat);
  nt_events : gmap nat (list WakeEvent);
  nt_machine : gmap nat string;
  nt_once : gset nat;
  nt_next : nat;
}.

Definition NewNotifier : Notifier := mkNotifier ∅ ∅ ∅ ∅ 0.

Definition clientsOf (n : Notifier) (machineID : string) : gset nat := default ∅ (nt_clients n !! machineID).

Definition Register (machineID : string) (n : Notifier) : nat * Notifier :=
  let client := nt_next n in
  (client, mkNotifier (<[machineID := {[client]} ∪ clientsOf n machineID]> (nt_clients n))
     (<[client := []]> (nt_events n)) (<[client := machineID]> (nt_machine n)) (nt_once n) (S client)).

(** The [select] with a default branch. *)
Definition offer (event : WakeEvent) (queue : list WakeEvent) : list WakeEvent :=
  if Nat.ltb (length queue) queueCapacity then queue ++ [event] else queue.

Definition wake (topicID : string) (sequence : Z) : WakeEvent :=
  {| we_Type := "wake"; we_TopicID := topicID; we_Sequence := sequence |}.

Definition offerAll (event : WakeEvent) (clients : gset nat) (events : gmap nat (list WakeEvent))
    : gmap nat (list WakeEvent) :=
  map_imap (fun client queue => Some (if bool_decide (client ∈ clients) then offer event queue else queue)) events.

Definition publishLocked (machineID topicID : string) (sequence : Z) (n : Notifier) : Notifier :=
  mkNotifier (nt_clients n) (offerAll (wake topicID sequence) (clientsOf n machineID) (nt_events n))
    (nt_machine n) (nt_once n) (nt_next n).

Definition Publish (machineID topicID : string) (sequence : Z) (n : Notifier) : Notifier :=
  publishLocked machineID topicID sequence n.

Definition PublishAll (topicID : string) (sequence : Z) (n : Notifier) : Notifier :=
  foldr (fun machineID => publishLocked machineID topicID sequence) n (map_to_list (nt_clients n)).*1.

(** [<-client.Events()] *)
Definition Receive (client : nat) (n : Notifier) : option (WakeEvent * Notifier) :=
  match nt_events n !! client with
  | Some (event :: queue) =>
      Some (event, mkNotifier (nt_clients n) (<[client := queue]> (nt_events n)) (nt_machine n)
                     (nt_once n) (nt_next n))
  | _ => None
  end.

Definition Close (client : nat) (n : Notifier) : Notifier :=
  if bool_decide (client ∈ nt_once n) then n
  else match nt_machine n !! client with
  | None => n
  | Some machineID =>
      let rest := clientsOf n machineID ∖ {[client]} in
      mkNotifier (if bool_decide (rest = ∅) then delete machineID (nt_clients n)
                  else <[machineID := rest]> (nt_clients n))
        (nt_events n) (nt_machine n) ({[client]} ∪ nt_once n) (nt_next n)
  end.

Definition FleetConfigTopic : string := "fleet-config".

(** The new value of the caller's [previous]. *)
Definition BroadcastFleetWake (previous current : Z) (n : option Notifier) : Z * option Notifier :=
  match n with
  | None => (previous, None)
  | Some n =>
      if current <=? previous then (previous, Some n)
      else (current, Some (PublishAll FleetConfigTopic current n))
  end.

(** ** Reachable notifiers *)

Inductive notifier_step : Notifier -> Notifier -> Prop :=
  | step_register machineID n : notifier_step n (Register machineID n).2
  | step_publish machineID topicID sequence n : notifier_step n (Publish machineID topicID sequence n)
  | step_publish_all topicID sequence n : notifier_step n (PublishAll topicID sequence n)
  | step_receive client event n n' : Receive client n = Some (event, n') -> notifier_step n n'
  | step_close client n : notifier_step n (Close client n).

(** The registered clients are the open ones, under their machine; no machine is
    kept without clients; pointers are fresh; queues are bounded. *)
Definition notifier_ok (n : Notifier) : Prop :=
  (forall machineID client, client ∈ clientsOf n machineID <->
    nt_machine n !! client = Some machineID /\ client ∉ nt_once n) /\
  (forall machineID, nt_clients n !! machineID <> Some ∅) /\
  (forall client, is_Some (nt_machine n !! client) <-> is_Some (nt_events n !! client)) /\
  (forall client, is_Some (nt_machine n !! client) -> (client < nt_next n)%nat) /\
  (forall client, client ∈ nt_once n -> is_Some (nt_machine n !! client)) /\
  (forall client queue, nt_events n !! client = Some queue -> (length queue <= queueCapacity)%nat).

Lemma offer_bound event queue :
  (length queue <= queueCapacity)%nat -> (length (offer event queue) <= queueCapacity)%nat.
Proof. unfold offer. case_match eqn:E; [|done]. apply Nat.ltb_lt in E. rewrite length_app. simpl. lia. Qed.

Lemma lookup_offerAll event clients events client :
  offerAll event clients events !! client =
  (fun queue => if bool_decide (client ∈ clients) then offer event queue else queue) <$> events !! client.
Proof. unfold offerAll. rewrite map_lookup_imap. by destruct (events !! client). Qed.

Lemma publish_ok machineID topicID sequence n :
  notifier_ok n -> notifier_ok (publishLocked machineID topicID sequence n).
Proof.
  intros (Hc & He & Hm & Hn & Ho & Hb). unfold publishLocked. split_and!; simpl; try done.
  - intros client. rewrite lookup_offerAll, fmap_is_Some. apply Hm.
  - intros client queue. rewrite lookup_offerAll, fmap_Some. intros (q & Hq & ->).
    case_bool_decide; [apply offer_bound|]; by eapply Hb.
Qed.

Lemma publish_all_ok topicID sequence n : notifier_ok n -> notifier_ok (PublishAll topicID sequence n).
Proof.
  unfold PublishAll. intros Hn. induction (map_to_list (nt_clients n)).*1; simpl; [done|].
  by apply publish_ok.
Qed.

Lemma register_ok machineID n : notifier_ok n -> notifier_ok (Register machineID n).2.
Proof.
  intros (Hc & He & Hm & Hn & Ho & Hb). set (new := nt_next n).
  assert (nt_machine n !! new = None) as Hfresh.
  { destruct (nt_machine n !! new) as [m|] eqn:E; [|done].
    assert (is_Some (nt_machine n !! new)) as Hs%Hn by (by exists m). unfold new in Hs. lia. }
  assert (new ∉ nt_once n) as Hopen.
  { intros [m Hnew]%Ho. congruence. }
  unfold Register. split_and!; cbn [nt_clients nt_events nt_machine nt_once nt_next snd].
  - intros m client. unfold clientsOf at 1. cbn. rewrite !lookup_insert.
    destruct (decide (machineID = m)) as [<-|Hne]; simpl.
    + rewrite elem_of_union, elem_of_singleton, Hc. case_decide as Hcl; [|naive_solver].
      subst. split; [done|]. by left.
    + fold (clientsOf n m). rewrite Hc. case_decide as Hcl; [subst client|done].
      fold new. rewrite Hfresh. naive_solver.
  - intros m. rewrite lookup_insert. case_decide; [intros [= E]; set_solver|apply He].
  - intros client. rewrite !lookup_insert. case_decide; [by split; eauto|apply Hm].
  - intros client. rewrite lookup_insert. case_decide as Hcl; [lia|]. intros Hs%Hn. lia.
  - intros client Hs%Ho. rewrite lookup_insert. by case_decide; [eexists|].
  - intros client queue. rewrite lookup_insert. case_decide; [intros [= <-]; simpl; lia|apply Hb].
Qed.

Lemma receive_ok client event n n' :
  Receive client n = Some (event, n') -> notifier_ok n -> notifier_ok n'.
Proof.
  unfold Receive. destruct (nt_events n !! client) as [[|e queue]|] eqn:E; intros [= <- <-].
  intros (Hc & He & Hm & Hn & Ho & Hb). split_and!; simpl; try done.
  - intros c. rewrite lookup_insert. case_decide as Hcl; [subst|apply Hm].
    rewrite Hm, E. by split; eexists.
  - intros c q. rewrite lookup_insert. case_decide as Hcl; [|apply Hb].
    intros [= <-]. apply Hb in E. simpl in E. lia.
Qed.

Lemma close_ok client n : notifier_ok n -> notifier_ok (Close client n).
Proof.
  intros Hok. pose proof Hok as (Hc & He & Hm & Hn & Ho & Hb). unfold Close.
  case_bool_decide as Honce; [done|]. destruct (nt_machine n !! client) as [machineID|] eqn:Em; [|done].
  set (rest := clientsOf n machineID ∖ {[client]}).
  set (clients' := if bool_decide (rest = ∅) then _ else _).
  assert (forall m, default ∅ (clients' !! m) = if bool_decide (m = machineID) then rest else clientsOf n m) as Hcl.
  { intros m. unfold clients', clientsOf. case_bool_decide as Hr; case_bool_decide as Hm'; subst.
    - by rewrite lookup_delete_eq, Hr.
    - by rewrite lookup_delete_ne.
    - by rewrite lookup_insert_eq.
    - by rewrite lookup_insert_ne. }
  split_and!; cbn [nt_clients nt_events nt_machine nt_once nt_next]; try done.
  - intros m c. unfold clientsOf at 1. cbn. rewrite Hcl. case_bool_decide as Hm'.
    + subst m. unfold rest. rewrite elem_of_difference, elem_of_singleton, Hc. set_solver.
    + rewrite Hc. split; [|set_solver]. intros [Hmc Ho']. split; [done|].
      rewrite elem_of_union, elem_of_singleton. intros [->|?]; [congruence|done].
  - intros m. unfold clients'. case_bool_decide as Hr.
    + destruct (decide (m = machineID)) as [->|]; [by rewrite lookup_delete_eq|].
      rewrite lookup_delete_ne by done. apply He.
    + rewrite lookup_insert. case_decide; [|apply He]. by intros [= ?].
  - intros c [->%elem_of_singleton|Hs]%elem_of_union; [by exists machineID|by apply Ho].
Qed.

Lemma notifier_reachable_ok n : rtc notifier_step NewNotifier n -> notifier_ok n.
Proof.
  refine (rtc_ind_r notifier_ok NewNotifier _ _ n).
  - assert (forall (A : Type) (k : nat), is_Some ((∅ : gmap nat A) !! k) -> False) as Hno.
    { intros A k [x Hx]. by rewrite lookup_empty in Hx. }
    split_and!; unfold NewNotifier, clientsOf; cbn [nt_clients nt_events nt_machine nt_once nt_next].
    + intros m c. rewrite !lookup_empty. set_solver.
    + intros m. by rewrite lookup_empty.
    + intros c. split; intros Hs; by apply Hno in Hs.
    + intros c Hs. by apply Hno in Hs.
    + set_solver.
    + intros c q. by rewrite lookup_empty.
  - intros n1 n2 _ [machineID n0|machineID topicID sequence n0|topicID sequence n0|client event n0 n' Hr|client n0] Hok;
      [by apply register_ok|by apply publish_ok|by apply publish_all_ok|by eapply receive_ok|by apply close_ok].
Qed.

(** A wake hint reaches every subscriber, or finds it already awake: in every
    reachable notifier, publishing for a machine leaves each of its open
    subscriptions with a hint to receive, namely the new one unless 16 older
    ones are still waiting, keeps every queue within 16 hints, and touches no
    subscription of another machine. *)
Theorem publish_wakes machineID topicID sequence n client m queue :
  rtc notifier_step NewNotifier n ->
  nt_machine n !! client = Some m -> client ∉ nt_once n -> nt_events n !! client = Some queue ->
  exists queue', nt_events (Publish machineID topicID sequence n) !! client = Some queue' /\
    (length queue' <= queueCapacity)%nat /\
    (m <> machineID -> queue' = queue) /\
    (m = machineID -> queue' <> [] /\
      (queue' = queue ++ [wake topicID sequence] \/ queue' = queue /\ length queue = queueCapacity)).
Proof.
  intros (Hc & _ & _ & _ & _ & Hb)%notifier_reachable_ok Hm Ho Hq.
  pose proof (Hb client queue Hq) as Hlen.
  exists (if bool_decide (client ∈ clientsOf n machineID) then offer (wake topicID sequence) queue else queue).
  split_and!.
  - unfold Publish, publishLocked. cbn. by rewrite lookup_offerAll, Hq.
  - case_bool_decide; [by apply offer_bound|done].
  - intros Hne. rewrite bool_decide_eq_false_2; [done|]. intros [Hm' _]%Hc. congruence.
  - intros ->. rewrite bool_decide_eq_true_2 by by apply Hc. unfold offer.
    destruct (Nat.ltb_spec (length queue) queueCapacity) as [|Hfull].
    + split; [by destruct queue|by left].
    + split; [intros ->; simpl in Hfull; unfold queueCapacity in Hfull; lia|]. right. split; [done|lia].
Qed.
