(* ===== verification/GoTime.v ===== *)
(** * Go's [time] package, as far as the relay uses it

    A [time.Time] is its number of nanoseconds since the Unix epoch, a
    [time.Duration] an [int64] number of nanoseconds.  [Truncate] is only used
    with [time.Millisecond]; the zero [Time] (year 1) lies a whole number of
    seconds before the epoch, so truncation from the zero time is truncation
    from the epoch. *)

From S2P Require Import Prelude.
Open Scope Z_scope.

Module Time.
Definition Nanosecond : Z := 1.
Definition Millisecond : Z := 1000000.
Definition Second : Z := 1000000000.
Definition Minute : Z := 60 * Second.
Definition Hour : Z := 60 * Minute.

(** The zero [time.Time]: January 1, year 1, 00:00:00 UTC. *)
Definition zero : Z := - 62135596800 * Second.

Definition IsZero (t : Z) : bool := t =? zero.
Definition UnixMilli (t : Z) : Z := t / Millisecond.
Definition fromMillis (ms : Z) : Z := ms * Millisecond.
Definition TruncateMs (t : Z) : Z := (t / Millisecond) * Millisecond.
Definition Add (t d : Z) : Z := t + d.
(** [Time.Sub] saturates at the extreme durations. *)
Definition Sub (t u : Z) : Z := clamp64 (t - u).
Definition Before (t u : Z) : bool := t <? u.
Definition After (t u : Z) : bool := u <? t.

Lemma UnixMilli_fromMillis ms : UnixMilli (fromMillis ms) = ms.
Proof. unfold UnixMilli, fromMillis, Millisecond. apply Z.div_mul. lia. Qed.

Lemma UnixMilli_TruncateMs t : UnixMilli (TruncateMs t) = UnixMilli t.
Proof. unfold UnixMilli, TruncateMs, Millisecond. apply Z.div_mul. lia. Qed.

Lemma TruncateMs_idem t : TruncateMs (TruncateMs t) = TruncateMs t.
Proof.
  unfold TruncateMs, Millisecond. rewrite Z.div_mul by lia. done.
Qed.

Lemma TruncateMs_bound t : TruncateMs t <= t < TruncateMs t + Millisecond.
Proof.
  unfold TruncateMs, Millisecond.
  pose proof (Z.div_mod t 1000000 ltac:(lia)).
  pose proof (Z.mod_pos_bound t 1000000 ltac:(lia)). lia.
Qed.

Lemma TruncateMs_mono t u : t <= u -> TruncateMs t <= TruncateMs u.
Proof.
  intros Hle. unfold TruncateMs, Millisecond.
  pose proof (Z.div_le_mono t u 1000000 ltac:(lia) Hle). lia.
Qed.

Lemma UnixMilli_mono t u : t <= u -> UnixMilli t <= UnixMilli u.
Proof. apply Z.div_le_mono. unfold Millisecond. lia. Qed.
End Time.

#[export] Hint Resolve Time.UnixMilli_mono Time.TruncateMs_mono : punaro.
