(* ===== verification/RateLimit.v ===== *)
(** * The token-bucket rate limiter ([internal/relay/rate_limit.go])

    [DecideRateLimit] refills the sender's and the conversation's bucket and
    either takes one token from each or reports how long to wait.  The store
    keeps the buckets (see [Messages]); this file is the pure policy. *)

From S2P Require Import Prelude GoTime.
Open Scope Z_scope.

(** ** Policy *)

Definition RateLimitBurstMin : Z := 1.
Definition RateLimitBurstMax : Z := 10000.
Definition RateLimitRefillMin : Z := 1.
Definition RateLimitRefillMax : Z := 10000.
Definition RateLimitRetryAfterMin : Z := 1.
Definition RateLimitRetryAfterMaxBound : Z := 3600.

Record RateLimitConfig := {
  SenderBurst : Z;
  SenderRefillPerMinute : Z;
  ConversationBurst : Z;
  ConversationRefillPerMinute : Z;
  RetryAfterMaxSeconds : Z;
}.

#[export] Instance RateLimitConfig_eq_dec : EqDecision RateLimitConfig.
Proof. solve_decision. Defined.

Definition DefaultRateLimitConfig : RateLimitConfig := {|
  SenderBurst := 60;
  SenderRefillPerMinute := 60;
  ConversationBurst := 120;
  ConversationRefillPerMinute := 120;
  RetryAfterMaxSeconds := 60;
|}.

(** [boundedRateInt] returns an error outside the range; here [false]. *)
Definition boundedRateInt (value minimum maximum : Z) : bool :=
  negb ((value <? minimum) || (maximum <? value)).

Definition RateLimitConfig_Validate (c : RateLimitConfig) : bool :=
  boundedRateInt (SenderBurst c) RateLimitBurstMin RateLimitBurstMax
  && boundedRateInt (SenderRefillPerMinute c) RateLimitRefillMin RateLimitRefillMax
  && boundedRateInt (ConversationBurst c) RateLimitBurstMin RateLimitBurstMax
  && boundedRateInt (ConversationRefillPerMinute c) RateLimitRefillMin RateLimitRefillMax
  && boundedRateInt (RetryAfterMaxSeconds c) RateLimitRetryAfterMin RateLimitRetryAfterMaxBound.

(** ** Buckets *)

Record RateBucket := { Tokens : Z; UpdatedAt : Z }.

#[export] Instance RateBucket_eq_dec : EqDecision RateBucket.
Proof. solve_decision. Defined.

Record RateLimitDecision := {
  Allowed : bool;
  RetryAfterSeconds : Z;
  Sender : RateBucket;
  ConversationBucket : RateBucket;
}.

Definition refillPeriod (tokensPerMinute : Z) : Z :=
  Z.quot Time.Minute (if tokensPerMinute <? 1 then 1 else tokensPerMinute).

(** The last step of [refillBucket]: never more tokens than [burst]. *)
Definition cap_tokens (b : RateBucket) (burst : Z) : RateBucket :=
  if burst <? Tokens b then {| Tokens := burst; UpdatedAt := UpdatedAt b |} else b.

Definition refillBucket (bucket : RateBucket) (now burst every : Z) : RateBucket :=
  if Time.IsZero (UpdatedAt bucket) then {| Tokens := burst; UpdatedAt := now |}
  else if Time.Before now (UpdatedAt bucket) then cap_tokens bucket burst
  else
    let elapsed := Time.Sub now (UpdatedAt bucket) in
    let added := Z.quot elapsed every in
    let bucket :=
      if 0 <? added then
        {| Tokens := wrap64 (Tokens bucket + added);
           UpdatedAt := Time.Add (UpdatedAt bucket) (wrap64 (added * every)) |}
      else bucket in
    cap_tokens bucket burst.

Definition bucketWait (bucket : RateBucket) (now every : Z) : Z :=
  let next := Time.Add (UpdatedAt bucket) every in
  let wait := Time.Sub next now in
  if wait <? 0 then 0 else wait.

(** [math.Ceil(wait.Seconds())] as an exact ceiling: the float64 rounding of
    [Seconds] only matters for waits of more than [2^22] seconds, which the
    clamp below (at most [RateLimitRetryAfterMaxBound]) cuts off anyway. *)
Definition ceilSeconds (wait : Z) : Z := - ((- wait) / Time.Second).

Definition boundRetryAfter (wait maxSeconds : Z) : Z :=
  let seconds := ceilSeconds wait in
  let seconds := if seconds <? RateLimitRetryAfterMin then RateLimitRetryAfterMin else seconds in
  let maxSeconds :=
    if maxSeconds <? RateLimitRetryAfterMin then RateLimitRetryAfterMin else maxSeconds in
  if maxSeconds <? seconds then maxSeconds else seconds.

Definition DecideRateLimit (cfg : RateLimitConfig) (sender conversation : RateBucket)
    (now : Z) : RateLimitDecision :=
  let now := Time.TruncateMs now in
  let senderRefill := refillPeriod (SenderRefillPerMinute cfg) in
  let conversationRefill := refillPeriod (ConversationRefillPerMinute cfg) in
  let sender := refillBucket sender now (SenderBurst cfg) senderRefill in
  let conversation :=
    refillBucket conversation now (ConversationBurst cfg) conversationRefill in
  if (Tokens sender <? 1) || (Tokens conversation <? 1) then
    let wait := if Tokens sender <? 1 then bucketWait sender now senderRefill else 0 in
    let wait :=
      if Tokens conversation <? 1 then
        let convWait := bucketWait conversation now conversationRefill in
        if wait <? convWait then convWait else wait
      else wait in
    {| Allowed := false;
       RetryAfterSeconds := boundRetryAfter wait (RetryAfterMaxSeconds cfg);
       Sender := sender; ConversationBucket := conversation |}
  else
    {| Allowed := true; RetryAfterSeconds := 0;
       Sender := {| Tokens := Tokens sender - 1; UpdatedAt := UpdatedAt sender |};
       ConversationBucket :=
         {| Tokens := Tokens conversation - 1; UpdatedAt := UpdatedAt conversation |} |}.

(** What a bucket becomes when [saveRateBucket] writes it and
    [loadRateBucket] reads it back: the durable column holds milliseconds. *)
Definition storedBucket (b : RateBucket) : RateBucket :=
  {| Tokens := Tokens b;
     UpdatedAt := Time.fromMillis (Time.UnixMilli (Time.TruncateMs (UpdatedAt b))) |}.

(** The appends of one (sender, conversation) pair at the given times: the
    buckets are written back only when an append is allowed.  The result is
    the number of appends allowed. *)
Fixpoint run_appends (cfg : RateLimitConfig) (s c : RateBucket) (times : list Z) : Z :=
  match times with
  | [] => 0
  | t :: times =>
      let d := DecideRateLimit cfg s c t in
      if Allowed d then
        1 + run_appends cfg (storedBucket (Sender d)) (storedBucket (ConversationBucket d)) times
      else run_appends cfg s c times
  end.

(** ** Lemmas *)

(** Times between the Unix epoch and the last [int64] nanosecond (year 2262):
    in this range [Sub] does not saturate. *)
Definition sane_time (t : Z) : Prop := 0 <= t <= int64_max.

Definition bucket_ok (b : RateBucket) : Prop :=
  0 <= Tokens b <= RateLimitBurstMax /\ sane_time (UpdatedAt b).

Lemma sane_not_zero t : sane_time t -> Time.IsZero t = false.
Proof.
  unfold sane_time, Time.IsZero, Time.zero, Time.Second. intros.
  apply Z.eqb_neq. lia.
Qed.

Lemma sane_TruncateMs t : sane_time t -> sane_time (Time.TruncateMs t).
Proof.
  unfold sane_time. intros Ht. pose proof (Time.TruncateMs_bound t).
  unfold Time.TruncateMs, Time.Millisecond in *.
  pose proof (Z.div_pos t 1000000). lia.
Qed.

Lemma boundedRateInt_true v lo hi : boundedRateInt v lo hi = true <-> lo <= v <= hi.
Proof.
  unfold boundedRateInt. rewrite negb_true_iff, orb_false_iff, !Z.ltb_ge. lia.
Qed.

Lemma Validate_bounds c :
  RateLimitConfig_Validate c = true <->
  1 <= SenderBurst c <= 10000 /\ 1 <= SenderRefillPerMinute c <= 10000
  /\ 1 <= ConversationBurst c <= 10000 /\ 1 <= ConversationRefillPerMinute c <= 10000
  /\ 1 <= RetryAfterMaxSeconds c <= 3600.
Proof.
  unfold RateLimitConfig_Validate. rewrite !andb_true_iff, !boundedRateInt_true.
  unfold RateLimitBurstMin, RateLimitBurstMax, RateLimitRefillMin, RateLimitRefillMax,
    RateLimitRetryAfterMin, RateLimitRetryAfterMaxBound. lia.
Qed.

Lemma refillPeriod_bounds r :
  1 <= r <= 10000 -> 6 * Time.Millisecond <= refillPeriod r <= Time.Minute.
Proof.
  intros Hr. unfold refillPeriod. destruct (Z.ltb_spec r 1); [lia|].
  rewrite Z.quot_div_nonneg by (unfold Time.Minute, Time.Second; lia).
  unfold Time.Minute, Time.Second, Time.Millisecond. split.
  - apply Z.div_le_lower_bound; lia.
  - apply Z.div_le_upper_bound; lia.
Qed.

Lemma cap_tokens_spec b burst :
  cap_tokens b burst = {| Tokens := Z.min burst (Tokens b); UpdatedAt := UpdatedAt b |}.
Proof.
  unfold cap_tokens. destruct (Z.ltb_spec burst (Tokens b)); destruct b; simpl in *;
    f_equal; lia.
Qed.

(** Refilling an initialised bucket at a later time, without machine words. *)
Lemma refillBucket_spec b now burst every :
  bucket_ok b -> sane_time now -> UpdatedAt b <= now ->
  6 * Time.Millisecond <= every <= Time.Minute ->
  let k := (now - UpdatedAt b) / every in
  refillBucket b now burst every =
    {| Tokens := Z.min burst (Tokens b + k); UpdatedAt := UpdatedAt b + k * every |}.
Proof.
  intros [Htok Hupd] Hnow Hle Hev k.
  unfold sane_time, RateLimitBurstMax, Time.Millisecond, Time.Minute, Time.Second in *.
  assert (0 <= k /\ k * every <= now - UpdatedAt b) as [Hk Hke].
  { unfold k. pose proof (Z.div_mod (now - UpdatedAt b) every ltac:(lia)).
    pose proof (Z.mod_pos_bound (now - UpdatedAt b) every ltac:(lia)).
    pose proof (Z.div_pos (now - UpdatedAt b) every). nia. }
  assert (k <= now - UpdatedAt b) by nia.
  assert (1000000 * k <= now - UpdatedAt b) by nia.
  unfold refillBucket, Time.Before, Time.Sub, Time.Add.
  rewrite sane_not_zero by done. destruct (Z.ltb_spec now (UpdatedAt b)); [lia|].
  rewrite clamp64_id by (unfold is_int64, int64_min, int64_max in *; lia).
  rewrite Z.quot_div_nonneg by lia. fold k.
  rewrite cap_tokens_spec. destruct (Z.ltb_spec 0 k); simpl.
  - rewrite !wrap64_id; [done|unfold is_int64, int64_min, int64_max in *; lia..].
  - assert (k = 0) as -> by lia. f_equal; lia.
Qed.

(** ** The decision, on valid policies and sane clocks *)

(** Tokens a bucket has gained by [now]. *)
Definition gained (b : RateBucket) (now every : Z) : Z := (now - UpdatedAt b) / every.

(** The bucket is initialised, and its clock is not ahead of [now]. *)
Definition bucket_at (b : RateBucket) (now : Z) : Prop :=
  bucket_ok b /\ UpdatedAt b <= Time.TruncateMs now.

Lemma gained_nonneg b now every : 0 < every -> UpdatedAt b <= now -> 0 <= gained b now every.
Proof. intros. apply Z.div_pos; lia. Qed.

Lemma gained_mono b now now' every :
  0 < every -> now <= now' -> gained b now every <= gained b now' every.
Proof. intros. apply Z.div_le_mono; lia. Qed.

Lemma gained_pos_iff b now every :
  0 < every -> UpdatedAt b <= now -> 1 <= gained b now every <-> UpdatedAt b + every <= now.
Proof.
  intros Hev Hle. unfold gained. split; intros H.
  - destruct (Z.le_gt_cases (UpdatedAt b + every) now) as [|Hlt]; [done|].
    rewrite Z.div_small in H; lia.
  - apply Z.div_le_lower_bound; lia.
Qed.

Lemma bucket_lag b now every :
  0 < every -> 0 <= now - (UpdatedAt b + gained b now every * every) < every.
Proof.
  intros Hev. unfold gained. pose proof (Z.div_mod (now - UpdatedAt b) every ltac:(lia)).
  pose proof (Z.mod_pos_bound (now - UpdatedAt b) every ltac:(lia)). nia.
Qed.

Lemma bucketWait_spec b now every :
  sane_time now -> 0 <= UpdatedAt b <= now -> 0 < every <= Time.Minute ->
  bucketWait b now every = Z.max 0 (UpdatedAt b + every - now).
Proof.
  unfold sane_time, Time.Minute, Time.Second. intros.
  unfold bucketWait, Time.Sub, Time.Add, clamp64, int64_min, int64_max in *.
  destruct (Z.ltb_spec (Z.max (- 2 ^ 63)
    (Z.min (2 ^ 63 - 1) (UpdatedAt b + every - now))) 0); lia.
Qed.

(** A bucket without a token gains one exactly one period after its clock. *)
Lemma empty_bucket_wait b t now every :
  bucket_ok b -> UpdatedAt b <= now -> sane_time now -> 0 < every <= Time.Minute ->
  Tokens b + gained b now every < 1 ->
  gained b now every = 0 /\
  bucketWait {| Tokens := t; UpdatedAt := UpdatedAt b + gained b now every * every |} now every
  = UpdatedAt b + every - now.
Proof.
  intros [[? ?] Hb] Hle Hn He Hlt. pose proof (gained_nonneg b now every ltac:(lia) Hle).
  pose proof (gained_pos_iff b now every ltac:(lia) Hle).
  assert (gained b now every = 0) as Hg by lia. split; [done|].
  rewrite bucketWait_spec; [|done|simpl; unfold sane_time in Hb; lia|done].
  rewrite Hg. simpl. lia.
Qed.

Lemma ceilSeconds_spec w :
  w <= ceilSeconds w * Time.Second < w + Time.Second.
Proof.
  unfold ceilSeconds, Time.Second.
  pose proof (Z.div_mod (- w) 1000000000 ltac:(lia)).
  pose proof (Z.mod_pos_bound (- w) 1000000000 ltac:(lia)). lia.
Qed.

Lemma TruncateMs_add_seconds t k :
  Time.TruncateMs (t + k * Time.Second) = Time.TruncateMs t + k * Time.Second.
Proof.
  unfold Time.TruncateMs, Time.Second, Time.Millisecond.
  replace (t + k * 1000000000) with (t + (k * 1000) * 1000000) by lia.
  rewrite Z.div_add by lia. lia.
Qed.

Section Decision.
Context (cfg : RateLimitConfig) (Hcfg : RateLimitConfig_Validate cfg = true).

Let es := refillPeriod (SenderRefillPerMinute cfg).
Let ec := refillPeriod (ConversationRefillPerMinute cfg).

Lemma es_bounds : 6 * Time.Millisecond <= es <= Time.Minute.
Proof. apply refillPeriod_bounds. apply Validate_bounds in Hcfg. lia. Qed.

Lemma ec_bounds : 6 * Time.Millisecond <= ec <= Time.Minute.
Proof. apply refillPeriod_bounds. apply Validate_bounds in Hcfg. lia. Qed.

(** One decision from two buckets, at the truncated time [n]. *)
Context (s c : RateBucket) (now : Z).
Context (Hs : bucket_at s now) (Hc : bucket_at c now) (Hnow : sane_time now).
Let n := Time.TruncateMs now.
Let d := DecideRateLimit cfg s c now.
Let ts := Z.min (SenderBurst cfg) (Tokens s + gained s n es).
Let tc := Z.min (ConversationBurst cfg) (Tokens c + gained c n ec).

Lemma refilled_sender :
  refillBucket s n (SenderBurst cfg) es =
  {| Tokens := ts; UpdatedAt := UpdatedAt s + gained s n es * es |}.
Proof.
  destruct Hs. apply refillBucket_spec; [done|by apply sane_TruncateMs|done|].
  apply es_bounds.
Qed.

Lemma refilled_conversation :
  refillBucket c n (ConversationBurst cfg) ec =
  {| Tokens := tc; UpdatedAt := UpdatedAt c + gained c n ec * ec |}.
Proof.
  destruct Hc. apply refillBucket_spec; [done|by apply sane_TruncateMs|done|].
  apply ec_bounds.
Qed.

Lemma decide_allowed :
  Allowed d = true <->
  1 <= Tokens s + gained s n es /\ 1 <= Tokens c + gained c n ec.
Proof.
  pose proof (proj1 (Validate_bounds cfg) Hcfg) as (? & ? & ? & ? & ?).
  unfold d, DecideRateLimit. fold n es ec.
  rewrite refilled_sender, refilled_conversation. simpl. unfold ts, tc.
  bool_cases; simpl; split; intros; try done; lia.
Qed.

(** An allowed append takes exactly one token from each refilled bucket. *)
Lemma decide_buckets :
  Allowed d = true ->
  Sender d = {| Tokens := ts - 1; UpdatedAt := UpdatedAt s + gained s n es * es |} /\
  ConversationBucket d =
    {| Tokens := tc - 1; UpdatedAt := UpdatedAt c + gained c n ec * ec |}.
Proof.
  unfold d, DecideRateLimit. fold n es ec.
  rewrite refilled_sender, refilled_conversation. simpl.
  destruct (_ || _); simpl; done.
Qed.

(** The wait behind a refusal is the time until the slower empty bucket
    gains its next token. *)
Lemma refused_wait :
  Allowed d = false ->
  exists wait,
    RetryAfterSeconds d = boundRetryAfter wait (RetryAfterMaxSeconds cfg) /\
    (Tokens s + gained s n es < 1 -> UpdatedAt s + es - n <= wait) /\
    (Tokens c + gained c n ec < 1 -> UpdatedAt c + ec - n <= wait) /\
    ((Tokens s + gained s n es < 1 /\ wait = UpdatedAt s + es - n) \/
     (Tokens c + gained c n ec < 1 /\ wait = UpdatedAt c + ec - n)).
Proof.
  pose proof es_bounds as Hes. pose proof ec_bounds as Hec.
  pose proof (sane_TruncateMs now Hnow) as Hn. fold n in Hn.
  pose proof Hs as [Hs1 Hsn]. pose proof Hc as [Hc1 Hcn]. fold n in Hsn, Hcn.
  assert (0 < Time.Millisecond) by done.
  pose proof (empty_bucket_wait s ts n es Hs1 Hsn Hn ltac:(lia)) as Hws.
  pose proof (empty_bucket_wait c tc n ec Hc1 Hcn Hn ltac:(lia)) as Hwc.
  pose proof (proj1 (Validate_bounds cfg) Hcfg) as (? & ? & ? & ? & ?).
  unfold d, DecideRateLimit. fold n es ec.
  rewrite refilled_sender, refilled_conversation. simpl Tokens.
  destruct (Z.ltb_spec ts 1) as [Hts|Hts], (Z.ltb_spec tc 1) as [Htc|Htc];
    cbn [orb Allowed RetryAfterSeconds]; intros Hd; try done; unfold ts, tc in Hts, Htc.
  - destruct Hws as [Hgs Ews]; [lia|]. destruct Hwc as [Hgc Ewc]; [lia|].
    rewrite Ews, Ewc. bool_cases; eexists; (split; [reflexivity|]); lia.
  - destruct Hws as [Hgs Ews]; [lia|]. rewrite Ews.
    eexists; (split; [reflexivity|]); lia.
  - destruct Hwc as [Hgc Ewc]; [lia|]. rewrite Ewc.
    pose proof (bucket_lag c n ec ltac:(lia)).
    bool_cases; [|lia]. eexists; (split; [reflexivity|]); lia.
Qed.
End Decision.

(** ** Properties *)

Lemma bucket_at_mono b now now' : now <= now' -> bucket_at b now -> bucket_at b now'.
Proof.
  intros Hle [Hb Hu]. split; [done|]. pose proof (Time.TruncateMs_mono _ _ Hle). lia.
Qed.

(** A bucket has a token once the time of its next one has passed ... *)
Lemma token_later b n delta every :
  0 <= Tokens b -> UpdatedAt b <= n -> 0 < every -> 0 <= delta ->
  (Tokens b + gained b n every < 1 -> UpdatedAt b + every - n <= delta) ->
  1 <= Tokens b + gained b (n + delta) every.
Proof.
  intros Ht Hu He Hd Hw. pose proof (gained_mono b n (n + delta) every He ltac:(lia)).
  destruct (Z.lt_ge_cases (Tokens b + gained b n every) 1) as [Hlt|]; [|lia].
  specialize (Hw Hlt). pose proof (gained_pos_iff b (n + delta) every He ltac:(lia)). lia.
Qed.

(** ... and none before. *)
Lemma no_token_before b n delta every :
  0 <= Tokens b -> UpdatedAt b <= n -> 0 < every -> 0 <= delta ->
  Tokens b + gained b n every < 1 -> delta < UpdatedAt b + every - n ->
  Tokens b + gained b (n + delta) every < 1.
Proof.
  intros Ht Hu He Hd Hlt Hw. pose proof (gained_nonneg b n every He Hu).
  pose proof (gained_pos_iff b (n + delta) every He ltac:(lia)). lia.
Qed.

Lemma boundRetryAfter_spec wait m :
  1 <= m -> boundRetryAfter wait m = Z.min m (Z.max 1 (ceilSeconds wait)).
Proof.
  intros Hm. unfold boundRetryAfter, RateLimitRetryAfterMin.
  destruct (Z.ltb_spec (ceilSeconds wait) 1), (Z.ltb_spec m 1); bool_cases; lia.
Qed.

(** The same two buckets, [k] seconds later. *)
Lemma decide_allowed_later cfg s c now k :
  RateLimitConfig_Validate cfg = true ->
  bucket_at s now -> bucket_at c now -> sane_time now ->
  sane_time (now + 3600 * Time.Second) -> 0 <= k <= 3600 ->
  Allowed (DecideRateLimit cfg s c (now + k * Time.Second)) = true <->
  1 <= Tokens s + gained s (Time.TruncateMs now + k * Time.Second)
                    (refillPeriod (SenderRefillPerMinute cfg)) /\
  1 <= Tokens c + gained c (Time.TruncateMs now + k * Time.Second)
                    (refillPeriod (ConversationRefillPerMinute cfg)).
Proof.
  intros Hcfg Hs Hc Hn Hn' Hk. rewrite <-TruncateMs_add_seconds.
  unfold Time.Second in *.
  apply decide_allowed; [done|apply (bucket_at_mono _ now); [lia|done]..|].
  unfold sane_time in *. lia.
Qed.

(** The advertised Retry-After is exact: a refused append is told to wait
    between one second and the configured cap; unless the cap was hit, an append
    after exactly that many seconds is allowed, and one a second earlier is still
    refused. *)
Theorem retry_after_exact cfg s c now :
  RateLimitConfig_Validate cfg = true ->
  bucket_at s now -> bucket_at c now -> sane_time now ->
  sane_time (now + 3600 * Time.Second) ->
  let d := DecideRateLimit cfg s c now in
  Allowed d = false ->
  1 <= RetryAfterSeconds d <= RetryAfterMaxSeconds cfg /\
  (RetryAfterSeconds d < RetryAfterMaxSeconds cfg ->
   Allowed (DecideRateLimit cfg s c (now + RetryAfterSeconds d * Time.Second)) = true) /\
  (1 < RetryAfterSeconds d ->
   Allowed (DecideRateLimit cfg s c (now + (RetryAfterSeconds d - 1) * Time.Second)) = false).
Proof.
  intros Hcfg Hs Hc Hn Hn' d Hd.
  pose proof (proj1 (Validate_bounds cfg) Hcfg) as (? & ? & ? & ? & ?).
  pose proof (es_bounds cfg Hcfg) as Hes. pose proof (ec_bounds cfg Hcfg) as Hec.
  assert (0 < Time.Millisecond /\ 0 < Time.Second) as [??] by done.
  destruct (refused_wait cfg Hcfg s c now Hs Hc Hn Hd) as (w & Hr & Hws & Hwc & Hor).
  fold d in Hr. rewrite boundRetryAfter_spec in Hr by lia.
  pose proof (ceilSeconds_spec w) as Hceil.
  pose proof Hs as [[[Hs0 ?] _] Hsn]. pose proof Hc as [[[Hc0 ?] _] Hcn].
  split; [lia|split].
  - intros Hlt. apply decide_allowed_later; [done..|lia|].
    split; (apply token_later; [done|done|lia|nia|intros Hl]).
    + specialize (Hws Hl). nia.
    + specialize (Hwc Hl). nia.
  - intros Hlt. apply not_true_iff_false.
    rewrite decide_allowed_later by (done || lia). intros [Hts Htc].
    destruct Hor as [[Hl ->]|[Hl ->]].
    + enough (Tokens s + gained s (Time.TruncateMs now + (RetryAfterSeconds d - 1) * Time.Second)
        (refillPeriod (SenderRefillPerMinute cfg)) < 1) by lia.
      apply no_token_before; [done|done|lia|nia|done|nia].
    + enough (Tokens c + gained c (Time.TruncateMs now + (RetryAfterSeconds d - 1) * Time.Second)
        (refillPeriod (ConversationRefillPerMinute cfg)) < 1) by lia.
      apply no_token_before; [done|done|lia|nia|done|nia].
Qed.

(** ** How many appends a window can see *)

(** [saveRateBucket] rounds the clock of a bucket down to a millisecond, so
    the guaranteed period is the refill period rounded down likewise. *)
Definition storedPeriod (every : Z) : Z := (every / Time.Millisecond) * Time.Millisecond.

Lemma storedPeriod_bounds every :
  6 * Time.Millisecond <= every ->
  6 * Time.Millisecond <= storedPeriod every <= every.
Proof.
  unfold storedPeriod, Time.Millisecond. intros.
  pose proof (Z.div_mod every 1000000 ltac:(lia)).
  pose proof (Z.mod_pos_bound every 1000000 ltac:(lia)).
  pose proof (Z.div_le_lower_bound every 1000000 6). lia.
Qed.

(** An upper bound on the tokens a bucket can yield until [T]. *)
Definition supply (b : RateBucket) (T period : Z) : Z :=
  Tokens b + (T - UpdatedAt b) / period.

(** A bucket as the store keeps it: its clock is a whole number of milliseconds. *)
Definition stored_at (b : RateBucket) (now : Z) : Prop :=
  bucket_at b now /\ UpdatedAt b = Time.TruncateMs (UpdatedAt b).

Lemma storedBucket_clock b :
  UpdatedAt (storedBucket b) = Time.TruncateMs (UpdatedAt b).
Proof.
  unfold storedBucket, Time.fromMillis. simpl. rewrite Time.UnixMilli_TruncateMs. done.
Qed.

(** Refilling, taking a token and storing a bucket: it stays well formed, and
    its supply drops by one. *)
Lemma take_supply b now T burst every :
  stored_at b now -> sane_time now -> Time.TruncateMs now <= T ->
  6 * Time.Millisecond <= every -> 1 <= burst <= RateLimitBurstMax ->
  let n := Time.TruncateMs now in
  1 <= Tokens b + gained b n every ->
  let b' := storedBucket
    {| Tokens := Z.min burst (Tokens b + gained b n every) - 1;
       UpdatedAt := UpdatedAt b + gained b n every * every |} in
  stored_at b' now /\ Tokens b' < burst /\ n - every < UpdatedAt b' + Time.Millisecond /\
  0 <= supply b' T (storedPeriod every) <= supply b T (storedPeriod every) - 1.
Proof.
  intros [[[[Ht0 Ht1] Hu] Hle] Hms] Hn HT Hev Hb n H1 b'.
  pose proof (storedPeriod_bounds every Hev) as Hp.
  pose proof (sane_TruncateMs now Hn) as Hsn. fold n in Hsn, HT, Hle.
  assert (0 < Time.Millisecond) by done.
  pose proof (gained_nonneg b n every ltac:(lia) Hle) as Hg.
  pose proof (bucket_lag b n every ltac:(lia)) as Hlag.
  set (g := gained b n every) in *. set (u := UpdatedAt b + g * every) in *.
  pose proof (Time.TruncateMs_bound u) as Htr.
  assert (UpdatedAt b' = Time.TruncateMs u) as Hu' by apply storedBucket_clock.
  assert (UpdatedAt b + g * storedPeriod every <= UpdatedAt b') as Hdrift.
  { rewrite Hu', Hms. unfold u, storedPeriod. rewrite Hms at 2.
    unfold Time.TruncateMs, Time.Millisecond.
    enough (UpdatedAt b / 1000000 + g * (every / 1000000)
      <= (UpdatedAt b / 1000000 * 1000000 + g * every) / 1000000) by nia.
    apply Z.div_le_lower_bound; [lia|].
    pose proof (Z.div_mod every 1000000 ltac:(lia)).
    pose proof (Z.mod_pos_bound every 1000000 ltac:(lia)). nia. }
  assert (Tokens b' <= Tokens b + g - 1) as Htok by (simpl; lia).
  unfold sane_time in *.
  split; [split; [split; [split|]|]|split; [|split]].
  - simpl. unfold RateLimitBurstMax in *. lia.
  - unfold sane_time. nia.
  - fold n. lia.
  - rewrite Hu'. rewrite Time.TruncateMs_idem. done.
  - simpl. lia.
  - rewrite Hu'. lia.
  - assert (0 <= Tokens b') by (simpl; lia).
    pose proof (Z.div_pos (T - UpdatedAt b') (storedPeriod every) ltac:(lia) ltac:(lia)).
    unfold supply. enough ((T - UpdatedAt b') / storedPeriod every
      <= (T - UpdatedAt b) / storedPeriod every - g) by lia.
    replace ((T - UpdatedAt b) / storedPeriod every - g)
      with ((T - UpdatedAt b + (- g) * storedPeriod every) / storedPeriod every)
      by (rewrite Z.div_add by lia; lia).
    apply Z.div_le_mono; lia.
Qed.

(** Both buckets bound the appends of a run from above by their supply. *)
Lemma run_appends_supply cfg s c times T :
  RateLimitConfig_Validate cfg = true ->
  Sorted Z.le times -> Forall sane_time times ->
  Forall (fun t => stored_at s t /\ stored_at c t /\ Time.TruncateMs t <= T) times ->
  run_appends cfg s c times <=
    Z.max 0 (supply s T (storedPeriod (refillPeriod (SenderRefillPerMinute cfg)))) /\
  run_appends cfg s c times <=
    Z.max 0 (supply c T (storedPeriod (refillPeriod (ConversationRefillPerMinute cfg)))).
Proof.
  intros Hcfg Hsort. revert s c. apply Sorted_StronglySorted in Hsort; [|intros ???; lia].
  pose proof (proj1 (Validate_bounds cfg) Hcfg) as (? & ? & ? & ? & ?).
  pose proof (es_bounds cfg Hcfg) as [Hes _]. pose proof (ec_bounds cfg Hcfg) as [Hec _].
  induction Hsort as [|t times Hsort IH Hle]; intros s c Hsane Hall; simpl; [lia|].
  inversion_clear Hsane as [|? ? Ht Hts]. inversion_clear Hall as [|? ? (Hs & Hc & HT) Hrest].
  destruct (Allowed (DecideRateLimit cfg s c t)) eqn:Hd; [|by apply IH].
  destruct (decide_buckets cfg Hcfg s c t (proj1 Hs) (proj1 Hc) Ht Hd) as [-> ->].
  apply decide_allowed in Hd as [Hds Hdc]; [|done|apply Hs|apply Hc|done].
  destruct (take_supply s t T (SenderBurst cfg) _ Hs Ht HT Hes ltac:(done) Hds) as (Hs' & _ & _ & Hsup).
  destruct (take_supply c t T (ConversationBurst cfg) _ Hc Ht HT Hec ltac:(done) Hdc) as (Hc' & _ & _ & Hsup').
  match goal with |- context [run_appends cfg ?s' ?c' times] =>
    destruct (IH s' c' Hts) as [IH1 IH2] end.
  - apply Forall_forall. intros u Hu. rewrite Forall_forall in Hrest, Hle.
    destruct (Hrest u Hu) as (_ & _ & HTu). specialize (Hle u Hu).
    split; [destruct Hs'; split; [by apply (bucket_at_mono _ t)|done]|].
    split; [destruct Hc'; split; [by apply (bucket_at_mono _ t)|done]|done].
  - lia.
Qed.

(** Right after an append was allowed a stored bucket can yield at most a
    burst, the refills of the window, and one refill for the rounding. *)
Lemma supply_after_take b now T burst every :
  Tokens b < burst -> Time.TruncateMs now <= T -> 6 * Time.Millisecond <= every ->
  Time.TruncateMs now - every < UpdatedAt b + Time.Millisecond ->
  supply b T (storedPeriod every) <=
    burst + 1 + (T - Time.TruncateMs now) / storedPeriod every.
Proof.
  intros Ht HT Hev Hlag. pose proof (storedPeriod_bounds every Hev) as Hp.
  assert (every < storedPeriod every + Time.Millisecond).
  { unfold storedPeriod, Time.Millisecond.
    pose proof (Z.div_mod every 1000000 ltac:(lia)).
    pose proof (Z.mod_pos_bound every 1000000 ltac:(lia)). lia. }
  assert (0 < Time.Millisecond) by done.
  unfold supply. enough ((T - UpdatedAt b) / storedPeriod every <=
    (T - Time.TruncateMs now + 2 * storedPeriod every) / storedPeriod every) as Hle.
  { rewrite Z.div_add in Hle by lia. lia. }
  apply Z.div_le_mono; lia.
Qed.

(** The bound for a run whose first append is allowed. *)
Lemma run_from_allowed cfg s c t0 times T :
  RateLimitConfig_Validate cfg = true ->
  Sorted Z.le (t0 :: times) -> Forall sane_time (t0 :: times) ->
  Forall (fun t => Time.TruncateMs t <= T) (t0 :: times) ->
  stored_at s t0 -> stored_at c t0 -> Allowed (DecideRateLimit cfg s c t0) = true ->
  let window := T - Time.TruncateMs t0 in
  run_appends cfg s c (t0 :: times) <=
    SenderBurst cfg + 2
    + window / storedPeriod (refillPeriod (SenderRefillPerMinute cfg)) /\
  run_appends cfg s c (t0 :: times) <=
    ConversationBurst cfg + 2
    + window / storedPeriod (refillPeriod (ConversationRefillPerMinute cfg)).
Proof.
  intros Hcfg Hsort Hsane HT Hs Hc Hd window. cbn [run_appends]. rewrite Hd.
  pose proof (proj1 (Validate_bounds cfg) Hcfg) as (? & ? & ? & ? & ?).
  pose proof (es_bounds cfg Hcfg) as [Hes _]. pose proof (ec_bounds cfg Hcfg) as [Hec _].
  inversion_clear Hsane as [|? ? Ht Hts]. inversion_clear HT as [|? ? HT0 HT1].
  destruct (decide_buckets cfg Hcfg s c t0 (proj1 Hs) (proj1 Hc) Ht Hd) as [-> ->].
  apply decide_allowed in Hd as [Hds Hdc]; [|done|apply Hs|apply Hc|done].
  destruct (take_supply s t0 T (SenderBurst cfg) _ Hs Ht HT0 Hes ltac:(done) Hds)
    as (Hs' & Hbs & Hls & Hsup).
  destruct (take_supply c t0 T (ConversationBurst cfg) _ Hc Ht HT0 Hec ltac:(done) Hdc)
    as (Hc' & Hbc & Hlc & Hsup').
  apply Sorted_StronglySorted in Hsort; [|intros ???; lia].
  inversion_clear Hsort as [|? ? Hsort' Hhd].
  pose proof (supply_after_take _ t0 T _ _ Hbs HT0 Hes Hls).
  pose proof (supply_after_take _ t0 T _ _ Hbc HT0 Hec Hlc).
  match goal with |- context [run_appends cfg ?s' ?c' times] =>
    destruct (run_appends_supply cfg s' c' times T Hcfg) as [IH1 IH2];
      [by apply StronglySorted_Sorted|done| |unfold window; lia] end.
  apply Forall_forall. intros u Hu. rewrite Forall_forall in Hhd, HT1.
  specialize (Hhd u Hu). specialize (HT1 u Hu).
  split; [destruct Hs'; split; [by apply (bucket_at_mono _ t0)|done]|].
  split; [destruct Hc'; split; [by apply (bucket_at_mono _ t0)|done]|done].
Qed.

(** however many appends one sender tries in a conversation, at times
    [t0 <= ... <= T], the relay accepts at most the burst, the refills that fit
    in the window and two more, for both buckets; the refill period that
    counts is the configured one rounded down to whole milliseconds. *)
Theorem append_rate_bound cfg s c t0 times T :
  RateLimitConfig_Validate cfg = true ->
  Sorted Z.le (t0 :: times) -> Forall sane_time (t0 :: times) ->
  Forall (fun t => Time.TruncateMs t <= T) (t0 :: times) ->
  stored_at s t0 -> stored_at c t0 ->
  let window := T - Time.TruncateMs t0 in
  run_appends cfg s c (t0 :: times) <=
    SenderBurst cfg + 2
    + window / storedPeriod (refillPeriod (SenderRefillPerMinute cfg)) /\
  run_appends cfg s c (t0 :: times) <=
    ConversationBurst cfg + 2
    + window / storedPeriod (refillPeriod (ConversationRefillPerMinute cfg)).
Proof.
  intros Hcfg. pose proof (proj1 (Validate_bounds cfg) Hcfg) as (? & ? & ? & ? & ?).
  pose proof (storedPeriod_bounds _ (proj1 (es_bounds cfg Hcfg))).
  pose proof (storedPeriod_bounds _ (proj1 (ec_bounds cfg Hcfg))).
  assert (0 < Time.Millisecond) by done.
  revert t0. induction times as [|t1 times IH]; intros t0 Hsort Hsane HT Hs Hc window;
    (destruct (Allowed (DecideRateLimit cfg s c t0)) eqn:Hd;
     [by apply run_from_allowed|cbn [run_appends]; rewrite Hd]);
    inversion_clear Hsane as [|? ? Ht Hts]; inversion_clear HT as [|? ? HT0 HT1];
    inversion_clear Hsort as [|? ? Hsort' Hhd].
  - pose proof (Z.div_pos window (storedPeriod (refillPeriod (SenderRefillPerMinute cfg)))).
    pose proof (Z.div_pos window (storedPeriod (refillPeriod (ConversationRefillPerMinute cfg)))).
    unfold window in *. cbn [run_appends]. lia.
  - inversion_clear Hhd as [|? ? Hle]. pose proof (Time.TruncateMs_mono _ _ Hle).
    destruct (IH t1) as [IH1 IH2]; [done..| | |].
    + destruct Hs; split; [by apply (bucket_at_mono _ t0)|done].
    + destruct Hc; split; [by apply (bucket_at_mono _ t0)|done].
    + pose proof (Z.div_le_mono (T - Time.TruncateMs t1) window
        (storedPeriod (refillPeriod (SenderRefillPerMinute cfg)))).
      pose proof (Z.div_le_mono (T - Time.TruncateMs t1) window
        (storedPeriod (refillPeriod (ConversationRefillPerMinute cfg)))).
      unfold window in *. cbn [run_appends] in IH1, IH2. lia.
Qed.

(** A policy of 8572 appends a minute: one refill every 6999533 ns. *)
Definition driftPolicy : RateLimitConfig := {|
  SenderBurst := 1; SenderRefillPerMinute := 8572;
  ConversationBurst := 10000; ConversationRefillPerMinute := 10000;
  RetryAfterMaxSeconds := 60;
|}.

(** 60 requests, 6 ms apart, the first with an empty sender bucket one refill old. *)
Definition driftTimes : list Z :=
  (fun i : nat => (1000 + 7 + 6 * Z.of_nat i) * Time.Millisecond) <$> seq 0 60.

