(* ===== verification/Quota.v ===== *)
(** * The pending-delivery quota policy ([internal/relay/quota.go]) and the
      retention policy ([internal/relay/retention.go])

    [DecideQuota] decides whether a complete fan-out fits the ceilings of its
    recipients and of the installation.  The durable counters it reads are
    tables of the store (see [Pending]). *)

From S2P Require Import Prelude GoTime RateLimit.
Open Scope Z_scope.

Definition QuotaCountMin : Z := 1.
Definition QuotaCountMax : Z := 10000000.
Definition QuotaBytesMin : Z := 1.
Definition QuotaBytesMax : Z := Z.shiftl 64 30.

Record QuotaConfig := {
  RecipientCount : Z;
  RecipientBytes : Z;
  InstallationCount : Z;
  InstallationBytes : Z;
  QuotaRetryAfterSeconds : Z;
}.

#[export] Instance QuotaConfig_eq_dec : EqDecision QuotaConfig.
Proof. solve_decision. Defined.

Definition DefaultQuotaConfig : QuotaConfig := {|
  RecipientCount := 10000;
  RecipientBytes := Z.shiftl 32 20;
  InstallationCount := 100000;
  InstallationBytes := Z.shiftl 256 20;
  QuotaRetryAfterSeconds := 60;
|}.

Definition boundedQuotaInt64 (value minimum maximum : Z) : bool :=
  negb ((value <? minimum) || (maximum <? value)).

Definition QuotaConfig_Validate (c : QuotaConfig) : bool :=
  boundedRateInt (RecipientCount c) QuotaCountMin QuotaCountMax
  && boundedQuotaInt64 (RecipientBytes c) QuotaBytesMin QuotaBytesMax
  && boundedRateInt (InstallationCount c) QuotaCountMin QuotaCountMax
  && boundedQuotaInt64 (InstallationBytes c) QuotaBytesMin QuotaBytesMax
  && boundedRateInt (QuotaRetryAfterSeconds c)
       RateLimitRetryAfterMin RateLimitRetryAfterMaxBound.

Record QuotaCounters := { Count : Z; Bytes : Z }.

#[export] Instance QuotaCounters_eq_dec : EqDecision QuotaCounters.
Proof. solve_decision. Defined.

Definition zeroCounters : QuotaCounters := {| Count := 0; Bytes := 0 |}.

Record QuotaCharge := { Recipient : string; ChargeBytes : Z }.

Record QuotaDecision := { QuotaAllowed : bool; QuotaRetryAfter : Z }.

(** The loop over the charges: the per-recipient maps and the added bytes, or
    [None] when a charge is malformed. *)
Fixpoint accumulateCharges (charges : list QuotaCharge)
    (counts bytes : gmap string Z) (added : Z) : option (gmap string Z * gmap string Z * Z) :=
  match charges with
  | [] => Some (counts, bytes, added)
  | charge :: charges =>
      if bool_decide (Recipient charge = "") || (ChargeBytes charge <? 0) then None
      else
        let r := Recipient charge in
        accumulateCharges charges
          (<[r := wrap64 (default 0 (counts !! r) + 1)]> counts)
          (<[r := wrap64 (default 0 (bytes !! r) + ChargeBytes charge)]> bytes)
          (wrap64 (added + ChargeBytes charge))
  end.

Definition DecideQuota (cfg : QuotaConfig) (recipients : gmap string QuotaCounters)
    (install : QuotaCounters) (charges : list QuotaCharge) : QuotaDecision :=
  let retryAfter := QuotaRetryAfterSeconds cfg in
  let retryAfter :=
    if retryAfter <? RateLimitRetryAfterMin then RateLimitRetryAfterMin else retryAfter in
  let retryAfter :=
    if RateLimitRetryAfterMaxBound <? retryAfter then RateLimitRetryAfterMaxBound
    else retryAfter in
  let deny := {| QuotaAllowed := false; QuotaRetryAfter := retryAfter |} in
  let allow := {| QuotaAllowed := true; QuotaRetryAfter := retryAfter |} in
  match charges with
  | [] => allow
  | _ =>
      let addedCount := Z.of_nat (length charges) in
      match accumulateCharges charges ∅ ∅ 0 with
      | None => deny
      | Some (perRecipientCount, perRecipientBytes, addedBytes) =>
          if (InstallationCount cfg <? wrap64 (Count install + addedCount))
             || (InstallationBytes cfg <? wrap64 (Bytes install + addedBytes))
          then deny
          else if mexists (fun recipient count =>
                    let current := default zeroCounters (recipients !! recipient) in
                    (RecipientCount cfg <? wrap64 (Count current + count))
                    || (RecipientBytes cfg <?
                        wrap64 (Bytes current + default 0 (perRecipientBytes !! recipient))))
                  perRecipientCount
          then deny
          else allow
      end
  end.

(** ** What the decision means *)

Definition charged (r : string) (c : QuotaCharge) : bool := bool_decide (Recipient c = r).
(** The rows and bytes a fan-out adds to recipient [r], and in total. *)
Definition chargedCount (cs : list QuotaCharge) (r : string) : Z :=
  lsum (fun c => indicator (charged r c)) cs.
Definition bytesFor (r : string) (c : QuotaCharge) : Z :=
  if charged r c then ChargeBytes c else 0.
Definition chargedBytes (cs : list QuotaCharge) (r : string) : Z := lsum (bytesFor r) cs.
Definition totalBytes (cs : list QuotaCharge) : Z := lsum ChargeBytes cs.

Definition charge_ok (c : QuotaCharge) : Prop := Recipient c <> "" /\ 0 <= ChargeBytes c.

(** The fan-out fits every ceiling. *)
Definition quota_fits (cfg : QuotaConfig) (recipients : gmap string QuotaCounters)
    (install : QuotaCounters) (cs : list QuotaCharge) : Prop :=
  Count install + Z.of_nat (length cs) <= InstallationCount cfg /\
  Bytes install + totalBytes cs <= InstallationBytes cfg /\
  forall r, 0 < chargedCount cs r ->
    let current := default zeroCounters (recipients !! r) in
    Count current + chargedCount cs r <= RecipientCount cfg /\
    Bytes current + chargedBytes cs r <= RecipientBytes cfg.

(** Far from the [int64] limits: fewer than [2^62] rows and bytes. *)
Definition counters_small (c : QuotaCounters) : Prop :=
  0 <= Count c < 2 ^ 62 /\ 0 <= Bytes c < 2 ^ 62.

Lemma chargedCount_bound cs r : 0 <= chargedCount cs r <= Z.of_nat (length cs).
Proof.
  unfold chargedCount. induction cs as [|c cs IH]; simpl length; simpl lsum; [lia|].
  destruct (charged r c); simpl; lia.
Qed.

Lemma chargedBytes_bound cs r :
  Forall charge_ok cs -> 0 <= chargedBytes cs r <= totalBytes cs.
Proof.
  unfold chargedBytes, totalBytes.
  induction 1 as [|c cs [_ Hc] _ IH]; simpl; [lia|]. unfold bytesFor at 1 3.
  destruct (charged r c); lia.
Qed.

(** The accumulation loop, without machine words. *)
Lemma accumulateCharges_spec cs counts bytes added :
  Forall charge_ok cs ->
  (forall r, 0 <= default 0 (counts !! r) /\
             default 0 (counts !! r) + Z.of_nat (length cs) <= int64_max) ->
  (forall r, 0 <= default 0 (bytes !! r) /\
             default 0 (bytes !! r) + totalBytes cs <= int64_max) ->
  0 <= added -> added + totalBytes cs <= int64_max ->
  exists counts' bytes',
    accumulateCharges cs counts bytes added = Some (counts', bytes', added + totalBytes cs) /\
    (forall r, default 0 (counts' !! r) = default 0 (counts !! r) + chargedCount cs r) /\
    (forall r, default 0 (bytes' !! r) = default 0 (bytes !! r) + chargedBytes cs r) /\
    (forall r, is_Some (counts' !! r) <-> is_Some (counts !! r) \/ 0 < chargedCount cs r).
Proof.
  intros Hok. revert counts bytes added.
  induction Hok as [|c cs [Hr Hb] Hok IH]; intros counts bytes added Hc Hby Ha Hat.
  - exists counts, bytes. unfold totalBytes, chargedCount, chargedBytes. simpl.
    rewrite Z.add_0_r. split; [done|]. split; [intros; lia|]. split; [intros; lia|].
    intros r. split; [by left|]. intros [?|?]; [done|lia].
  - cbn [accumulateCharges]. rewrite bool_decide_eq_false_2 by done.
    destruct (Z.ltb_spec (ChargeBytes c) 0); [lia|]. simpl orb. cbv iota.
    pose proof (chargedBytes_bound cs (Recipient c) Hok) as Htot.
    unfold totalBytes in *. simpl lsum in *. simpl length in *.
    assert (forall z, 0 <= z -> z <= int64_max -> wrap64 z = z) as Hw.
    { intros z ??. apply wrap64_id. unfold is_int64, int64_min. lia. }
    destruct (Hc (Recipient c)). destruct (Hby (Recipient c)).
    rewrite !Hw by lia.
    edestruct (IH (<[Recipient c := default 0 (counts !! Recipient c) + 1]> counts)
      (<[Recipient c := default 0 (bytes !! Recipient c) + ChargeBytes c]> bytes)
      (added + ChargeBytes c)) as (counts' & bytes' & Heq & Hcs & Hbs & Hdom);
      [..|exists counts', bytes'; split; [by rewrite Heq, <-Z.add_assoc|]].
    + intros r. destruct (decide (Recipient c = r)) as [<-|Hne].
      * rewrite lookup_insert_eq. simpl. lia.
      * rewrite lookup_insert_ne by done. specialize (Hc r). lia.
    + intros r. destruct (decide (Recipient c = r)) as [<-|Hne].
      * rewrite lookup_insert_eq. simpl. lia.
      * rewrite lookup_insert_ne by done. specialize (Hby r). lia.
    + lia.
    + lia.
    + unfold chargedCount, chargedBytes, bytesFor, charged in *. simpl lsum.
      split; [|split]; intros r; [rewrite Hcs|rewrite Hbs|rewrite Hdom];
        destruct (decide (Recipient c = r)) as [<-|Hne];
        rewrite ?bool_decide_eq_true_2, ?bool_decide_eq_false_2, ?lookup_insert_eq,
          ?lookup_insert_ne by done; simpl.
      * lia.
      * lia.
      * lia.
      * lia.
      * pose proof (chargedCount_bound cs (Recipient c)) as Hcb.
        unfold chargedCount, charged in Hcb.
        split; [intros _; right; lia|]. by left.
      * rewrite Z.add_0_l. done.
Qed.

Lemma accumulateCharges_malformed cs counts bytes added :
  ~ Forall charge_ok cs -> accumulateCharges cs counts bytes added = None.
Proof.
  revert counts bytes added. induction cs as [|c cs IH]; intros counts bytes added Hn.
  - exfalso. by apply Hn.
  - cbn [accumulateCharges]. destruct (_ || _) eqn:Hbad; [done|]. bool_hyps.
    apply IH. intros Hok. apply Hn. constructor; [split; [done|lia]|done].
Qed.

(** The retry hint of every quota decision is between one second and an hour. *)
Lemma quota_retry_bounds cfg recipients install cs :
  1 <= QuotaRetryAfter (DecideQuota cfg recipients install cs) <= 3600.
Proof.
  unfold DecideQuota, RateLimitRetryAfterMin, RateLimitRetryAfterMaxBound.
  destruct cs as [|c cs]; [|destruct (accumulateCharges _ _ _ _) as [[[? ?] ?]|];
    [destruct (_ || _); [|destruct (mexists _ _)]|]]; simpl;
    (destruct (Z.ltb_spec (QuotaRetryAfterSeconds cfg) 1); bool_cases; lia).
Qed.

(** C40: The quota decision is exact: a fan-out is admitted precisely when it is
    empty or well formed and fits the ceilings of the installation and of every
    charged recipient, counting repeated recipients together. *)
Theorem decide_quota_exact cfg recipients install cs :
  counters_small install -> (forall r c, recipients !! r = Some c -> counters_small c) ->
  Z.of_nat (length cs) <= 2 ^ 62 -> totalBytes cs <= 2 ^ 62 ->
  QuotaAllowed (DecideQuota cfg recipients install cs) = true <->
  cs = [] \/ (Forall charge_ok cs /\ quota_fits cfg recipients install cs).
Proof.
  intros Hi Hr Hlen Hbytes. destruct cs as [|c0 cs0]; [split; [by left|done]|].
  remember (c0 :: cs0) as cs eqn:Hcs. unfold DecideQuota. rewrite Hcs at 1. cbv iota zeta.
  destruct (decide (Forall charge_ok cs)) as [Hok|Hok].
  2:{ rewrite accumulateCharges_malformed by done. simpl. split; [done|].
      intros [->|[? _]]; done. }
  assert (0 <= totalBytes cs) as Hnn by (pose proof (chargedBytes_bound cs "" Hok); lia).
  destruct (accumulateCharges_spec cs ∅ ∅ 0) as (counts & bytes & -> & Hc & Hb & Hd);
    [done|unfold int64_max; intros; rewrite ?lookup_empty; simpl; lia..|].
  assert (forall r, default 0 (bytes !! r) = chargedBytes cs r) as Hb' by (intros r; apply Hb).
  assert (forall r n, counts !! r = Some n -> n = chargedCount cs r) as Hc'.
  { intros r n Hn. specialize (Hc r). rewrite Hn, lookup_empty in Hc. simpl in Hc. lia. }
  assert (forall r, counters_small (default zeroCounters (recipients !! r))) as Hr'.
  { intros r. destruct (recipients !! r) eqn:E; [by apply (Hr r)|done]. }
  unfold counters_small in *.
  rewrite !wrap64_id by (unfold is_int64, int64_min, int64_max; lia).
  unfold quota_fits. rewrite Z.add_0_l. clear Hc Hb. split.
  - destruct (_ || _) eqn:Hinst; [done|]. destruct (mexists _ _) eqn:Hex; [done|]. intros _.
    bool_hyps. right. split; [done|]. split; [lia|]. split; [lia|]. intros r Hpos.
    assert (is_Some (counts !! r)) as [n Hn] by (apply Hd; by right).
    rewrite mexists_false in Hex. specialize (Hex r n Hn). cbv zeta in Hex.
    specialize (Hr' r). pose proof (chargedCount_bound cs r).
    pose proof (chargedBytes_bound cs r Hok).
    rewrite (Hc' r n Hn), Hb', !wrap64_id in Hex by (unfold is_int64, int64_min, int64_max; lia).
    bool_hyps. lia.
  - intros [->|[_ (H1 & H2 & H3)]]; [done|].
    destruct (_ || _) eqn:Hinst.
    { apply orb_true_iff in Hinst as [?|?]; bool_hyps; lia. }
    destruct (mexists _ _) eqn:Hex; [|done]. exfalso.
    apply mexists_true in Hex as (r & n & Hn & Hex). cbv zeta in Hex.
    specialize (Hr' r). pose proof (chargedCount_bound cs r).
    pose proof (chargedBytes_bound cs r Hok).
    rewrite (Hc' r n Hn), Hb', !wrap64_id in Hex by (unfold is_int64, int64_min, int64_max; lia).
    assert (0 < chargedCount cs r) as Hpos.
    { destruct (proj1 (Hd r)) as [[? He]|]; [by eexists| |done]. by rewrite lookup_empty in He. }
    destruct (H3 r Hpos). apply orb_true_iff in Hex as [?|?]; bool_hyps; lia.
Qed.

(** ** Retention policy *)

Definition RetentionAgeMinSeconds : Z := 1.
Definition RetentionAgeMaxSeconds : Z := 365 * 24 * 60 * 60.
Definition RetentionBatchMin : Z := 1.
Definition RetentionBatchMax : Z := 1000.
Definition TerminalListLimitMin : Z := 1.
Definition TerminalListLimitMax : Z := 100.

Inductive ClosedReason := ClosedAcked | ClosedExpired | ClosedRevoked.

#[export] Instance ClosedReason_eq_dec : EqDecision ClosedReason.
Proof. solve_decision. Defined.

Record RetentionConfig := {
  PendingMaxAgeSeconds : Z;
  TerminalRetentionSeconds : Z;
  MaintenanceBatch : Z;
}.

#[export] Instance RetentionConfig_eq_dec : EqDecision RetentionConfig.
Proof. solve_decision. Defined.

Definition DefaultRetentionConfig : RetentionConfig := {|
  PendingMaxAgeSeconds := 7 * 24 * 60 * 60;
  TerminalRetentionSeconds := 30 * 24 * 60 * 60;
  MaintenanceBatch := 100;
|}.

Definition RetentionConfig_Validate (c : RetentionConfig) : bool :=
  boundedRateInt (PendingMaxAgeSeconds c) RetentionAgeMinSeconds RetentionAgeMaxSeconds
  && boundedRateInt (TerminalRetentionSeconds c) RetentionAgeMinSeconds RetentionAgeMaxSeconds
  && boundedRateInt (MaintenanceBatch c) RetentionBatchMin RetentionBatchMax.

Definition boundedListLimit (limit : Z) : option Z :=
  if (limit <? TerminalListLimitMin) || (TerminalListLimitMax <? limit) then None
  else Some limit.
