(* ===== verification/Text.v ===== *)
(** * Go strings: bytes, UTF-8, and the relay's identifier rules
      ([internal/relay/backend.go])

    A Go string is a sequence of bytes; here it is a [string] of [ascii]
    characters, one per byte, and [bytesOf] lists the byte values.  [range]
    over a string, [utf8.ValidString] and [utf8.RuneCountInString] are functions
    of the decoded rune list. *)

From Stdlib Require Import Ascii.
From S2P Require Import Prelude.
Open Scope Z_scope.

(** ** Bytes and runes *)

Fixpoint bytesOf (s : string) : list Z :=
  match s with
  | EmptyString => []
  | String a s => Z.of_N (N_of_ascii a) :: bytesOf s
  end.

Definition byteAscii (b : Z) : ascii := ascii_of_N (Z.to_N b).

Fixpoint ofBytes (l : list Z) : string :=
  match l with
  | [] => EmptyString
  | b :: l => String (byteAscii b) (ofBytes l)
  end.

(** [len(s)] *)
Definition goLen (s : string) : Z := Z.of_nat (length (bytesOf s)).

Module Utf8.
Definition RuneError : Z := 0xFFFD.

Definition inRange (lo hi b : Z) : bool := (lo <=? b) && (b <=? hi).
Definition cont (b : Z) : bool := inRange 0x80 0xBF b.

(** The range of the second byte after the first byte of a 3- or 4-byte
    sequence: overlong forms, surrogates and runes above U+10FFFF are out. *)
Definition second3 (b0 b1 : Z) : bool :=
  if b0 =? 0xE0 then inRange 0xA0 0xBF b1
  else if b0 =? 0xED then inRange 0x80 0x9F b1 else cont b1.
Definition second4 (b0 b1 : Z) : bool :=
  if b0 =? 0xF0 then inRange 0x90 0xBF b1
  else if b0 =? 0xF4 then inRange 0x80 0x8F b1 else cont b1.

Definition bits (b mask shift : Z) : Z := Z.shiftl (Z.land b mask) shift.

(** [utf8.DecodeRuneInString] on a non-empty string: whether the encoding
    is valid, the rune, and its width; an invalid byte is [RuneError] of
    width one. *)
Definition decodeRune (l : list Z) : bool * Z * nat :=
  match l with
  | [] => (false, RuneError, 0%nat)
  | b0 :: l1 =>
      if b0 <? 0x80 then (true, b0, 1%nat)
      else match l1 with
      | [] => (false, RuneError, 1%nat)
      | b1 :: l2 =>
          if inRange 0xC2 0xDF b0 then
            if cont b1 then (true, Z.lor (bits b0 0x1F 6) (bits b1 0x3F 0), 2%nat)
            else (false, RuneError, 1%nat)
          else match l2 with
          | [] => (false, RuneError, 1%nat)
          | b2 :: l3 =>
              if inRange 0xE0 0xEF b0 then
                if second3 b0 b1 && cont b2 then
                  (true, Z.lor (bits b0 0x0F 12) (Z.lor (bits b1 0x3F 6) (bits b2 0x3F 0)), 3%nat)
                else (false, RuneError, 1%nat)
              else match l3 with
              | [] => (false, RuneError, 1%nat)
              | b3 :: _ =>
                  if inRange 0xF0 0xF4 b0 && second4 b0 b1 && cont b2 && cont b3 then
                    (true, Z.lor (bits b0 0x07 18) (Z.lor (bits b1 0x3F 12)
                            (Z.lor (bits b2 0x3F 6) (bits b3 0x3F 0))), 4%nat)
                  else (false, RuneError, 1%nat)
              end
          end
      end
  end.

(** A decoded position of a string. *)
Record Rune := { valid : bool; rune : Z; encoding : list Z }.

Fixpoint decodeFuel (fuel : nat) (l : list Z) : list Rune :=
  match fuel, l with
  | O, _ | _, [] => []
  | S fuel, _ =>
      let '(ok, r, n) := decodeRune l in
      {| valid := ok; rune := r; encoding := take n l |} :: decodeFuel fuel (drop n l)
  end.

(** [range s]: every step consumes at least one byte, so the length of the
    string is enough fuel. *)
Definition decode (l : list Z) : list Rune := decodeFuel (length l) l.

Definition encode (rs : list Rune) : list Z := mjoin (encoding <$> rs).

Definition ValidString (l : list Z) : bool := forallb valid (decode l).
Definition RuneCount (l : list Z) : Z := Z.of_nat (length (decode l)).
End Utf8.

(** [unicode.IsControl] *)
Definition IsControl (r : Z) : bool :=
  Utf8.inRange 0 0x1F r || Utf8.inRange 0x7F 0x9F r.

(** [unicode.IsSpace] *)
Definition IsSpace (r : Z) : bool :=
  Utf8.inRange 0x09 0x0D r || (r =? 0x20) || (r =? 0x85) || (r =? 0xA0) || (r =? 0x1680)
  || Utf8.inRange 0x2000 0x200A r || (r =? 0x2028) || (r =? 0x2029) || (r =? 0x202F)
  || (r =? 0x205F) || (r =? 0x3000).

Fixpoint dropSpaces (rs : list Utf8.Rune) : list Utf8.Rune :=
  match rs with
  | [] => []
  | r :: rs' => if IsSpace (Utf8.rune r) then dropSpaces rs' else rs
  end.

Definition trimRunes (rs : list Utf8.Rune) : list Utf8.Rune :=
  reverse (dropSpaces (reverse (dropSpaces rs))).

(** [strings.TrimSpace].  The relay calls it on valid UTF-8, or compares the
    result with the empty string, which only depends on the leading spaces. *)
Definition TrimSpace (s : string) : string :=
  ofBytes (Utf8.encode (trimRunes (Utf8.decode (bytesOf s)))).

(** [strings.TrimSpace(s) == ""] *)
Definition blank (s : string) : bool := bool_decide (TrimSpace s = "").

(** ** [strings] *)

Definition HasPrefix (s prefix : string) : bool := String.prefix prefix s.

Fixpoint CutPrefix (s prefix : string) {struct prefix} : option string :=
  match prefix, s with
  | EmptyString, _ => Some s
  | String a prefix, String b s => if bool_decide (a = b) then CutPrefix s prefix else None
  | String _ _, EmptyString => None
  end.

(** [strings.Cut(s, sep)] for a one-byte separator. *)
Fixpoint Cut (s : string) (sep : ascii) : option (string * string) :=
  match s with
  | EmptyString => None
  | String a s =>
      if bool_decide (a = sep) then Some (EmptyString, s)
      else match Cut s sep with
           | Some (before, after) => Some (String a before, after)
           | None => None
           end
  end.

Definition ContainsByte (s : string) (c : ascii) : bool :=
  match Cut s c with Some _ => true | None => false end.

(** Go's [<] on strings compares bytes. *)
Definition stringLt (a b : string) : bool := String.ltb a b.

(** ** Identifier rules *)

Definition validBoundedText (value : string) (maxCharacters maxBytes : Z) : bool :=
  let l := bytesOf value in
  negb (bool_decide (value = "") || negb (Utf8.ValidString l)
        || negb (bool_decide (TrimSpace value = value))
        || (maxBytes <? goLen value) || (maxCharacters <? Utf8.RuneCount l))
  && forallb (fun r => negb (IsControl (Utf8.rune r))) (Utf8.decode l).

Definition ValidMachineID (value : string) : bool := validBoundedText value 128 512.
Definition ValidEndpoint (value : string) : bool := validBoundedText value 512 2048.
Definition ValidRole (value : string) : bool := validBoundedText value 512 2048.
Definition ValidRequestToken (value : string) : bool := validBoundedText value 128 512.

Definition maxMessageBodyBytes : Z := Z.shiftl 32 10.

Definition ValidMessageBody (value : string) : bool :=
  (goLen value <=? maxMessageBodyBytes) && Utf8.ValidString (bytesOf value)
  && negb (ContainsByte value "000"%char).

(** The regular expression [^[a-z0-9][a-z0-9-]{0,62}$]. *)
Definition slugFirst (b : Z) : bool :=
  Utf8.inRange 0x61 0x7A b || Utf8.inRange 0x30 0x39 b.
Definition slugRest (b : Z) : bool := slugFirst b || (b =? 0x2D).

Definition ValidRoleSlug (value : string) : bool :=
  match bytesOf value with
  | [] => false
  | b :: rest => slugFirst b && forallb slugRest rest && (Z.of_nat (length rest) <=? 62)
  end.

Definition CanonicalRoleHandle (role : string) : bool :=
  ValidRole role &&
  match CutPrefix role "role/" with
  | None => false
  | Some rest =>
      match Cut rest "/" with
      | None => false
      | Some (machine, slug) =>
          negb (ContainsByte slug "/") && ValidMachineID machine && ValidRoleSlug slug
      end
  end.

(** The machine and the slug of [role/<machine>/<slug>]. *)
Definition roleParts (role : string) : string * string :=
  default ("", "") (rest ← CutPrefix role "role/"; Cut rest "/").

Definition CanonicalRoleForMachine (role machineID : string) : bool :=
  ValidMachineID machineID && CanonicalRoleHandle role
  && bool_decide ((roleParts role).1 = machineID).

Definition OrderedDirectRolePair (left right : string) : option (string * string) :=
  if negb (CanonicalRoleHandle left) || negb (CanonicalRoleHandle right)
     || bool_decide (left = right) then None
  else if stringLt left right then Some (left, right) else Some (right, left).

Definition CanonicalRoleSlug (role : string) : option string :=
  if CanonicalRoleHandle role then Some (roleParts role).2 else None.

(** [None] is the code's [ok = false]. *)
Definition NormalizeRoleDisplayName (value : string) : option string :=
  let trimmed := TrimSpace value in
  if bool_decide (trimmed = "") then Some ""
  else if validBoundedText trimmed 128 128 then Some trimmed else None.

Definition maxConversationDisplayNameRunes : nat := 128.
Definition maxConversationDisplayNameBytes : Z := 512.

(** The loop that drops trailing runes while the label is too long. *)
Fixpoint dropTrailing (fuel : nat) (rs : list Utf8.Rune) : list Utf8.Rune :=
  match fuel with
  | O => rs
  | S fuel =>
      if maxConversationDisplayNameBytes <? Z.of_nat (length (Utf8.encode rs)) then
        dropTrailing fuel (take (pred (length rs)) rs)
      else rs
  end.

(** [None] is [errInvalidConversationDisplayName]. *)
Definition SanitizeConversationDisplayName (value : string) : option string :=
  if bool_decide (value = "") then Some ""
  else
    let rs := Utf8.decode (bytesOf value) in
    if negb (Utf8.ValidString (bytesOf value)) || ContainsByte value "000" then None
    else if existsb (fun r => IsControl (Utf8.rune r)) rs then None
    else
      let rs := trimRunes rs in
      if bool_decide (Utf8.encode rs = []) then None
      else
        let rs := if (maxConversationDisplayNameRunes <? length rs)%nat
                  then take maxConversationDisplayNameRunes rs else rs in
        let rs := dropTrailing (length rs) rs in
        if bool_decide (Utf8.encode rs = []) then None
        else Some (ofBytes (Utf8.encode rs)).

(** ** Reserved names *)

Definition TelegramGatewayEndpoint : string := "telegram/primary".
Definition TelegramUserParticipant : string := "user-telegram".
Definition TelegramPrimaryEndpoint : string := TelegramGatewayEndpoint.
Definition TelegramCodexRole : string := "role/telegram-codex".

Definition ReservedRelayMember (value : string) : bool :=
  bool_decide (value = TelegramUserParticipant) || bool_decide (value = TelegramGatewayEndpoint).

(** [roleRecipient]: the record separator U+001E in front keeps role
    deliveries apart from every endpoint. *)
Definition roleRecipient (role : string) : string := String "030" ("role:" +:+ role).

Definition parseRoleRecipient (value : string) : option string :=
  match CutPrefix value (String "030" "role:") with
  | Some role => if ValidRole role then Some role else None
  | None => None
  end.

(** ** Lemmas: bytes *)

Lemma ofBytes_bytesOf s : ofBytes (bytesOf s) = s.
Proof.
  induction s as [|a s IH]; simpl; [done|]. rewrite IH. unfold byteAscii.
  by rewrite N2Z.id, ascii_N_embedding.
Qed.

Lemma bytesOf_range s : Forall (fun b => 0 <= b < 256) (bytesOf s).
Proof.
  induction s as [|a s IH]; simpl; constructor; [|done].
  pose proof (N_ascii_bounded a). lia.
Qed.

Lemma bytesOf_ofBytes l : Forall (fun b => 0 <= b < 256) l -> bytesOf (ofBytes l) = l.
Proof.
  induction 1 as [|b l Hb _ IH]; simpl; [done|]. rewrite IH. unfold byteAscii.
  rewrite N_ascii_embedding by lia. f_equal. lia.
Qed.

Lemma bytesOf_app s t : bytesOf (s +:+ t) = bytesOf s ++ bytesOf t.
Proof. induction s as [|a s IH]; simpl; [done|]. by rewrite IH. Qed.

Lemma bytesOf_nil s : bytesOf s = [] -> s = "".
Proof. by destruct s. Qed.

(** ** Lemmas: UTF-8 *)

Module Utf8Facts.
Import Utf8.

Ltac decode_cases :=
  repeat match goal with
  | H : context [match ?x with _ => _ end] |- _ =>
      lazymatch x with context [match _ with _ => _ end] => fail | _ => destruct x eqn:? end
  end; simplify_eq/=.

(** The width is positive, at most four, and inside the string; a valid
    decode only depends on the bytes it consumes. *)
Lemma decodeRune_width l ok r n :
  l <> [] -> decodeRune l = (ok, r, n) -> (1 <= n <= 4)%nat /\ (n <= length l)%nat.
Proof.
  intros Hl H. destruct l as [|b0 l]; [done|]. unfold decodeRune in H.
  decode_cases; lia.
Qed.

Lemma decodeRune_take l r n l' :
  decodeRune l = (true, r, n) -> decodeRune (take n l ++ l') = (true, r, n).
Proof.
  intros H. destruct l as [|b0 l]; [done|]. unfold decodeRune in H.
  destruct (b0 <? 0x80) eqn:E0; [simplify_eq/=; by rewrite E0|].
  destruct l as [|b1 l]; [done|].
  destruct (inRange 0xC2 0xDF b0) eqn:E1.
  { destruct (cont b1) eqn:E2; simplify_eq/=. by rewrite E0, E1, E2. }
  destruct l as [|b2 l]; [done|].
  destruct (inRange 0xE0 0xEF b0) eqn:E2.
  { destruct (second3 b0 b1 && cont b2) eqn:E3; simplify_eq/=. by rewrite E0, E1, E2, E3. }
  destruct l as [|b3 l]; [done|].
  destruct (_ && _ && _ && _) eqn:E3; simplify_eq/=. by rewrite E0, E1, E2, E3.
Qed.

(** A rune produced by decoding: its encoding decodes to it. *)
Definition rune_wf (x : Rune) : Prop :=
  valid x = true /\ encoding x <> [] /\
  decodeRune (encoding x) = (true, rune x, length (encoding x)).

Lemma decodeFuel_more l f1 f2 :
  (length l <= f1)%nat -> (length l <= f2)%nat -> decodeFuel f1 l = decodeFuel f2 l.
Proof.
  revert l f2. induction f1 as [|f1 IH]; intros l f2 H1 H2.
  - destruct l; [by destruct f2|simpl in *; lia].
  - destruct l as [|b l]; [by destruct f2|]. destruct f2 as [|f2]; [simpl in *; lia|].
    cbn [decodeFuel]. destruct (decodeRune (b :: l)) as [[ok r] n] eqn:E.
    apply decodeRune_width in E; [|done]. f_equal.
    apply IH; rewrite length_drop; simpl length in *; lia.
Qed.

Lemma decode_cons l ok r n :
  l <> [] -> decodeRune l = (ok, r, n) ->
  decode l = {| valid := ok; rune := r; encoding := take n l |} :: decode (drop n l).
Proof.
  intros Hl H. destruct l as [|b l]; [done|]. unfold decode.
  cbn [length decodeFuel]. rewrite H. f_equal.
  apply decodeRune_width in H; [|done].
  apply decodeFuel_more; rewrite ?length_drop; simpl; lia.
Qed.

(** Induction along the decoding of a string. *)
Lemma decode_ind (P : list Z -> Prop) :
  P [] ->
  (forall l ok r n, l <> [] -> decodeRune l = (ok, r, n) -> P (drop n l) -> P l) ->
  forall l, P l.
Proof.
  intros Hnil Hcons l. remember (length l) as len eqn:Hlen. revert l Hlen.
  induction (lt_wf len) as [len _ IH]. intros l ->.
  destruct (decide (l = [])) as [->|Hl]; [done|].
  destruct (decodeRune l) as [[ok r] n] eqn:E. eapply Hcons; [done|done|].
  eapply IH; [|done]. pose proof (decodeRune_width _ _ _ _ Hl E). rewrite length_drop. lia.
Qed.

Lemma encode_cons x rs : encode (x :: rs) = encoding x ++ encode rs.
Proof. done. Qed.

Lemma encode_decode l : encode (decode l) = l.
Proof.
  induction l as [|l ok r n Hl E IH] using decode_ind; [done|].
  rewrite (decode_cons l ok r n) by done. rewrite encode_cons, IH. apply take_drop.
Qed.

Lemma decode_wf l : ValidString l = true -> Forall rune_wf (decode l).
Proof.
  induction l as [|l ok r n Hl E IH] using decode_ind; [done|].
  unfold ValidString in *. rewrite (decode_cons l ok r n) by done. cbn [forallb valid].
  intros [-> Hv]%andb_true_iff. constructor; [|by apply IH].
  pose proof (decodeRune_width _ _ _ _ Hl E).
  pose proof (decodeRune_take _ _ _ [] E) as Ht. rewrite app_nil_r in Ht.
  split; [done|]. cbn [encoding rune]. split.
  - destruct l, n; [done|done|lia|done].
  - rewrite Ht, length_take_le by lia. done.
Qed.

Lemma decode_encode rs : Forall rune_wf rs -> decode (encode rs) = rs.
Proof.
  induction 1 as [|x rs (Hv & Hne & Hd) _ IH]; [done|].
  rewrite encode_cons. pose proof (decodeRune_take _ _ _ (encode rs) Hd) as Ht.
  rewrite firstn_all in Ht.
  rewrite (decode_cons _ true (rune x) (length (encoding x))); [|by destruct (encoding x)|done].
  rewrite take_app_length, drop_app_length, IH. f_equal. destruct x; simpl in *. congruence.
Qed.

Lemma encode_length rs :
  Forall rune_wf rs -> Z.of_nat (length (encode rs)) <= 4 * Z.of_nat (length rs).
Proof.
  induction 1 as [|x rs (Hv & Hne & Hd) _ IH]; [done|].
  rewrite encode_cons, length_app.
  apply decodeRune_width in Hd; [|done]. simpl length. lia.
Qed.

Lemma encode_nil rs : Forall rune_wf rs -> encode rs = [] -> rs = [].
Proof.
  intros Hwf Henc. destruct Hwf as [|x rs (_ & Hne & _) _]; [done|].
  rewrite encode_cons in Henc.
  by apply app_nil in Henc as [? _].
Qed.
End Utf8Facts.

(** ** Lemmas: trimming and identifier rules *)

Import Utf8Facts.

Lemma dropSpaces_suffix rs : exists pre, rs = pre ++ dropSpaces rs.
Proof.
  induction rs as [|r rs [pre IH]]; simpl; [by exists []|].
  destruct (IsSpace (Utf8.rune r)); [|by exists []].
  exists (r :: pre). simpl. by rewrite <-IH.
Qed.

Lemma dropSpaces_head rs r rs' :
  dropSpaces rs = r :: rs' -> IsSpace (Utf8.rune r) = false.
Proof.
  induction rs as [|x rs IH]; simpl; [done|].
  destruct (IsSpace (Utf8.rune x)) eqn:E; [done|]. intros. by simplify_eq.
Qed.

(** Trimming keeps a contiguous part, so what holds of every rune stays true. *)
Lemma trimRunes_infix rs : exists pre post, rs = pre ++ trimRunes rs ++ post.
Proof.
  unfold trimRunes. destruct (dropSpaces_suffix rs) as [pre Hpre].
  destruct (dropSpaces_suffix (reverse (dropSpaces rs))) as [post Hpost].
  exists pre, (reverse post). rewrite Hpre at 1. f_equal.
  rewrite <-reverse_app, <-Hpost. by rewrite reverse_involutive.
Qed.

Lemma trimRunes_Forall (P : Utf8.Rune -> Prop) rs : Forall P rs -> Forall P (trimRunes rs).
Proof.
  intros H. destruct (trimRunes_infix rs) as (pre & post & E). rewrite E in H.
  apply Forall_app in H as [_ H]. by apply Forall_app in H as [H _].
Qed.

Lemma trimRunes_head rs r rs' :
  trimRunes rs = r :: rs' -> IsSpace (Utf8.rune r) = false.
Proof.
  unfold trimRunes. intros H.
  destruct (dropSpaces_suffix (reverse (dropSpaces rs))) as [post Hpost].
  apply (f_equal reverse) in Hpost. rewrite reverse_involutive, reverse_app in Hpost.
  rewrite H in Hpost. by apply dropSpaces_head in Hpost.
Qed.

Lemma forallb_Forall {A} (p : A -> bool) l : forallb p l = true <-> Forall (fun x => p x = true) l.
Proof.
  induction l as [|x l IH]; simpl; [by split|].
  rewrite andb_true_iff, Forall_cons. by rewrite IH.
Qed.

(** What an accepted identifier is. *)
Lemma validBoundedText_spec v maxCharacters maxBytes :
  validBoundedText v maxCharacters maxBytes = true ->
  v <> "" /\ Utf8.ValidString (bytesOf v) = true /\ TrimSpace v = v /\
  goLen v <= maxBytes /\ Utf8.RuneCount (bytesOf v) <= maxCharacters /\
  Forall (fun r => IsControl (Utf8.rune r) = false) (Utf8.decode (bytesOf v)).
Proof.
  unfold validBoundedText. intros [H Hc]%andb_true_iff. bool_hyps.
  rewrite forallb_Forall in Hc. split_and!; try done.
  eapply Forall_impl; [done|]. intros x Hx. by apply negb_true_iff in Hx.
Qed.

(** An ASCII byte occurs only as the encoding of its own rune, so a valid text
    contains no ASCII control byte. *)
Lemma rune_ascii x b : rune_wf x -> 0 <= b < 128 -> b ∈ Utf8.encoding x -> Utf8.rune x = b.
Proof.
  destruct x as [v r l]. intros (_ & _ & Hd) Hb Hin. simpl in *. unfold Utf8.decodeRune in Hd.
  unfold Utf8.second3, Utf8.second4, Utf8.cont, Utf8.inRange in *.
  decode_cases; match goal with H : 0%nat = length ?k |- _ => destruct k; [|done] end;
    bool_hyps; set_unfold in Hin; naive_solver lia.
Qed.

Lemma valid_text_no_control v maxCharacters maxBytes b :
  validBoundedText v maxCharacters maxBytes = true -> 0 <= b < 128 -> IsControl b = true ->
  b ∉ bytesOf v.
Proof.
  intros (_ & Hv & _ & _ & _ & Hc)%validBoundedText_spec Hb Hctl Hin.
  rewrite <-(encode_decode (bytesOf v)) in Hin. unfold Utf8.encode in Hin.
  apply list_elem_of_join in Hin as (l & Hl & Hin).
  apply list_elem_of_fmap in Hin as (x & -> & Hx).
  apply decode_wf in Hv. rewrite Forall_forall in Hv, Hc.
  specialize (Hc x Hx). rewrite (rune_ascii x b (Hv x Hx) Hb Hl) in Hc. congruence.
Qed.

Lemma valid_text_no_nul v maxCharacters maxBytes :
  validBoundedText v maxCharacters maxBytes = true -> 0 ∉ bytesOf v.
Proof. intros Hv. by eapply valid_text_no_control. Qed.

(** The record separator in front of a role recipient is a control rune. *)
Lemma decode_roleRecipient role :
  exists rs, Utf8.decode (bytesOf (roleRecipient role)) =
    {| Utf8.valid := true; Utf8.rune := 30; Utf8.encoding := [30] |} :: rs.
Proof.
  eexists. unfold roleRecipient. cbn [bytesOf].
  rewrite (decode_cons _ true 30 1); done.
Qed.

Lemma roleRecipient_not_valid role m b : validBoundedText (roleRecipient role) m b = false.
Proof.
  apply not_true_iff_false. intros H. apply validBoundedText_spec in H as (_ & _ & _ & _ & _ & H).
  destruct (decode_roleRecipient role) as [rs E]. rewrite E in H.
  inversion_clear H as [|? ? Hr]. done.
Qed.

Lemma CutPrefix_app p s : CutPrefix (p +:+ s) p = Some s.
Proof.
  induction p as [|a p IH]; [done|]. simpl.
  by rewrite bool_decide_eq_true_2 by done.
Qed.

Lemma CutPrefix_Some s p t : CutPrefix s p = Some t -> s = p +:+ t.
Proof.
  revert s. induction p as [|a p IH]; intros s; simpl.
  { by intros [= ->]. }
  destruct s as [|b s]; [done|]. case_bool_decide; [|done]. subst.
  intros H. by rewrite (IH s H).
Qed.



Lemma Cut_Some s c a b :
  Cut s c = Some (a, b) <-> s = a +:+ String c b /\ Cut a c = None.
Proof.
  split.
  - revert a. induction s as [|x s IH]; intros a; simpl; [done|].
    case_bool_decide as Hx; [by intros [= <- <-]; subst|].
    destruct (Cut s c) as [[a' b']|]; [|done]. intros [= <- <-].
    destruct (IH a' eq_refl) as [-> Ha]. split; [done|]. simpl.
    rewrite bool_decide_eq_false_2 by done. by rewrite Ha.
  - intros [-> Ha]. induction a as [|x a IH]; simpl.
    + by rewrite bool_decide_eq_true_2.
    + simpl in Ha. case_bool_decide as Hx; [done|].
      destruct (Cut a c) as [[? ?]|] eqn:E; [done|].
      by rewrite IH.
Qed.

#[export] Instance roleRecipient_inj : Inj (=) (=) roleRecipient.
Proof.
  intros r1 r2 H. by injection H.
Qed.

(** ** Properties *)

(** Role recipients and endpoints never collide, and the role comes back. *)
Lemma parse_roleRecipient role :
  parseRoleRecipient (roleRecipient role) = if ValidRole role then Some role else None.
Proof.
  unfold parseRoleRecipient, roleRecipient.
  change (String "030" ("role:" +:+ role)) with (String "030" "role:" +:+ role).
  by rewrite CutPrefix_app.
Qed.

Lemma parse_endpoint_None e : ValidEndpoint e = true -> parseRoleRecipient e = None.
Proof.
  intros He. unfold parseRoleRecipient. destruct (CutPrefix e _) as [role|] eqn:E; [|done].
  apply CutPrefix_Some in E. subst.
  change (String "030" "role:" +:+ role) with (roleRecipient role) in He.
  unfold ValidEndpoint in He. by rewrite roleRecipient_not_valid in He.
Qed.

(** Session mailboxes and role mailboxes cannot be confused: no valid
    endpoint is the recipient string of a role or parses as one, and the
    recipient string of a role parses back to that role. *)
Theorem recipient_namespaces (e : string) (r : string) :
  ValidEndpoint e = true -> ValidRole r = true ->
  e <> roleRecipient r /\ parseRoleRecipient e = None /\
  parseRoleRecipient (roleRecipient r) = Some r.
Proof.
  intros He Hr. split; [|split].
  - intros ->. unfold ValidEndpoint in He. by rewrite roleRecipient_not_valid in He.
  - by apply parse_endpoint_None.
  - by rewrite parse_roleRecipient, Hr.
Qed.

(** The byte clamp of a label never fires: 128 runes are at most 512 bytes. *)
Lemma dropTrailing_id fuel rs :
  Forall rune_wf rs -> (length rs <= maxConversationDisplayNameRunes)%nat ->
  dropTrailing fuel rs = rs.
Proof.
  intros Hwf Hlen. destruct fuel; [done|]. cbn [dropTrailing].
  pose proof (encode_length rs Hwf).
  unfold maxConversationDisplayNameBytes, maxConversationDisplayNameRunes in *.
  destruct (Z.ltb_spec 512 (Z.of_nat (length (Utf8.encode rs)))); [lia|done].
Qed.

(** The label as a function of the decoded runes. *)
Lemma Sanitize_runes v w :
  v <> "" -> SanitizeConversationDisplayName v = Some w ->
  let rs := take maxConversationDisplayNameRunes (trimRunes (Utf8.decode (bytesOf v))) in
  Forall rune_wf rs /\ Forall (fun r => IsControl (Utf8.rune r) = false) rs /\
  rs <> [] /\ w = ofBytes (Utf8.encode rs).
Proof.
  intros Hv. unfold SanitizeConversationDisplayName.
  rewrite bool_decide_eq_false_2 by done. set (all := Utf8.decode (bytesOf v)).
  destruct (_ || _) eqn:Hok; [done|]. destruct (existsb _ all) eqn:Hctl; [done|]. bool_hyps.
  assert (Forall rune_wf (trimRunes all)) as Hwf by by apply trimRunes_Forall, decode_wf.
  assert (Forall (fun r => IsControl (Utf8.rune r) = false) (trimRunes all)) as Hnc.
  { apply trimRunes_Forall. apply Forall_forall. intros x Hx. destruct (IsControl _) eqn:E; [|done].
    rewrite <-not_true_iff_false, existsb_exists in Hctl. exfalso. apply Hctl.
    exists x. by rewrite <-list_elem_of_In. }
  case_bool_decide; [done|].
  assert ((if (maxConversationDisplayNameRunes <? length (trimRunes all))%nat
    then take maxConversationDisplayNameRunes (trimRunes all) else trimRunes all)
    = take maxConversationDisplayNameRunes (trimRunes all)) as ->.
  { destruct (Nat.ltb_spec maxConversationDisplayNameRunes (length (trimRunes all))); [done|].
    by rewrite take_ge. }
  rewrite dropTrailing_id by (apply Forall_take || (rewrite length_take; lia); done).
  case_bool_decide as Hne; [done|]. intros [= <-]. split_and!; [by apply Forall_take..| |done].
  intros E. apply Hne. by rewrite E.
Qed.

(** An accepted display name is non-empty valid UTF-8 of at most 128 runes
    and 512 bytes, has no control character and does not start with a space. *)
Theorem display_name_bounds (v w : string) :
  v <> "" -> SanitizeConversationDisplayName v = Some w ->
  w <> "" /\ Utf8.ValidString (bytesOf w) = true /\
  Utf8.RuneCount (bytesOf w) <= 128 /\ goLen w <= 512 /\
  Forall (fun r => IsControl (Utf8.rune r) = false) (Utf8.decode (bytesOf w)) /\
  (forall r rs, Utf8.decode (bytesOf w) = r :: rs -> IsSpace (Utf8.rune r) = false).
Proof.
  intros Hv Hw. apply Sanitize_runes in Hw as (Hwf & Hnc & Hne & ->); [|done].
  set (all := trimRunes (Utf8.decode (bytesOf v))) in *.
  set (rs := take maxConversationDisplayNameRunes all) in *.
  assert (Forall (fun b => 0 <= b < 256) (Utf8.encode rs)) as Hb.
  { destruct (trimRunes_infix (Utf8.decode (bytesOf v))) as (pre & post & E).
    pose proof (bytesOf_range v) as Hr. rewrite <-(encode_decode (bytesOf v)), E in Hr.
    fold all in Hr. rewrite <-(take_drop maxConversationDisplayNameRunes all) in Hr.
    unfold Utf8.encode in Hr. rewrite !fmap_app, !join_app, !Forall_app in Hr. tauto. }
  unfold Utf8.ValidString, Utf8.RuneCount, goLen. rewrite bytesOf_ofBytes, decode_encode by done.
  pose proof (encode_length rs Hwf).
  assert (length rs <= 128)%nat by (unfold rs; rewrite length_take; apply Nat.le_min_l).
  split_and!; try done; try lia.
  - intros E%(f_equal bytesOf). rewrite bytesOf_ofBytes in E by done.
    by apply encode_nil in E.
  - apply forallb_Forall. apply (Forall_impl _ _ _ Hwf). by intros x [? _].
  - intros r rs' E. subst rs. destruct all as [|r0 all'] eqn:Ea; [done|].
    simpl in E. injection E as <- _. by apply (trimRunes_head _ _ _ Ea).
Qed.

(** Clamping runs after trimming: a label whose 128th rune is a space is
    stored with the trailing space, and sanitizing the stored label again gives a
    different one. *)
Theorem display_name_keeps_trailing_space :
  let v := ofBytes (replicate 127 97 ++ [32; 98]) in
  let w := ofBytes (replicate 127 97 ++ [32]) in
  SanitizeConversationDisplayName v = Some w /\
  TrimSpace w <> w /\ SanitizeConversationDisplayName w = Some (ofBytes (replicate 127 97)).
Proof. vm_compute. done. Qed.

(** A canonical handle is [role/<machine>/<slug>]. *)
Lemma CanonicalRoleHandle_parts r :
  CanonicalRoleHandle r = true ->
  r = "role/" +:+ (roleParts r).1 +:+ String "/" (roleParts r).2 /\
  ValidMachineID (roleParts r).1 = true /\ ValidRoleSlug (roleParts r).2 = true /\
  ContainsByte (roleParts r).1 "/" = false /\ ValidRole r = true.
Proof.
  unfold CanonicalRoleHandle, roleParts. intros [Hr H]%andb_true_iff.
  destruct (CutPrefix r "role/") as [rest|] eqn:E; [|done]. simpl.
  apply CutPrefix_Some in E. destruct (Cut rest "/") as [[m s]|] eqn:E2; [|done]. simpl.
  apply Cut_Some in E2 as [-> Hm]. bool_hyps. subst. unfold ContainsByte in *. rewrite Hm.
  split_and!; done.
Qed.

