(* ===== verification/Sha256.v ===== *)
(** * SHA-256, hexadecimal and base64url ([crypto/sha256], [encoding/hex],
      [encoding/base64])

    The relay binds an idempotency key to a request by the SHA-256 digest of
    the request's parts joined with a zero byte.  The digest is computed here
    word for word, so that requests can be replayed inside the model. *)

From Stdlib Require Import Ascii.
From S2P Require Import Prelude Text.
Open Scope Z_scope.

Module Sha256.
Definition word (z : Z) : Z := z `mod` 2 ^ 32.
Definition add (a b : Z) : Z := word (a + b).
Definition rotr (n x : Z) : Z := word (Z.lor (Z.shiftr x n) (Z.shiftl x (32 - n))).
Definition xor3 (a b c : Z) : Z := Z.lxor a (Z.lxor b c).

Definition Ch (x y z : Z) : Z := Z.lxor (Z.land x y) (Z.land (0xffffffff - x) z).
Definition Maj (x y z : Z) : Z := xor3 (Z.land x y) (Z.land x z) (Z.land y z).
Definition Sigma0 (x : Z) : Z := xor3 (rotr 2 x) (rotr 13 x) (rotr 22 x).
Definition Sigma1 (x : Z) : Z := xor3 (rotr 6 x) (rotr 11 x) (rotr 25 x).
Definition sigma0 (x : Z) : Z := xor3 (rotr 7 x) (rotr 18 x) (Z.shiftr x 3).
Definition sigma1 (x : Z) : Z := xor3 (rotr 17 x) (rotr 19 x) (Z.shiftr x 10).

(** The round constants are the first 32 fractional bits of the cube roots of
    the first 64 primes, the initial state those of the square roots of the
    first 8. *)
Fixpoint sieve (fuel : nat) (candidates : list nat) : list nat :=
  match fuel, candidates with
  | S fuel, p :: rest =>
      p :: sieve fuel (filter (fun n => Nat.eqb (Nat.modulo n p) 0 = false) rest)
  | _, _ => []
  end.

Definition primes : list Z := Eval vm_compute in Z.of_nat <$> sieve 64 (seq 2 310).

(** The largest [r] below [2 ^ bits] above [r0] with [r ^ 3 <= n]. *)
Fixpoint cubeRoot (bits : nat) (r0 n : Z) : Z :=
  match bits with
  | O => r0
  | S bits =>
      let r := r0 + 2 ^ Z.of_nat bits in
      cubeRoot bits (if r ^ 3 <=? n then r else r0) n
  end.

Definition K : list Z :=
  Eval vm_compute in (fun p => word (cubeRoot 36 0 (p * 2 ^ 96))) <$> primes.

Definition H0 : list Z :=
  Eval vm_compute in (fun p => word (Z.sqrt (p * 2 ^ 64))) <$> take 8 primes.

(** The message schedule, newest word first. *)
Fixpoint schedule (n : nat) (ws : list Z) : list Z :=
  match n with
  | O => ws
  | S n =>
      let w i := default 0 (ws !! i) in
      schedule n
        (add (add (sigma1 (w 1%nat)) (w 6%nat)) (add (sigma0 (w 14%nat)) (w 15%nat)) :: ws)
  end.

Definition round (st : list Z) (kw : Z * Z) : list Z :=
  match st with
  | [a; b; c; d; e; f; g; h] =>
      let t1 := add (add (add h (Sigma1 e)) (add (Ch e f g) kw.1)) kw.2 in
      let t2 := add (Sigma0 a) (Maj a b c) in
      [add t1 t2; a; b; c; add d t1; e; f; g]
  | _ => st
  end.

(** One 64-byte block, given as sixteen words. *)
Definition compress (st block : list Z) : list Z :=
  let ws := reverse (schedule 48 (reverse block)) in
  zip_with add st (foldl round st (zip K ws)).

Fixpoint be (n : nat) (z : Z) : list Z :=
  match n with
  | O => []
  | S n => be n (z / 256) ++ [z `mod` 256]
  end.

Definition pad (l : list Z) : list Z :=
  let n := Z.of_nat (length l) in
  l ++ [0x80] ++ replicate (Z.to_nat ((55 - n) `mod` 64)) 0 ++ be 8 (8 * n).

Fixpoint words (l : list Z) : list Z :=
  match l with
  | a :: b :: c :: d :: l => (((a * 256 + b) * 256 + c) * 256 + d) :: words l
  | _ => []
  end.

Fixpoint blocks (fuel : nat) (st ws : list Z) : list Z :=
  match fuel, ws with
  | O, _ | _, [] => st
  | S fuel, _ => blocks fuel (compress st (take 16 ws)) (drop 16 ws)
  end.

Definition Sum256 (l : list Z) : list Z :=
  let ws := words (pad l) in
  mjoin (be 4 <$> blocks (length ws) H0 ws).
End Sha256.

Definition hexDigit (n : Z) : ascii :=
  byteAscii (if n <? 10 then 48 + n else 87 + n).

(** [hex.EncodeToString] *)
Fixpoint hexEncode (l : list Z) : string :=
  match l with
  | [] => EmptyString
  | b :: l => String (hexDigit (b / 16)) (String (hexDigit (b `mod` 16)) (hexEncode l))
  end.

(** [strings.Join(parts, "\x00")], as bytes. *)
Fixpoint joinNul (parts : list string) : list Z :=
  match parts with
  | [] => []
  | [p] => bytesOf p
  | p :: parts => bytesOf p ++ 0 :: joinNul parts
  end.

Definition stableHash (parts : list string) : string :=
  hexEncode (Sha256.Sum256 (joinNul parts)).

Arguments stableHash : simpl never.

(** The FIPS 180-4 test vectors. *)
Example sha256_abc :
  stableHash ["abc"] = "ba7816bf8f01cfea414140de5dae2223b00361a396177a9cb410ff61f20015ad".
Proof. vm_compute. reflexivity. Qed.

Example sha256_two_blocks :
  stableHash ["abcdbcdecdefdefgefghfghighijhijkijkljklmklmnlmnomnopnopq"]
  = "248d6a61d20638b8e5c026930c3e6039a33ce45964ff2167f6ecedd419db06c1".
Proof. vm_compute. reflexivity. Qed.

(** A list is cut in one way at the first, or at the last, separator. *)
Lemma split_first (x : Z) (l1 l2 r1 r2 : list Z) :
  x ∉ l1 -> x ∉ l2 -> l1 ++ x :: r1 = l2 ++ x :: r2 -> l1 = l2 /\ r1 = r2.
Proof.
  revert l2. induction l1 as [|y l1 IH]; intros [|z l2] H1 H2 E; simpl in E; simplify_eq.
  - done.
  - set_solver.
  - set_solver.
  - destruct (IH l2) as [-> ->]; set_solver.
Qed.

Lemma split_last (x : Z) (l1 l2 r1 r2 : list Z) :
  x ∉ r1 -> x ∉ r2 -> l1 ++ x :: r1 = l2 ++ x :: r2 -> l1 = l2 /\ r1 = r2.
Proof.
  intros H1 H2 E. apply (f_equal reverse) in E. rewrite !reverse_app, !reverse_cons, <-!(assoc_L (++)) in E.
  simpl in E. apply split_first in E as [E1 E2]; [|by rewrite elem_of_reverse..].
  split; by apply (inj reverse).
Qed.

Lemma split_at_nul (l1 l2 r1 r2 : list Z) :
  0 ∉ l1 -> 0 ∉ l2 -> l1 ++ 0 :: r1 = l2 ++ 0 :: r2 -> l1 = l2 /\ r1 = r2.
Proof. apply split_first. Qed.

(** ** Digests as text *)

Lemma be_bytes n z : Forall (fun b => 0 <= b < 256) (Sha256.be n z).
Proof.
  revert z. induction n as [|n IH]; intros z; simpl; [constructor|].
  apply Forall_app. split; [done|]. constructor; [apply Z.mod_pos_bound; lia|constructor].
Qed.

Lemma Sum256_bytes l : Forall (fun b => 0 <= b < 256) (Sha256.Sum256 l).
Proof.
  unfold Sha256.Sum256. apply Forall_join, Forall_fmap, Forall_true. intros x. apply be_bytes.
Qed.

Lemma hexDigit_inj m n : 0 <= m < 16 -> 0 <= n < 16 -> hexDigit m = hexDigit n -> m = n.
Proof.
  assert (forallb (fun '(m, n) => implb (bool_decide (hexDigit m = hexDigit n)) (m =? n))
    (cprod (seqZ 0 16) (seqZ 0 16)) = true) as Ha by reflexivity.
  rewrite forallb_Forall, Forall_forall in Ha. intros Hm Hn E.
  specialize (Ha (m, n)). simpl in Ha. rewrite bool_decide_eq_true_2 in Ha by done.
  apply Z.eqb_eq, Ha, list_elem_of_cprod. simpl. rewrite !elem_of_seqZ. lia.
Qed.

Lemma hexEncode_inj l k :
  Forall (fun b => 0 <= b < 256) l -> Forall (fun b => 0 <= b < 256) k ->
  hexEncode l = hexEncode k -> l = k.
Proof.
  intros Hl. revert k. induction Hl as [|b l Hb _ IH]; intros k Hk E; destruct Hk as [|c k Hc Hk];
    try done.
  simpl in E. injection E as E1 E2 E3. f_equal; [|by apply IH].
  apply hexDigit_inj in E1; [|split; [apply Z.div_pos|apply Z.div_lt_upper_bound]; lia..].
  apply hexDigit_inj in E2; [|apply Z.mod_pos_bound; lia..].
  rewrite (Z.div_mod b 16), (Z.div_mod c 16) by lia. congruence.
Qed.

(** Joining with a zero byte is injective on parts that contain none: two
    requests with the same number of parts have the same digest input only if
    they are the same. *)
Lemma joinNul_inj ps qs :
  length ps = length qs ->
  Forall (fun p => 0 ∉ bytesOf p) ps -> Forall (fun p => 0 ∉ bytesOf p) qs ->
  joinNul ps = joinNul qs -> ps = qs.
Proof.
  revert qs. induction ps as [|p ps IH]; intros [|q qs] Hlen Hp Hq E; simplify_eq/=; [done|].
  inversion_clear Hp as [|? ? Hp1 Hps]. inversion_clear Hq as [|? ? Hq1 Hqs].
  destruct ps as [|p' ps], qs as [|q' qs]; simplify_eq/=.
  - f_equal. by rewrite <-(ofBytes_bytesOf p), <-(ofBytes_bytesOf q), E.
  - apply split_at_nul in E as [E1 E2]; [|done..].
    f_equal; [by rewrite <-(ofBytes_bytesOf p), <-(ofBytes_bytesOf q), E1|].
    apply IH; simpl; [congruence|done..].
Qed.

(** ** Digests are 64 lower-case hexadecimal digits *)

Lemma be_length n z : length (Sha256.be n z) = n.
Proof. revert z. induction n as [|n IH]; intros z; simpl; [done|]. rewrite length_app, IH. simpl. lia. Qed.

Lemma round_length st kw : length st = 8%nat -> length (Sha256.round st kw) = 8%nat.
Proof. intros Hl. do 9 (destruct st as [|? st]; [done|]). done. Qed.

Lemma compress_length st block : length st = 8%nat -> length (Sha256.compress st block) = 8%nat.
Proof.
  intros Hl. unfold Sha256.compress. rewrite length_zip_with, Hl.
  assert (forall kws st, length st = 8%nat -> length (foldl Sha256.round st kws) = 8%nat) as Hr.
  { induction kws as [|kw kws IH]; intros st' Hst; [done|]. simpl. by apply IH, round_length. }
  by rewrite Hr.
Qed.

Lemma blocks_length fuel st ws : length st = 8%nat -> length (Sha256.blocks fuel st ws) = 8%nat.
Proof.
  revert st ws. induction fuel as [|fuel IH]; intros st ws Hl; [done|]. simpl.
  destruct ws; [done|]. by apply IH, compress_length.
Qed.

Lemma Sum256_length l : length (Sha256.Sum256 l) = 32%nat.
Proof.
  unfold Sha256.Sum256. set (st := Sha256.blocks _ _ _).
  assert (length st = 8%nat) as Hl by by apply blocks_length.
  do 9 (destruct st as [|? st]; [done|]). simpl. done.
Qed.

Definition hexByte (b : Z) : bool := Utf8.inRange 0x30 0x39 b || Utf8.inRange 0x61 0x66 b.

Lemma hexEncode_hex l :
  Forall (fun b => 0 <= b < 256) l ->
  length (bytesOf (hexEncode l)) = (2 * length l)%nat /\ forallb hexByte (bytesOf (hexEncode l)) = true.
Proof.
  assert (forall n, 0 <= n < 16 -> forallb hexByte (bytesOf (String (hexDigit n) "")) = true) as Hd.
  { intros n Hn. assert (forallb (fun n => forallb hexByte (bytesOf (String (hexDigit n) ""))) (seqZ 0 16) = true)
      as Hall by reflexivity. rewrite forallb_forall in Hall. apply Hall, list_elem_of_In, elem_of_seqZ. lia. }
  induction 1 as [|b l Hb _ [IHl IHh]]; [done|].
  pose proof (Hd (b / 16) ltac:(split; [apply Z.div_pos|apply Z.div_lt_upper_bound]; lia)).
  pose proof (Hd (b `mod` 16) ltac:(apply Z.mod_pos_bound; lia)).
  cbn [hexEncode bytesOf forallb length] in *. split; [lia|].
  by rewrite !andb_true_iff in *; naive_solver.
Qed.

(** * Unpadded base64url text ([encoding/base64] RawURLEncoding)

    Role-directory cursors, signatures, keys and device identifiers travel in
    this encoding.  Encoding followed by decoding gives the bytes back. *)

(** Six bits per character, no padding.  The decoder skips CR and LF, rejects
    any other character outside the alphabet and a single leftover character,
    and does not inspect the unused low bits of the last character. *)
Module Base64.
Definition encodeSextet (v : Z) : Z :=
  if v <? 26 then v + 65
  else if v <? 52 then v + 71
  else if v <? 62 then v - 4
  else if v =? 62 then 45 else 95.

Definition decodeSextet (c : Z) : option Z :=
  if (65 <=? c) && (c <=? 90) then Some (c - 65)
  else if (97 <=? c) && (c <=? 122) then Some (c - 71)
  else if (48 <=? c) && (c <=? 57) then Some (c + 4)
  else if c =? 45 then Some 62
  else if c =? 95 then Some 63
  else None.

Fixpoint sextets (l : list Z) : list Z :=
  match l with
  | a :: b :: c :: l =>
      Z.shiftr a 2 :: Z.lor (Z.shiftl (Z.land a 3) 4) (Z.shiftr b 4) ::
      Z.lor (Z.shiftl (Z.land b 15) 2) (Z.shiftr c 6) :: Z.land c 63 :: sextets l
  | [a; b] =>
      [Z.shiftr a 2; Z.lor (Z.shiftl (Z.land a 3) 4) (Z.shiftr b 4); Z.shiftl (Z.land b 15) 2]
  | [a] => [Z.shiftr a 2; Z.shiftl (Z.land a 3) 4]
  | [] => []
  end.

Fixpoint octets (l : list Z) : option (list Z) :=
  match l with
  | a :: b :: c :: d :: l =>
      r ← octets l;
      Some (Z.lor (Z.shiftl a 2) (Z.shiftr b 4) ::
            Z.land (Z.lor (Z.shiftl b 4) (Z.shiftr c 2)) 255 ::
            Z.land (Z.lor (Z.shiftl c 6) d) 255 :: r)
  | [a; b; c] => Some [Z.lor (Z.shiftl a 2) (Z.shiftr b 4);
                       Z.land (Z.lor (Z.shiftl b 4) (Z.shiftr c 2)) 255]
  | [a; b] => Some [Z.lor (Z.shiftl a 2) (Z.shiftr b 4)]
  | [_] => None
  | [] => Some []
  end.

Definition EncodeToString (l : list Z) : string := ofBytes (encodeSextet <$> sextets l).

Definition DecodeString (s : string) : option (list Z) :=
  vs ← mapM decodeSextet (filter (fun c => c <> 10 /\ c <> 13) (bytesOf s));
  octets vs.
End Base64.

(** ** Round trip *)

(** [lia] with quotients and remainders by constants. *)
Ltac div_lia := Z.to_euclidean_division_equations; lia.

(** Joining a high part and a low part of [n] bits. *)
Lemma lor_shiftl h l n : 0 <= n -> 0 <= l < 2 ^ n -> Z.lor (Z.shiftl h n) l = h * 2 ^ n + l.
Proof.
  intros Hn Hl. assert (Z.land (Z.shiftl h n) l = 0) as Hland.
  { apply Z.bits_inj'. intros i Hi. rewrite Z.land_spec, Z.bits_0. apply andb_false_iff.
    destruct (decide (i < n)); [left; apply Z.shiftl_spec_low; lia|right].
    destruct (decide (l = 0)) as [->|]; [apply Z.bits_0|]. apply Z.bits_above_log2; [lia|].
    apply Z.log2_lt_pow2; [lia|]. apply (Z.lt_le_trans _ (2 ^ n)); [lia|apply Z.pow_le_mono_r; lia]. }
  by rewrite <-(Z.lxor_lor _ _ Hland), <-(Z.add_nocarry_lxor _ _ Hland), Z.shiftl_mul_pow2.
Qed.

Lemma land_low x n : 0 <= n -> Z.land x (Z.ones n) = x `mod` 2 ^ n.
Proof. intros. by apply Z.land_ones. Qed.

Lemma sextet_roundtrip v : 0 <= v < 64 -> Base64.decodeSextet (Base64.encodeSextet v) = Some v.
Proof.
  intros Hv. unfold Base64.encodeSextet, Base64.decodeSextet.
  repeat case_match; bool_hyps; f_equal; lia.
Qed.

Definition isByte (b : Z) : Prop := 0 <= b < 256.

(** The four sextets of three bytes, and the three bytes of four sextets, as
    quotients and remainders. *)
Lemma sextet_high b : isByte b -> Z.shiftr b 2 = b / 4 /\ 0 <= b / 4 < 64.
Proof. unfold isByte. intros. rewrite Z.shiftr_div_pow2 by lia. split; [done|]. change (2 ^ 2) with 4. div_lia. Qed.

Lemma sextet_mid a b : isByte a -> isByte b ->
  Z.lor (Z.shiftl (Z.land a 3) 4) (Z.shiftr b 4) = (a `mod` 4) * 16 + b / 16.
Proof.
  unfold isByte. intros. change 3 with (Z.ones 2). rewrite land_low, Z.shiftr_div_pow2 by lia.
  rewrite lor_shiftl; [done|lia|]. change (2 ^ 4) with 16. div_lia.
Qed.

Lemma sextet_mid2 b c : isByte b -> isByte c ->
  Z.lor (Z.shiftl (Z.land b 15) 2) (Z.shiftr c 6) = (b `mod` 16) * 4 + c / 64.
Proof.
  unfold isByte. intros. change 15 with (Z.ones 4). rewrite land_low, Z.shiftr_div_pow2 by lia.
  rewrite lor_shiftl; [done|lia|]. change (2 ^ 6) with 64. change (2 ^ 2) with 4. div_lia.
Qed.

Lemma octet_first s t : 0 <= t < 64 -> Z.lor (Z.shiftl s 2) (Z.shiftr t 4) = s * 4 + t / 16.
Proof.
  intros. rewrite Z.shiftr_div_pow2 by lia. rewrite lor_shiftl; [done|lia|].
  change (2 ^ 4) with 16. change (2 ^ 2) with 4. div_lia.
Qed.

Lemma octet_second s t : 0 <= t < 64 ->
  Z.land (Z.lor (Z.shiftl s 4) (Z.shiftr t 2)) 255 = (s * 16 + t / 4) `mod` 256.
Proof.
  intros. change 255 with (Z.ones 8). rewrite land_low, Z.shiftr_div_pow2 by lia.
  rewrite lor_shiftl; [done|lia|]. change (2 ^ 2) with 4. change (2 ^ 4) with 16. div_lia.
Qed.

Lemma octet_third s t : 0 <= t < 64 ->
  Z.land (Z.lor (Z.shiftl s 6) t) 255 = (s * 64 + t) `mod` 256.
Proof.
  intros. change 255 with (Z.ones 8). rewrite land_low by lia. rewrite lor_shiftl; [done|lia|done].
Qed.

(** The last, incomplete group is one followed by zero bits. *)
Lemma shiftl_pad x n k : Z.shiftl x n = Z.lor (Z.shiftl x n) (Z.shiftr 0 k).
Proof. by rewrite Z.shiftr_0_l, Z.lor_0_r. Qed.

Lemma octets_sextets l : Forall isByte l ->
  Base64.octets (Base64.sextets l) = Some l /\ Forall (fun v => 0 <= v < 64) (Base64.sextets l).
Proof.
  revert l. fix IH 1. intros [|a [|b [|c l]]] Hl; [by split|..].
  - apply Forall_cons in Hl as [Ha _]. cbn [Base64.sextets Base64.octets].
    rewrite (shiftl_pad (Z.land a 3) 4 4).
    rewrite (proj1 (sextet_high a Ha)), sextet_mid by (done || by split).
    unfold isByte in *. rewrite octet_first by div_lia.
    split; [do 2 f_equal; div_lia|repeat constructor; div_lia].
  - apply Forall_cons in Hl as [Ha Hb]. apply Forall_cons in Hb as [Hb _]. cbn [Base64.sextets Base64.octets].
    rewrite (shiftl_pad (Z.land b 15) 2 6).
    rewrite (proj1 (sextet_high a Ha)), sextet_mid, sextet_mid2 by (done || by split).
    unfold isByte in *. rewrite octet_first, octet_second by div_lia.
    split; [do 2 f_equal; [|f_equal]; div_lia|repeat constructor; div_lia].
  - apply Forall_cons in Hl as [Ha Hl]. apply Forall_cons in Hl as [Hb Hl]. apply Forall_cons in Hl as [Hc Hl].
    destruct (IH l Hl) as [IHo IHs]. cbn [Base64.sextets Base64.octets]. rewrite IHo. cbn [mbind option_bind].
    change 63 with (Z.ones 6). rewrite (proj1 (sextet_high a Ha)), sextet_mid, sextet_mid2, (land_low c 6) by (done || lia).
    change (2 ^ 6) with 64. unfold isByte in *. rewrite octet_first, octet_second, octet_third by div_lia.
    split; [do 2 f_equal; [div_lia|f_equal; [div_lia|f_equal; div_lia]]|].
    repeat constructor; try div_lia. done.
Qed.

Lemma decode_sextets l : Forall (fun v => 0 <= v < 64) l ->
  mapM Base64.decodeSextet (filter (fun c => c <> 10 /\ c <> 13) (Base64.encodeSextet <$> l)) = Some l.
Proof.
  induction 1 as [|v l Hv _ IH]; [done|]. rewrite fmap_cons, filter_cons_True.
  - simpl. rewrite sextet_roundtrip by done. simpl. by rewrite IH.
  - unfold Base64.encodeSextet. repeat case_match; bool_hyps; lia.
Qed.

Lemma encodeSextet_byte v : 0 <= v < 64 -> isByte (Base64.encodeSextet v).
Proof. unfold Base64.encodeSextet, isByte. intros. repeat case_match; bool_hyps; lia. Qed.

(** Decoding what was encoded gives the bytes back. *)
Lemma base64_roundtrip l : Forall isByte l -> Base64.DecodeString (Base64.EncodeToString l) = Some l.
Proof.
  intros Hl. destruct (octets_sextets l Hl) as [Ho Hs].
  unfold Base64.DecodeString, Base64.EncodeToString. rewrite bytesOf_ofBytes, decode_sextets; [done..|].
  apply Forall_fmap. eapply Forall_impl; [exact Hs|]. apply encodeSextet_byte.
Qed.
