(* ===== verification/Tables.v ===== *)
(** * The relay's durable tables ([Store.migrate], [ensureInvocationSchema])

    One field of [Db] per SQLite table: a finite map from the primary key to
    the row.  A [Table] carries, beside its contents, the constraints of its
    [CREATE TABLE] statement: [t_check] is CHECK and UNIQUE, [t_fk] the foreign
    keys, and [t_guarded] whether the migration guard triggers watch it. *)

From S2P Require Import Prelude Text RateLimit Quota.
Open Scope Z_scope.

(** ** Rows *)

Record EndpointRow := {
  ep_machine : string;
  ep_lease_until : Z;
  ep_generation : Z;               (* ownership_generation *)
  ep_consumer : option string;
  ep_consumer_generation : Z;
  ep_consumer_until : option Z;
}.

Record ConversationRow := {
  cv_next_sequence : Z;
  cv_created_at : Z;
  cv_display_name : option string;
}.

Record BindingRow := {
  bd_session : string;
  bd_machine : string;
  bd_generation : Z;
  bd_lease_until : Z;
}.

Record ProfileRow := {
  pr_display : option string;
  pr_addressable : bool;
  pr_updated_at : Z;
}.

Record ProfileIdemRow := {
  pi_hash : string;
  pi_role : string;
  pi_display : option string;
  pi_addressable : bool;
  pi_updated_at : Z;
  pi_created_at : Z;
}.

Record MessageRow := {
  ms_conversation : string;
  ms_sequence : Z;
  ms_from : string;
  ms_participant : option string;
  ms_reply_message : option string;
  ms_reply_endpoint : option string;
  ms_thread : option Z;
  ms_body : string;
  ms_created_at : Z;
}.

Record DeliveryRow := {
  dl_message : string;
  dl_recipient : string;
  dl_machine : option string;      (* lease_machine_id *)
  dl_token : option string;        (* lease_token *)
  dl_generation : Z;               (* lease_generation *)
  dl_ownership : option Z;         (* ownership_generation *)
  dl_consumer : option Z;          (* consumer_generation *)
  dl_until : option Z;             (* lease_until *)
  dl_acked : option Z;             (* acked_at *)
}.

(** [idempotency], [conversation_idempotency], ...: the digest of the first
    request and the object it made. *)
Record IdemRow := { id_hash : string; id_target : string; id_created_at : Z }.

Inductive ControlOperation := ControlUpsertMember | ControlRemoveMember.

Record ControlRow := {
  ct_conversation : string;
  ct_actor : string;
  ct_operation : ControlOperation;
  ct_member : string;
  ct_capabilities : Z;
  ct_created_at : Z;
}.

Record TerminalRow := {
  tm_message : string;
  tm_conversation : string;
  tm_recipient : string;
  tm_sequence : Z;
  tm_reason : ClosedReason;
  tm_generation : Z;
  tm_created_at : Z;
  tm_closed_at : Z;
}.

Record DirectRow := { dc_conversation : string; dc_created_at : Z }.

Record DirectIdemRow := {
  di_hash : string;
  di_from : string;
  di_to : string;
  di_conversation : string;
  di_message : string;
  di_sequence : Z;
  di_created_at : Z;
}.

Inductive ClaimStatus := ClaimPending | ClaimComplete.

Record ClaimRow := {
  cl_status : ClaimStatus;
  cl_machine : string;
  cl_endpoint : string;
  cl_key : string;
  cl_hash : string;
  cl_created_at : Z;
  cl_completed_at : option Z;
}.

Record ClaimEventRow := {
  ce_conversation : string;
  ce_machine : string;
  ce_endpoint : string;
  ce_created_at : Z;
}.

Inductive InvocationStatus :=
  | InvocationPending | InvocationAlreadyRunning | InvocationSucceeded | InvocationFailed.

Record InvocationRow := {
  iv_conversation : string;
  iv_from : string;
  iv_target : string;
  iv_machine : string;             (* target_machine_id *)
  iv_fence : string;
  iv_status : InvocationStatus;
  iv_attempts : Z;
  iv_not_before : Z;
  iv_lease_machine : option string;
  iv_lease_consumer : option string;
  iv_lease_token : option string;
  iv_lease_generation : Z;
  iv_recovery_only : bool;
  iv_generation : Z;               (* target_ownership_generation *)
  iv_lease_until : option Z;
  iv_last_activity : Z;
  iv_terminal_at : option Z;
  iv_created_at : Z;
}.

Inductive InvocationAction :=
  | ActRequested | ActCoalesced | ActAlreadyRunning | ActLeased | ActRetry | ActAccepted | ActFailed.

Inductive MigrationSourcePhase :=
  | MigrationSourceActive | MigrationSourcePrepared | MigrationSourceRetired.

#[export] Instance EndpointRow_eq_dec : EqDecision EndpointRow.
Proof. solve_decision. Defined.
#[export] Instance ConversationRow_eq_dec : EqDecision ConversationRow.
Proof. solve_decision. Defined.
#[export] Instance BindingRow_eq_dec : EqDecision BindingRow.
Proof. solve_decision. Defined.
#[export] Instance ProfileRow_eq_dec : EqDecision ProfileRow.
Proof. solve_decision. Defined.
#[export] Instance ProfileIdemRow_eq_dec : EqDecision ProfileIdemRow.
Proof. solve_decision. Defined.
#[export] Instance MessageRow_eq_dec : EqDecision MessageRow.
Proof. solve_decision. Defined.
#[export] Instance DeliveryRow_eq_dec : EqDecision DeliveryRow.
Proof. solve_decision. Defined.
#[export] Instance IdemRow_eq_dec : EqDecision IdemRow.
Proof. solve_decision. Defined.
#[export] Instance ControlOperation_eq_dec : EqDecision ControlOperation.
Proof. solve_decision. Defined.
#[export] Instance ControlRow_eq_dec : EqDecision ControlRow.
Proof. solve_decision. Defined.
#[export] Instance TerminalRow_eq_dec : EqDecision TerminalRow.
Proof. solve_decision. Defined.
#[export] Instance DirectRow_eq_dec : EqDecision DirectRow.
Proof. solve_decision. Defined.
#[export] Instance DirectIdemRow_eq_dec : EqDecision DirectIdemRow.
Proof. solve_decision. Defined.
#[export] Instance ClaimStatus_eq_dec : EqDecision ClaimStatus.
Proof. solve_decision. Defined.
#[export] Instance ClaimRow_eq_dec : EqDecision ClaimRow.
Proof. solve_decision. Defined.
#[export] Instance ClaimEventRow_eq_dec : EqDecision ClaimEventRow.
Proof. solve_decision. Defined.
#[export] Instance InvocationStatus_eq_dec : EqDecision InvocationStatus.
Proof. solve_decision. Defined.
#[export] Instance InvocationRow_eq_dec : EqDecision InvocationRow.
Proof. solve_decision. Defined.
#[export] Instance InvocationAction_eq_dec : EqDecision InvocationAction.
Proof. solve_decision. Defined.
#[export] Instance MigrationSourcePhase_eq_dec : EqDecision MigrationSourcePhase.
Proof. solve_decision. Defined.

(** ** The database *)

Record Db := mkDb {
  db_endpoints : gmap string EndpointRow;
  db_conversations : gmap string ConversationRow;
  db_memberships : gmap (string * string) Z;
  db_roles : gmap string string;
  db_role_memberships : gmap (string * string) Z;
  db_role_bindings : gmap string BindingRow;
  db_role_profiles : gmap string ProfileRow;
  db_role_profile_idempotency : gmap (string * string) ProfileIdemRow;
  db_messages : gmap string MessageRow;
  db_deliveries : gmap string DeliveryRow;
  db_recipient_cursors : gmap (string * string) Z;
  db_idempotency : gmap (string * string) IdemRow;
  db_conversation_idempotency : gmap (string * string) IdemRow;
  db_conversation_controls : gmap string ControlRow;
  db_conversation_control_idempotency : gmap (string * string) IdemRow;
  db_conversation_display_name_idempotency : gmap (string * string) IdemRow;
  db_request_nonces : gmap (string * string) Z;
  db_rate_buckets : gmap (string * string) (Z * Z);
  db_pending_quota_recipients : gmap string QuotaCounters;
  db_pending_quota_install : gmap unit QuotaCounters;
  db_delivery_terminals : gmap string TerminalRow;
  db_direct_conversations : gmap (string * string) DirectRow;
  db_message_from_roles : gmap string string;
  db_direct_message_idempotency : gmap (string * string) DirectIdemRow;
  db_telegram_claims : gmap string ClaimRow;
  db_telegram_participants : gmap string Z;
  db_telegram_claim_events : gmap string ClaimEventRow;
  db_telegram_claim_idempotency : gmap (string * string) IdemRow;
  db_phase : MigrationSourcePhase;
  db_invocation_schema : bool;
  db_invocations : gmap string InvocationRow;
  db_invocation_idempotency : gmap (string * string) (string * string);
  db_invocation_audit : gmap (string * Z) (InvocationAction * Z);
}.

(** [invocations] and its two companions exist only once
    [ensureInvocationSchema] ran; [db_phase] is [relay_migration_control.phase]. *)

Definition emptyDb : Db := {|
  db_endpoints := ∅;
  db_conversations := ∅;
  db_memberships := ∅;
  db_roles := ∅;
  db_role_memberships := ∅;
  db_role_bindings := ∅;
  db_role_profiles := ∅;
  db_role_profile_idempotency := ∅;
  db_messages := ∅;
  db_deliveries := ∅;
  db_recipient_cursors := ∅;
  db_idempotency := ∅;
  db_conversation_idempotency := ∅;
  db_conversation_controls := ∅;
  db_conversation_control_idempotency := ∅;
  db_conversation_display_name_idempotency := ∅;
  db_request_nonces := ∅;
  db_rate_buckets := ∅;
  db_pending_quota_recipients := ∅;
  db_pending_quota_install := ∅;
  db_delivery_terminals := ∅;
  db_direct_conversations := ∅;
  db_message_from_roles := ∅;
  db_direct_message_idempotency := ∅;
  db_telegram_claims := ∅;
  db_telegram_participants := ∅;
  db_telegram_claim_events := ∅;
  db_telegram_claim_idempotency := ∅;
  db_phase := MigrationSourceActive;
  db_invocation_schema := false;
  db_invocations := ∅;
  db_invocation_idempotency := ∅;
  db_invocation_audit := ∅
|}.

(** Field updates: [set_f x d] is [d] with field [db_f] replaced. *)
Definition etaDb (d : Db) : Db :=
  mkDb (db_endpoints d) (db_conversations d) (db_memberships d) (db_roles d)
    (db_role_memberships d) (db_role_bindings d) (db_role_profiles d)
    (db_role_profile_idempotency d) (db_messages d) (db_deliveries d) (db_recipient_cursors d)
    (db_idempotency d) (db_conversation_idempotency d) (db_conversation_controls d)
    (db_conversation_control_idempotency d) (db_conversation_display_name_idempotency d)
    (db_request_nonces d) (db_rate_buckets d) (db_pending_quota_recipients d)
    (db_pending_quota_install d) (db_delivery_terminals d) (db_direct_conversations d)
    (db_message_from_roles d) (db_direct_message_idempotency d) (db_telegram_claims d)
    (db_telegram_participants d) (db_telegram_claim_events d) (db_telegram_claim_idempotency d)
    (db_phase d) (db_invocation_schema d) (db_invocations d) (db_invocation_idempotency d)
    (db_invocation_audit d).

Ltac set_field old new d :=
  let e := eval cbv beta delta [etaDb] in (etaDb d) in
  let e := eval pattern old in e in
  match e with ?f _ => let r := eval cbv beta in (f new) in exact r end.

Definition set_endpoints (x : gmap string EndpointRow) (d : Db) : Db := ltac:(set_field (db_endpoints d) x d).
Definition set_conversations (x : gmap string ConversationRow) (d : Db) : Db := ltac:(set_field (db_conversations d) x d).
Definition set_memberships (x : gmap (string * string) Z) (d : Db) : Db := ltac:(set_field (db_memberships d) x d).
Definition set_roles (x : gmap string string) (d : Db) : Db := ltac:(set_field (db_roles d) x d).
Definition set_role_memberships (x : gmap (string * string) Z) (d : Db) : Db := ltac:(set_field (db_role_memberships d) x d).
Definition set_role_bindings (x : gmap string BindingRow) (d : Db) : Db := ltac:(set_field (db_role_bindings d) x d).
Definition set_role_profiles (x : gmap string ProfileRow) (d : Db) : Db := ltac:(set_field (db_role_profiles d) x d).
Definition set_role_profile_idempotency (x : gmap (string * string) ProfileIdemRow) (d : Db) : Db := ltac:(set_field (db_role_profile_idempotency d) x d).
Definition set_messages (x : gmap string MessageRow) (d : Db) : Db := ltac:(set_field (db_messages d) x d).
Definition set_deliveries (x : gmap string DeliveryRow) (d : Db) : Db := ltac:(set_field (db_deliveries d) x d).
Definition set_recipient_cursors (x : gmap (string * string) Z) (d : Db) : Db := ltac:(set_field (db_recipient_cursors d) x d).
Definition set_idempotency (x : gmap (string * string) IdemRow) (d : Db) : Db := ltac:(set_field (db_idempotency d) x d).
Definition set_conversation_idempotency (x : gmap (string * string) IdemRow) (d : Db) : Db := ltac:(set_field (db_conversation_idempotency d) x d).
Definition set_conversation_controls (x : gmap string ControlRow) (d : Db) : Db := ltac:(set_field (db_conversation_controls d) x d).
Definition set_conversation_control_idempotency (x : gmap (string * string) IdemRow) (d : Db) : Db := ltac:(set_field (db_conversation_control_idempotency d) x d).
Definition set_conversation_display_name_idempotency (x : gmap (string * string) IdemRow) (d : Db) : Db := ltac:(set_field (db_conversation_display_name_idempotency d) x d).
Definition set_request_nonces (x : gmap (string * string) Z) (d : Db) : Db := ltac:(set_field (db_request_nonces d) x d).
Definition set_rate_buckets (x : gmap (string * string) (Z * Z)) (d : Db) : Db := ltac:(set_field (db_rate_buckets d) x d).
Definition set_pending_quota_recipients (x : gmap string QuotaCounters) (d : Db) : Db := ltac:(set_field (db_pending_quota_recipients d) x d).
Definition set_pending_quota_install (x : gmap unit QuotaCounters) (d : Db) : Db := ltac:(set_field (db_pending_quota_install d) x d).
Definition set_delivery_terminals (x : gmap string TerminalRow) (d : Db) : Db := ltac:(set_field (db_delivery_terminals d) x d).
Definition set_direct_conversations (x : gmap (string * string) DirectRow) (d : Db) : Db := ltac:(set_field (db_direct_conversations d) x d).
Definition set_message_from_roles (x : gmap string string) (d : Db) : Db := ltac:(set_field (db_message_from_roles d) x d).
Definition set_direct_message_idempotency (x : gmap (string * string) DirectIdemRow) (d : Db) : Db := ltac:(set_field (db_direct_message_idempotency d) x d).
Definition set_telegram_claims (x : gmap string ClaimRow) (d : Db) : Db := ltac:(set_field (db_telegram_claims d) x d).
Definition set_telegram_participants (x : gmap string Z) (d : Db) : Db := ltac:(set_field (db_telegram_participants d) x d).
Definition set_telegram_claim_events (x : gmap string ClaimEventRow) (d : Db) : Db := ltac:(set_field (db_telegram_claim_events d) x d).
Definition set_telegram_claim_idempotency (x : gmap (string * string) IdemRow) (d : Db) : Db := ltac:(set_field (db_telegram_claim_idempotency d) x d).
Definition set_phase (x : MigrationSourcePhase) (d : Db) : Db := ltac:(set_field (db_phase d) x d).
Definition set_invocation_schema (x : bool) (d : Db) : Db := ltac:(set_field (db_invocation_schema d) x d).
Definition set_invocations (x : gmap string InvocationRow) (d : Db) : Db := ltac:(set_field (db_invocations d) x d).
Definition set_invocation_idempotency (x : gmap (string * string) (string * string)) (d : Db) : Db := ltac:(set_field (db_invocation_idempotency d) x d).
Definition set_invocation_audit (x : gmap (string * Z) (InvocationAction * Z)) (d : Db) : Db := ltac:(set_field (db_invocation_audit d) x d).

(** ** Tables and their constraints

    [t_check] is the conjunction of the CHECK constraints of the row being
    written, [t_unique m k v] says that writing [v] under key [k] collides with
    no other row of [m] on a UNIQUE constraint besides the primary key, and
    [t_fk] that every REFERENCES target exists.  NOT NULL is in the row types. *)

Record Table (K V : Type) `{Countable K} := mkTable {
  t_name : string;
  t_get : Db -> gmap K V;
  t_set : gmap K V -> Db -> Db;
  t_check : K -> V -> bool;
  t_unique : gmap K V -> K -> V -> bool;
  t_fk : Db -> K -> V -> bool;
  t_guarded : bool;
}.
Arguments mkTable {K V _ _}.
Arguments t_name {K V _ _}.
Arguments t_get {K V _ _}.
Arguments t_set {K V _ _}.
Arguments t_check {K V _ _}.
Arguments t_unique {K V _ _}.
Arguments t_fk {K V _ _}.
Arguments t_guarded {K V _ _}.

(** The row [k] exists in a referenced table. *)
Definition has {K V} `{Countable K} (m : gmap K V) (k : K) : bool :=
  match m !! k with Some _ => true | None => false end.

Lemma has_true {K V} `{Countable K} (m : gmap K V) k :
  has m k = true <-> is_Some (m !! k).
Proof.
  unfold has. rewrite <-not_eq_None_Some. destruct (m !! k); naive_solver.
Qed.

Definition no_check {K V : Type} (_ : K) (_ : V) : bool := true.
Definition no_unique {K V : Type} `{Countable K} (_ : gmap K V) (_ : K) (_ : V) : bool := true.
Definition no_fk {K V : Type} (_ : Db) (_ : K) (_ : V) : bool := true.

Definition t_endpoints : Table string EndpointRow :=
  mkTable "endpoints" db_endpoints set_endpoints
    no_check
    no_unique
    no_fk true.

Definition t_conversations : Table string ConversationRow :=
  mkTable "conversations" db_conversations set_conversations
    no_check
    no_unique
    no_fk true.

Definition t_memberships : Table (string * string) Z :=
  mkTable "memberships" db_memberships set_memberships
    no_check
    no_unique
    (fun d k _ => has (db_conversations d) k.1) true.

Definition t_roles : Table string string :=
  mkTable "roles" db_roles set_roles
    no_check
    no_unique
    no_fk true.

Definition t_role_memberships : Table (string * string) Z :=
  mkTable "role_memberships" db_role_memberships set_role_memberships
    no_check
    no_unique
    (fun d k _ => has (db_conversations d) k.1 && has (db_roles d) k.2) true.

Definition t_role_bindings : Table string BindingRow :=
  mkTable "role_bindings" db_role_bindings set_role_bindings
    no_check
    no_unique
    (fun d k _ => has (db_roles d) k) true.

Definition t_role_profiles : Table string ProfileRow :=
  mkTable "role_profiles" db_role_profiles set_role_profiles
    no_check
    no_unique
    (fun d k _ => has (db_roles d) k) true.

Definition t_role_profile_idempotency : Table (string * string) ProfileIdemRow :=
  mkTable "role_profile_idempotency" db_role_profile_idempotency set_role_profile_idempotency
    no_check
    no_unique
    (fun d _ v => has (db_role_profiles d) (pi_role v)) true.

Definition t_messages : Table string MessageRow :=
  mkTable "messages" db_messages set_messages
    no_check
    (fun m k v => negb (mexists (fun k' w => negb (bool_decide (k' = k)) &&
       (bool_decide (ms_conversation w = ms_conversation v) && (ms_sequence w =? ms_sequence v))) m))
    (fun d _ v => has (db_conversations d) (ms_conversation v)) true.

Definition t_deliveries : Table string DeliveryRow :=
  mkTable "deliveries" db_deliveries set_deliveries
    no_check
    (fun m k v => negb (mexists (fun k' w => negb (bool_decide (k' = k)) &&
       (bool_decide (dl_message w = dl_message v) && bool_decide (dl_recipient w = dl_recipient v))) m))
    (fun d _ v => has (db_messages d) (dl_message v)) true.

Definition t_recipient_cursors : Table (string * string) Z :=
  mkTable "recipient_cursors" db_recipient_cursors set_recipient_cursors
    (fun _ v => 0 <=? v)
    no_unique
    (fun d k _ => has (db_conversations d) k.2) true.

Definition t_idempotency : Table (string * string) IdemRow :=
  mkTable "idempotency" db_idempotency set_idempotency
    no_check
    no_unique
    (fun d _ v => has (db_messages d) (id_target v)) true.

Definition t_conversation_idempotency : Table (string * string) IdemRow :=
  mkTable "conversation_idempotency" db_conversation_idempotency set_conversation_idempotency
    no_check
    no_unique
    (fun d _ v => has (db_conversations d) (id_target v)) true.

Definition t_conversation_controls : Table string ControlRow :=
  mkTable "conversation_controls" db_conversation_controls set_conversation_controls
    no_check
    no_unique
    (fun d _ v => has (db_conversations d) (ct_conversation v)) true.

Definition t_conversation_control_idempotency : Table (string * string) IdemRow :=
  mkTable "conversation_control_idempotency" db_conversation_control_idempotency set_conversation_control_idempotency
    no_check
    no_unique
    (fun d _ v => has (db_conversation_controls d) (id_target v)) true.

Definition t_conversation_display_name_idempotency : Table (string * string) IdemRow :=
  mkTable "conversation_display_name_idempotency" db_conversation_display_name_idempotency set_conversation_display_name_idempotency
    no_check
    no_unique
    (fun d _ v => has (db_conversations d) (id_target v)) true.

Definition t_request_nonces : Table (string * string) Z :=
  mkTable "request_nonces" db_request_nonces set_request_nonces
    no_check
    no_unique
    no_fk true.

Definition t_rate_buckets : Table (string * string) (Z * Z) :=
  mkTable "rate_buckets" db_rate_buckets set_rate_buckets
    (fun k v => (bool_decide (k.1 = "sender") || bool_decide (k.1 = "conversation")) && (0 <=? v.1))
    no_unique
    no_fk true.

Definition t_pending_quota_recipients : Table string QuotaCounters :=
  mkTable "pending_quota_recipients" db_pending_quota_recipients set_pending_quota_recipients
    (fun _ v => (0 <=? Count v) && (0 <=? Bytes v))
    no_unique
    no_fk true.

Definition t_pending_quota_install : Table unit QuotaCounters :=
  mkTable "pending_quota_install" db_pending_quota_install set_pending_quota_install
    (fun _ v => (0 <=? Count v) && (0 <=? Bytes v))
    no_unique
    no_fk true.

Definition t_delivery_terminals : Table string TerminalRow :=
  mkTable "delivery_terminals" db_delivery_terminals set_delivery_terminals
    (fun _ v => (1 <=? tm_sequence v) && (0 <=? tm_generation v))
    no_unique
    no_fk true.

Definition t_direct_conversations : Table (string * string) DirectRow :=
  mkTable "direct_conversations" db_direct_conversations set_direct_conversations
    (fun k _ => stringLt k.1 k.2)
    (fun m k v => negb (mexists (fun k' w => negb (bool_decide (k' = k)) &&
       bool_decide (dc_conversation w = dc_conversation v)) m))
    (fun d k v => has (db_roles d) k.1 && has (db_roles d) k.2 &&
       has (db_conversations d) (dc_conversation v)) true.

Definition t_message_from_roles : Table string string :=
  mkTable "message_from_roles" db_message_from_roles set_message_from_roles
    no_check
    no_unique
    (fun d k v => has (db_messages d) k && has (db_roles d) v) true.

Definition t_direct_message_idempotency : Table (string * string) DirectIdemRow :=
  mkTable "direct_message_idempotency" db_direct_message_idempotency set_direct_message_idempotency
    no_check
    no_unique
    (fun d _ v => has (db_conversations d) (di_conversation v) && has (db_messages d) (di_message v)) true.

Definition t_telegram_claims : Table string ClaimRow :=
  mkTable "telegram_claims" db_telegram_claims set_telegram_claims
    no_check
    (fun m k v => negb (mexists (fun k' w => negb (bool_decide (k' = k)) &&
       (bool_decide (cl_machine w = cl_machine v) && bool_decide (cl_key w = cl_key v))) m))
    (fun d k _ => has (db_conversations d) k) true.

Definition t_telegram_participants : Table string Z :=
  mkTable "telegram_participants" db_telegram_participants set_telegram_participants
    no_check
    no_unique
    (fun d k _ => has (db_conversations d) k) true.

Definition t_telegram_claim_events : Table string ClaimEventRow :=
  mkTable "telegram_claim_events" db_telegram_claim_events set_telegram_claim_events
    no_check
    no_unique
    (fun d _ v => has (db_conversations d) (ce_conversation v)) true.

Definition t_telegram_claim_idempotency : Table (string * string) IdemRow :=
  mkTable "telegram_claim_idempotency" db_telegram_claim_idempotency set_telegram_claim_idempotency
    no_check
    no_unique
    (fun d _ v => has (db_conversations d) (id_target v)) true.

Definition t_invocations : Table string InvocationRow :=
  mkTable "invocations" db_invocations set_invocations
    (fun _ v => 0 <=? iv_attempts v)
    (fun m k v => negb (mexists (fun k' w => negb (bool_decide (k' = k)) &&
       bool_decide (iv_fence w = iv_fence v)) m))
    (fun d _ v => has (db_conversations d) (iv_conversation v)) false.

Definition t_invocation_idempotency : Table (string * string) (string * string) :=
  mkTable "invocation_idempotency" db_invocation_idempotency set_invocation_idempotency
    no_check
    no_unique
    (fun d _ v => has (db_invocations d) v.2) false.

Definition t_invocation_audit : Table (string * Z) (InvocationAction * Z) :=
  mkTable "invocation_audit" db_invocation_audit set_invocation_audit
    no_check
    no_unique
    (fun d k _ => has (db_invocations d) k.1) false.
