(* ===== verification/Tx.v ===== *)
(** * Transactions: the store's state and the effect of its SQL statements

    A [Store] method runs inside one SQLite transaction ([SetMaxOpenConns(1)]
    serialises them), reads and writes tables, draws identifiers, and updates
    the in-process metrics.  [M] threads that state and stops at the first
    error, as the Go code does; [transact] is [BeginTx] ... [Commit] with the
    deferred [rollback]. *)

From S2P Require Import Prelude GoTime RateLimit Quota Text Tables.
Open Scope Z_scope.

(** ** Outside the repository

    [uuid.NewString] and the 32 random bytes of [randomToken] come from the
    process's entropy source; the [n]-th draw is a function of [n].
    [uuid.Validate] is the parser of the same third-party package. *)
Class Env := {
  uuid_NewString : nat -> string;
  rand_token : nat -> option string;
  uuid_Validate : string -> bool;
}.

(** ** Errors *)
Inductive Err :=
  | ErrForbidden
  | ErrConflict
  | ErrInvalid (what : string)
  | ErrNoRows
  | ErrConstraint (table : string)
  | ErrNotWritable
  | ErrRateLimited (retryAfterSeconds : Z)
  | ErrCapacityExceeded (retryAfterSeconds : Z)
  | ErrQuotaInconsistent
  | ErrEntropy
  | ErrMigrationSourcePrepared
  | ErrMigrationSourceRetired
  | ErrMaintenance
  | ErrPanic
  | ErrDiverges.

#[export] Instance Err_eq_dec : EqDecision Err.
Proof. solve_decision. Defined.

(** ** Metrics ([rate_limit.go], [quota.go]): [atomic.Uint64] counters. *)
Record Metrics := mkMetrics {
  rateLimitRejections : Z;
  capacityRejections : Z;
  pendingDeliveries : Z;
  pendingBytes : Z;
  pendingOldestAgeSeconds : Z;
  terminalTransitionsAcked : Z;
  terminalTransitionsExpired : Z;
  terminalTransitionsRevoked : Z;
  terminalsRetained : Z;
  leaseRedeliveries : Z;
}.

Definition newMetrics : Metrics := mkMetrics 0 0 0 0 0 0 0 0 0 0.

Definition unsignedPending (value : Z) : Z := if value <? 0 then 0 else wrapu64 value.

Definition ObserveRateLimited (m : Metrics) : Metrics :=
  let '(mkMetrics a b c d e f g h i j) := m in
  mkMetrics (wrapu64 (a + 1)) b c d e f g h i j.

Definition ObserveCapacityExceeded (m : Metrics) : Metrics :=
  let '(mkMetrics a b c d e f g h i j) := m in
  mkMetrics a (wrapu64 (b + 1)) c d e f g h i j.

Definition SetPending (count bytes : Z) (m : Metrics) : Metrics :=
  let '(mkMetrics a b c d e f g h i j) := m in
  mkMetrics a b (unsignedPending count) (unsignedPending bytes) e f g h i j.

Definition SetPendingOldestAge (seconds : Z) (m : Metrics) : Metrics :=
  let '(mkMetrics a b c d e f g h i j) := m in
  mkMetrics a b c d (unsignedPending seconds) f g h i j.

Definition SetTerminalsRetained (count : Z) (m : Metrics) : Metrics :=
  let '(mkMetrics a b c d e f g h i j) := m in
  mkMetrics a b c d e f g h (unsignedPending count) j.

Definition ObserveTerminals (reason : ClosedReason) (count : Z) (m : Metrics) : Metrics :=
  if count <=? 0 then m else
  let '(mkMetrics a b c d e f g h i j) := m in
  match reason with
  | ClosedAcked => mkMetrics a b c d e (wrapu64 (f + count)) g h i j
  | ClosedExpired => mkMetrics a b c d e f (wrapu64 (g + count)) h i j
  | ClosedRevoked => mkMetrics a b c d e f g (wrapu64 (h + count)) i j
  end.

Definition ObserveLeaseRedeliveries (count : Z) (m : Metrics) : Metrics :=
  if count <=? 0 then m else
  let '(mkMetrics a b c d e f g h i j) := m in
  mkMetrics a b c d e f g h i (wrapu64 (j + count)).

(** ** The store ([Store] of store.go)

    [st_metrics] is a pointer ([None] is nil), [st_supply] counts the draws
    from the entropy source. *)
Record St := mkSt {
  st_db : Db;
  st_rate : RateLimitConfig;
  st_quota : QuotaConfig;
  st_retention : RetentionConfig;
  st_metrics : option Metrics;
  st_supply : nat;
}.

Definition with_db (d : Db) (s : St) : St :=
  mkSt d (st_rate s) (st_quota s) (st_retention s) (st_metrics s) (st_supply s).

Definition with_metrics (f : Metrics -> Metrics) (s : St) : St :=
  mkSt (st_db s) (st_rate s) (st_quota s) (st_retention s) (f <$> st_metrics s) (st_supply s).

Definition next_supply (s : St) : St :=
  mkSt (st_db s) (st_rate s) (st_quota s) (st_retention s) (st_metrics s) (S (st_supply s)).

(** The state [openStore] starts from before [migrate] fills the schema. *)
Definition newSt (d : Db) : St :=
  mkSt d DefaultRateLimitConfig DefaultQuotaConfig DefaultRetentionConfig None 0.

(** ** The monad *)
Definition M (A : Type) : Type := St -> (Err + A) * St.

#[export] Instance M_ret : MRet M := fun A a s => (inr a, s).
#[export] Instance M_bind : MBind M := fun A B k m s =>
  match m s with
  | (inl e, s1) => (inl e, s1)
  | (inr a, s1) => k a s1
  end.

Definition throw {A} (e : Err) : M A := fun s => (inl e, s).
Definition reject_if (b : bool) (e : Err) : M unit := if b then throw e else mret tt.
Definition gets {A} (f : St -> A) : M A := fun s => (inr (f s), s).
Definition query {A} (f : Db -> A) : M A := gets (fun s => f (st_db s)).
Definition modify (f : St -> St) : M unit := fun s => (inr tt, f s).
Definition put_db (f : Db -> Db) : M unit := modify (fun s => with_db (f (st_db s)) s).

(** [errors.Is(err, sql.ErrNoRows)] handled by the caller as error [e]. *)
Definition query_or {A} (e : Err) (f : Db -> option A) : M A :=
  x ← query f; match x with Some a => mret a | None => throw e end.

(** Replace any error by [e]. *)
Definition mask {A} (e : Err) (m : M A) : M A := fun s =>
  match m s with (inl _, s1) => (inl e, s1) | r => r end.

(** [BeginTx]; the body; [Commit] on success, [rollback] on any error. *)
Definition transact {A} (m : M A) : M A := fun s =>
  match m s with
  | (inl e, s1) => (inl e, with_db (st_db s) s1)
  | (inr a, s1) => (inr a, s1)
  end.

(** Hand the error to the caller as a value. *)
Definition attempt {A} (m : M A) : M (Err + A) := fun s =>
  match m s with (r, s1) => (inr r, s1) end.

(** A transaction whose function returns a value without committing. *)
Definition rolled_back {A} (m : M A) : M A := fun s =>
  match m s with (r, s1) => (r, with_db (st_db s) s1) end.

Definition observe (f : Metrics -> Metrics) : M unit := modify (with_metrics f).

(** The [for ... range] loop over a slice. *)
Fixpoint for_each {A} (l : list A) (f : A -> M unit) : M unit :=
  match l with
  | [] => mret tt
  | x :: l => f x;; for_each l f
  end.

(** The loop that appends one result per element. *)
Fixpoint collect {A B} (l : list A) (f : A -> M B) : M (list B) :=
  match l with
  | [] => mret []
  | x :: l => y ← f x; ys ← collect l f; mret (y :: ys)
  end.

(** ** SQL statements

    The guard triggers run BEFORE each affected row's INSERT, UPDATE or DELETE
    and abort unless the migration phase is active; then PRIMARY KEY, CHECK,
    UNIQUE and FOREIGN KEY constraints are enforced. *)

Definition writable (d : Db) : bool := bool_decide (db_phase d = MigrationSourceActive).

Section Sql.
Context {K V : Type} `{Countable K}.
Implicit Types (T : Table K V).

Definition trigger T : M unit :=
  d ← query (fun d => d);
  reject_if (t_guarded T && negb (writable d)) ErrNotWritable.

Definition store_row T (k : K) (v : V) : M unit :=
  put_db (fun d => t_set T (<[k:=v]> (t_get T d)) d).

Definition row_ok T (d : Db) (k : K) (v : V) : bool :=
  t_check T k v && t_unique T (t_get T d) k v.

(** INSERT INTO *)
Definition sql_insert T (k : K) (v : V) : M unit :=
  trigger T;;
  d ← query (fun d => d);
  reject_if (has (t_get T d) k || negb (row_ok T d k v)) (ErrConstraint (t_name T));;
  reject_if (negb (t_fk T d k v)) (ErrConstraint (t_name T));;
  store_row T k v.

(** INSERT OR IGNORE INTO, reporting whether a row was inserted; foreign keys
    are not subject to IGNORE. *)
Definition sql_try_insert T (k : K) (v : V) : M bool :=
  trigger T;;
  d ← query (fun d => d);
  if has (t_get T d) k || negb (row_ok T d k v) then mret false
  else
    reject_if (negb (t_fk T d k v)) (ErrConstraint (t_name T));;
    store_row T k v;;
    mret true.

Definition sql_insert_or_ignore T (k : K) (v : V) : M unit :=
  _ ← sql_try_insert T k v; mret tt.

(** UPDATE ... SET f WHERE key = k AND cond: the number of rows affected. *)
Definition sql_update T (k : K) (cond : V -> bool) (f : V -> V) : M Z :=
  d ← query (fun d => d);
  match t_get T d !! k with
  | None => mret 0
  | Some v =>
      if cond v then
        trigger T;;
        reject_if (negb (row_ok T d k (f v))) (ErrConstraint (t_name T));;
        store_row T k (f v);;
        mret 1
      else mret 0
  end.

(** INSERT ... ON CONFLICT(key) DO UPDATE SET f *)
Definition sql_upsert T (k : K) (v : V) (f : V -> V) : M unit :=
  d ← query (fun d => d);
  match t_get T d !! k with
  | None => sql_insert T k v
  | Some w =>
      trigger T;;
      reject_if (negb (row_ok T d k (f w))) (ErrConstraint (t_name T));;
      store_row T k (f w)
  end.

(** DELETE FROM ... WHERE cond *)
Definition sql_delete_where T (cond : K -> V -> bool) : M unit :=
  d ← query (fun d => d);
  if mexists cond (t_get T d) then
    trigger T;;
    put_db (fun d => t_set T (filter (fun kv => cond kv.1 kv.2 = false) (t_get T d)) d)
  else mret tt.

(** UPDATE ... SET f WHERE cond, on columns under no constraint. *)
Definition sql_update_where T (cond : K -> V -> bool) (f : V -> V) : M unit :=
  d ← query (fun d => d);
  if mexists cond (t_get T d) then
    trigger T;;
    put_db (fun d => t_set T
      (map_imap (fun k v => Some (if cond k v then f v else v)) (t_get T d)) d)
  else mret tt.
End Sql.

Section Draws.
Context `{Env}.
Definition newUUID : M string :=
  n ← gets st_supply; modify next_supply;; mret (uuid_NewString n).
Definition randomToken : M string :=
  n ← gets st_supply; modify next_supply;;
  match rand_token n with Some t => mret t | None => throw ErrEntropy end.
End Draws.

(** ** Successful runs

    A successful run is taken apart statement by statement: one equivalence per
    combinator, collected by the tactic [tx_inv]. *)

Section Ok.
Implicit Types (s : St).

Lemma bind_ok {A B} (m : M A) (k : A -> M B) s b s' :
  (m ≫= k) s = (inr b, s') <-> exists a s1, m s = (inr a, s1) /\ k a s1 = (inr b, s').
Proof.
  unfold mbind, M_bind. destruct (m s) as [[e|a] s1]; split; [done|naive_solver|eauto|].
  intros (a' & s1' & ? & ?). by simplify_eq.
Qed.

Lemma mret_ok {A} (a b : A) s s' : mret (M:=M) a s = (inr b, s') <-> b = a /\ s' = s.
Proof. unfold mret, M_ret. naive_solver. Qed.

Lemma throw_ok {A} e (a : A) s s' : throw e s = (inr a, s') <-> False.
Proof. unfold throw. naive_solver. Qed.

Lemma gets_ok {A} (f : St -> A) s a s' : gets f s = (inr a, s') <-> a = f s /\ s' = s.
Proof. unfold gets. naive_solver. Qed.

Lemma query_ok {A} (f : Db -> A) s a s' : query f s = (inr a, s') <-> a = f (st_db s) /\ s' = s.
Proof. unfold query. by rewrite gets_ok. Qed.

Lemma query_or_ok {A} e (f : Db -> option A) s a s' :
  query_or e f s = (inr a, s') <-> f (st_db s) = Some a /\ s' = s.
Proof.
  unfold query_or. rewrite bind_ok. setoid_rewrite query_ok. split.
  - intros (o & s1 & [-> ->] & Ho). destruct (f (st_db s)).
    + apply mret_ok in Ho as [-> ->]. done.
    + by apply throw_ok in Ho.
  - intros [Hf ->]. exists (f (st_db s)), s. rewrite Hf. by split.
Qed.

Lemma mask_ok {A} e (m : M A) s a s' : mask e m s = (inr a, s') -> m s = (inr a, s').
Proof. unfold mask. destruct (m s) as [[?|?] ?]; naive_solver. Qed.

Lemma transact_ok {A} (m : M A) s a s' : transact m s = (inr a, s') -> m s = (inr a, s').
Proof. unfold transact. destruct (m s) as [[?|?] ?]; naive_solver. Qed.
End Ok.

Lemma reject_if_ok b e u s s' : reject_if b e s = (inr u, s') <-> b = false /\ s' = s.
Proof.
  destruct u, b; simpl.
  - rewrite throw_ok. naive_solver.
  - rewrite mret_ok. naive_solver.
Qed.

Lemma modify_ok f u s s' : modify f s = (inr u, s') <-> s' = f s.
Proof. destruct u. unfold modify. naive_solver. Qed.

(** An error inside [transact] leaves the database as it was. *)
Lemma transact_error {A} (m : M A) s e s' :
  transact m s = (inl e, s') -> st_db s' = st_db s.
Proof. unfold transact. destruct (m s) as [[?|?] ?]; intros; by simplify_eq. Qed.

Section SqlOk.
Context {K V : Type} `{Countable K}.
Implicit Types (T : Table K V) (s : St).

Definition may_write T (s : St) : Prop := t_guarded T = true -> writable (st_db s) = true.

Definition set_row T k v s : St :=
  with_db (t_set T (<[k:=v]> (t_get T (st_db s))) (st_db s)) s.

Lemma trigger_ok T u s s' : trigger T s = (inr u, s') <-> may_write T s /\ s' = s.
Proof.
  unfold trigger, may_write. rewrite bind_ok. setoid_rewrite query_ok.
  setoid_rewrite reject_if_ok. split.
  - intros (d & s1 & [-> ->] & Hb & ->). split; [|done].
    destruct (t_guarded T), (writable _); naive_solver.
  - intros [Hw ->]. do 2 eexists. split; [done|]. split; [|done].
    destruct (t_guarded T); [|done]. by rewrite Hw.
Qed.

Lemma store_row_ok T k v u s s' : store_row T k v s = (inr u, s') <-> s' = set_row T k v s.
Proof. apply modify_ok. Qed.

Lemma sql_insert_ok T k v u s s' :
  sql_insert T k v s = (inr u, s') <->
  may_write T s /\ t_get T (st_db s) !! k = None /\ row_ok T (st_db s) k v = true /\
  t_fk T (st_db s) k v = true /\ s' = set_row T k v s.
Proof.
  unfold sql_insert. rewrite bind_ok. setoid_rewrite trigger_ok.
  setoid_rewrite bind_ok. setoid_rewrite query_ok. setoid_rewrite bind_ok.
  setoid_rewrite reject_if_ok. setoid_rewrite bind_ok.
  setoid_rewrite reject_if_ok. setoid_rewrite store_row_ok. split.
  - intros ([] & s1 & [Hw ->] & d & s2 & [-> ->] & [] & s3 & [Hb ->] & [] & s4 & [Hf ->] & ->).
    apply orb_false_iff in Hb as [Hh Hr]. apply negb_false_iff in Hr, Hf.
    split_and!; try done. unfold has in Hh. by destruct (_ !! _).
  - intros (Hw & Hn & Hr & Hf & ->).
    exists tt, s. split; [done|]. do 2 eexists. split; [done|]. exists tt, s.
    unfold has. rewrite Hn, Hr, Hf. split; [done|]. by exists tt, s.
Qed.

(** The outcomes of INSERT OR IGNORE. *)
Lemma sql_try_insert_ok T k v b s s' :
  sql_try_insert T k v s = (inr b, s') ->
  may_write T s /\
  (b = false /\ s' = s /\ (has (t_get T (st_db s)) k = true \/ row_ok T (st_db s) k v = false) \/
   b = true /\ t_get T (st_db s) !! k = None /\ row_ok T (st_db s) k v = true /\
   t_fk T (st_db s) k v = true /\ s' = set_row T k v s).
Proof.
  unfold sql_try_insert. rewrite bind_ok. intros (u1 & s1 & Ht & Hk).
  apply trigger_ok in Ht as [Hw ->]. split; [done|].
  apply bind_ok in Hk as (d & s2 & Hq & Hk). apply query_ok in Hq as [-> ->].
  destruct (has _ k || negb (row_ok T (st_db s) k v)) eqn:Hb.
  - left. apply mret_ok in Hk as [-> ->]. split_and!; [done..|].
    apply orb_true_iff in Hb as [?|?%negb_true_iff]; auto.
  - right. apply orb_false_iff in Hb as [Hh Hr]. apply negb_false_iff in Hr.
    apply bind_ok in Hk as (u2 & s3 & Hr2 & Hk). apply reject_if_ok in Hr2 as [Hf ->].
    apply bind_ok in Hk as (u3 & s4 & Hs & Hk). apply mret_ok in Hk as [-> ->].
    apply store_row_ok in Hs as ->. apply negb_false_iff in Hf.
    split_and!; try done. unfold has in Hh. by destruct (_ !! _).
Qed.

Lemma sql_insert_or_ignore_ok T k v u s s' :
  sql_insert_or_ignore T k v s = (inr u, s') ->
  may_write T s /\
  (s' = s /\ (has (t_get T (st_db s)) k = true \/ row_ok T (st_db s) k v = false) \/
   t_get T (st_db s) !! k = None /\ row_ok T (st_db s) k v = true /\
   t_fk T (st_db s) k v = true /\ s' = set_row T k v s).
Proof.
  unfold sql_insert_or_ignore. rewrite bind_ok. intros (b & s1 & Ht & Hk).
  apply mret_ok in Hk as [_ ->]. apply sql_try_insert_ok in Ht. tauto.
Qed.

Lemma sql_update_ok T k cond f n s s' :
  sql_update T k cond f s = (inr n, s') ->
  n = 0 /\ s' = s /\ (forall v, t_get T (st_db s) !! k = Some v -> cond v = false) \/
  n = 1 /\ exists v, t_get T (st_db s) !! k = Some v /\ cond v = true /\ may_write T s /\
    row_ok T (st_db s) k (f v) = true /\ s' = set_row T k (f v) s.
Proof.
  unfold sql_update. rewrite bind_ok. intros (d & s1 & Hq & Hk).
  apply query_ok in Hq as [-> ->]. destruct (_ !! k) as [v|] eqn:Hv.
  - destruct (cond v) eqn:Hc.
    + right. apply bind_ok in Hk as (u1 & s2 & Ht & Hk). apply trigger_ok in Ht as [Hw ->].
      apply bind_ok in Hk as (u2 & s3 & Hr & Hk). apply reject_if_ok in Hr as [Hr ->].
      apply bind_ok in Hk as (u3 & s4 & Hs & Hk). apply store_row_ok in Hs as ->.
      apply mret_ok in Hk as [-> ->]. apply negb_false_iff in Hr. eauto 10.
    + left. apply mret_ok in Hk as [-> ->]. split_and!; [done..|]. intros ? [= <-]. done.
  - left. apply mret_ok in Hk as [-> ->]. naive_solver.
Qed.

Lemma sql_upsert_ok T k v f u s s' :
  sql_upsert T k v f s = (inr u, s') ->
  may_write T s /\
  (t_get T (st_db s) !! k = None /\ row_ok T (st_db s) k v = true /\
   t_fk T (st_db s) k v = true /\ s' = set_row T k v s \/
   exists w, t_get T (st_db s) !! k = Some w /\ row_ok T (st_db s) k (f w) = true /\
   s' = set_row T k (f w) s).
Proof.
  unfold sql_upsert. rewrite bind_ok. intros (d & s1 & Hq & Hk).
  apply query_ok in Hq as [-> ->]. destruct (_ !! k) as [w|] eqn:Hv.
  - apply bind_ok in Hk as (u1 & s2 & Ht & Hk). apply trigger_ok in Ht as [Hw ->].
    apply bind_ok in Hk as (u2 & s3 & Hr & Hs). apply reject_if_ok in Hr as [Hr ->].
    apply store_row_ok in Hs as ->. apply negb_false_iff in Hr. eauto 10.
  - apply sql_insert_ok in Hk as (? & ? & ? & ? & ->). auto 10.
Qed.

Definition delete_rows T (cond : K -> V -> bool) s : St :=
  with_db (t_set T (filter (fun kv => cond kv.1 kv.2 = false) (t_get T (st_db s))) (st_db s)) s.

Lemma sql_delete_where_ok T cond u s s' :
  sql_delete_where T cond s = (inr u, s') ->
  s' = s /\ mexists cond (t_get T (st_db s)) = false \/
  may_write T s /\ mexists cond (t_get T (st_db s)) = true /\ s' = delete_rows T cond s.
Proof.
  unfold sql_delete_where. rewrite bind_ok. intros (d & s1 & Hq & Hk).
  apply query_ok in Hq as [-> ->]. destruct (mexists _ _) eqn:Hm.
  - right. apply bind_ok in Hk as (u1 & s2 & Ht & Hk). apply trigger_ok in Ht as [Hw ->].
    by apply modify_ok in Hk as ->.
  - left. by apply mret_ok in Hk as [_ ->].
Qed.

Definition update_rows T (cond : K -> V -> bool) (f : V -> V) s : St :=
  with_db (t_set T (map_imap (fun k v => Some (if cond k v then f v else v))
    (t_get T (st_db s))) (st_db s)) s.

Lemma sql_update_where_ok T cond f u s s' :
  sql_update_where T cond f s = (inr u, s') ->
  s' = s /\ mexists cond (t_get T (st_db s)) = false \/
  may_write T s /\ mexists cond (t_get T (st_db s)) = true /\ s' = update_rows T cond f s.
Proof.
  unfold sql_update_where. rewrite bind_ok. intros (d & s1 & Hq & Hk).
  apply query_ok in Hq as [-> ->]. destruct (mexists _ _) eqn:Hm.
  - right. apply bind_ok in Hk as (u1 & s2 & Ht & Hk). apply trigger_ok in Ht as [Hw ->].
    by apply modify_ok in Hk as ->.
  - left. by apply mret_ok in Hk as [_ ->].
Qed.
End SqlOk.

(** ** Runs that succeed *)

Section Run.
Context {K V : Type} `{Countable K}.
Implicit Types (T : Table K V) (s : St).

Lemma bind_run {A B} (m : M A) (k : A -> M B) s a s1 :
  m s = (inr a, s1) -> (m ≫= k) s = k a s1.
Proof. unfold mbind, M_bind. by intros ->. Qed.

Lemma bind_error {A B} (m : M A) (k : A -> M B) s e s1 :
  m s = (inl e, s1) -> (m ≫= k) s = (inl e, s1).
Proof. unfold mbind, M_bind. by intros ->. Qed.

Lemma reject_if_run b e s : b = false -> reject_if b e s = (inr tt, s).
Proof. by intros ->. Qed.

Lemma trigger_run T s : may_write T s -> trigger T s = (inr tt, s).
Proof. intros. by apply trigger_ok. Qed.

Lemma sql_insert_run T k v s :
  may_write T s -> t_get T (st_db s) !! k = None -> row_ok T (st_db s) k v = true ->
  t_fk T (st_db s) k v = true -> sql_insert T k v s = (inr tt, set_row T k v s).
Proof. intros. by apply sql_insert_ok. Qed.

Lemma sql_insert_or_ignore_run T k v s :
  may_write T s -> row_ok T (st_db s) k v = true -> t_fk T (st_db s) k v = true ->
  sql_insert_or_ignore T k v s =
  (inr tt, if has (t_get T (st_db s)) k then s else set_row T k v s).
Proof.
  intros Hw Hr Hf. unfold sql_insert_or_ignore.
  erewrite (bind_run _ _ _ (negb (has (t_get T (st_db s)) k))); [reflexivity|].
  unfold sql_try_insert. erewrite bind_run by (by apply trigger_run).
  erewrite bind_run by reflexivity. rewrite Hr. simpl. rewrite orb_false_r.
  destruct (has _ k); simpl; [reflexivity|].
  by erewrite bind_run by (apply reject_if_run; by rewrite Hf).
Qed.

(** After INSERT OR IGNORE the row is there. *)
Lemma ensure_row_run T k v s :
  (forall x d, t_get T (t_set T x d) = x) ->
  may_write T s -> row_ok T (st_db s) k v = true -> t_fk T (st_db s) k v = true ->
  exists s1, sql_insert_or_ignore T k v s = (inr tt, s1) /\
    is_Some (t_get T (st_db s1) !! k) /\ (s1 = s \/ s1 = set_row T k v s).
Proof.
  intros Hlaw Hw Hr Hf. rewrite sql_insert_or_ignore_run by done.
  destruct (has _ k) eqn:Hh; eexists; (split; [reflexivity|]).
  - apply has_true in Hh. auto.
  - cbn. rewrite Hlaw, lookup_insert_eq. eauto.
Qed.

Lemma sql_update_run T k cond f s v :
  t_get T (st_db s) !! k = Some v -> cond v = true -> may_write T s ->
  row_ok T (st_db s) k (f v) = true ->
  sql_update T k cond f s = (inr 1, set_row T k (f v) s).
Proof.
  intros Hv Hc Hw Hr. unfold sql_update. erewrite bind_run by reflexivity.
  rewrite Hv, Hc. erewrite bind_run by (by apply trigger_run).
  by erewrite bind_run by (apply reject_if_run; by rewrite Hr).
Qed.
End Run.

(** A deletion or update of the rows under a condition, as one state change
    that is the identity when no row matches. *)
Section Rows.
Context {K V : Type} `{Countable K}.
Implicit Types (m : gmap K V).

Lemma filter_none cond m :
  mexists cond m = false -> filter (fun kv : K * V => cond kv.1 kv.2 = false) m = m.
Proof.
  intros Hm. apply map_filter_id. intros k v Hk.
  by eapply mexists_false in Hm.
Qed.

Lemma imap_none cond (f : V -> V) m :
  mexists cond m = false ->
  map_imap (fun k v => Some (if (cond k v : bool) then f v else v)) m = m.
Proof.
  intros Hm. apply map_eq. intros k. rewrite map_lookup_imap.
  destruct (m !! k) as [v|] eqn:Hk; simpl; [|done].
  eapply mexists_false in Hm; [|done]. by rewrite Hm.
Qed.

Lemma lookup_imap_upd cond (f : V -> V) m k :
  map_imap (fun k v => Some (if (cond k v : bool) then f v else v)) m !! k =
  (fun v => if cond k v then f v else v) <$> m !! k.
Proof. rewrite map_lookup_imap. by destruct (m !! k). Qed.
End Rows.

Section DrawsOk.
Context `{Env}.
Lemma newUUID_ok s a s' :
  newUUID s = (inr a, s') <-> a = uuid_NewString (st_supply s) /\ s' = next_supply s.
Proof.
  unfold newUUID. rewrite bind_ok. setoid_rewrite gets_ok. setoid_rewrite bind_ok.
  setoid_rewrite modify_ok. setoid_rewrite mret_ok. split.
  - intros (n & s1 & [-> ->] & [] & s2 & -> & -> & ->). done.
  - intros [-> ->]. do 2 eexists. split; [done|]. by exists tt, (next_supply s).
Qed.

Lemma randomToken_ok s a s' :
  randomToken s = (inr a, s') -> rand_token (st_supply s) = Some a /\ s' = next_supply s.
Proof.
  unfold randomToken. rewrite bind_ok. intros (n & s1 & Hn & Hk).
  apply gets_ok in Hn as [-> ->]. apply bind_ok in Hk as (u & s2 & Hm & Hk).
  apply modify_ok in Hm as ->. destruct (rand_token _) eqn:Ht.
  - by apply mret_ok in Hk as [-> ->].
  - by apply throw_ok in Hk.
Qed.
End DrawsOk.

(** [tx_inv H] takes a successful run [H : m s = (inr a, s')] apart. *)
Ltac tx_step H :=
  lazymatch type of H with
  | mbind _ _ _ = (inr _, _) =>
      let a := fresh "a" in let s := fresh "s" in let Hm := fresh "Hm" in
      apply bind_ok in H as (a & s & Hm & H); tx_inv Hm
  | mret _ _ = (inr _, _) => apply mret_ok in H as [? ?]; subst
  | throw _ _ = (inr _, _) => by apply throw_ok in H
  | reject_if _ _ _ = (inr _, _) => apply reject_if_ok in H as [H ?]; subst
  | gets _ _ = (inr _, _) => apply gets_ok in H as [? ?]; subst
  | query _ _ = (inr _, _) => apply query_ok in H as [? ?]; subst
  | query_or _ _ _ = (inr _, _) => apply query_or_ok in H as [H ?]; subst
  | mask _ _ _ = (inr _, _) => apply mask_ok in H; tx_step H
  | transact _ _ = (inr _, _) => apply transact_ok in H; tx_step H
  | observe _ _ = (inr _, _) => apply modify_ok in H; subst
  | modify _ _ = (inr _, _) => apply modify_ok in H; subst
  | newUUID _ = (inr _, _) => apply newUUID_ok in H as [? ?]; subst
  | randomToken _ = (inr _, _) => apply randomToken_ok in H as [H ?]; subst
  | _ => idtac
  end
with tx_inv H := repeat (progress tx_step H).

(** ** Invariants of the database

    [preserves I m]: a successful run of [m] keeps [I]; [keeps I m]: any run
    does, which is what [transact] gives. *)
Definition preserves {A} (I : Db -> Prop) (m : M A) : Prop :=
  forall s a s', m s = (inr a, s') -> I (st_db s) -> I (st_db s').

Definition keeps {A} (I : Db -> Prop) (m : M A) : Prop :=
  forall s r s', m s = (r, s') -> I (st_db s) -> I (st_db s').

Lemma preserved {A} (I : Db -> Prop) (m : M A) s a s' :
  m s = (inr a, s') -> preserves I m -> I (st_db s) -> I (st_db s').
Proof. intros Hm Hp. exact (Hp s a s' Hm). Qed.

Section Preserves.
Context (I : Db -> Prop).

Lemma preserves_bind {A B} (m : M A) (k : A -> M B) :
  preserves I m -> (forall a, preserves I (k a)) -> preserves I (m ≫= k).
Proof. intros Hm Hk s b s' (a & s1 & H1 & H2)%bind_ok HI. eapply Hk; eauto. Qed.

Lemma preserves_ret {A} (a : A) : preserves I (mret a).
Proof. by intros s b s' [-> ->]%mret_ok. Qed.

Lemma preserves_throw {A} e : preserves I (throw (A:=A) e).
Proof. by intros s b s' ?%throw_ok. Qed.

Lemma preserves_reject_if b e : preserves I (reject_if b e).
Proof. by intros s u s' [_ ->]%reject_if_ok. Qed.

Lemma preserves_gets {A} (f : St -> A) : preserves I (gets f).
Proof. by intros s u s' [_ ->]%gets_ok. Qed.

Lemma preserves_query {A} (f : Db -> A) : preserves I (query f).
Proof. apply preserves_gets. Qed.

Lemma preserves_query_or {A} e (f : Db -> option A) : preserves I (query_or e f).
Proof. by intros s u s' [_ ->]%query_or_ok. Qed.

Lemma preserves_mask {A} e (m : M A) : preserves I m -> preserves I (mask e m).
Proof. intros Hm s u s' H%mask_ok. exact (Hm _ _ _ H). Qed.

Lemma preserves_observe f : preserves I (observe f).
Proof. by intros s u s' ->%modify_ok. Qed.

Lemma preserves_newUUID `{Env} : preserves I newUUID.
Proof. by intros s u s' [_ ->]%newUUID_ok. Qed.

Lemma preserves_randomToken `{Env} : preserves I randomToken.
Proof. by intros s u s' [_ ->]%randomToken_ok. Qed.

Lemma preserves_for_each {A} (l : list A) f :
  (forall x, x ∈ l -> preserves I (f x)) -> preserves I (for_each l f).
Proof.
  induction l as [|x l IH]; simpl; intros Hf; [apply preserves_ret|].
  apply preserves_bind; [apply Hf; set_solver|]. intros _. apply IH. set_solver.
Qed.

Lemma preserves_collect {A B} (l : list A) (f : A -> M B) :
  (forall x, x ∈ l -> preserves I (f x)) -> preserves I (collect l f).
Proof.
  induction l as [|x l IH]; simpl; intros Hf; [apply preserves_ret|].
  apply preserves_bind; [apply Hf; set_solver|]. intros b.
  apply preserves_bind; [apply IH; set_solver|]. intros bs. apply preserves_ret.
Qed.

Lemma preserves_transact {A} (m : M A) : preserves I m -> preserves I (transact m).
Proof. intros Hm s u s' H%transact_ok. exact (Hm _ _ _ H). Qed.

Lemma keeps_transact {A} (m : M A) : preserves I m -> keeps I (transact m).
Proof.
  intros Hm s [e|a] s' Hr HI.
  - apply transact_error in Hr. by rewrite Hr.
  - apply transact_ok in Hr. eauto.
Qed.

Lemma keeps_rolled_back {A} (m : M A) : keeps I (rolled_back m).
Proof. intros s r s'. unfold rolled_back. destruct (m s). intros [= <- <-]. done. Qed.

Lemma preserves_attempt {A} (m : M A) : keeps I m -> preserves I (attempt m).
Proof.
  intros Hm s a s'. unfold attempt. destruct (m s) as [r s1] eqn:H1.
  intros [= <- <-]. eauto.
Qed.

Lemma keeps_attempt {A} (m : M A) : keeps I m -> keeps I (attempt m).
Proof.
  intros Hm s a s'. unfold attempt. destruct (m s) as [r s1] eqn:H1.
  intros [= <- <-]. eauto.
Qed.

Lemma keeps_preserves {A} (m : M A) : keeps I m -> preserves I m.
Proof. intros Hm s a s'. apply Hm. Qed.

Lemma keeps_bind {A B} (m : M A) (k : A -> M B) :
  keeps I m -> (forall a, keeps I (k a)) -> keeps I (m ≫= k).
Proof.
  intros Hm Hk s r s'. unfold mbind, M_bind. destruct (m s) as [[e|a] s1] eqn:H1.
  - intros [= <- <-]. eauto.
  - intros H2 HI. eapply Hk; eauto.
Qed.

(** A guard that passed is a fact for what follows. *)
Lemma preserves_guard {A} b e (k : unit -> M A) :
  (b = false -> preserves I (k tt)) -> preserves I (reject_if b e ≫= k).
Proof. intros Hk s a s' ([] & s1 & [Hb ->]%reject_if_ok & H2)%bind_ok. exact (Hk Hb _ _ _ H2). Qed.

Lemma keeps_guard {A} b e (k : unit -> M A) :
  (b = false -> keeps I (k tt)) -> keeps I (reject_if b e ≫= k).
Proof.
  intros Hk s r s'. destruct b; simpl; [by intros [= <- <-]|]. exact (Hk eq_refl s r s').
Qed.

Lemma frame_modify f : (forall s, I (st_db s) -> I (st_db (f s))) -> preserves I (modify f).
Proof. intros Hf s u s' ->%modify_ok. apply Hf. Qed.

Lemma frame_put_db f : (forall d, I d -> I (f d)) -> preserves I (put_db f).
Proof. intros Hf. apply frame_modify. intros s. apply Hf. Qed.

Lemma keeps_modify f : (forall s, I (st_db s) -> I (st_db (f s))) -> keeps I (modify f).
Proof. intros Hf s r s' [= <- <-]. apply Hf. Qed.

Lemma keeps_put_db f : (forall d, I d -> I (f d)) -> keeps I (put_db f).
Proof. intros Hf. apply keeps_modify. intros s. apply Hf. Qed.

(** Statements on a table [I] does not read. *)
Section Frame.
Context {K V : Type} `{Countable K} (T : Table K V).
Context (frame : forall x d, I d -> I (t_set T x d)).

Lemma frame_insert k v : preserves I (sql_insert T k v).
Proof. intros s u s' (_ & _ & _ & _ & ->)%sql_insert_ok. apply frame. Qed.

Lemma frame_try_insert k v : preserves I (sql_try_insert T k v).
Proof.
  intros s u s' (_ & [(_ & -> & _)|(_ & _ & _ & _ & ->)])%sql_try_insert_ok; [done|]. apply frame.
Qed.

Lemma frame_insert_or_ignore k v : preserves I (sql_insert_or_ignore T k v).
Proof.
  intros s u s' (_ & [[-> _]|(_ & _ & _ & ->)])%sql_insert_or_ignore_ok; [done|]. apply frame.
Qed.

Lemma frame_update k cond f : preserves I (sql_update T k cond f).
Proof.
  intros s n s' [(_ & -> & _)|(_ & v & _ & _ & _ & _ & ->)]%sql_update_ok; [done|].
  apply frame.
Qed.

Lemma frame_upsert k v f : preserves I (sql_upsert T k v f).
Proof.
  intros s u s' (_ & [(_ & _ & _ & ->)|(w & _ & _ & ->)])%sql_upsert_ok; apply frame.
Qed.

Lemma frame_delete_where cond : preserves I (sql_delete_where T cond).
Proof.
  intros s u s' [[-> _]|(_ & _ & ->)]%sql_delete_where_ok; [done|]. apply frame.
Qed.

Lemma frame_update_where cond f : preserves I (sql_update_where T cond f).
Proof.
  intros s u s' [[-> _]|(_ & _ & ->)]%sql_update_where_ok; [done|]. apply frame.
Qed.
End Frame.
End Preserves.

(** [frame_tac] closes the side condition that [I] does not read a table. *)
Ltac frame_tac := let H := fresh in intros ? ? H; exact H.

Create HintDb preserve.
#[export] Hint Constants Opaque : preserve.
#[export] Hint Resolve preserves_ret preserves_throw preserves_reject_if preserves_gets
  preserves_query preserves_query_or preserves_observe preserves_newUUID
  preserves_randomToken : preserve.

Ltac head_of t := lazymatch t with ?f _ => head_of f | _ => t end.

(** Walk through an operation, unfolding it and framing off every statement on
    a table the invariant does not read; what remains are the statements that
    matter.  Hints of [preserve] are tried first on every sub-operation. *)
Ltac preserve_step :=
  lazymatch goal with
  | |- preserves _ (mbind _ (reject_if _ _)) => apply preserves_guard; intros ?
  | |- preserves _ (mbind _ _) => apply preserves_bind; [|intros ?]
  | |- preserves _ (transact _) => apply preserves_transact
  | |- preserves _ (mask _ _) => apply preserves_mask
  | |- preserves _ (for_each _ _) => apply preserves_for_each; intros ? ?
  | |- preserves _ (collect _ _) => apply preserves_collect; intros ? ?
  | |- preserves _ (sql_insert _ _ _) => apply frame_insert; frame_tac
  | |- preserves _ (sql_try_insert _ _ _) => apply frame_try_insert; frame_tac
  | |- preserves _ (sql_insert_or_ignore _ _ _) => apply frame_insert_or_ignore; frame_tac
  | |- preserves _ (sql_update _ _ _ _) => apply frame_update; frame_tac
  | |- preserves _ (sql_upsert _ _ _ _) => apply frame_upsert; frame_tac
  | |- preserves _ (sql_delete_where _ _) => apply frame_delete_where; frame_tac
  | |- preserves _ (sql_update_where _ _ _) => apply frame_update_where; frame_tac
  | |- preserves _ (put_db _) => apply frame_put_db; let H := fresh in intros ? H; exact H
  | |- preserves _ (modify _) => apply frame_modify; let H := fresh in intros ? H; exact H
  | |- preserves _ (match ?x with _ => _ end) => destruct x eqn:?
  | |- preserves _ ((fun _ => _) _) => cbv beta
  | |- preserves _ (let _ := _ in _) => cbv zeta
  | |- preserves _ ?m => let h := head_of m in unfold h; cbv beta zeta
  end.
Ltac preserve := repeat (first [solve [eauto 2 with preserve nocore] | preserve_step]).

(** Move a goal about the state after the run [Hm] to the state before it. *)
Ltac step_back Hm :=
  lazymatch goal with |- ?I (st_db _) => eapply (preserved I _ _ _ _ Hm); [preserve|] end.

(** The same for all outcomes: reads and checks leave the database alone, and
    [transact] rolls back. *)
Definition reads {A} (m : M A) : Prop := forall s r s', m s = (r, s') -> st_db s' = st_db s.

Section Reads.
Lemma reads_bind {A B} (m : M A) (k : A -> M B) :
  reads m -> (forall a, reads (k a)) -> reads (m ≫= k).
Proof.
  intros Hm Hk s r s'. unfold mbind, M_bind. destruct (m s) as [[e|a] s1] eqn:H1.
  - intros [= <- <-]. eauto.
  - intros H2. apply Hk in H2. apply Hm in H1. congruence.
Qed.
Lemma reads_ret {A} (a : A) : reads (mret a).
Proof. by intros s r s' [= <- <-]. Qed.
Lemma reads_throw {A} e : reads (throw (A:=A) e).
Proof. by intros s r s' [= <- <-]. Qed.
Lemma reads_reject_if b e : reads (reject_if b e).
Proof. destruct b; [apply reads_throw|apply reads_ret]. Qed.
Lemma reads_gets {A} (f : St -> A) : reads (gets f).
Proof. by intros s r s' [= <- <-]. Qed.
Lemma reads_query {A} (f : Db -> A) : reads (query f).
Proof. apply reads_gets. Qed.
Lemma reads_query_or {A} e (f : Db -> option A) : reads (query_or e f).
Proof. apply reads_bind; [apply reads_query|]. intros [a|]; [apply reads_ret|apply reads_throw]. Qed.
Lemma reads_observe f : reads (observe f).
Proof. by intros s r s' [= <- <-]. Qed.
Lemma reads_mask {A} e (m : M A) : reads m -> reads (mask e m).
Proof.
  intros Hm s r s'. unfold mask. destruct (m s) as [[?|?] s1] eqn:H1; intros [= <- <-]; eauto.
Qed.
Lemma reads_for_each {A} (l : list A) f : (forall x, reads (f x)) -> reads (for_each l f).
Proof. intros Hf. induction l; simpl; [apply reads_ret|]. by apply reads_bind. Qed.
Lemma reads_collect {A B} (l : list A) (f : A -> M B) : (forall x, reads (f x)) -> reads (collect l f).
Proof.
  intros Hf. induction l; simpl; [apply reads_ret|]. apply reads_bind; [done|]. intros b.
  apply reads_bind; [done|]. intros bs. apply reads_ret.
Qed.
Lemma reads_transact {A} (m : M A) : reads m -> reads (transact m).
Proof.
  intros Hm s r s'. unfold transact. destruct (m s) as [[?|?] s1] eqn:H1; intros [= <- <-]; eauto.
Qed.
Lemma reads_rolled_back {A} (m : M A) : reads (rolled_back m).
Proof. intros s r s'. unfold rolled_back. destruct (m s). by intros [= <- <-]. Qed.
Lemma reads_keeps I {A} (m : M A) : reads m -> keeps I m.
Proof. intros Hm s r s' H. apply Hm in H. by rewrite H. Qed.
End Reads.

#[export] Hint Resolve reads_ret reads_throw reads_reject_if reads_gets reads_query reads_query_or
  reads_observe reads_rolled_back : preserve.

Ltac reads_step :=
  lazymatch goal with
  | |- reads (mbind _ _) => apply reads_bind; [|intros ?]
  | |- reads (transact _) => apply reads_transact
  | |- reads (mask _ _) => apply reads_mask
  | |- reads (for_each _ _) => apply reads_for_each; intros ?
  | |- reads (collect _ _) => apply reads_collect; intros ?
  | |- reads (match ?x with _ => _ end) => destruct x
  | |- reads ((fun _ => _) _) => cbv beta
  | |- reads ?m => let h := head_of m in unfold h; cbv beta zeta
  end.
Ltac reads := repeat (first [solve [eauto 2 with preserve nocore] | reads_step]).

(** [keep]: reduce [keeps I op] to [preserves I] of the transaction bodies. *)
Ltac keep_step :=
  lazymatch goal with
  | |- keeps _ (transact _) => apply keeps_transact
  | |- keeps _ (mbind _ (reject_if _ _)) => apply keeps_guard; intros ?
  | |- keeps _ (mbind _ _) => apply keeps_bind; [|intros ?]
  | |- keeps _ (match ?x with _ => _ end) => destruct x eqn:?
  | |- keeps _ ((fun _ => _) _) => cbv beta
  | |- keeps _ (put_db _) => apply keeps_put_db; let H := fresh in intros ? H; exact H
  | |- keeps _ (modify _) => apply keeps_modify; let H := fresh in intros ? H; exact H
  | |- keeps _ (throw _) => apply reads_keeps, reads_throw
  | |- keeps _ (mret _) => apply reads_keeps, reads_ret
  | |- keeps _ (reject_if _ _) => apply reads_keeps, reads_reject_if
  | |- keeps _ (gets _) => apply reads_keeps, reads_gets
  | |- keeps _ (query _) => apply reads_keeps, reads_query
  | |- keeps _ (query_or _ _) => apply reads_keeps, reads_query_or
  | |- keeps _ (observe _) => apply reads_keeps, reads_observe
  | |- keeps _ (rolled_back _) => apply keeps_rolled_back
  | |- keeps _ ?m => let h := head_of m in unfold h; cbv beta zeta
  end.
Ltac keep := repeat (first [solve [eauto 2 with preserve nocore] | keep_step]).
