(* ===== verification/Sessions.v ===== *)
(** * Sessions: nonces, attached endpoints and their leases

    [ConsumeRequestNonce], [AdvertiseEndpoints], [AssertEndpointOwnership],
    the endpoint ownership checks every operation starts with, the identities
    a session receives for, and the in-process policy setters. *)

From S2P Require Import Prelude GoTime RateLimit Quota Text Tables Tx.
Open Scope Z_scope.

Abbreviation ms := Time.UnixMilli.

(** ** Capabilities *)
Definition CapSend : Z := Z.shiftl 1 0.
Definition CapReceive : Z := Z.shiftl 1 1.
Definition CapAdmin : Z := Z.shiftl 1 2.
Definition CapInvoke : Z := Z.shiftl 1 3.

(** [capabilities & cap != 0] *)
Definition hasCap (capabilities cap : Z) : bool := negb (Z.land capabilities cap =? 0).

(** ** Policy setters and readers *)
Definition SetRateLimits (cfg : RateLimitConfig) : M unit :=
  reject_if (negb (RateLimitConfig_Validate cfg)) (ErrInvalid "rate limits");;
  modify (fun s => mkSt (st_db s) cfg (st_quota s) (st_retention s) (st_metrics s) (st_supply s)).

Definition SetQuotaLimits (cfg : QuotaConfig) : M unit :=
  reject_if (negb (QuotaConfig_Validate cfg)) (ErrInvalid "quota limits");;
  modify (fun s => mkSt (st_db s) (st_rate s) cfg (st_retention s) (st_metrics s) (st_supply s)).

Definition SetRetentionPolicy (cfg : RetentionConfig) : M unit :=
  reject_if (negb (RetentionConfig_Validate cfg)) (ErrInvalid "retention policy");;
  modify (fun s => mkSt (st_db s) (st_rate s) (st_quota s) cfg (st_metrics s) (st_supply s)).

Definition rateLimitConfig (s : St) : RateLimitConfig :=
  if bool_decide (st_rate s = {| SenderBurst := 0; SenderRefillPerMinute := 0;
    ConversationBurst := 0; ConversationRefillPerMinute := 0; RetryAfterMaxSeconds := 0 |})
  then DefaultRateLimitConfig else st_rate s.

Definition quotaConfig (s : St) : QuotaConfig :=
  if bool_decide (st_quota s = {| RecipientCount := 0; RecipientBytes := 0;
    InstallationCount := 0; InstallationBytes := 0; QuotaRetryAfterSeconds := 0 |})
  then DefaultQuotaConfig else st_quota s.

Definition retentionConfig (s : St) : RetentionConfig :=
  if bool_decide (st_retention s = {| PendingMaxAgeSeconds := 0; TerminalRetentionSeconds := 0;
    MaintenanceBatch := 0 |})
  then DefaultRetentionConfig else st_retention s.

(** ** Request nonces *)
Definition ConsumeRequestNonce (machineID nonce : string) (now expiresAt : Z) : M unit :=
  reject_if (negb (ValidMachineID machineID) || negb (ValidRequestToken nonce) ||
    negb (Time.After expiresAt now)) ErrForbidden;;
  transact (
    sql_delete_where t_request_nonces (fun _ expires => expires <=? ms now);;
    mask ErrForbidden (sql_insert t_request_nonces (machineID, nonce) (ms expiresAt))).

(** ** Endpoint ownership *)
Definition endpointActive (endpoint : string) (now : Z) : M unit :=
  row ← query_or ErrForbidden (fun d => db_endpoints d !! endpoint);
  reject_if (ep_lease_until row <=? ms now) ErrForbidden.

Definition endpointOwnershipUntil (endpoint machineID : string) (now : Z) : M (Z * Z) :=
  row ← query_or ErrForbidden (fun d => db_endpoints d !! endpoint);
  reject_if (negb (bool_decide (ep_machine row = machineID)) || (ep_lease_until row <=? ms now))
    ErrForbidden;;
  mret (ep_generation row, ep_lease_until row).

Definition endpointOwnership (endpoint machineID : string) (now : Z) : M Z :=
  r ← endpointOwnershipUntil endpoint machineID now; mret r.1.

Definition endpointOwnedBy (endpoint machineID : string) (now : Z) : M unit :=
  _ ← endpointOwnership endpoint machineID now; mret tt.

Definition AssertEndpointOwnership (machineID endpoint : string) (now : Z) : M unit :=
  transact (endpointOwnedBy endpoint machineID now).

(** ** Advertising endpoints *)

Fixpoint hasDuplicate (l : list string) : bool :=
  match l with
  | [] => false
  | x :: l => bool_decide (x ∈ l) || hasDuplicate l
  end.

Definition invocationPendingRetention : Z := 24 * Time.Hour.

(** The endpoint is reserved for a start handoff of another machine. *)
Definition handoffReserved (d : Db) (endpoint machineID : string) (now : Z) : bool :=
  mexists (fun _ iv =>
    bool_decide (iv_target iv = endpoint) && negb (bool_decide (iv_machine iv = machineID)) &&
    (bool_decide (iv_status iv = InvocationPending) &&
       (match iv_lease_machine iv, iv_lease_until iv with
        | Some _, Some until => ms now <? until
        | _, _ => false
        end ||
        (0 <? iv_lease_generation iv) &&
        (ms (Time.Add now (- invocationPendingRetention)) <? iv_last_activity iv)) ||
     bool_decide (iv_status iv = InvocationSucceeded) && (ms now <? iv_not_before iv)))
    (db_invocations d).

(** Keys of the rows that satisfy a condition, in table order. *)
Definition select_keys {K V} `{Countable K} (p : K -> V -> bool) (m : gmap K V) : list K :=
  (filter (fun kv => p kv.1 kv.2 = true) (map_to_list m)).*1.

Lemma elem_of_select_keys {K V} `{Countable K} (p : K -> V -> bool) (m : gmap K V) k :
  k ∈ select_keys p m <-> exists v, m !! k = Some v /\ p k v = true.
Proof.
  unfold select_keys. rewrite list_elem_of_fmap. split.
  - intros ([k' v] & -> & Hf). apply list_elem_of_filter in Hf as [Hp Hm].
    apply elem_of_map_to_list in Hm. eauto.
  - intros (v & Hm & Hp). exists (k, v). split; [done|].
    apply list_elem_of_filter. split; [done|]. by apply elem_of_map_to_list.
Qed.

Lemma NoDup_select_keys {K V} `{Countable K} (p : K -> V -> bool) (m : gmap K V) :
  NoDup (select_keys p m).
Proof.
  unfold select_keys. apply NoDup_fmap_fst.
  - intros k v v' [_ H1]%list_elem_of_filter [_ H2]%list_elem_of_filter.
    apply elem_of_map_to_list in H1, H2. congruence.
  - apply NoDup_filter, NoDup_map_to_list.
Qed.

(** The second components of the selected keys under one first component. *)
Lemma NoDup_select_snd {V} (p : string * string -> V -> bool) (m : gmap (string * string) V) c :
  (forall k v, p k v = true -> k.1 = c) -> NoDup (snd <$> select_keys p m).
Proof.
  intros Hp. apply NoDup_fmap_2_strong; [|apply NoDup_select_keys].
  intros [k1 k2] [l1 l2] (v & _ & Hk)%elem_of_select_keys (w & _ & Hl)%elem_of_select_keys Heq.
  apply Hp in Hk, Hl. simpl in *. congruence.
Qed.

Lemma elem_of_select_snd {V} (p : string * string -> V -> bool) (m : gmap (string * string) V) c x :
  (forall k v, p k v = true -> k.1 = c) ->
  x ∈ snd <$> select_keys p m <-> exists v, m !! (c, x) = Some v /\ p (c, x) v = true.
Proof.
  intros Hp. rewrite list_elem_of_fmap. split.
  - intros ([k1 k2] & -> & (v & Hv & Hk)%elem_of_select_keys). pose proof (Hp _ _ Hk) as Hc.
    simpl in *. subst. eauto.
  - intros (v & Hv & Hk). exists (c, x). split; [done|]. apply elem_of_select_keys. eauto.
Qed.

Definition detachRow (now : Z) (e : EndpointRow) : EndpointRow := {|
  ep_machine := ep_machine e;
  ep_lease_until := ms now;
  ep_generation := ep_generation e + 1;
  ep_consumer := None;
  ep_consumer_generation := ep_consumer_generation e;
  ep_consumer_until := None
|}.

Definition attachRow (machineID : string) (until : Z) : EndpointRow := {|
  ep_machine := machineID;
  ep_lease_until := until;
  ep_generation := 1;
  ep_consumer := None;
  ep_consumer_generation := 0;
  ep_consumer_until := None
|}.

(** ON CONFLICT(endpoint) DO UPDATE: a change of owner or a lapsed lease starts
    a new ownership generation and forgets the consumer. *)
Definition reattachRow (machineID : string) (until now : Z) (e : EndpointRow) : EndpointRow :=
  let fresh := negb (bool_decide (ep_machine e = machineID)) || (ep_lease_until e <=? ms now) in
  {| ep_machine := machineID;
     ep_lease_until := until;
     ep_generation := if fresh then ep_generation e + 1 else ep_generation e;
     ep_consumer := if fresh then None else ep_consumer e;
     ep_consumer_generation := ep_consumer_generation e;
     ep_consumer_until := if fresh then None else ep_consumer_until e |}.

Definition renewBinding (until : Z) (b : BindingRow) : BindingRow := {|
  bd_session := bd_session b;
  bd_machine := bd_machine b;
  bd_generation := bd_generation b;
  bd_lease_until := until
|}.

Definition advertiseOne (machineID : string) (now until : Z) (endpoint : string) : M unit :=
  sql_upsert t_endpoints endpoint (attachRow machineID until) (reattachRow machineID until now);;
  generation ← query (fun d =>
    match db_endpoints d !! endpoint with
    | Some e => if bool_decide (ep_machine e = machineID) && (ep_lease_until e =? until)
                then Some (ep_generation e) else None
    | None => None
    end);
  sql_update_where t_role_bindings
    (fun _ b => bool_decide (bd_machine b = machineID) && bool_decide (bd_session b = endpoint) &&
       (ms now <? bd_lease_until b) && bool_decide (generation = Some (bd_generation b)))
    (renewBinding until).

Definition AdvertiseEndpoints (machineID : string) (endpoints : list string) (now ttl : Z) : M unit :=
  reject_if (negb (ValidMachineID machineID) || (ttl <=? 0)) (ErrInvalid "endpoint lease");;
  reject_if (negb (forallb ValidEndpoint endpoints) || hasDuplicate endpoints)
    (ErrInvalid "endpoint");;
  transact (
    schema ← query db_invocation_schema;
    (if schema : bool then
       for_each endpoints (fun endpoint =>
         reserved ← query (fun d => handoffReserved d endpoint machineID now);
         reject_if reserved ErrConflict)
     else mret tt);;
    attached ← query (fun d => select_keys (fun _ e =>
      bool_decide (ep_machine e = machineID) && (ms now <? ep_lease_until e)) (db_endpoints d));
    for_each (filter (fun e => e ∉ endpoints) attached) (fun endpoint =>
      _ ← sql_update t_endpoints endpoint
        (fun e => bool_decide (ep_machine e = machineID) && (ms now <? ep_lease_until e))
        (detachRow now);
      mret tt);;
    for_each endpoints (advertiseOne machineID now (ms (Time.Add now ttl)))).

(** ** Read-only session state *)
Record AttachmentDoctorSnapshot := {
  ActiveEndpoints : Z; ExpiredEndpoints : Z; ActiveRoles : Z; ExpiredRoles : Z;
}.

Definition DoctorAttachments (machineID : string) (now : Z) : M AttachmentDoctorSnapshot :=
  reject_if (negb (ValidMachineID machineID)) ErrForbidden;;
  query (fun d => {|
    ActiveEndpoints := mcount (fun _ e => bool_decide (ep_machine e = machineID) &&
      (ms now <? ep_lease_until e)) (db_endpoints d);
    ExpiredEndpoints := mcount (fun _ e => bool_decide (ep_machine e = machineID) &&
      (ep_lease_until e <=? ms now)) (db_endpoints d);
    ActiveRoles := mcount (fun _ b => bool_decide (bd_machine b = machineID) &&
      (ms now <? bd_lease_until b)) (db_role_bindings d);
    ExpiredRoles := mcount (fun _ b => bool_decide (bd_machine b = machineID) &&
      (bd_lease_until b <=? ms now)) (db_role_bindings d) |}).

(** The role is bound to this session and generation, and the binding lives. *)
Definition boundTo (machineID endpoint : string) (generation now : Z) (b : BindingRow) : bool :=
  bool_decide (bd_machine b = machineID) && bool_decide (bd_session b = endpoint) &&
  (bd_generation b =? generation) && (ms now <? bd_lease_until b).

(** The identities a session receives for. *)
Definition sessionIDs (d : Db) (machineID endpoint : string) (generation now : Z) : list string :=
  endpoint :: (roleRecipient <$>
    select_keys (fun _ => boundTo machineID endpoint generation now) (db_role_bindings d)).

Definition sessionRecipientIDs (machineID endpoint : string) (generation now : Z) : M (list string) :=
  query (fun d => sessionIDs d machineID endpoint generation now).

Definition sessionCapabilities (conversationID machineID endpoint : string) (now : Z) : M Z :=
  generation ← endpointOwnership endpoint machineID now;
  query (fun d =>
    map_fold (fun k capabilities acc =>
      if bool_decide (k.1 = conversationID) &&
         match db_role_bindings d !! k.2 with
         | Some b => boundTo machineID endpoint generation now b
         | None => false
         end
      then Z.lor acc capabilities else acc)
    (default 0 (db_memberships d !! (conversationID, endpoint)))
    (db_role_memberships d)).

(** ** Successful ownership checks *)

Definition owns (d : Db) (endpoint machineID : string) (now : Z) (e : EndpointRow) : Prop :=
  db_endpoints d !! endpoint = Some e /\ ep_machine e = machineID /\ ms now < ep_lease_until e.

Lemma endpointOwnershipUntil_ok endpoint machineID now gu s s' :
  endpointOwnershipUntil endpoint machineID now s = (inr gu, s') ->
  exists e, owns (st_db s) endpoint machineID now e /\
    gu = (ep_generation e, ep_lease_until e) /\ s' = s.
Proof.
  intros H. unfold endpointOwnershipUntil in H. tx_inv H. bool_hyps. eexists. split_and!; done.
Qed.

Lemma endpointOwnership_ok endpoint machineID now g s s' :
  endpointOwnership endpoint machineID now s = (inr g, s') ->
  exists e, owns (st_db s) endpoint machineID now e /\ g = ep_generation e /\ s' = s.
Proof.
  intros H. unfold endpointOwnership in H. tx_inv H.
  apply endpointOwnershipUntil_ok in Hm as (e & ? & -> & ->). by exists e.
Qed.

Lemma endpointOwnedBy_ok endpoint machineID now u s s' :
  endpointOwnedBy endpoint machineID now s = (inr u, s') ->
  exists e, owns (st_db s) endpoint machineID now e /\ s' = s.
Proof.
  intros H. unfold endpointOwnedBy in H. tx_inv H.
  apply endpointOwnership_ok in Hm as (e & ? & -> & ->). by exists e.
Qed.
