(* ===== verification/Pending.v ===== *)
(** * Pending deliveries: quota accounting, cursors and closing

    store_quota.go and the helpers of store_retention.go and store.go that
    close a pending delivery: the quota counters, the recipient cursors and the
    terminal records move together with the delivery rows. *)

From S2P Require Import Prelude GoTime RateLimit Quota Text Tables Tx Sessions.
Open Scope Z_scope.

(** ** Pending deliveries

    [deliveries JOIN messages ON message.id = delivery.message_id WHERE
    acked_at IS NULL]. *)

Definition bodyBytes (m : MessageRow) : Z := goLen (ms_body m).

Definition pendingMessage (d : Db) (dl : DeliveryRow) : option MessageRow :=
  match dl_acked dl with None => db_messages d !! dl_message dl | Some _ => None end.

Definition addCounters (a b : QuotaCounters) : QuotaCounters :=
  {| Count := Count a + Count b; Bytes := Bytes a + Bytes b |}.

(** One row's contribution to [COUNT] and [SUM(length(CAST(body AS BLOB)))]. *)
Definition oneCount (o : option MessageRow) : Z := match o with Some _ => 1 | None => 0 end.
Definition oneBytes (o : option MessageRow) : Z :=
  match o with Some m => bodyBytes m | None => 0 end.

Definition pendingTotal (d : Db) : QuotaCounters := {|
  Count := msum (fun _ dl => oneCount (pendingMessage d dl)) (db_deliveries d);
  Bytes := msum (fun _ dl => oneBytes (pendingMessage d dl)) (db_deliveries d)
|}.

Definition pendingAt (d : Db) (r : string) (dl : DeliveryRow) : option MessageRow :=
  if bool_decide (dl_recipient dl = r) then pendingMessage d dl else None.

Definition pendingFor (d : Db) (r : string) : QuotaCounters := {|
  Count := msum (fun _ dl => oneCount (pendingAt d r dl)) (db_deliveries d);
  Bytes := msum (fun _ dl => oneBytes (pendingAt d r dl)) (db_deliveries d)
|}.

(** The groups of GROUP BY delivery.recipient_endpoint. *)
Definition pendingRecipients (d : Db) : gset string :=
  map_fold (fun _ dl acc =>
    match pendingMessage d dl with Some _ => {[dl_recipient dl]} ∪ acc | None => acc end)
    ∅ (db_deliveries d).

Definition pendingGroups (d : Db) : gmap string QuotaCounters :=
  set_to_map (fun r => (r, pendingFor d r)) (pendingRecipients d).

(** ** Counters *)

Definition bootstrapPendingQuota : M unit :=
  d ← query (fun d => d);
  (if 0 <? Count (pendingTotal d)
   then sql_insert_or_ignore t_pending_quota_install tt (pendingTotal d) else mret tt);;
  for_each (map_to_list (pendingGroups d)) (fun rc =>
    sql_insert_or_ignore t_pending_quota_recipients rc.1 rc.2).

Definition readInstallQuota (d : Db) : QuotaCounters :=
  default zeroCounters (db_pending_quota_install d !! tt).

Definition reserve (n bytes : Z) (c : QuotaCounters) : QuotaCounters :=
  {| Count := Count c + n; Bytes := Bytes c + bytes |}.

Definition initRecipientQuota (recipient : string) : M (string * QuotaCounters) :=
  sql_insert_or_ignore t_pending_quota_recipients recipient zeroCounters;;
  c ← query_or ErrNoRows (fun d => db_pending_quota_recipients d !! recipient);
  mret (recipient, c).

(** The body of [consumeQuota] for a message with recipients. *)
Definition chargeQuota (recipients : list string) (bytes : Z) : M unit :=
  cfg ← gets quotaConfig;
  sql_insert_or_ignore t_pending_quota_install tt zeroCounters;;
  install ← query_or ErrNoRows (fun d => db_pending_quota_install d !! tt);
  current ← collect recipients initRecipientQuota;
  let decision := DecideQuota cfg (list_to_map (reverse current)) install
    ((fun r => {| Recipient := r; ChargeBytes := bytes |}) <$> recipients) in
  (if QuotaAllowed decision then mret tt
   else observe ObserveCapacityExceeded;; throw (ErrCapacityExceeded (QuotaRetryAfter decision)));;
  for_each recipients (fun r =>
    _ ← sql_update t_pending_quota_recipients r (fun _ => true) (reserve 1 bytes); mret tt);;
  _ ← sql_update t_pending_quota_install tt (fun _ => true)
    (reserve (Z.of_nat (length recipients)) (bytes * Z.of_nat (length recipients)));
  mret tt.

Definition consumeQuota (recipients : list string) (bytes : Z) : M unit :=
  match recipients with
  | [] => mret tt
  | _ :: _ => chargeQuota recipients bytes
  end.

Definition releasable (bytes : Z) (c : QuotaCounters) : bool :=
  (1 <=? Count c) && (bytes <=? Bytes c).

Definition releaseQuota (recipient : string) (bytes : Z) : M unit :=
  reject_if (bool_decide (recipient = "") || (bytes <? 0)) (ErrInvalid "quota release");;
  sql_insert_or_ignore t_pending_quota_install tt zeroCounters;;
  sql_insert_or_ignore t_pending_quota_recipients recipient zeroCounters;;
  affected ← sql_update t_pending_quota_recipients recipient (releasable bytes) (reserve (-1) (- bytes));
  reject_if (negb (affected =? 1)) ErrQuotaInconsistent;;
  affected ← sql_update t_pending_quota_install tt (releasable bytes) (reserve (-1) (- bytes));
  reject_if (negb (affected =? 1)) ErrQuotaInconsistent.

(** [verifySQLitePendingQuota]: the three comparisons, in order. *)
Definition quotaConsistent (d : Db) : bool :=
  let install := readInstallQuota d in
  let actual := pendingGroups d in
  bool_decide (install = pendingTotal d) &&
  bool_decide (map_fold (fun _ c acc => addCounters c acc) zeroCounters actual = install) &&
  bool_decide (map_Forall (fun r c => c = default zeroCounters (actual !! r))
    (db_pending_quota_recipients d)) &&
  bool_decide (map_Forall (fun r _ => has (db_pending_quota_recipients d) r = true) actual).

Definition VerifyPendingQuota : M unit :=
  rolled_back (
    ok ← query quotaConsistent;
    reject_if (negb ok) ErrQuotaInconsistent).

(** ** Metrics *)

Definition omin (a b : option Z) : option Z :=
  match a, b with
  | Some x, Some y => Some (Z.min x y)
  | Some x, None => Some x
  | None, y => y
  end.

(** SELECT MIN(f) over the rows [f] accepts. *)
Definition mmin {K V} `{Countable K} (f : K -> V -> option Z) (m : gmap K V) : option Z :=
  map_fold (fun k v acc => omin (f k v) acc) None m.

Definition refreshPendingMetrics (now : Z) : M unit :=
  d ← query (fun d => d);
  let install := readInstallQuota d in
  observe (SetPending (Count install) (Bytes install));;
  let oldest := mmin (fun _ dl => ms_created_at <$> pendingMessage d dl) (db_deliveries d) in
  let age := match oldest with
    | Some o =>
        if Time.IsZero now then 0
        else let age := wrap64 (ms now - o) in if age <? 0 then 0 else age `quot` 1000
    | None => 0
    end in
  observe (SetPendingOldestAge age);;
  observe (SetTerminalsRetained (Z.of_nat (size (db_delivery_terminals d)))).

Definition SetMetrics (metrics : option Metrics) : M unit :=
  modify (fun s => mkSt (st_db s) (st_rate s) (st_quota s) (st_retention s) metrics (st_supply s));;
  refreshPendingMetrics Time.zero.

(** The transaction of [ReconcilePendingQuota]. *)
Definition rebuildCounters : M QuotaCounters :=
  sql_delete_where t_pending_quota_recipients (fun _ _ => true);;
  sql_delete_where t_pending_quota_install (fun _ _ => true);;
  d ← query (fun d => d);
  for_each (map_to_list (pendingGroups d)) (fun rc =>
    sql_insert t_pending_quota_recipients rc.1 rc.2);;
  sql_insert t_pending_quota_install tt (pendingTotal d);;
  query readInstallQuota.

Definition ReconcilePendingQuota (now : Z) : M QuotaCounters :=
  install ← transact rebuildCounters;
  refreshPendingMetrics now;;
  mret install.

(** ** Recipients of a message *)

Definition sortStrings (l : list string) : list string := sortBy String.leb l.

(** SELECT endpoint FROM memberships WHERE ... endpoint != from *)
Definition receivingEndpoints (d : Db) (conversationID fromEndpoint : string) : list string :=
  snd <$> select_keys (fun k c => bool_decide (k.1 = conversationID) &&
    hasCap c CapReceive && negb (bool_decide (k.2 = fromEndpoint))) (db_memberships d).

Definition receivingRoles (d : Db) (conversationID : string) : list string :=
  snd <$> select_keys (fun k c => bool_decide (k.1 = conversationID) && hasCap c CapReceive)
    (db_role_memberships d).

Definition appendDeliveryRecipients (conversationID fromEndpoint targetRole : string)
    : M (list string) :=
  if bool_decide (targetRole = TelegramUserParticipant) then
    if bool_decide (fromEndpoint = TelegramGatewayEndpoint) then mret []
    else mret [TelegramGatewayEndpoint]
  else
    members ← (if bool_decide (targetRole = "")
      then query (fun d => receivingEndpoints d conversationID fromEndpoint) else mret []);
    roles ← query (fun d => receivingRoles d conversationID);
    mret (sortStrings (members ++ (roleRecipient <$>
      filter (fun r => targetRole = "" \/ r = targetRole) roles))).

(** ** Cursors *)

Definition pendingSequence (d : Db) (recipient conversationID : string) (above : Z)
    (dl : DeliveryRow) : option Z :=
  match pendingAt d recipient dl with
  | Some m => if bool_decide (ms_conversation m = conversationID) && (above <? ms_sequence m)
              then Some (ms_sequence m) else None
  | None => None
  end.

Definition advanceRecipientCursor (endpoint conversationID : string) : M unit :=
  sql_insert_or_ignore t_recipient_cursors (endpoint, conversationID) 0;;
  cursor ← query_or ErrNoRows (fun d => db_recipient_cursors d !! (endpoint, conversationID));
  nextPending ← query (fun d =>
    mmin (fun _ => pendingSequence d endpoint conversationID cursor) (db_deliveries d));
  target ← match nextPending with
    | Some next => mret (next - 1)
    | None => query_or ErrNoRows (fun d => cv_next_sequence <$> db_conversations d !! conversationID)
    end;
  if cursor <? target then
    _ ← sql_update t_recipient_cursors (endpoint, conversationID)
      (fun v => v =? cursor) (fun _ => target);
    mret tt
  else mret tt.

Definition advanceSessionCursors (machineID endpoint conversationID : string) (now : Z) : M unit :=
  _ ← endpointOwnership endpoint machineID now;
  capabilities ← query (fun d => db_memberships d !! (conversationID, endpoint));
  match capabilities with
  | Some c => if hasCap c CapReceive then advanceRecipientCursor endpoint conversationID else mret tt
  | None => mret tt
  end.

(** ** Closing a pending delivery *)

Record pendingClose := {
  pc_ID : string;
  pc_MessageID : string;
  pc_ConversationID : string;
  pc_Recipient : string;
  pc_Sequence : Z;
  pc_LeaseGeneration : Z;
  pc_BodyBytes : Z;
  pc_CreatedAt : Z;
}.

Definition closeOf (id : string) (dl : DeliveryRow) (m : MessageRow) : pendingClose := {|
  pc_ID := id;
  pc_MessageID := dl_message dl;
  pc_ConversationID := ms_conversation m;
  pc_Recipient := dl_recipient dl;
  pc_Sequence := ms_sequence m;
  pc_LeaseGeneration := dl_generation dl;
  pc_BodyBytes := bodyBytes m;
  pc_CreatedAt := ms_created_at m
|}.

Definition terminalOf (row : pendingClose) (reason : ClosedReason) (closedAt : Z) : TerminalRow := {|
  tm_message := pc_MessageID row;
  tm_conversation := pc_ConversationID row;
  tm_recipient := pc_Recipient row;
  tm_sequence := pc_Sequence row;
  tm_reason := reason;
  tm_generation := pc_LeaseGeneration row;
  tm_created_at := pc_CreatedAt row;
  tm_closed_at := closedAt
|}.

(** SET acked_at = ?, lease columns = NULL; the lease generation stays. *)
Definition closeRow (closedAt : Z) (dl : DeliveryRow) : DeliveryRow := {|
  dl_message := dl_message dl;
  dl_recipient := dl_recipient dl;
  dl_machine := None;
  dl_token := None;
  dl_generation := dl_generation dl;
  dl_ownership := None;
  dl_consumer := None;
  dl_until := None;
  dl_acked := Some closedAt
|}.

Definition isPending (dl : DeliveryRow) : bool :=
  match dl_acked dl with None => true | Some _ => false end.

Definition closePendingDelivery (row : pendingClose) (reason : ClosedReason) (now : Z) : M bool :=
  reject_if (bool_decide (pc_ID row = "") || bool_decide (pc_Recipient row = ""))
    (ErrInvalid "terminal close");;
  let closedAt := ms (Time.TruncateMs now) in
  affected ← sql_update t_deliveries (pc_ID row) isPending (closeRow closedAt);
  if negb (affected =? 1) then mret false
  else
    sql_insert_or_ignore t_delivery_terminals (pc_ID row) (terminalOf row reason closedAt);;
    releaseQuota (pc_Recipient row) (pc_BodyBytes row);;
    advanceRecipientCursor (pc_Recipient row) (pc_ConversationID row);;
    mret true.

(** The rows of [deliveries JOIN messages] by delivery id. *)
Definition joinedDelivery (d : Db) (id : string) : option (DeliveryRow * MessageRow) :=
  dl ← db_deliveries d !! id; m ← db_messages d !! dl_message dl; Some (dl, m).

Definition recordAckedTerminal (deliveryID : string) (now : Z) : M unit :=
  dm ← query_or ErrNoRows (fun d => joinedDelivery d deliveryID);
  sql_insert_or_ignore t_delivery_terminals deliveryID
    (terminalOf (closeOf deliveryID dm.1 dm.2) ClosedAcked (ms (Time.TruncateMs now))).

(** Pending deliveries of [recipient] in [conversationID], in table order. *)
Definition pendingCloses (d : Db) (recipient conversationID : string) : list pendingClose :=
  omap (fun kv =>
    match pendingAt d recipient kv.2 with
    | Some m => if bool_decide (ms_conversation m = conversationID)
                then Some (closeOf kv.1 kv.2 m) else None
    | None => None
    end) (map_to_list (db_deliveries d)).

Definition countTrue (l : list bool) : Z := lsum indicator l.

Definition retireRecipientDeliveries (recipient conversationID : string) (now : Z) : M Z :=
  pending ← query (fun d => pendingCloses d recipient conversationID);
  closed ← collect pending (fun row => closePendingDelivery row ClosedRevoked now);
  mret (countTrue closed).
