(* ===== verification/Opening.v ===== *)
(** * Opening a database file ([openStore], [Store.migrate])

    [openStore] refuses a prepared or retired migration source, runs [migrate]
    in one transaction, verifies the quota counters and starts with the default
    policies.  Of [migrate] the statements that touch rows are modelled: the
    reconciliation of claim keys that old files may hold twice, the copy of
    claim keys into the idempotency table and the bootstrap of the quota
    counters; the row types have every column from the start. *)

From Stdlib Require Import Ascii.
From stdpp Require Import pretty.
From S2P Require Import Prelude GoTime RateLimit Quota Text Tables Tx Sessions Pending.
Open Scope Z_scope.

(** ** Claim keys of old files *)

Record telegramClaimKeyRow := {
  kr_conversationID : string;
  kr_machine : string;
  kr_key : string;
  kr_status : ClaimStatus;
  kr_createdAt : Z;
}.

Definition claimKeyRow (kv : string * ClaimRow) : telegramClaimKeyRow := {|
  kr_conversationID := kv.1;
  kr_machine := cl_machine kv.2;
  kr_key := cl_key kv.2;
  kr_status := cl_status kv.2;
  kr_createdAt := cl_created_at kv.2
|}.

Definition isComplete (row : telegramClaimKeyRow) : bool := bool_decide (kr_status row = ClaimComplete).

Definition preferTelegramClaimKeyKeeper (a b : telegramClaimKeyRow) : bool :=
  if negb (Bool.eqb (isComplete a) (isComplete b)) then isComplete a
  else if negb (kr_createdAt a =? kr_createdAt b) then kr_createdAt a <? kr_createdAt b
  else stringLt (kr_conversationID a) (kr_conversationID b).

(** [machine + "\x00" + key] *)
Definition scopedKey (machine key : string) : string := machine +:+ String "000"%char key.

Definition legacyKey (conversationID : string) (n : nat) : string :=
  let base := "legacy-dup-" +:+ conversationID in
  match n with O => base | S _ => base +:+ "-" +:+ pretty n end.

(** The search for a free key from number [n] on.  Each round that does not
    return has met an unusable or a used key, so with more rounds than used keys
    it returns as soon as every key is a valid token; [None] stands for the loop
    without an exit. *)
Fixpoint legacyKeyFrom (fuel n : nat) (used : gset string) (machine conversationID : string)
    : option string :=
  match fuel with
  | O => None
  | S fuel =>
      let key := legacyKey conversationID n in
      if ValidRequestToken key && bool_decide (scopedKey machine key ∉ used) then Some key
      else legacyKeyFrom fuel (S n) used machine conversationID
  end.

Definition uniqueLegacyTelegramClaimKey (used : gset string) (machine conversationID : string)
    : option string :=
  legacyKeyFrom (S (S (size used))) 0 used machine conversationID.

(** [telegram_claims] before its unique index is created. *)
Definition t_legacy_claims : Table string ClaimRow :=
  mkTable "telegram_claims" db_telegram_claims set_telegram_claims no_check no_unique
    (fun d k _ => has (db_conversations d) k) true.

Definition rekeyRow (key : string) (cl : ClaimRow) : ClaimRow := {|
  cl_status := cl_status cl;
  cl_machine := cl_machine cl;
  cl_endpoint := cl_endpoint cl;
  cl_key := key;
  cl_hash := cl_hash cl;
  cl_created_at := cl_created_at cl;
  cl_completed_at := cl_completed_at cl
|}.

(** The keeper of a group: the preferred row, the first on a tie. *)
Definition groupKeeper (row : telegramClaimKeyRow) (rows : list telegramClaimKeyRow)
    : telegramClaimKeyRow :=
  foldl (fun keeper row => if preferTelegramClaimKeyKeeper row keeper then row else keeper) row rows.

(** The rows of a group other than the keeper: completed claims get a fresh
    key, pending ones are dropped. *)
Fixpoint rekeyGroup (keeper : string) (rows : list telegramClaimKeyRow) (used : gset string)
    : M (gset string) :=
  match rows with
  | [] => mret used
  | row :: rows =>
      if bool_decide (kr_conversationID row = keeper) then rekeyGroup keeper rows used
      else if isComplete row then
        match uniqueLegacyTelegramClaimKey used (kr_machine row) (kr_conversationID row) with
        | None => throw ErrDiverges
        | Some next =>
            _ ← sql_update t_legacy_claims (kr_conversationID row) (fun _ => true) (rekeyRow next);
            rekeyGroup keeper rows ({[scopedKey (kr_machine row) next]} ∪ used)
        end
      else
        sql_delete_where t_legacy_claims (fun k _ => bool_decide (k = kr_conversationID row));;
        rekeyGroup keeper rows used
  end.

Definition reconcileGroup (group : list telegramClaimKeyRow) (used : gset string) : M (gset string) :=
  match group with
  | row :: ((_ :: _) as rest) => rekeyGroup (kr_conversationID (groupKeeper row rest)) group used
  | _ => mret used
  end.

Fixpoint reconcileGroups (groups : list (list telegramClaimKeyRow)) (used : gset string) : M unit :=
  match groups with
  | [] => mret tt
  | group :: groups => used ← reconcileGroup group used; reconcileGroups groups used
  end.

Definition rowKey (row : telegramClaimKeyRow) : string := scopedKey (kr_machine row) (kr_key row).

Definition groupClaims (claims : list telegramClaimKeyRow) : gmap string (list telegramClaimKeyRow) :=
  foldl (fun groups row => <[rowKey row := default [] (groups !! rowKey row) ++ [row]]> groups) ∅ claims.

Definition reconcileLegacyDuplicateTelegramClaimKeys : M unit :=
  claims ← query (fun d => claimKeyRow <$> map_to_list (db_telegram_claims d));
  reconcileGroups (map_to_list (groupClaims claims)).*2 (list_to_set (rowKey <$> claims)).

(** INSERT OR IGNORE INTO telegram_claim_idempotency SELECT ... FROM telegram_claims *)
Definition copyClaimKeys : M unit :=
  claims ← query (fun d => map_to_list (db_telegram_claims d));
  for_each claims (fun kv =>
    sql_insert_or_ignore t_telegram_claim_idempotency (cl_machine kv.2, cl_key kv.2)
      {| id_hash := cl_hash kv.2; id_target := kv.1; id_created_at := cl_created_at kv.2 |}).

Definition migrate : M unit :=
  transact (
    reconcileLegacyDuplicateTelegramClaimKeys;;
    copyClaimKeys;;
    bootstrapPendingQuota).

(** ** Opening *)

Definition requireActivePhase : M unit :=
  phase ← query db_phase;
  match phase with
  | MigrationSourceActive => mret tt
  | MigrationSourcePrepared => throw ErrMigrationSourcePrepared
  | MigrationSourceRetired => throw ErrMigrationSourceRetired
  end.

(** The store [openStore] returns: default policies and no metrics yet. *)
Definition freshPolicies (s : St) : St :=
  mkSt (st_db s) DefaultRateLimitConfig DefaultQuotaConfig DefaultRetentionConfig None (st_supply s).

Definition openStore (verifyQuota : bool) : M unit :=
  modify freshPolicies;;
  requireActivePhase;;
  migrate;;
  requireActivePhase;;
  if verifyQuota then VerifyPendingQuota else mret tt.
