(* ===== verification/QuotaInv.v ===== *)
(** * Quota accounting is exact

    The durable quota counters always equal the pending deliveries they stand
    for.  Inside a transaction the two sides move one statement at a time, so
    the invariant carries a list of credits: recipients already charged whose
    delivery is not yet written, or already closed whose charge is not yet
    released. *)

From S2P Require Import Prelude GoTime RateLimit Quota Text Sha256 Tables Tx Sessions Pending.
Open Scope Z_scope.

(** ** Measuring the pending deliveries *)

Definition pendingIf (d : Db) (p : DeliveryRow -> bool) (dl : DeliveryRow) : option MessageRow :=
  if p dl then pendingMessage d dl else None.

Definition measure (d : Db) (p : DeliveryRow -> bool) : QuotaCounters := {|
  Count := msum (fun _ dl => oneCount (pendingIf d p dl)) (db_deliveries d);
  Bytes := msum (fun _ dl => oneBytes (pendingIf d p dl)) (db_deliveries d)
|}.

Definition oneCounters (o : option MessageRow) : QuotaCounters :=
  {| Count := oneCount o; Bytes := oneBytes o |}.

Definition negCounters (a : QuotaCounters) : QuotaCounters :=
  {| Count := - Count a; Bytes := - Bytes a |}.

(** The rows a counter stands for: all of them, or one recipient's. *)
Definition sel (o : option string) (dl : DeliveryRow) : bool :=
  match o with None => true | Some r => bool_decide (dl_recipient dl = r) end.

Definition credit (n bytes : Z) : QuotaCounters := {| Count := n; Bytes := n * bytes |}.

Definition occurrences (r : string) (rs : list string) : Z :=
  lsum (fun r' => indicator (bool_decide (r' = r))) rs.

Definition owed (o : option string) (rs : list string) : Z :=
  match o with None => Z.of_nat (length rs) | Some r => occurrences r rs end.

(** Linear arithmetic on counters. *)
Ltac counters :=
  cbv beta; cbn [Count Bytes addCounters negCounters oneCounters reserve zeroCounters credit indicator
    length owed oneCount oneBytes];
  try lia.

Lemma pendingTotal_measure d : pendingTotal d = measure d (sel None).
Proof. reflexivity. Qed.

Lemma pendingFor_measure d r : pendingFor d r = measure d (sel (Some r)).
Proof. reflexivity. Qed.

Lemma counters_eq (a b : QuotaCounters) : Count a = Count b -> Bytes a = Bytes b -> a = b.
Proof. destruct a, b. simpl. congruence. Qed.

Lemma bodyBytes_nonneg m : 0 <= bodyBytes m.
Proof. unfold bodyBytes, goLen. lia. Qed.

Lemma measure_nonneg d p : 0 <= Count (measure d p) /\ 0 <= Bytes (measure d p).
Proof.
  split; apply msum_nonneg; intros _ dl _; destruct (pendingIf d p dl) as [m|]; simpl; try lia.
  apply bodyBytes_nonneg.
Qed.

(** The measure depends only on the deliveries and their messages. *)
Lemma measure_ext d d' p :
  db_deliveries d' = db_deliveries d ->
  (forall id dl, db_deliveries d !! id = Some dl -> pendingMessage d' dl = pendingMessage d dl) ->
  measure d' p = measure d p.
Proof.
  intros Hd Hm. apply counters_eq; simpl; rewrite Hd; apply msum_ext; intros id dl Hdl;
    unfold pendingIf; by rewrite (Hm id dl Hdl).
Qed.

Lemma measure_insert d p id dl :
  db_deliveries d !! id = None ->
  measure (set_deliveries (<[id:=dl]> (db_deliveries d)) d) p =
  addCounters (oneCounters (pendingIf d p dl)) (measure d p).
Proof.
  intros Hid. apply counters_eq; simpl; rewrite msum_insert_new by done; reflexivity.
Qed.

Lemma measure_update d p id dl dl' :
  db_deliveries d !! id = Some dl ->
  measure (set_deliveries (<[id:=dl']> (db_deliveries d)) d) p =
  addCounters (measure d p)
    (addCounters (negCounters (oneCounters (pendingIf d p dl))) (oneCounters (pendingIf d p dl'))).
Proof.
  intros Hid. apply counters_eq.
  - etransitivity; [exact (msum_update (fun _ dl => oneCount (pendingIf d p dl)) _ _ _ _ Hid)|].
    cbv beta. cbn [measure Count Bytes addCounters negCounters oneCounters]. lia.
  - etransitivity; [exact (msum_update (fun _ dl => oneBytes (pendingIf d p dl)) _ _ _ _ Hid)|].
    cbv beta. cbn [measure Count Bytes addCounters negCounters oneCounters]. lia.
Qed.

Lemma measure_member d p id dl m :
  db_deliveries d !! id = Some dl -> pendingIf d p dl = Some m ->
  1 <= Count (measure d p) /\ bodyBytes m <= Bytes (measure d p).
Proof.
  intros Hid Hm. split; simpl.
  - pose proof (msum_member (fun _ dl => oneCount (pendingIf d p dl)) (db_deliveries d) id dl) as H.
    cbv beta in H. rewrite Hm in H. apply H; [|done].
    intros _ dl' _. destruct (pendingIf d p dl'); simpl; lia.
  - pose proof (msum_member (fun _ dl => oneBytes (pendingIf d p dl)) (db_deliveries d) id dl) as H.
    cbv beta in H. rewrite Hm in H. apply H; [|done].
    intros _ dl' _. destruct (pendingIf d p dl'); simpl; [apply bodyBytes_nonneg|lia].
Qed.

(** ** The invariant *)

(** Every delivery has its message ([deliveries.message_id REFERENCES messages]). *)
Definition delivery_refs (d : Db) : Prop :=
  forall id dl, db_deliveries d !! id = Some dl -> is_Some (db_messages d !! dl_message dl).

Definition recipientQuota (d : Db) (r : string) : QuotaCounters :=
  default zeroCounters (db_pending_quota_recipients d !! r).

(** The counters exceed the measured deliveries by one charge of [bytes] for
    each recipient in [rs]. *)
Definition quota_credit (rs : list string) (bytes : Z) (d : Db) : Prop :=
  delivery_refs d /\
  readInstallQuota d = addCounters (pendingTotal d) (credit (Z.of_nat (length rs)) bytes) /\
  forall r, recipientQuota d r = addCounters (pendingFor d r) (credit (occurrences r rs) bytes).

Definition quota_ok (d : Db) : Prop :=
  delivery_refs d /\ readInstallQuota d = pendingTotal d /\
  forall r, recipientQuota d r = pendingFor d r.

Lemma addCounters_credit0 a b : addCounters a (credit 0 b) = a.
Proof. apply counters_eq; simpl; lia. Qed.

Lemma quota_credit_nil bytes d : quota_credit [] bytes d <-> quota_ok d.
Proof.
  unfold quota_credit, quota_ok, occurrences. simpl.
  rewrite addCounters_credit0. by setoid_rewrite addCounters_credit0.
Qed.

#[export] Instance quota_credit_perm : Proper ((≡ₚ) ==> eq ==> eq ==> iff) quota_credit.
Proof.
  intros rs rs' Hp b ? <- d ? <-. unfold quota_credit, occurrences.
  rewrite Hp. split; intros (? & ? & Hr); split_and!; try done; intros r; rewrite Hr; by rewrite Hp.
Qed.

(** [verifySQLitePendingQuota] accepts exactly the states that satisfy it. *)
Lemma elem_of_pendingRecipients d r :
  r ∈ pendingRecipients d <->
  exists id dl m, db_deliveries d !! id = Some dl /\ dl_recipient dl = r /\
    pendingMessage d dl = Some m.
Proof.
  unfold pendingRecipients.
  set (f := fun (_ : string) dl (acc : gset string) =>
    match pendingMessage d dl with Some _ => {[dl_recipient dl]} ∪ acc | None => acc end).
  apply (map_fold_weak_ind (fun acc m => r ∈ acc <-> exists id dl msg, m !! id = Some dl /\
    dl_recipient dl = r /\ pendingMessage d dl = Some msg) f).
  - setoid_rewrite lookup_empty. set_solver.
  - intros id dl m acc Hid IH. unfold f. destruct (pendingMessage d dl) as [msg|] eqn:Hp.
    + rewrite elem_of_union, elem_of_singleton, IH. split.
      * intros [->|(id' & dl' & msg' & Hl & ? & ?)].
        -- exists id, dl, msg. by rewrite lookup_insert_eq.
        -- exists id', dl', msg'. rewrite lookup_insert_ne; [done|]. intros ->. congruence.
      * intros (id' & dl' & msg' & Hl & ? & ?). apply lookup_insert_Some in Hl as [[-> <-]|[? ?]].
        -- by left.
        -- right. eauto 10.
    + rewrite IH. split; intros (id' & dl' & msg' & Hl & ? & ?).
      * exists id', dl', msg'. rewrite lookup_insert_ne; [done|]. intros ->. congruence.
      * apply lookup_insert_Some in Hl as [[-> <-]|[? ?]]; [congruence|]. eauto 10.
Qed.

Definition groupsOf (d : Db) (X : gset string) : gmap string QuotaCounters :=
  set_to_map (fun r => (r, pendingFor d r)) X.

Lemma groupsOf_lookup d X r :
  groupsOf d X !! r = if bool_decide (r ∈ X) then Some (pendingFor d r) else None.
Proof.
  unfold groupsOf. case_bool_decide as Hr.
  - apply lookup_set_to_map; [intros ? ? _ _ Heq; exact Heq|]. by exists r.
  - apply eq_None_not_Some. intros [c Hc].
    apply lookup_set_to_map in Hc as (r' & Hr' & [= <- <-]); [done|intros ? ? _ _ Heq; exact Heq].
Qed.

Lemma groupsOf_insert d X r :
  groupsOf d ({[r]} ∪ X) = <[r := pendingFor d r]> (groupsOf d X).
Proof.
  apply map_eq. intros r'. rewrite groupsOf_lookup. destruct (decide (r' = r)) as [->|Hne].
  - rewrite lookup_insert_eq, bool_decide_true by set_solver. done.
  - rewrite lookup_insert_ne, groupsOf_lookup by done. repeat case_bool_decide; set_solver.
Qed.

Lemma pendingFor_zero d r : r ∉ pendingRecipients d -> pendingFor d r = zeroCounters.
Proof.
  rewrite elem_of_pendingRecipients. intros Hno.
  assert (forall id dl, db_deliveries d !! id = Some dl -> pendingAt d r dl = None) as Hz.
  { intros id dl Hid. unfold pendingAt. case_bool_decide; [|done].
    destruct (pendingMessage d dl) eqn:?; [|done]. exfalso. eauto 10. }
  apply counters_eq; simpl; apply msum_zero; intros id dl Hid; by rewrite (Hz id dl Hid).
Qed.

Lemma pendingFor_pos d r : r ∈ pendingRecipients d -> 1 <= Count (pendingFor d r).
Proof.
  rewrite elem_of_pendingRecipients. intros (id & dl & m & Hid & <- & Hm).
  rewrite pendingFor_measure. eapply measure_member; [done|].
  unfold pendingIf, sel. by rewrite bool_decide_true.
Qed.

(** The groups sum to the total. *)
Lemma measure_groups d X :
  msum (fun _ c => Count c) (groupsOf d X) =
    Count (measure d (fun dl => bool_decide (dl_recipient dl ∈ X))) /\
  msum (fun _ c => Bytes c) (groupsOf d X) =
    Bytes (measure d (fun dl => bool_decide (dl_recipient dl ∈ X))).
Proof.
  induction X as [|r X Hr [IHc IHb]] using set_ind_L.
  - replace (groupsOf d ∅) with (∅ : gmap string QuotaCounters).
    + rewrite !msum_empty. cbn [Count Bytes measure].
      split; symmetry; apply msum_zero; intros id dl Hid; done.
    + apply map_eq. intros r. by rewrite groupsOf_lookup.
  - assert (groupsOf d X !! r = None) by (rewrite groupsOf_lookup; by rewrite bool_decide_false).
    rewrite groupsOf_insert, !msum_insert_new, IHc, IHb, pendingFor_measure by done.
    cbn [Count Bytes measure]. rewrite <-!msum_add.
    split; apply msum_ext; intros id dl _; unfold pendingIf, sel;
      repeat case_bool_decide; subst; try set_solver; simpl; lia.
Qed.

Lemma fold_addCounters (m : gmap string QuotaCounters) :
  map_fold (fun _ c acc => addCounters c acc) zeroCounters m =
  {| Count := msum (fun _ c => Count c) m; Bytes := msum (fun _ c => Bytes c) m |}.
Proof.
  induction m as [|r c m Hr IH] using map_ind; [reflexivity|].
  rewrite map_fold_insert_L, IH by (try done; intros; apply counters_eq; simpl; lia).
  apply counters_eq; cbn [Count Bytes addCounters]; by rewrite msum_insert_new.
Qed.

Lemma pendingGroups_total d :
  map_fold (fun _ c acc => addCounters c acc) zeroCounters (pendingGroups d) = pendingTotal d.
Proof.
  rewrite fold_addCounters. destruct (measure_groups d (pendingRecipients d)) as [Hc Hb].
  change (pendingGroups d) with (groupsOf d (pendingRecipients d)).
  assert (forall id dl, db_deliveries d !! id = Some dl ->
    pendingIf d (fun dl => bool_decide (dl_recipient dl ∈ pendingRecipients d)) dl =
    pendingMessage d dl) as Hp.
  { intros id dl Hid. unfold pendingIf. case_bool_decide as Hr; [done|].
    destruct (pendingMessage d dl) eqn:Hm; [|done]. exfalso. apply Hr.
    apply elem_of_pendingRecipients. eauto 10. }
  apply counters_eq; cbn [Count Bytes pendingTotal].
  - rewrite Hc. apply msum_ext. intros id dl Hid. by rewrite (Hp id dl Hid).
  - rewrite Hb. apply msum_ext. intros id dl Hid. by rewrite (Hp id dl Hid).
Qed.

Lemma quotaConsistent_spec d :
  quotaConsistent d = true <->
  readInstallQuota d = pendingTotal d /\ forall r, recipientQuota d r = pendingFor d r.
Proof.
  unfold quotaConsistent. rewrite pendingGroups_total.
  change (pendingGroups d) with (groupsOf d (pendingRecipients d)).
  assert (forall r, default zeroCounters (groupsOf d (pendingRecipients d) !! r) = pendingFor d r) as Hg.
  { intros r. rewrite groupsOf_lookup. case_bool_decide; simpl; [done|].
    symmetry. by apply pendingFor_zero. }
  rewrite !andb_true_iff, !bool_decide_eq_true. split.
  - intros [[[Ht _] Hrows] Hseen]. split; [done|]. intros r. unfold recipientQuota.
    destruct (db_pending_quota_recipients d !! r) as [c|] eqn:Hr; simpl.
    + rewrite (Hrows r c Hr). apply Hg.
    + rewrite <-Hg. destruct (groupsOf d _ !! r) as [c|] eqn:Hc; [|done].
      specialize (Hseen r c Hc). simpl in Hseen. unfold has in Hseen. by rewrite Hr in Hseen.
  - intros [Ht Hr]. split_and!; [done|done| |].
    + intros r c Hc. rewrite Hg, <-Hr. unfold recipientQuota. by rewrite Hc.
    + intros r c Hc. rewrite groupsOf_lookup in Hc. case_bool_decide as Hin; [|done].
      pose proof (pendingFor_pos d r Hin) as Hpos. rewrite <-Hr in Hpos.
      unfold recipientQuota in Hpos. unfold has.
      destruct (db_pending_quota_recipients d !! r); [done|]. simpl in Hpos. lia.
Qed.

(** ** The statements that move the counters *)

(** [quota_credit] stated on the counters and the measures. *)
Lemma quota_credit_intro rs bytes d :
  delivery_refs d ->
  Count (readInstallQuota d) = Count (pendingTotal d) + Z.of_nat (length rs) ->
  Bytes (readInstallQuota d) = Bytes (pendingTotal d) + Z.of_nat (length rs) * bytes ->
  (forall r, Count (recipientQuota d r) = Count (pendingFor d r) + occurrences r rs) ->
  (forall r, Bytes (recipientQuota d r) = Bytes (pendingFor d r) + occurrences r rs * bytes) ->
  quota_credit rs bytes d.
Proof.
  intros Hrefs Hic Hib Hrc Hrb. split_and!; [done| |].
  - by apply counters_eq.
  - intros r. by apply counters_eq; [apply Hrc|apply Hrb].
Qed.

Lemma recipientQuota_set d r c r' :
  recipientQuota (set_pending_quota_recipients (<[r:=c]> (db_pending_quota_recipients d)) d) r' =
  if bool_decide (r' = r) then c else recipientQuota d r'.
Proof.
  unfold recipientQuota. cbn. case_bool_decide as Hr.
  - subst. by rewrite lookup_insert_eq.
  - by rewrite lookup_insert_ne.
Qed.

Lemma readInstallQuota_set d c :
  readInstallQuota (set_pending_quota_install (<[tt:=c]> (db_pending_quota_install d)) d) = c.
Proof. unfold readInstallQuota. cbn. by rewrite lookup_insert_eq. Qed.

Lemma zero_row_install rs bytes :
  preserves (quota_credit rs bytes) (sql_insert_or_ignore t_pending_quota_install tt zeroCounters).
Proof.
  intros s u s' (_ & [[-> _]|(Hn & _ & _ & ->)])%sql_insert_or_ignore_ok; [done|].
  cbn in Hn. intros (Hrefs & Hi & Hr). split_and!; [done| |done].
  etransitivity; [apply readInstallQuota_set|].
  change (pendingTotal (st_db (set_row _ _ _ s))) with (pendingTotal (st_db s)).
  rewrite <-Hi. unfold readInstallQuota. by rewrite Hn.
Qed.

Lemma zero_row_recipient rs bytes r :
  preserves (quota_credit rs bytes) (sql_insert_or_ignore t_pending_quota_recipients r zeroCounters).
Proof.
  intros s u s' (_ & [[-> _]|(Hn & _ & _ & ->)])%sql_insert_or_ignore_ok; [done|].
  cbn in Hn. intros (Hrefs & Hi & Hr). split_and!; [done|done|]. intros r'.
  change (pendingFor _ r') with (pendingFor (st_db s) r'). rewrite <-Hr.
  unfold recipientQuota. cbn. destruct (decide (r' = r)) as [->|Hne].
  - by rewrite lookup_insert_eq, Hn.
  - by rewrite lookup_insert_ne.
Qed.

(** *** Release *)

(** Releasing a credit of the invariant restores it. *)
Lemma releaseQuota_ok r bytes u s s' :
  releaseQuota r bytes s = (inr u, s') -> quota_credit [r] bytes (st_db s) -> quota_ok (st_db s').
Proof.
  intros H HI. unfold releaseQuota in H. tx_inv H.
  apply (zero_row_install [r] bytes _ _ _ Hm0) in HI.
  apply (zero_row_recipient [r] bytes _ _ _ _ Hm1) in HI.
  apply sql_update_ok in Hm2 as [(-> & _)|(-> & c & Hc & _ & _ & _ & ->)]; [done|].
  apply sql_update_ok in Hm4 as [(-> & _)|(-> & i & Hi & _ & _ & _ & ->)]; [done|].
  destruct HI as (Hrefs & Hinst & Hrec). cbn in Hc, Hi. split_and!; [done| |].
  - etransitivity; [apply readInstallQuota_set|].
    unfold readInstallQuota in Hinst. rewrite Hi in Hinst. simpl in Hinst. subst i.
    match goal with |- _ = pendingTotal ?d => change (pendingTotal d) with (pendingTotal (st_db s1)) end.
    apply counters_eq; counters.
  - intros r'. etransitivity; [apply (recipientQuota_set (st_db s1) r)|].
    match goal with |- _ = pendingFor ?d _ => change (pendingFor d r') with (pendingFor (st_db s1) r') end.
    pose proof (Hrec r') as Hr'. unfold occurrences in Hr'. simpl in Hr'.
    case_bool_decide as Heq.
    + subst r'. unfold recipientQuota in Hr'. rewrite Hc in Hr'. simpl in Hr'. rewrite Hr'.
      rewrite bool_decide_true by done. apply counters_eq; counters.
    + rewrite Hr', bool_decide_false by done. apply counters_eq; counters.
Qed.

Lemma may_write_guarded {K V} `{Countable K} (T : Table K V) s :
  writable (st_db s) = true -> may_write T s.
Proof. by intros ? _. Qed.

Lemma counters_row c bytes :
  1 <= Count c -> bytes <= Bytes c ->
  (0 <=? Count (reserve (-1) (- bytes) c)) && (0 <=? Bytes (reserve (-1) (- bytes) c)) && true = true.
Proof. intros. cbn [Count Bytes reserve]. lia. Qed.

(** Under the invariant a release never finds the counters inconsistent. *)
Lemma releaseQuota_run r bytes s :
  r <> "" -> 0 <= bytes -> writable (st_db s) = true -> quota_credit [r] bytes (st_db s) ->
  exists s', releaseQuota r bytes s = (inr tt, s').
Proof.
  intros Hr Hb Hw HI. unfold releaseQuota.
  erewrite bind_run by (apply reject_if_run; rewrite bool_decide_false by done; simpl; lia).
  destruct (ensure_row_run t_pending_quota_install tt zeroCounters s) as (s1 & E1 & [i Hi] & Hs1);
    [done|by apply may_write_guarded|done..|].
  erewrite bind_run by exact E1. apply (zero_row_install [r] bytes _ _ _ E1) in HI.
  assert (writable (st_db s1) = true) as Hw1 by (by destruct Hs1 as [->| ->]).
  destruct (ensure_row_run t_pending_quota_recipients r zeroCounters s1) as (s2 & E2 & [c Hc] & Hs2);
    [done|by apply may_write_guarded|done..|].
  erewrite bind_run by exact E2. apply (zero_row_recipient [r] bytes _ _ _ _ E2) in HI.
  assert (writable (st_db s2) = true) as Hw2 by (by destruct Hs2 as [->| ->]).
  assert (db_pending_quota_install (st_db s2) !! tt = Some i) as Hi2
    by (by destruct Hs2 as [->| ->]).
  cbn in Hc.
  destruct HI as (_ & Hinst & Hrec). unfold readInstallQuota in Hinst. rewrite Hi2 in Hinst.
  specialize (Hrec r). unfold recipientQuota, occurrences in Hrec. rewrite Hc in Hrec.
  simpl in Hinst, Hrec. rewrite bool_decide_true in Hrec by done.
  destruct (measure_nonneg (st_db s2) (sel None)) as [Ht1 Ht2].
  rewrite <-pendingTotal_measure in Ht1, Ht2.
  destruct (measure_nonneg (st_db s2) (sel (Some r))) as [Hf1 Hf2].
  rewrite <-pendingFor_measure in Hf1, Hf2.
  assert (1 <= Count c /\ bytes <= Bytes c) as [Hc1 Hc2]
    by (rewrite Hrec; cbn [Count Bytes addCounters credit indicator]; lia).
  assert (1 <= Count i /\ bytes <= Bytes i) as [Hi1 Hi3]
    by (rewrite Hinst; cbn [Count Bytes addCounters credit]; lia).
  erewrite bind_run; [|eapply sql_update_run; [exact Hc| |by apply may_write_guarded|]].
  - erewrite bind_run by by apply reject_if_run.
    erewrite bind_run; [|eapply sql_update_run; [exact Hi2| |by apply may_write_guarded|]].
    + eexists. by apply reject_if_run.
    + unfold releasable. lia.
    + apply counters_row; lia.
  - unfold releasable. lia.
  - apply counters_row; lia.
Qed.

(** *** Reservation *)

Lemma occurrences_cons r r' rs :
  occurrences r (r' :: rs) = indicator (bool_decide (r' = r)) + occurrences r rs.
Proof. done. Qed.

Definition has_recipient_row (r : string) (d : Db) : Prop :=
  is_Some (db_pending_quota_recipients d !! r).

Lemma init_keeps_row r r' : preserves (has_recipient_row r) (initRecipientQuota r').
Proof.
  intros s a s' H. unfold initRecipientQuota in H. tx_inv H.
  apply sql_insert_or_ignore_ok in Hm as (_ & [[-> _]|(_ & _ & _ & ->)]); [done|].
  unfold has_recipient_row. cbn. intros Hr. destruct (decide (r = r')) as [->|Hne].
  - rewrite lookup_insert_eq. eauto.
  - by rewrite lookup_insert_ne.
Qed.

Lemma collect_init_rows rs l s s' :
  collect rs initRecipientQuota s = (inr l, s') -> forall r, r ∈ rs -> has_recipient_row r (st_db s').
Proof.
  revert l s. induction rs as [|r rs IH]; intros l s H r' Hr'; [set_solver|].
  simpl in H. tx_inv H. apply elem_of_cons in Hr' as [->|Hr']; [|by eapply IH].
  assert (preserves (has_recipient_row r) (collect rs initRecipientQuota)) as Hk
    by (apply preserves_collect; intros; apply init_keeps_row).
  apply (Hk _ _ _ Hm0). unfold initRecipientQuota in Hm. tx_inv Hm.
  unfold has_recipient_row. eauto.
Qed.

(** The recipient half of the invariant. *)
Definition recipients_credit (rs : list string) (bytes : Z) (d : Db) : Prop :=
  forall r, recipientQuota d r = addCounters (pendingFor d r) (credit (occurrences r rs) bytes).

#[export] Instance recipients_credit_perm : Proper ((≡ₚ) ==> eq ==> eq ==> iff) recipients_credit.
Proof.
  intros rs rs' Hp b ? <- d ? <-. unfold recipients_credit, occurrences.
  split; intros Hr r; rewrite Hr; by rewrite Hp.
Qed.

Lemma reserve_recipients todo done_ bytes u s s' :
  for_each todo (fun r =>
    _ ← sql_update t_pending_quota_recipients r (fun _ => true) (reserve 1 bytes); mret tt) s = (inr u, s') ->
  (forall r, r ∈ todo -> has_recipient_row r (st_db s)) ->
  recipients_credit done_ bytes (st_db s) ->
  recipients_credit (todo ++ done_) bytes (st_db s').
Proof.
  revert done_ s. induction todo as [|r todo IH]; intros done_ s H Hrows HI; simpl in H; tx_inv H; [done|].
  apply sql_update_ok in Hm0 as [(_ & _ & Hno)|(_ & c & Hc & _ & _ & _ & ->)].
  { destruct (Hrows r ltac:(set_solver)) as [c Hc]. by specialize (Hno c Hc). }
  simpl. rewrite Permutation_middle. eapply IH; [exact H| |].
  - intros r' Hr'. unfold has_recipient_row. cbn. destruct (decide (r' = r)) as [->|Hne].
    + rewrite lookup_insert_eq. eauto.
    + rewrite lookup_insert_ne by done. apply Hrows. set_solver.
  - intros r'. etransitivity; [apply (recipientQuota_set (st_db s) r)|].
    change (pendingFor _ r') with (pendingFor (st_db s) r').
    rewrite occurrences_cons. cbn in Hc. specialize (HI r'). unfold recipientQuota in HI.
    case_bool_decide as Heq.
    + subst r'. rewrite Hc in HI. simpl in HI. rewrite HI, bool_decide_true by done.
      apply counters_eq; counters.
    + rewrite bool_decide_false by congruence. etransitivity; [exact HI|].
      apply counters_eq; counters.
Qed.

Lemma init_recipient_credit rs bytes r : preserves (quota_credit rs bytes) (initRecipientQuota r).
Proof.
  unfold initRecipientQuota. apply preserves_bind; [apply zero_row_recipient|]. intros _. preserve.
Qed.

Lemma chargeQuota_ok rs bytes u s s' :
  chargeQuota rs bytes s = (inr u, s') -> quota_ok (st_db s) -> quota_credit rs bytes (st_db s').
Proof.
  intros H HI. apply (quota_credit_nil bytes) in HI. unfold chargeQuota in H. tx_inv H.
  apply (zero_row_install [] bytes _ _ _ Hm) in HI.
  pose proof (preserves_collect (quota_credit [] bytes) rs initRecipientQuota
    ltac:(intros; apply init_recipient_credit) _ _ _ Hm1 HI) as Hcr.
  pose proof (collect_init_rows _ _ _ _ Hm1) as Hrows.
  assert (is_Some (db_pending_quota_install (st_db s1) !! tt)) as Hrow.
  { assert (preserves (fun d => is_Some (db_pending_quota_install d !! tt))
      (collect rs initRecipientQuota)) as Hp by (unfold initRecipientQuota; preserve).
    apply (Hp _ _ _ Hm1). rewrite Hm0. eauto. }
  assert (s2 = s1) as ->.
  { by destruct (QuotaAllowed _); tx_inv Hm2. }
  assert (st_db s3 = set_pending_quota_recipients (db_pending_quota_recipients (st_db s3)) (st_db s1)) as Hs3.
  { assert (preserves (fun d => d = set_pending_quota_recipients (db_pending_quota_recipients d) (st_db s1))
      (for_each rs (fun r => _ ← sql_update t_pending_quota_recipients r (fun _ => true)
        (reserve 1 bytes); mret tt))) as Hp.
    { apply preserves_for_each. intros r _. apply preserves_bind; [|intros ?; preserve].
      apply frame_update. intros x d ->. reflexivity. }
    apply (Hp _ _ _ Hm3). by destruct (st_db s1). }
  destruct Hcr as (Hrefs & Hinst & Hrec).
  apply (reserve_recipients rs []) in Hm3; [|done|done]. rewrite app_nil_r in Hm3.
  apply sql_update_ok in Hm4 as [(_ & _ & Hno)|(_ & i & Hi & _ & _ & _ & ->)].
  { destruct Hrow as [i Hi]. rewrite Hs3 in Hno. by specialize (Hno i Hi). }
  rewrite Hs3 in Hi. cbn in Hi. split_and!.
  - unfold delivery_refs. cbn. rewrite Hs3. exact Hrefs.
  - etransitivity; [apply readInstallQuota_set|].
    unfold readInstallQuota in Hinst. rewrite Hi in Hinst. simpl in Hinst. rewrite Hinst.
    replace (pendingTotal (st_db (set_row _ _ _ s3))) with (pendingTotal (st_db s1)).
    + apply counters_eq; counters.
    + unfold set_row. cbn. rewrite Hs3. reflexivity.
  - exact Hm3.
Qed.

Lemma consumeQuota_ok rs bytes u s s' :
  consumeQuota rs bytes s = (inr u, s') -> quota_ok (st_db s) -> quota_credit rs bytes (st_db s').
Proof.
  destruct rs as [|r rs]; [|apply chargeQuota_ok].
  intros H HI. simpl in H. tx_inv H. by apply quota_credit_nil.
Qed.

(** ** The statements that move the deliveries *)

(** Every measure of [d'] is that of [d] plus [f], and [f] is the change in the
    credits. *)
Lemma quota_shift rs rs' bytes d d' (f : option string -> QuotaCounters) :
  quota_credit rs bytes d -> delivery_refs d' ->
  readInstallQuota d' = readInstallQuota d ->
  (forall r, recipientQuota d' r = recipientQuota d r) ->
  (forall o, measure d' (sel o) = addCounters (measure d (sel o)) (f o)) ->
  (forall o, addCounters (f o) (credit (owed o rs') bytes) = credit (owed o rs) bytes) ->
  quota_credit rs' bytes d'.
Proof.
  intros (_ & Hi & Hr) Hrefs Hi' Hr' Hm Ho. split_and!; [done| |].
  - rewrite Hi', Hi, !pendingTotal_measure, Hm. change (Z.of_nat (length rs)) with (owed None rs).
    rewrite <-Ho. apply counters_eq; counters.
  - intros r. rewrite Hr', Hr, !pendingFor_measure, Hm.
    change (occurrences r rs) with (owed (Some r) rs). rewrite <-Ho. apply counters_eq; counters.
Qed.

(** One row of [recipient], counted by the selectors that cover it. *)
Lemma owed_cons o d dl m rs :
  pendingMessage d dl = Some m ->
  credit (owed o (dl_recipient dl :: rs)) (bodyBytes m) =
  addCounters (oneCounters (pendingIf d (sel o) dl)) (credit (owed o rs) (bodyBytes m)).
Proof.
  intros Hp. unfold pendingIf. destruct o as [r|]; cbn [sel owed].
  - rewrite occurrences_cons. case_bool_decide; [rewrite Hp|]; apply counters_eq; counters.
  - rewrite Hp. apply counters_eq; counters.
Qed.

(** A new pending delivery uses up the credit of its recipient. *)
Lemma new_delivery_credit id dl m rs u s s' :
  sql_insert t_deliveries id dl s = (inr u, s') ->
  db_messages (st_db s) !! dl_message dl = Some m -> dl_acked dl = None ->
  quota_credit (dl_recipient dl :: rs) (bodyBytes m) (st_db s) ->
  quota_credit rs (bodyBytes m) (st_db s').
Proof.
  intros (_ & Hid & _ & _ & ->)%sql_insert_ok Hm Ha HI. cbn in Hid.
  assert (pendingMessage (st_db s) dl = Some m) as Hp by (unfold pendingMessage; by rewrite Ha).
  apply (quota_shift _ rs _ _ _ (fun o => oneCounters (pendingIf (st_db s) (sel o) dl)) HI); try done.
  - destruct HI as (Hrefs & _). intros id' dl' Hid'. cbn in Hid' |- *.
    apply lookup_insert_Some in Hid' as [[_ <-]|[_ ?]]; [eauto|by eapply Hrefs].
  - intros o. etransitivity; [by apply measure_insert|]. apply counters_eq; counters.
  - intros o. symmetry. by apply owed_cons.
Qed.

(** A row update that keeps message and recipient. *)
Lemma delivery_update_refs d id dl dl' :
  delivery_refs d -> db_deliveries d !! id = Some dl -> dl_message dl' = dl_message dl ->
  delivery_refs (set_deliveries (<[id:=dl']> (db_deliveries d)) d).
Proof.
  intros Hrefs Hid Hm id' dl2 Hid'. cbn in Hid' |- *.
  apply lookup_insert_Some in Hid' as [[_ <-]|[_ ?]]; [rewrite Hm; by eapply Hrefs|by eapply Hrefs].
Qed.

(** Closing a pending delivery leaves its charge as a credit. *)
Lemma close_delivery_credit id f s s' :
  (forall dl, dl_message (f dl) = dl_message dl /\ is_Some (dl_acked (f dl))) ->
  sql_update t_deliveries id isPending f s = (inr 1, s') ->
  quota_ok (st_db s) ->
  exists dl m, db_deliveries (st_db s) !! id = Some dl /\ dl_acked dl = None /\
    db_messages (st_db s) !! dl_message dl = Some m /\
    s' = set_row t_deliveries id (f dl) s /\
    quota_credit [dl_recipient dl] (bodyBytes m) (st_db s').
Proof.
  intros Hf H HI. apply sql_update_ok in H as [(? & _)|(_ & dl & Hid & Hp & _ & _ & ->)]; [done|].
  cbn in Hid. unfold isPending in Hp. destruct (dl_acked dl) eqn:Ha; [done|].
  destruct (Hf dl) as [Hmsg [t Hacked]].
  destruct HI as (Hrefs & HI). destruct (Hrefs id dl Hid) as [m Hm].
  exists dl, m. split_and!; try done.
  assert (pendingMessage (st_db s) dl = Some m) as Hpm by (unfold pendingMessage; by rewrite Ha).
  apply (quota_shift [] _ _ (st_db s) _
    (fun o => negCounters (oneCounters (pendingIf (st_db s) (sel o) dl)))); try done.
  - by apply quota_credit_nil.
  - by eapply delivery_update_refs.
  - intros o. etransitivity; [by apply measure_update|].
    assert (pendingIf (st_db s) (sel o) (f dl) = None) as ->
      by (unfold pendingIf, pendingMessage; rewrite Hacked; by destruct (sel o _)).
    apply counters_eq; counters.
  - intros o. rewrite (owed_cons o (st_db s) dl m []) by done. apply counters_eq; counters.
Qed.

(** Updates of the lease columns do not change what is pending. *)
Definition lease_only (f : DeliveryRow -> DeliveryRow) : Prop :=
  forall dl, dl_message (f dl) = dl_message dl /\ dl_recipient (f dl) = dl_recipient dl /\
    dl_acked (f dl) = dl_acked dl.

Lemma lease_only_pendingIf d o f dl :
  lease_only f -> pendingIf d (sel o) (f dl) = pendingIf d (sel o) dl.
Proof.
  intros Hf. destruct (Hf dl) as (Hm & Hr & Ha). unfold pendingIf, pendingMessage.
  rewrite Hm, Ha. destruct o as [r|]; simpl; [by rewrite Hr|done].
Qed.

Lemma lease_only_update rs bytes id cond f :
  lease_only f -> preserves (quota_credit rs bytes) (sql_update t_deliveries id cond f).
Proof.
  intros Hf s n s' [(_ & -> & _)|(_ & dl & Hid & _ & _ & _ & ->)]%sql_update_ok; [done|].
  intros HI. cbn in Hid. apply (quota_shift rs rs _ (st_db s) _ (fun _ => zeroCounters)); try done.
  - destruct HI as (Hrefs & _). eapply delivery_update_refs; [done..|]. by destruct (Hf dl).
  - intros o. etransitivity; [by apply measure_update|].
    rewrite (lease_only_pendingIf (st_db s) o f dl Hf). apply counters_eq; counters.
Qed.

Lemma lease_only_update_where rs bytes cond f :
  lease_only f -> preserves (quota_credit rs bytes) (sql_update_where t_deliveries cond f).
Proof.
  intros Hf s u s' [[-> _]|(_ & _ & ->)]%sql_update_where_ok; [done|].
  intros HI. apply (quota_shift rs rs _ (st_db s) _ (fun _ => zeroCounters)); try done.
  - destruct HI as (Hrefs & _). intros id dl Hid. cbn in Hid. rewrite lookup_imap_upd in Hid.
    apply fmap_Some in Hid as (dl0 & Hid & ->).
    replace (dl_message _) with (dl_message dl0); [by eapply Hrefs|].
    destruct (cond id dl0); [by destruct (Hf dl0)|done].
  - assert (forall (c : option MessageRow -> Z) o,
      msum (fun _ dl => c (pendingIf (st_db s) (sel o) dl))
        (db_deliveries (st_db (update_rows t_deliveries cond f s))) =
      msum (fun _ dl => c (pendingIf (st_db s) (sel o) dl)) (db_deliveries (st_db s))) as Hc.
    { intros c o. cbn. rewrite (msum_imap _ (fun id dl => if cond id dl then f dl else dl)).
      apply msum_ext. intros id dl _. destruct (cond id dl); [by rewrite lease_only_pendingIf|done]. }
    intros o. apply counters_eq; cbn [Count Bytes addCounters zeroCounters]; rewrite Z.add_0_r.
    + apply (Hc oneCount).
    + apply (Hc oneBytes).
Qed.

(** A new message is not yet referenced by any delivery. *)
Lemma new_message_credit rs bytes id m :
  preserves (quota_credit rs bytes) (sql_insert t_messages id m).
Proof.
  intros s u s' (_ & Hid & _ & _ & ->)%sql_insert_ok HI. cbn in Hid.
  pose proof HI as (Hrefs & _).
  assert (forall id' dl, db_deliveries (st_db s) !! id' = Some dl -> dl_message dl <> id) as Hne.
  { intros id' dl Hdl Heq. destruct (Hrefs id' dl Hdl) as [? ?]. congruence. }
  apply (quota_shift rs rs _ (st_db s) _ (fun _ => zeroCounters)); try done.
  - intros id' dl Hdl. cbn in Hdl |- *. rewrite lookup_insert_ne; [by eapply Hrefs|].
    intros Heq. by eapply Hne.
  - intros o. etransitivity; [apply (measure_ext (st_db s)); [done|]|].
    + intros id' dl Hdl. unfold pendingMessage. cbn. destruct (dl_acked dl); [done|].
      rewrite lookup_insert_ne; [done|]. intros Heq. by eapply Hne.
    + apply counters_eq; counters.
Qed.
