(* ===== verification/Invocations.v ===== *)
(** * Invocations: server-authorised runtime handoffs (invocation.go)

    One pending invocation fences the start of one offline endpoint: requests
    coalesce on it, a lease hands it to the endpoint's machine, and its outcome
    or its expiry ends it.  Every transition appends to the audit trail. *)

From S2P Require Import Prelude GoTime RateLimit Quota Text Sha256 Tables Tx Sessions Pending.
Open Scope Z_scope.

Definition maxInvocationAttempts : Z := 3.
Definition maxInvocationBackoff : Z := Time.Minute.
Definition invocationTerminalRetention : Z := 24 * Time.Hour.

Record InvokeInput := {
  in_ConversationID : string;
  in_SenderMachineID : string;
  in_FromEndpoint : string;
  in_TargetEndpoint : string;
  in_IdempotencyKey : string;
  in_Now : Z;
}.

Record Invocation := {
  i_ID : string;
  i_ConversationID : string;
  i_TargetEndpoint : string;
  i_TargetMachineID : string;
  i_Fence : string;
  i_Status : InvocationStatus;
  i_LeaseToken : string;
  i_LeaseGeneration : Z;
  i_LeaseUntil : Z;
  i_RecoveryOnly : bool;
}.

(** SELECT MAX(f) over the rows [f] accepts. *)
Definition omax (a b : option Z) : option Z :=
  match a, b with
  | Some x, Some y => Some (Z.max x y)
  | Some x, None => Some x
  | None, y => y
  end.
Definition mmax {K V} `{Countable K} (f : K -> V -> option Z) (m : gmap K V) : option Z :=
  map_fold (fun k v acc => omax (f k v) acc) None m.

(** ORDER BY a timestamp, then an id. *)
Definition stampLe (a b : Z * string) : bool :=
  (a.1 <? b.1) || (a.1 =? b.1) && String.leb a.2 b.2.
Definition orderBy {A} (key : A -> Z * string) (l : list A) : list A :=
  sortBy (fun a b => stampLe (key a) (key b)) l.

(** ** Rows *)

Definition newInvocationRow (input : InvokeInput) (machine fence : string) (generation : Z)
    (status : InvocationStatus) (terminal : option Z) : InvocationRow := {|
  iv_conversation := in_ConversationID input;
  iv_from := in_FromEndpoint input;
  iv_target := in_TargetEndpoint input;
  iv_machine := machine;
  iv_fence := fence;
  iv_status := status;
  iv_attempts := 0;
  iv_not_before := ms (in_Now input);
  iv_lease_machine := None;
  iv_lease_consumer := None;
  iv_lease_token := None;
  iv_lease_generation := 0;
  iv_recovery_only := false;
  iv_generation := generation;
  iv_lease_until := None;
  iv_last_activity := ms (in_Now input);
  iv_terminal_at := terminal;
  iv_created_at := ms (in_Now input)
|}.

(** SET status=?, attempts=?, not_before=?, terminal_at=?, lease columns=NULL *)
Definition endLease (status : InvocationStatus) (notBefore : Z) (terminal : option Z)
    (iv : InvocationRow) : InvocationRow := {|
  iv_conversation := iv_conversation iv;
  iv_from := iv_from iv;
  iv_target := iv_target iv;
  iv_machine := iv_machine iv;
  iv_fence := iv_fence iv;
  iv_status := status;
  iv_attempts := iv_attempts iv;
  iv_not_before := notBefore;
  iv_lease_machine := None;
  iv_lease_consumer := None;
  iv_lease_token := None;
  iv_lease_generation := iv_lease_generation iv;
  iv_recovery_only := iv_recovery_only iv;
  iv_generation := iv_generation iv;
  iv_lease_until := None;
  iv_last_activity := iv_last_activity iv;
  iv_terminal_at := terminal;
  iv_created_at := iv_created_at iv
|}.

(** SET status=?, terminal_at=?, lease columns=NULL *)
Definition finishRow (status : InvocationStatus) (now : Z) (iv : InvocationRow) : InvocationRow :=
  endLease status (iv_not_before iv) (Some (ms now)) iv.

(** SET status=?, terminal_at=? *)
Definition closeInvocationRow (status : InvocationStatus) (now : Z) (iv : InvocationRow)
    : InvocationRow := {|
  iv_conversation := iv_conversation iv;
  iv_from := iv_from iv;
  iv_target := iv_target iv;
  iv_machine := iv_machine iv;
  iv_fence := iv_fence iv;
  iv_status := status;
  iv_attempts := iv_attempts iv;
  iv_not_before := iv_not_before iv;
  iv_lease_machine := iv_lease_machine iv;
  iv_lease_consumer := iv_lease_consumer iv;
  iv_lease_token := iv_lease_token iv;
  iv_lease_generation := iv_lease_generation iv;
  iv_recovery_only := iv_recovery_only iv;
  iv_generation := iv_generation iv;
  iv_lease_until := iv_lease_until iv;
  iv_last_activity := iv_last_activity iv;
  iv_terminal_at := Some (ms now);
  iv_created_at := iv_created_at iv
|}.

(** The lease UPDATE; a fresh lease also writes attempts, activity, recovery. *)
Definition leaseInvocationRow (fresh : bool) (attempts : Z) (recovery : bool)
    (machineID consumerID token : string) (generation until now : Z) (iv : InvocationRow)
    : InvocationRow := {|
  iv_conversation := iv_conversation iv;
  iv_from := iv_from iv;
  iv_target := iv_target iv;
  iv_machine := iv_machine iv;
  iv_fence := iv_fence iv;
  iv_status := iv_status iv;
  iv_attempts := if fresh then attempts else iv_attempts iv;
  iv_not_before := iv_not_before iv;
  iv_lease_machine := Some machineID;
  iv_lease_consumer := Some consumerID;
  iv_lease_token := Some token;
  iv_lease_generation := generation;
  iv_recovery_only := if fresh then recovery else iv_recovery_only iv;
  iv_generation := iv_generation iv;
  iv_lease_until := Some until;
  iv_last_activity := if fresh then ms now else iv_last_activity iv;
  iv_terminal_at := iv_terminal_at iv;
  iv_created_at := iv_created_at iv
|}.

(** ** Helpers *)

Definition ensureInvocationSchema : M unit := put_db (set_invocation_schema true).
Definition invocationSchemaExists : M bool := query db_invocation_schema.

Definition recordInvocationAudit (id : string) (action : InvocationAction) (now : Z) : M unit :=
  ordinal ← query (fun d =>
    default 0 (mmax (fun k _ => if bool_decide (k.1 = id) then Some k.2 else None)
      (db_invocation_audit d)) + 1);
  sql_insert t_invocation_audit (id, ordinal) (action, ms now).

Definition updateInvocation (id : string) (f : InvocationRow -> InvocationRow)
    (action : InvocationAction) (now : Z) : M unit :=
  _ ← sql_update t_invocations id (fun _ => true) f;
  recordInvocationAudit id action now.

(** SELECT id ...; then the same UPDATE and audit record for each id. *)
Definition closeWhere (p : Db -> string -> InvocationRow -> bool)
    (f : InvocationRow -> InvocationRow) (action : InvocationAction) (now : Z) : M unit :=
  ids ← query (fun d => select_keys (p d) (db_invocations d));
  for_each ids (fun id => updateInvocation id f action now).

Definition invocationByID (id : string) : M Invocation :=
  iv ← query_or ErrForbidden (fun d => db_invocations d !! id);
  mret {| i_ID := id; i_ConversationID := iv_conversation iv; i_TargetEndpoint := iv_target iv;
          i_TargetMachineID := iv_machine iv; i_Fence := iv_fence iv; i_Status := iv_status iv;
          i_LeaseToken := ""; i_LeaseGeneration := 0; i_LeaseUntil := Time.zero;
          i_RecoveryOnly := false |}.

(** DELETE FROM invocations WHERE terminal_at < cutoff, with ON DELETE CASCADE
    on the idempotency and audit rows. *)
Definition pruneExpiredTerminalInvocations (now : Z) : M unit :=
  let cutoff := ms (Time.Add now (- invocationTerminalRetention)) in
  sql_delete_where t_invocations (fun _ iv =>
    match iv_terminal_at iv with Some t => t <? cutoff | None => false end);;
  d ← query (fun d => d);
  sql_delete_where t_invocation_idempotency (fun _ v => negb (has (db_invocations d) v.2));;
  sql_delete_where t_invocation_audit (fun k _ => negb (has (db_invocations d) k.1)).

Definition leaseLapsed (iv : InvocationRow) (now : Z) : bool :=
  match iv_lease_until iv with None => true | Some until => until <=? ms now end.

Definition isPendingInvocation (iv : InvocationRow) : bool :=
  bool_decide (iv_status iv = InvocationPending).

Definition expireAbandonedInvocations (targetEndpoint : string) (now : Z) : M unit :=
  closeWhere (fun _ _ iv => bool_decide (iv_target iv = targetEndpoint) && isPendingInvocation iv &&
      ((if 0 <? iv_last_activity iv then iv_last_activity iv else iv_created_at iv) <?
       ms (Time.Add now (- invocationPendingRetention))) && leaseLapsed iv now)
    (finishRow InvocationFailed now) ActFailed now.

Definition failRevokedInvocations (conversationID targetEndpoint : string) (now : Z) : M unit :=
  exists_ ← invocationSchemaExists;
  if exists_ : bool then
    closeWhere (fun _ _ iv => bool_decide (iv_conversation iv = conversationID) &&
        bool_decide (iv_target iv = targetEndpoint) && isPendingInvocation iv)
      (finishRow InvocationFailed now) ActFailed now
  else mret tt.

Definition expireAbandonedLeasedInvocations (machineID : string) (now : Z) : M unit :=
  closeWhere (fun _ _ iv => bool_decide (iv_machine iv = machineID) && isPendingInvocation iv &&
      (0 <? iv_lease_generation iv) &&
      (iv_last_activity iv <? ms (Time.Add now (- invocationPendingRetention))) && leaseLapsed iv now)
    (finishRow InvocationFailed now) ActFailed now.

Definition invocationForCaller (invocation : Invocation) (input : InvokeInput) : Invocation :=
  if bool_decide (i_ConversationID invocation = in_ConversationID input) then invocation
  else {| i_ID := ""; i_ConversationID := in_ConversationID input;
          i_TargetEndpoint := in_TargetEndpoint input; i_TargetMachineID := ""; i_Fence := "";
          i_Status := i_Status invocation; i_LeaseToken := ""; i_LeaseGeneration := 0;
          i_LeaseUntil := Time.zero; i_RecoveryOnly := false |}.

(** [2*time.Second << (attempt-1)]: a negative shift count panics. *)
Definition invocationBackoff (attempt : Z) : M Z :=
  if attempt - 1 <? 0 then throw ErrPanic
  else
    let backoff := wrap64 (Z.shiftl (2 * Time.Second) (attempt - 1)) in
    mret (if maxInvocationBackoff <? backoff then maxInvocationBackoff else backoff).

(** ** Requests *)

Definition hasPendingWork (d : Db) (target conversationID : string) : bool :=
  mexists (fun _ dl => match pendingAt d target dl with
    | Some m => bool_decide (ms_conversation m = conversationID)
    | None => false
    end) (db_deliveries d).

Definition requireCapability (conversationID endpoint : string) (cap : Z) : M unit :=
  c ← query_or ErrForbidden (fun d => db_memberships d !! (conversationID, endpoint));
  reject_if (negb (hasCap c cap)) ErrForbidden.

(** An open start authority for the endpoint, its machine and its generation. *)
Definition openFence (target machine : string) (generation now : Z) (iv : InvocationRow) : bool :=
  bool_decide (iv_target iv = target) && bool_decide (iv_machine iv = machine) &&
  (iv_generation iv =? generation) &&
  (isPendingInvocation iv ||
   bool_decide (iv_status iv = InvocationSucceeded) && (ms now <? iv_not_before iv)).

Definition oldestFence (d : Db) (target machine : string) (generation now : Z) : option string :=
  head ((orderBy (fun kv => (iv_created_at kv.2, kv.1))
    (filter (fun kv => openFence target machine generation now kv.2 = true)
      (map_to_list (db_invocations d)))).*1).

Section Requests.
Context `{Env}.

Definition queueInvocation (input : InvokeInput) (requestHash machine : string) (generation : Z)
    (status : InvocationStatus) (terminal : option Z) (action : InvocationAction) : M Invocation :=
  id ← newUUID;
  fence ← newUUID;
  sql_insert t_invocations id (newInvocationRow input machine fence generation status terminal);;
  sql_insert t_invocation_idempotency (in_SenderMachineID input, in_IdempotencyKey input)
    (requestHash, id);;
  recordInvocationAudit id action (in_Now input);;
  mret {| i_ID := id; i_ConversationID := in_ConversationID input;
          i_TargetEndpoint := in_TargetEndpoint input; i_TargetMachineID := machine;
          i_Fence := fence; i_Status := status; i_LeaseToken := ""; i_LeaseGeneration := 0;
          i_LeaseUntil := Time.zero; i_RecoveryOnly := false |}.

Definition requestInvocationWithSchema (input : InvokeInput) (requestHash : string)
    : M (Invocation * bool) :=
  transact (
    endpointOwnedBy (in_FromEndpoint input) (in_SenderMachineID input) (in_Now input);;
    requireCapability (in_ConversationID input) (in_FromEndpoint input) CapInvoke;;
    pruneExpiredTerminalInvocations (in_Now input);;
    existing ← query (fun d => db_invocation_idempotency d !!
      (in_SenderMachineID input, in_IdempotencyKey input));
    match existing with
    | Some (hash, id) =>
        reject_if (negb (bool_decide (hash = requestHash))) ErrConflict;;
        invocation ← invocationByID id;
        mret (invocationForCaller invocation input, true)
    | None =>
        requireCapability (in_ConversationID input) (in_TargetEndpoint input) CapReceive;;
        target ← query_or ErrForbidden (fun d => db_endpoints d !! in_TargetEndpoint input);
        expireAbandonedInvocations (in_TargetEndpoint input) (in_Now input);;
        pending ← query (fun d => hasPendingWork d (in_TargetEndpoint input) (in_ConversationID input));
        reject_if (negb pending) ErrConflict;;
        if ms (in_Now input) <? ep_lease_until target then
          invocation ← queueInvocation input requestHash (ep_machine target) (ep_generation target)
            InvocationAlreadyRunning (Some (ms (in_Now input))) ActAlreadyRunning;
          mret (invocation, false)
        else
          open ← query (fun d => oldestFence d (in_TargetEndpoint input) (ep_machine target)
            (ep_generation target) (in_Now input));
          match open with
          | Some id =>
              invocation ← invocationByID id;
              sql_insert t_invocation_idempotency
                (in_SenderMachineID input, in_IdempotencyKey input) (requestHash, id);;
              recordInvocationAudit id ActCoalesced (in_Now input);;
              mret (invocationForCaller invocation input, true)
          | None =>
              invocation ← queueInvocation input requestHash (ep_machine target)
                (ep_generation target) InvocationPending None ActRequested;
              mret (invocation, false)
          end
    end).

Definition RequestInvocation (input : InvokeInput) : M (Invocation * bool) :=
  reject_if (bool_decide (TrimSpace (in_ConversationID input) = "") ||
    negb (ValidMachineID (in_SenderMachineID input)) || negb (ValidEndpoint (in_FromEndpoint input)) ||
    negb (ValidEndpoint (in_TargetEndpoint input)) ||
    negb (ValidRequestToken (in_IdempotencyKey input))) (ErrInvalid "invocation request");;
  AssertEndpointOwnership (in_SenderMachineID input) (in_FromEndpoint input) (in_Now input);;
  requireCapability (in_ConversationID input) (in_FromEndpoint input) CapInvoke;;
  requireCapability (in_ConversationID input) (in_TargetEndpoint input) CapReceive;;
  let requestHash := stableHash
    [in_ConversationID input; in_FromEndpoint input; in_TargetEndpoint input] in
  schema ← invocationSchemaExists;
  if schema : bool then
    ensureInvocationSchema;;
    requestInvocationWithSchema input requestHash
  else
    pending ← query (fun d => hasPendingWork d (in_TargetEndpoint input) (in_ConversationID input));
    reject_if (negb pending) ErrConflict;;
    ensureInvocationSchema;;
    requestInvocationWithSchema input requestHash.

(** ** Leases *)

(** lease_machine_id IS NULL OR lease_until <= now *)
Definition unleased (iv : InvocationRow) (now : Z) : bool :=
  match iv_lease_machine iv with
  | None => true
  | Some _ => match iv_lease_until iv with Some until => until <=? ms now | None => false end
  end.

Definition candidate (machineID : string) (iv : InvocationRow) (now : Z) : bool :=
  bool_decide (iv_machine iv = machineID) && isPendingInvocation iv && unleased iv now.

Definition ownerChanged (d : Db) (iv : InvocationRow) (now : Z) : bool :=
  match db_endpoints d !! iv_target iv with
  | None => true
  | Some e => negb (bool_decide (ep_machine e = iv_machine iv)) ||
      negb (ep_generation e =? iv_generation iv) && (ep_lease_until e <=? ms now)
  end.

Definition noPendingDelivery (d : Db) (iv : InvocationRow) : bool :=
  negb (mexists (fun _ dl => bool_decide (dl_recipient dl = iv_target iv) && isPending dl)
    (db_deliveries d)).

Definition targetOnline (d : Db) (iv : InvocationRow) (now : Z) : bool :=
  match db_endpoints d !! iv_target iv with
  | Some e => bool_decide (ep_machine e = iv_machine iv) && (ms now <? ep_lease_until e)
  | None => false
  end.

Definition heldBy (machineID consumerID : string) (iv : InvocationRow) : bool :=
  bool_decide (iv_lease_machine iv = Some machineID) &&
  bool_decide (iv_lease_consumer iv = Some consumerID).

Definition leasable (d : Db) (machineID consumerID : string) (now : Z) (iv : InvocationRow) : bool :=
  match db_endpoints d !! iv_target iv with
  | Some e =>
      bool_decide (ep_machine e = iv_machine iv) &&
      bool_decide (iv_machine iv = machineID) && isPendingInvocation iv &&
      (iv_not_before iv <=? ms now) &&
      (leaseLapsed iv now || heldBy machineID consumerID iv) &&
      ((ep_generation e =? iv_generation iv) ||
       heldBy machineID consumerID iv && negb (leaseLapsed iv now))
  | None => false
  end.

Definition leaseOne (machineID consumerID : string) (now ttl : Z)
    (kv : string * InvocationRow) : M Invocation :=
  let '(id, iv) := kv in
  let fresh := leaseLapsed iv now in
  let exhausted := maxInvocationAttempts <=? iv_attempts iv in
  let recovery := if fresh && exhausted then true else iv_recovery_only iv in
  let attempts := if fresh && negb exhausted then iv_attempts iv + 1 else iv_attempts iv in
  token ← randomToken;
  let generation := iv_lease_generation iv + 1 in
  let until := Time.Add now ttl in
  _ ← sql_update t_invocations id (fun _ => true)
    (leaseInvocationRow fresh attempts recovery machineID consumerID token generation (ms until) now);
  (if fresh then recordInvocationAudit id ActLeased now else mret tt);;
  mret {| i_ID := id; i_ConversationID := iv_conversation iv; i_TargetEndpoint := iv_target iv;
          i_TargetMachineID := iv_machine iv; i_Fence := iv_fence iv;
          i_Status := InvocationPending; i_LeaseToken := token; i_LeaseGeneration := generation;
          i_LeaseUntil := until; i_RecoveryOnly := recovery |}.

Definition LeaseInvocations (machineID consumerID : string) (now ttl limit : Z)
    : M (list Invocation) :=
  schema ← invocationSchemaExists;
  if negb schema then mret [] else
  ensureInvocationSchema;;
  reject_if (negb (ValidMachineID machineID) || negb (ValidRequestToken consumerID) ||
    (ttl <=? 0) || (limit <? 1) || (100 <? limit)) (ErrInvalid "invocation lease request");;
  transact (
    expireAbandonedLeasedInvocations machineID now;;
    closeWhere (fun d _ iv => candidate machineID iv now && ownerChanged d iv now)
      (finishRow InvocationFailed now) ActFailed now;;
    closeWhere (fun d _ iv => candidate machineID iv now && noPendingDelivery d iv)
      (closeInvocationRow InvocationFailed now) ActFailed now;;
    closeWhere (fun d _ iv => candidate machineID iv now && targetOnline d iv now)
      (finishRow InvocationAlreadyRunning now) ActAlreadyRunning now;;
    rows ← query (fun d => take (Z.to_nat limit)
      (orderBy (fun kv => (iv_created_at kv.2, kv.1))
        (filter (fun kv => leasable d machineID consumerID now kv.2 = true)
          (map_to_list (db_invocations d)))));
    collect rows (leaseOne machineID consumerID now ttl)).
End Requests.

(** ** Outcomes *)

(** The fence of [ReportInvocation] and [RejectInvocation]. *)
Definition holdsLease (iv : InvocationRow) (machineID token : string) (generation now : Z) : bool :=
  isPendingInvocation iv && bool_decide (iv_lease_machine iv = Some machineID) &&
  bool_decide (iv_lease_token iv = Some token) && (iv_lease_generation iv =? generation) &&
  match iv_lease_until iv with Some until => ms now <? until | None => false end.

Definition validOutcome (machineID invocationID token : string) (generation : Z) : bool :=
  ValidMachineID machineID && negb (bool_decide (TrimSpace invocationID = "")) &&
  ValidRequestToken token && (1 <=? generation).

Definition ReportInvocation (machineID invocationID token : string) (generation : Z)
    (accepted : bool) (now : Z) : M unit :=
  reject_if (negb (validOutcome machineID invocationID token generation)) ErrForbidden;;
  schema ← invocationSchemaExists;
  reject_if (negb schema) ErrForbidden;;
  transact (
    iv ← query_or ErrForbidden (fun d => db_invocations d !! invocationID);
    reject_if (negb (holdsLease iv machineID token generation now)) ErrForbidden;;
    if accepted then
      updateInvocation invocationID
        (endLease InvocationSucceeded (ms (Time.Add now maxInvocationBackoff)) (Some (ms now)))
        ActAccepted now
    else if maxInvocationAttempts <=? iv_attempts iv then
      updateInvocation invocationID (endLease InvocationFailed (ms now) (Some (ms now))) ActFailed now
    else
      backoff ← invocationBackoff (iv_attempts iv);
      updateInvocation invocationID (endLease InvocationPending (ms (Time.Add now backoff)) None)
        ActRetry now).

Definition RejectInvocation (machineID invocationID token : string) (generation now : Z) : M unit :=
  reject_if (negb (validOutcome machineID invocationID token generation)) ErrForbidden;;
  schema ← invocationSchemaExists;
  reject_if (negb schema) ErrForbidden;;
  ensureInvocationSchema;;
  transact (
    iv ← query_or ErrForbidden (fun d => db_invocations d !! invocationID);
    reject_if (negb (holdsLease iv machineID token generation now)) ErrForbidden;;
    updateInvocation invocationID (finishRow InvocationFailed now) ActFailed now).

Definition InvocationAudit (invocationID : string) : M (list (InvocationAction * Z)) :=
  schema ← invocationSchemaExists;
  if negb schema then mret [] else
  ensureInvocationSchema;;
  query (fun d => (fun kv => (kv.2.1, Time.fromMillis kv.2.2)) <$>
    sortBy (fun a b => a.1.2 <=? b.1.2)
      (filter (fun kv => kv.1.1 = invocationID) (map_to_list (db_invocation_audit d)))).
