(* ===== verification/Rooms.v ===== *)
(** * Rooms: conversations, memberships, exclusive occupancy and controls

    [createConversation], [ApplyControl], [ControlAudit],
    [SetConversationDisplayName], [PrepareTelegramAdopt] and the occupancy
    fence: a session other than the gateway occupies at most one named or
    claimed room. *)

From stdpp Require Import pretty.
From S2P Require Import Prelude GoTime RateLimit Quota Text Sha256 Tables Tx Sessions Pending.
From S2P Require Import Invocations.
Open Scope Z_scope.

(** [fmt.Sprintf("%d", n)] of a capability set. *)
Definition itoa (n : Z) : string := pretty n.

Record Conversation := { c_ID : string; c_DisplayName : string }.

Record Member := {
  m_Endpoint : string;
  m_Role : string;
  m_RoleMachineID : string;
  m_Capabilities : Z;
}.

Definition CapAll : Z := Z.lor (Z.lor CapSend CapReceive) (Z.lor CapAdmin CapInvoke).

Definition validCapabilities (capabilities : Z) : bool :=
  negb (capabilities =? 0) && (Z.ldiff capabilities CapAll =? 0).

Definition nullableDisplayName (value : string) : option string :=
  if bool_decide (value = "") then None else Some value.

(** COALESCE(display_name, '') *)
Definition displayName (c : ConversationRow) : string := default "" (cv_display_name c).

Definition conversationByID (id : string) : M Conversation :=
  c ← query_or ErrNoRows (fun d => db_conversations d !! id);
  mret {| c_ID := id; c_DisplayName := displayName c |}.

(** ** Occupancy *)

Definition exclusiveRow (d : Db) (id : string) (c : ConversationRow) : bool :=
  negb (bool_decide (displayName c = "")) || has (db_telegram_claims d) id.

Definition conversationIsExclusive (conversationID : string) : M bool :=
  c ← query_or ErrForbidden (fun d => db_conversations d !! conversationID);
  query (fun d => exclusiveRow d conversationID c).

(** The binding is live: its own lease, and the attachment generation it was
    made under still owned by the same machine. *)
Definition liveBinding (d : Db) (b : BindingRow) (now : Z) : bool :=
  (ms now <? bd_lease_until b) &&
  match db_endpoints d !! bd_session b with
  | Some e => bool_decide (ep_machine e = bd_machine b) && (ep_generation e =? bd_generation b) &&
      (ms now <? ep_lease_until e)
  | None => false
  end.

(** [session] receives through a live binding of one of the room's roles that
    satisfies [p]. *)
Definition boundOccupant (d : Db) (p : string -> bool) (session id : string) (now : Z) : bool :=
  mexists (fun k _ => bool_decide (k.1 = id) && p k.2 &&
    match db_role_bindings d !! k.2 with
    | Some b => bool_decide (bd_session b = session) && liveBinding d b now
    | None => false
    end) (db_role_memberships d).

Definition occupies (d : Db) (session id : string) (now : Z) : bool :=
  has (db_memberships d) (id, session) || boundOccupant d (fun _ => true) session id now.

Definition occupiesOther (d : Db) (session exclude : string) (now : Z) : bool :=
  mexists (fun id c => negb (bool_decide (id = exclude)) && exclusiveRow d id c &&
    occupies d session id now) (db_conversations d).

Definition sessionOccupiesOtherExclusiveConversation (endpoint exclude : string) (now : Z) : M unit :=
  if bool_decide (endpoint = TelegramPrimaryEndpoint) then mret tt
  else
    occupied ← query (fun d => occupiesOther d endpoint exclude now);
    reject_if occupied ErrConflict.

Definition liveSession (d : Db) (now : Z) (role : string) : option string :=
  match db_role_bindings d !! role with
  | Some b => if liveBinding d b now then Some (bd_session b) else None
  | None => None
  end.

Definition rejectExclusiveCreateOccupancy (endpoints roles : list string) (now : Z) : M unit :=
  sessions ← query (fun d => endpoints ++ omap (liveSession d now) roles);
  for_each sessions (fun session => sessionOccupiesOtherExclusiveConversation session "" now).

(** The endpoints a room holds, and the sessions its roles are live in. *)
Definition occupants (d : Db) (id : string) (now : Z) : list string :=
  remove_dups (
    (snd <$> select_keys (fun k (_ : Z) => bool_decide (k.1 = id)) (db_memberships d)) ++
    omap (liveSession d now)
      (snd <$> select_keys (fun k (_ : Z) => bool_decide (k.1 = id)) (db_role_memberships d))).

Definition rejectExclusiveOccupants (conversationID : string) (now : Z) : M unit :=
  endpoints ← query (fun d => occupants d conversationID now);
  for_each endpoints (fun endpoint =>
    sessionOccupiesOtherExclusiveConversation endpoint conversationID now).

Definition rejectExclusiveClaimOccupancy := rejectExclusiveOccupants.
Definition rejectExclusiveRenameOccupancy := rejectExclusiveOccupants.

(** COUNT over the UNION of the three room sets. *)
Definition bindRooms (d : Db) (session role : string) (now : Z) : Z :=
  mcount (fun id c => exclusiveRow d id c &&
    (has (db_memberships d) (id, session) ||
     boundOccupant d (fun r => negb (bool_decide (r = role))) session id now ||
     has (db_role_memberships d) (id, role))) (db_conversations d).

Definition rejectExclusiveBindOccupancy (sessionEndpoint role : string) (now : Z) : M unit :=
  if bool_decide (sessionEndpoint = TelegramPrimaryEndpoint) then mret tt
  else
    count ← query (fun d => bindRooms d sessionEndpoint role now);
    reject_if (1 <? count) ErrConflict.

Definition TelegramGatewayCapabilities : Z := Z.lor CapSend CapReceive.

Definition ensureTelegramGatewayMembership (conversationID : string) : M unit :=
  previous ← query (fun d => db_memberships d !! (conversationID, TelegramGatewayEndpoint));
  match previous with
  | None =>
      sql_insert t_memberships (conversationID, TelegramGatewayEndpoint) TelegramGatewayCapabilities;;
      advanceRecipientCursor TelegramGatewayEndpoint conversationID
  | Some previous =>
      (if negb (previous =? TelegramGatewayCapabilities) then
         _ ← sql_update t_memberships (conversationID, TelegramGatewayEndpoint) (fun _ => true)
           (fun _ => TelegramGatewayCapabilities);
         mret tt
       else mret tt);;
      if negb (hasCap previous CapReceive)
      then advanceRecipientCursor TelegramGatewayEndpoint conversationID else mret tt
  end.

(** ** Request digests *)

Definition memberIdentity (member : Member) : string :=
  if bool_decide (m_Role member = "") then "endpoint:" +:+ m_Endpoint member
  else roleRecipient (m_Role member).

Definition memberLe (key : Member -> string) (a b : Member) : bool :=
  if bool_decide (key a = key b) then m_Capabilities a <=? m_Capabilities b
  else stringLt (key a) (key b).

Definition createConversationHash (creatorEndpoint : string) (members : list Member) : string :=
  if existsb (fun m => negb (bool_decide (m_Role m = ""))) members then
    stableHash (creatorEndpoint :: mjoin ((fun m =>
      [memberIdentity m; m_RoleMachineID m; itoa (m_Capabilities m)]) <$>
        sortBy (memberLe memberIdentity) members))
  else
    stableHash (creatorEndpoint :: mjoin ((fun m => [m_Endpoint m; itoa (m_Capabilities m)]) <$>
        sortBy (memberLe m_Endpoint) members)).

Definition CreateConversationRequestHash (creatorEndpoint : string) (members : list Member)
    (displayName projectID : string) : string :=
  let digest := createConversationHash creatorEndpoint members in
  let digest := if bool_decide (displayName = "") then digest else stableHash [digest; displayName] in
  if bool_decide (projectID = "") then digest else stableHash [digest; projectID].

Definition DisplayNameRequestHash (conversationID actorEndpoint displayName : string) : string :=
  stableHash [conversationID; actorEndpoint; displayName].

(** ** Creating a room *)

Record CreateConversationInput := {
  cc_MachineID : string;
  cc_ProjectID : string;
  cc_IdempotencyKey : string;
  cc_CreatorEndpoint : string;
  cc_DisplayName : string;
  cc_Members : list Member;
  cc_Now : Z;
}.

Definition creatorGrant : Z := Z.lor (Z.lor CapSend CapReceive) CapAdmin.

(** The validation loop: the endpoints and roles seen, and whether the creator
    granted itself send, receive and admin. *)
Fixpoint checkMembers (creator : string) (members : list Member)
    (endpoints roles : list string) (admin : bool) : option (list string * list string * bool) :=
  match members with
  | [] => Some (endpoints, roles, admin)
  | m :: members =>
      if negb (validCapabilities (m_Capabilities m)) then None
      else if negb (bool_decide (m_Endpoint m = "")) && bool_decide (m_Role m = "") &&
              bool_decide (m_RoleMachineID m = "") then
        if negb (ValidEndpoint (m_Endpoint m)) || ReservedRelayMember (m_Endpoint m) ||
           bool_decide (m_Endpoint m ∈ endpoints) then None
        else checkMembers creator members (m_Endpoint m :: endpoints) roles
          (admin || bool_decide (m_Endpoint m = creator) &&
             (Z.land (m_Capabilities m) creatorGrant =? creatorGrant))
      else if bool_decide (m_Endpoint m = "") && ValidRole (m_Role m) &&
              negb (bool_decide (m_Role m = TelegramUserParticipant)) &&
              ValidMachineID (m_RoleMachineID m) then
        if hasCap (m_Capabilities m) CapInvoke || bool_decide (m_Role m ∈ roles) then None
        else checkMembers creator members endpoints (m_Role m :: roles) admin
      else None
  end.

Definition ensureRole (m : Member) : M unit :=
  if bool_decide (m_Role m = "") then mret tt
  else
    owner ← query (fun d => db_roles d !! m_Role m);
    match owner with
    | None => sql_insert t_roles (m_Role m) (m_RoleMachineID m)
    | Some owner => reject_if (negb (bool_decide (owner = m_RoleMachineID m))) ErrForbidden
    end.

Definition addMember (conversationID : string) (m : Member) : M unit :=
  if negb (bool_decide (m_Endpoint m = "")) then
    sql_insert t_memberships (conversationID, m_Endpoint m) (m_Capabilities m)
  else sql_insert t_role_memberships (conversationID, m_Role m) (m_Capabilities m).

Definition newConversationRow (now : Z) (displayName : option string) : ConversationRow :=
  {| cv_next_sequence := 0; cv_created_at := ms now; cv_display_name := displayName |}.

Section Rooms.
Context `{Env}.

Definition insertConversation (input : CreateConversationInput) (displayName : string)
    (endpoints roles : list string) : M Conversation :=
  let now := cc_Now input in
  for_each endpoints (fun endpoint => endpointActive endpoint now);;
  (if bool_decide (displayName = "") then mret tt
   else rejectExclusiveCreateOccupancy endpoints roles now);;
  for_each (cc_Members input) ensureRole;;
  id ← newUUID;
  sql_insert t_conversations id (newConversationRow now (nullableDisplayName displayName));;
  for_each (cc_Members input) (addMember id);;
  (if bool_decide (cc_MachineID input = "") then mret tt
   else sql_insert t_conversation_idempotency (cc_MachineID input, cc_IdempotencyKey input)
     {| id_hash := CreateConversationRequestHash (cc_CreatorEndpoint input) (cc_Members input)
          displayName "";
        id_target := id; id_created_at := ms now |});;
  mret {| c_ID := id; c_DisplayName := displayName |}.

Definition createConversation (input : CreateConversationInput) : M Conversation :=
  match SanitizeConversationDisplayName (cc_DisplayName input) with
  | None => throw (ErrInvalid "conversation display name")
  | Some displayName =>
      reject_if (negb (ValidEndpoint (cc_CreatorEndpoint input)) ||
        Nat.eqb (length (cc_Members input)) 0 || Nat.ltb 256 (length (cc_Members input)))
        (ErrInvalid "creator and members");;
      match checkMembers (cc_CreatorEndpoint input) (cc_Members input) [] [] false with
      | None => throw (ErrInvalid "conversation member")
      | Some (endpoints, roles, creatorAdmin) =>
          reject_if (negb creatorAdmin) ErrForbidden;;
          transact (
            if bool_decide (cc_MachineID input = "") then
              insertConversation input displayName endpoints roles
            else
              endpointOwnedBy (cc_CreatorEndpoint input) (cc_MachineID input) (cc_Now input);;
              existing ← query (fun d => db_conversation_idempotency d !!
                (cc_MachineID input, cc_IdempotencyKey input));
              match existing with
              | Some row =>
                  reject_if (negb (bool_decide (id_hash row = CreateConversationRequestHash
                    (cc_CreatorEndpoint input) (cc_Members input) displayName ""))) ErrConflict;;
                  conversationByID (id_target row)
              | None => insertConversation input displayName endpoints roles
              end)
      end
  end.

Definition CreateConversation (creatorEndpoint : string) (members : list Member) (now : Z)
    : M Conversation :=
  createConversation {| cc_MachineID := ""; cc_ProjectID := ""; cc_IdempotencyKey := "";
    cc_CreatorEndpoint := creatorEndpoint; cc_DisplayName := ""; cc_Members := members;
    cc_Now := now |}.

Definition CreateConversationIdempotent (input : CreateConversationInput) : M Conversation :=
  reject_if (negb (ValidMachineID (cc_MachineID input)) ||
    negb (ValidRequestToken (cc_IdempotencyKey input)) ||
    negb (bool_decide (cc_ProjectID input = ""))) (ErrInvalid "machine and idempotency key");;
  createConversation input.
End Rooms.

(** ** Membership controls *)

Record ControlInput := {
  ci_ConversationID : string;
  ci_ActorMachineID : string;
  ci_ActorEndpoint : string;
  ci_Operation : string;
  ci_Member : Member;
  ci_IdempotencyKey : string;
  ci_Now : Z;
}.

Record ControlEvent := {
  e_ID : string;
  e_ConversationID : string;
  e_ActorEndpoint : string;
  e_Operation : ControlOperation;
  e_Member : Member;
  e_CreatedAt : Z;
}.

(** [validControlOperation]: the two operation names. *)
Definition controlOperation (operation : string) : option ControlOperation :=
  if bool_decide (operation = "upsert_member") then Some ControlUpsertMember
  else if bool_decide (operation = "remove_member") then Some ControlRemoveMember
  else None.

Definition controlHash (input : ControlInput) : string :=
  stableHash [ci_ConversationID input; ci_ActorEndpoint input; ci_Operation input;
    m_Endpoint (ci_Member input); itoa (m_Capabilities (ci_Member input))].

Definition eventOf (id : string) (r : ControlRow) : ControlEvent := {|
  e_ID := id; e_ConversationID := ct_conversation r; e_ActorEndpoint := ct_actor r;
  e_Operation := ct_operation r;
  e_Member := {| m_Endpoint := ct_member r; m_Role := ""; m_RoleMachineID := "";
                 m_Capabilities := ct_capabilities r |};
  e_CreatedAt := Time.fromMillis (ct_created_at r)
|}.

Definition controlEventByID (id : string) : M ControlEvent :=
  r ← query_or ErrNoRows (fun d => db_conversation_controls d !! id);
  mret (eventOf id r).

Definition memberCount (d : Db) (id : string) : Z :=
  mcount (fun k _ => bool_decide (k.1 = id)) (db_memberships d) +
  mcount (fun k _ => bool_decide (k.1 = id)) (db_role_memberships d).

Definition remainingAdmins (d : Db) (id endpoint : string) : Z :=
  mcount (fun k c => bool_decide (k.1 = id) && hasCap c CapAdmin && negb (bool_decide (k.2 = endpoint)))
    (db_memberships d) +
  mcount (fun k c => bool_decide (k.1 = id) && hasCap c CapAdmin) (db_role_memberships d).

(** A receive right is revoked: its deliveries, cursor and start authorities. *)
Definition revokeReceive (conversationID endpoint : string) (now : Z) : M Z :=
  n ← retireRecipientDeliveries endpoint conversationID now;
  advanceRecipientCursor endpoint conversationID;;
  failRevokedInvocations conversationID endpoint now;;
  mret n.

Definition admitMember (conversationID endpoint : string) (now : Z) : M unit :=
  endpointActive endpoint now;;
  members ← query (fun d => memberCount d conversationID);
  reject_if (256 <=? members) ErrConflict;;
  exclusive ← conversationIsExclusive conversationID;
  if exclusive : bool then sessionOccupiesOtherExclusiveConversation endpoint conversationID now
  else mret tt.

Definition keepAdmin (conversationID endpoint : string) : M unit :=
  remaining ← query (fun d => remainingAdmins d conversationID endpoint);
  reject_if (remaining =? 0) ErrConflict.

Definition upsertMember (conversationID endpoint : string) (capabilities now : Z) : M Z :=
  previous ← query (fun d => db_memberships d !! (conversationID, endpoint));
  revoked ← match previous with
    | None => admitMember conversationID endpoint now;; mret 0
    | Some previous =>
        (if hasCap previous CapAdmin && negb (hasCap capabilities CapAdmin)
         then keepAdmin conversationID endpoint else mret tt);;
        if hasCap previous CapReceive && negb (hasCap capabilities CapReceive)
        then revokeReceive conversationID endpoint now else mret 0
    end;
  sql_upsert t_memberships (conversationID, endpoint) capabilities (fun _ => capabilities);;
  (if hasCap capabilities CapReceive then advanceRecipientCursor endpoint conversationID
   else mret tt);;
  mret revoked.

Definition removeMember (conversationID endpoint : string) (now : Z) : M Z :=
  target ← query_or ErrForbidden (fun d => db_memberships d !! (conversationID, endpoint));
  (if hasCap target CapAdmin then keepAdmin conversationID endpoint else mret tt);;
  revoked ← revokeReceive conversationID endpoint now;
  sql_delete_where t_memberships (fun k _ => bool_decide (k = (conversationID, endpoint)));;
  mret revoked.

(** Audit timestamps strictly increase within a room. *)
Definition controlTime (d : Db) (conversationID : string) (now : Z) : Z :=
  let createdAt := Time.TruncateMs now in
  match mmax (fun _ r => if bool_decide (ct_conversation r = conversationID)
                         then Some (ct_created_at r) else None) (db_conversation_controls d) with
  | Some latest => if ms createdAt <=? latest then Time.fromMillis (latest + 1) else createdAt
  | None => createdAt
  end.

Section Controls.
Context `{Env}.

Definition applyMutation (input : ControlInput) (op : ControlOperation) : M (ControlEvent * Z) :=
  let conversationID := ci_ConversationID input in
  let member := ci_Member input in
  let now := ci_Now input in
  revoked ← match op with
    | ControlUpsertMember => upsertMember conversationID (m_Endpoint member) (m_Capabilities member) now
    | ControlRemoveMember => removeMember conversationID (m_Endpoint member) now
    end;
  createdAt ← query (fun d => controlTime d conversationID now);
  id ← newUUID;
  sql_insert t_conversation_controls id
    {| ct_conversation := conversationID; ct_actor := ci_ActorEndpoint input; ct_operation := op;
       ct_member := m_Endpoint member; ct_capabilities := m_Capabilities member;
       ct_created_at := ms createdAt |};;
  sql_insert t_conversation_control_idempotency (ci_ActorMachineID input, ci_IdempotencyKey input)
    {| id_hash := controlHash input; id_target := id; id_created_at := ms now |};;
  mret ({| e_ID := id; e_ConversationID := conversationID; e_ActorEndpoint := ci_ActorEndpoint input;
           e_Operation := op; e_Member := member; e_CreatedAt := createdAt |}, revoked).

Definition requireAdmin (conversationID machineID endpoint : string) (now : Z) : M unit :=
  endpointOwnedBy endpoint machineID now;;
  capabilities ← sessionCapabilities conversationID machineID endpoint now;
  reject_if (negb (hasCap capabilities CapAdmin)) ErrForbidden.

Definition ApplyControl (input : ControlInput) : M (ControlEvent * bool) :=
  reject_if (bool_decide (TrimSpace (ci_ConversationID input) = "") ||
    negb (ValidMachineID (ci_ActorMachineID input)) || negb (ValidEndpoint (ci_ActorEndpoint input)) ||
    negb (ValidRequestToken (ci_IdempotencyKey input))) ErrForbidden;;
  match controlOperation (ci_Operation input) with
  | None => throw ErrForbidden
  | Some op =>
      reject_if (negb (ValidEndpoint (m_Endpoint (ci_Member input))) ||
        ReservedRelayMember (m_Endpoint (ci_Member input)) ||
        match op with
        | ControlUpsertMember => negb (validCapabilities (m_Capabilities (ci_Member input)))
        | ControlRemoveMember => negb (m_Capabilities (ci_Member input) =? 0)
        end) ErrForbidden;;
      result ← transact (
        requireAdmin (ci_ConversationID input) (ci_ActorMachineID input) (ci_ActorEndpoint input)
          (ci_Now input);;
        existing ← query (fun d => db_conversation_control_idempotency d !!
          (ci_ActorMachineID input, ci_IdempotencyKey input));
        match existing with
        | Some row =>
            reject_if (negb (bool_decide (id_hash row = controlHash input))) ErrConflict;;
            event ← controlEventByID (id_target row);
            mret (event, None)
        | None =>
            er ← applyMutation input op;
            mret (er.1, Some er.2)
        end);
      match result with
      | (event, None) => mret (event, true)
      | (event, Some revoked) =>
          observe (ObserveTerminals ClosedRevoked revoked);;
          refreshPendingMetrics (ci_Now input);;
          mret (event, false)
      end
  end.

Definition ControlAudit (conversationID machineID actorEndpoint : string) (now : Z)
    : M (list ControlEvent) :=
  transact (
    requireAdmin conversationID machineID actorEndpoint now;;
    query (fun d => take 100 ((fun kv => eventOf kv.1 kv.2) <$>
      sortBy (fun a b => stampLe (ct_created_at b.2, b.1) (ct_created_at a.2, a.1))
        (filter (fun kv => ct_conversation kv.2 = conversationID)
          (map_to_list (db_conversation_controls d)))))).
End Controls.

(** ** Renaming *)

Record SetDisplayNameInput := {
  sd_ConversationID : string;
  sd_ActorMachineID : string;
  sd_ActorEndpoint : string;
  sd_DisplayName : string;
  sd_IdempotencyKey : string;
  sd_Now : Z;
}.

Definition renameRow (name : string) (c : ConversationRow) : ConversationRow :=
  {| cv_next_sequence := cv_next_sequence c; cv_created_at := cv_created_at c;
     cv_display_name := Some name |}.

Definition setDisplayName (conversationID name : string) : M unit :=
  _ ← sql_update t_conversations conversationID (fun _ => true) (renameRow name); mret tt.

Definition SetConversationDisplayName (input : SetDisplayNameInput) : M (Conversation * bool) :=
  reject_if (bool_decide (TrimSpace (sd_ConversationID input) = "") ||
    negb (ValidMachineID (sd_ActorMachineID input)) || negb (ValidEndpoint (sd_ActorEndpoint input)) ||
    negb (ValidRequestToken (sd_IdempotencyKey input))) ErrForbidden;;
  match SanitizeConversationDisplayName (sd_DisplayName input) with
  | None => throw (ErrInvalid "conversation display name")
  | Some name =>
      reject_if (bool_decide (name = "")) (ErrInvalid "conversation display name");;
      let requestHash := DisplayNameRequestHash (sd_ConversationID input) (sd_ActorEndpoint input) name in
      transact (
        requireAdmin (sd_ConversationID input) (sd_ActorMachineID input) (sd_ActorEndpoint input)
          (sd_Now input);;
        existing ← query (fun d => db_conversation_display_name_idempotency d !!
          (sd_ActorMachineID input, sd_IdempotencyKey input));
        match existing with
        | Some row =>
            reject_if (negb (bool_decide (id_hash row = requestHash))) ErrConflict;;
            conversation ← conversationByID (id_target row);
            mret (conversation, true)
        | None =>
            conversation ← mask ErrForbidden (conversationByID (sd_ConversationID input));
            let duplicate := bool_decide (c_DisplayName conversation = name) in
            (if duplicate then mret tt
             else
               (if bool_decide (c_DisplayName conversation = "")
                then rejectExclusiveRenameOccupancy (sd_ConversationID input) (sd_Now input)
                else mret tt);;
               setDisplayName (sd_ConversationID input) name);;
            sql_insert t_conversation_display_name_idempotency
              (sd_ActorMachineID input, sd_IdempotencyKey input)
              {| id_hash := requestHash; id_target := sd_ConversationID input;
                 id_created_at := ms (sd_Now input) |};;
            mret ({| c_ID := c_ID conversation; c_DisplayName := name |}, duplicate)
        end)
  end.

(** ** Host-local adoption *)

Record AdoptPrepareInput := {
  ap_KeeperID : string;
  ap_NonKeeperID : string;
  ap_NonKeeperName : string;
  ap_Now : Z;
}.

Definition requireRoleMembership (conversationID role : string) : M unit :=
  present ← query (fun d => has (db_role_memberships d) (conversationID, role));
  reject_if (negb present) ErrConflict.

Definition rejectAdoptPrepareOccupancy (conversationID : string) (now : Z) : M unit :=
  extra ← query (fun d =>
    mcount (fun k _ => bool_decide (k.1 = conversationID) &&
      negb (bool_decide (k.2 = TelegramPrimaryEndpoint))) (db_memberships d) +
    mcount (fun k _ => bool_decide (k.1 = conversationID)) (db_role_memberships d));
  reject_if (negb (extra =? 0)) ErrConflict;;
  gateway ← query (fun d => has (db_memberships d) (conversationID, TelegramPrimaryEndpoint));
  reject_if (negb gateway) ErrConflict;;
  rejectExclusiveRenameOccupancy conversationID now.

(** [wall] is [time.Now()], used when the caller passes no time. *)
Definition PrepareTelegramAdopt (input : AdoptPrepareInput) (wall : Z) : M unit :=
  reject_if (bool_decide (TrimSpace (ap_KeeperID input) = "") ||
    bool_decide (TrimSpace (ap_NonKeeperID input) = "") ||
    bool_decide (ap_KeeperID input = ap_NonKeeperID input)) (ErrInvalid "keeper and non-keeper");;
  match SanitizeConversationDisplayName (ap_NonKeeperName input) with
  | None => throw (ErrInvalid "conversation display name")
  | Some name =>
      reject_if (bool_decide (name = "")) (ErrInvalid "conversation display name");;
      let now := if Time.IsZero (ap_Now input) then wall else ap_Now input in
      transact (
        keeper ← mask ErrForbidden (conversationByID (ap_KeeperID input));
        reject_if (bool_decide (c_DisplayName keeper = "")) (ErrInvalid "keeper is unnamed");;
        nonKeeper ← mask ErrForbidden (conversationByID (ap_NonKeeperID input));
        reject_if (negb (bool_decide (c_DisplayName nonKeeper = ""))) (ErrInvalid "non-keeper is named");;
        requireRoleMembership (c_ID keeper) TelegramCodexRole;;
        requireRoleMembership (c_ID nonKeeper) TelegramCodexRole;;
        sql_delete_where t_role_memberships
          (fun k _ => bool_decide (k = (c_ID nonKeeper, TelegramCodexRole)));;
        let recipient := roleRecipient TelegramCodexRole in
        _ ← retireRecipientDeliveries recipient (c_ID nonKeeper) now;
        advanceRecipientCursor recipient (c_ID nonKeeper);;
        rejectAdoptPrepareOccupancy (c_ID nonKeeper) now;;
        setDisplayName (c_ID nonKeeper) name)
  end.
