(* ===== verification/Claims.v ===== *)
(** * Telegram claims and session topics

    A claim reserves one named room for the Telegram gateway: [pending] until
    the gateway completes it, which materialises the gateway membership and the
    built-in participant.  [SessionTopic] reads a session's sole occupancy. *)

From S2P Require Import Prelude GoTime RateLimit Quota Text Sha256 Tables Tx Sessions Pending.
From S2P Require Import Invocations Rooms.
Open Scope Z_scope.

Record TelegramClaim := {
  tc_ConversationID : string;
  tc_Status : ClaimStatus;
  tc_DisplayName : string;
  tc_CreatedAt : Z;
  tc_CompletedAt : option Z;
}.

Record TelegramClaimInput := {
  ti_ConversationID : string;
  ti_MachineID : string;
  ti_Endpoint : string;
  ti_IdempotencyKey : string;
  ti_Now : Z;
}.

Definition telegramClaimRequestHash (conversationID : string) : string := stableHash [conversationID].

Definition claimOf (d : Db) (conversationID : string) : option TelegramClaim :=
  cl ← db_telegram_claims d !! conversationID;
  c ← db_conversations d !! conversationID;
  Some {| tc_ConversationID := conversationID; tc_Status := cl_status cl;
          tc_DisplayName := displayName c; tc_CreatedAt := Time.fromMillis (cl_created_at cl);
          tc_CompletedAt := Time.fromMillis <$> cl_completed_at cl |}.

Definition telegramClaimByConversation (conversationID : string) : M TelegramClaim :=
  query_or ErrNoRows (fun d => claimOf d conversationID).

Definition requireCompleteTelegramClaim (conversationID : string) : M unit :=
  cl ← query_or ErrForbidden (fun d => db_telegram_claims d !! conversationID);
  reject_if (negb (bool_decide (cl_status cl = ClaimComplete))) ErrForbidden.

Definition bindTelegramClaimIdempotency (machineID key conversationID requestHash : string)
    (now : Z) : M unit :=
  bound ← query (fun d => db_telegram_claim_idempotency d !! (machineID, key));
  match bound with
  | Some row => reject_if (negb (bool_decide (id_target row = conversationID)) ||
      negb (bool_decide (id_hash row = requestHash))) ErrConflict
  | None => sql_insert t_telegram_claim_idempotency (machineID, key)
      {| id_hash := requestHash; id_target := conversationID; id_created_at := ms now |}
  end.

Definition pendingClaimRow (input : TelegramClaimInput) (requestHash : string) (createdAt : Z)
    : ClaimRow := {|
  cl_status := ClaimPending;
  cl_machine := ti_MachineID input;
  cl_endpoint := ti_Endpoint input;
  cl_key := ti_IdempotencyKey input;
  cl_hash := requestHash;
  cl_created_at := ms createdAt;
  cl_completed_at := None
|}.

Definition ReserveTelegramClaim (input : TelegramClaimInput) : M (TelegramClaim * bool) :=
  reject_if (bool_decide (TrimSpace (ti_ConversationID input) = "") ||
    negb (ValidMachineID (ti_MachineID input)) || negb (ValidEndpoint (ti_Endpoint input)) ||
    negb (ValidRequestToken (ti_IdempotencyKey input))) ErrForbidden;;
  transact (
    endpointOwnedBy (ti_Endpoint input) (ti_MachineID input) (ti_Now input);;
    conversation ← mask ErrForbidden (conversationByID (ti_ConversationID input));
    reject_if (bool_decide (c_DisplayName conversation = "")) ErrForbidden;;
    (if bool_decide (ti_Endpoint input = TelegramGatewayEndpoint) then mret tt
     else
       capabilities ← sessionCapabilities (ti_ConversationID input) (ti_MachineID input)
         (ti_Endpoint input) (ti_Now input);
       reject_if (capabilities =? 0) ErrForbidden);;
    let requestHash := telegramClaimRequestHash (ti_ConversationID input) in
    bound ← query (fun d => db_telegram_claim_idempotency d !!
      (ti_MachineID input, ti_IdempotencyKey input));
    match bound with
    | Some row =>
        reject_if (negb (bool_decide (id_hash row = requestHash))) ErrConflict;;
        claim ← telegramClaimByConversation (id_target row);
        mret (claim, true)
    | None =>
        existing ← query (fun d => db_telegram_claims d !! ti_ConversationID input);
        match existing with
        | Some _ =>
            claim ← telegramClaimByConversation (ti_ConversationID input);
            bindTelegramClaimIdempotency (ti_MachineID input) (ti_IdempotencyKey input)
              (ti_ConversationID input) requestHash (ti_Now input);;
            mret (claim, true)
        | None =>
            rejectExclusiveClaimOccupancy (ti_ConversationID input) (ti_Now input);;
            let createdAt := Time.TruncateMs (ti_Now input) in
            sql_insert t_telegram_claims (ti_ConversationID input)
              (pendingClaimRow input requestHash createdAt);;
            bindTelegramClaimIdempotency (ti_MachineID input) (ti_IdempotencyKey input)
              (ti_ConversationID input) requestHash (ti_Now input);;
            mret ({| tc_ConversationID := ti_ConversationID input; tc_Status := ClaimPending;
                     tc_DisplayName := c_DisplayName conversation; tc_CreatedAt := createdAt;
                     tc_CompletedAt := None |}, false)
        end
    end).

Definition completeRow (completedAt : Z) (cl : ClaimRow) : ClaimRow := {|
  cl_status := ClaimComplete;
  cl_machine := cl_machine cl;
  cl_endpoint := cl_endpoint cl;
  cl_key := cl_key cl;
  cl_hash := cl_hash cl;
  cl_created_at := cl_created_at cl;
  cl_completed_at := Some (ms completedAt)
|}.

Section Claims.
Context `{Env}.

Definition CompleteTelegramClaim (conversationID machineID : string) (now : Z)
    : M (TelegramClaim * bool) :=
  reject_if (bool_decide (TrimSpace conversationID = "") || negb (ValidMachineID machineID))
    ErrForbidden;;
  transact (
    endpointOwnedBy TelegramGatewayEndpoint machineID now;;
    claim ← mask ErrForbidden (telegramClaimByConversation conversationID);
    match tc_Status claim with
    | ClaimComplete => mret (claim, true)
    | ClaimPending =>
        ensureTelegramGatewayMembership conversationID;;
        let completedAt := Time.TruncateMs now in
        sql_insert t_telegram_participants conversationID (ms completedAt);;
        updated ← sql_update t_telegram_claims conversationID
          (fun cl => bool_decide (cl_status cl = ClaimPending)) (completeRow completedAt);
        if updated =? 0 then
          claim ← mask ErrForbidden (telegramClaimByConversation conversationID);
          match tc_Status claim with
          | ClaimComplete => mret (claim, true)
          | ClaimPending => throw ErrForbidden
          end
        else
          id ← newUUID;
          sql_insert t_telegram_claim_events id
            {| ce_conversation := conversationID; ce_machine := machineID;
               ce_endpoint := TelegramGatewayEndpoint; ce_created_at := ms completedAt |};;
          mret ({| tc_ConversationID := tc_ConversationID claim; tc_Status := ClaimComplete;
                   tc_DisplayName := tc_DisplayName claim; tc_CreatedAt := tc_CreatedAt claim;
                   tc_CompletedAt := Some completedAt |}, false)
    end).
End Claims.

(** (created_at, conversation_id) > the cursor's row; NULL when it is absent. *)
Definition afterClaim (d : Db) (after : string) (key : Z * string) : bool :=
  bool_decide (after = "") ||
  match db_telegram_claims d !! after with
  | Some cursor => negb (stampLe key (cl_created_at cursor, after))
  | None => false
  end.

Definition PendingTelegramClaims (machineID : string) (now limit : Z) (after : string)
    : M (list TelegramClaim) :=
  reject_if (negb (ValidMachineID machineID) || (limit <? 1) || (100 <? limit) ||
    negb (bool_decide (after = "")) && negb (bool_decide (TrimSpace after = after))) ErrForbidden;;
  transact (
    endpointOwnedBy TelegramGatewayEndpoint machineID now;;
    query (fun d => take (Z.to_nat limit) (omap (fun kv => claimOf d kv.1)
      (orderBy (fun kv => (cl_created_at kv.2, kv.1))
        (filter (fun kv => (bool_decide (cl_status kv.2 = ClaimPending) &&
            afterClaim d after (cl_created_at kv.2, kv.1)) = true)
          (map_to_list (db_telegram_claims d))))))).

Record UnclaimedTopic := { u_ID : string; u_DisplayName : string; u_LastMessageAt : option Z }.

Definition lastMessage (d : Db) (id : string) : option Z :=
  mmax (fun _ m => if bool_decide (ms_conversation m = id) then Some (ms_created_at m) else None)
    (db_messages d).

(** ORDER BY last IS NULL, last DESC, created_at DESC *)
Definition recentFirst (a b : option Z * Z) : bool :=
  match a.1, b.1 with
  | Some x, Some y => (y <? x) || (x =? y) && (b.2 <=? a.2)
  | Some _, None => true
  | None, Some _ => false
  | None, None => b.2 <=? a.2
  end.

Definition claimComplete (d : Db) (id : string) : bool :=
  match db_telegram_claims d !! id with
  | Some cl => bool_decide (cl_status cl = ClaimComplete)
  | None => false
  end.

Definition UnclaimedNamedConversations (machineID : string) (now limit : Z) : M (list UnclaimedTopic) :=
  reject_if (negb (ValidMachineID machineID) || (limit <? 1) || (100 <? limit)) ErrForbidden;;
  transact (
    endpointOwnedBy TelegramGatewayEndpoint machineID now;;
    query (fun d => take (Z.to_nat limit) ((fun kv =>
        {| u_ID := kv.1; u_DisplayName := displayName kv.2;
           u_LastMessageAt := Time.fromMillis <$> lastMessage d kv.1 |}) <$>
      sortBy (fun a b => recentFirst (lastMessage d a.1, cv_created_at a.2)
                                     (lastMessage d b.1, cv_created_at b.2))
        (filter (fun kv => (negb (bool_decide (displayName kv.2 = "")) &&
            negb (claimComplete d kv.1)) = true)
          (map_to_list (db_conversations d)))))).

Record SessionTopicResult := { st_ID : string; st_DisplayName : string; st_Claimed : bool }.

Definition sessionTopics (d : Db) (endpoint : string) (now : Z) : list SessionTopicResult :=
  (fun kv => {| st_ID := kv.1; st_DisplayName := displayName kv.2;
                st_Claimed := claimComplete d kv.1 |}) <$>
  filter (fun kv => (exclusiveRow d kv.1 kv.2 && occupies d endpoint kv.1 now) = true)
    (map_to_list (db_conversations d)).

Definition SessionTopic (machineID endpoint : string) (now : Z) : M SessionTopicResult :=
  reject_if (negb (ValidMachineID machineID) || negb (ValidEndpoint endpoint)) ErrForbidden;;
  transact (
    endpointOwnedBy endpoint machineID now;;
    topics ← query (fun d => sessionTopics d endpoint now);
    match topics with
    | [] => throw ErrForbidden
    | [topic] => mret topic
    | _ => throw ErrConflict
    end).
