(* ===== verification/Roles.v ===== *)
(** * Durable roles: binding, profiles and the public directory

    [BindRoleToSession] leases one role to one attached session;
    [RegisterRoleProfile] publishes an opt-in identity; the directory lists and
    resolves opted-in roles without disclosing sessions. *)

From S2P Require Import Prelude GoTime RateLimit Quota Text Sha256 Tables Tx Sessions Pending.
From S2P Require Import Invocations Rooms.
Open Scope Z_scope.

Definition MaxActiveRolesPerSession : Z := 128.

(** ** Binding *)

Definition clearLease (dl : DeliveryRow) : DeliveryRow := {|
  dl_message := dl_message dl;
  dl_recipient := dl_recipient dl;
  dl_machine := None;
  dl_token := None;
  dl_generation := dl_generation dl;
  dl_ownership := None;
  dl_consumer := None;
  dl_until := None;
  dl_acked := dl_acked dl
|}.

Definition activeRoles (d : Db) (machineID session : string) (generation : Z) (role : string)
    (now : Z) : Z :=
  mcount (fun r b => boundTo machineID session generation now b && negb (bool_decide (r = role)))
    (db_role_bindings d).

Definition rebinds (previous : option BindingRow) (session : string) (generation now : Z) : bool :=
  match previous with
  | Some b => negb (bool_decide (bd_session b = session)) || negb (bd_generation b =? generation) ||
      (bd_lease_until b <=? ms now)
  | None => false
  end.

Definition BindRoleToSession (machineID role sessionEndpoint : string) (now ttl : Z) : M unit :=
  reject_if (negb (ValidMachineID machineID) || negb (ValidRole role) ||
    bool_decide (role = TelegramUserParticipant) || negb (ValidEndpoint sessionEndpoint) ||
    (ttl <=? 0)) ErrForbidden;;
  transact (
    gu ← endpointOwnershipUntil sessionEndpoint machineID now;
    let '(generation, until) := gu in
    owner ← query_or ErrForbidden (fun d => db_roles d !! role);
    reject_if (negb (bool_decide (owner = machineID))) ErrForbidden;;
    let requested := ms (Time.Add now ttl) in
    let bindingUntil := if until <? requested then until else requested in
    reject_if (bindingUntil <=? ms now) ErrForbidden;;
    active ← query (fun d => activeRoles d machineID sessionEndpoint generation role now);
    reject_if (MaxActiveRolesPerSession <=? active) ErrConflict;;
    rejectExclusiveBindOccupancy sessionEndpoint role now;;
    previous ← query (fun d => db_role_bindings d !! role);
    let row := {| bd_session := sessionEndpoint; bd_machine := machineID;
                  bd_generation := generation; bd_lease_until := bindingUntil |} in
    sql_upsert t_role_bindings role row (fun _ => row);;
    if rebinds previous sessionEndpoint generation now then
      sql_update_where t_deliveries
        (fun _ dl => bool_decide (dl_recipient dl = roleRecipient role) && isPending dl) clearLease
    else mret tt).

(** ** Profiles *)

Record RegisterRoleInput := {
  rr_MachineID : string;
  rr_Role : string;
  rr_DisplayName : string;
  rr_DirectAddressable : bool;
  rr_IdempotencyKey : string;
  rr_Now : Z;
}.

Record RoleProfileResult := {
  rp_Role : string;
  rp_DisplayName : string;
  rp_DirectAddressable : bool;
  rp_UpdatedAt : Z;
}.

Definition RegisterRoleRequestHash (role displayName : string) (directAddressable : bool) : string :=
  stableHash [role; displayName; if directAddressable then "1" else "0"].

Definition profileRow (displayName : string) (addressable : bool) (updatedAt : Z) : ProfileRow := {|
  pr_display := nullableDisplayName displayName;
  pr_addressable := addressable;
  pr_updated_at := ms updatedAt
|}.

Definition RegisterRoleProfile (input : RegisterRoleInput) : M (RoleProfileResult * bool) :=
  match NormalizeRoleDisplayName (rr_DisplayName input) with
  | None => throw (ErrInvalid "role registration")
  | Some displayName =>
      reject_if (negb (ValidMachineID (rr_MachineID input)) ||
        negb (ValidRequestToken (rr_IdempotencyKey input)) ||
        negb (CanonicalRoleForMachine (rr_Role input) (rr_MachineID input)))
        (ErrInvalid "role registration");;
      let requestHash :=
        RegisterRoleRequestHash (rr_Role input) displayName (rr_DirectAddressable input) in
      transact (
        existing ← query (fun d => db_role_profile_idempotency d !!
          (rr_MachineID input, rr_IdempotencyKey input));
        match existing with
        | Some row =>
            reject_if (negb (bool_decide (pi_hash row = requestHash))) ErrConflict;;
            mret ({| rp_Role := pi_role row; rp_DisplayName := default "" (pi_display row);
                     rp_DirectAddressable := pi_addressable row;
                     rp_UpdatedAt := Time.fromMillis (pi_updated_at row) |}, false)
        | None =>
            owner ← query (fun d => db_roles d !! rr_Role input);
            match owner with
            | None => sql_insert t_roles (rr_Role input) (rr_MachineID input)
            | Some owner => reject_if (negb (bool_decide (owner = rr_MachineID input))) ErrForbidden
            end;;
            profile ← query (fun d => db_role_profiles d !! rr_Role input);
            let updatedAt := Time.TruncateMs (rr_Now input) in
            let row := profileRow displayName (rr_DirectAddressable input) updatedAt in
            (match profile with
             | None => sql_insert t_role_profiles (rr_Role input) row
             | Some _ => _ ← sql_update t_role_profiles (rr_Role input) (fun _ => true) (fun _ => row);
                 mret tt
             end);;
            sql_insert t_role_profile_idempotency (rr_MachineID input, rr_IdempotencyKey input)
              {| pi_hash := requestHash; pi_role := rr_Role input; pi_display := pr_display row;
                 pi_addressable := rr_DirectAddressable input; pi_updated_at := ms updatedAt;
                 pi_created_at := ms updatedAt |};;
            mret ({| rp_Role := rr_Role input; rp_DisplayName := displayName;
                     rp_DirectAddressable := rr_DirectAddressable input;
                     rp_UpdatedAt := updatedAt |},
                  match profile with None => true | Some _ => false end)
        end)
  end.

Definition RoleProfile (role : string) : M RoleProfileResult :=
  reject_if (negb (ValidRole role)) ErrForbidden;;
  p ← query_or ErrForbidden (fun d => db_role_profiles d !! role);
  mret {| rp_Role := role; rp_DisplayName := default "" (pr_display p);
          rp_DirectAddressable := pr_addressable p;
          rp_UpdatedAt := Time.fromMillis (pr_updated_at p) |}.
