(* ===== verification/Directory.v ===== *)
(** * The public role directory

    [ListAddressableRoles] pages over opted-in roles with an opaque cursor (the
    base64url text of the last role) and [ResolveAddressableRole] answers one
    public name without guessing. *)

From S2P Require Import Prelude GoTime RateLimit Quota Text Sha256 Tables Tx Sessions Pending.
From S2P Require Import Invocations Rooms Roles.
Open Scope Z_scope.

Definition EncodeRoleListCursor (role : string) : string :=
  if CanonicalRoleHandle role then Base64.EncodeToString (bytesOf role) else "".

Definition DecodeRoleListCursor (cursor : string) : option string :=
  if bool_decide (cursor = "") then Some ""
  else
    raw ← Base64.DecodeString cursor;
    let role := ofBytes raw in
    if CanonicalRoleHandle role then Some role else None.

(** ** Contacts *)

Record RoleContact := {
  rc_Role : string; rc_DisplayName : string; rc_MachineID : string; rc_Online : bool;
}.

Definition roleOnline (d : Db) (role owner : string) (now : Z) : bool :=
  match db_role_bindings d !! role with
  | Some b => bool_decide (bd_machine b = owner) && liveBinding d b now
  | None => false
  end.

(** role_profiles JOIN roles WHERE direct_addressable = 1 *)
Definition contactOf (d : Db) (now : Z) (role : string) : option RoleContact :=
  p ← db_role_profiles d !! role;
  owner ← db_roles d !! role;
  if pr_addressable p : bool then
    Some {| rc_Role := role; rc_DisplayName := default "" (pr_display p);
            rc_MachineID := owner; rc_Online := roleOnline d role owner now |}
  else None.

(** The opted-in roles, ORDER BY role ASC. *)
Definition contacts (d : Db) (now : Z) : list RoleContact :=
  omap (contactOf d now) (sortStrings (map_to_list (db_role_profiles d)).*1).

Definition MaxRoleListLimit : Z := 100.
Definition MaxRoleResolveMatches : nat := 20.

Record RoleListPage := { pg_Roles : list RoleContact; pg_NextCursor : string }.

Definition ListAddressableRoles (cursor : string) (limit now : Z) : M RoleListPage :=
  match DecodeRoleListCursor cursor with
  | None => throw (ErrInvalid "role directory request")
  | Some after =>
      reject_if ((limit <? 1) || (MaxRoleListLimit <? limit)) (ErrInvalid "role directory request");;
      rows ← query (fun d => take (Z.to_nat (limit + 1))
        (filter (fun c => (bool_decide (after = "") || stringLt after (rc_Role c)) = true)
          (contacts d now)));
      if Nat.ltb (Z.to_nat limit) (length rows) then
        let page := take (Z.to_nat limit) rows in
        mret {| pg_Roles := page;
                pg_NextCursor := match last page with
                  | Some c => EncodeRoleListCursor (rc_Role c)
                  | None => ""
                  end |}
      else mret {| pg_Roles := rows; pg_NextCursor := "" |}
  end.

(** ** Resolution *)

Inductive RoleResolveStatus := RoleResolveResolved | RoleResolveNotFound | RoleResolveAmbiguous.

Record RoleResolveResult := {
  rs_Status : RoleResolveStatus;
  rs_Contact : option RoleContact;
  rs_Matches : list (string * string);
}.

Definition notFound : RoleResolveResult :=
  {| rs_Status := RoleResolveNotFound; rs_Contact := None; rs_Matches := [] |}.

(** [resolvedRoleContact(lookupAddressableContact(role))] *)
Definition resolvedContact (d : Db) (now : Z) (role : string) : RoleResolveResult :=
  match contactOf d now role with
  | Some c => {| rs_Status := RoleResolveResolved; rs_Contact := Some c; rs_Matches := [] |}
  | None => notFound
  end.

(** LIKE is case-insensitive on ASCII letters. *)
Definition lowerByte (b : Z) : Z := if (65 <=? b) && (b <=? 90) then b + 32 else b.

(** role LIKE '%/name', [name] holding none of the wildcard characters. *)
Definition likeSlug (role name : string) : bool :=
  let r := lowerByte <$> bytesOf role in
  let n := lowerByte <$> (47 :: bytesOf name) in
  Nat.leb (length n) (length r) && bool_decide (drop (length r - length n) r = n).

Definition ResolveAddressableRole (rawName : string) (now : Z) : M RoleResolveResult :=
  let name := TrimSpace rawName in
  if CanonicalRoleHandle name then query (fun d => resolvedContact d now name)
  else if negb (ValidRoleSlug name) then mret notFound
  else
    rows ← query (fun d => take (S MaxRoleResolveMatches)
      (filter (fun c => likeSlug (rc_Role c) name = true) (contacts d now)));
    let matches := filter (fun c => CanonicalRoleSlug (rc_Role c) = Some name) rows in
    match matches with
    | [] => mret notFound
    | [c] => query (fun d => resolvedContact d now (rc_Role c))
    | _ => mret {| rs_Status := RoleResolveAmbiguous; rs_Contact := None;
                   rs_Matches := (fun c => (rc_Role c, rc_DisplayName c)) <$>
                     take MaxRoleResolveMatches matches |}
    end.

(** ** Wake hints and room listings *)

(** SELECT DISTINCT machine_id ... ORDER BY machine_id *)
Definition RecipientMachines (messageID : string) (now : Z) : M (list string) :=
  query (fun d => sortStrings (remove_dups (mjoin ((fun kv =>
    if bool_decide (dl_message kv.2 = messageID) then
      match db_endpoints d !! dl_recipient kv.2 with
      | Some e => if ms now <? ep_lease_until e then [ep_machine e] else []
      | None => []
      end ++
      omap (fun rb => if bool_decide (dl_recipient kv.2 = roleRecipient rb.1) &&
                         liveBinding d rb.2 now then Some (bd_machine rb.2) else None)
        (map_to_list (db_role_bindings d))
    else []) <$> map_to_list (db_deliveries d))))).

Definition machineInRoom (d : Db) (machineID id : string) (now : Z) : bool :=
  mexists (fun k _ => bool_decide (k.1 = id) &&
    match db_endpoints d !! k.2 with
    | Some e => bool_decide (ep_machine e = machineID) && (ms now <? ep_lease_until e)
    | None => false
    end) (db_memberships d) ||
  mexists (fun k _ => bool_decide (k.1 = id) &&
    match db_role_bindings d !! k.2 with
    | Some b => bool_decide (bd_machine b = machineID) && liveBinding d b now
    | None => false
    end) (db_role_memberships d).

Definition ConversationsForMachine (machineID : string) (now : Z) : M (list Conversation) :=
  query (fun d => (fun kv => {| c_ID := kv.1; c_DisplayName := displayName kv.2 |}) <$>
    sortBy (fun a b => cv_created_at a.2 <=? cv_created_at b.2)
      (filter (fun kv => machineInRoom d machineID kv.1 now = true)
        (map_to_list (db_conversations d)))).
