(* ===== verification/Messages.v ===== *)
(** * Accepting messages

    [AppendMessage], [AppendTelegramInbound] and [SendDirectMessage]: one
    immutable message with the next sequence number of its room, one delivery
    per receiving identity, the rate and quota charges, and the idempotency
    record, in one transaction. *)

From S2P Require Import Prelude GoTime RateLimit Quota Text Sha256 Tables Tx Sessions Pending.
From S2P Require Import Invocations Rooms Claims Roles.
Open Scope Z_scope.

Record Message := {
  g_ID : string;
  g_ConversationID : string;
  g_Sequence : Z;
  g_FromEndpoint : string;
  g_FromRole : string;
  g_FromParticipant : string;
  g_InReplyToMessageID : string;
  g_InReplyToEndpoint : string;
  g_TelegramThreadID : Z;
  g_Body : string;
  g_CreatedAt : Z;
}.

Record AppendInput := {
  ai_ConversationID : string;
  ai_SenderMachineID : string;
  ai_PrincipalID : string;
  ai_FromEndpoint : string;
  ai_TargetRole : string;
  ai_Body : string;
  ai_ArtifactIDs : list string;
  ai_IdempotencyKey : string;
  ai_Now : Z;
}.

Definition appendHash (input : AppendInput) : string :=
  stableHash ([ai_ConversationID input; ai_FromEndpoint input; ai_Body input] ++
    (if bool_decide (ai_TargetRole input = "") then [] else ["target-role:" +:+ ai_TargetRole input]) ++
    match ai_ArtifactIDs input with
    | [] => []
    | ids => ai_PrincipalID input :: ids
    end).

Definition nullableText (value : string) : option string :=
  if bool_decide (value = "") then None else Some value.
Definition nullableThreadID (value : Z) : option Z := if value =? 0 then None else Some value.

(** A stored message as callers see it: [applyMessageMetadata] fills the
    nullable columns, [applyDirectSender] replaces the endpoint by the role. *)
Definition messageOf (id : string) (m : MessageRow) (fromRole : option string) : Message :=
  let direct := match fromRole with Some r => negb (bool_decide (r = "")) | None => false end in
  {| g_ID := id;
     g_ConversationID := ms_conversation m;
     g_Sequence := ms_sequence m;
     g_FromEndpoint := if direct then "" else ms_from m;
     g_FromRole := if direct then default "" fromRole else "";
     g_FromParticipant := default "" (ms_participant m);
     g_InReplyToMessageID := default "" (ms_reply_message m);
     g_InReplyToEndpoint := default "" (ms_reply_endpoint m);
     g_TelegramThreadID := default 0 (ms_thread m);
     g_Body := ms_body m;
     g_CreatedAt := Time.fromMillis (ms_created_at m) |}.

Definition messageByID (id : string) : M Message :=
  query_or ErrNoRows (fun d =>
    m ← db_messages d !! id; Some (messageOf id m (db_message_from_roles d !! id))).

(** ** Rate buckets *)

Definition rateBucketSender : string := "sender".
Definition rateBucketConversation : string := "conversation".

Definition loadRateBucket (kind key : string) (now burst : Z) : M RateBucket :=
  sql_insert_or_ignore t_rate_buckets (kind, key) (burst, ms (Time.TruncateMs now));;
  row ← query_or ErrNoRows (fun d => db_rate_buckets d !! (kind, key));
  mret {| Tokens := row.1; UpdatedAt := Time.fromMillis row.2 |}.

Definition saveRateBucket (kind key : string) (bucket : RateBucket) : M unit :=
  _ ← sql_update t_rate_buckets (kind, key) (fun _ => true)
    (fun _ => (Tokens bucket, ms (Time.TruncateMs (UpdatedAt bucket))));
  mret tt.

Definition consumeRateLimits (senderMachineID conversationID : string) (now : Z) : M unit :=
  cfg ← gets rateLimitConfig;
  sender ← loadRateBucket rateBucketSender senderMachineID now (SenderBurst cfg);
  conversation ← loadRateBucket rateBucketConversation conversationID now (ConversationBurst cfg);
  let decision := DecideRateLimit cfg sender conversation now in
  if negb (Allowed decision) then
    observe ObserveRateLimited;; throw (ErrRateLimited (RetryAfterSeconds decision))
  else
    saveRateBucket rateBucketSender senderMachineID (Sender decision);;
    saveRateBucket rateBucketConversation conversationID (ConversationBucket decision).

(** ** Sequence numbers and deliveries *)

Definition bumpSequence (c : ConversationRow) : ConversationRow :=
  {| cv_next_sequence := cv_next_sequence c + 1; cv_created_at := cv_created_at c;
     cv_display_name := cv_display_name c |}.

(** UPDATE conversations SET next_sequence = next_sequence + 1 ... RETURNING *)
Definition allocateSequence (conversationID : string) : M Z :=
  affected ← sql_update t_conversations conversationID (fun _ => true) bumpSequence;
  reject_if (affected =? 0) ErrForbidden;;
  query_or ErrForbidden (fun d => cv_next_sequence <$> db_conversations d !! conversationID).

Definition newDeliveryRow (messageID recipient : string) : DeliveryRow := {|
  dl_message := messageID;
  dl_recipient := recipient;
  dl_machine := None;
  dl_token := None;
  dl_generation := 0;
  dl_ownership := None;
  dl_consumer := None;
  dl_until := None;
  dl_acked := None
|}.

Definition rejectDirectConversationAppend (conversationID : string) : M unit :=
  direct ← query (fun d => mexists (fun _ r => bool_decide (dc_conversation r = conversationID))
    (db_direct_conversations d));
  reject_if direct ErrForbidden.

Definition authorizeTarget (conversationID targetRole : string) : M unit :=
  if bool_decide (targetRole = TelegramUserParticipant) then
    requireCompleteTelegramClaim conversationID;;
    c ← query (fun d => db_memberships d !! (conversationID, TelegramGatewayEndpoint));
    reject_if (negb (match c with Some c => hasCap c CapReceive | None => false end)) ErrForbidden
  else if bool_decide (targetRole = "") then mret tt
  else
    c ← query (fun d => db_role_memberships d !! (conversationID, targetRole));
    reject_if (negb (match c with Some c => hasCap c CapReceive | None => false end)) ErrForbidden.

Section Messages.
Context `{Env}.

Definition insertDelivery (messageID recipient : string) : M unit :=
  id ← newUUID; sql_insert t_deliveries id (newDeliveryRow messageID recipient).

(** An endpoint member gets the message, or has its cursor moved past it. *)
Definition routeEndpoint (conversationID messageID targetRole endpoint : string) : M unit :=
  if bool_decide (targetRole = "") ||
     bool_decide (targetRole = TelegramUserParticipant) &&
     bool_decide (endpoint = TelegramGatewayEndpoint)
  then insertDelivery messageID endpoint
  else advanceRecipientCursor endpoint conversationID.

Definition routeRole (conversationID messageID targetRole role : string) : M unit :=
  if bool_decide (targetRole = TelegramUserParticipant) then
    advanceRecipientCursor (roleRecipient role) conversationID
  else if bool_decide (targetRole = "") || bool_decide (role = targetRole)
  then insertDelivery messageID (roleRecipient role)
  else advanceRecipientCursor (roleRecipient role) conversationID.

(** The message and one delivery per recipient identity. *)
Definition storeMessage (id : string) (m : MessageRow) (targetRole : string) : M unit :=
  sql_insert t_messages id m;;
  endpoints ← query (fun d => receivingEndpoints d (ms_conversation m) (ms_from m));
  for_each endpoints (routeEndpoint (ms_conversation m) id targetRole);;
  roles ← query (fun d => receivingRoles d (ms_conversation m));
  for_each roles (routeRole (ms_conversation m) id targetRole).

Definition replayMessage (row : IdemRow) (requestHash : string) : M (Message * bool) :=
  reject_if (negb (bool_decide (id_hash row = requestHash))) ErrConflict;;
  message ← messageByID (id_target row);
  mret (message, true).

Definition requireSend (conversationID machineID endpoint : string) (now : Z) : M unit :=
  capabilities ← sessionCapabilities conversationID machineID endpoint now;
  reject_if (negb (hasCap capabilities CapSend)) ErrForbidden.

Definition AuthorizeSender (conversationID machineID endpoint : string) (now : Z) : M unit :=
  reject_if (bool_decide (TrimSpace conversationID = "") || bool_decide (TrimSpace machineID = "") ||
    bool_decide (TrimSpace endpoint = "")) ErrForbidden;;
  transact (
    requireSend conversationID machineID endpoint now;;
    rejectDirectConversationAppend conversationID).

Definition acceptMessage (machineID key requestHash targetRole : string) (now : Z)
    (row : Z -> MessageRow) (conversationID fromEndpoint body : string) : M Message :=
  consumeRateLimits machineID conversationID now;;
  recipients ← appendDeliveryRecipients conversationID fromEndpoint targetRole;
  consumeQuota recipients (goLen body);;
  id ← newUUID;
  sequence ← allocateSequence conversationID;
  storeMessage id (row sequence) targetRole;;
  advanceSessionCursors machineID fromEndpoint conversationID now;;
  sql_insert t_idempotency (machineID, key)
    {| id_hash := requestHash; id_target := id; id_created_at := ms now |};;
  mret (messageOf id (row sequence) None).

Definition appendRow (input : AppendInput) (sequence : Z) : MessageRow := {|
  ms_conversation := ai_ConversationID input;
  ms_sequence := sequence;
  ms_from := ai_FromEndpoint input;
  ms_participant := None;
  ms_reply_message := None;
  ms_reply_endpoint := None;
  ms_thread := None;
  ms_body := ai_Body input;
  ms_created_at := ms (Time.TruncateMs (ai_Now input))
|}.

Definition validBody (body : string) : M unit :=
  reject_if (maxMessageBodyBytes <? goLen body) (ErrInvalid "message body size");;
  reject_if (negb (ValidMessageBody body)) (ErrInvalid "message body text").

Definition appendTransaction (input : AppendInput) : M (Message * bool) :=
  requireSend (ai_ConversationID input) (ai_SenderMachineID input) (ai_FromEndpoint input)
    (ai_Now input);;
  rejectDirectConversationAppend (ai_ConversationID input);;
  authorizeTarget (ai_ConversationID input) (ai_TargetRole input);;
  existing ← query (fun d => db_idempotency d !! (ai_SenderMachineID input, ai_IdempotencyKey input));
  match existing with
  | Some row => replayMessage row (appendHash input)
  | None =>
      message ← acceptMessage (ai_SenderMachineID input) (ai_IdempotencyKey input) (appendHash input)
        (ai_TargetRole input) (ai_Now input) (appendRow input) (ai_ConversationID input)
        (ai_FromEndpoint input) (ai_Body input);
      mret (message, false)
  end.

Definition AppendMessage (input : AppendInput) : M (Message * bool) :=
  reject_if (bool_decide (TrimSpace (ai_ConversationID input) = "") ||
    negb (ValidMachineID (ai_SenderMachineID input)) || negb (ValidEndpoint (ai_FromEndpoint input)) ||
    negb (bool_decide (ai_TargetRole input = "")) && negb (ValidRole (ai_TargetRole input)) ||
    negb (ValidRequestToken (ai_IdempotencyKey input)) ||
    negb (bool_decide (ai_ArtifactIDs input = []))) (ErrInvalid "append request");;
  validBody (ai_Body input);;
  r ← transact (appendTransaction input);
  (if r.2 : bool then mret tt else refreshPendingMetrics (ai_Now input));;
  mret r.

(** ** Gateway inbound mail *)

Record TelegramInboundInput := {
  tg_ConversationID : string;
  tg_SenderMachineID : string;
  tg_FromEndpoint : string;
  tg_FromParticipant : string;
  tg_Body : string;
  tg_InReplyToMessageID : string;
  tg_InReplyToEndpoint : string;
  tg_TelegramThreadID : Z;
  tg_IdempotencyKey : string;
  tg_Now : Z;
}.

Definition ValidateTelegramInbound (input : TelegramInboundInput) : M unit :=
  reject_if (bool_decide (TrimSpace (tg_ConversationID input) = "") ||
    negb (ValidMachineID (tg_SenderMachineID input)) ||
    negb (bool_decide (tg_FromEndpoint input = TelegramGatewayEndpoint)) ||
    negb (bool_decide (tg_FromParticipant input = TelegramUserParticipant)) ||
    negb (ValidRequestToken (tg_IdempotencyKey input))) ErrForbidden;;
  reject_if (negb (bool_decide (tg_InReplyToEndpoint input = "")) &&
    negb (ValidEndpoint (tg_InReplyToEndpoint input))) ErrForbidden;;
  reject_if (negb (bool_decide (tg_InReplyToMessageID input = "")) &&
    negb (ValidRequestToken (tg_InReplyToMessageID input)) &&
    negb (uuid_Validate (tg_InReplyToMessageID input))) ErrForbidden;;
  reject_if (tg_TelegramThreadID input <? 0) ErrForbidden;;
  reject_if (negb (ValidMessageBody (tg_Body input))) (ErrInvalid "message body text");;
  reject_if (maxMessageBodyBytes <? goLen (tg_Body input)) (ErrInvalid "message body size").

Definition inboundRow (input : TelegramInboundInput) (sequence : Z) : MessageRow := {|
  ms_conversation := tg_ConversationID input;
  ms_sequence := sequence;
  ms_from := tg_FromEndpoint input;
  ms_participant := nullableText (tg_FromParticipant input);
  ms_reply_message := nullableText (tg_InReplyToMessageID input);
  ms_reply_endpoint := nullableText (tg_InReplyToEndpoint input);
  ms_thread := nullableThreadID (tg_TelegramThreadID input);
  ms_body := tg_Body input;
  ms_created_at := ms (Time.TruncateMs (tg_Now input))
|}.

(** The append digest of the same mail without its reply metadata. *)
Definition inboundHash (input : TelegramInboundInput) : string :=
  appendHash {| ai_ConversationID := tg_ConversationID input; ai_SenderMachineID := "";
    ai_PrincipalID := ""; ai_FromEndpoint := tg_FromEndpoint input; ai_TargetRole := "";
    ai_Body := tg_Body input; ai_ArtifactIDs := []; ai_IdempotencyKey := ""; ai_Now := Time.zero |}.

Definition inboundTransaction (input : TelegramInboundInput) : M (Message * bool) :=
  requireCompleteTelegramClaim (tg_ConversationID input);;
  requireSend (tg_ConversationID input) (tg_SenderMachineID input) (tg_FromEndpoint input)
    (tg_Now input);;
  existing ← query (fun d => db_idempotency d !! (tg_SenderMachineID input, tg_IdempotencyKey input));
  match existing with
  | Some row => replayMessage row (inboundHash input)
  | None =>
      message ← acceptMessage (tg_SenderMachineID input) (tg_IdempotencyKey input)
        (inboundHash input) "" (tg_Now input) (inboundRow input) (tg_ConversationID input)
        (tg_FromEndpoint input) (tg_Body input);
      mret (message, false)
  end.

Definition AppendTelegramInbound (input : TelegramInboundInput) : M (Message * bool) :=
  ValidateTelegramInbound input;;
  r ← transact (inboundTransaction input);
  (if r.2 : bool then mret tt else refreshPendingMetrics (tg_Now input));;
  mret r.

(** ** Direct role messages *)

Record DirectMessageInput := {
  dm_SenderMachineID : string;
  dm_FromRole : string;
  dm_ToRole : string;
  dm_Body : string;
  dm_IdempotencyKey : string;
  dm_Now : Z;
}.

Definition DirectMessageRequestHash (fromRole toRole body : string) : string :=
  stableHash [fromRole; toRole; body].

Definition liveBoundRoleSession (machineID role : string) (now : Z) : M string :=
  query_or ErrForbidden (fun d =>
    match db_role_bindings d !! role with
    | Some b => if bool_decide (bd_machine b = machineID) && liveBinding d b now
                then Some (bd_session b) else None
    | None => None
    end).

(** SAVEPOINT; create the room and record the pair; ROLLBACK TO when the pair
    already has one. *)
Definition getOrCreateDirectConversation (roleLow roleHigh fromRole toRole : string) (now : Z)
    : M string :=
  savepoint ← query (fun d => d);
  id ← newUUID;
  sql_insert t_conversations id (newConversationRow now None);;
  for_each [fromRole; toRole] (fun role =>
    sql_insert t_role_memberships (id, role) (Z.lor CapSend CapReceive));;
  affected ← sql_try_insert t_direct_conversations (roleLow, roleHigh)
    {| dc_conversation := id; dc_created_at := ms now |};
  if affected : bool then mret id
  else
    put_db (fun _ => savepoint);;
    row ← query_or ErrNoRows (fun d => db_direct_conversations d !! (roleLow, roleHigh));
    mret (dc_conversation row).

Definition directRow (input : DirectMessageInput) (conversationID session : string)
    (now sequence : Z) : MessageRow := {|
  ms_conversation := conversationID;
  ms_sequence := sequence;
  ms_from := session;
  ms_participant := None;
  ms_reply_message := None;
  ms_reply_endpoint := None;
  ms_thread := None;
  ms_body := dm_Body input;
  ms_created_at := ms now
|}.

(** UPDATE role_profiles SET updated_at = updated_at: 0 rows means no profile. *)
Definition lockAddressable (role : string) : M unit :=
  affected ← sql_update t_role_profiles role (fun _ => true) (fun p => p);
  reject_if (affected =? 0) ErrForbidden;;
  p ← query_or ErrForbidden (fun d => db_role_profiles d !! role);
  reject_if (negb (pr_addressable p)) ErrForbidden.

Definition sendDirect (input : DirectMessageInput) (roleLow roleHigh requestHash : string)
    (now : Z) : M Message :=
  session ← liveBoundRoleSession (dm_SenderMachineID input) (dm_FromRole input) now;
  lockAddressable (dm_ToRole input);;
  conversationID ← getOrCreateDirectConversation roleLow roleHigh (dm_FromRole input)
    (dm_ToRole input) now;
  consumeRateLimits (dm_SenderMachineID input) conversationID now;;
  consumeQuota [roleRecipient (dm_ToRole input)] (goLen (dm_Body input));;
  id ← newUUID;
  sequence ← allocateSequence conversationID;
  let row := directRow input conversationID session now sequence in
  sql_insert t_messages id row;;
  sql_insert t_message_from_roles id (dm_FromRole input);;
  insertDelivery id (roleRecipient (dm_ToRole input));;
  advanceRecipientCursor (roleRecipient (dm_FromRole input)) conversationID;;
  advanceSessionCursors (dm_SenderMachineID input) session conversationID now;;
  sql_insert t_direct_message_idempotency (dm_SenderMachineID input, dm_IdempotencyKey input)
    {| di_hash := requestHash; di_from := dm_FromRole input; di_to := dm_ToRole input;
       di_conversation := conversationID; di_message := id; di_sequence := sequence;
       di_created_at := ms now |};;
  mret (messageOf id row (Some (dm_FromRole input))).

Definition directTransaction (input : DirectMessageInput) (roleLow roleHigh requestHash : string)
    (now : Z) : M (Message * bool) :=
  existing ← query (fun d => db_direct_message_idempotency d !!
    (dm_SenderMachineID input, dm_IdempotencyKey input));
  match existing with
  | Some row =>
      reject_if (negb (bool_decide (di_hash row = requestHash))) ErrConflict;;
      message ← messageByID (di_message row);
      mret (message, true)
  | None =>
      message ← sendDirect input roleLow roleHigh requestHash now;
      mret (message, false)
  end.

Definition SendDirectMessage (input : DirectMessageInput) : M (Message * bool) :=
  reject_if (negb (ValidMachineID (dm_SenderMachineID input)) ||
    negb (ValidRequestToken (dm_IdempotencyKey input)) ||
    negb (CanonicalRoleForMachine (dm_FromRole input) (dm_SenderMachineID input)) ||
    negb (CanonicalRoleHandle (dm_ToRole input)) ||
    bool_decide (dm_FromRole input = dm_ToRole input)) (ErrInvalid "direct message request");;
  validBody (dm_Body input);;
  match OrderedDirectRolePair (dm_FromRole input) (dm_ToRole input) with
  | None => throw (ErrInvalid "direct message request")
  | Some (roleLow, roleHigh) =>
      let requestHash :=
        DirectMessageRequestHash (dm_FromRole input) (dm_ToRole input) (dm_Body input) in
      let now := Time.TruncateMs (dm_Now input) in
      r ← transact (directTransaction input roleLow roleHigh requestHash now);
      (if r.2 : bool then mret tt else refreshPendingMetrics now);;
      mret r
  end.

(** ** Successful transactions *)

(** The gateway can receive when the target is the built-in participant. *)
Definition target_authorized (d : Db) (conversationID targetRole : string) : Prop :=
  targetRole = TelegramUserParticipant ->
  exists v, db_memberships d !! (conversationID, TelegramGatewayEndpoint) = Some v /\
    hasCap v CapReceive = true.

Lemma authorizeTarget_ok conversationID targetRole u s s' :
  authorizeTarget conversationID targetRole s = (inr u, s') ->
  s' = s /\ target_authorized (st_db s) conversationID targetRole.
Proof.
  intros Ha. unfold authorizeTarget, requireCompleteTelegramClaim in Ha.
  case_bool_decide as Ht.
  - tx_inv Ha. split; [done|]. intros _. bool_hyps.
    destruct (db_memberships _ !! _) as [v|] eqn:Hv; [|done]. eauto.
  - assert (target_authorized (st_db s) conversationID targetRole) by by intros ->.
    case_bool_decide; tx_inv Ha; done.
Qed.

(** Read-only prefixes leave the state alone. *)
Lemma requireSend_ok conversationID machineID endpoint now u s s' :
  requireSend conversationID machineID endpoint now s = (inr u, s') -> s' = s.
Proof.
  intros Hr. unfold requireSend, sessionCapabilities in Hr. tx_inv Hr.
  match goal with Ho : endpointOwnership _ _ _ _ = _ |- _ =>
    by apply endpointOwnership_ok in Ho as (e & _ & _ & ->) end.
Qed.

(** A replay returns the recorded message and changes nothing; otherwise the
    message is accepted. *)
Definition replayed (d : Db) (machineID key requestHash : string) (r : Message * bool) : Prop :=
  exists row m, db_idempotency d !! (machineID, key) = Some row /\ id_hash row = requestHash /\
    db_messages d !! id_target row = Some m /\
    r = (messageOf (id_target row) m (db_message_from_roles d !! id_target row), true).

Lemma messageByID_ok id msg s s' :
  messageByID id s = (inr msg, s') ->
  s' = s /\ exists m, db_messages (st_db s) !! id = Some m /\
    msg = messageOf id m (db_message_from_roles (st_db s) !! id).
Proof.
  intros Hm. unfold messageByID in Hm. tx_inv Hm. split; [done|].
  destruct (db_messages _ !! id) as [m|]; [|done]. cbn in Hm. simplify_eq. eauto.
Qed.

Lemma replayMessage_ok machineID key row requestHash r s s' :
  db_idempotency (st_db s) !! (machineID, key) = Some row ->
  replayMessage row requestHash s = (inr r, s') ->
  replayed (st_db s) machineID key requestHash r /\ s' = s.
Proof.
  intros Hrow Hr. unfold replayMessage in Hr. tx_inv Hr. bool_hyps.
  match goal with Hx : messageByID _ _ = _ |- _ => apply messageByID_ok in Hx as (-> & m & Hm1 & ->) end.
  split; [|done]. by exists row, m.
Qed.

Lemma appendTransaction_ok input r s s' :
  appendTransaction input s = (inr r, s') ->
  replayed (st_db s) (ai_SenderMachineID input) (ai_IdempotencyKey input) (appendHash input) r /\
    s' = s /\ r.2 = true \/
  db_idempotency (st_db s) !! (ai_SenderMachineID input, ai_IdempotencyKey input) = None /\
  target_authorized (st_db s) (ai_ConversationID input) (ai_TargetRole input) /\
  acceptMessage (ai_SenderMachineID input) (ai_IdempotencyKey input) (appendHash input)
    (ai_TargetRole input) (ai_Now input) (appendRow input) (ai_ConversationID input)
    (ai_FromEndpoint input) (ai_Body input) s = (inr r.1, s') /\ r.2 = false.
Proof.
  intros Ha. unfold appendTransaction, rejectDirectConversationAppend in Ha. tx_inv Ha.
  apply requireSend_ok in Hm as ->. apply authorizeTarget_ok in Hm1 as [-> Ht].
  destruct (db_idempotency _ !! _) as [row|] eqn:Hrow.
  - left. apply (replayMessage_ok _ _ _ _ _ _ _ Hrow) in Ha as [(row' & m & ? & ? & ? & ->) ->].
    split_and!; [|done..]. by exists row', m.
  - right. tx_inv Ha. by split_and!.
Qed.

Lemma inboundTransaction_ok input r s s' :
  inboundTransaction input s = (inr r, s') ->
  replayed (st_db s) (tg_SenderMachineID input) (tg_IdempotencyKey input) (inboundHash input) r /\
    s' = s /\ r.2 = true \/
  db_idempotency (st_db s) !! (tg_SenderMachineID input, tg_IdempotencyKey input) = None /\
  acceptMessage (tg_SenderMachineID input) (tg_IdempotencyKey input) (inboundHash input) ""
    (tg_Now input) (inboundRow input) (tg_ConversationID input) (tg_FromEndpoint input)
    (tg_Body input) s = (inr r.1, s') /\ r.2 = false.
Proof.
  intros Ha. unfold inboundTransaction, requireCompleteTelegramClaim in Ha. tx_inv Ha.
  match goal with Hx : requireSend _ _ _ _ _ = _ |- _ => apply requireSend_ok in Hx as -> end.
  destruct (db_idempotency _ !! _) as [row|] eqn:Hrow.
  - left. apply (replayMessage_ok _ _ _ _ _ _ _ Hrow) in Ha as [(row' & m & ? & ? & ? & ->) ->].
    split_and!; [|done..]. by exists row', m.
  - right. tx_inv Ha. by split_and!.
Qed.

Lemma directTransaction_ok input roleLow roleHigh requestHash now r s s' :
  directTransaction input roleLow roleHigh requestHash now s = (inr r, s') ->
  s' = s /\ r.2 = true \/
  db_direct_message_idempotency (st_db s) !! (dm_SenderMachineID input, dm_IdempotencyKey input) = None /\
  sendDirect input roleLow roleHigh requestHash now s = (inr r.1, s') /\ r.2 = false.
Proof.
  intros Ha. unfold directTransaction in Ha. tx_inv Ha.
  destruct (db_direct_message_idempotency _ !! _) as [row|] eqn:Hrow; tx_inv Ha.
  - left. match goal with Hx : messageByID _ _ = _ |- _ => by apply messageByID_ok in Hx as [-> _] end.
  - by right.
Qed.

(** The room of a role pair: the recorded one, or a new one with both roles. *)
Definition directDb (id roleLow roleHigh fromRole toRole : string) (now : Z) (d : Db) : Db :=
  set_direct_conversations
    (<[(roleLow, roleHigh) := {| dc_conversation := id; dc_created_at := ms now |}]>
      (db_direct_conversations d))
  (set_role_memberships
    (<[(id, toRole) := Z.lor CapSend CapReceive]>
      (<[(id, fromRole) := Z.lor CapSend CapReceive]> (db_role_memberships d)))
  (set_conversations (<[id := newConversationRow now None]> (db_conversations d)) d)).

Lemma getOrCreateDirectConversation_ok roleLow roleHigh fromRole toRole now c s s' :
  getOrCreateDirectConversation roleLow roleHigh fromRole toRole now s = (inr c, s') ->
  (exists row, db_direct_conversations (st_db s) !! (roleLow, roleHigh) = Some row /\
     c = dc_conversation row /\ st_db s' = st_db s) \/
  db_direct_conversations (st_db s) !! (roleLow, roleHigh) = None /\
  db_conversations (st_db s) !! c = None /\ fromRole <> toRole /\
  st_db s' = directDb c roleLow roleHigh fromRole toRole now (st_db s).
Proof.
  intros Hg. unfold getOrCreateDirectConversation in Hg. tx_inv Hg.
  apply sql_insert_ok in Hm as (_ & Hfresh & _ & _ & ->). simpl in Hm0. tx_inv Hm0.
  apply sql_insert_ok in Hm as (_ & _ & _ & _ & ->).
  apply sql_insert_ok in Hm2 as (_ & Hto & _ & _ & ->).
  apply sql_try_insert_ok in Hm1 as [_ Hd].
  assert (fromRole <> toRole) as Hne by (intros ->; cbn in Hto; by rewrite lookup_insert_eq in Hto).
  destruct Hd as [(-> & -> & _)|(-> & Hnone & _ & _ & ->)]; tx_inv Hg.
  - left. apply modify_ok in Hm as ->. by exists a1.
  - right. split_and!; done.
Qed.

Lemma getOrCreateDirectConversation_frame (I : Db -> Prop) roleLow roleHigh fromRole toRole now :
  (forall x d, I d -> I (set_conversations x d)) ->
  (forall x d, I d -> I (set_role_memberships x d)) ->
  (forall x d, I d -> I (set_direct_conversations x d)) ->
  preserves I (getOrCreateDirectConversation roleLow roleHigh fromRole toRole now).
Proof.
  intros H1 H2 H3 s c s' Hg HI.
  apply getOrCreateDirectConversation_ok in Hg as [(row & _ & _ & ->)|(_ & _ & _ & ->)]; [done|].
  unfold directDb. by apply H3, H2, H1.
Qed.
End Messages.

#[export] Hint Extern 1 (preserves _ (getOrCreateDirectConversation _ _ _ _ _)) =>
  apply getOrCreateDirectConversation_frame; frame_tac : preserve.
