(* ===== verification/Deliveries.v ===== *)
(** * Leasing, acknowledging and expiring deliveries

    [LeaseDeliveries] hands pending deliveries to the one live consumer of an
    attached session under a fenced lease; [AckDelivery] closes one under its
    exact lease; [MaintainDeliveries] expires old ones and prunes the terminal
    records. *)

From S2P Require Import Prelude GoTime RateLimit Quota Text Sha256 Tables Tx Sessions Pending.
From S2P Require Import Invocations Rooms Claims Roles Messages.
Open Scope Z_scope.

Record Delivery := {
  v_ID : string;
  v_RecipientEndpoint : string;
  v_RecipientRole : string;
  v_Message : Message;
  v_LeaseToken : string;
  v_LeaseGeneration : Z;
  v_LeaseUntil : Z;
}.

Record DeliveryLeasePage := { p_Deliveries : list Delivery; p_Cursors : gmap string Z }.

(** ** Cursors *)

(** The membership row a recipient identity is authorised by. *)
Definition recipientCapabilities (d : Db) (conversationID recipientID : string) : option Z :=
  match parseRoleRecipient recipientID with
  | Some role => db_role_memberships d !! (conversationID, role)
  | None => db_memberships d !! (conversationID, recipientID)
  end.

Definition cursorOf (d : Db) (conversationID recipientID : string) : option Z :=
  match recipientCapabilities d conversationID recipientID with
  | Some c => if hasCap c CapReceive
              then Some (default 0 (db_recipient_cursors d !! (recipientID, conversationID)))
              else None
  | None => None
  end.

Definition recipientCursorForLease (recipientIDs : list string) (conversationID : string) : M Z :=
  query_or ErrForbidden (fun d =>
    foldl (fun acc r => omin acc (cursorOf d conversationID r)) None recipientIDs).

Definition RecipientCursor (machineID endpoint conversationID : string) (now : Z) : M Z :=
  transact (
    generation ← endpointOwnership endpoint machineID now;
    recipientIDs ← sessionRecipientIDs machineID endpoint generation now;
    recipientCursorForLease recipientIDs conversationID).

(** ** Leases *)

Definition consumerRow (consumerID : string) (generation until : Z) (e : EndpointRow) : EndpointRow := {|
  ep_machine := ep_machine e;
  ep_lease_until := ep_lease_until e;
  ep_generation := ep_generation e;
  ep_consumer := Some consumerID;
  ep_consumer_generation := generation;
  ep_consumer_until := Some until
|}.

(** The consumer lease of the endpoint is held and has not lapsed. *)
Definition consumerLive (e : EndpointRow) (now : Z) : bool :=
  match ep_consumer_until e with Some until => ms now <? until | None => false end.

(** Another consumer holds the endpoint. *)
Definition consumerBusy (e : EndpointRow) (consumerID : string) (now : Z) : bool :=
  match ep_consumer e with
  | Some active => negb (bool_decide (active = consumerID)) && consumerLive e now
  | None => false
  end.

Definition nextConsumerGeneration (e : EndpointRow) (consumerID : string) (now : Z) : Z :=
  if bool_decide (ep_consumer e = Some consumerID) && consumerLive e now
  then ep_consumer_generation e else ep_consumer_generation e + 1.

(** The lease is unexpired and was granted under the current generations. *)
Definition leaseCurrent (dl : DeliveryRow) (machineID : string) (ownership consumer now : Z) : bool :=
  bool_decide (dl_machine dl = Some machineID) &&
  match dl_token dl with Some _ => true | None => false end &&
  bool_decide (dl_ownership dl = Some ownership) && bool_decide (dl_consumer dl = Some consumer) &&
  match dl_until dl with Some until => ms now <? until | None => false end.

(** The WHERE clause of the lease query. *)
Definition leasableDelivery (dl : DeliveryRow) (machineID : string) (ownership consumer now : Z) : bool :=
  match dl_until dl with None => true | Some until => until <=? ms now end ||
  negb (bool_decide (dl_ownership dl = Some ownership)) ||
  negb (bool_decide (dl_consumer dl = Some consumer)) ||
  bool_decide (dl_machine dl = Some machineID).

Definition leaseRow (machineID token : string) (generation ownership consumer until : Z)
    (dl : DeliveryRow) : DeliveryRow := {|
  dl_message := dl_message dl;
  dl_recipient := dl_recipient dl;
  dl_machine := Some machineID;
  dl_token := Some token;
  dl_generation := generation;
  dl_ownership := Some ownership;
  dl_consumer := Some consumer;
  dl_until := Some until;
  dl_acked := dl_acked dl
|}.

(** ORDER BY sequence, id within one room; otherwise by creation time, room,
    sequence, id. *)
Definition sequenceLe (a b : string * DeliveryRow * MessageRow) : bool :=
  stampLe (ms_sequence a.2, dl_message a.1.2) (ms_sequence b.2, dl_message b.1.2).

Definition arrivalLe (a b : string * DeliveryRow * MessageRow) : bool :=
  if ms_created_at a.2 =? ms_created_at b.2 then
    if bool_decide (ms_conversation a.2 = ms_conversation b.2) then sequenceLe a b
    else stringLt (ms_conversation a.2) (ms_conversation b.2)
  else ms_created_at a.2 <? ms_created_at b.2.

Definition leaseCandidates (d : Db) (recipientIDs : list string) (machineID conversationID : string)
    (ownership consumer now : Z) : list (string * DeliveryRow * MessageRow) :=
  let rows := omap (fun kv =>
    match pendingMessage d kv.2 with
    | Some m =>
        if bool_decide (dl_recipient kv.2 ∈ recipientIDs) &&
           leasableDelivery kv.2 machineID ownership consumer now &&
           (bool_decide (conversationID = "") || bool_decide (ms_conversation m = conversationID))
        then Some (kv.1, kv.2, m) else None
    | None => None
    end) (map_to_list (db_deliveries d)) in
  sortBy (if bool_decide (conversationID = "") then arrivalLe else sequenceLe) rows.

Section Leases.
Context `{Env}.

Definition leaseDelivery (machineID endpoint : string) (ownership consumer now ttl : Z)
    (row : string * DeliveryRow * MessageRow) : M (Delivery * bool) :=
  let '(id, dl, m) := row in
  fromRole ← query (fun d => db_message_from_roles d !! dl_message dl);
  let delivery token generation until := {|
    v_ID := id;
    v_RecipientEndpoint := endpoint;
    v_RecipientRole := default "" (parseRoleRecipient (dl_recipient dl));
    v_Message := messageOf (dl_message dl) m fromRole;
    v_LeaseToken := token;
    v_LeaseGeneration := generation;
    v_LeaseUntil := until |} in
  if leaseCurrent dl machineID ownership consumer now then
    mret (delivery (default "" (dl_token dl)) (dl_generation dl)
            (Time.fromMillis (default 0 (dl_until dl))), false)
  else
    token ← randomToken;
    let redelivery := match dl_until dl with Some until => until <=? ms now | None => false end in
    let generation := dl_generation dl + 1 in
    let until := Time.Add now ttl in
    _ ← sql_update t_deliveries id (fun _ => true)
      (leaseRow machineID token generation ownership consumer (ms until));
    mret (delivery token generation until, redelivery).

Definition LeaseDeliveries (machineID consumerID endpoint conversationID : string)
    (now ttl limit : Z) : M DeliveryLeasePage :=
  reject_if (negb (ValidMachineID machineID) || negb (ValidRequestToken consumerID) ||
    negb (ValidEndpoint endpoint) || (ttl <=? 0) || (limit <? 1) || (100 <? limit))
    (ErrInvalid "delivery lease request");;
  r ← transact (
    ownership ← endpointOwnership endpoint machineID now;
    recipientIDs ← sessionRecipientIDs machineID endpoint ownership now;
    e ← query_or ErrNoRows (fun d => db_endpoints d !! endpoint);
    reject_if (consumerBusy e consumerID now) ErrConflict;;
    let consumer := nextConsumerGeneration e consumerID now in
    _ ← sql_update t_endpoints endpoint (fun e => ep_generation e =? ownership)
      (consumerRow consumerID consumer (ms (Time.Add now ttl)));
    rows ← query (fun d => take (Z.to_nat limit)
      (leaseCandidates d recipientIDs machineID conversationID ownership consumer now));
    leased ← collect rows (leaseDelivery machineID endpoint ownership consumer now ttl);
    let rooms := remove_dups ((if bool_decide (conversationID = "") then [] else [conversationID]) ++
      ((fun v => g_ConversationID (v_Message v)) <$> leased.*1)) in
    cursors ← collect rooms (fun id =>
      cursor ← recipientCursorForLease recipientIDs id; mret (id, cursor));
    mret ({| p_Deliveries := leased.*1; p_Cursors := list_to_map cursors |}, countTrue leased.*2));
  observe (ObserveLeaseRedeliveries r.2);;
  mret r.1.
End Leases.

(** ** Acknowledgements *)

Definition ackRow (now : Z) (dl : DeliveryRow) : DeliveryRow := {|
  dl_message := dl_message dl;
  dl_recipient := dl_recipient dl;
  dl_machine := dl_machine dl;
  dl_token := dl_token dl;
  dl_generation := dl_generation dl;
  dl_ownership := dl_ownership dl;
  dl_consumer := dl_consumer dl;
  dl_until := dl_until dl;
  dl_acked := Some (ms now)
|}.

(** The exact lease: token and fence generation. *)
Definition leaseMatches (dl : DeliveryRow) (token : string) (generation : Z) : bool :=
  bool_decide (dl_token dl = Some token) && (dl_generation dl =? generation).

(** The transaction of [AckDelivery]: [None] for a repeated acknowledgement. *)
Definition ackTransaction (machineID endpoint deliveryID token : string) (generation now : Z)
    : M (option Z) :=
  ownership ← endpointOwnership endpoint machineID now;
  recipientIDs ← sessionRecipientIDs machineID endpoint ownership now;
  dl ← query_or ErrForbidden (fun d => db_deliveries d !! deliveryID);
  reject_if (negb (bool_decide (dl_recipient dl ∈ recipientIDs))) ErrForbidden;;
  if negb (isPending dl) && leaseMatches dl token generation then mret None
  else
    e ← query_or ErrForbidden (fun d => db_endpoints d !! endpoint);
    reject_if (negb (leaseMatches dl token generation &&
      leaseCurrent dl machineID ownership (ep_consumer_generation e) now)) ErrForbidden;;
    affected ← sql_update t_deliveries deliveryID isPending (ackRow now);
    dm ← query_or ErrNoRows (fun d => joinedDelivery d deliveryID);
    (if affected =? 1 then
       releaseQuota (dl_recipient dl) (bodyBytes dm.2);;
       recordAckedTerminal deliveryID now
     else mret tt);;
    advanceRecipientCursor (dl_recipient dl) (ms_conversation dm.2);;
    mret (Some (if affected =? 1 then 1 else 0)).

Definition AckDelivery (machineID endpoint deliveryID token : string) (generation now : Z) : M unit :=
  acked ← transact (ackTransaction machineID endpoint deliveryID token generation now);
  match acked with
  | None => mret tt
  | Some n => observe (ObserveTerminals ClosedAcked n);; refreshPendingMetrics now
  end.

(** What a successful acknowledgement did: nothing when the delivery was already
    closed under the same lease, and otherwise closed the pending delivery that
    is leased to the caller under the current generations. *)
Lemma ackTransaction_ok machineID endpoint id token generation now r s s' :
  ackTransaction machineID endpoint id token generation now s = (inr r, s') ->
  exists e dl, owns (st_db s) endpoint machineID now e /\ db_deliveries (st_db s) !! id = Some dl /\
    dl_recipient dl ∈ sessionIDs (st_db s) machineID endpoint (ep_generation e) now /\
    leaseMatches dl token generation = true /\
    (r = None /\ s' = s /\ isPending dl = false \/
     r = Some 1 /\ isPending dl = true /\
     leaseCurrent dl machineID (ep_generation e) (ep_consumer_generation e) now = true /\
     exists m s1 s2 s3, db_messages (st_db s) !! dl_message dl = Some m /\
       sql_update t_deliveries id isPending (ackRow now) s = (inr 1, s1) /\
       s1 = set_row t_deliveries id (ackRow now dl) s /\
       releaseQuota (dl_recipient dl) (bodyBytes m) s1 = (inr tt, s2) /\
       recordAckedTerminal id now s2 = (inr tt, s3) /\
       advanceRecipientCursor (dl_recipient dl) (ms_conversation m) s3 = (inr tt, s')).
Proof.
  intros H. unfold ackTransaction, sessionRecipientIDs in H. tx_inv H.
  apply endpointOwnership_ok in Hm as (e & He & -> & ->). exists e.
  rename a0 into dl. exists dl. bool_hyps.
  destruct (negb (isPending dl) && leaseMatches dl token generation) eqn:Hb; tx_inv H; bool_hyps.
  { split_and!; auto. }
  assert (isPending dl = true) as Hp.
  { destruct (isPending dl); [done|]. simpl in Hb. congruence. }
  destruct He as (He & ? & ?). rewrite He in Hm. injection Hm as <-.
  pose proof Hm3 as Hupd. apply sql_update_ok in Hm3 as [(-> & _ & Hno)|(-> & dl' & Hdl & _ & _ & _ & ->)].
  { specialize (Hno dl Hm0). congruence. }
  cbn in Hdl. rewrite Hm0 in Hdl. injection Hdl as <-.
  cbn [Z.eqb Pos.eqb] in Hm5. tx_inv Hm5. unfold joinedDelivery in Hm4. cbn in Hm4.
  rewrite lookup_insert_eq in Hm4. cbn in Hm4.
  destruct (db_messages (st_db s) !! dl_message dl) as [m|] eqn:Hmsg; [|done]. injection Hm4 as <-.
  split_and!; try done. right. split_and!; try done.
  destruct a5, a4, a. by exists m, (set_row t_deliveries id (ackRow now dl) s), s0, s1.
Qed.

(** ** Expiry and retention *)

Record MaintenanceResult := { mr_Scanned : Z; mr_Expired : Z; mr_Pruned : Z }.

(** The pending delivery with the oldest message not newer than [cutoff]. *)
Definition oldestDue (d : Db) (cutoff : Z) : option pendingClose :=
  head (orderBy (fun c => (pc_CreatedAt c, pc_ID c))
    (omap (fun kv =>
      match pendingMessage d kv.2 with
      | Some m => if ms_created_at m <=? cutoff then Some (closeOf kv.1 kv.2 m) else None
      | None => None
      end) (map_to_list (db_deliveries d)))).

(** A close that affected no row leaves nothing to roll back. *)
Definition expireOneDueDelivery (cutoff now : Z) : M (bool * bool) :=
  transact (
    due ← query (fun d => oldestDue d cutoff);
    match due with
    | None => mret (false, false)
    | Some row => closed ← closePendingDelivery row ClosedExpired now; mret (true, closed)
    end).

Definition pruneOneTerminal (cutoff : Z) : M bool :=
  transact (
    oldest ← query (fun d => head ((orderBy (fun kv => (tm_closed_at kv.2, kv.1))
      (filter (fun kv => (tm_closed_at kv.2 <=? cutoff) = true)
        (map_to_list (db_delivery_terminals d)))).*1));
    match oldest with
    | None => mret false
    | Some id => sql_delete_where t_delivery_terminals (fun k _ => bool_decide (k = id));; mret true
    end).

(** The bounded expiry loop: the counts so far and the error that ended it. *)
Fixpoint expireLoop (fuel : nat) (cutoff now scanned expired : Z) : M (Z * Z * option Err) :=
  match fuel with
  | O => mret (scanned, expired, None)
  | S fuel =>
      r ← attempt (expireOneDueDelivery cutoff now);
      match r with
      | inl e => mret (scanned, expired, Some e)
      | inr (false, _) => mret (scanned, expired, None)
      | inr (true, closed) =>
          expireLoop fuel cutoff now (scanned + 1) (if closed : bool then expired + 1 else expired)
      end
  end.

Fixpoint pruneLoop (fuel : nat) (cutoff pruned : Z) : M (Z * option Err) :=
  match fuel with
  | O => mret (pruned, None)
  | S fuel =>
      r ← attempt (pruneOneTerminal cutoff);
      match r with
      | inl e => mret (pruned, Some e)
      | inr false => mret (pruned, None)
      | inr true => pruneLoop fuel cutoff (pruned + 1)
      end
  end.

Definition MaintainDeliveries (wall : Z) : M MaintenanceResult :=
  cfg ← gets retentionConfig;
  let now := Time.TruncateMs wall in
  let cutoff := ms (Time.Add now (- (PendingMaxAgeSeconds cfg * Time.Second))) in
  let batch := Z.to_nat (MaintenanceBatch cfg) in
  se ← expireLoop batch cutoff now 0 0;
  let '(scanned, expired, failure) := se in
  pe ← match failure with
    | Some e => mret (0, Some e)
    | None => pruneLoop batch
        (ms (Time.Add now (- (TerminalRetentionSeconds cfg * Time.Second)))) 0
    end;
  let '(pruned, failure) := pe in
  observe (ObserveTerminals ClosedExpired expired);;
  refreshPendingMetrics now;;
  match failure with
  | Some e => throw e
  | None => mret {| mr_Scanned := scanned; mr_Expired := expired; mr_Pruned := pruned |}
  end.

(** A maintenance loop keeps what each of its transactions keeps. *)
Lemma expireLoop_keeps (I : Db -> Prop) fuel cutoff now scanned expired :
  keeps I (expireOneDueDelivery cutoff now) ->
  keeps I (expireLoop fuel cutoff now scanned expired).
Proof.
  intros He. revert scanned expired.
  induction fuel as [|fuel IH]; intros; simpl; [apply reads_keeps, reads_ret|].
  apply keeps_bind; [by apply keeps_attempt|].
  intros [e|[[] ?]]; [apply reads_keeps, reads_ret|apply IH|apply reads_keeps, reads_ret].
Qed.

Lemma pruneLoop_keeps (I : Db -> Prop) fuel cutoff pruned :
  keeps I (pruneOneTerminal cutoff) -> keeps I (pruneLoop fuel cutoff pruned).
Proof.
  intros He. revert pruned.
  induction fuel as [|fuel IH]; intros; simpl; [apply reads_keeps, reads_ret|].
  apply keeps_bind; [by apply keeps_attempt|].
  intros [e|[]]; [apply reads_keeps, reads_ret|apply IH|apply reads_keeps, reads_ret].
Qed.

Lemma maintain_keeps (I : Db -> Prop) wall :
  (forall cutoff now, keeps I (expireOneDueDelivery cutoff now)) ->
  (forall cutoff, keeps I (pruneOneTerminal cutoff)) ->
  keeps I (MaintainDeliveries wall).
Proof.
  intros He Hp. unfold MaintainDeliveries. apply keeps_bind; [keep|]. intros cfg.
  apply keeps_bind; [apply expireLoop_keeps; auto|]. intros [[scanned expired] failure].
  apply keeps_bind; [destruct failure; [keep|apply pruneLoop_keeps; auto]|].
  intros [pruned failure']. keep.
Qed.

Record TerminalPage := { tp_Terminals : list (string * TerminalRow); tp_NextCursor : string }.

Definition ListTerminalDeliveries (after : string) (limit : Z) : M TerminalPage :=
  match boundedListLimit limit with
  | None => throw (ErrInvalid "terminal list limit")
  | Some limit =>
      rows ← query (fun d => take (Z.to_nat limit)
        (sortBy (fun a b => String.leb a.1 b.1)
          (filter (fun kv => stringLt after kv.1 = true) (map_to_list (db_delivery_terminals d)))));
      mret {| tp_Terminals := rows;
              tp_NextCursor := if Nat.eqb (length rows) (Z.to_nat limit)
                then match last rows with Some r => r.1 | None => "" end else "" |}
  end.
