(* ===== verification/Auth.v ===== *)
(** * Request authentication ([internal/relay/auth.go], [enrollment.go])

    A machine signs the canonical text of each request with its enrolled key;
    the relay checks the enrollment, the age of the request, the signature and
    finally consumes the nonce in the store.  During the transition to device
    credentials a durable authority outside the relay decides whether a key or
    a bearer credential may still be used.  The signature check, the timestamp
    parser and that authority are arguments: everything here holds for any. *)

From Stdlib Require Import Ascii.
From stdpp Require Import pretty.
From S2P Require Import Prelude GoTime RateLimit Quota Text Sha256 Tables Tx Sessions.
Open Scope Z_scope.

(** ** [strings] *)

Definition HasSuffix (s suffix : string) : bool :=
  let n := (String.length s - String.length suffix)%nat in
  (String.length suffix <=? String.length s)%nat && bool_decide (String.substring n (String.length suffix) s = suffix).

Fixpoint Contains (s sub : string) : bool :=
  HasPrefix s sub || match s with EmptyString => false | String _ s => Contains s sub end.

(** [strings.Count(s, sep)] for a one-byte separator. *)
Fixpoint CountByte (s : string) (c : ascii) : Z :=
  match s with
  | EmptyString => 0
  | String a s => (if bool_decide (a = c) then 1 else 0) + CountByte s c
  end.

(** [strings.ToUpper] on the ASCII letters; HTTP methods are ASCII tokens. *)
Definition upperByte (b : Z) : Z := if Utf8.inRange 0x61 0x7A b then b - 32 else b.
Definition ToUpper (s : string) : string := ofBytes (upperByte <$> bytesOf s).

(** [strings.Join(parts, "\n")] *)
Fixpoint joinLines (parts : list string) : string :=
  match parts with
  | [] => ""
  | [p] => p
  | p :: parts => p +:+ String "010"%char (joinLines parts)
  end.

(** ** Enrollment *)

Definition PublicKeySize : Z := 32.
Definition SignatureSize : Z := 64.
Definition noDevice : list Z := replicate 16 0.

Record Machine := {
  mc_ID : string;
  mc_PublicKey : list Z;
  mc_EndpointPrefixes : list string;
  mc_Endpoints : list string;
  mc_AttachmentDeviceID : list Z;
}.

Definition validEndpointPrefix (prefix : string) : bool :=
  ValidEndpoint prefix && negb (bool_decide (prefix = "/")) && HasSuffix prefix "/" &&
  negb (Contains prefix "//").

Definition machineOwnsEndpoint (machine : Machine) (endpoint : string) : bool :=
  bool_decide (endpoint ∈ mc_Endpoints machine) ||
  existsb (HasPrefix endpoint) (mc_EndpointPrefixes machine).

Definition validMachine (machine : Machine) : bool :=
  ValidMachineID (mc_ID machine) && (Z.of_nat (length (mc_PublicKey machine)) =? PublicKeySize) &&
  negb (bool_decide (mc_EndpointPrefixes machine = []) && bool_decide (mc_Endpoints machine = [])).

Definition validRules (machine : Machine) : bool :=
  forallb validEndpointPrefix (mc_EndpointPrefixes machine) &&
  forallb ValidEndpoint (mc_Endpoints machine) && negb (hasDuplicate (mc_Endpoints machine)).

(** The loop over the enrollment set, with the machines and devices so far. *)
Fixpoint configureMachines (machines : list Machine) (configured : gmap string Machine)
    (devices : gmap (list Z) string) : Err + gmap string Machine :=
  match machines with
  | [] => inr configured
  | machine :: machines =>
      let device := mc_AttachmentDeviceID machine in
      if negb (validMachine machine) then inl (ErrInvalid "machine enrollment")
      else if has configured (mc_ID machine) then inl (ErrInvalid "duplicate machine enrollment")
      else if negb (bool_decide (device = noDevice)) && has devices device
      then inl (ErrInvalid "attachment device bound twice")
      else if negb (validRules machine) then inl (ErrInvalid "endpoint rule")
      else configureMachines machines (<[mc_ID machine := machine]> configured)
             (if bool_decide (device = noDevice) then devices else <[device := mc_ID machine]> devices)
  end.

Definition prefixesOverlap (left right : Machine) : bool :=
  existsb (fun p => existsb (fun q => HasPrefix p q || HasPrefix q p) (mc_EndpointPrefixes right))
    (mc_EndpointPrefixes left).

Definition machinesOverlap (left right : Machine) : bool :=
  prefixesOverlap left right || existsb (machineOwnsEndpoint right) (mc_Endpoints left) ||
  existsb (machineOwnsEndpoint left) (mc_Endpoints right).

(** The pairs the two nested loops compare. *)
Definition anyOverlap (configured : gmap string Machine) : bool :=
  existsb (fun l => existsb (fun r => stringLt l.1 r.1 && machinesOverlap l.2 r.2)
    (map_to_list configured)) (map_to_list configured).

(** The digests of the enrolled keys; [None] when two machines share one. *)
Definition transitionKeys (configured : gmap string Machine) : option (gmap (list Z) string) :=
  foldr (fun km acc =>
    ids ← acc;
    let digest := Sha256.Sum256 (mc_PublicKey km.2) in
    if has ids digest then None else Some (<[digest := km.1]> ids)) (Some ∅) (map_to_list configured).

(** ** Requests *)

Definition maxRequestAge : Z := 5 * Time.Minute.

Record SignedRequest := {
  sr_MachineID : string;
  sr_Method : string;
  sr_Path : string;
  sr_Body : list Z;
  sr_Timestamp : Z;
  sr_Nonce : string;
  sr_Signature : list Z;
}.

Definition CanonicalRequest (request : SignedRequest) : string :=
  joinLines ["punaro-request-v1"; sr_MachineID request; ToUpper (sr_Method request); sr_Path request;
    hexEncode (Sha256.Sum256 (sr_Body request)); pretty (Time.UnixMilli (sr_Timestamp request));
    sr_Nonce request].

Definition EqualCanonicalRequest (left right : SignedRequest) : bool :=
  bool_decide (CanonicalRequest left = CanonicalRequest right).

Definition validSignedRequest (request : SignedRequest) (now : Z) : bool :=
  negb (bool_decide (TrimSpace (sr_Method request) = "") || negb (HasPrefix (sr_Path request) "/") ||
    ContainsByte (sr_Path request) "?" || ContainsByte (sr_Path request) "#" ||
    (goLen (sr_Nonce request) =? 0) || (128 <? goLen (sr_Nonce request)) ||
    negb (Z.of_nat (length (sr_Signature request)) =? SignatureSize)) &&
  negb (Time.IsZero (sr_Timestamp request)) &&
  (let age := Time.Sub now (sr_Timestamp request) in (age <=? maxRequestAge) && (- maxRequestAge <=? age)).

Record TransitionAuthorization := {
  ta_PrincipalID : string;
  ta_CredentialLookupID : string;
  ta_CredentialGeneration : Z;
  ta_LegacyPublicKey : list Z;
  ta_Current : option (unit -> bool);
}.

Record MachineSession := {
  ss_MachineID : string;
  ss_PrincipalID : string;
  ss_CredentialLookupID : string;
  ss_CredentialGeneration : Z;
  ss_current : option (unit -> bool);
}.

Definition noSession (machineID principalID : string) (current : option (unit -> bool)) : MachineSession :=
  {| ss_MachineID := machineID; ss_PrincipalID := principalID; ss_CredentialLookupID := "";
     ss_CredentialGeneration := 0; ss_current := current |}.

(** [MachineSession.Current]: whether the session may go on. *)
Definition sessionCurrent (session : MachineSession) : bool :=
  negb (bool_decide (ss_MachineID session = "")) &&
  match ss_current session with None => true | Some check => check tt end.

(** What the authenticator relies on outside the relay. *)
Class AuthEnv := {
  ed25519_Verify : list Z -> string -> list Z -> bool;
  parse_RFC3339Nano : string -> option Z;
}.

(** [AuthorizeTransition credential legacyKey]: [None] is an error. *)
Definition TransitionAuthority : Type := string -> option (list Z) -> option TransitionAuthorization.

(** The interface the authenticator needs of a store. *)
Definition NonceStore : Type := string -> string -> Z -> Z -> M unit.

Record Authenticator := {
  au_store : NonceStore;
  au_machines : gmap string Machine;
  au_transition : option TransitionAuthority;
  au_transitionMachineIDs : gmap (list Z) string;
}.

Definition newAuthenticator (store : option NonceStore) (machines : list Machine)
    (transition : option TransitionAuthority) : Err + Authenticator :=
  match store with
  | None => inl (ErrInvalid "nonce store")
  | Some store =>
  match configureMachines machines ∅ ∅ with
  | inl e => inl e
  | inr configured =>
      if anyOverlap configured then inl (ErrInvalid "overlapping endpoint namespaces")
      else match transition with
      | None => inr {| au_store := store; au_machines := configured; au_transition := None;
                       au_transitionMachineIDs := ∅ |}
      | Some _ =>
          match transitionKeys configured with
          | None => inl (ErrInvalid "ambiguous public key")
          | Some ids => inr {| au_store := store; au_machines := configured;
                               au_transition := transition; au_transitionMachineIDs := ids |}
          end
      end
  end end.

Definition NewAuthenticator (store : option NonceStore) (machines : list Machine) :=
  newAuthenticator store machines None.

Definition NewTransitionAuthenticator (store : option NonceStore) (machines : list Machine)
    (transition : option TransitionAuthority) : Err + Authenticator :=
  match transition with
  | None => inl (ErrInvalid "durable authority")
  | Some _ => newAuthenticator store machines transition
  end.

Definition AllowsEndpoint (a : Authenticator) (machineID endpoint : string) : bool :=
  match au_machines a !! machineID with
  | None => false
  | Some machine => machineOwnsEndpoint machine endpoint
  end.

Definition AttachmentDeviceID (a : option Authenticator) (machineID : string) : option (list Z) :=
  a ← a;
  machine ← au_machines a !! machineID;
  if bool_decide (mc_AttachmentDeviceID machine = noDevice) then None
  else Some (mc_AttachmentDeviceID machine).

(** ** Verification *)

Section Verify.
Context `{Env, AuthEnv}.

Definition verifySignature (a : Authenticator) (request : SignedRequest) (now : Z) : Err + Machine :=
  match au_machines a !! sr_MachineID request with
  | None => inl ErrForbidden
  | Some machine =>
      if negb (ValidRequestToken (sr_Nonce request)) || negb (validSignedRequest request now) ||
         negb (ed25519_Verify (mc_PublicKey machine) (CanonicalRequest request) (sr_Signature request))
      then inl ErrForbidden else inr machine
  end.

Definition consumeNonce (a : Authenticator) (machineID : string) (request : SignedRequest) (now : Z)
    : M unit := fun s =>
  match au_store a machineID (sr_Nonce request) now (Time.Add (sr_Timestamp request) maxRequestAge) s with
  | (inl ErrMaintenance, s') => (inl ErrMaintenance, s')
  | (inl _, s') => (inl ErrForbidden, s')
  | (inr u, s') => (inr u, s')
  end.

Definition Verify (a : Authenticator) (request : SignedRequest) (now : Z) : M unit :=
  match verifySignature a request now with
  | inl _ => throw ErrForbidden
  | inr machine => consumeNonce a (mc_ID machine) request now
  end.

(** ** HTTP requests

    A header maps its canonical name to its values. *)
Record Request := {
  rq_Method : string;
  rq_Path : option string;
  rq_Header : gmap string (list string);
}.

Definition Header_Values (r : Request) (name : string) : list string :=
  default [] (rq_Header r !! name).
Definition Header_Get (r : Request) (name : string) : string :=
  default "" (head (Header_Values r name)).

Definition DoctorPath : string := "/v1/doctor".
Definition DoctorNotificationsPath : string := "/v1/doctor/notifications".
Definition DoctorEndpointHeader : string := "X-Punaro-Doctor-Endpoint".

Definition bearer : string := "Bearer ".

Definition authenticateTransitionDevice (a : Authenticator) (request : Request) (authorization : string)
    : Err + MachineSession :=
  match au_transition a with
  | None => inl ErrForbidden
  | Some authorize =>
  if negb (Nat.eqb (length (Header_Values request "Authorization")) 1) ||
     negb (HasPrefix authorization bearer) || negb (CountByte authorization " " =? 1) ||
     negb (bool_decide (Header_Get request "X-Punaro-Machine" = "")) ||
     negb (bool_decide (Header_Get request "X-Punaro-Signature" = "")) ||
     negb (bool_decide (Header_Get request "X-Punaro-Timestamp" = "")) ||
     negb (bool_decide (Header_Get request "X-Punaro-Nonce" = ""))
  then inl ErrForbidden else
  let credential := String.substring 7 (String.length authorization - 7) authorization in
  if bool_decide (credential = "") then inl ErrForbidden else
  match authorize credential None with
  | None => inl ErrForbidden
  | Some t =>
      if negb (uuid_Validate (ta_PrincipalID t)) || negb (uuid_Validate (ta_CredentialLookupID t)) ||
         (ta_CredentialGeneration t <? 1) || bool_decide (ta_Current t = None) ||
         negb (Z.of_nat (length (ta_LegacyPublicKey t)) =? PublicKeySize)
      then inl ErrForbidden else
      match au_transitionMachineIDs a !! Sha256.Sum256 (ta_LegacyPublicKey t) with
      | None => inl ErrForbidden
      | Some machineID =>
          if negb (bool_decide (mc_PublicKey <$> au_machines a !! machineID = Some (ta_LegacyPublicKey t)))
          then inl ErrForbidden
          else inr {| ss_MachineID := machineID; ss_PrincipalID := ta_PrincipalID t;
                      ss_CredentialLookupID := ta_CredentialLookupID t;
                      ss_CredentialGeneration := ta_CredentialGeneration t; ss_current := ta_Current t |}
      end
  end end.

(** The envelope in the headers of a request, over [body]. *)
Definition signedRequest (request : Request) (body : list Z) : Err + SignedRequest :=
  match parse_RFC3339Nano (Header_Get request "X-Punaro-Timestamp") with
  | None => inl ErrForbidden
  | Some timestamp =>
      let signatureText := Header_Get request "X-Punaro-Signature" in
      match Base64.DecodeString signatureText with
      | None => inl ErrForbidden
      | Some signature =>
          if negb (bool_decide (Base64.EncodeToString signature = signatureText)) then inl ErrForbidden
          else match rq_Path request with
          | None => inl ErrPanic
          | Some path =>
              inr {| sr_MachineID := Header_Get request "X-Punaro-Machine";
                     sr_Method := rq_Method request; sr_Path := path; sr_Body := body;
                     sr_Timestamp := timestamp; sr_Nonce := Header_Get request "X-Punaro-Nonce";
                     sr_Signature := signature |}
          end
      end
  end.

(** What the durable authority must answer for a verified legacy key. *)
Definition authorizeLegacy (authorize : TransitionAuthority) (machine : Machine)
    : Err + TransitionAuthorization :=
  match authorize "" (Some (mc_PublicKey machine)) with
  | None => inl ErrForbidden
  | Some t =>
      if negb (uuid_Validate (ta_PrincipalID t)) || bool_decide (ta_Current t = None) ||
         negb (bool_decide (ta_LegacyPublicKey t = mc_PublicKey machine))
      then inl ErrForbidden else inr t
  end.

Definition of_result {A} (r : Err + A) : M A :=
  match r with inl e => throw e | inr a => mret a end.

Definition AuthenticateHTTPSession (a : option Authenticator) (request : option Request)
    (body : list Z) (now : Z) : M MachineSession :=
  match a, request with
  | Some a, Some request =>
      let authorization := Header_Get request "Authorization" in
      if negb (bool_decide (authorization = ""))
      then of_result (authenticateTransitionDevice a request authorization)
      else
        signed ← of_result (signedRequest request body);
        match au_transition a with
        | None => Verify a signed now;; mret (noSession (sr_MachineID signed) "" None)
        | Some authorize =>
            machine ← of_result (verifySignature a signed now);
            t ← of_result (authorizeLegacy authorize machine);
            consumeNonce a (mc_ID machine) signed now;;
            mret (noSession (sr_MachineID signed) (ta_PrincipalID t) (ta_Current t))
        end
  | _, _ => throw ErrForbidden
  end.

Definition AuthenticateHTTP (a : option Authenticator) (request : option Request) (body : list Z)
    (now : Z) : M string :=
  session ← AuthenticateHTTPSession a request body now; mret (ss_MachineID session).

(** The doctor probe checks everything but does not consume the nonce. *)
Definition AuthenticateReadOnlyDoctor (a : option Authenticator) (request : option Request)
    (body : list Z) (now : Z) : Err + MachineSession :=
  match a, request with
  | Some a, Some request =>
  match rq_Path request with
  | None => inl ErrForbidden
  | Some path =>
      let head := bool_decide (rq_Method request = "HEAD") && bool_decide (path = DoctorPath) in
      let get := bool_decide (rq_Method request = "GET") && bool_decide (path = DoctorNotificationsPath) in
      let authorization := Header_Get request "Authorization" in
      if negb (head || get) || negb (bool_decide (body = [])) then inl ErrForbidden
      else if negb (bool_decide (authorization = ""))
      then authenticateTransitionDevice a request authorization
      else
        let signedBody := if head then bytesOf (Header_Get request DoctorEndpointHeader) else body in
        match signedRequest request signedBody with
        | inl e => inl e
        | inr signed =>
        match verifySignature a signed now with
        | inl _ => inl ErrForbidden
        | inr machine =>
        match au_transition a with
        | None => inr (noSession (mc_ID machine) "" None)
        | Some authorize =>
        match authorizeLegacy authorize machine with
        | inl e => inl e
        | inr t => inr (noSession (mc_ID machine) (ta_PrincipalID t) (ta_Current t))
        end end end end
  end
  | _, _ => inl ErrForbidden
  end.
End Verify.

(** ** The enrollment setting ([enrollment.go])

    The decoded JSON records; the stores that validation runs against. *)
Record EnrollmentRecord := {
  er_ID : string;
  er_PublicKey : string;
  er_EndpointPrefixes : list string;
  er_Endpoints : list string;
  er_AttachmentDeviceID : string;
}.

Definition recordDevice (record : EnrollmentRecord) : option (list Z) :=
  let text := er_AttachmentDeviceID record in
  if bool_decide (text = "") then Some noDevice else
  decoded ← Base64.DecodeString text;
  if negb (Nat.eqb (length decoded) 16) || negb (bool_decide (Base64.EncodeToString decoded = text)) ||
     bool_decide (decoded = noDevice)
  then None else Some decoded.

Definition machineOf (record : EnrollmentRecord) : Err + Machine :=
  match Base64.DecodeString (er_PublicKey record) with
  | None => inl (ErrInvalid "public key")
  | Some publicKey =>
      if negb (Z.of_nat (length publicKey) =? PublicKeySize) then inl (ErrInvalid "public key")
      else match recordDevice record with
      | None => inl (ErrInvalid "attachment device ID")
      | Some device =>
          inr {| mc_ID := er_ID record; mc_PublicKey := publicKey;
                 mc_EndpointPrefixes := er_EndpointPrefixes record; mc_Endpoints := er_Endpoints record;
                 mc_AttachmentDeviceID := device |}
      end
  end.

Fixpoint ParseMachineEnrollments (records : list EnrollmentRecord) : Err + list Machine :=
  match records with
  | [] => inr []
  | record :: records =>
      match machineOf record with
      | inl e => inl e
      | inr machine =>
          match ParseMachineEnrollments records with
          | inl e => inl e
          | inr machines => inr (machine :: machines)
          end
      end
  end.

Definition enrollmentValidationStore : NonceStore := fun _ _ _ _ => mret tt.
Definition enrollmentValidationTransition : TransitionAuthority := fun _ _ => None.

Definition machineEnrollmentAuthenticator (records : list EnrollmentRecord)
    : Err + (Authenticator * list Machine) :=
  match ParseMachineEnrollments records with
  | inl e => inl e
  | inr machines =>
      match newAuthenticator (Some enrollmentValidationStore) machines
              (Some enrollmentValidationTransition) with
      | inl e => inl e
      | inr authenticator => inr (authenticator, machines)
      end
  end.

Definition ValidateMachineEnrollments (records : list EnrollmentRecord) : Err + unit :=
  match machineEnrollmentAuthenticator records with inl e => inl e | inr _ => inr tt end.
