(* ===== verification/Source.v ===== *)
(** * The migration source ([migration_source.go], [migration_batch.go])

    The relay's file can be handed over to the PostgreSQL backend: an operator
    inspects it, prepares it (which fences every lease and freezes the tables),
    exports its rows in pages, and then retires it or aborts.  The model is for
    a file of the current schema, version 8: the variants of older releases and
    of the repaired Telegram branch differ in tables that [Db] always has.
    The row [relay_migration_control] is [db_phase] and a [MigrationControl];
    no relay operation writes the latter. *)

From Stdlib Require Import Ascii.
From S2P Require Import Prelude GoTime RateLimit Quota Text Sha256 Tables Tx Sessions Pending.
From S2P Require Import Invocations Rooms Auth.
Open Scope Z_scope.

(** ** Portable values *)

(** The Go values a column is read as. *)
Inductive SqlValue := VNull | VInt (z : Z) | VText (s : string).

#[export] Instance SqlValue_eq_dec : EqDecision SqlValue.
Proof. solve_decision. Defined.

Definition nullable {A} (f : A -> SqlValue) (v : option A) : SqlValue :=
  match v with Some a => f a | None => VNull end.
Definition VBool (b : bool) : SqlValue := VInt (if b then 1 else 0).

(** utf8.ValidString(typed) && !strings.ContainsRune(typed, 0) *)
Definition portableText (s : string) : bool :=
  Utf8.ValidString (bytesOf s) && negb (ContainsByte s "000").

(** Kind, big-endian length, body. *)
Definition frame (kind : Z) (body : list Z) : list Z :=
  kind :: Sha256.be 8 (Z.of_nat (length body)) ++ body.

Definition writeMigrationHashValue (v : SqlValue) : option (list Z) :=
  match v with
  | VNull => Some (frame 0 [])
  | VInt z => Some (frame 1 (Sha256.be 8 (wrapu64 z)))
  | VText s => if portableText s then Some (frame 2 (bytesOf s)) else None
  end.

(** The values of one row, written one after the other. *)
Fixpoint writeValues (vs : list SqlValue) : option (list Z) :=
  match vs with
  | [] => Some []
  | v :: vs => l ← writeMigrationHashValue v; r ← writeValues vs; Some (l ++ r)
  end.

(** ** Exported tables *)

Fixpoint keysCompare (a b : list string) : comparison :=
  match a, b with
  | [], [] => Eq
  | [], _ => Lt
  | _, [] => Gt
  | x :: a, y :: b => match String.compare x y with Eq => keysCompare a b | c => c end
  end.
Definition keysLe (a b : list string) : bool := match keysCompare a b with Gt => false | _ => true end.
Definition keysLt (a b : list string) : bool := match keysCompare a b with Lt => true | _ => false end.

(** SELECT columns FROM table ORDER BY key: the key of a row and its values. *)
Definition orderedRows {K V} `{Countable K} (key : K -> list string) (row : K -> V -> list SqlValue)
    (m : gmap K V) : list (list string * list SqlValue) :=
  sortBy (fun a b => keysLe a.1 b.1) ((fun kv => (key kv.1, row kv.1 kv.2)) <$> map_to_list m).

Definition one (k : string) : list string := [k].
Definition two (k : string * string) : list string := [k.1; k.2].

Record migrationTableSpec := {
  sp_name : string;
  sp_target : string;                              (* the table it is imported into *)
  sp_columns : list string;
  sp_keys : nat;                                   (* number of key columns *)
  sp_rows : Db -> list (list string * list SqlValue);
}.

Definition idemValues (k : string * string) (r : IdemRow) : list SqlValue :=
  [VText k.1; VText k.2; VText (id_hash r); VText (id_target r); VInt (id_created_at r)].
Definition idemColumns (target : string) : list string :=
  ["machine_id"; "key"; "request_hash"; target; "created_at"].

Definition operationText (op : ControlOperation) : string :=
  match op with ControlUpsertMember => "upsert_member" | ControlRemoveMember => "remove_member" end.
Definition statusText (status : ClaimStatus) : string :=
  match status with ClaimPending => "pending" | ClaimComplete => "complete" end.

Definition endpointSpec : migrationTableSpec := {|
  sp_name := "endpoints"; sp_target := "mail_endpoints"; sp_keys := 1;
  sp_columns := ["endpoint"; "machine_id"; "lease_until"; "ownership_generation"; "consumer_id";
    "consumer_generation"; "consumer_lease_until"];
  sp_rows d := orderedRows one (fun k e => [VText k; VText (ep_machine e); VInt (ep_lease_until e);
    VInt (ep_generation e); nullable VText (ep_consumer e); VInt (ep_consumer_generation e);
    nullable VInt (ep_consumer_until e)]) (db_endpoints d) |}.

Definition conversationSpec : migrationTableSpec := {|
  sp_name := "conversations"; sp_target := "mail_conversations"; sp_keys := 1;
  sp_columns := ["id"; "next_sequence"; "created_at"; "display_name"];
  sp_rows d := orderedRows one (fun k c => [VText k; VInt (cv_next_sequence c); VInt (cv_created_at c);
    nullable VText (cv_display_name c)]) (db_conversations d) |}.

Definition membershipSpec : migrationTableSpec := {|
  sp_name := "memberships"; sp_target := "mail_memberships"; sp_keys := 2;
  sp_columns := ["conversation_id"; "endpoint"; "capabilities"];
  sp_rows d := orderedRows two (fun k c => [VText k.1; VText k.2; VInt c]) (db_memberships d) |}.

Definition roleSpec : migrationTableSpec := {|
  sp_name := "roles"; sp_target := "mail_roles"; sp_keys := 1;
  sp_columns := ["role"; "machine_id"];
  sp_rows d := orderedRows one (fun k m => [VText k; VText m]) (db_roles d) |}.

Definition roleMembershipSpec : migrationTableSpec := {|
  sp_name := "role_memberships"; sp_target := "mail_role_memberships"; sp_keys := 2;
  sp_columns := ["conversation_id"; "role"; "capabilities"];
  sp_rows d := orderedRows two (fun k c => [VText k.1; VText k.2; VInt c]) (db_role_memberships d) |}.

Definition bindingSpec : migrationTableSpec := {|
  sp_name := "role_bindings"; sp_target := "mail_role_bindings"; sp_keys := 1;
  sp_columns := ["role"; "session_endpoint"; "machine_id"; "ownership_generation"; "lease_until"];
  sp_rows d := orderedRows one (fun k b => [VText k; VText (bd_session b); VText (bd_machine b);
    VInt (bd_generation b); VInt (bd_lease_until b)]) (db_role_bindings d) |}.

Definition messageSpec : migrationTableSpec := {|
  sp_name := "messages"; sp_target := "mail_messages"; sp_keys := 1;
  sp_columns := ["id"; "conversation_id"; "sequence"; "from_endpoint"; "from_participant";
    "in_reply_to_message_id"; "in_reply_to_endpoint"; "telegram_thread_id"; "body"; "created_at"];
  sp_rows d := orderedRows one (fun k m => [VText k; VText (ms_conversation m); VInt (ms_sequence m);
    VText (ms_from m); nullable VText (ms_participant m); nullable VText (ms_reply_message m);
    nullable VText (ms_reply_endpoint m); nullable VInt (ms_thread m); VText (ms_body m);
    VInt (ms_created_at m)]) (db_messages d) |}.

Definition deliverySpec : migrationTableSpec := {|
  sp_name := "deliveries"; sp_target := "mail_deliveries"; sp_keys := 1;
  sp_columns := ["id"; "message_id"; "recipient_endpoint"; "lease_machine_id"; "lease_token";
    "lease_generation"; "ownership_generation"; "consumer_generation"; "lease_until"; "acked_at"];
  sp_rows d := orderedRows one (fun k l => [VText k; VText (dl_message l); VText (dl_recipient l);
    nullable VText (dl_machine l); nullable VText (dl_token l); VInt (dl_generation l);
    nullable VInt (dl_ownership l); nullable VInt (dl_consumer l); nullable VInt (dl_until l);
    nullable VInt (dl_acked l)]) (db_deliveries d) |}.

Definition cursorSpec : migrationTableSpec := {|
  sp_name := "recipient_cursors"; sp_target := "mail_recipient_cursors"; sp_keys := 2;
  sp_columns := ["recipient_endpoint"; "conversation_id"; "sequence"];
  sp_rows d := orderedRows two (fun k v => [VText k.1; VText k.2; VInt v]) (db_recipient_cursors d) |}.

Definition idempotencySpec : migrationTableSpec := {|
  sp_name := "idempotency"; sp_target := "mail_message_idempotency"; sp_keys := 2;
  sp_columns := idemColumns "message_id";
  sp_rows d := orderedRows two idemValues (db_idempotency d) |}.

Definition conversationIdempotencySpec : migrationTableSpec := {|
  sp_name := "conversation_idempotency"; sp_target := "mail_conversation_idempotency"; sp_keys := 2;
  sp_columns := idemColumns "conversation_id";
  sp_rows d := orderedRows two idemValues (db_conversation_idempotency d) |}.

Definition controlSpec : migrationTableSpec := {|
  sp_name := "conversation_controls"; sp_target := "mail_conversation_controls"; sp_keys := 1;
  sp_columns := ["id"; "conversation_id"; "actor_endpoint"; "operation"; "member_endpoint";
    "member_capabilities"; "created_at"];
  sp_rows d := orderedRows one (fun k c => [VText k; VText (ct_conversation c); VText (ct_actor c);
    VText (operationText (ct_operation c)); VText (ct_member c); VInt (ct_capabilities c);
    VInt (ct_created_at c)]) (db_conversation_controls d) |}.

Definition controlIdempotencySpec : migrationTableSpec := {|
  sp_name := "conversation_control_idempotency"; sp_target := "mail_conversation_control_idempotency";
  sp_keys := 2; sp_columns := idemColumns "control_id";
  sp_rows d := orderedRows two idemValues (db_conversation_control_idempotency d) |}.

Definition nonceSpec : migrationTableSpec := {|
  sp_name := "request_nonces"; sp_target := "mail_request_nonces"; sp_keys := 2;
  sp_columns := ["machine_id"; "nonce"; "expires_at"];
  sp_rows d := orderedRows two (fun k v => [VText k.1; VText k.2; VInt v]) (db_request_nonces d) |}.

Definition profileSpec : migrationTableSpec := {|
  sp_name := "role_profiles"; sp_target := "mail_role_profiles"; sp_keys := 1;
  sp_columns := ["role"; "display_name"; "direct_addressable"; "updated_at"];
  sp_rows d := orderedRows one (fun k p => [VText k; nullable VText (pr_display p);
    VBool (pr_addressable p); VInt (pr_updated_at p)]) (db_role_profiles d) |}.

Definition profileIdempotencySpec : migrationTableSpec := {|
  sp_name := "role_profile_idempotency"; sp_target := "mail_role_profile_idempotency"; sp_keys := 2;
  sp_columns := ["machine_id"; "key"; "request_hash"; "role"; "display_name"; "direct_addressable";
    "updated_at"; "created_at"];
  sp_rows d := orderedRows two (fun k p => [VText k.1; VText k.2; VText (pi_hash p); VText (pi_role p);
    nullable VText (pi_display p); VBool (pi_addressable p); VInt (pi_updated_at p);
    VInt (pi_created_at p)]) (db_role_profile_idempotency d) |}.

Definition bucketSpec : migrationTableSpec := {|
  sp_name := "rate_buckets"; sp_target := "mail_rate_buckets"; sp_keys := 2;
  sp_columns := ["kind"; "bucket_key"; "tokens"; "updated_at"];
  sp_rows d := orderedRows two (fun k v => [VText k.1; VText k.2; VInt v.1; VInt v.2]) (db_rate_buckets d) |}.

Definition directSpec : migrationTableSpec := {|
  sp_name := "direct_conversations"; sp_target := "mail_direct_conversations"; sp_keys := 2;
  sp_columns := ["role_low"; "role_high"; "conversation_id"; "created_at"];
  sp_rows d := orderedRows two (fun k r => [VText k.1; VText k.2; VText (dc_conversation r);
    VInt (dc_created_at r)]) (db_direct_conversations d) |}.

Definition fromRoleSpec : migrationTableSpec := {|
  sp_name := "message_from_roles"; sp_target := "mail_message_from_roles"; sp_keys := 1;
  sp_columns := ["message_id"; "from_role"];
  sp_rows d := orderedRows one (fun k r => [VText k; VText r]) (db_message_from_roles d) |}.

Definition directIdempotencySpec : migrationTableSpec := {|
  sp_name := "direct_message_idempotency"; sp_target := "mail_direct_message_idempotency"; sp_keys := 2;
  sp_columns := ["machine_id"; "key"; "request_hash"; "from_role"; "to_role"; "conversation_id";
    "message_id"; "sequence"; "created_at"];
  sp_rows d := orderedRows two (fun k r => [VText k.1; VText k.2; VText (di_hash r); VText (di_from r);
    VText (di_to r); VText (di_conversation r); VText (di_message r); VInt (di_sequence r);
    VInt (di_created_at r)]) (db_direct_message_idempotency d) |}.

Definition claimSpec : migrationTableSpec := {|
  sp_name := "telegram_claims"; sp_target := "mail_telegram_claims"; sp_keys := 1;
  sp_columns := ["conversation_id"; "status"; "requested_by_machine"; "requested_by_endpoint";
    "idempotency_key"; "request_hash"; "created_at"; "completed_at"];
  sp_rows d := orderedRows one (fun k c => [VText k; VText (statusText (cl_status c)); VText (cl_machine c);
    VText (cl_endpoint c); VText (cl_key c); VText (cl_hash c); VInt (cl_created_at c);
    nullable VInt (cl_completed_at c)]) (db_telegram_claims d) |}.

Definition participantSpec : migrationTableSpec := {|
  sp_name := "telegram_participants"; sp_target := "mail_telegram_participants"; sp_keys := 1;
  sp_columns := ["conversation_id"; "label"; "created_at"];
  sp_rows d := orderedRows one (fun k v => [VText k; VText TelegramUserParticipant; VInt v])
    (db_telegram_participants d) |}.

Definition claimEventSpec : migrationTableSpec := {|
  sp_name := "telegram_claim_events"; sp_target := "mail_telegram_claim_events"; sp_keys := 1;
  sp_columns := ["id"; "conversation_id"; "event"; "actor_machine"; "actor_endpoint"; "created_at"];
  sp_rows d := orderedRows one (fun k e => [VText k; VText (ce_conversation e); VText "complete";
    VText (ce_machine e); VText (ce_endpoint e); VInt (ce_created_at e)]) (db_telegram_claim_events d) |}.

Definition displayNameIdempotencySpec : migrationTableSpec := {|
  sp_name := "conversation_display_name_idempotency";
  sp_target := "mail_conversation_display_name_idempotency"; sp_keys := 2;
  sp_columns := idemColumns "conversation_id";
  sp_rows d := orderedRows two idemValues (db_conversation_display_name_idempotency d) |}.

Definition claimIdempotencySpec : migrationTableSpec := {|
  sp_name := "telegram_claim_idempotency"; sp_target := "mail_telegram_claim_idempotency"; sp_keys := 2;
  sp_columns := idemColumns "conversation_id";
  sp_rows d := orderedRows two idemValues (db_telegram_claim_idempotency d) |}.

Definition migrationTableSpecs : list migrationTableSpec :=
  [endpointSpec; conversationSpec; membershipSpec; roleSpec; roleMembershipSpec; bindingSpec;
   messageSpec; deliverySpec; cursorSpec; idempotencySpec; conversationIdempotencySpec; controlSpec;
   controlIdempotencySpec; nonceSpec; profileSpec; profileIdempotencySpec; bucketSpec; directSpec;
   fromRoleSpec; directIdempotencySpec; claimSpec; participantSpec; claimEventSpec;
   displayNameIdempotencySpec; claimIdempotencySpec].

(** ** Schema inventory

    Columns, foreign keys, indexes and guard triggers of the fixed tables are
    those [migrate] creates.  What can differ between two files is whether the
    start-request tables exist; they have no guard triggers. *)

Definition isOperationalQuotaTable (name : string) : bool :=
  bool_decide (name ∈ ["pending_quota_recipients"; "pending_quota_install"; "delivery_terminals"]).

(** The names in [sqlite_master], without the order. *)
Definition tableNames (d : Db) : list string :=
  (sp_name <$> migrationTableSpecs) ++ ["relay_migration_control"; "pending_quota_recipients";
    "pending_quota_install"; "delivery_terminals"] ++
  (if db_invocation_schema d then ["invocations"; "invocation_idempotency"; "invocation_audit"] else []).

Definition filterOperationalQuotaTables (names : list string) : list string :=
  filter (fun name => isOperationalQuotaTable name = false) names.

Definition wantTables : list string :=
  ["conversation_control_idempotency"; "conversation_controls"; "conversation_display_name_idempotency";
   "conversation_idempotency"; "conversations"; "deliveries"; "direct_conversations";
   "direct_message_idempotency"; "endpoints"; "idempotency"; "memberships"; "message_from_roles";
   "messages"; "rate_buckets"; "recipient_cursors"; "relay_migration_control"; "request_nonces";
   "role_bindings"; "role_memberships"; "role_profile_idempotency"; "role_profiles"; "roles";
   "telegram_claim_events"; "telegram_claim_idempotency"; "telegram_claims"; "telegram_participants"].

Definition stringLe (a b : string) : bool := match String.compare a b with Gt => false | _ => true end.

Definition expectedSchema (d : Db) : bool :=
  bool_decide (sortBy stringLe (filterOperationalQuotaTables (tableNames d)) = sortBy stringLe wantTables).

(** PRAGMA foreign_key_check *)
Definition tableReferences {K V} `{Countable K} (T : Table K V) (d : Db) : bool :=
  negb (mexists (fun k v => negb (t_fk T d k v)) (t_get T d)).

Definition foreignKeysHold (d : Db) : bool :=
  tableReferences t_memberships d && tableReferences t_role_memberships d &&
  tableReferences t_role_bindings d && tableReferences t_role_profiles d &&
  tableReferences t_role_profile_idempotency d && tableReferences t_messages d &&
  tableReferences t_deliveries d && tableReferences t_recipient_cursors d &&
  tableReferences t_idempotency d && tableReferences t_conversation_idempotency d &&
  tableReferences t_conversation_controls d && tableReferences t_conversation_control_idempotency d &&
  tableReferences t_conversation_display_name_idempotency d && tableReferences t_direct_conversations d &&
  tableReferences t_message_from_roles d && tableReferences t_direct_message_idempotency d &&
  tableReferences t_telegram_claims d && tableReferences t_telegram_participants d &&
  tableReferences t_telegram_claim_events d && tableReferences t_telegram_claim_idempotency d.

(** ** Logical constraints: [logicalStateQuery] for the current schema

    A clause is true when it finds an offending row.  The column types are those
    of the row records, so the [typeof] tests never fire. *)

Definition hexText (s : string) : bool :=
  forallb (fun b => Utf8.inRange 0x30 0x39 b || Utf8.inRange 0x61 0x66 b) (bytesOf s).
(** length(request_hash)<>64 OR request_hash GLOB '*[^0-9a-f]*' *)
Definition badDigest (s : string) : bool := negb (goLen s =? 64) || negb (hexText s).

Definition charAt (s : string) (n : nat) : option Z := bytesOf s !! n.
(** lower(replace(value,'-','')) *)
Definition withoutDashes (s : string) : list Z :=
  (fun b => if Utf8.inRange 0x41 0x5A b then b + 32 else b) <$> filter (fun b => b <> 0x2D) (bytesOf s).
Definition uuidText (s : string) : bool :=
  (goLen s =? 36) && forallb (fun n => bool_decide (charAt s n = Some 0x2D)) [8%nat; 13%nat; 18%nat; 23%nat] &&
  forallb (fun b => Utf8.inRange 0x30 0x39 b || Utf8.inRange 0x61 0x66 b) (withoutDashes s).

(** The recipient names a missing role, or is an endpoint that is missing. *)
Definition unknownRecipient (d : Db) (recipient : string) : bool :=
  match CutPrefix recipient (String "030" "role:") with
  | Some role => negb (has (db_roles d) role)
  | None => negb (has (db_endpoints d) recipient)
  end.

Definition isNull {A} (v : option A) : bool := match v with None => true | Some _ => false end.

Definition badEndpointRow (e : EndpointRow) : bool :=
  (ep_generation e <? 1) || (ep_consumer_generation e <? 0) ||
  negb (Bool.eqb (isNull (ep_consumer e)) (isNull (ep_consumer_until e))).

Definition leaseNulls (l : DeliveryRow) : list bool :=
  [isNull (dl_machine l); isNull (dl_token l); isNull (dl_ownership l); isNull (dl_consumer l); isNull (dl_until l)].

Definition badLease (l : DeliveryRow) : bool :=
  (dl_generation l <? 0) ||
  negb (isNull (dl_token l)) && (match dl_ownership l with Some g => g <? 1 | None => false end ||
    match dl_consumer l with Some g => g <? 0 | None => false end) ||
  negb (isNull (dl_acked l)) && negb (isNull (dl_token l)) ||
  existsb (fun b => b) (leaseNulls l) && negb (forallb (fun b => b) (leaseNulls l)).

(** lease_token IS NOT NULL AND (length(lease_token)<>64 OR lease_token GLOB '*[^0-9a-f]*') *)
Definition badToken (l : DeliveryRow) : bool :=
  match dl_token l with Some token => badDigest token | None => false end.

Definition badControl (c : ControlRow) : bool :=
  (ct_capabilities c <? 0) || (15 <? ct_capabilities c) ||
  bool_decide (ct_operation c = ControlUpsertMember) && (ct_capabilities c =? 0) ||
  bool_decide (ct_operation c = ControlRemoveMember) && negb (ct_capabilities c =? 0).

(** GROUP BY target HAVING count( * )<>1: two rows with the same target. *)
Definition sharedTarget (m : gmap (string * string) IdemRow) : bool :=
  mexists (fun k r => mexists (fun k' r' => negb (bool_decide (k = k')) &&
    bool_decide (id_target r = id_target r')) m) m.

Definition retryCount (d : Db) (id : string) : Z :=
  mcount (fun _ r => bool_decide (id_target r = id)) (db_conversation_control_idempotency d).

(** A binding whose role or session is gone or owned by another machine, or that
    was made under another ownership generation of its session. *)
Definition badBinding (d : Db) (role : string) (b : BindingRow) : bool :=
  match db_roles d !! role, db_endpoints d !! bd_session b with
  | Some owner, Some e =>
      (bd_generation b <? 1) || negb (bool_decide (owner = bd_machine b)) ||
      negb (bool_decide (ep_machine e = bd_machine b)) || negb (ep_generation e =? bd_generation b)
  | _, _ => true
  end.

Definition uuidValues (d : Db) : list string :=
  (map_to_list (db_conversations d)).*1 ++ (map_to_list (db_memberships d)).*1.*1 ++
  (map_to_list (db_messages d)).*1 ++ (ms_conversation <$> (map_to_list (db_messages d)).*2) ++
  (map_to_list (db_deliveries d)).*1 ++ (dl_message <$> (map_to_list (db_deliveries d)).*2) ++
  (map_to_list (db_recipient_cursors d)).*1.*2 ++
  (id_target <$> (map_to_list (db_idempotency d)).*2) ++
  (id_target <$> (map_to_list (db_conversation_idempotency d)).*2) ++
  (map_to_list (db_conversation_controls d)).*1 ++
  (ct_conversation <$> (map_to_list (db_conversation_controls d)).*2) ++
  (id_target <$> (map_to_list (db_conversation_control_idempotency d)).*2) ++
  (dc_conversation <$> (map_to_list (db_direct_conversations d)).*2) ++
  (map_to_list (db_message_from_roles d)).*1 ++
  (di_conversation <$> (map_to_list (db_direct_message_idempotency d)).*2) ++
  (di_message <$> (map_to_list (db_direct_message_idempotency d)).*2).

Definition invalidRooms (d : Db) : bool :=
  mexists (fun _ e => badEndpointRow e) (db_endpoints d) ||
  mexists (fun _ c => cv_next_sequence c <? 0) (db_conversations d) ||
  mexists (fun _ c => (c <? 1) || (15 <? c)) (db_memberships d) ||
  mexists (fun _ c => (c <? 1) || (7 <? c)) (db_role_memberships d) ||
  mexists (fun k _ => negb (has (db_endpoints d) k.2)) (db_memberships d).

Definition aheadOfRoom (d : Db) (conversation : string) (sequence : Z) : bool :=
  match db_conversations d !! conversation with
  | Some c => cv_next_sequence c <? sequence
  | None => false
  end.

Definition invalidMail (d : Db) : bool :=
  mexists (fun _ m => (ms_sequence m <? 1) || (32768 <? goLen (ms_body m))) (db_messages d) ||
  mexists (fun _ m => negb (has (db_endpoints d) (ms_from m))) (db_messages d) ||
  mexists (fun _ m => aheadOfRoom d (ms_conversation m) (ms_sequence m)) (db_messages d) ||
  mexists (fun _ l => badLease l || badToken l) (db_deliveries d) ||
  mexists (fun _ l => unknownRecipient d (dl_recipient l)) (db_deliveries d) ||
  mexists (fun k v => has (db_conversations d) k.2 && ((v <? 0) || aheadOfRoom d k.2 v)) (db_recipient_cursors d) ||
  mexists (fun k _ => unknownRecipient d k.1) (db_recipient_cursors d).

Definition invalidRetries (d : Db) : bool :=
  mexists (fun _ r => badDigest (id_hash r)) (db_idempotency d) || sharedTarget (db_idempotency d) ||
  mexists (fun _ r => badDigest (id_hash r)) (db_conversation_idempotency d) ||
  sharedTarget (db_conversation_idempotency d) ||
  mexists (fun _ c => badControl c) (db_conversation_controls d) ||
  mexists (fun _ c => negb (has (db_endpoints d) (ct_actor c)) || negb (has (db_endpoints d) (ct_member c)))
    (db_conversation_controls d) ||
  mexists (fun _ r => badDigest (id_hash r)) (db_conversation_control_idempotency d) ||
  mexists (fun id _ => negb (retryCount d id =? 1)) (db_conversation_controls d).

Definition invalidRoles (d : Db) : bool :=
  mexists (fun k b => badBinding d k b) (db_role_bindings d) ||
  mexists (fun k v => negb (bool_decide (k.1 = "sender") || bool_decide (k.1 = "conversation")) || (v.1 <? 0))
    (db_rate_buckets d) ||
  mexists (fun k r => negb (stringLt k.1 k.2) || negb (t_fk t_direct_conversations d k r))
    (db_direct_conversations d) ||
  mexists (fun k r => negb (t_fk t_message_from_roles d k r)) (db_message_from_roles d) ||
  mexists (fun k r => badDigest (di_hash r) || (di_sequence r <? 1) ||
    negb (t_fk t_direct_message_idempotency d k r)) (db_direct_message_idempotency d) ||
  mexists (fun k _ => negb (has (db_roles d) k)) (db_role_profiles d) ||
  mexists (fun _ r => badDigest (pi_hash r) || negb (has (db_role_profiles d) (pi_role r)))
    (db_role_profile_idempotency d).

Definition invalidLogicalState (d : Db) : bool :=
  invalidRooms d || invalidMail d || invalidRetries d ||
  existsb (fun v => negb (uuidText v)) (uuidValues d) || invalidRoles d.

(** Every recorded control matches the digest of its retry record. *)
Definition controlInputOf (c : ControlRow) : ControlInput := {|
  ci_ConversationID := ct_conversation c; ci_ActorMachineID := ""; ci_ActorEndpoint := ct_actor c;
  ci_Operation := operationText (ct_operation c);
  ci_Member := {| m_Endpoint := ct_member c; m_Role := ""; m_RoleMachineID := "";
                  m_Capabilities := ct_capabilities c |};
  ci_IdempotencyKey := ""; ci_Now := 0 |}.

Definition controlRetriesBound (d : Db) : bool :=
  negb (mexists (fun _ r =>
    match db_conversation_controls d !! id_target r with
    | Some c => negb (bool_decide (id_hash r = controlHash (controlInputOf c)))
    | None => false
    end) (db_conversation_control_idempotency d)).

Definition verifyMigrationSourceSchema (d : Db) : Err + unit :=
  if negb (expectedSchema d) then inl (ErrInvalid "unexpected schema")
  else if negb (foreignKeysHold d) then inl (ErrInvalid "foreign keys")
  else if invalidLogicalState d then inl (ErrInvalid "logical constraints")
  else if negb (controlRetriesBound d) then inl (ErrInvalid "control retry binding")
  else inr tt.

(** ** Inspection *)

Record MigrationControl := {
  mg_source_id : string;
  mg_epoch_id : option string;
  mg_target_identity : option string;
  mg_fingerprint : option string;
  mg_last_epoch_id : option string;
  mg_last_target_identity : option string;
  mg_last_expected_fingerprint : option string;
  mg_last_result_fingerprint : option string;
  mg_last_cutoff : option Z;
  mg_last_transition : option string;
  mg_changed_at : Z;
}.

(** Row count and digest of one table. *)
Record TableEvidence := { te_name : string; te_count : Z; te_sha256 : string }.

Record MigrationSourceManifest := {
  mm_Version : Z;
  mm_SourceID : string;
  mm_Phase : MigrationSourcePhase;
  mm_EpochID : string;
  mm_TargetIdentity : string;
  mm_Tables : list TableEvidence;
  mm_Fingerprint : string;
  mm_lastEpochID : string;
  mm_lastTargetIdentity : string;
  mm_lastExpectedFingerprint : string;
  mm_lastResultFingerprint : string;
  mm_lastCutoff : Z;
  mm_lastTransition : string;
}.

Definition validMigrationDigest (value : string) : bool := (goLen value =? 64) && hexText value.

Section Inspect.
Context `{Env}.

(** The rule for the text of a column; [None] where any text is accepted. *)
Definition textRule (table column : string) : option (string -> bool) :=
  let among pairs := bool_decide ((table, column) ∈ pairs) in
  if among [("endpoints", "endpoint"); ("memberships", "endpoint"); ("messages", "from_endpoint");
         ("role_bindings", "session_endpoint"); ("conversation_controls", "actor_endpoint");
         ("conversation_controls", "member_endpoint")] then Some ValidEndpoint
  else if among [("roles", "role"); ("role_memberships", "role"); ("role_bindings", "role");
         ("role_profiles", "role"); ("role_profile_idempotency", "role");
         ("direct_conversations", "role_low"); ("direct_conversations", "role_high");
         ("message_from_roles", "from_role"); ("direct_message_idempotency", "from_role");
         ("direct_message_idempotency", "to_role")] then Some ValidRole
  else if among [("endpoints", "machine_id"); ("roles", "machine_id"); ("role_bindings", "machine_id");
         ("deliveries", "lease_machine_id"); ("idempotency", "machine_id");
         ("conversation_idempotency", "machine_id"); ("conversation_control_idempotency", "machine_id");
         ("conversation_display_name_idempotency", "machine_id"); ("role_profile_idempotency", "machine_id");
         ("direct_message_idempotency", "machine_id"); ("request_nonces", "machine_id");
         ("telegram_claims", "requested_by_machine"); ("telegram_claim_events", "actor_machine");
         ("telegram_claim_idempotency", "machine_id")] then Some ValidMachineID
  else if among [("deliveries", "recipient_endpoint"); ("recipient_cursors", "recipient_endpoint")]
  then Some (fun text => negb (isNull (parseRoleRecipient text)) || ValidEndpoint text)
  else if among [("telegram_claims", "requested_by_endpoint"); ("telegram_claim_events", "actor_endpoint");
         ("messages", "in_reply_to_endpoint")] then Some ValidEndpoint
  else if among [("messages", "from_participant"); ("telegram_participants", "label")]
  then Some (fun text => bool_decide (text = TelegramUserParticipant))
  else if among [("endpoints", "consumer_id"); ("idempotency", "key"); ("conversation_idempotency", "key");
         ("conversation_control_idempotency", "key"); ("conversation_display_name_idempotency", "key");
         ("role_profile_idempotency", "key"); ("direct_message_idempotency", "key");
         ("request_nonces", "nonce"); ("telegram_claims", "idempotency_key");
         ("telegram_claim_idempotency", "key")] then Some ValidRequestToken
  else if among [("messages", "in_reply_to_message_id")]
  then Some (fun text => ValidRequestToken text || uuid_Validate text)
  else if among [("role_profiles", "display_name"); ("role_profile_idempotency", "display_name")]
  then Some (fun text => negb (isNull (NormalizeRoleDisplayName text)))
  else if among [("rate_buckets", "kind")]
  then Some (fun text => bool_decide (text = "sender") || bool_decide (text = "conversation"))
  else if among [("rate_buckets", "bucket_key")] then Some (fun text => ValidMachineID text || uuid_Validate text)
  else if among [("messages", "body")] then Some ValidMessageBody
  else if among [("conversations", "id"); ("memberships", "conversation_id"); ("messages", "id");
         ("messages", "conversation_id"); ("deliveries", "id"); ("deliveries", "message_id");
         ("recipient_cursors", "conversation_id"); ("idempotency", "message_id");
         ("conversation_idempotency", "conversation_id"); ("conversation_controls", "id");
         ("conversation_controls", "conversation_id"); ("conversation_control_idempotency", "control_id");
         ("conversation_display_name_idempotency", "conversation_id");
         ("direct_conversations", "conversation_id"); ("message_from_roles", "message_id");
         ("direct_message_idempotency", "conversation_id"); ("direct_message_idempotency", "message_id");
         ("telegram_claims", "conversation_id"); ("telegram_participants", "conversation_id");
         ("telegram_claim_events", "id"); ("telegram_claim_events", "conversation_id");
         ("telegram_claim_idempotency", "conversation_id")] then Some uuid_Validate
  else None.

Definition validateMigrationSourceValue (table column : string) (v : SqlValue) : bool :=
  match v with
  | VText text => match textRule table column with Some valid => valid text | None => true end
  | _ => true
  end.

Definition rowValid (spec : migrationTableSpec) (vs : list SqlValue) : bool :=
  forallb (fun cv => validateMigrationSourceValue (sp_name spec) cv.1 cv.2) (zip (sp_columns spec) vs).

(** The bytes hashed for a table: its values in row and column order. *)
Definition tableStream (spec : migrationTableSpec) (d : Db) : option (list Z) :=
  let rows := (sp_rows spec d).*2 in
  if forallb (rowValid spec) rows then writeValues (mjoin rows) else None.

Definition tableEvidence (spec : migrationTableSpec) (d : Db) : option TableEvidence :=
  stream ← tableStream spec d;
  Some {| te_name := sp_name spec; te_count := Z.of_nat (length (sp_rows spec d));
          te_sha256 := hexEncode (Sha256.Sum256 stream) |}.

Fixpoint tablesEvidence (specs : list migrationTableSpec) (d : Db) : option (list TableEvidence) :=
  match specs with
  | [] => Some []
  | spec :: specs => e ← tableEvidence spec d; es ← tablesEvidence specs d; Some (e :: es)
  end.

Definition migrationSourceSchema : string :=
  "punaro-relay-sqlite-v7:endpoints;conversations;memberships;roles;role_memberships;role_bindings;messages;deliveries;recipient_cursors;idempotency;conversation_idempotency;conversation_controls;conversation_control_idempotency;request_nonces;role_profiles;role_profile_idempotency;rate_buckets;direct_conversations;message_from_roles;direct_message_idempotency;telegram_claims;telegram_participants;telegram_claim_events;conversation_display_name_idempotency;telegram_claim_idempotency".

(** What the overall digest is taken of. *)
Definition overallValues (sourceID : string) (tables : list TableEvidence) : list SqlValue :=
  VText migrationSourceSchema :: VText sourceID ::
  mjoin ((fun e => [VText (te_name e); VInt (te_count e); VText (te_sha256 e)]) <$> tables).

Definition activeBinding (control : MigrationControl) : bool :=
  bool_decide (default "" (mg_epoch_id control) = "") &&
  bool_decide (default "" (mg_target_identity control) = "") && isNull (mg_fingerprint control).

Definition durableBinding (control : MigrationControl) : bool :=
  uuid_Validate (default "" (mg_epoch_id control)) &&
  validMigrationDigest (default "" (mg_target_identity control)) &&
  match mg_fingerprint control with Some f => validMigrationDigest f | None => false end.

Definition validTransition (transition : string) : bool :=
  bool_decide (transition ∈ [""; "prepared"; "aborted"; "retired"]).

Definition inspectMigrationSource (control : MigrationControl) (d : Db) : Err + MigrationSourceManifest :=
  if negb (uuid_Validate (mg_source_id control)) then inl (ErrInvalid "control")
  else if negb (if bool_decide (db_phase d = MigrationSourceActive) then activeBinding control
                else durableBinding control) then inl (ErrInvalid "binding")
  else if negb (validTransition (default "" (mg_last_transition control))) then inl (ErrInvalid "journal")
  else match verifyMigrationSourceSchema d with
  | inl e => inl e
  | inr _ =>
      match (tables ← tablesEvidence migrationTableSpecs d;
             bytes ← writeValues (overallValues (mg_source_id control) tables);
             Some (tables, hexEncode (Sha256.Sum256 bytes))) with
      | None => inl (ErrInvalid "portable text")
      | Some (tables, fingerprint) =>
          if negb (bool_decide (db_phase d = MigrationSourceActive)) &&
             negb (bool_decide (mg_fingerprint control = Some fingerprint))
          then inl (ErrInvalid "fingerprint")
          else inr {| mm_Version := 8; mm_SourceID := mg_source_id control; mm_Phase := db_phase d;
                 mm_EpochID := default "" (mg_epoch_id control);
                 mm_TargetIdentity := default "" (mg_target_identity control);
                 mm_Tables := tables; mm_Fingerprint := fingerprint;
                 mm_lastEpochID := default "" (mg_last_epoch_id control);
                 mm_lastTargetIdentity := default "" (mg_last_target_identity control);
                 mm_lastExpectedFingerprint := default "" (mg_last_expected_fingerprint control);
                 mm_lastResultFingerprint := default "" (mg_last_result_fingerprint control);
                 mm_lastCutoff := default 0 (mg_last_cutoff control);
                 mm_lastTransition := default "" (mg_last_transition control) |}
      end
  end.
End Inspect.

(** ** Fencing every lease *)

Definition fenceEndpointRow (now : Z) (e : EndpointRow) : EndpointRow := {|
  ep_machine := ep_machine e;
  ep_lease_until := ms now;
  ep_generation := ep_generation e + 1;
  ep_consumer := None;
  ep_consumer_generation := ep_consumer_generation e + (if isNull (ep_consumer e) then 0 else 1);
  ep_consumer_until := None
|}.

(** ownership_generation=(SELECT ownership_generation FROM endpoints WHERE endpoint=session_endpoint) *)
Definition fenceBindingRow (now : Z) (endpoints : gmap string EndpointRow) (b : BindingRow) : BindingRow := {|
  bd_session := bd_session b;
  bd_machine := bd_machine b;
  bd_generation := match endpoints !! bd_session b with
                   | Some e => ep_generation e | None => bd_generation b end;
  bd_lease_until := ms now
|}.

Definition fenceDeliveryRow (l : DeliveryRow) : DeliveryRow := {|
  dl_message := dl_message l;
  dl_recipient := dl_recipient l;
  dl_machine := None;
  dl_token := None;
  dl_generation := dl_generation l + (if isNull (dl_token l) then 0 else 1);
  dl_ownership := None;
  dl_consumer := None;
  dl_until := None;
  dl_acked := dl_acked l
|}.

(** The three UPDATE statements; the second violates NOT NULL for a binding
    without its session. *)
Definition fenceLeases (now : Z) : M unit :=
  sql_update_where t_endpoints (fun _ _ => true) (fenceEndpointRow now);;
  orphan ← query (fun d => mexists (fun _ b => negb (has (db_endpoints d) (bd_session b))) (db_role_bindings d));
  reject_if orphan (ErrConstraint "role_bindings");;
  endpoints ← query db_endpoints;
  sql_update_where t_role_bindings (fun _ _ => true) (fenceBindingRow now endpoints);;
  sql_update_where t_deliveries (fun _ _ => true) fenceDeliveryRow.

(** What preparing does to the tables of a source that passed inspection. *)
Definition FenceSource (now : Z) : M unit :=
  transact (
    invalid ← query invalidLogicalState;
    reject_if invalid (ErrInvalid "logical constraints");;
    fenceLeases now).

(** ** Commands

    Each runs in one BEGIN IMMEDIATE transaction on the file and returns the
    manifest and the new control row. *)

Section Commands.
Context `{Env}.

Definition setPhase (phase : MigrationSourcePhase) : M unit := put_db (set_phase phase).

Definition inspectNow (control : MigrationControl) : M MigrationSourceManifest :=
  d ← query (fun d => d); of_result (inspectMigrationSource control d).

Definition mutateMigrationSource (control : MigrationControl)
    (mutation : MigrationSourceManifest -> M (MigrationSourceManifest * MigrationControl))
    : M (MigrationSourceManifest * MigrationControl) :=
  transact (current ← inspectNow control; mutation current).

Definition InspectMigrationSource (control : MigrationControl) : M MigrationSourceManifest :=
  rolled_back (inspectNow control).

(** The manifest is bound to these transition arguments. *)
Definition lastIs (m : MigrationSourceManifest) (epochID targetIdentity result transition : string) : bool :=
  bool_decide (mm_lastEpochID m = epochID) && bool_decide (mm_lastTargetIdentity m = targetIdentity) &&
  bool_decide (mm_lastResultFingerprint m = result) && bool_decide (mm_lastTransition m = transition).

Definition bindingIs (m : MigrationSourceManifest) (epochID targetIdentity : string) : bool :=
  bool_decide (mm_EpochID m = epochID) && bool_decide (mm_TargetIdentity m = targetIdentity).

Definition preparedAlready (m : MigrationSourceManifest) (epochID targetIdentity expectedFingerprint : string)
    (cutoff : Z) : bool :=
  bool_decide (mm_Phase m = MigrationSourcePrepared) && bindingIs m epochID targetIdentity &&
  lastIs m epochID targetIdentity (mm_Fingerprint m) "prepared" &&
  bool_decide (mm_lastExpectedFingerprint m = expectedFingerprint) && (mm_lastCutoff m =? cutoff).

(** UPDATE relay_migration_control SET phase='prepared',... *)
Definition preparedControl (control : MigrationControl) (epochID targetIdentity expected result : string)
    (cutoff now : Z) : MigrationControl := {|
  mg_source_id := mg_source_id control; mg_epoch_id := Some epochID;
  mg_target_identity := Some targetIdentity; mg_fingerprint := Some result;
  mg_last_epoch_id := Some epochID; mg_last_target_identity := Some targetIdentity;
  mg_last_expected_fingerprint := Some expected; mg_last_result_fingerprint := Some result;
  mg_last_cutoff := Some cutoff; mg_last_transition := Some "prepared"; mg_changed_at := ms now |}.

Definition preparedManifest (m : MigrationSourceManifest) (epochID targetIdentity expected : string)
    (cutoff : Z) : MigrationSourceManifest := {|
  mm_Version := mm_Version m; mm_SourceID := mm_SourceID m; mm_Phase := MigrationSourcePrepared;
  mm_EpochID := epochID; mm_TargetIdentity := targetIdentity; mm_Tables := mm_Tables m;
  mm_Fingerprint := mm_Fingerprint m; mm_lastEpochID := epochID; mm_lastTargetIdentity := targetIdentity;
  mm_lastExpectedFingerprint := expected; mm_lastResultFingerprint := mm_Fingerprint m;
  mm_lastCutoff := cutoff; mm_lastTransition := "prepared" |}.

Definition PrepareMigrationSource (control : MigrationControl)
    (epochID targetIdentity expectedFingerprint : string) (now : Z)
    : M (MigrationSourceManifest * MigrationControl) :=
  reject_if (negb (uuid_Validate epochID) || negb (validMigrationDigest targetIdentity) ||
    negb (validMigrationDigest expectedFingerprint) || Time.IsZero now) (ErrInvalid "preparation");;
  mutateMigrationSource control (fun current =>
    let cutoff := ms now in
    if preparedAlready current epochID targetIdentity expectedFingerprint cutoff then mret (current, control)
    else
      reject_if (negb (bool_decide (mm_Phase current = MigrationSourceActive)) ||
        negb (bool_decide (mm_Fingerprint current = expectedFingerprint))) (ErrInvalid "source changed");;
      fenceLeases now;;
      prepared ← inspectNow control;
      setPhase MigrationSourcePrepared;;
      mret (preparedManifest prepared epochID targetIdentity expectedFingerprint cutoff,
            preparedControl control epochID targetIdentity expectedFingerprint (mm_Fingerprint prepared)
              cutoff now)).

Definition transitionControl (control : MigrationControl) (target : MigrationSourcePhase) (wall : Z)
    : MigrationControl :=
  let reopened := bool_decide (target = MigrationSourceActive) in {|
  mg_source_id := mg_source_id control;
  mg_epoch_id := if reopened then None else mg_epoch_id control;
  mg_target_identity := if reopened then None else mg_target_identity control;
  mg_fingerprint := if reopened then None else mg_fingerprint control;
  mg_last_epoch_id := mg_last_epoch_id control;
  mg_last_target_identity := mg_last_target_identity control;
  mg_last_expected_fingerprint := mg_last_expected_fingerprint control;
  mg_last_result_fingerprint := mg_last_result_fingerprint control;
  mg_last_cutoff := mg_last_cutoff control;
  mg_last_transition := Some (if reopened then "aborted" else "retired");
  mg_changed_at := ms wall |}.

Definition transitionManifest (m : MigrationSourceManifest) (target : MigrationSourcePhase)
    : MigrationSourceManifest :=
  let reopened := bool_decide (target = MigrationSourceActive) in {|
  mm_Version := mm_Version m; mm_SourceID := mm_SourceID m; mm_Phase := target;
  mm_EpochID := if reopened then "" else mm_EpochID m;
  mm_TargetIdentity := if reopened then "" else mm_TargetIdentity m; mm_Tables := mm_Tables m;
  mm_Fingerprint := mm_Fingerprint m; mm_lastEpochID := mm_lastEpochID m;
  mm_lastTargetIdentity := mm_lastTargetIdentity m;
  mm_lastExpectedFingerprint := mm_lastExpectedFingerprint m;
  mm_lastResultFingerprint := mm_lastResultFingerprint m; mm_lastCutoff := mm_lastCutoff m;
  mm_lastTransition := if reopened then "aborted" else "retired" |}.

Definition transitionPreparedMigrationSource (control : MigrationControl)
    (epochID targetIdentity fingerprint : string) (target : MigrationSourcePhase) (wall : Z)
    : M (MigrationSourceManifest * MigrationControl) :=
  reject_if (negb (uuid_Validate epochID) || negb (validMigrationDigest targetIdentity) ||
    negb (validMigrationDigest fingerprint) || bool_decide (target = MigrationSourcePrepared))
    (ErrInvalid "transition");;
  mutateMigrationSource control (fun current =>
    if bool_decide (mm_Phase current = MigrationSourceRetired) then
      reject_if (negb (bool_decide (target = MigrationSourceRetired) &&
        bindingIs current epochID targetIdentity && bool_decide (mm_Fingerprint current = fingerprint) &&
        lastIs current epochID targetIdentity fingerprint "retired")) ErrMigrationSourceRetired;;
      mret (current, control)
    else if bool_decide (mm_Phase current = MigrationSourceActive) &&
            bool_decide (target = MigrationSourceActive) &&
            lastIs current epochID targetIdentity fingerprint "aborted"
    then mret (current, control)
    else
      reject_if (negb (bool_decide (mm_Phase current = MigrationSourcePrepared)) ||
        negb (bindingIs current epochID targetIdentity) ||
        negb (bool_decide (mm_Fingerprint current = fingerprint))) (ErrInvalid "binding does not match");;
      setPhase target;;
      mret (transitionManifest current target, transitionControl control target wall)).

Definition AbortPreparedMigrationSource (control : MigrationControl)
    (epochID targetIdentity fingerprint : string) (wall : Z) : M (MigrationSourceManifest * MigrationControl) :=
  transitionPreparedMigrationSource control epochID targetIdentity fingerprint MigrationSourceActive wall.

Definition RetirePreparedMigrationSource (control : MigrationControl)
    (epochID targetIdentity fingerprint : string) (wall : Z) : M (MigrationSourceManifest * MigrationControl) :=
  transitionPreparedMigrationSource control epochID targetIdentity fingerprint MigrationSourceRetired wall.

(** Every endpoint stays claimable by its machine, every role by a known one. *)
Definition CheckMigrationSourceEnrollmentCoverage (control : MigrationControl)
    (records : list EnrollmentRecord) : M unit :=
  match machineEnrollmentAuthenticator records with
  | inl _ => throw (ErrInvalid "enrollment")
  | inr (authenticator, _) =>
      rolled_back (
        _ ← inspectNow control;
        uncovered ← query (fun d =>
          mexists (fun endpoint e => negb (AllowsEndpoint authenticator (ep_machine e) endpoint)) (db_endpoints d));
        reject_if uncovered (ErrInvalid "endpoint coverage");;
        unknown ← query (fun d =>
          mexists (fun _ machine => negb (has (au_machines authenticator) machine)) (db_roles d));
        reject_if unknown (ErrInvalid "role coverage"))
  end.
End Commands.

(** ** The effect of fencing *)

Definition fencedDb (now : Z) (d : Db) : Db :=
  let endpoints := fenceEndpointRow now <$> db_endpoints d in
  set_deliveries (fenceDeliveryRow <$> db_deliveries d)
    (set_role_bindings (fenceBindingRow now endpoints <$> db_role_bindings d) (set_endpoints endpoints d)).

Lemma imap_all {K V} `{Countable K} (f : V -> V) (m : gmap K V) :
  map_imap (fun _ v => Some (if true then f v else v)) m = f <$> m.
Proof. apply map_eq. intros k. rewrite map_lookup_imap, lookup_fmap. by destruct (m !! k). Qed.

Lemma mexists_all_false {K V} `{Countable K} (m : gmap K V) : mexists (fun _ _ => true) m = false -> m = ∅.
Proof.
  intros Hm. apply map_eq. intros k. rewrite lookup_empty. destruct (m !! k) as [v|] eqn:Hk; [|done].
  rewrite mexists_false in Hm. by specialize (Hm k v Hk).
Qed.

Lemma update_all_ok {K V} `{Countable K} (T : Table K V) f u s s' :
  (forall m m' d, t_get T (t_set T m d) = m /\ t_set T m' (t_set T m d) = t_set T m' d /\
    t_set T (t_get T d) d = d) ->
  sql_update_where T (fun _ _ => true) f s = (inr u, s') ->
  s' = with_db (t_set T (f <$> t_get T (st_db s)) (st_db s)) s.
Proof.
  intros HT [[-> He]|(_ & _ & ->)]%sql_update_where_ok.
  - apply mexists_all_false in He. rewrite He, fmap_empty, <-He.
    destruct (HT ∅ ∅ (st_db s)) as (_ & _ & ->). by destruct s.
  - unfold update_rows. by rewrite imap_all.
Qed.

Lemma fenceLeases_ok now u s s' :
  fenceLeases now s = (inr u, s') -> s' = with_db (fencedDb now (st_db s)) s.
Proof.
  unfold fenceLeases. intros Hf. tx_inv Hf.
  apply update_all_ok in Hm; [|by intros ? ? []]. apply update_all_ok in Hm1; [|by intros ? ? []].
  apply update_all_ok in Hf; [|by intros ? ? []]. by subst.
Qed.

Lemma FenceSource_ok now u s s' :
  FenceSource now s = (inr u, s') ->
  invalidLogicalState (st_db s) = false /\ s' = with_db (fencedDb now (st_db s)) s.
Proof.
  unfold FenceSource. intros Hf. tx_inv Hf. split; [done|]. by apply fenceLeases_ok in Hf.
Qed.
