(* ===== verification/Export.v ===== *)
(** * Exporting a prepared source ([migration_batch.go])

    The rows of a prepared source are read in pages, each resumed from the key
    of the last row, and rehashed by the importer against the manifest.  The
    JSON encoding of a row is an argument. *)

From Stdlib Require Import Ascii.
From S2P Require Import Prelude GoTime RateLimit Quota Text Sha256 Tables Tx Sessions Pending.
From S2P Require Import Invocations Rooms Auth Source.
Open Scope Z_scope.

Definition maxMigrationBatchRows : Z := 256.
Definition MaxMigrationSourcePayloadBytes : Z := Z.shiftl 256 10.

(** A decoded JSON value; a number is [None] when it is not an [int64]. *)
Inductive JsonValue := JNull | JNumber (n : option Z) | JString (s : string) | JOther.

(** [json.Marshal] of a row object, and decoding one object without a rest. *)
Class RowJson := {
  json_Marshal : gmap string SqlValue -> list Z;
  json_Decode : list Z -> option (gmap string JsonValue);
}.

Record MigrationSourceRow := {
  mr_Table : string;
  mr_Key : string;
  mr_Payload : list Z;
  mr_SHA256 : string;
}.

Record MigrationSourceBatch := {
  mb_Rows : list MigrationSourceRow;
  mb_NextKey : string;
  mb_Done : bool;
}.

(** ** Row keys *)

Definition unitSeparator : ascii := "031".

(** strings.Join(values, "\x1f") *)
Fixpoint encodeMigrationRowKey (values : list string) : string :=
  match values with
  | [] => ""
  | [value] => value
  | value :: values => value +:+ String unitSeparator (encodeMigrationRowKey values)
  end.

(** strings.Split(s, "\x1f") *)
Fixpoint splitKey (s : string) : list string :=
  match s with
  | EmptyString => [""]
  | String c s =>
      if bool_decide (c = unitSeparator) then "" :: splitKey s
      else match splitKey s with
           | part :: parts => String c part :: parts
           | [] => [String c ""]
           end
  end.

Definition badPart (part : string) : bool :=
  bool_decide (part = "") || ContainsByte part "000" || ContainsByte part unitSeparator.

Definition columnSpec (table : string) : option migrationTableSpec :=
  head (filter (fun spec => sp_target spec = table) migrationTableSpecs).

(** ** One page *)

Section Batch.
Context `{Env, RowJson}.

Definition payloadOf (spec : migrationTableSpec) (vs : list SqlValue) : list Z :=
  json_Marshal (list_to_map (zip (sp_columns spec) vs)).

Definition exportRow (spec : migrationTableSpec) (key : list string) (vs : list SqlValue)
    : option MigrationSourceRow :=
  let payload := payloadOf spec vs in
  if bool_decide (payload = []) || (MaxMigrationSourcePayloadBytes <? Z.of_nat (length payload)) then None
  else Some {| mr_Table := sp_target spec; mr_Key := encodeMigrationRowKey key; mr_Payload := payload;
               mr_SHA256 := hexEncode (Sha256.Sum256 payload) |}.

Definition badKey (key : list string) : bool :=
  existsb badPart key ||
  (let n := goLen (encodeMigrationRowKey key) in (n =? 0) || (4096 <? n)).

(** The loop over the [limit] + 1 rows of the query. *)
Fixpoint exportRows (spec : migrationTableSpec) (rows : list (list string * list SqlValue)) (room : nat)
    (done : list MigrationSourceRow) (next : string) : option MigrationSourceBatch :=
  match rows with
  | [] => Some {| mb_Rows := done; mb_NextKey := next; mb_Done := true |}
  | (key, vs) :: rows =>
      if badKey key then None
      else match room with
      | O => Some {| mb_Rows := done; mb_NextKey := next; mb_Done := false |}
      | S room =>
          row ← exportRow spec key vs;
          exportRows spec rows room (done ++ [row]) (mr_Key row)
      end
  end.

(** The key to resume from: the first page, or a key of the table. *)
Definition resumeKey (spec : migrationTableSpec) (d : Db) (afterKey : string) : option (list string) :=
  let parts := splitKey afterKey in
  if negb (Nat.eqb (length parts) (sp_keys spec)) || existsb badPart parts then None
  else if existsb (fun row => bool_decide (row.1 = parts)) (sp_rows spec d) then Some parts else None.

Definition rowsAfter (spec : migrationTableSpec) (d : Db) (after : option (list string))
    : list (list string * list SqlValue) :=
  match after with
  | None => sp_rows spec d
  | Some key => filter (fun row => keysLt key row.1 = true) (sp_rows spec d)
  end.

Definition ReadMigrationSourceBatch (control : MigrationControl) (table afterKey : string) (limit : Z)
    : M MigrationSourceBatch :=
  reject_if ((limit <? 1) || (maxMigrationBatchRows <? limit)) (ErrInvalid "batch");;
  match columnSpec table with
  | None => throw (ErrInvalid "batch")
  | Some spec =>
      rolled_back (
        manifest ← inspectNow control;
        reject_if (negb (bool_decide (mm_Phase manifest = MigrationSourcePrepared))) (ErrInvalid "not prepared");;
        d ← query (fun d => d);
        after ← (if bool_decide (afterKey = "") then mret None
                 else match resumeKey spec d afterKey with
                      | Some key => mret (Some key)
                      | None => throw (ErrInvalid "resume key")
                      end);
        match exportRows spec (take (S (Z.to_nat limit)) (rowsAfter spec d after)) (Z.to_nat limit) [] "" with
        | Some batch => mret batch
        | None => throw (ErrInvalid "batch row")
        end)
  end.

(** ** Rehashing the exported rows *)

Record MigrationTableHasher := {
  th_table : string;
  th_columns : list string;
  th_stream : list Z;                              (* what was written to the hash *)
  th_count : Z;
}.

Definition NewMigrationTableHasher (table : string) : option MigrationTableHasher :=
  spec ← columnSpec table;
  Some {| th_table := table; th_columns := sp_columns spec; th_stream := []; th_count := 0 |}.

Definition optionalParentMigrationColumn (table column : string) : bool :=
  if bool_decide (table = "mail_conversations") then bool_decide (column = "display_name")
  else if bool_decide (table = "mail_messages") then
    bool_decide (column ∈ ["from_participant"; "in_reply_to_message_id"; "in_reply_to_endpoint";
      "telegram_thread_id"])
  else false.

Definition hashedValue (v : JsonValue) : option (list Z) :=
  match v with
  | JNull => writeMigrationHashValue VNull
  | JNumber (Some n) => writeMigrationHashValue (VInt n)
  | JString s => writeMigrationHashValue (VText s)
  | JNumber None | JOther => None
  end.

(** The loop over the columns: bytes written and values found. *)
Fixpoint hashColumns (table : string) (columns : list string) (payload : gmap string JsonValue)
    : option (list Z * nat) :=
  match columns with
  | [] => Some ([], 0%nat)
  | column :: columns =>
      match payload !! column with
      | None =>
          if optionalParentMigrationColumn table column then hashColumns table columns payload else None
      | Some v =>
          l ← hashedValue v;
          '(r, n) ← hashColumns table columns payload;
          Some (l ++ r, S n)
      end
  end.

Definition hasher_Add (h : MigrationTableHasher) (row : MigrationSourceRow) : option MigrationTableHasher :=
  if negb (bool_decide (mr_Table row = th_table h)) || bool_decide (mr_Key row = "") ||
     (4096 <? goLen (mr_Key row)) || bool_decide (mr_Payload row = []) ||
     (MaxMigrationSourcePayloadBytes <? Z.of_nat (length (mr_Payload row))) ||
     badDigest (mr_SHA256 row)
  then None
  else if negb (bool_decide (hexEncode (Sha256.Sum256 (mr_Payload row)) = mr_SHA256 row)) then None
  else
    payload ← json_Decode (mr_Payload row);
    '(l, n) ← hashColumns (th_table h) (th_columns h) payload;
    if negb (Nat.eqb n (size payload)) then None
    else Some {| th_table := th_table h; th_columns := th_columns h; th_stream := th_stream h ++ l;
                 th_count := th_count h + 1 |}.

Definition hasher_Evidence (h : MigrationTableHasher) : Z * string :=
  (th_count h, hexEncode (Sha256.Sum256 (th_stream h))).
End Batch.
