(* ===== verification/Destination.v ===== *)
(** * The PostgreSQL side of a cutover ([mail_cutover.go], [mail_cutover_import.go])

    The owner's view of the destination: one row per cutover epoch, the staged
    rows and the checkpoints of an import, and the mail tables themselves.  Every
    method is one transaction under the advisory lock: it either fails and
    changes nothing, or commits.  A mail table holds the staged objects its rows
    were made from; the casts and constraints of the INSERT ... SELECT statements
    are an argument.  Timestamps that nothing reads and the audit trail are left
    out. *)

From S2P Require Import Prelude GoTime RateLimit Quota Text Sha256 Tables Tx Sessions Pending.
From S2P Require Import Invocations Rooms Auth Source Export.
Open Scope Z_scope.

(** ** Data *)

Inductive MailCutoverPhase := MailCutoverImporting | MailCutoverVerified | MailCutoverActive | MailCutoverAborted.

#[export] Instance MailCutoverPhase_eq_dec : EqDecision MailCutoverPhase.
Proof. solve_decision. Defined.

Record MailCutoverRequest := {
  rq_EpochID : string;
  rq_SourceID : string;
  rq_TargetIdentity : string;
  rq_SourceFingerprint : string;
  rq_Manifest : list Z;
  rq_ManifestSHA256 : string;
}.

Record MailCutoverEpoch := { me_Request : MailCutoverRequest; me_Phase : MailCutoverPhase }.

(** A checkpoint; [ck_Recorded] is [!UpdatedAt.IsZero()]. *)
Record MailCutoverCheckpoint := {
  ck_LastKey : option string;
  ck_RowCount : Z;
  ck_RollingSHA256 : string;
  ck_Recorded : bool;
}.

Record MailCutoverBatch := {
  bt_EpochID : string;
  bt_Table : string;
  bt_AfterKey : string;
  bt_Rows : list MigrationSourceRow;
  bt_Done : bool;
}.

Record MailCutoverPreflight := {
  pf_TargetRows : Z;
  pf_LegacyPending : Z;
  pf_LegacyMigrated : Z;
  pf_LegacyRetired : Z;
  pf_IncompleteEpochs : Z;
  pf_ActiveEpochs : Z;
}.

Inductive LegacyMachineState := LegacyPending | LegacyMigrated | LegacyRetired.

#[export] Instance LegacyMachineState_eq_dec : EqDecision LegacyMachineState.
Proof. solve_decision. Defined.

(** A staged payload is a [jsonb] object. *)
Definition Payload : Type := gmap string JsonValue.

#[export] Instance JsonValue_eq_dec : EqDecision JsonValue.
Proof. solve_decision. Defined.
#[export] Instance Payload_eq_dec : EqDecision Payload.
Proof. unfold Payload. apply _. Defined.

Record Pg := {
  pg_identity : string;                                      (* databaseIdentity *)
  pg_current_schema : bool;
  pg_maintenance : bool;                                     (* jobs.assert_application_mutation *)
  pg_owner : option string;                                  (* the enabled installation owner *)
  pg_legacy : list (list Z * LegacyMachineState);            (* auth.legacy_machines *)
  pg_legacy_auth : option bool;                              (* auth.legacy_auth_state *)
  pg_epochs : gmap string MailCutoverEpoch;
  pg_staging : gmap (string * string * string) (Payload * string);
  pg_checkpoints : gmap (string * string) MailCutoverCheckpoint;
  pg_target : gmap (string * string) (Payload * string);     (* the relay.mail_ tables *)
}.

Definition with_cutover (epochs : gmap string MailCutoverEpoch)
    (staging : gmap (string * string * string) (Payload * string))
    (checkpoints : gmap (string * string) MailCutoverCheckpoint)
    (target : gmap (string * string) (Payload * string)) (p : Pg) : Pg := {|
  pg_identity := pg_identity p; pg_current_schema := pg_current_schema p; pg_maintenance := pg_maintenance p;
  pg_owner := pg_owner p; pg_legacy := pg_legacy p; pg_legacy_auth := pg_legacy_auth p;
  pg_epochs := epochs; pg_staging := staging; pg_checkpoints := checkpoints; pg_target := target |}.

Definition with_epochs (epochs : gmap string MailCutoverEpoch) (p : Pg) : Pg :=
  with_cutover epochs (pg_staging p) (pg_checkpoints p) (pg_target p) p.

Definition close_legacy (p : Pg) : Pg := {|
  pg_identity := pg_identity p; pg_current_schema := pg_current_schema p; pg_maintenance := pg_maintenance p;
  pg_owner := pg_owner p; pg_legacy := pg_legacy p; pg_legacy_auth := Some false;
  pg_epochs := pg_epochs p; pg_staging := pg_staging p; pg_checkpoints := pg_checkpoints p;
  pg_target := pg_target p |}.

(** ** Transactions *)

Inductive CutErr :=
  | CutError (what : string)
  | CutMaintenance
  | ErrIdempotencyConflict
  | CutNotFound
  | SourceError (e : Err).

#[export] Instance CutErr_eq_dec : EqDecision CutErr.
Proof. solve_decision. Defined.

Definition D (A : Type) : Type := Pg -> CutErr + (A * Pg).
#[export] Instance D_ret : MRet D := fun A a p => inr (a, p).
#[export] Instance D_bind : MBind D := fun A B k m p =>
  match m p with inl e => inl e | inr (a, p1) => k a p1 end.

Definition refuse {A} (e : CutErr) : D A := fun _ => inl e.
Definition refuse_if (b : bool) (e : CutErr) : D unit := if b then refuse e else mret tt.
Definition look {A} (f : Pg -> A) : D A := fun p => inr (f p, p).
Definition change (f : Pg -> Pg) : D unit := fun p => inr (tt, f p).
Definition found {A} (e : CutErr) (o : option A) : D A :=
  match o with Some a => mret a | None => refuse e end.

(** What the methods use of the libraries and of PostgreSQL. *)
Class PgEnv := {
  validOpaqueID : string -> bool;                            (* a canonical, non-nil UUID *)
  json_Canonical : Payload -> list Z;                        (* json.Marshal of a decoded object *)
  manifest_Marshal : MigrationSourceManifest -> list Z;      (* of the exported fields *)
  manifest_Decode : list Z -> option MigrationSourceManifest;    (* one object, no unknown field *)
  manifest_Unmarshal : list Z -> option MigrationSourceManifest;
  row_accepted : string -> Payload -> bool;                  (* casts and constraints of a mail table *)
}.

(** ** Manifests *)

(** Count and digest of a table; the zero values where the manifest has none. *)
Definition evidenceOf (m : MigrationSourceManifest) (name : string) : Z * string :=
  match head (filter (fun e => te_name e = name) (mm_Tables m)) with
  | Some e => (te_count e, te_sha256 e)
  | None => (0, "")
  end.
Definition countOf (m : MigrationSourceManifest) (name : string) : Z := (evidenceOf m name).1.
Definition digestOf (m : MigrationSourceManifest) (name : string) : string := (evidenceOf m name).2.

Definition absentTable (m : MigrationSourceManifest) (name : string) : bool :=
  (countOf m name =? 0) && bool_decide (digestOf m name = "").

Definition IsLegacyTelegramMigrationSource (m : MigrationSourceManifest) : bool :=
  (mm_Version m =? 7) && negb (bool_decide (digestOf m "telegram_claims" = "")) &&
  negb (bool_decide (digestOf m "telegram_participants" = "")) &&
  negb (bool_decide (digestOf m "telegram_claim_events" = "")) &&
  absentTable m "role_profiles" && absentTable m "role_profile_idempotency" &&
  absentTable m "rate_buckets" && absentTable m "direct_conversations" &&
  absentTable m "message_from_roles" && absentTable m "direct_message_idempotency" &&
  absentTable m "conversation_display_name_idempotency" &&
  (countOf m "telegram_claim_idempotency" =? countOf m "telegram_claims") &&
  validMigrationDigest (digestOf m "telegram_claim_idempotency").

Definition MigrationSourceTablePresent (m : MigrationSourceManifest) (table : string) : bool :=
  let among names := bool_decide (table ∈ names) in
  if IsLegacyTelegramMigrationSource m && among ["mail_telegram_claim_idempotency"] then true
  else if IsLegacyTelegramMigrationSource m &&
          among ["mail_role_profiles"; "mail_role_profile_idempotency"; "mail_rate_buckets";
              "mail_direct_conversations"; "mail_message_from_roles"; "mail_direct_message_idempotency";
              "mail_conversation_display_name_idempotency"] then false
  else
    let parentRoleOnlyV3 := (mm_Version m =? 3) && absentTable m "conversation_controls" &&
      absentTable m "conversation_control_idempotency" in
    if (mm_Version m =? 1) && among ["mail_roles"; "mail_role_memberships"; "mail_role_bindings"] then false
    else if ((mm_Version m <=? 2) || parentRoleOnlyV3) &&
            among ["mail_conversation_controls"; "mail_conversation_control_idempotency"] then false
    else if (mm_Version m <? 4) && among ["mail_role_profiles"; "mail_role_profile_idempotency"] then false
    else if (mm_Version m <? 5) && among ["mail_rate_buckets"] then false
    else if (mm_Version m <? 6) && among ["mail_direct_conversations"; "mail_message_from_roles";
                                      "mail_direct_message_idempotency"] then false
    else if (mm_Version m <? 7) && among ["mail_telegram_claims"; "mail_telegram_participants";
              "mail_telegram_claim_events"; "mail_conversation_display_name_idempotency"] then false
    else (8 <=? mm_Version m) || negb (among ["mail_telegram_claim_idempotency"]).

Definition emptyMailCutoverDigest : string := hexEncode (Sha256.Sum256 []).

(** The tables whose missing digest counts as the empty one. *)
Definition laterTable (table : string) : bool :=
  bool_decide (table ∈ ["mail_conversation_controls"; "mail_conversation_control_idempotency";
    "mail_role_profiles"; "mail_role_profile_idempotency"; "mail_rate_buckets"; "mail_direct_conversations";
    "mail_message_from_roles"; "mail_direct_message_idempotency"; "mail_telegram_claims";
    "mail_telegram_participants"; "mail_telegram_claim_events"; "mail_conversation_display_name_idempotency";
    "mail_telegram_claim_idempotency"]).

Definition mailCutoverTableEvidence (m : MigrationSourceManifest) (table : string) : Z * string :=
  if negb (MigrationSourceTablePresent m table) then (0, emptyMailCutoverDigest)
  else match columnSpec table with
  | Some spec =>
      let '(count, digest) := evidenceOf m (sp_name spec) in
      if laterTable table && bool_decide (digest = "") && (count =? 0) then (count, emptyMailCutoverDigest)
      else (count, digest)
  | None => (-1, "")
  end.

Definition mailCutoverTables : list string :=
  ["mail_endpoints"; "mail_conversations"; "mail_telegram_claims"; "mail_telegram_participants";
   "mail_telegram_claim_events"; "mail_telegram_claim_idempotency"; "mail_memberships"; "mail_roles";
   "mail_role_memberships"; "mail_role_bindings"; "mail_messages"; "mail_deliveries";
   "mail_recipient_cursors"; "mail_message_idempotency"; "mail_conversation_idempotency";
   "mail_conversation_display_name_idempotency"; "mail_request_nonces"; "mail_conversation_controls";
   "mail_conversation_control_idempotency"; "mail_role_profiles"; "mail_role_profile_idempotency";
   "mail_rate_buckets"; "mail_direct_conversations"; "mail_message_from_roles";
   "mail_direct_message_idempotency"].

Section Requests.
Context `{Env, PgEnv}.

(** The hash of a table is present and well formed, or the table is absent. *)
Definition tableEvidenceValid (m : MigrationSourceManifest) (spec : migrationTableSpec) : bool :=
  if negb (MigrationSourceTablePresent m (sp_target spec)) then absentTable m (sp_name spec)
  else validMigrationDigest (digestOf m (sp_name spec)).

Definition manifestBound (m : MigrationSourceManifest) (request : MailCutoverRequest) : bool :=
  (1 <=? mm_Version m) && (mm_Version m <=? 8) && bool_decide (mm_SourceID m = rq_SourceID request) &&
  bool_decide (mm_Phase m = MigrationSourcePrepared) && bool_decide (mm_EpochID m = rq_EpochID request) &&
  bool_decide (mm_TargetIdentity m = rq_TargetIdentity request) &&
  bool_decide (mm_Fingerprint m = rq_SourceFingerprint request).

Definition canonicalMailCutoverManifest (request : MailCutoverRequest) : option (list Z) :=
  let size := Z.of_nat (length (rq_Manifest request)) in
  if negb (uuid_Validate (rq_EpochID request)) || negb (uuid_Validate (rq_SourceID request)) ||
     negb (validMigrationDigest (rq_TargetIdentity request)) ||
     negb (validMigrationDigest (rq_SourceFingerprint request)) ||
     negb (validMigrationDigest (rq_ManifestSHA256 request)) || (size =? 0) || (8192 <? size)
  then None
  else
    manifest ← manifest_Decode (rq_Manifest request);
    if negb (manifestBound manifest request) ||
       existsb (fun spec => countOf manifest (sp_name spec) <? 0) migrationTableSpecs ||
       negb (forallb (tableEvidenceValid manifest) migrationTableSpecs)
    then None
    else
      let canonical := if mm_Version manifest =? 1 then rq_Manifest request else manifest_Marshal manifest in
      if (8192 <? Z.of_nat (length canonical)) ||
         negb (bool_decide (hexEncode (Sha256.Sum256 canonical) = rq_ManifestSHA256 request))
      then None else Some canonical.

Definition with_Manifest (manifest : list Z) (request : MailCutoverRequest) : MailCutoverRequest := {|
  rq_EpochID := rq_EpochID request; rq_SourceID := rq_SourceID request;
  rq_TargetIdentity := rq_TargetIdentity request; rq_SourceFingerprint := rq_SourceFingerprint request;
  rq_Manifest := manifest; rq_ManifestSHA256 := rq_ManifestSHA256 request |}.

Definition sameMailCutoverRequest (left right : MailCutoverRequest) : bool :=
  bool_decide (rq_EpochID left = rq_EpochID right) && bool_decide (rq_SourceID left = rq_SourceID right) &&
  bool_decide (rq_TargetIdentity left = rq_TargetIdentity right) &&
  bool_decide (rq_SourceFingerprint left = rq_SourceFingerprint right) &&
  bool_decide (rq_ManifestSHA256 left = rq_ManifestSHA256 right).

(** ** Epochs *)

(** jobs.assert_application_mutation *)
Definition guardMutation : D unit := busy ← look pg_maintenance; refuse_if busy CutMaintenance.

Definition lockInstallationOwner (actorPrincipalID : string) : D unit :=
  owner ← look pg_owner;
  refuse_if (negb (bool_decide (owner = Some actorPrincipalID))) (CutError "not authorized").

(** The partial unique index mail_cutover_epochs_one_authority. *)
Definition openEpoch (epochs : gmap string MailCutoverEpoch) : bool :=
  mexists (fun _ e => negb (bool_decide (me_Phase e = MailCutoverAborted))) epochs.

Definition mailCutoverEmptyTargetCount (p : Pg) : Z := Z.of_nat (size (pg_target p)).

Definition legacyMachines (state : LegacyMachineState) (p : Pg) : Z :=
  Z.of_nat (length (filter (fun k => k.2 = state) (pg_legacy p))).

Definition InspectMailCutoverPreflight : D MailCutoverPreflight :=
  result ← look (fun p => {|
    pf_TargetRows := mailCutoverEmptyTargetCount p;
    pf_LegacyPending := legacyMachines LegacyPending p;
    pf_LegacyMigrated := legacyMachines LegacyMigrated p;
    pf_LegacyRetired := legacyMachines LegacyRetired p;
    pf_IncompleteEpochs := mcount (fun _ e => bool_decide (me_Phase e = MailCutoverImporting) ||
      bool_decide (me_Phase e = MailCutoverVerified)) (pg_epochs p);
    pf_ActiveEpochs := mcount (fun _ e => bool_decide (me_Phase e = MailCutoverActive)) (pg_epochs p) |});
  refuse_if ((1 <? pf_IncompleteEpochs result) || (1 <? pf_ActiveEpochs result)) (CutError "preflight");;
  mret result.

Definition CheckMailCutoverSchemaReadiness : D unit :=
  current ← look pg_current_schema; refuse_if (negb current) (CutError "schema").

Definition validRequest (actorPrincipalID : string) (request : MailCutoverRequest) : D MailCutoverRequest :=
  refuse_if (negb (validOpaqueID actorPrincipalID)) (CutError "request");;
  canonical ← found (CutError "request") (canonicalMailCutoverManifest request);
  mret (with_Manifest canonical request).

Definition matchIdentity (request : MailCutoverRequest) : D unit :=
  identity ← look pg_identity;
  refuse_if (negb (bool_decide (identity = rq_TargetIdentity request))) (CutError "target identity").

Definition BeginMailCutover (actorPrincipalID : string) (request : MailCutoverRequest) : D MailCutoverEpoch :=
  request ← validRequest actorPrincipalID request;
  guardMutation;;
  lockInstallationOwner actorPrincipalID;;
  matchIdentity request;;
  epochs ← look pg_epochs;
  match epochs !! rq_EpochID request with
  | Some existing =>
      refuse_if (negb (sameMailCutoverRequest (me_Request existing) request)) ErrIdempotencyConflict;;
      mret existing
  | None =>
      rows ← look mailCutoverEmptyTargetCount;
      refuse_if (negb (rows =? 0)) (CutError "target is not empty");;
      refuse_if (openEpoch epochs) (CutError "cannot be recorded");;
      let epoch := {| me_Request := request; me_Phase := MailCutoverImporting |} in
      change (with_epochs (<[rq_EpochID request := epoch]> epochs));;
      mret epoch
  end.

Definition MailCutoverStatus (actorPrincipalID epochID : string) : D MailCutoverEpoch :=
  refuse_if (negb (validOpaqueID actorPrincipalID) || negb (uuid_Validate epochID)) (CutError "status");;
  lockInstallationOwner actorPrincipalID;;
  epochs ← look pg_epochs;
  found CutNotFound (epochs !! epochID).

Definition ReserveMailCutoverAbort (actorPrincipalID : string) (request : MailCutoverRequest)
    : D MailCutoverEpoch :=
  request ← validRequest actorPrincipalID request;
  lockInstallationOwner actorPrincipalID;;
  matchIdentity request;;
  epochs ← look pg_epochs;
  match epochs !! rq_EpochID request with
  | Some epoch =>
      refuse_if (negb (sameMailCutoverRequest (me_Request epoch) request)) ErrIdempotencyConflict;;
      refuse_if (negb (bool_decide (me_Phase epoch = MailCutoverAborted))) (CutError "epoch already exists");;
      mret epoch
  | None =>
      let epoch := {| me_Request := request; me_Phase := MailCutoverAborted |} in
      change (with_epochs (<[rq_EpochID request := epoch]> epochs));;
      mret epoch
  end.

Definition setEpochPhase (phase : MailCutoverPhase) (e : MailCutoverEpoch) : MailCutoverEpoch :=
  {| me_Request := me_Request e; me_Phase := phase |}.

Definition abortedPg (epochID : string) (epoch : MailCutoverEpoch) (p : Pg) : Pg :=
  with_cutover (<[epochID := setEpochPhase MailCutoverAborted epoch]> (pg_epochs p))
    (filter (fun kv => kv.1.1.1 <> epochID) (pg_staging p))
    (filter (fun kv => kv.1.1 <> epochID) (pg_checkpoints p)) ∅ p.

Definition AbortMailCutover (actorPrincipalID epochID sourceFingerprint : string) : D unit :=
  refuse_if (negb (validOpaqueID actorPrincipalID) || negb (uuid_Validate epochID) ||
    negb (validMigrationDigest sourceFingerprint)) (CutError "abort");;
  guardMutation;;
  lockInstallationOwner actorPrincipalID;;
  epochs ← look pg_epochs;
  epoch ← found (CutError "epoch is unavailable") (epochs !! epochID);
  refuse_if (negb (bool_decide (rq_SourceFingerprint (me_Request epoch) = sourceFingerprint)))
    ErrIdempotencyConflict;;
  refuse_if (bool_decide (me_Phase epoch = MailCutoverActive)) (CutError "active cannot be aborted");;
  if bool_decide (me_Phase epoch = MailCutoverAborted) then mret tt
  else change (abortedPg epochID epoch).
End Requests.

(** ** Staging *)

Definition hexNibble (b : Z) : option Z :=
  if Utf8.inRange 0x30 0x39 b then Some (b - 0x30)
  else if Utf8.inRange 0x61 0x66 b then Some (b - 0x57)
  else if Utf8.inRange 0x41 0x46 b then Some (b - 0x37)
  else None.

(** [hex.DecodeString] *)
Fixpoint hexDecodeBytes (l : list Z) : option (list Z) :=
  match l with
  | [] => Some []
  | h :: l :: rest =>
      high ← hexNibble h; low ← hexNibble l; bytes ← hexDecodeBytes rest; Some (16 * high + low :: bytes)
  | _ => None
  end.
Definition hexDecode (s : string) : option (list Z) := hexDecodeBytes (bytesOf s).

(** The digests of the rows of a page, one after the other. *)
Fixpoint rowDigests (rows : list MigrationSourceRow) : option (list Z) :=
  match rows with
  | [] => Some []
  | row :: rows => digest ← hexDecode (mr_SHA256 row); rest ← rowDigests rows; Some (digest ++ rest)
  end.

(** "" stands for a failed chain. *)
Definition nextMailCutoverDigest (previous : string) (rows : list MigrationSourceRow) : string :=
  match hexDecode previous with
  | Some bytes =>
      if negb (Nat.eqb (length bytes) 32) then ""
      else if bool_decide (rows = []) then previous
      else match rowDigests rows with
           | Some digests => hexEncode (Sha256.Sum256 (bytes ++ digests))
           | None => ""
           end
  | None => ""
  end.

Section Staging.
Context `{Env, RowJson, PgEnv}.

(** The loop of [Validate]: rows in increasing key order, each well formed. *)
Fixpoint rowsInOrder (hasher : MigrationTableHasher) (previous : string) (rows : list MigrationSourceRow) : bool :=
  match rows with
  | [] => true
  | row :: rows =>
      if negb (bool_decide (previous = "")) && negb (stringLt previous (mr_Key row)) then false
      else match hasher_Add hasher row with
           | Some hasher => rowsInOrder hasher (mr_Key row) rows
           | None => false
           end
  end.

Definition validBatch (batch : MailCutoverBatch) : bool :=
  uuid_Validate (bt_EpochID batch) && (goLen (bt_AfterKey batch) <=? 4096) &&
  (length (bt_Rows batch) <=? 256)%nat &&
  negb (bool_decide (bt_Rows batch = []) && (negb (bt_Done batch) || negb (bool_decide (bt_AfterKey batch = "")))) &&
  match NewMigrationTableHasher (bt_Table batch) with
  | Some hasher => rowsInOrder hasher (bt_AfterKey batch) (bt_Rows batch)
  | None => false
  end.

Definition noCheckpoint : MailCutoverCheckpoint := {|
  ck_LastKey := None; ck_RowCount := 0; ck_RollingSHA256 := emptyMailCutoverDigest; ck_Recorded := false |}.

(** The method [MailCutoverCheckpoint]. *)
Definition ReadMailCutoverCheckpoint (actorPrincipalID epochID table : string) : D MailCutoverCheckpoint :=
  refuse_if (negb (validOpaqueID actorPrincipalID) || negb (uuid_Validate epochID)) (CutError "checkpoint");;
  found (CutError "checkpoint") (NewMigrationTableHasher table);;
  lockInstallationOwner actorPrincipalID;;
  epochs ← look pg_epochs;
  epoch ← found (CutError "checkpoint is unavailable") (epochs !! epochID);
  refuse_if (bool_decide (me_Phase epoch = MailCutoverAborted)) (CutError "checkpoint is unavailable");;
  checkpoints ← look pg_checkpoints;
  mret (default noCheckpoint (checkpoints !! (epochID, table))).

(** [payload::jsonb] *)
Definition stagedPayload (row : MigrationSourceRow) : D Payload :=
  found (CutError "row cannot be staged") (json_Decode (mr_Payload row)).

Fixpoint verifyStagedMailRows (epochID table : string) (rows : list MigrationSourceRow) : D unit :=
  match rows with
  | [] => mret tt
  | row :: rows =>
      staging ← look pg_staging;
      payload ← stagedPayload row;
      refuse_if (negb (bool_decide (staging !! (epochID, table, mr_Key row) = Some (payload, mr_SHA256 row))))
        ErrIdempotencyConflict;;
      verifyStagedMailRows epochID table rows
  end.

(** INSERT ... ON CONFLICT DO NOTHING, and exactly one row affected. *)
Fixpoint stageRows (epochID table : string) (rows : list MigrationSourceRow) : D unit :=
  match rows with
  | [] => mret tt
  | row :: rows =>
      staging ← look pg_staging;
      payload ← stagedPayload row;
      refuse_if (has staging (epochID, table, mr_Key row)) ErrIdempotencyConflict;;
      change (fun p => with_cutover (pg_epochs p)
        (<[(epochID, table, mr_Key row) := (payload, mr_SHA256 row)]> (pg_staging p))
        (pg_checkpoints p) (pg_target p) p);;
      stageRows epochID table rows
  end.

Definition importing (epochID : string) : D MailCutoverEpoch :=
  epochs ← look pg_epochs;
  epoch ← found (CutError "not importing") (epochs !! epochID);
  refuse_if (negb (bool_decide (me_Phase epoch = MailCutoverImporting))) (CutError "not importing");;
  mret epoch.

Definition StageMailCutoverBatch (actorPrincipalID : string) (batch : MailCutoverBatch)
    : D MailCutoverCheckpoint :=
  refuse_if (negb (validOpaqueID actorPrincipalID) || negb (validBatch batch)) (CutError "batch");;
  guardMutation;;
  lockInstallationOwner actorPrincipalID;;
  importing (bt_EpochID batch);;
  checkpoints ← look pg_checkpoints;
  let stored := checkpoints !! (bt_EpochID batch, bt_Table batch) in
  let checkpoint := default noCheckpoint stored in
  let currentKey := default "" (ck_LastKey checkpoint) in
  let lastKey := match last (bt_Rows batch) with Some row => mr_Key row | None => bt_AfterKey batch end in
  if negb (bool_decide (currentKey = bt_AfterKey batch)) then
    refuse_if (negb (bool_decide (currentKey = lastKey)) || bool_decide (bt_Rows batch = [])) ErrIdempotencyConflict;;
    verifyStagedMailRows (bt_EpochID batch) (bt_Table batch) (bt_Rows batch);;
    mret checkpoint
  else if negb (isNull stored) && bool_decide (bt_Rows batch = []) then mret checkpoint
  else
    stageRows (bt_EpochID batch) (bt_Table batch) (bt_Rows batch);;
    let rolling := nextMailCutoverDigest (ck_RollingSHA256 checkpoint) (bt_Rows batch) in
    refuse_if (bool_decide (rolling = "")) (CutError "checkpoint digest");;
    let advanced := {| ck_LastKey := if bool_decide (lastKey = "") then None else Some lastKey;
      ck_RowCount := ck_RowCount checkpoint + Z.of_nat (length (bt_Rows batch));
      ck_RollingSHA256 := rolling; ck_Recorded := true |} in
    change (fun p => with_cutover (pg_epochs p) (pg_staging p)
      (<[(bt_EpochID batch, bt_Table batch) := advanced]> (pg_checkpoints p)) (pg_target p) p);;
    mret advanced.

(** ** Verification *)

(** The staged rows of a table, ORDER BY row_key COLLATE "C". *)
Definition stagedRows (p : Pg) (epochID table : string) : list (string * (Payload * string)) :=
  sortBy (fun a b => stringLe a.1 b.1)
    (omap (fun kv => if bool_decide (kv.1.1 = (epochID, table)) then Some (kv.1.2, kv.2) else None)
       (map_to_list (pg_staging p))).

Fixpoint rehash (table : string) (hasher : MigrationTableHasher) (rows : list (string * (Payload * string)))
    : option MigrationTableHasher :=
  match rows with
  | [] => Some hasher
  | (key, (payload, digest)) :: rows =>
      hasher ← hasher_Add hasher {| mr_Table := table; mr_Key := key;
        mr_Payload := json_Canonical payload; mr_SHA256 := digest |};
      rehash table hasher rows
  end.

(** Count and digest of a table's staged rows. *)
Definition rehashed (table : string) (rows : list (string * (Payload * string))) : option (Z * string) :=
  hasher ← NewMigrationTableHasher table;
  hasher ← rehash table hasher rows;
  Some (hasher_Evidence hasher).

Definition tableVerified (p : Pg) (manifest : MigrationSourceManifest) (epochID table : string) : bool :=
  let expected := mailCutoverTableEvidence manifest table in
  match pg_checkpoints p !! (epochID, table) with
  | Some checkpoint => (ck_RowCount checkpoint =? expected.1) &&
      bool_decide (rehashed table (stagedRows p epochID table) = Some expected)
  | None => false
  end.

(** The materialization statements: every staged row into its mail table. *)
Definition stagedTarget (p : Pg) (epochID : string) : gmap (string * string) (Payload * string) :=
  list_to_map (omap (fun kv => if bool_decide (kv.1.1.1 = epochID) then Some ((kv.1.1.2, kv.1.2), kv.2) else None)
    (map_to_list (pg_staging p))).

Definition targetCount (table : string) (target : gmap (string * string) (Payload * string)) : Z :=
  mcount (fun k _ => bool_decide (k.1 = table)) target.

Definition VerifyMailCutover (actorPrincipalID epochID sourceFingerprint : string) : D MailCutoverEpoch :=
  refuse_if (negb (validOpaqueID actorPrincipalID) || negb (uuid_Validate epochID) ||
    negb (validMigrationDigest sourceFingerprint)) (CutError "verification");;
  guardMutation;;
  lockInstallationOwner actorPrincipalID;;
  epochs ← look pg_epochs;
  epoch ← found (CutError "epoch is unavailable") (epochs !! epochID);
  refuse_if (negb (bool_decide (rq_SourceFingerprint (me_Request epoch) = sourceFingerprint)))
    (CutError "epoch is unavailable");;
  if bool_decide (me_Phase epoch = MailCutoverVerified) then mret epoch
  else
    refuse_if (negb (bool_decide (me_Phase epoch = MailCutoverImporting))) (CutError "not importing");;
    manifest ← found (CutError "manifest") (manifest_Unmarshal (rq_Manifest (me_Request epoch)));
    p ← look (fun p => p);
    refuse_if (negb (forallb (tableVerified p manifest epochID) mailCutoverTables)) (CutError "staging");;
    let staged := stagedTarget p epochID in
    refuse_if (mexists (fun k row => has (pg_target p) k || negb (row_accepted k.1 row.1)) staged)
      (CutError "cannot be materialized");;
    let target := staged ∪ pg_target p in
    refuse_if (negb (forallb (fun table => targetCount table target =? (mailCutoverTableEvidence manifest table).1)
      mailCutoverTables)) (CutError "materialized count");;
    let verified := setEpochPhase MailCutoverVerified epoch in
    change (with_cutover (<[epochID := verified]> epochs) (pg_staging p) (pg_checkpoints p) target);;
    mret verified.

(** ** Activation *)

Definition validateMailCutoverEnrollmentKeys (machines : list Machine)
    (legacyKeys : list (list Z * LegacyMachineState)) : bool :=
  let configured := mc_PublicKey <$> machines in
  forallb (fun k => negb (bool_decide (k.2 = LegacyMigrated)) || bool_decide (k.1 ∈ configured)) legacyKeys &&
  forallb (fun key => bool_decide (key ∈ legacyKeys.*1)) configured.

Definition noPendingMachines : D unit :=
  legacy ← look pg_legacy;
  refuse_if (existsb (fun k => bool_decide (k.2 = LegacyPending)) legacy) (CutError "pending machines").

Definition CheckMailCutoverActivationReadiness (actorPrincipalID epochID sourceFingerprint : string)
    (enrollment : list EnrollmentRecord) : D unit :=
  refuse_if (negb (validOpaqueID actorPrincipalID) || negb (uuid_Validate epochID) ||
    negb (validMigrationDigest sourceFingerprint)) (CutError "readiness");;
  match ValidateMachineEnrollments enrollment, ParseMachineEnrollments enrollment with
  | inr _, inr machines =>
      guardMutation;;
      lockInstallationOwner actorPrincipalID;;
      epochs ← look pg_epochs;
      epoch ← found (CutError "not verified") (epochs !! epochID);
      refuse_if (negb (bool_decide (rq_SourceFingerprint (me_Request epoch) = sourceFingerprint)) ||
        negb (bool_decide (me_Phase epoch = MailCutoverVerified))) (CutError "not verified");;
      state ← look pg_legacy_auth;
      refuse_if (isNull state) (CutError "legacy inventory");;
      noPendingMachines;;
      legacy ← look pg_legacy;
      refuse_if (negb (validateMailCutoverEnrollmentKeys machines
        (filter (fun k => k.2 <> LegacyPending) legacy))) (CutError "enrollment keys")
  | _, _ => refuse (CutError "readiness")
  end.

Definition sameMailCutoverSource (prepared retired : MigrationSourceManifest) : bool :=
  (mm_Version prepared =? mm_Version retired) && bool_decide (mm_SourceID prepared = mm_SourceID retired) &&
  bool_decide (mm_EpochID prepared = mm_EpochID retired) &&
  bool_decide (mm_TargetIdentity prepared = mm_TargetIdentity retired) &&
  bool_decide (mm_Fingerprint prepared = mm_Fingerprint retired) &&
  forallb (fun spec => bool_decide (evidenceOf prepared (sp_name spec) = evidenceOf retired (sp_name spec)))
    migrationTableSpecs &&
  bool_decide (mm_Phase prepared = MigrationSourcePrepared) &&
  bool_decide (mm_Phase retired = MigrationSourceRetired).

Definition ActivateMailCutover (actorPrincipalID epochID sourceFingerprint : string)
    (retired : MigrationSourceManifest) : D MailCutoverEpoch :=
  refuse_if (negb (validOpaqueID actorPrincipalID) || negb (uuid_Validate epochID) ||
    negb (validMigrationDigest sourceFingerprint) ||
    negb (bool_decide (mm_Phase retired = MigrationSourceRetired)) ||
    negb (bool_decide (mm_EpochID retired = epochID)) ||
    negb (bool_decide (mm_Fingerprint retired = sourceFingerprint))) (CutError "activation");;
  guardMutation;;
  lockInstallationOwner actorPrincipalID;;
  epochs ← look pg_epochs;
  epoch ← found (CutError "epoch is unavailable") (epochs !! epochID);
  refuse_if (negb (bool_decide (rq_SourceFingerprint (me_Request epoch) = sourceFingerprint)))
    (CutError "epoch is unavailable");;
  prepared ← found (CutError "retired source") (manifest_Unmarshal (rq_Manifest (me_Request epoch)));
  refuse_if (negb (sameMailCutoverSource prepared retired)) (CutError "retired source");;
  if bool_decide (me_Phase epoch = MailCutoverActive) then mret epoch
  else
    refuse_if (negb (bool_decide (me_Phase epoch = MailCutoverVerified))) (CutError "not verified");;
    noPendingMachines;;
    state ← look pg_legacy_auth;
    match state with
    | None => refuse (CutError "legacy authentication state")
    | Some enabled =>
        (if (enabled : bool) then change close_legacy else mret tt);;
        let active := setEpochPhase MailCutoverActive epoch in
        change (with_epochs (<[epochID := active]> epochs));;
        mret active
    end.
End Staging.
