(* ===== verification/Cutover.v ===== *)
(** * The cutover executor ([src/internal/cutover/executor.go])

    Moves mail authority from the relay's file to PostgreSQL.  A run is a
    sequence of calls, each durable on its own: to the file, to the destination,
    and to the publisher of the local marker. *)

From S2P Require Import Prelude GoTime RateLimit Quota Text Sha256 Tables Tx Sessions Pending.
From S2P Require Import Invocations Rooms Auth Source Export Destination.
Open Scope Z_scope.

Record MailCutoverPublication := {
  pb_Version : Z;
  pb_EpochID : string;
  pb_TargetIdentity : string;
  pb_SourceFingerprint : string;
}.

(** The durable state of an installation: the file with its control row, the
    destination, and the published marker. *)
Record World := {
  w_control : MigrationControl;
  w_store : St;
  w_pg : Pg;
  w_published : option MailCutoverPublication;
}.

Definition with_source (control : MigrationControl) (s : St) (w : World) : World :=
  {| w_control := control; w_store := s; w_pg := w_pg w; w_published := w_published w |}.
Definition with_pg (p : Pg) (w : World) : World :=
  {| w_control := w_control w; w_store := w_store w; w_pg := p; w_published := w_published w |}.
Definition with_published (publication : MailCutoverPublication) (w : World) : World :=
  {| w_control := w_control w; w_store := w_store w; w_pg := w_pg w; w_published := Some publication |}.

(** ** Calls *)

Definition X (A : Type) : Type := World -> (CutErr + A) * World.
#[export] Instance X_ret : MRet X := fun A a w => (inr a, w).
#[export] Instance X_bind : MBind X := fun A B k m w =>
  match m w with (inl e, w1) => (inl e, w1) | (inr a, w1) => k a w1 end.

Definition fail {A} (e : CutErr) : X A := fun w => (inl e, w).
Definition fail_if (b : bool) (e : CutErr) : X unit := if b then fail e else mret tt.

(** A call that reads the file. *)
Definition fromSource {A} (m : MigrationControl -> M A) : X A := fun w =>
  match m (w_control w) (w_store w) with
  | (inl e, s) => (inl (SourceError e), with_source (w_control w) s w)
  | (inr a, s) => (inr a, with_source (w_control w) s w)
  end.

(** A command on the file. *)
Definition command (m : MigrationControl -> M (MigrationSourceManifest * MigrationControl))
    : X MigrationSourceManifest := fun w =>
  match m (w_control w) (w_store w) with
  | (inl e, s) => (inl (SourceError e), with_source (w_control w) s w)
  | (inr (manifest, control), s) => (inr manifest, with_source control s w)
  end.

Definition onDestination {A} (d : D A) : X A := fun w =>
  match d (w_pg w) with
  | inl e => (inl e, w)
  | inr (a, p) => (inr a, with_pg p w)
  end.

(** The error of a call as a value. *)
Definition result {A} (m : X A) : X (CutErr + A) := fun w => let '(r, w) := m w in (inr r, w).

Record Executor := {
  ex_Publish : option (MailCutoverPublication -> bool);
  ex_BatchSize : Z;
  ex_Enrollment : option (list EnrollmentRecord);            (* [None] is "" *)
}.

Record Request := {
  xr_ActorPrincipalID : string;
  xr_EpochID : string;
  xr_ExpectedSourceFingerprint : string;
  xr_Cutoff : Z;
}.

Record Plan := {
  pl_SourceID : string;
  pl_SourcePhase : MigrationSourcePhase;
  pl_SourceFingerprint : string;
  pl_TargetIdentity : string;
  pl_Counts : list (string * Z);
  pl_Preflight : MailCutoverPreflight;
  pl_Ready : bool;
}.

Record Result := {
  xr_Epoch : string;
  xr_SourceFingerprint : string;
  xr_SourcePhase : MigrationSourcePhase;
  xr_Phase : MailCutoverPhase;
}.

Definition executorTables : list string :=
  ["mail_endpoints"; "mail_conversations"; "mail_telegram_claims"; "mail_telegram_participants";
   "mail_telegram_claim_events"; "mail_telegram_claim_idempotency"; "mail_memberships"; "mail_roles";
   "mail_role_memberships"; "mail_role_bindings"; "mail_messages"; "mail_deliveries";
   "mail_recipient_cursors"; "mail_message_idempotency"; "mail_conversation_idempotency";
   "mail_conversation_display_name_idempotency"; "mail_conversation_controls";
   "mail_conversation_control_idempotency"; "mail_request_nonces"; "mail_role_profiles";
   "mail_role_profile_idempotency"; "mail_rate_buckets"; "mail_direct_conversations";
   "mail_message_from_roles"; "mail_direct_message_idempotency"].

(** The row count of the executor's [tableEvidence]. *)
Definition expectedRows (m : MigrationSourceManifest) (table : string) : Z :=
  match columnSpec table with Some spec => countOf m (sp_name spec) | None => -1 end.

Section Execution.
Context `{Env, RowJson, PgEnv}.

(** The identity read outside a transaction. *)
Definition Identity : D string := look pg_identity.

Definition DryRun : X Plan :=
  onDestination CheckMailCutoverSchemaReadiness;;
  target ← onDestination Identity;
  manifest ← fromSource InspectMigrationSource;
  preflight ← onDestination InspectMailCutoverPreflight;
  mret {| pl_SourceID := mm_SourceID manifest; pl_SourcePhase := mm_Phase manifest;
          pl_SourceFingerprint := mm_Fingerprint manifest; pl_TargetIdentity := target;
          pl_Counts := (fun e => (te_name e, te_count e)) <$> mm_Tables manifest;
          pl_Preflight := preflight;
          pl_Ready := (pf_TargetRows preflight =? 0) && (pf_LegacyPending preflight =? 0) &&
                      (pf_IncompleteEpochs preflight =? 0) |}.

Definition withPhase (phase : MigrationSourcePhase) (epochID target : string) (m : MigrationSourceManifest)
    : MigrationSourceManifest := {|
  mm_Version := mm_Version m; mm_SourceID := mm_SourceID m; mm_Phase := phase; mm_EpochID := epochID;
  mm_TargetIdentity := target; mm_Tables := mm_Tables m; mm_Fingerprint := mm_Fingerprint m;
  mm_lastEpochID := mm_lastEpochID m; mm_lastTargetIdentity := mm_lastTargetIdentity m;
  mm_lastExpectedFingerprint := mm_lastExpectedFingerprint m;
  mm_lastResultFingerprint := mm_lastResultFingerprint m; mm_lastCutoff := mm_lastCutoff m;
  mm_lastTransition := mm_lastTransition m |}.

Definition destinationRequest (m : MigrationSourceManifest) (epochID target : string) : MailCutoverRequest :=
  let body := manifest_Marshal (withPhase MigrationSourcePrepared epochID target m) in {|
  rq_EpochID := epochID; rq_SourceID := mm_SourceID m; rq_TargetIdentity := target;
  rq_SourceFingerprint := mm_Fingerprint m; rq_Manifest := body;
  rq_ManifestSHA256 := hexEncode (Sha256.Sum256 body) |}.

(** The loop over the pages of one table. *)
Fixpoint importPages (pages : nat) (request : Request) (table : string) (batchSize : Z) (after : string)
    : X MailCutoverCheckpoint :=
  match pages with
  | O => fail (SourceError ErrDiverges)
  | S pages =>
      batch ← fromSource (fun control => ReadMigrationSourceBatch control table after batchSize);
      checkpoint ← onDestination (StageMailCutoverBatch (xr_ActorPrincipalID request)
        {| bt_EpochID := xr_EpochID request; bt_Table := table; bt_AfterKey := after;
           bt_Rows := mb_Rows batch; bt_Done := mb_Done batch |});
      if mb_Done batch then mret checkpoint
      else
        fail_if (bool_decide (mb_NextKey batch = "") || bool_decide (mb_NextKey batch = after))
          (CutError "pagination did not advance");;
        importPages pages request table batchSize (mb_NextKey batch)
  end.

Definition importTable (pages : nat) (request : Request) (prepared : MigrationSourceManifest) (batchSize : Z)
    (table : string) : X unit :=
  checkpoint ← onDestination (ReadMailCutoverCheckpoint (xr_ActorPrincipalID request) (xr_EpochID request) table);
  let expected := expectedRows prepared table in
  fail_if (expected <? ck_RowCount checkpoint) (CutError "checkpoint exceeds the manifest");;
  if (ck_RowCount checkpoint =? expected) && ((0 <? expected) || ck_Recorded checkpoint) then mret tt
  else
    checkpoint ← importPages pages request table batchSize (default "" (ck_LastKey checkpoint));
    fail_if (negb (ck_RowCount checkpoint =? expected)) (CutError "checkpoint does not reach the manifest").

Fixpoint importTables (pages : nat) (request : Request) (prepared : MigrationSourceManifest) (batchSize : Z)
    (tables : list string) : X unit :=
  match tables with
  | [] => mret tt
  | table :: tables =>
      importTable pages request prepared batchSize table;; importTables pages request prepared batchSize tables
  end.

Definition validExecution (ex : Executor) (request : Request) : bool :=
  negb (isNull (ex_Publish ex)) && negb (isNull (ex_Enrollment ex)) &&
  uuid_Validate (xr_ActorPrincipalID request) && uuid_Validate (xr_EpochID request) &&
  validMigrationDigest (xr_ExpectedSourceFingerprint request) && negb (Time.IsZero (xr_Cutoff request)).

Definition CheckEnrollmentCoverage (ex : Executor) : X unit :=
  fromSource (fun control => CheckMigrationSourceEnrollmentCoverage control (default [] (ex_Enrollment ex))).

(** The checks of an active source's destination. *)
Definition checkPreflight (manifest : MigrationSourceManifest) : X unit :=
  if bool_decide (mm_Phase manifest = MigrationSourceActive) then
    preflight ← onDestination InspectMailCutoverPreflight;
    fail_if (negb (pf_IncompleteEpochs preflight =? 0)) (CutError "recovery is required");;
    fail_if (negb (pf_TargetRows preflight =? 0)) (CutError "target is not empty");;
    fail_if (negb (pf_LegacyPending preflight =? 0)) (CutError "pending machines")
  else mret tt.

(** The switch on the source's phase. *)
Definition bindSource (ex : Executor) (request : Request) (target : string) (manifest : MigrationSourceManifest)
    : X MigrationSourceManifest :=
  if bool_decide (mm_Phase manifest = MigrationSourceActive) then
    fail_if (negb (bool_decide (mm_Fingerprint manifest = xr_ExpectedSourceFingerprint request)))
      (CutError "source changed after dry-run");;
    prepared ← command (fun control => PrepareMigrationSource control (xr_EpochID request) target
      (xr_ExpectedSourceFingerprint request) (xr_Cutoff request));
    CheckEnrollmentCoverage ex;;
    mret prepared
  else
    fail_if (negb (bool_decide (mm_EpochID manifest = xr_EpochID request)) ||
      negb (bool_decide (mm_TargetIdentity manifest = target)) ||
      negb (bool_decide (mm_lastExpectedFingerprint manifest = xr_ExpectedSourceFingerprint request)))
      (CutError "source is bound to another execution");;
    mret manifest.

Definition importEpoch (pages : nat) (request : Request) (manifest prepared : MigrationSourceManifest)
    (batchSize : Z) (epoch : MailCutoverEpoch) : X MailCutoverEpoch :=
  if bool_decide (me_Phase epoch = MailCutoverImporting) then
    fail_if (negb (bool_decide (mm_Phase manifest = MigrationSourcePrepared)))
      (CutError "retired source has an incomplete import");;
    importTables pages request prepared batchSize executorTables;;
    onDestination (VerifyMailCutover (xr_ActorPrincipalID request) (xr_EpochID request) (mm_Fingerprint prepared))
  else mret epoch.

Definition retireSource (wall : Z) (ex : Executor) (request : Request) (target : string)
    (manifest prepared : MigrationSourceManifest) : X MigrationSourceManifest :=
  if bool_decide (mm_Phase manifest = MigrationSourcePrepared) then
    onDestination (CheckMailCutoverActivationReadiness (xr_ActorPrincipalID request) (xr_EpochID request)
      (mm_Fingerprint prepared) (default [] (ex_Enrollment ex)));;
    command (fun control => RetirePreparedMigrationSource control (xr_EpochID request) target
      (mm_Fingerprint prepared) wall)
  else mret manifest.

Definition activateEpoch (wall : Z) (ex : Executor) (request : Request) (target : string)
    (manifest prepared : MigrationSourceManifest) (epoch : MailCutoverEpoch)
    : X (MigrationSourceManifest * MailCutoverEpoch) :=
  if bool_decide (me_Phase epoch = MailCutoverVerified) then
    manifest ← retireSource wall ex request target manifest prepared;
    fail_if (negb (bool_decide (mm_Phase manifest = MigrationSourceRetired))) (CutError "source is not retired");;
    epoch ← onDestination (ActivateMailCutover (xr_ActorPrincipalID request) (xr_EpochID request)
      (mm_Fingerprint prepared) manifest);
    mret (manifest, epoch)
  else mret (manifest, epoch).

Definition publish (ex : Executor) (publication : MailCutoverPublication) : X unit := fun w =>
  match ex_Publish ex with
  | Some accepts => if (accepts publication : bool) then (inr tt, with_published publication w)
                    else (inl (CutError "publication"), w)
  | None => (inl (CutError "publication"), w)
  end.

(** [wall] is the clock when the source is retired. *)
Definition Execute (pages : nat) (wall : Z) (ex : Executor) (request : Request) : X Result :=
  fail_if (negb (validExecution ex request)) (CutError "request is invalid");;
  onDestination CheckMailCutoverSchemaReadiness;;
  let batchSize := if (ex_BatchSize ex <? 1) || (256 <? ex_BatchSize ex) then 128 else ex_BatchSize ex in
  target ← onDestination Identity;
  inspected ← fromSource InspectMigrationSource;
  checkPreflight inspected;;
  CheckEnrollmentCoverage ex;;
  manifest ← bindSource ex request target inspected;
  let prepared := withPhase MigrationSourcePrepared (mm_EpochID manifest) (mm_TargetIdentity manifest) manifest in
  epoch ← onDestination (BeginMailCutover (xr_ActorPrincipalID request)
    (destinationRequest prepared (xr_EpochID request) target));
  epoch ← importEpoch pages request manifest prepared batchSize epoch;
  '(manifest, epoch) ← activateEpoch wall ex request target manifest prepared epoch;
  fail_if (negb (bool_decide (me_Phase epoch = MailCutoverActive)) ||
    negb (bool_decide (mm_Phase manifest = MigrationSourceRetired))) (CutError "authority boundary");;
  publish ex {| pb_Version := 1; pb_EpochID := xr_EpochID request; pb_TargetIdentity := target;
                pb_SourceFingerprint := mm_Fingerprint prepared |};;
  mret {| xr_Epoch := xr_EpochID request; xr_SourceFingerprint := mm_Fingerprint prepared;
          xr_SourcePhase := mm_Phase manifest; xr_Phase := me_Phase epoch |}.

(** The fingerprint an abort is bound to: the epoch's, or, before the
    destination knows the epoch, the prepared source's under a reservation. *)
Definition abortFingerprint (actorPrincipalID epochID target : string) (manifest : MigrationSourceManifest)
    : X string :=
  status ← result (onDestination (MailCutoverStatus actorPrincipalID epochID));
  match status with
  | inr status =>
      fail_if (bool_decide (me_Phase status = MailCutoverActive)) (CutError "active cannot be aborted");;
      mret (rq_SourceFingerprint (me_Request status))
  | inl e =>
      fail_if (negb (bool_decide (e = CutNotFound))) e;;
      fail_if (negb (bool_decide (mm_Phase manifest = MigrationSourcePrepared)) ||
        negb (bool_decide (mm_EpochID manifest = epochID)) ||
        negb (bool_decide (mm_TargetIdentity manifest = target))) (CutError "abort binding");;
      reserved ← onDestination (ReserveMailCutoverAbort actorPrincipalID (destinationRequest manifest epochID target));
      fail_if (negb (bool_decide (me_Phase reserved = MailCutoverAborted)) ||
        negb (bool_decide (rq_SourceFingerprint (me_Request reserved) = mm_Fingerprint manifest)))
        (CutError "abort reservation");;
      mret (mm_Fingerprint manifest)
  end.

Definition AbortExecution (actorPrincipalID epochID : string) (wall : Z) : X Result :=
  fail_if (negb (uuid_Validate actorPrincipalID) || negb (uuid_Validate epochID)) (CutError "abort request");;
  target ← onDestination Identity;
  manifest ← fromSource InspectMigrationSource;
  fail_if (bool_decide (mm_Phase manifest = MigrationSourceRetired)) (CutError "retired cannot be aborted");;
  fingerprint ← abortFingerprint actorPrincipalID epochID target manifest;
  fail_if (bool_decide (mm_Phase manifest = MigrationSourcePrepared) &&
    (negb (bool_decide (mm_EpochID manifest = epochID)) || negb (bool_decide (mm_TargetIdentity manifest = target)) ||
     negb (bool_decide (mm_Fingerprint manifest = fingerprint)))) (CutError "source binding");;
  manifest ← command (fun control => AbortPreparedMigrationSource control epochID target fingerprint wall);
  onDestination (AbortMailCutover actorPrincipalID epochID fingerprint);;
  mret {| xr_Epoch := epochID; xr_SourceFingerprint := fingerprint; xr_SourcePhase := mm_Phase manifest;
          xr_Phase := MailCutoverAborted |}.
End Execution.
