(* ===== verification/Epochs.v ===== *)
(** * The destination of a cutover is consistent

    What each call to the destination does, and the invariant of its epochs: one
    epoch at most is open; while it imports the mail tables are empty; once it
    is verified they hold its staged rows, which rehash to its manifest. *)

From S2P Require Import Prelude GoTime RateLimit Quota Text Sha256 Tables Tx Sessions Pending.
From S2P Require Import Invocations Rooms Auth Source Export Destination.
Open Scope Z_scope.

(** ** Successful transactions *)

Section Transactions.
Context {A B : Type}.

Lemma dest_bind_ok (m : D A) (k : A -> D B) p b p' :
  mbind k m p = inr (b, p') <-> exists a p1, m p = inr (a, p1) /\ k a p1 = inr (b, p').
Proof. unfold mbind, D_bind. destruct (m p) as [e|[a p1]]; naive_solver. Qed.
Lemma dest_ret_ok (a : A) p b p' : (mret a : D A) p = inr (b, p') <-> b = a /\ p' = p.
Proof. unfold mret, D_ret. naive_solver. Qed.
Lemma refuse_ok e p (a : A) p' : refuse e p <> inr (a, p').
Proof. done. Qed.
Lemma look_ok (f : Pg -> A) p a p' : look f p = inr (a, p') <-> a = f p /\ p' = p.
Proof. unfold look. naive_solver. Qed.
Lemma found_ok e (o : option A) p a p' : found e o p = inr (a, p') <-> o = Some a /\ p' = p.
Proof. destruct o; unfold found, mret, D_ret, refuse; naive_solver. Qed.
End Transactions.

Lemma refuse_if_ok b e p u p' : refuse_if b e p = inr (u, p') <-> b = false /\ p' = p.
Proof. destruct b, u; unfold refuse_if, refuse, mret, D_ret; naive_solver. Qed.
Lemma change_ok f p u p' : change f p = inr (u, p') <-> p' = f p.
Proof. destruct u. unfold change. naive_solver. Qed.

(** Running a sequence of them forwards. *)
Lemma dest_bind_run {A B} (m : D A) (k : A -> D B) p a p1 :
  m p = inr (a, p1) -> mbind k m p = k a p1.
Proof. unfold mbind, D_bind. by intros ->. Qed.
Lemma refuse_if_run b e p : b = false -> refuse_if b e p = inr (tt, p).
Proof. by intros ->. Qed.
Lemma found_run {A} e (o : option A) (a : A) p : o = Some a -> found e o p = inr (a, p).
Proof. by intros ->. Qed.

(** [pg_run] takes the next steps that do not depend on a fact. *)
Ltac pg_run := repeat (erewrite dest_bind_run by reflexivity).

(** [pg_inv H] takes a successful transaction [H : d p = inr (a, p')] apart. *)
Ltac pg_step H :=
  lazymatch type of H with
  | mbind _ _ _ = inr _ =>
      let a := fresh "a" in let p := fresh "p" in let Hm := fresh "Hm" in
      apply dest_bind_ok in H as (a & p & Hm & H); pg_inv Hm
  | mret _ _ = inr _ => apply dest_ret_ok in H as [? ?]; subst
  | refuse _ _ = inr _ => by apply refuse_ok in H
  | refuse_if _ _ _ = inr _ => apply refuse_if_ok in H as [H ?]; subst
  | look _ _ = inr _ => apply look_ok in H as [? ?]; subst
  | found _ _ _ = inr _ => apply found_ok in H as [H ?]; subst
  | change _ _ = inr _ => apply change_ok in H; subst
  | guardMutation _ = inr _ => unfold guardMutation in H; pg_step H
  | lockInstallationOwner _ _ = inr _ => unfold lockInstallationOwner in H; pg_step H
  | matchIdentity _ _ = inr _ => unfold matchIdentity in H; pg_step H
  | stagedPayload _ _ = inr _ => unfold stagedPayload in H; pg_step H
  | importing _ _ = inr _ => unfold importing in H; pg_step H
  | noPendingMachines _ = inr _ => unfold noPendingMachines in H; pg_step H
  | (if ?b then _ else _) _ = inr _ => let E := fresh "E" in destruct b eqn:E; pg_step H
  | _ => idtac
  end
with pg_inv H := repeat (progress pg_step H).

(** ** What each call does *)

Section Calls.
Context `{Env, RowJson, PgEnv}.

(** The request as the destination keeps it. *)
Definition samePins (request stored : MailCutoverRequest) : Prop :=
  rq_EpochID stored = rq_EpochID request /\ rq_TargetIdentity stored = rq_TargetIdentity request /\
  rq_SourceFingerprint stored = rq_SourceFingerprint request.

Lemma sameMailCutoverRequest_pins a b : sameMailCutoverRequest a b = true -> samePins b a.
Proof. unfold sameMailCutoverRequest, samePins. intros Hs. by bool_hyps. Qed.

Lemma validRequest_ok actor request p r p' :
  validRequest actor request p = inr (r, p') ->
  p' = p /\ exists canonical, canonicalMailCutoverManifest request = Some canonical /\ r = with_Manifest canonical request.
Proof. unfold validRequest. intros Hv. pg_inv Hv. split; [done|]. eauto. Qed.

(** The effect of a call on the destination, by kind; [given] are the manifests
    the callers were given. *)
Inductive effect (given : MigrationSourceManifest -> Prop) : Pg -> Pg -> Prop :=
  | effect_none p : effect given p p
  | effect_begin p r :
      pg_epochs p !! rq_EpochID r = None -> pg_target p = ∅ -> openEpoch (pg_epochs p) = false ->
      effect given p (with_epochs (<[rq_EpochID r := {| me_Request := r; me_Phase := MailCutoverImporting |}]> (pg_epochs p)) p)
  | effect_reserve p r :
      pg_epochs p !! rq_EpochID r = None ->
      effect given p (with_epochs (<[rq_EpochID r := {| me_Request := r; me_Phase := MailCutoverAborted |}]> (pg_epochs p)) p)
  | effect_abort p k e :
      pg_epochs p !! k = Some e -> me_Phase e <> MailCutoverActive -> me_Phase e <> MailCutoverAborted ->
      effect given p (abortedPg k e p)
  | effect_stage p k e staging checkpoints :
      pg_epochs p !! k = Some e -> me_Phase e = MailCutoverImporting ->
      effect given p (with_cutover (pg_epochs p) staging checkpoints (pg_target p) p)
  | effect_verify p k e manifest :
      pg_epochs p !! k = Some e -> me_Phase e = MailCutoverImporting ->
      manifest_Unmarshal (rq_Manifest (me_Request e)) = Some manifest ->
      forallb (tableVerified p manifest k) mailCutoverTables = true ->
      effect given p (with_cutover (<[k := setEpochPhase MailCutoverVerified e]> (pg_epochs p)) (pg_staging p)
        (pg_checkpoints p) (stagedTarget p k ∪ pg_target p) p)
  | effect_activate p p1 k e prepared retired :
      pg_epochs p !! k = Some e -> me_Phase e = MailCutoverVerified ->
      manifest_Unmarshal (rq_Manifest (me_Request e)) = Some prepared ->
      given retired -> sameMailCutoverSource prepared retired = true -> mm_EpochID retired = k ->
      mm_Fingerprint retired = rq_SourceFingerprint (me_Request e) ->
      p1 = p \/ p1 = close_legacy p ->
      effect given p (with_epochs (<[k := setEpochPhase MailCutoverActive e]> (pg_epochs p)) p1).

(** The calls, with the epoch they return. *)
Inductive call (given : MigrationSourceManifest -> Prop) : Pg -> option MailCutoverEpoch -> Pg -> Prop :=
  | call_begin actor request p e p' :
      BeginMailCutover actor request p = inr (e, p') -> call given p (Some e) p'
  | call_status actor epochID p e p' :
      MailCutoverStatus actor epochID p = inr (e, p') -> call given p (Some e) p'
  | call_reserve actor request p e p' :
      ReserveMailCutoverAbort actor request p = inr (e, p') -> call given p (Some e) p'
  | call_abort actor epochID fingerprint p p' :
      AbortMailCutover actor epochID fingerprint p = inr (tt, p') -> call given p None p'
  | call_stage actor batch p checkpoint p' :
      StageMailCutoverBatch actor batch p = inr (checkpoint, p') -> call given p None p'
  | call_verify actor epochID fingerprint p e p' :
      VerifyMailCutover actor epochID fingerprint p = inr (e, p') -> call given p (Some e) p'
  | call_activate actor epochID fingerprint retired p e p' :
      given retired -> ActivateMailCutover actor epochID fingerprint retired p = inr (e, p') ->
      call given p (Some e) p'.

Context (given : MigrationSourceManifest -> Prop).

Lemma begin_ok actor request p e p' :
  BeginMailCutover actor request p = inr (e, p') ->
  samePins request (me_Request e) /\ pg_epochs p' !! rq_EpochID request = Some e /\ effect given p p'.
Proof.
  unfold BeginMailCutover. intros Hb. pg_inv Hb. apply validRequest_ok in Hm as [-> (c & _ & ->)].
  cbn [rq_EpochID with_Manifest] in *.
  destruct (pg_epochs p !! rq_EpochID request) as [existing|] eqn:He; pg_inv Hb.
  - bool_hyps. split_and!; [by apply sameMailCutoverRequest_pins|done|constructor].
  - split_and!; [done|cbn; by apply lookup_insert_eq|]. bool_hyps.
    apply (effect_begin given p (with_Manifest c request)); [done| |done].
    apply map_size_empty_inv. unfold mailCutoverEmptyTargetCount in *. lia.
Qed.

Lemma reserve_ok actor request p e p' :
  ReserveMailCutoverAbort actor request p = inr (e, p') ->
  pg_epochs p' !! rq_EpochID request = Some e /\ effect given p p'.
Proof.
  unfold ReserveMailCutoverAbort. intros Hb. pg_inv Hb. apply validRequest_ok in Hm as [-> (c & _ & ->)].
  cbn [rq_EpochID with_Manifest] in *.
  destruct (pg_epochs p !! rq_EpochID request) as [existing|] eqn:He; pg_inv Hb.
  - split; [done|constructor].
  - split; [cbn; by apply lookup_insert_eq|]. by apply (effect_reserve given p (with_Manifest c request)).
Qed.

Lemma abort_ok actor k fingerprint p u p' :
  AbortMailCutover actor k fingerprint p = inr (u, p') ->
  (exists e, pg_epochs p' !! k = Some e /\ me_Phase e = MailCutoverAborted) /\ effect given p p'.
Proof.
  unfold AbortMailCutover. intros Ha. pg_inv Ha; bool_hyps; (split; [|by constructor]).
  - eauto.
  - exists (setEpochPhase MailCutoverAborted a2). split; [|done]. cbn. apply lookup_insert_eq.
Qed.

Lemma verify_stages_nothing k table rows p u p' :
  verifyStagedMailRows k table rows p = inr (u, p') -> p' = p.
Proof.
  revert p. induction rows as [|row rows IH]; simpl; intros p Hv; pg_inv Hv; [done|].
  by apply IH.
Qed.

Lemma stageRows_ok k table rows p u p' :
  stageRows k table rows p = inr (u, p') ->
  exists staging, p' = with_cutover (pg_epochs p) staging (pg_checkpoints p) (pg_target p) p.
Proof.
  revert p. induction rows as [|row rows IH]; simpl; intros p Hv; pg_inv Hv.
  - exists (pg_staging p). by destruct p.
  - apply IH in Hv as [staging ->]. by exists staging.
Qed.

Lemma stage_ok actor batch p checkpoint p' :
  StageMailCutoverBatch actor batch p = inr (checkpoint, p') -> effect given p p'.
Proof.
  unfold StageMailCutoverBatch. intros Hs. pg_inv Hs.
  - apply verify_stages_nothing in Hm5 as ->. constructor.
  - constructor.
  - apply stageRows_ok in Hm2 as [staging ->]. bool_hyps. exact (effect_stage given p _ _ staging _ Hm3 Hm4).
Qed.

Lemma verifyCutover_ok actor k fingerprint p e p' :
  VerifyMailCutover actor k fingerprint p = inr (e, p') ->
  pg_epochs p' !! k = Some e /\ effect given p p'.
Proof.
  unfold VerifyMailCutover. intros Hv. pg_inv Hv.
  - split; [done|constructor].
  - split; [cbn; by apply lookup_insert_eq|]. bool_hyps. by eapply effect_verify.
Qed.

(** An activation repeats the first one, or is the first. *)
Lemma activate_cases actor k fingerprint retired p e p' :
  ActivateMailCutover actor k fingerprint retired p = inr (e, p') ->
  pg_epochs p !! k = Some e /\ me_Phase e = MailCutoverActive /\ p' = p \/
  exists e0 prepared p1, pg_epochs p !! k = Some e0 /\ me_Phase e0 = MailCutoverVerified /\
    manifest_Unmarshal (rq_Manifest (me_Request e0)) = Some prepared /\
    sameMailCutoverSource prepared retired = true /\ mm_EpochID retired = k /\
    mm_Fingerprint retired = rq_SourceFingerprint (me_Request e0) /\ (p1 = p \/ p1 = close_legacy p) /\
    e = setEpochPhase MailCutoverActive e0 /\ p' = with_epochs (<[k := e]> (pg_epochs p)) p1.
Proof.
  unfold ActivateMailCutover. intros Ha. pg_inv Ha; [left; bool_hyps; done|right].
  destruct (pg_legacy_auth p) as [enabled|]; [|pg_inv Ha].
  apply dest_bind_ok in Ha as (u & p1 & Hc & Ha). pg_inv Ha. bool_hyps. subst.
  eexists _, _, p1. split_and!; try done. destruct enabled; pg_inv Hc; auto.
Qed.

Lemma activate_ok actor k fingerprint retired p e p' :
  given retired -> ActivateMailCutover actor k fingerprint retired p = inr (e, p') ->
  pg_epochs p' !! k = Some e /\ effect given p p'.
Proof.
  intros Hg [(? & _ & ->)|(e0 & prepared & p1 & ? & ? & ? & ? & ? & ? & ? & -> & ->)]%activate_cases.
  - split; [done|constructor].
  - split; [apply lookup_insert_eq|by eapply effect_activate].
Qed.

Lemma call_ok p returned p' :
  call given p returned p' ->
  effect given p p' /\ forall e, returned = Some e -> exists k, pg_epochs p' !! k = Some e.
Proof.
  destruct 1 as [actor r p e p' Hc|actor k p e p' Hc|actor r p e p' Hc|actor k f p p' Hc|actor b p c p' Hc
    |actor k f p e p' Hc|actor k f m p e p' Hg Hc].
  - apply begin_ok in Hc as (_ & ? & ?). naive_solver.
  - unfold MailCutoverStatus in Hc. pg_inv Hc. split; [constructor|naive_solver].
  - apply reserve_ok in Hc as [? ?]. naive_solver.
  - apply abort_ok in Hc as [_ ?]. naive_solver.
  - apply stage_ok in Hc. naive_solver.
  - apply verifyCutover_ok in Hc as [? ?]. naive_solver.
  - apply activate_ok in Hc as [? ?]; [|done]. naive_solver.
Qed.
End Calls.

(** ** The invariant *)

Section Consistent.
Context `{Env, RowJson, PgEnv}.

Definition cutoverRuns (p : Pg) : bool :=
  mexists (fun _ e => bool_decide (me_Phase e = MailCutoverImporting) ||
    bool_decide (me_Phase e = MailCutoverVerified)) (pg_epochs p).

(** What the rest of the system does: anything that is not the cutover's, and
    with the mail tables when [relay.guard_mail_mutation] lets it. *)
Inductive outside : Pg -> Pg -> Prop :=
  | outside_other p p' :
      pg_epochs p' = pg_epochs p -> pg_staging p' = pg_staging p -> pg_checkpoints p' = pg_checkpoints p ->
      pg_target p' = pg_target p -> outside p p'
  | outside_mail p target :
      cutoverRuns p = false ->
      outside p (with_cutover (pg_epochs p) (pg_staging p) (pg_checkpoints p) target p).

(** The mail tables hold the staged rows, and these match the manifest. *)
Definition materialized (p : Pg) (k : string) (e : MailCutoverEpoch) : Prop :=
  pg_target p = stagedTarget p k /\
  exists manifest, manifest_Unmarshal (rq_Manifest (me_Request e)) = Some manifest /\
    forallb (tableVerified p manifest k) mailCutoverTables = true.

Record consistent (p : Pg) : Prop := {
  epoch_id k e : pg_epochs p !! k = Some e -> rq_EpochID (me_Request e) = k;
  one_open k1 e1 k2 e2 :
    pg_epochs p !! k1 = Some e1 -> me_Phase e1 <> MailCutoverAborted ->
    pg_epochs p !! k2 = Some e2 -> me_Phase e2 <> MailCutoverAborted -> k1 = k2;
  importing_empty k e : pg_epochs p !! k = Some e -> me_Phase e = MailCutoverImporting -> pg_target p = ∅;
  verified_rows k e : pg_epochs p !! k = Some e -> me_Phase e = MailCutoverVerified -> materialized p k e;
}.

Lemma openEpoch_false p k e :
  openEpoch (pg_epochs p) = false -> pg_epochs p !! k = Some e -> me_Phase e = MailCutoverAborted.
Proof. unfold openEpoch. rewrite mexists_false. intros Ho Hk. specialize (Ho _ _ Hk). by bool_hyps. Qed.

(** With epoch [k] open, every other epoch is aborted. *)
Lemma others_aborted p k e k' e' :
  consistent p -> pg_epochs p !! k = Some e -> me_Phase e <> MailCutoverAborted ->
  pg_epochs p !! k' = Some e' -> k' <> k -> me_Phase e' = MailCutoverAborted.
Proof.
  intros Hc Hk He Hk' Hne. destruct (decide (me_Phase e' = MailCutoverAborted)) as [|Ho]; [done|].
  destruct Hne. by eapply (one_open p Hc).
Qed.

(** Writing the epoch [k] when all others are aborted. *)
Lemma consistent_insert p p' k e :
  consistent p -> rq_EpochID (me_Request e) = k -> pg_epochs p' = <[k := e]> (pg_epochs p) ->
  (forall k' e', pg_epochs p !! k' = Some e' -> k' <> k -> me_Phase e' = MailCutoverAborted) ->
  (me_Phase e = MailCutoverImporting -> pg_target p' = ∅) ->
  (me_Phase e = MailCutoverVerified -> materialized p' k e) ->
  consistent p'.
Proof.
  intros Hc Hid Hep Ho Hi Hv.
  assert (forall k' e', pg_epochs p' !! k' = Some e' -> me_Phase e' <> MailCutoverAborted ->
    k' = k /\ e' = e) as Hopen.
  { intros k' e'. rewrite Hep. intros [[<- <-]|[Hne Hk]]%lookup_insert_Some Hp; [done|].
    by apply Ho in Hk; [|done]. }
  split.
  - intros k' e'. rewrite Hep. intros [[<- <-]|[Hne Hk]]%lookup_insert_Some; [done|]. by apply (epoch_id p Hc).
  - intros k1 e1 k2 e2 Hk1 Ha1 Hk2 Ha2. destruct (Hopen _ _ Hk1 Ha1), (Hopen _ _ Hk2 Ha2). congruence.
  - intros k' e' Hk Hp. destruct (Hopen _ _ Hk) as [-> ->]; [congruence|]. auto.
  - intros k' e' Hk Hp. destruct (Hopen _ _ Hk) as [-> ->]; [congruence|]. auto.
Qed.

(** Adding an aborted epoch to a consistent destination. *)
Lemma consistent_reserve p k e :
  consistent p -> rq_EpochID (me_Request e) = k -> pg_epochs p !! k = None -> me_Phase e = MailCutoverAborted ->
  consistent (with_epochs (<[k := e]> (pg_epochs p)) p).
Proof.
  intros Hc Hid Hn Ha.
  assert (forall k' e', <[k := e]> (pg_epochs p) !! k' = Some e' -> me_Phase e' <> MailCutoverAborted ->
    pg_epochs p !! k' = Some e') as Hopen.
  { by intros k' e' [[<- <-]|[_ ?]]%lookup_insert_Some Hp. }
  split; cbn.
  - intros k' e' [[<- <-]|[_ Hk]]%lookup_insert_Some; [done|]. by apply (epoch_id p Hc).
  - intros k1 e1 k2 e2 Hk1 Ha1 Hk2 Ha2. by eapply (one_open p Hc k1 e1 k2 e2); auto.
  - intros k' e' Hk Hp. eapply (importing_empty p Hc k' e'); [apply Hopen; [done|congruence]|done].
  - intros k' e' Hk Hp. eapply (verified_rows p Hc k' e'); [apply Hopen; [done|congruence]|done].
Qed.

Lemma effect_consistent given p p' : effect given p p' -> consistent p -> consistent p'.
Proof.
  destruct 1 as [p|p r Hn Ht Ho|p r Hn|p k e Hk Ha Hb|p k e staging checkpoints Hk Hi|p k e m Hk Hi Hm Hf
    |p p1 k e m retired Hk Hv Hm _ _ _ _ Hp1]; intros Hc.
  - done.
  - eapply (consistent_insert p _ (rq_EpochID r)); [done|by instantiate (1 := Build_MailCutoverEpoch r _)|done| |done..].
    intros k' e' Hk' _. by eapply openEpoch_false.
  - by apply consistent_reserve.
  - eapply (consistent_insert p _ k (setEpochPhase MailCutoverAborted e));
      [done|by apply (epoch_id p Hc k e)|done| |done..].
    intros k' e'. by apply (others_aborted p k e).
  - apply (consistent_insert p _ k e); [done|by apply (epoch_id p Hc k e)|cbn; by rewrite insert_id| | |].
    + intros k' e'. apply (others_aborted p k e); [done..|congruence].
    + intros _. by apply (importing_empty p Hc k e).
    + congruence.
  - apply (consistent_insert p _ k (setEpochPhase MailCutoverVerified e));
      [done|by apply (epoch_id p Hc k e)|done| |done|].
    + intros k' e'. apply (others_aborted p k e); [done..|congruence].
    + intros _. split; [|by exists m]. cbn. by rewrite (importing_empty p Hc k e), map_union_empty.
  - apply (consistent_insert p _ k (setEpochPhase MailCutoverActive e));
      [done|by apply (epoch_id p Hc k e)|done| |done..].
    intros k' e'. apply (others_aborted p k e); [done..|congruence].
Qed.

Lemma outside_consistent p p' : outside p p' -> consistent p -> consistent p'.
Proof.
  destruct 1 as [p p' He Hs Hk Ht|p target Hr]; intros Hc.
  - destruct p, p'; cbn in *; subst. destruct Hc as [Ha Hb Hi Hv]. split; [exact Ha|exact Hb|exact Hi|exact Hv].
  - unfold cutoverRuns in Hr. rewrite mexists_false in Hr. split; cbn.
    + apply (epoch_id p Hc).
    + apply (one_open p Hc).
    + intros k e Hk Hi. specialize (Hr _ _ Hk). bool_hyps. done.
    + intros k e Hk Hi. specialize (Hr _ _ Hk). bool_hyps. done.
Qed.

(** An epoch keeps its request for good, and an active one stays active. *)
Lemma effect_keeps given p p' k e :
  effect given p p' -> pg_epochs p !! k = Some e ->
  exists e', pg_epochs p' !! k = Some e' /\ me_Request e' = me_Request e /\
    (me_Phase e = MailCutoverActive -> me_Phase e' = MailCutoverActive).
Proof.
  assert (forall k0 e0 (m : gmap string MailCutoverEpoch), me_Request e0 = me_Request e \/ k0 <> k ->
    (k0 = k -> me_Phase e = MailCutoverActive -> me_Phase e0 = MailCutoverActive) -> m !! k = Some e ->
    exists e', <[k0 := e0]> m !! k = Some e' /\ me_Request e' = me_Request e /\
      (me_Phase e = MailCutoverActive -> me_Phase e' = MailCutoverActive)) as Hins.
  { intros k0 e0 m Hr Hp Hm. destruct (decide (k0 = k)) as [->|].
    - rewrite lookup_insert_eq. naive_solver.
    - rewrite lookup_insert_ne by done. eauto. }
  destruct 1 as [p|p r Hn Ht Ho|p r Hn|p k1 e1 Hk1 Ha Hb|p k1 e1 staging checkpoints Hk1 Hi
    |p k1 e1 m Hk1 Hi Hm Hf|p p1 k1 e1 m retired Hk1 Hv Hm _ _ _ _ Hp1]; intros Hk; cbn;
    eauto; apply Hins; try done; try (right; congruence).
  all: try (intros; exfalso; congruence).
  all: destruct (decide (k1 = k)); [left|by right]; cbn; congruence.
Qed.
End Consistent.
