(* ===== verification/Relay.v ===== *)
(** * The relay: every exported operation, and the states they reach

    [Op] is one constructor per exported method of the SQLite store (backend.go
    [Backend] and the store's own administrative methods) with its arguments,
    and one for what the offline preparation of a migration does to the tables;
    [run_op] runs it.  [reachable] closes a fresh store under operations and
    under changes of the migration phase, which the offline commands make.  A property proved for [RelayInvariant] holds in every such state. *)

From S2P Require Import Prelude GoTime RateLimit Quota Text Sha256 Tables Tx Sessions Pending.
From S2P Require Import Invocations Rooms Claims Roles Directory Messages Deliveries Source.
Open Scope Z_scope.

(** Drop the result. *)
Definition void {A} (m : M A) : M unit := _ ← m; mret tt.

Inductive Op :=
  | OpSetRateLimits (cfg : RateLimitConfig)
  | OpSetQuotaLimits (cfg : QuotaConfig)
  | OpSetRetentionPolicy (cfg : RetentionConfig)
  | OpSetMetrics (metrics : option Metrics)
  | OpConsumeRequestNonce (machineID nonce : string) (now expiresAt : Z)
  | OpAssertEndpointOwnership (machineID endpoint : string) (now : Z)
  | OpAdvertiseEndpoints (machineID : string) (endpoints : list string) (now ttl : Z)
  | OpDoctorAttachments (machineID : string) (now : Z)
  | OpVerifyPendingQuota
  | OpReconcilePendingQuota (now : Z)
  | OpRequestInvocation (input : InvokeInput)
  | OpLeaseInvocations (machineID consumerID : string) (now ttl limit : Z)
  | OpReportInvocation (machineID invocationID token : string) (generation : Z) (accepted : bool) (now : Z)
  | OpRejectInvocation (machineID invocationID token : string) (generation now : Z)
  | OpInvocationAudit (invocationID : string)
  | OpCreateConversation (creatorEndpoint : string) (members : list Member) (now : Z)
  | OpCreateConversationIdempotent (input : CreateConversationInput)
  | OpApplyControl (input : ControlInput)
  | OpControlAudit (conversationID machineID actorEndpoint : string) (now : Z)
  | OpSetConversationDisplayName (input : SetDisplayNameInput)
  | OpPrepareTelegramAdopt (input : AdoptPrepareInput) (wall : Z)
  | OpReserveTelegramClaim (input : TelegramClaimInput)
  | OpCompleteTelegramClaim (conversationID machineID : string) (now : Z)
  | OpPendingTelegramClaims (machineID : string) (now limit : Z) (after : string)
  | OpUnclaimedNamedConversations (machineID : string) (now limit : Z)
  | OpSessionTopic (machineID endpoint : string) (now : Z)
  | OpBindRoleToSession (machineID role sessionEndpoint : string) (now ttl : Z)
  | OpRegisterRoleProfile (input : RegisterRoleInput)
  | OpRoleProfile (role : string)
  | OpListAddressableRoles (cursor : string) (limit now : Z)
  | OpResolveAddressableRole (rawName : string) (now : Z)
  | OpRecipientMachines (messageID : string) (now : Z)
  | OpConversationsForMachine (machineID : string) (now : Z)
  | OpAuthorizeSender (conversationID machineID endpoint : string) (now : Z)
  | OpAppendMessage (input : AppendInput)
  | OpAppendTelegramInbound (input : TelegramInboundInput)
  | OpSendDirectMessage (input : DirectMessageInput)
  | OpRecipientCursor (machineID endpoint conversationID : string) (now : Z)
  | OpLeaseDeliveries (machineID consumerID endpoint conversationID : string) (now ttl limit : Z)
  | OpAckDelivery (machineID endpoint deliveryID token : string) (generation now : Z)
  | OpMaintainDeliveries (wall : Z)
  | OpFenceSource (now : Z)
  | OpListTerminalDeliveries (after : string) (limit : Z).

Section Relay.
Context `{Env}.

Definition run_op (op : Op) : M unit :=
  match op with
  | OpSetRateLimits cfg => SetRateLimits cfg
  | OpSetQuotaLimits cfg => SetQuotaLimits cfg
  | OpSetRetentionPolicy cfg => SetRetentionPolicy cfg
  | OpSetMetrics metrics => SetMetrics metrics
  | OpConsumeRequestNonce m n now e => ConsumeRequestNonce m n now e
  | OpAssertEndpointOwnership m e now => AssertEndpointOwnership m e now
  | OpAdvertiseEndpoints m es now ttl => AdvertiseEndpoints m es now ttl
  | OpDoctorAttachments m now => void (DoctorAttachments m now)
  | OpVerifyPendingQuota => VerifyPendingQuota
  | OpReconcilePendingQuota now => void (ReconcilePendingQuota now)
  | OpRequestInvocation input => void (RequestInvocation input)
  | OpLeaseInvocations m c now ttl limit => void (LeaseInvocations m c now ttl limit)
  | OpReportInvocation m i t g a now => ReportInvocation m i t g a now
  | OpRejectInvocation m i t g now => RejectInvocation m i t g now
  | OpInvocationAudit i => void (InvocationAudit i)
  | OpCreateConversation c ms now => void (CreateConversation c ms now)
  | OpCreateConversationIdempotent input => void (CreateConversationIdempotent input)
  | OpApplyControl input => void (ApplyControl input)
  | OpControlAudit c m a now => void (ControlAudit c m a now)
  | OpSetConversationDisplayName input => void (SetConversationDisplayName input)
  | OpPrepareTelegramAdopt input wall => PrepareTelegramAdopt input wall
  | OpReserveTelegramClaim input => void (ReserveTelegramClaim input)
  | OpCompleteTelegramClaim c m now => void (CompleteTelegramClaim c m now)
  | OpPendingTelegramClaims m now limit after => void (PendingTelegramClaims m now limit after)
  | OpUnclaimedNamedConversations m now limit => void (UnclaimedNamedConversations m now limit)
  | OpSessionTopic m e now => void (SessionTopic m e now)
  | OpBindRoleToSession m r s now ttl => BindRoleToSession m r s now ttl
  | OpRegisterRoleProfile input => void (RegisterRoleProfile input)
  | OpRoleProfile r => void (RoleProfile r)
  | OpListAddressableRoles c limit now => void (ListAddressableRoles c limit now)
  | OpResolveAddressableRole n now => void (ResolveAddressableRole n now)
  | OpRecipientMachines m now => void (RecipientMachines m now)
  | OpConversationsForMachine m now => void (ConversationsForMachine m now)
  | OpAuthorizeSender c m e now => AuthorizeSender c m e now
  | OpAppendMessage input => void (AppendMessage input)
  | OpAppendTelegramInbound input => void (AppendTelegramInbound input)
  | OpSendDirectMessage input => void (SendDirectMessage input)
  | OpRecipientCursor m e c now => void (RecipientCursor m e c now)
  | OpLeaseDeliveries m c e conv now ttl limit => void (LeaseDeliveries m c e conv now ttl limit)
  | OpAckDelivery m e d t g now => AckDelivery m e d t g now
  | OpMaintainDeliveries wall => void (MaintainDeliveries wall)
  | OpFenceSource now => FenceSource now
  | OpListTerminalDeliveries after limit => void (ListTerminalDeliveries after limit)
  end.

(** Every outcome of [m] keeps [I] when it starts where [J] holds. *)
Definition keeps_given {A} (J I : Db -> Prop) (m : M A) : Prop :=
  forall s r s', m s = (r, s') -> J (st_db s) -> I (st_db s) -> I (st_db s').

Lemma keeps_given_of {A} J I (m : M A) : keeps I m -> keeps_given J I m.
Proof. intros Hm s r s' Hr _. exact (Hm s r s' Hr). Qed.

Lemma keeps_given_void {A} J I (m : M A) : keeps_given J I m -> keeps_given J I (void m).
Proof.
  intros Hm s r s'. unfold void, mbind, M_bind. destruct (m s) as [[e|a] s1] eqn:Hr;
    intros [= <- <-]; exact (Hm _ _ _ Hr).
Qed.

Lemma keeps_given_transact {A} J I (m : M A) :
  (forall s a s', m s = (inr a, s') -> J (st_db s) -> I (st_db s) -> I (st_db s')) ->
  keeps_given J I (transact m).
Proof.
  intros Hm s [e|a] s' Hr HJ HI.
  - apply transact_error in Hr. by rewrite Hr.
  - apply transact_ok in Hr. eauto.
Qed.

Lemma keeps_given_guard {A} J I b e (k : unit -> M A) :
  (b = false -> keeps_given J I (k tt)) -> keeps_given J I (reject_if b e ≫= k).
Proof. intros Hk s r s'. destruct b; simpl; [by intros [= <- <-]|]. exact (Hk eq_refl s r s'). Qed.

Lemma keeps_given_reads {A B} J I (m : M A) (k : A -> M B) :
  reads m -> (forall a, keeps_given J I (k a)) -> keeps_given J I (m ≫= k).
Proof.
  intros Hm Hk s r s'. unfold mbind, M_bind. destruct (m s) as [[e|a] s1] eqn:H1; apply Hm in H1.
  - intros [= <- <-]. by rewrite H1.
  - intros H2. rewrite <-H1. exact (Hk a s1 r s' H2).
Qed.

(** A first part under [J], and a rest that keeps [I] by itself. *)
Lemma keeps_given_bind {A B} J I (m : M A) (k : A -> M B) :
  keeps_given J I m -> (forall a, keeps I (k a)) -> keeps_given J I (m ≫= k).
Proof.
  intros Hm Hk s r s'. unfold mbind, M_bind. destruct (m s) as [[e|a] s1] eqn:H1.
  - intros [= <- <-]. eauto.
  - intros H2 HJ HI. eapply Hk; eauto.
Qed.

Definition phase_to (p : MigrationSourcePhase) (s : St) : St := with_db (set_phase p (st_db s)) s.

(** One step: an operation, failed or not, or an offline phase change. *)
Inductive step : St -> St -> Prop :=
  | step_op op s r s' : run_op op s = (r, s') -> step s s'
  | step_phase p s : step s (phase_to p s).

Definition reachable (s : St) : Prop := rtc step (newSt emptyDb) s.

(** [I] is kept by every step. *)
Class Stable (I : Db -> Prop) : Prop := {
  stable_phase p d : I d -> I (set_phase p d);
  stable_op op : keeps I (run_op op);
}.

(** An invariant: stable, and true of an empty store. *)
Class RelayInvariant (I : Db -> Prop) : Prop := {
  inv_stable :: Stable I;
  inv_empty : I emptyDb;
}.

Lemma stable_steps I `{!Stable I} s s' : rtc step s s' -> I (st_db s) -> I (st_db s').
Proof.
  induction 1 as [|s1 s2 s3 [op s0 r s' Hr|p s0] _ IH]; [done|..]; intros HI; apply IH.
  - by eapply stable_op.
  - by apply stable_phase.
Qed.

Lemma reachable_invariant I `{!RelayInvariant I} s : reachable s -> I (st_db s).
Proof. intros Hs. apply (stable_steps I _ _ Hs). apply inv_empty. Qed.

#[export] Instance Stable_and I J : Stable I -> Stable J -> Stable (fun d => I d /\ J d).
Proof.
  intros HI HJ. split.
  - intros p d [? ?]. split; by apply stable_phase.
  - intros op s r s' Hr [? ?]. split; by eapply stable_op.
Qed.

(** Operations may assume an invariant shown before. *)
Lemma Stable_under J I :
  Stable J -> (forall p d, I d -> I (set_phase p d)) ->
  (forall op, keeps_given J I (run_op op)) -> Stable (fun d => J d /\ I d).
Proof.
  intros HJ Hp Hop. split.
  - intros p d [? ?]. split; [by apply stable_phase|auto].
  - intros op s r s' Hr [HJs HIs]. split; [by eapply stable_op|by eapply Hop].
Qed.
End Relay.

Lemma keeps_void (I : Db -> Prop) {A} (m : M A) : keeps I m -> keeps I (void m).
Proof. intros Hm. apply keeps_bind; [done|]. intros _. apply reads_keeps, reads_ret. Qed.

(** [keep_op] reduces [keeps I (run_op op)] to the statements that write what
    [I] reads. *)
Ltac keep_maintain :=
  lazymatch goal with
  | |- keeps _ (MaintainDeliveries _) => apply maintain_keeps; intros
  | _ => idtac
  end.
Ltac keep_given :=
  lazymatch goal with
  | |- keeps_given _ _ (void _) => apply keeps_given_void; keep_given
  | |- keeps_given _ _ (mbind _ (reject_if _ _)) => apply keeps_given_guard; intros ?; keep_given
  | |- keeps_given _ _ (mbind _ (transact _)) => apply keeps_given_bind; [keep_given|intros ?; keep]
  | |- keeps_given _ _ (mbind _ _) => apply keeps_given_reads; [solve [reads]|intros ?; keep_given]
  | |- keeps_given _ _ (transact _) => apply keeps_given_transact
  | |- keeps_given _ _ (match ?x with _ => _ end) => destruct x eqn:?; keep_given
  | |- keeps_given _ _ (throw _) => apply keeps_given_of; keep
  | |- keeps_given _ _ (mret _) => apply keeps_given_of; keep
  end.
Ltac keep_op :=
  lazymatch goal with |- keeps _ (run_op ?op) => destruct op end;
  simpl; try apply keeps_void; keep_maintain; keep; preserve.
