(* ===== verification/QuotaOps.v ===== *)
(** * Every operation keeps the quota counters exact *)

From S2P Require Import Prelude GoTime RateLimit Quota Text Sha256 Tables Tx Sessions Pending.
From S2P Require Import QuotaInv Invocations Rooms Claims Roles Directory Messages Deliveries Relay.
Open Scope Z_scope.

(** ** Closing a pending delivery *)

(** A [pendingClose] read earlier in the transaction still describes its
    delivery: recipient and message never change. *)
Definition close_matches (row : pendingClose) (d : Db) : Prop :=
  forall dl, db_deliveries d !! pc_ID row = Some dl ->
    dl_recipient dl = pc_Recipient row /\
    exists m, db_messages d !! dl_message dl = Some m /\ bodyBytes m = pc_BodyBytes row /\
      ms_conversation m = pc_ConversationID row.

Lemma close_matches_update row id cond f :
  (forall dl, dl_message (f dl) = dl_message dl /\ dl_recipient (f dl) = dl_recipient dl) ->
  preserves (close_matches row) (sql_update t_deliveries id cond f).
Proof.
  intros Hf s n s' [(_ & -> & _)|(_ & dl & Hid & _ & _ & _ & ->)]%sql_update_ok; [done|].
  intros Hrow dl' Hdl'. cbn in Hid, Hdl' |- *. apply lookup_insert_Some in Hdl' as [[Heq <-]|[_ Hdl']].
  - destruct (Hf dl) as [-> ->]. apply Hrow. by rewrite <-Heq.
  - by apply Hrow.
Qed.

Lemma close_matches_close row row' reason now :
  preserves (close_matches row) (closePendingDelivery row' reason now).
Proof.
  unfold closePendingDelivery. preserve. by apply close_matches_update.
Qed.

Lemma closeRow_closes closedAt dl :
  dl_message (closeRow closedAt dl) = dl_message dl /\ is_Some (dl_acked (closeRow closedAt dl)).
Proof. split; [done|]. by eexists. Qed.

Lemma closePendingDelivery_quota row reason now b s s' :
  closePendingDelivery row reason now s = (inr b, s') ->
  close_matches row (st_db s) -> quota_ok (st_db s) -> quota_ok (st_db s').
Proof.
  intros H Hrow HI. unfold closePendingDelivery in H. tx_inv H.
  destruct (a0 =? 1) eqn:Ha; simpl in H; tx_inv H.
  - apply Z.eqb_eq in Ha. subst a0.
    apply close_delivery_credit in Hm0 as (dl & m & Hid & _ & Hmsg & _ & HI'); [|apply closeRow_closes|done].
    destruct (Hrow dl Hid) as (Hr & m' & Hm' & Hb & _). rewrite Hm' in Hmsg. simplify_eq.
    assert (quota_credit [pc_Recipient row] (pc_BodyBytes row) (st_db s1)) as HI2.
    { step_back Hm1. by rewrite <-Hr, <-Hb. }
    step_back Hm3. exact (releaseQuota_ok _ _ _ _ _ Hm2 HI2).
  - apply sql_update_ok in Hm0 as [(_ & -> & _)|(-> & _)]; done.
Qed.

Lemma pendingCloses_match d recipient conversationID row :
  row ∈ pendingCloses d recipient conversationID -> close_matches row d.
Proof.
  unfold pendingCloses. rewrite list_elem_of_omap. intros ([id dl] & Hin & Hrow).
  apply elem_of_map_to_list in Hin. simpl in Hrow. unfold pendingAt in Hrow.
  case_bool_decide as Hr; [|done]. destruct (pendingMessage d dl) as [m|] eqn:Hm; [|done].
  case_bool_decide as Hc; [|done]. simplify_eq. intros dl' Hdl'. simpl in Hdl'.
  rewrite Hin in Hdl'. simplify_eq. split; [done|]. exists m.
  unfold pendingMessage in Hm. by destruct (dl_acked dl').
Qed.

Lemma oldestDue_match d cutoff row : oldestDue d cutoff = Some row -> close_matches row d.
Proof.
  unfold oldestDue. intros Hrow%head_Some_elem_of. apply elem_of_sortBy in Hrow.
  apply list_elem_of_omap in Hrow as ([id dl] & Hin & Hrow).
  apply elem_of_map_to_list in Hin. simpl in Hrow.
  destruct (pendingMessage d dl) as [m|] eqn:Hm; [|done].
  destruct (_ <=? _); [|done]. simplify_eq. intros dl' Hdl'. simpl in Hdl'.
  rewrite Hin in Hdl'. simplify_eq. split; [done|]. exists m.
  unfold pendingMessage in Hm. by destruct (dl_acked dl').
Qed.

Lemma collect_closes_quota rows reason now bs s s' :
  collect rows (fun row => closePendingDelivery row reason now) s = (inr bs, s') ->
  (forall row, row ∈ rows -> close_matches row (st_db s)) ->
  quota_ok (st_db s) -> quota_ok (st_db s').
Proof.
  revert bs s. induction rows as [|row rows IH]; intros bs s H Hrows HI; simpl in H; tx_inv H; [done|].
  eapply IH; [done| |].
  - intros row' Hrow'. eapply close_matches_close; [done|]. apply Hrows. set_solver.
  - eapply closePendingDelivery_quota; [done| |done]. apply Hrows. set_solver.
Qed.

Lemma retire_quota recipient conversationID now :
  preserves quota_ok (retireRecipientDeliveries recipient conversationID now).
Proof.
  intros s n s' H HI. unfold retireRecipientDeliveries in H. tx_inv H.
  eapply collect_closes_quota; [done| |done]. intros row. apply pendingCloses_match.
Qed.

Lemma expire_quota cutoff now : preserves quota_ok (expireOneDueDelivery cutoff now).
Proof.
  intros s n s' H HI. unfold expireOneDueDelivery in H. tx_inv H.
  destruct (oldestDue _ _) as [row|] eqn:Hdue; tx_inv H; [|done].
  eapply closePendingDelivery_quota; [done| |done]. by eapply oldestDue_match.
Qed.
#[export] Hint Resolve retire_quota : preserve.

(** ** Acknowledging *)

Lemma ackRow_closes now dl :
  dl_message (ackRow now dl) = dl_message dl /\ is_Some (dl_acked (ackRow now dl)).
Proof. split; [done|]. by eexists. Qed.

Lemma ack_quota machineID endpoint deliveryID token generation now :
  keeps quota_ok (AckDelivery machineID endpoint deliveryID token generation now).
Proof.
  unfold AckDelivery. apply keeps_bind; [|intros ?; keep].
  apply keeps_transact. intros s a s' H HI.
  apply ackTransaction_ok in H as (e & dl & _ & Hdl & _ & _ & [(_ & -> & _)|(_ & _ & _ & H)]); [done|].
  destruct H as (m & s1 & s2 & s3 & Hm & Hupd & Hs1 & Hrel & Hrec & Hadv).
  step_back Hadv. step_back Hrec. apply (releaseQuota_ok _ _ _ _ _ Hrel).
  apply close_delivery_credit in Hupd as (dl' & m' & Hdl' & _ & Hm' & _ & HI');
    [congruence|apply ackRow_closes|done].
Qed.

(** ** Accepting messages *)

(** Disjunctions of decisions in hypotheses, as propositions. *)
Ltac bool_or :=
  repeat match goal with
  | H : (_ || _)%bool = true |- _ => apply orb_true_iff in H
  | H : (_ || _)%bool = false |- _ => apply orb_false_iff in H as [? ?]
  | H : (_ && _)%bool = true |- _ => apply andb_true_iff in H as [? ?]
  | H : (_ && _)%bool = false |- _ => apply andb_false_iff in H
  | H : _ \/ _ |- _ => destruct H
  | H : bool_decide _ = true |- _ => apply bool_decide_eq_true in H
  | H : bool_decide _ = false |- _ => apply bool_decide_eq_false in H
  end.

Section Accept.
Context `{Env}.

(** The recipients that get a delivery of their own. *)
Definition routedEndpoints (targetRole : string) (endpoints : list string) : list string :=
  filter (fun e => targetRole = "" \/
    targetRole = TelegramUserParticipant /\ e = TelegramGatewayEndpoint) endpoints.

Definition routedRoles (targetRole : string) (roles : list string) : list string :=
  roleRecipient <$> filter (fun r => targetRole <> TelegramUserParticipant /\
    (targetRole = "" \/ r = targetRole)) roles.

Definition has_message (id : string) (bytes : Z) (d : Db) : Prop :=
  exists m, db_messages d !! id = Some m /\ bodyBytes m = bytes.

Lemma insertDelivery_credit messageID r bytes rs u s s' :
  insertDelivery messageID r s = (inr u, s') -> has_message messageID bytes (st_db s) ->
  quota_credit (r :: rs) bytes (st_db s) -> quota_credit rs bytes (st_db s').
Proof.
  intros Hi (m & Hm & <-) HI. unfold insertDelivery in Hi. tx_inv Hi.
  by eapply (new_delivery_credit _ (newDeliveryRow messageID r)).
Qed.

Lemma routeEndpoints_credit conversationID id targetRole endpoints rest bytes u s s' :
  for_each endpoints (routeEndpoint conversationID id targetRole) s = (inr u, s') ->
  has_message id bytes (st_db s) ->
  quota_credit (routedEndpoints targetRole endpoints ++ rest) bytes (st_db s) ->
  quota_credit rest bytes (st_db s').
Proof.
  revert s. induction endpoints as [|e endpoints IH]; intros s Hl Hmsg HI; simpl in Hl; tx_inv Hl; [done|].
  eapply IH; [exact Hl|by step_back Hm|]. clear IH Hl. unfold routedEndpoints in *.
  rewrite filter_cons in HI. unfold routeEndpoint in Hm.
  destruct (_ || _) eqn:Hb.
  - rewrite decide_True in HI by (bool_or; naive_solver).
    by eapply insertDelivery_credit.
  - rewrite decide_False in HI by (bool_or; naive_solver). by step_back Hm.
Qed.

Lemma routeRoles_credit conversationID id targetRole roles rest bytes u s s' :
  for_each roles (routeRole conversationID id targetRole) s = (inr u, s') ->
  has_message id bytes (st_db s) ->
  quota_credit (routedRoles targetRole roles ++ rest) bytes (st_db s) ->
  quota_credit rest bytes (st_db s').
Proof.
  revert s. induction roles as [|r roles IH]; intros s Hl Hmsg HI; simpl in Hl; tx_inv Hl; [done|].
  eapply IH; [exact Hl|by step_back Hm|]. clear IH Hl. unfold routedRoles in *.
  rewrite filter_cons in HI. unfold routeRole in Hm.
  case_bool_decide as Ht; [|destruct (_ || _) eqn:Hb].
  - rewrite decide_False in HI by naive_solver. by step_back Hm.
  - rewrite decide_True in HI by (bool_or; naive_solver). by eapply insertDelivery_credit.
  - rewrite decide_False in HI by (bool_or; naive_solver). by step_back Hm.
Qed.

Lemma elem_of_receivingEndpoints d c from e :
  e ∈ receivingEndpoints d c from <->
  exists v, db_memberships d !! (c, e) = Some v /\ hasCap v CapReceive = true /\ e <> from.
Proof.
  unfold receivingEndpoints. rewrite elem_of_select_snd with (c := c).
  - split.
    + intros (v & Hv & Hp). bool_hyps. eauto.
    + intros (v & Hv & Hc & Hne). exists v. split; [done|]. simpl.
      by rewrite !bool_decide_true, bool_decide_false, Hc by done.
  - intros k v Hp. by bool_hyps.
Qed.

Lemma NoDup_receivingEndpoints d c from : NoDup (receivingEndpoints d c from).
Proof. apply NoDup_select_snd with (c := c). intros k v Hp. by bool_hyps. Qed.

Lemma NoDup_receivingRoles d c : NoDup (receivingRoles d c).
Proof. apply NoDup_select_snd with (c := c). intros k v Hp. by bool_hyps. Qed.

Lemma filter_singleton (l : list string) x :
  NoDup l -> x ∈ l -> filter (fun y => y = x) l = [x].
Proof.
  induction 1 as [|y l Hy Hnd IH]; intros Hx; [set_solver|]. rewrite filter_cons.
  destruct (decide (y = x)) as [->|Hne].
  - f_equal. apply filter_empty. intros z Hz ->. done.
  - apply IH. set_solver.
Qed.

(** The identities charged are exactly those a delivery is written for. *)
Lemma recipients_routed conversationID from targetRole rs s s' :
  appendDeliveryRecipients conversationID from targetRole s = (inr rs, s') ->
  target_authorized (st_db s) conversationID targetRole ->
  s' = s /\ rs ≡ₚ routedEndpoints targetRole (receivingEndpoints (st_db s) conversationID from) ++
    routedRoles targetRole (receivingRoles (st_db s) conversationID).
Proof.
  intros Hr Ha. unfold appendDeliveryRecipients in Hr. unfold routedEndpoints, routedRoles.
  destruct (decide (targetRole = TelegramUserParticipant)) as [->|Hnt].
  - rewrite bool_decide_true in Hr by done. specialize (Ha eq_refl) as (v & Hv & Hc).
    rewrite (filter_empty _ (receivingRoles _ _)) by naive_solver. simpl. rewrite app_nil_r.
    assert (forall l, filter (fun e => TelegramUserParticipant = "" \/
      TelegramUserParticipant = TelegramUserParticipant /\ e = TelegramGatewayEndpoint) l =
      filter (fun e => e = TelegramGatewayEndpoint) l) as Hf
      by (intros l; apply list_filter_iff; naive_solver).
    rewrite Hf. case_bool_decide as Hg; tx_inv Hr; split; try done.
    + rewrite filter_empty; [done|]. intros e He ->.
      apply elem_of_receivingEndpoints in He as (? & ? & ? & ?). done.
    + rewrite filter_singleton; [done|apply NoDup_receivingEndpoints|].
      apply elem_of_receivingEndpoints. eauto.
  - rewrite bool_decide_false in Hr by done. tx_inv Hr.
    assert (filter (fun r => targetRole <> TelegramUserParticipant /\ (targetRole = "" \/ r = targetRole))
        (receivingRoles (st_db s) conversationID) =
      filter (fun r => targetRole = "" \/ r = targetRole)
        (receivingRoles (st_db s) conversationID)) as -> by (apply list_filter_iff; naive_solver).
    case_bool_decide as He; tx_inv Hm; (split; [done|]); unfold sortStrings; rewrite sortBy_perm.
    + by rewrite (filter_all _ (receivingEndpoints _ _ _)) by auto.
    + by rewrite (filter_empty _ (receivingEndpoints _ _ _)) by naive_solver.
Qed.

Definition same_members (d0 d : Db) : Prop :=
  db_memberships d = db_memberships d0 /\ db_role_memberships d = db_role_memberships d0.

(** Writing a message and routing it uses up exactly its recipients' credits. *)
Lemma storeMessage_quota id m targetRole rs u s s' :
  storeMessage id m targetRole s = (inr u, s') ->
  rs ≡ₚ routedEndpoints targetRole (receivingEndpoints (st_db s) (ms_conversation m) (ms_from m)) ++
    routedRoles targetRole (receivingRoles (st_db s) (ms_conversation m)) ->
  quota_credit rs (bodyBytes m) (st_db s) -> quota_ok (st_db s').
Proof.
  intros Hs Hrs HI. unfold storeMessage in Hs. tx_inv Hs.
  assert (has_message id (bodyBytes m) (st_db s0)) as Hmsg.
  { apply sql_insert_ok in Hm as (_ & _ & _ & _ & ->). exists m. cbn. by rewrite lookup_insert_eq. }
  assert (same_members (st_db s) (st_db s0)) as [He Hr] by by step_back Hm.
  assert (receivingEndpoints (st_db s0) (ms_conversation m) (ms_from m) =
    receivingEndpoints (st_db s) (ms_conversation m) (ms_from m)) as Heq
    by (unfold receivingEndpoints; by rewrite He).
  assert (receivingRoles (st_db s1) (ms_conversation m) =
    receivingRoles (st_db s) (ms_conversation m)) as Hrq.
  { assert (same_members (st_db s) (st_db s1)) as [_ Hr1] by (by step_back Hm0).
    unfold receivingRoles. by rewrite Hr1. }
  rewrite Heq in Hm0. rewrite Hrq in Hs.
  apply (quota_credit_nil (bodyBytes m)).
  eapply routeRoles_credit; [exact Hs|by step_back Hm0|]. rewrite app_nil_r.
  eapply routeEndpoints_credit; [exact Hm0|done|]. rewrite <-Hrs.
  exact (new_message_credit _ _ _ _ _ _ _ Hm HI).
Qed.

Lemma acceptMessage_quota machineID key requestHash targetRole now row conversationID from body :
  (forall n, ms_conversation (row n) = conversationID /\ ms_from (row n) = from /\ ms_body (row n) = body) ->
  forall a s s', acceptMessage machineID key requestHash targetRole now row conversationID from body s =
    (inr a, s') ->
  target_authorized (st_db s) conversationID targetRole -> quota_ok (st_db s) -> quota_ok (st_db s').
Proof.
  intros Hrow a s s' Ha Ht HI. unfold acceptMessage in Ha. tx_inv Ha.
  destruct (Hrow a3) as (Hc & Hf & Hb).
  assert (same_members (st_db s) (st_db s0)) as [He Hr] by (by step_back Hm).
  assert (quota_ok (st_db s0)) as HI0 by (by step_back Hm).
  apply recipients_routed in Hm0 as [-> Hrs]; [|by unfold target_authorized; rewrite He].
  assert (same_members (st_db s0) (st_db s3)) as [He3 Hr3].
  { step_back Hm2. change (same_members (st_db s0) (st_db s2)). by step_back Hm1. }
  step_back Hm5. step_back Hm4. eapply storeMessage_quota; [exact Hm3| |].
  - rewrite Hc, Hf. unfold receivingEndpoints, receivingRoles in Hrs |- *. rewrite He3, Hr3. exact Hrs.
  - unfold bodyBytes. rewrite Hb. step_back Hm2. change (quota_credit a1 (goLen body) (st_db s2)).
    exact (consumeQuota_ok _ _ _ _ _ Hm1 HI0).
Qed.

Lemma append_quota input : keeps quota_ok (AppendMessage input).
Proof.
  unfold AppendMessage. keep. intros s r s' [(_ & -> & _)|(_ & Ht & Ha & _)]%appendTransaction_ok HI; [done|].
  by eapply acceptMessage_quota in Ha.
Qed.

Lemma inbound_quota input : keeps quota_ok (AppendTelegramInbound input).
Proof.
  unfold AppendTelegramInbound, ValidateTelegramInbound. keep.
  intros s r s' [(_ & -> & _)|(_ & Ha & _)]%inboundTransaction_ok HI; [done|].
  eapply acceptMessage_quota in Ha; try done.
Qed.

Lemma sendDirect_quota input roleLow roleHigh requestHash now :
  preserves quota_ok (sendDirect input roleLow roleHigh requestHash now).
Proof.
  intros s a s' Hs HI. unfold sendDirect in Hs. tx_inv Hs.
  assert (quota_ok (st_db s3)) as HI3.
  { step_back Hm2. step_back Hm1. step_back Hm0. by step_back Hm. }
  assert (has_message (uuid_NewString (st_supply s4)) (goLen (dm_Body input)) (st_db s6)) as Hmsg.
  { apply sql_insert_ok in Hm5 as (_ & _ & _ & _ & ->). eexists. cbn. by rewrite lookup_insert_eq. }
  step_back Hm10. step_back Hm9. step_back Hm8. apply (quota_credit_nil (goLen (dm_Body input))).
  eapply insertDelivery_credit; [exact Hm7|by step_back Hm6|]. step_back Hm6.
  apply (new_message_credit _ _ _ _ _ _ _ Hm5). step_back Hm4.
  exact (consumeQuota_ok _ _ _ _ _ Hm3 HI3).
Qed.

Lemma direct_quota input : keeps quota_ok (SendDirectMessage input).
Proof.
  unfold SendDirectMessage. keep.
  intros s1 r s2 [(-> & _)|(_ & Ha & _)]%directTransaction_ok HI; [done|].
  exact (sendDirect_quota _ _ _ _ _ _ _ _ Ha HI).
Qed.
End Accept.

(** ** Leases, bindings, controls and maintenance *)

Lemma leaseRow_lease_only machineID token generation ownership consumer until :
  lease_only (leaseRow machineID token generation ownership consumer until).
Proof. done. Qed.

Lemma quota_lease_update id cond f :
  lease_only f -> preserves quota_ok (sql_update t_deliveries id cond f).
Proof.
  intros Hf s n s' Hu. rewrite <-!(quota_credit_nil 0). by apply (lease_only_update [] 0 _ _ _ Hf _ _ _ Hu).
Qed.

Lemma quota_lease_update_where cond f :
  lease_only f -> preserves quota_ok (sql_update_where t_deliveries cond f).
Proof.
  intros Hf s n s' Hu. rewrite <-!(quota_credit_nil 0).
  by apply (lease_only_update_where [] 0 _ _ Hf _ _ _ Hu).
Qed.
#[export] Hint Extern 1 (preserves quota_ok (sql_update t_deliveries _ _ _)) =>
  apply quota_lease_update; done : preserve.
#[export] Hint Extern 1 (preserves quota_ok (sql_update_where t_deliveries _ _)) =>
  apply quota_lease_update_where; done : preserve.

Section Rest.
Context `{Env}.

Lemma lease_quota machineID consumerID endpoint conversationID now ttl limit :
  keeps quota_ok (LeaseDeliveries machineID consumerID endpoint conversationID now ttl limit).
Proof. keep. preserve. Qed.

Lemma control_quota input : keeps quota_ok (ApplyControl input).
Proof. keep. preserve. Qed.
End Rest.

Lemma adopt_quota input wall : keeps quota_ok (PrepareTelegramAdopt input wall).
Proof. keep. preserve. Qed.

Lemma bind_quota machineID role sessionEndpoint now ttl :
  keeps quota_ok (BindRoleToSession machineID role sessionEndpoint now ttl).
Proof. keep. preserve. Qed.

Lemma maintain_quota wall : keeps quota_ok (MaintainDeliveries wall).
Proof.
  apply maintain_keeps; [|intros cutoff; keep; preserve].
  intros cutoff now. unfold expireOneDueDelivery. apply keeps_transact.
  intros s r s' Hr. apply (expire_quota cutoff now s r s'). unfold expireOneDueDelivery, transact.
  by rewrite Hr.
Qed.

(** ** Rebuilding the counters *)

(** The quota tables hold nothing but what the pending deliveries measure. *)
Lemma rebuilt_quota d :
  delivery_refs d -> db_pending_quota_recipients d = pendingGroups d ->
  db_pending_quota_install d !! tt = Some (pendingTotal d) -> quota_ok d.
Proof.
  intros Hrefs Hr Hi. split_and!; [done| |].
  - unfold readInstallQuota. by rewrite Hi.
  - intros r. unfold recipientQuota. rewrite Hr. unfold pendingGroups.
    change (default zeroCounters (groupsOf d (pendingRecipients d) !! r) = pendingFor d r).
    rewrite groupsOf_lookup. case_decide as Hin; simpl; [done|]. symmetry. by apply pendingFor_zero.
Qed.

Lemma with_db_id s : with_db (st_db s) s = s.
Proof. by destruct s. Qed.

Lemma insert_counters_run (l : list (string * QuotaCounters)) s :
  writable (st_db s) = true -> NoDup l.*1 ->
  (forall r, r ∈ l.*1 -> db_pending_quota_recipients (st_db s) !! r = None) ->
  (forall rc, rc ∈ l -> 0 <= Count rc.2 /\ 0 <= Bytes rc.2) ->
  for_each l (fun rc => sql_insert t_pending_quota_recipients rc.1 rc.2) s =
    (inr tt, with_db (set_pending_quota_recipients
      (list_to_map l ∪ db_pending_quota_recipients (st_db s)) (st_db s)) s).
Proof.
  revert s. induction l as [|[r c] l IH]; intros s Hw Hnd Hfresh Hpos; simpl.
  { rewrite (left_id ∅ _). unfold mret, M_ret. f_equal. destruct s as [d]. by destruct d. }
  apply NoDup_cons in Hnd as [Hr Hnd]. simpl in *.
  destruct (Hpos (r, c)) as [Hc Hb]; [set_solver|].
  erewrite bind_run by (apply sql_insert_run; [by intros _|apply Hfresh; set_solver| |done];
    cbn; apply andb_true_intro; split; [|done]; apply andb_true_intro; split; by apply Z.leb_le).
  rewrite IH; [|done|done| |set_solver].
  - f_equal. unfold set_row, with_db, set_pending_quota_recipients. cbn. do 2 f_equal.
    rewrite <-insert_union_l, insert_union_r; [done|]. by apply not_elem_of_list_to_map_1.
  - intros r' Hr'. cbn. rewrite lookup_insert_ne by set_solver. apply Hfresh. set_solver.
Qed.

Lemma delete_all_run {K V} `{Countable K} (T : Table K V) s :
  (forall d, t_set T (t_get T d) d = d) -> may_write T s ->
  sql_delete_where T (fun _ _ => true) s = (inr tt, with_db (t_set T ∅ (st_db s)) s).
Proof.
  intros Hlaw Hw. unfold sql_delete_where. erewrite bind_run by reflexivity.
  assert (filter (fun kv : K * V => true = false) (t_get T (st_db s)) = ∅) as Hempty
    by (apply map_empty; intros k; apply map_lookup_filter_None; by right).
  destruct (mexists _ _) eqn:Hm.
  - erewrite bind_run by (by apply trigger_run). unfold put_db, modify. simpl. by rewrite Hempty.
  - rewrite (filter_none (fun _ _ => true)) in Hempty by done. rewrite <-Hempty, Hlaw, with_db_id. done.
Qed.

(** The state after the counters were rebuilt from the pending deliveries. *)
Definition rebuiltDb (d : Db) : Db :=
  set_pending_quota_install {[tt := pendingTotal d]}
    (set_pending_quota_recipients (pendingGroups d) d).

Lemma rebuiltDb_quota d : delivery_refs d -> quota_ok (rebuiltDb d).
Proof. intros Hrefs. by apply rebuilt_quota. Qed.

Lemma pendingGroups_lookup d r c :
  pendingGroups d !! r = Some c <-> r ∈ pendingRecipients d /\ c = pendingFor d r.
Proof.
  change (pendingGroups d !! r) with (groupsOf d (pendingRecipients d) !! r).
  rewrite groupsOf_lookup. case_bool_decide; naive_solver.
Qed.

Lemma pendingGroups_nonneg d rc :
  rc ∈ map_to_list (pendingGroups d) -> 0 <= Count rc.2 /\ 0 <= Bytes rc.2.
Proof.
  destruct rc as [r c]. rewrite elem_of_map_to_list, pendingGroups_lookup. intros [_ ->].
  rewrite pendingFor_measure. apply measure_nonneg.
Qed.

Lemma rebuildCounters_run s :
  writable (st_db s) = true ->
  rebuildCounters s = (inr (pendingTotal (st_db s)), with_db (rebuiltDb (st_db s)) s).
Proof.
  intros Hw. unfold rebuildCounters.
  erewrite bind_run by (apply delete_all_run; [by intros []|by intros _]).
  erewrite bind_run by (apply delete_all_run; [by intros []|by intros _]).
  erewrite bind_run by reflexivity.
  erewrite bind_run by (apply insert_counters_run;
    [done|apply NoDup_fst_map_to_list|done|apply pendingGroups_nonneg]).
  erewrite bind_run.
  2: { apply sql_insert_run; [by intros _|done| |done]. cbn.
       pose proof (measure_nonneg (st_db s) (sel None)) as [? ?].
       apply andb_true_intro. split; [|done]. apply andb_true_intro. split; by apply Z.leb_le. }
  unfold query, gets. f_equal. unfold rebuiltDb, set_row, with_db. cbn.
  by rewrite list_to_map_to_list, (right_id ∅ _).
Qed.

Lemma refreshPendingMetrics_run now s :
  exists s', refreshPendingMetrics now s = (inr tt, s') /\ st_db s' = st_db s.
Proof.
  unfold refreshPendingMetrics, observe, modify, query, gets, mbind, M_bind. cbv zeta.
  eexists. split; reflexivity.
Qed.

Lemma reconcile_run now s :
  writable (st_db s) = true ->
  exists s', ReconcilePendingQuota now s = (inr (pendingTotal (st_db s)), s') /\
    st_db s' = rebuiltDb (st_db s).
Proof.
  intros Hw. unfold ReconcilePendingQuota.
  erewrite bind_run by (unfold transact; by rewrite rebuildCounters_run).
  destruct (refreshPendingMetrics_run now (with_db (rebuiltDb (st_db s)) s)) as (s' & Hs & Hd).
  exists s'. by erewrite bind_run by exact Hs.
Qed.

(** A successful rebuild wrote to a guarded table. *)
Lemma rebuildCounters_quota : preserves quota_ok rebuildCounters.
Proof.
  intros s c s' Hc (Hrefs & _). destruct (writable (st_db s)) eqn:Hw.
  - rewrite rebuildCounters_run in Hc by done. simplify_eq. by apply rebuiltDb_quota.
  - exfalso. unfold rebuildCounters in Hc. tx_inv Hc.
    apply sql_insert_ok in Hm2 as (Hmay & _). specialize (Hmay eq_refl).
    assert (writable (st_db s2) = false) as Hfalse; [|congruence].
    change ((fun d => writable d = false) (st_db s2)).
    step_back Hm1. change ((fun d => writable d = false) (st_db s1)).
    step_back Hm0. change ((fun d => writable d = false) (st_db s0)). by step_back Hm.
Qed.

Lemma reconcile_quota now : keeps quota_ok (ReconcilePendingQuota now).
Proof. unfold ReconcilePendingQuota. keep. apply rebuildCounters_quota. Qed.

(** ** Filling in missing counters *)

Lemma counters_check c : 0 <= Count c -> 0 <= Bytes c -> (0 <=? Count c) && (0 <=? Bytes c) && true = true.
Proof. lia. Qed.

(** Every counter row present is exact for the deliveries of [d0]. *)
Definition rows_exact (d0 d : Db) : Prop :=
  db_deliveries d = db_deliveries d0 /\ db_messages d = db_messages d0 /\
  (forall c, db_pending_quota_install d !! tt = Some c -> c = pendingTotal d0) /\
  (forall r c, db_pending_quota_recipients d !! r = Some c -> c = pendingFor d0 r).

Lemma quota_ok_exact d : quota_ok d -> rows_exact d d.
Proof.
  intros (_ & Hi & Hr). split_and!; [done|done| |].
  - intros c Hc. rewrite <-Hi. unfold readInstallQuota. by rewrite Hc.
  - intros r c Hc. rewrite <-Hr. unfold recipientQuota. by rewrite Hc.
Qed.

Lemma fill_install d0 u s s' :
  sql_insert_or_ignore t_pending_quota_install tt (pendingTotal d0) s = (inr u, s') ->
  rows_exact d0 (st_db s) ->
  rows_exact d0 (st_db s') /\ db_pending_quota_install (st_db s') !! tt = Some (pendingTotal d0).
Proof.
  intros (_ & [[-> Hh]|(_ & _ & _ & ->)])%sql_insert_or_ignore_ok (Hd & Hm & Hi & Hr).
  - split; [by split_and!|]. destruct Hh as [Hh|Hh].
    + apply has_true in Hh as [c Hc]. cbn in Hc. rewrite Hc. f_equal. by apply Hi.
    + exfalso. pose proof (measure_nonneg d0 (sel None)) as [? ?].
      rewrite <-pendingTotal_measure in *. unfold row_ok in Hh.
      cbn [t_check t_unique t_pending_quota_install t_pending_quota_recipients] in Hh.
      unfold no_unique in Hh. by rewrite counters_check in Hh.
  - unfold rows_exact. cbn. rewrite lookup_insert_eq. split_and!; try done. by intros c [= <-].
Qed.

Lemma fill_recipient d0 r u s s' :
  sql_insert_or_ignore t_pending_quota_recipients r (pendingFor d0 r) s = (inr u, s') ->
  rows_exact d0 (st_db s) ->
  rows_exact d0 (st_db s') /\ has_recipient_row r (st_db s') /\
  (forall r', has_recipient_row r' (st_db s) -> has_recipient_row r' (st_db s')) /\
  db_pending_quota_install (st_db s') = db_pending_quota_install (st_db s).
Proof.
  intros (_ & [[-> Hh]|(_ & _ & _ & ->)])%sql_insert_or_ignore_ok (Hd & Hm & Hi & Hr).
  - split; [by split_and!|]. split; [|done]. destruct Hh as [Hh|Hh]; [by apply has_true|].
    exfalso. pose proof (measure_nonneg d0 (sel (Some r))) as [? ?].
    rewrite <-pendingFor_measure in *. unfold row_ok in Hh.
      cbn [t_check t_unique t_pending_quota_install t_pending_quota_recipients] in Hh.
      unfold no_unique in Hh. by rewrite counters_check in Hh.
  - unfold rows_exact, has_recipient_row. cbn. rewrite lookup_insert_eq. split_and!; try done.
    + intros r' c [[<- <-]|[_ ?]]%lookup_insert_Some; [done|by apply Hr].
    + intros r' Hr'. rewrite lookup_insert_is_Some'. auto.
Qed.

Lemma fill_recipients d0 l u s s' :
  for_each l (fun rc => sql_insert_or_ignore t_pending_quota_recipients rc.1 rc.2) s = (inr u, s') ->
  (forall rc, rc ∈ l -> rc.2 = pendingFor d0 rc.1) -> rows_exact d0 (st_db s) ->
  rows_exact d0 (st_db s') /\
  (forall r, r ∈ l.*1 \/ has_recipient_row r (st_db s) -> has_recipient_row r (st_db s')) /\
  db_pending_quota_install (st_db s') = db_pending_quota_install (st_db s).
Proof.
  revert s. induction l as [|[r c] l IH]; intros s Hl Hc HI; simpl in Hl; tx_inv Hl.
  { split_and!; [done| |done]. set_solver. }
  pose proof (Hc (r, c) ltac:(set_solver)) as Heq. simpl in Heq. subst c.
  apply fill_recipient in Hm as (HI1 & Hr & Hk & Hi); [|done].
  apply IH in Hl as (HI2 & Hk2 & Hi2); [|set_solver|done]. split_and!; [done| |congruence].
  intros r' Hr'. apply Hk2. set_solver.
Qed.

Lemma pendingTotal_zero d : Count (pendingTotal d) <= 0 -> pendingTotal d = zeroCounters.
Proof.
  rewrite pendingTotal_measure. intros Hc.
  assert (forall id dl, db_deliveries d !! id = Some dl -> pendingIf d (sel None) dl = None) as Hz.
  { intros id dl Hid. destruct (pendingIf d (sel None) dl) as [m|] eqn:Hm; [|done].
    pose proof (measure_member d (sel None) id dl m Hid Hm) as [? _]. lia. }
  apply counters_eq; simpl; apply msum_zero; intros id dl Hid; by rewrite (Hz id dl Hid).
Qed.

(** [bootstrapPendingQuota] makes the counters exact, whichever rows existed. *)
Lemma bootstrap_fills u s s' :
  bootstrapPendingQuota s = (inr u, s') -> delivery_refs (st_db s) ->
  rows_exact (st_db s) (st_db s) -> quota_ok (st_db s').
Proof.
  intros Hb Hrefs HI. unfold bootstrapPendingQuota in Hb. tx_inv Hb.
  set (d0 := st_db s) in *.
  assert (rows_exact d0 (st_db s0) /\ readInstallQuota (st_db s0) = pendingTotal d0) as [HI0 Hi0].
  { destruct (0 <? Count (pendingTotal d0)) eqn:Hc.
    - apply fill_install in Hm as [? Hi]; [|done]. split; [done|]. unfold readInstallQuota. by rewrite Hi.
    - tx_inv Hm. split; [done|]. apply Z.ltb_ge, pendingTotal_zero in Hc.
      unfold readInstallQuota. destruct (_ !! tt) eqn:Hi; simpl; [by apply HI|done]. }
  apply fill_recipients with (d0 := d0) in Hb as ((Hd & Hms & Hi & Hr) & Hrows & Hsame); [| |done].
  2: { intros [r c] Hin%elem_of_map_to_list. by eapply pendingGroups_lookup. }
  assert (forall o, measure (st_db s') (sel o) = measure d0 (sel o)) as Hmeasure.
  { intros o. apply measure_ext; [done|]. intros id dl _. unfold pendingMessage. by rewrite Hms. }
  split_and!.
  - intros id dl. rewrite Hd, Hms. apply Hrefs.
  - unfold readInstallQuota in *. by rewrite Hsame, pendingTotal_measure, Hmeasure, <-pendingTotal_measure.
  - intros r. rewrite pendingFor_measure, Hmeasure, <-pendingFor_measure. unfold recipientQuota.
    destruct (_ !! r) as [c|] eqn:Hc; simpl; [by apply Hr|]. symmetry. apply pendingFor_zero. intros Hin.
    destruct (Hrows r) as [c ?]; [left|congruence]. apply list_elem_of_fmap.
    exists (r, pendingFor d0 r). split; [done|]. by apply elem_of_map_to_list, pendingGroups_lookup.
Qed.


(** ** Every operation *)

Create HintDb quota_ops.
#[local] Hint Constants Opaque : quota_ops.
#[local] Hint Resolve keeps_void append_quota inbound_quota direct_quota ack_quota lease_quota
  control_quota adopt_quota bind_quota maintain_quota reconcile_quota : quota_ops.

Section Ops.
Context `{Env}.

Lemma op_quota op : keeps quota_ok (run_op op).
Proof.
  destruct op; simpl; try solve [eauto 2 with quota_ops nocore]; try apply keeps_void;
    keep; preserve.
Qed.

#[export] Instance quota_ok_invariant : RelayInvariant quota_ok.
Proof.
  split.
  - split; [|exact op_quota]. intros p d HI. exact HI.
  - split_and!; [by intros ? ?|done..].
Qed.
End Ops.

Section Exact.
Context `{Env}.

Lemma verify_ok s : quota_ok (st_db s) -> VerifyPendingQuota s = (inr tt, s).
Proof.
  intros HI. unfold VerifyPendingQuota, rolled_back. erewrite bind_run by reflexivity.
  destruct HI as (Hrefs & HI). rewrite (proj2 (quotaConsistent_spec (st_db s))) by done. simpl.
  unfold mret, M_ret. by rewrite with_db_id.
Qed.

(** C5: In every state the relay can reach, the stored pending-quota counters
    are exactly the count and body bytes of the pending deliveries, for the
    installation and for each recipient, and the verification pass accepts. *)
Theorem quota_exact s :
  reachable s ->
  VerifyPendingQuota s = (inr tt, s) /\
  readInstallQuota (st_db s) = pendingTotal (st_db s) /\
  forall r, recipientQuota (st_db s) r = pendingFor (st_db s) r.
Proof.
  intros Hs. pose proof (reachable_invariant quota_ok s Hs) as HI.
  split; [by apply verify_ok|]. by destruct HI as (_ & ? & ?).
Qed.
End Exact.

(** Reconciling rebuilds exact counters from whatever the counter tables
    held: in a store that accepts writes it succeeds, returns the measured
    totals, leaves mail alone and the verification pass then accepts. *)
Theorem reconcile_repairs now s :
  delivery_refs (st_db s) -> writable (st_db s) = true ->
  exists s', ReconcilePendingQuota now s = (inr (pendingTotal (st_db s)), s') /\
    VerifyPendingQuota s' = (inr tt, s') /\
    db_deliveries (st_db s') = db_deliveries (st_db s) /\
    db_messages (st_db s') = db_messages (st_db s).
Proof.
  intros Hrefs Hw. destruct (reconcile_run now s Hw) as (s' & E & Hd). exists s'.
  split_and!; [done| |by rewrite Hd..]. apply verify_ok. rewrite Hd. by apply rebuiltDb_quota.
Qed.
