(* ===== verification/History.v ===== *)
(** * What never changes: append-only tables and monotone counters

    Facts between a state and any later one.  Messages, idempotency records,
    audit records, role owners and direct-room pairs are never rewritten or
    deleted; a delivery keeps its message and recipient, its fence generation
    only grows, and once closed the row is final; cursors, room sequences and
    ownership generations never go back. *)

From S2P Require Import Prelude GoTime RateLimit Quota Text Sha256 Tables Tx Sessions Pending.
From S2P Require Import Invocations Rooms Claims Roles Directory Messages Deliveries QuotaInv Relay.
From S2P Require Import Source QuotaOps.
Open Scope Z_scope.

(** ** Append-only tables *)

Definition kept {K V} `{Countable K} (T : Table K V) (d0 d : Db) : Prop := t_get T d0 ⊆ t_get T d.

Definition append_only (d0 d : Db) : Prop :=
  kept t_messages d0 d /\ kept t_message_from_roles d0 d /\ kept t_idempotency d0 d /\
  kept t_conversation_idempotency d0 d /\ kept t_conversation_controls d0 d /\
  kept t_conversation_control_idempotency d0 d /\
  kept t_conversation_display_name_idempotency d0 d /\ kept t_direct_message_idempotency d0 d /\
  kept t_role_profile_idempotency d0 d /\ kept t_telegram_claim_idempotency d0 d /\
  kept t_telegram_claim_events d0 d /\ kept t_telegram_participants d0 d /\
  kept t_direct_conversations d0 d /\ kept t_roles d0 d.

Lemma append_only_refl d : append_only d d.
Proof. unfold append_only, kept. by split_and!. Qed.

Lemma kept_row {K V} `{Countable K} (T : Table K V) d0 d k v :
  kept T d0 d -> t_get T d0 !! k = Some v -> t_get T d !! k = Some v.
Proof. intros Hk Hv. by eapply lookup_weaken. Qed.

(** A fresh row extends any table. *)
Lemma append_only_insert {K V} `{Countable K} (T : Table K V) k v d0 :
  (forall d x, append_only d0 d -> t_get T d ⊆ x -> append_only d0 (t_set T x d)) ->
  preserves (append_only d0) (sql_insert T k v).
Proof.
  intros HT s u s' (_ & Hk & _ & _ & ->)%sql_insert_ok HI. apply HT; [done|].
  by apply insert_subseteq.
Qed.

Ltac append_insert :=
  apply append_only_insert; intros ? ? HI ?; unfold append_only, kept in HI |- *; cbn in *;
  destruct_and? HI; split_and!; solve [assumption | etransitivity; eassumption].

#[export] Hint Extern 1 (preserves (append_only _) (sql_insert _ _ _)) => append_insert : preserve.

Lemma direct_append_only d0 `{Env} roleLow roleHigh fromRole toRole now :
  preserves (append_only d0) (getOrCreateDirectConversation roleLow roleHigh fromRole toRole now).
Proof.
  intros s c s' Hg HI.
  apply getOrCreateDirectConversation_ok in Hg as [(row & _ & _ & ->)|(Hn & _ & _ & ->)]; [done|].
  unfold append_only, kept in HI |- *. cbn in *. destruct_and? HI. split_and!; try assumption.
  etransitivity; [eassumption|]. by apply insert_subseteq.
Qed.
#[export] Hint Resolve direct_append_only : preserve.

Section Stable.
Context `{Env}.

#[export] Instance append_only_stable d0 : Stable (append_only d0).
Proof. split; [intros p d HI; exact HI|]. intros op. keep_op. Qed.
End Stable.

(** ** Sender roles of recorded messages *)

(** Every recorded sender role belongs to a message. *)
Definition from_refs (d : Db) : Prop :=
  forall id r, db_message_from_roles d !! id = Some r -> is_Some (db_messages d !! id).

Lemma from_refs_message id m : preserves from_refs (sql_insert t_messages id m).
Proof.
  intros s u s' (_ & _ & _ & _ & ->)%sql_insert_ok HI id' r Hr. cbn in *.
  rewrite lookup_insert_is_Some'. right. by eapply HI.
Qed.

Lemma from_refs_role id r : preserves from_refs (sql_insert t_message_from_roles id r).
Proof.
  intros s u s' (_ & _ & _ & Hfk & ->)%sql_insert_ok HI id' r' Hr. cbn in *.
  apply andb_true_iff in Hfk as [Hm _]. apply has_true in Hm.
  apply lookup_insert_Some in Hr as [[<- _]|[_ Hr]]; [done|by eapply HI].
Qed.
#[export] Hint Resolve from_refs_message from_refs_role : preserve.

(** The messages of [d0] still have the sender roles they had. *)
Definition roles_frozen (d0 d : Db) : Prop :=
  kept t_messages d0 d /\
  forall id, is_Some (db_messages d0 !! id) ->
    db_message_from_roles d !! id = db_message_from_roles d0 !! id.

Lemma roles_frozen_message d0 id m : preserves (roles_frozen d0) (sql_insert t_messages id m).
Proof.
  intros s u s' (_ & Hn & _ & _ & ->)%sql_insert_ok [Hk Hr]. split; [|done].
  unfold kept in *. cbn in *. etransitivity; [done|]. by apply insert_subseteq.
Qed.
#[export] Hint Resolve roles_frozen_message : preserve.

Section FromRoles.
Context `{Env}.

#[export] Instance from_refs_invariant : RelayInvariant from_refs.
Proof.
  split; [|by intros ? ?]. split; [intros p d HI; exact HI|]. intros op. keep_op.
Qed.

Lemma sendDirect_frozen d0 input roleLow roleHigh requestHash now :
  preserves (roles_frozen d0) (sendDirect input roleLow roleHigh requestHash now).
Proof.
  intros s a s' Hs HI. unfold sendDirect in Hs. tx_inv Hs.
  assert (roles_frozen d0 (st_db s5)) as HI5.
  { step_back Hm4. change (roles_frozen d0 (st_db s4)). step_back Hm3. step_back Hm2.
    step_back Hm1. step_back Hm0. by step_back Hm. }
  step_back Hm10. step_back Hm9. step_back Hm8. step_back Hm7.
  pose proof (roles_frozen_message _ _ _ _ _ _ Hm5 HI5) as [Hk Hr].
  apply sql_insert_ok in Hm5 as (_ & Hfresh & _ & _ & ->).
  apply sql_insert_ok in Hm6 as (_ & _ & _ & _ & ->). split; [exact Hk|].
  intros id [m Hid]. cbn. rewrite lookup_insert_ne; [by apply Hr|].
  intros <-. destruct HI5 as [Hk5 _]. apply (kept_row t_messages _ _ _ _ Hk5) in Hid. congruence.
Qed.
Hint Resolve sendDirect_frozen : preserve.

#[export] Instance roles_frozen_stable d0 : Stable (roles_frozen d0).
Proof. split; [intros p d HI; exact HI|]. intros op. keep_op. Qed.
End FromRoles.

(** ** Delivery rows *)

(** What may happen to a delivery row: message and recipient stay, the fence
    generation never decreases and identifies one lease token, and a closed row
    is final. *)
Definition evolves (dl dl' : DeliveryRow) : Prop :=
  dl_message dl' = dl_message dl /\ dl_recipient dl' = dl_recipient dl /\
  dl_generation dl <= dl_generation dl' /\
  (dl_generation dl' = dl_generation dl -> dl_token dl' = dl_token dl \/ dl_token dl' = None) /\
  (isPending dl = false -> dl' = dl).

#[export] Instance evolves_preorder : PreOrder evolves.
Proof.
  split.
  - intros dl. unfold evolves. split_and!; auto; lia.
  - intros a b c (H1 & H2 & H3 & H4 & H5) (G1 & G2 & G3 & G4 & G5).
    split_and!; [congruence..|lia| |].
    + intros Hg. destruct (G4 ltac:(lia)) as [E|E]; rewrite E; [|auto]. apply H4. lia.
    + intros Ha. rewrite (G5 ltac:(by rewrite H5)). auto.
Qed.

Definition deliveries_evolve (d0 d : Db) : Prop :=
  forall id dl, db_deliveries d0 !! id = Some dl ->
    exists dl', db_deliveries d !! id = Some dl' /\ evolves dl dl'.

Lemma deliveries_evolve_refl d : deliveries_evolve d d.
Proof. intros id dl Hid. by exists dl. Qed.

(** One row replaced by a later version of itself. *)
Lemma evolve_set d0 d id dl dl' :
  deliveries_evolve d0 d -> db_deliveries d !! id = Some dl -> evolves dl dl' ->
  deliveries_evolve d0 (set_deliveries (<[id:=dl']> (db_deliveries d)) d).
Proof.
  intros HI Hid He id' dl0 Hid'. destruct (HI id' dl0 Hid') as (dl1 & H1 & H2). cbn.
  destruct (decide (id = id')) as [->|Hne].
  - rewrite lookup_insert_eq. simplify_eq. exists dl'. split; [done|]. by etransitivity.
  - rewrite lookup_insert_ne by done. eauto.
Qed.

Lemma evolve_update d0 id cond f :
  (forall dl, cond dl = true -> evolves dl (f dl)) ->
  preserves (deliveries_evolve d0) (sql_update t_deliveries id cond f).
Proof.
  intros Hf s n s' [(_ & -> & _)|(_ & dl & Hid & Hc & _ & _ & ->)]%sql_update_ok HI; [done|].
  eapply evolve_set; eauto.
Qed.

Lemma evolve_update_where d0 cond f :
  (forall id dl, cond id dl = true -> evolves dl (f dl)) ->
  preserves (deliveries_evolve d0) (sql_update_where t_deliveries cond f).
Proof.
  intros Hf s n s' [[-> _]|(_ & _ & ->)]%sql_update_where_ok HI; [done|].
  intros id dl Hid. destruct (HI id dl Hid) as (dl' & Hdl' & He). cbn.
  rewrite lookup_imap_upd, Hdl'. cbn. eexists. split; [done|].
  destruct (cond id dl') eqn:Hc; [|done]. etransitivity; [done|eauto].
Qed.

Lemma evolve_insert d0 id dl : preserves (deliveries_evolve d0) (sql_insert t_deliveries id dl).
Proof.
  intros s u s' (_ & Hn & _ & _ & ->)%sql_insert_ok HI id' dl0 Hid.
  destruct (HI id' dl0 Hid) as (dl' & Hdl' & He). exists dl'. cbn in *. split; [|done].
  rewrite lookup_insert_ne; [done|]. congruence.
Qed.

Ltac evolves_row :=
  intros; bool_hyps; unfold evolves; cbn; split_and!;
    solve [reflexivity | lia | by left | by right | by auto | congruence].

#[export] Hint Resolve evolve_insert : preserve.
#[export] Hint Extern 1 (preserves (deliveries_evolve _) (sql_update t_deliveries _ _ _)) =>
  apply evolve_update; evolves_row : preserve.
#[export] Hint Extern 1 (preserves (deliveries_evolve _) (sql_update_where t_deliveries _ _)) =>
  apply evolve_update_where; evolves_row : preserve.

(** The rows a lease loop is about to lease are still as they were read. *)
Definition still_pending (rows : list (string * DeliveryRow * MessageRow)) (d : Db) : Prop :=
  forall row, row ∈ rows -> db_deliveries d !! row.1.1 = Some row.1.2 /\ isPending row.1.2 = true.

Lemma leaseCandidates_pending d rs machineID conversationID ownership consumer now n :
  let rows := take n (leaseCandidates d rs machineID conversationID ownership consumer now) in
  still_pending rows d /\ NoDup (rows.*1).*1.
Proof.
  intros rows. split.
  - intros row Hrow. apply elem_of_take in Hrow as (i & Hrow & _). apply list_elem_of_lookup_2 in Hrow.
    unfold leaseCandidates in Hrow. apply elem_of_sortBy in Hrow.
    apply list_elem_of_omap in Hrow as ([id dl] & Hin & Hrow). apply elem_of_map_to_list in Hin.
    simpl in Hrow. destruct (pendingMessage d dl) as [m|] eqn:Hm; [|done].
    destruct (_ && _); [|done]. simplify_eq. split; [done|].
    unfold pendingMessage in Hm. unfold isPending. simpl. by destruct (dl_acked dl).
  - unfold rows. rewrite <-list_fmap_compose, fmap_take. eapply sublist_NoDup; [|apply sublist_take].
    unfold leaseCandidates. rewrite sortBy_perm.
    apply (NoDup_omap _ _ fst); [|apply NoDup_fst_map_to_list].
    intros [id dl] row Hrow. simpl in Hrow. destruct (pendingMessage d dl); [|done].
    destruct (_ && _); [|done]. by simplify_eq.
Qed.

Section Leases.
Context `{Env}.

(** Leasing one row moves it one generation on and leaves the others alone. *)
Lemma leaseDelivery_ok machineID endpoint ownership consumer now ttl id dl m r s s' :
  leaseDelivery machineID endpoint ownership consumer now ttl (id, dl, m) s = (inr r, s') ->
  db_deliveries (st_db s) !! id = Some dl ->
  st_db s' = st_db s /\ leaseCurrent dl machineID ownership consumer now = true \/
  exists token, st_db s' = set_deliveries (<[id := leaseRow machineID token (dl_generation dl + 1)
    ownership consumer (ms (Time.Add now ttl)) dl]> (db_deliveries (st_db s))) (st_db s).
Proof.
  intros Hl Hid. unfold leaseDelivery in Hl. tx_inv Hl.
  destruct (leaseCurrent _ _ _ _ _); tx_inv Hl; [by left|right].
  apply sql_update_ok in Hm0 as [(_ & _ & Hno)|(_ & dl' & Hid' & _ & _ & _ & ->)].
  - by specialize (Hno dl Hid).
  - cbn in Hid'. rewrite Hid in Hid'. simplify_eq. by eexists.
Qed.

Lemma lease_loop_evolve d0 machineID endpoint ownership consumer now ttl rows r s s' :
  collect rows (leaseDelivery machineID endpoint ownership consumer now ttl) s = (inr r, s') ->
  still_pending rows (st_db s) -> NoDup (rows.*1).*1 ->
  deliveries_evolve d0 (st_db s) -> deliveries_evolve d0 (st_db s').
Proof.
  revert r s. induction rows as [|[[id dl] m] rows IH]; intros r s Hl Hp Hnd HI; simpl in Hl; tx_inv Hl; [done|].
  apply NoDup_cons in Hnd as [Hid Hnd]. destruct (Hp (id, dl, m)) as [Hrow Hpend]; [set_solver|].
  simpl in Hrow, Hpend, Hid. apply leaseDelivery_ok in Hm as [[Heq _]|[token Heq]]; [| |done].
  - eapply IH; [done| |done|by rewrite Heq]. rewrite Heq. intros row Hin. apply Hp, elem_of_cons. by right.
  - eapply IH; [done| |done|].
    + rewrite Heq. intros [[id' dl'] m'] Hin. cbn.
      rewrite lookup_insert_ne; [apply (Hp (id', dl', m')), elem_of_cons; by right|].
      intros ->. apply Hid. apply list_elem_of_fmap. exists (id', dl').
      split; [done|]. apply list_elem_of_fmap. by exists (id', dl', m').
    + rewrite Heq. eapply evolve_set; [done..|]. unfold evolves. cbn.
      split_and!; [done|done|lia|lia|]. congruence.
Qed.

Lemma lease_evolve d0 machineID consumerID endpoint conversationID now ttl limit :
  keeps (deliveries_evolve d0)
    (LeaseDeliveries machineID consumerID endpoint conversationID now ttl limit).
Proof.
  unfold LeaseDeliveries. apply keeps_bind; [keep|intros _]. apply keeps_bind; [|intros ?; keep].
  apply keeps_transact. intros s r s' Hr HI. tx_inv Hr.
  step_back Hm5.
  edestruct leaseCandidates_pending as [Hp Hnd].
  eapply lease_loop_evolve; [exact Hm4|exact Hp|exact Hnd|].
  step_back Hm3. step_back Hm0. by step_back Hm.
Qed.
#[local] Hint Resolve lease_evolve : preserve.

(** A closed row of a source that passed inspection holds no lease to fence. *)
Lemma fence_row dl : badLease dl = false -> evolves dl (fenceDeliveryRow dl).
Proof.
  unfold badLease, evolves, isPending. intros Hb. apply orb_false_iff in Hb as [Hb Hn].
  apply orb_false_iff in Hb as [_ Hc]. cbn.
  split_and!; [done|done|repeat case_match; lia|intros _; by right|].
  destruct dl as [m r lm [tk|] g o c u [a|]]; cbn in *; try done. intros _.
  destruct lm, o, c, u; try done. unfold fenceDeliveryRow. cbn. by rewrite Z.add_0_r.
Qed.

Lemma fence_evolve d0 now : keeps (deliveries_evolve d0) (FenceSource now).
Proof.
  intros s [e|u] s' Hf HI; [by apply transact_error in Hf as ->|].
  apply FenceSource_ok in Hf as [Hv ->]. intros id dl Hid.
  destruct (HI id dl Hid) as (dl' & Hdl' & He). cbn. rewrite lookup_fmap, Hdl'.
  eexists. split; [done|]. etransitivity; [exact He|]. apply fence_row.
  unfold invalidLogicalState, invalidMail in Hv. rewrite !orb_false_iff in Hv.
  assert (mexists (fun _ l => badLease l || badToken l) (db_deliveries (st_db s)) = false) as Hb by tauto.
  rewrite mexists_false in Hb. apply Hb, orb_false_iff in Hdl'. tauto.
Qed.
#[local] Hint Resolve fence_evolve : preserve.

#[export] Instance deliveries_evolve_stable d0 : Stable (deliveries_evolve d0).
Proof. split; [intros p d HI; exact HI|]. intros op. keep_op. Qed.

(** Recorded messages are immutable: no later operation changes, renumbers
    or removes a message or the role it was sent as. *)
Theorem messages_immutable id m s s' :
  rtc step s s' -> db_messages (st_db s) !! id = Some m ->
  db_messages (st_db s') !! id = Some m /\
  db_message_from_roles (st_db s') !! id = db_message_from_roles (st_db s) !! id.
Proof.
  intros Hs Hm. assert (roles_frozen (st_db s) (st_db s)) as HF by by split; [unfold kept|].
  apply (stable_steps _ _ _ Hs) in HF as [Hk Hr]. split; [exact (kept_row _ _ _ _ _ Hk Hm)|].
  by apply Hr.
Qed.

(** A delivery keeps its message and recipient, its fence generation never
    decreases and names one lease token, and once it is closed its row never
    changes again. *)
Theorem delivery_history id dl s s' :
  rtc step s s' -> db_deliveries (st_db s) !! id = Some dl ->
  exists dl', db_deliveries (st_db s') !! id = Some dl' /\
    dl_message dl' = dl_message dl /\ dl_recipient dl' = dl_recipient dl /\
    dl_generation dl <= dl_generation dl' /\
    (dl_generation dl' = dl_generation dl -> dl_token dl' = dl_token dl \/ dl_token dl' = None) /\
    (isPending dl = false -> dl' = dl).
Proof.
  intros Hs Hid. pose proof (stable_steps _ _ _ Hs (deliveries_evolve_refl (st_db s))) as HE.
  exact (HE id dl Hid).
Qed.
End Leases.
