(* ===== verification/Replay.v ===== *)
(** * Idempotent requests: at most one message per key

    A request that was accepted is recorded under (machine, idempotency key).
    From then on, whatever the relay does, the same key answers with the same
    message and writes nothing; a different request under that key is refused. *)

From S2P Require Import Prelude GoTime RateLimit Quota Text Sha256 Tables Tx Sessions Pending.
From S2P Require Import Invocations Rooms Claims Roles Directory Messages Deliveries QuotaInv Relay.
From S2P Require Import QuotaOps History.
Open Scope Z_scope.

Section Replay.
Context `{Env}.

Definition recorded (d : Db) (machineID key requestHash : string) (msg : Message) : Prop :=
  replayed d machineID key requestHash (msg, true).

Lemma recorded_steps machineID key requestHash msg s s' :
  rtc step s s' -> recorded (st_db s) machineID key requestHash msg ->
  recorded (st_db s') machineID key requestHash msg.
Proof.
  intros Hs (row & m & Hrow & Hh & Hm & [= ->]).
  pose proof (stable_steps _ _ _ Hs (append_only_refl (st_db s))) as HA.
  assert (roles_frozen (st_db s) (st_db s)) as HF by by split; [unfold kept|].
  apply (stable_steps _ _ _ Hs) in HF as [Hk Hfr].
  destruct HA as (_ & _ & Hidem & _). exists row, m.
  apply (kept_row _ _ _ _ _ Hidem) in Hrow. pose proof (kept_row _ _ _ _ _ Hk Hm) as Hm'.
  split_and!; try done. by rewrite Hfr.
Qed.

(** A message [id] stored without a sender role. *)
Definition stored (id : string) (m : MessageRow) (d : Db) : Prop :=
  db_messages d !! id = Some m /\ db_message_from_roles d !! id = None.

Lemma acceptMessage_recorded machineID key requestHash targetRole now row conversationID from body msg s s' :
  acceptMessage machineID key requestHash targetRole now row conversationID from body s = (inr msg, s') ->
  from_refs (st_db s) -> recorded (st_db s') machineID key requestHash msg.
Proof.
  intros Ha HF. unfold acceptMessage in Ha. tx_inv Ha.
  set (id := uuid_NewString (st_supply s2)) in *.
  assert (from_refs (st_db s3)) as HF3.
  { step_back Hm2. change (from_refs (st_db s2)). step_back Hm1. step_back Hm0. by step_back Hm. }
  assert (stored id (row a2) (st_db s4)) as Hst.
  { unfold storeMessage in Hm3. tx_inv Hm3. step_back Hm3. step_back Hm7.
    apply sql_insert_ok in Hm6 as (_ & Hfresh & _ & _ & ->). split; cbn in *.
    - by rewrite lookup_insert_eq.
    - apply eq_None_not_Some. intros [r Hr]. destruct (HF3 id r Hr). congruence. }
  assert (stored id (row a2) (st_db s5)) as Hst5 by by step_back Hm4.
  apply sql_insert_ok in Hm5 as (_ & _ & _ & _ & ->). destruct Hst5 as [H1 H2].
  exists {| id_hash := requestHash; id_target := id; id_created_at := ms now |}, (row a2).
  cbn. rewrite lookup_insert_eq, H2. by split_and!.
Qed.

Lemma recorded_unique d machineID key h h' m m' :
  recorded d machineID key h m -> recorded d machineID key h' m' -> h = h' /\ m = m'.
Proof. intros (row & x & ? & ? & ? & [= ->]) (row' & x' & ? & ? & ? & [= ->]). by simplify_eq. Qed.

Lemma refreshPendingMetrics_db now u s s' :
  refreshPendingMetrics now s = (inr u, s') -> st_db s' = st_db s.
Proof. destruct (refreshPendingMetrics_run now s) as (s1 & -> & Hd). by intros [= <- <-]. Qed.

(** The metrics refreshed after the transaction do not touch the database. *)
Lemma after_commit_db (b : bool) now u s s' :
  (if b then mret tt else refreshPendingMetrics now) s = (inr u, s') -> st_db s' = st_db s.
Proof. destruct b; [by intros [_ ->]%mret_ok|apply refreshPendingMetrics_db]. Qed.

Lemma AppendMessage_ok input r s s' :
  AppendMessage input s = (inr r, s') ->
  exists s1, appendTransaction input s = (inr r, s1) /\ st_db s' = st_db s1.
Proof.
  intros Ha. unfold AppendMessage, validBody in Ha. tx_inv Ha.
  match goal with Hx : (if _ then _ else _) _ = _ |- _ => apply after_commit_db in Hx as -> end.
  eauto.
Qed.

Lemma SendDirectMessage_ok input r s s' :
  SendDirectMessage input s = (inr r, s') ->
  exists roleLow roleHigh s1, directTransaction input roleLow roleHigh
    (DirectMessageRequestHash (dm_FromRole input) (dm_ToRole input) (dm_Body input))
    (Time.TruncateMs (dm_Now input)) s = (inr r, s1) /\ st_db s' = st_db s1.
Proof.
  intros Ha. unfold SendDirectMessage, validBody in Ha. tx_inv Ha.
  destruct (OrderedDirectRolePair _ _) as [[low high]|]; tx_inv Ha.
  match goal with Hx : (if _ then _ else _) _ = _ |- _ => apply after_commit_db in Hx as -> end.
  eauto 6.
Qed.

(** The two ways a successful append ends, in one statement about its result. *)
Lemma append_recorded input r s s' :
  AppendMessage input s = (inr r, s') -> from_refs (st_db s) ->
  recorded (st_db s') (ai_SenderMachineID input) (ai_IdempotencyKey input) (appendHash input) r.1.
Proof.
  intros (s1 & Ht & Hd)%AppendMessage_ok HF. rewrite Hd.
  apply appendTransaction_ok in Ht as [(Hr & -> & Hdup)|(_ & _ & Ha & _)].
  - destruct r as [m b]. simpl in *. by subst b.
  - by eapply acceptMessage_recorded.
Qed.

(** Once a key is recorded, a success under it is a replay. *)
Lemma append_replays input h m r s s' :
  recorded (st_db s) (ai_SenderMachineID input) (ai_IdempotencyKey input) h m ->
  AppendMessage input s = (inr r, s') ->
  appendHash input = h /\ r = (m, true) /\ st_db s' = st_db s.
Proof.
  intros Hrec (s1 & Ht & Hd)%AppendMessage_ok. rewrite Hd.
  apply appendTransaction_ok in Ht as [(Hr & -> & Hdup)|(Hnone & _)].
  - destruct r as [m' b]. simpl in *. subst b.
    destruct (recorded_unique _ _ _ _ _ _ _ Hr Hrec) as [-> ->]. done.
  - destruct Hrec as (row & ? & Hrow & _). congruence.
Qed.

(** *** Direct messages *)

Definition recordedDirect (d : Db) (machineID key requestHash : string) (msg : Message) : Prop :=
  exists row m, db_direct_message_idempotency d !! (machineID, key) = Some row /\
    di_hash row = requestHash /\ db_messages d !! di_message row = Some m /\
    msg = messageOf (di_message row) m (db_message_from_roles d !! di_message row).

Lemma recordedDirect_steps machineID key requestHash msg s s' :
  rtc step s s' -> recordedDirect (st_db s) machineID key requestHash msg ->
  recordedDirect (st_db s') machineID key requestHash msg.
Proof.
  intros Hs (row & m & Hrow & Hh & Hm & ->).
  pose proof (stable_steps _ _ _ Hs (append_only_refl (st_db s))) as HA.
  assert (roles_frozen (st_db s) (st_db s)) as HF by by split; [unfold kept|].
  apply (stable_steps _ _ _ Hs) in HF as [Hk Hfr].
  destruct HA as (_ & _ & _ & _ & _ & _ & _ & Hidem & _). exists row, m.
  apply (kept_row _ _ _ _ _ Hidem) in Hrow. pose proof (kept_row _ _ _ _ _ Hk Hm) as Hm'.
  split_and!; try done. by rewrite Hfr.
Qed.

(** A message stored with its sender role. *)
Definition storedFrom (id : string) (m : MessageRow) (role : string) (d : Db) : Prop :=
  db_messages d !! id = Some m /\ db_message_from_roles d !! id = Some role.

Lemma sendDirect_recorded input roleLow roleHigh requestHash now msg s s' :
  sendDirect input roleLow roleHigh requestHash now s = (inr msg, s') ->
  recordedDirect (st_db s') (dm_SenderMachineID input) (dm_IdempotencyKey input) requestHash msg.
Proof.
  intros Hs. unfold sendDirect in Hs. tx_inv Hs.
  set (id := uuid_NewString (st_supply s4)) in *. set (row := directRow _ _ _ _ _) in *.
  assert (storedFrom id row (dm_FromRole input) (st_db s10)) as [Hmsg Hrole].
  { step_back Hm9. step_back Hm8. step_back Hm7.
    apply sql_insert_ok in Hm5 as (_ & _ & _ & _ & ->).
    apply sql_insert_ok in Hm6 as (_ & _ & _ & _ & ->).
    split; cbn; by rewrite lookup_insert_eq. }
  apply sql_insert_ok in Hm10 as (_ & _ & _ & _ & ->). eexists _, row. cbn.
  rewrite lookup_insert_eq. split_and!; [reflexivity|done|done|]. cbn. by rewrite Hrole.
Qed.

Lemma direct_recorded input r s s' :
  SendDirectMessage input s = (inr r, s') ->
  recordedDirect (st_db s') (dm_SenderMachineID input) (dm_IdempotencyKey input)
    (DirectMessageRequestHash (dm_FromRole input) (dm_ToRole input) (dm_Body input)) r.1.
Proof.
  intros (low & high & s1 & Ht & Hd)%SendDirectMessage_ok. rewrite Hd. clear Hd.
  unfold directTransaction in Ht. tx_inv Ht.
  destruct (db_direct_message_idempotency _ !! _) as [row|] eqn:Hrow; tx_inv Ht; simpl.
  - bool_hyps. apply messageByID_ok in Hm0 as (-> & m & Hm0 & ->). by exists row, m.
  - by eapply sendDirect_recorded.
Qed.

Lemma direct_replays input h m r s s' :
  recordedDirect (st_db s) (dm_SenderMachineID input) (dm_IdempotencyKey input) h m ->
  SendDirectMessage input s = (inr r, s') ->
  DirectMessageRequestHash (dm_FromRole input) (dm_ToRole input) (dm_Body input) = h /\
  r = (m, true) /\ st_db s' = st_db s.
Proof.
  intros (row & msg & Hrow & Hh & Hm & ->) (low & high & s1 & Ht & Hd)%SendDirectMessage_ok.
  rewrite Hd. clear Hd. unfold directTransaction in Ht. tx_inv Ht. rewrite Hrow in Ht. tx_inv Ht.
  bool_hyps. apply messageByID_ok in Hm1 as (-> & m & Hm1 & ->). simplify_eq. by split_and!.
Qed.

(** A direct message is accepted at most once per machine and key: after a
    success, whatever happens in between, another success under the same key
    is the same request, returns the same message and writes nothing. *)
Theorem direct_at_most_once input input' r r' s s1 s2 s3 :
  SendDirectMessage input s = (inr r, s1) -> rtc step s1 s2 ->
  dm_SenderMachineID input' = dm_SenderMachineID input ->
  dm_IdempotencyKey input' = dm_IdempotencyKey input ->
  SendDirectMessage input' s2 = (inr r', s3) ->
  DirectMessageRequestHash (dm_FromRole input') (dm_ToRole input') (dm_Body input') =
    DirectMessageRequestHash (dm_FromRole input) (dm_ToRole input) (dm_Body input) /\
  r' = (r.1, true) /\ st_db s3 = st_db s2.
Proof.
  intros Ha Hs Hm Hk Ha'. eapply direct_replays; [|done]. rewrite Hm, Hk.
  eapply recordedDirect_steps; [done|]. by eapply direct_recorded.
Qed.

(** C1: A message append is accepted at most once per machine and idempotency
    key: after a success, whatever operations run in between, another success
    under that key is a replay of the same request that returns the same
    message, marked duplicate, and writes nothing. *)
Theorem append_at_most_once input input' r r' s s1 s2 s3 :
  reachable s -> AppendMessage input s = (inr r, s1) -> rtc step s1 s2 ->
  ai_SenderMachineID input' = ai_SenderMachineID input ->
  ai_IdempotencyKey input' = ai_IdempotencyKey input ->
  AppendMessage input' s2 = (inr r', s3) ->
  appendHash input' = appendHash input /\ r' = (r.1, true) /\ st_db s3 = st_db s2.
Proof.
  intros Hreach Ha Hs Hm Hk Ha'. eapply append_replays; [|done]. rewrite Hm, Hk.
  eapply recorded_steps; [done|]. eapply append_recorded; [done|]. by apply (reachable_invariant from_refs).
Qed.

(** *** One room per role pair *)

(** The room recorded for a role pair. *)
Definition paired (low high c : string) (d : Db) : Prop :=
  exists row, db_direct_conversations d !! (low, high) = Some row /\ dc_conversation row = c.

Lemma paired_unique low high c c' d : paired low high c d -> paired low high c' d -> c = c'.
Proof. intros (row & ? & ?) (row' & ? & ?). by simplify_eq. Qed.

Lemma sendDirect_room input low high requestHash now m s s' :
  sendDirect input low high requestHash now s = (inr m, s') ->
  paired low high (g_ConversationID m) (st_db s') /\
  (forall c, paired low high c (st_db s) -> c = g_ConversationID m).
Proof.
  intros Hs. unfold sendDirect in Hs. tx_inv Hs. simpl.
  assert (paired low high a1 (st_db s2)) as H2.
  { apply getOrCreateDirectConversation_ok in Hm1 as [(row & Hrow & -> & ->)|(_ & _ & _ & ->)].
    - by exists row.
    - eexists. split; [cbn; by rewrite lookup_insert_eq|done]. }
  split.
  - step_back Hm10. step_back Hm9. step_back Hm8. step_back Hm7. step_back Hm6. step_back Hm5.
    step_back Hm4. change (paired low high a1 (st_db s4)). step_back Hm3. by step_back Hm2.
  - intros c Hc. assert (paired low high c (st_db s1)) as H1.
    { assert (paired low high c (st_db s0)) as H0 by by step_back Hm. by step_back Hm0. }
    apply getOrCreateDirectConversation_ok in Hm1 as [(row & Hrow & -> & _)|(Hnone & _)].
    + destruct H1 as (row' & Hrow' & <-). by simplify_eq.
    + destruct H1 as (row' & Hrow' & _). congruence.
Qed.

Lemma direct_fresh_room input m s s' :
  SendDirectMessage input s = (inr (m, false), s') ->
  exists low high, OrderedDirectRolePair (dm_FromRole input) (dm_ToRole input) = Some (low, high) /\
    paired low high (g_ConversationID m) (st_db s') /\
    (forall c, paired low high c (st_db s) -> c = g_ConversationID m).
Proof.
  intros Ha. unfold SendDirectMessage, validBody in Ha. tx_inv Ha.
  destruct (OrderedDirectRolePair _ _) as [[low high]|] eqn:Hp; tx_inv Ha. exists low, high.
  split; [done|]. simpl in *.
  match goal with Hx : refreshPendingMetrics _ _ = _ |- _ => apply refreshPendingMetrics_db in Hx as -> end.
  match goal with Hx : directTransaction _ _ _ _ _ _ = _ |- _ =>
    apply directTransaction_ok in Hx as [(_ & ?)|(_ & Hs & _)]; [done|] end.
  by eapply sendDirect_room.
Qed.

Lemma ordered_pair_sym a b : OrderedDirectRolePair a b = OrderedDirectRolePair b a.
Proof.
  unfold OrderedDirectRolePair. destruct (decide (a = b)) as [->|Hne]; [done|].
  rewrite (bool_decide_false (a = b)), (bool_decide_false (b = a)) by congruence.
  rewrite !orb_false_r, orb_comm. destruct (_ || _); [done|]. unfold stringLt, String.ltb.
  rewrite (String.compare_antisym b a). destruct (String.compare a b) eqn:E; simpl; [|done..].
  by apply String.compare_eq_iff in E.
Qed.

(** Two roles share one direct room: every new direct message between them,
    in either direction and at any later time, lands in the same room. *)
Theorem direct_room_shared input input' m m' s s1 s2 s3 :
  SendDirectMessage input s = (inr (m, false), s1) -> rtc step s1 s2 ->
  SendDirectMessage input' s2 = (inr (m', false), s3) ->
  dm_FromRole input' = dm_FromRole input /\ dm_ToRole input' = dm_ToRole input \/
  dm_FromRole input' = dm_ToRole input /\ dm_ToRole input' = dm_FromRole input ->
  g_ConversationID m' = g_ConversationID m.
Proof.
  intros (low & high & Hp & Hc & _)%direct_fresh_room Hs (low' & high' & Hp' & _ & Hc')%direct_fresh_room Hroles.
  assert (Some (low', high') = Some (low, high)) as [= -> ->].
  { rewrite <-Hp, <-Hp'. destruct Hroles as [[-> ->]|[-> ->]]; [done|apply ordered_pair_sym]. }
  symmetry. apply Hc'. destruct Hc as (row & Hrow & Heq). exists row. split; [|done].
  pose proof (stable_steps _ _ _ Hs (append_only_refl (st_db s1))) as HA.
  destruct HA as (_ & _ & _ & _ & _ & _ & _ & _ & _ & _ & _ & _ & Hk & _).
  exact (kept_row _ _ _ _ _ Hk Hrow).
Qed.
End Replay.
