(* ===== verification/Members.v ===== *)
(** * Members: identities that can hold rights in a room

    Room members are valid endpoint names, so an endpoint recipient is never
    the recipient name of a role; every recipient of a delivery is a name. *)

From S2P Require Import Prelude GoTime RateLimit Quota Text Sha256 Tables Tx Sessions Pending.
From S2P Require Import Invocations Rooms Claims Roles Directory Messages Deliveries QuotaInv Relay.
From S2P Require Import QuotaOps History.
Open Scope Z_scope.

Definition members_valid (d : Db) : Prop :=
  forall c e v, db_memberships d !! (c, e) = Some v -> ValidEndpoint e = true.

Lemma members_set d k v :
  members_valid d -> ValidEndpoint k.2 = true ->
  members_valid (set_memberships (<[k:=v]> (db_memberships d)) d).
Proof.
  intros HI Hk c e w Hw. cbn in Hw. apply lookup_insert_Some in Hw as [[-> _]|[_ Hw]]; [done|by eapply HI].
Qed.

Lemma members_insert k v :
  ValidEndpoint k.2 = true -> preserves members_valid (sql_insert t_memberships k v).
Proof. intros Hk s u s' (_ & _ & _ & _ & ->)%sql_insert_ok HI. by apply members_set. Qed.

Lemma members_upsert k v f :
  ValidEndpoint k.2 = true -> preserves members_valid (sql_upsert t_memberships k v f).
Proof.
  intros Hk s u s' (_ & [(_ & _ & _ & ->)|(w & _ & _ & ->)])%sql_upsert_ok HI; by apply members_set.
Qed.

Lemma members_update k cond f : preserves members_valid (sql_update t_memberships k cond f).
Proof.
  intros s n s' [(_ & -> & _)|(_ & v & Hv & _ & _ & _ & ->)]%sql_update_ok HI; [done|].
  apply members_set; [done|]. destruct k. by eapply HI.
Qed.

Lemma members_delete cond : preserves members_valid (sql_delete_where t_memberships cond).
Proof.
  intros s u s' [[-> _]|(_ & _ & ->)]%sql_delete_where_ok HI; [done|].
  intros c e v Hv. cbn in Hv. apply map_lookup_filter_Some in Hv as [Hv _]. by eapply HI.
Qed.

(** Facts about accepted input that a guard established. *)
Ltac guard_facts := bool_hyps; simpl; assumption.

#[export] Hint Resolve members_update members_delete : preserve.
#[export] Hint Extern 1 (preserves members_valid (sql_insert t_memberships _ _)) =>
  apply members_insert; first [reflexivity | guard_facts] : preserve.
#[export] Hint Extern 1 (preserves members_valid (sql_upsert t_memberships _ _ _)) =>
  apply members_upsert; first [reflexivity | guard_facts] : preserve.

(** A member list that passed validation names valid endpoints. *)
Lemma checkMembers_valid creator members endpoints roles admin r :
  checkMembers creator members endpoints roles admin = Some r ->
  Forall (fun m => m_Endpoint m <> "" -> ValidEndpoint (m_Endpoint m) = true) members.
Proof.
  revert endpoints roles admin. induction members as [|m members IH]; intros es rs ad; simpl; [by constructor|].
  destruct (negb (validCapabilities _)); [done|].
  destruct (_ && _ && _) eqn:Hkind.
  - destruct (_ || _ || _) eqn:Hb; [done|]. intros Hc%IH. constructor; [|done]. bool_hyps. done.
  - destruct (bool_decide (m_Endpoint m = "") && _ && _ && _) eqn:Hk; [|done].
    destruct (_ || _); [done|]. intros Hc%IH. constructor; [|done]. by bool_hyps.
Qed.

Section Members.
Context `{Env}.

Lemma create_members input : keeps members_valid (createConversation input).
Proof.
  unfold createConversation. keep; preserve; apply members_insert; simpl; bool_hyps;
    match goal with Hc : checkMembers _ _ _ _ _ = _, Hx : _ ∈ _ |- _ =>
      apply checkMembers_valid in Hc; rewrite Forall_forall in Hc; by apply Hc
    end.
Qed.
#[local] Hint Resolve create_members : preserve.

#[export] Instance members_valid_invariant : RelayInvariant members_valid.
Proof.
  split; [|by intros ? ? ?]. split; [intros p d HI; exact HI|]. intros op. keep_op.
Qed.
End Members.

(** ** Retiring the deliveries of a recipient *)

(** Every pending delivery of [recipient] in [conversationID] is in [ids]. *)
Definition pending_within (recipient conversationID : string) (ids : list string) (d : Db) : Prop :=
  forall id dl m, db_deliveries d !! id = Some dl -> pendingAt d recipient dl = Some m ->
    ms_conversation m = conversationID -> id ∈ ids.

Lemma pendingCloses_all d recipient conversationID :
  pending_within recipient conversationID (pc_ID <$> pendingCloses d recipient conversationID) d.
Proof.
  intros id dl m Hid Hm Hc. apply list_elem_of_fmap. exists (closeOf id dl m). split; [done|].
  unfold pendingCloses. apply list_elem_of_omap. exists (id, dl).
  split; [by apply elem_of_map_to_list|]. simpl. rewrite Hm. by rewrite bool_decide_true.
Qed.

Lemma closed_not_pending d recipient dl : isPending dl = false -> pendingAt d recipient dl = None.
Proof.
  unfold pendingAt, pendingMessage, isPending. case_bool_decide; [|done]. by destruct (dl_acked dl).
Qed.

Lemma close_within recipient conversationID row ids reason now b s s' :
  closePendingDelivery row reason now s = (inr b, s') ->
  pending_within recipient conversationID (pc_ID row :: ids) (st_db s) ->
  pending_within recipient conversationID ids (st_db s').
Proof.
  intros Hc HI. unfold closePendingDelivery in Hc. tx_inv Hc.
  assert (pending_within recipient conversationID ids (st_db s0)) as HI0.
  { intros id dl m Hid Hm1 Hconv.
    apply sql_update_ok in Hm0 as [(_ & -> & Hno)|(_ & dl0 & Hid0 & _ & _ & _ & ->)]; cbn in Hid.
    - pose proof (HI id dl m Hid Hm1 Hconv) as [->|?]%elem_of_cons; [|done]. exfalso.
      specialize (Hno dl Hid). by rewrite closed_not_pending in Hm1.
    - apply lookup_insert_Some in Hid as [[_ <-]|[Hne Hid]].
      + by rewrite closed_not_pending in Hm1.
      + pose proof (HI id dl m Hid Hm1 Hconv) as [->|?]%elem_of_cons; done. }
  destruct (negb _); tx_inv Hc; [done|]. step_back Hm3. step_back Hm2. by step_back Hm1.
Qed.

Lemma retire_clears recipient conversationID now n s s' :
  retireRecipientDeliveries recipient conversationID now s = (inr n, s') ->
  pending_within recipient conversationID [] (st_db s').
Proof.
  intros Hr. unfold retireRecipientDeliveries in Hr. tx_inv Hr.
  pose proof (pendingCloses_all (st_db s) recipient conversationID) as Hall. revert Hm Hall.
  generalize (pendingCloses (st_db s) recipient conversationID) as rows. intros rows. revert a s.
  induction rows as [|row rows IH]; intros bs s Hl HI; simpl in Hl; tx_inv Hl; [done|].
  eapply IH; [done|]. eapply close_within; [done|]. exact HI.
Qed.

(** ** Receive rights *)

(** [x] may receive in room [c]: as an endpoint member or as a role member. *)
Definition may_receive (d : Db) (c x : string) : Prop :=
  (exists v, db_memberships d !! (c, x) = Some v /\ hasCap v CapReceive = true) \/
  (exists r v, x = roleRecipient r /\ db_role_memberships d !! (c, r) = Some v /\
    hasCap v CapReceive = true).

(** Every pending delivery belongs to an identity that may receive in its room,
    except possibly those of one recipient in one room. *)
Definition rights_but (exempt : option (string * string)) (d : Db) : Prop :=
  delivery_refs d /\
  forall id dl m, db_deliveries d !! id = Some dl -> pendingMessage d dl = Some m ->
    exempt <> Some (ms_conversation m, dl_recipient dl) ->
    may_receive d (ms_conversation m) (dl_recipient dl).

Abbreviation rights := (rights_but None).

Lemma within_none r c id dl m d :
  pending_within r c [] d -> db_deliveries d !! id = Some dl -> pendingMessage d dl = Some m ->
  dl_recipient dl = r -> ms_conversation m = c -> False.
Proof.
  intros Hp Hid Hm Hr Hc. assert (id ∈ []) as Hin; [|by apply elem_of_nil in Hin].
  eapply (Hp id dl m); [done| |done]. unfold pendingAt. by rewrite bool_decide_true.
Qed.

Lemma may_receive_ext d d' c x :
  (forall v, db_memberships d !! (c, x) = Some v -> hasCap v CapReceive = true ->
    exists v', db_memberships d' !! (c, x) = Some v' /\ hasCap v' CapReceive = true) ->
  (forall r v, x = roleRecipient r -> db_role_memberships d !! (c, r) = Some v ->
    hasCap v CapReceive = true ->
    exists v', db_role_memberships d' !! (c, r) = Some v' /\ hasCap v' CapReceive = true) ->
  may_receive d c x -> may_receive d' c x.
Proof.
  intros H1 H2 [(v & Hv & Hc)|(r & v & -> & Hv & Hc)].
  - left. eauto.
  - right. destruct (H2 r v) as (v' & ? & ?); [done..|]. eauto.
Qed.

(** A member's capabilities may be replaced when they still include receive,
    when they did not before, or when nothing is pending for the member. *)
Lemma rights_set_member d c e v :
  rights d ->
  (hasCap v CapReceive = true \/
   (forall w, db_memberships d !! (c, e) = Some w -> hasCap w CapReceive = false) \/
   pending_within e c [] d) ->
  rights (set_memberships (<[(c, e) := v]> (db_memberships d)) d).
Proof.
  intros [Hrefs HI] Hcase. split; [exact Hrefs|]. intros id dl m Hid Hm Hx.
  eapply may_receive_ext; [| |by eapply HI]; [|intros; eauto].
  intros w Hw Hcap. cbn.
  destruct (decide ((c, e) = (ms_conversation m, dl_recipient dl))) as [[= -> ->]|Hne].
  - rewrite lookup_insert_eq. destruct Hcase as [?|[Hno|Hp]]; [by eauto| |].
    + rewrite (Hno w Hw) in Hcap. done.
    + by destruct (within_none _ _ _ _ _ _ Hp Hid Hm).
  - rewrite lookup_insert_ne by done. eauto.
Qed.

Lemma rights_delete_member d c e :
  rights d -> pending_within e c [] d ->
  rights (set_memberships (filter (fun kv => bool_decide (kv.1 = (c, e)) = false) (db_memberships d)) d).
Proof.
  intros [Hrefs HI] Hp. split; [exact Hrefs|]. intros id dl m Hid Hm Hx.
  eapply may_receive_ext; [| |by eapply HI]; [|intros; eauto].
  intros w Hw Hcap. cbn. exists w. split; [|done]. apply map_lookup_filter_Some. split; [done|].
  simpl. apply bool_decide_eq_false. intros [= Hc He].
  by destruct (within_none _ _ _ _ _ _ Hp Hid Hm).
Qed.

(** Removing a role's membership exempts its deliveries until they are retired. *)
Lemma rights_delete_role c r :
  forall u s s', sql_delete_where t_role_memberships (fun k _ => bool_decide (k = (c, r))) s = (inr u, s') ->
  rights (st_db s) -> rights_but (Some (c, roleRecipient r)) (st_db s').
Proof.
  intros u s s' [[-> _]|(_ & _ & ->)]%sql_delete_where_ok [Hrefs HI].
  { split; [exact Hrefs|]. intros. by eapply HI. }
  split; [exact Hrefs|]. intros id dl m Hid Hm Hx.
  eapply may_receive_ext; [| |by eapply HI]; [intros; eauto|].
  intros r' w Heq Hw Hcap. exists w. split; [|done]. cbn. apply map_lookup_filter_Some. split; [done|].
  simpl. apply bool_decide_eq_false. intros [= Hc ->]. apply Hx. by rewrite Heq, Hc.
Qed.

Lemma rights_restored c x d : rights_but (Some (c, x)) d -> pending_within x c [] d -> rights d.
Proof.
  intros [Hrefs HI] Hp. split; [exact Hrefs|]. intros id dl m Hid Hm _. eapply HI; [done..|].
  intros [= Hc Hr]. by eapply within_none.
Qed.

(** *** Statements on the rows the invariant reads *)

Section Rows.
Context (x : option (string * string)).

Lemma rights_member_insert k v : preserves (rights_but x) (sql_insert t_memberships k v).
Proof.
  intros s u s' (_ & Hn & _ & _ & ->)%sql_insert_ok [Hrefs HI]. split; [exact Hrefs|].
  intros id dl m Hid Hm Hx. eapply may_receive_ext; [| |by eapply HI]; [|intros; eauto].
  intros w Hw Hcap. cbn in *. rewrite lookup_insert_ne; [eauto|]. congruence.
Qed.

Lemma rights_role_insert k v : preserves (rights_but x) (sql_insert t_role_memberships k v).
Proof.
  intros s u s' (_ & Hn & _ & _ & ->)%sql_insert_ok [Hrefs HI]. split; [exact Hrefs|].
  intros id dl m Hid Hm Hx. eapply may_receive_ext; [| |by eapply HI]; [intros; eauto|].
  intros r w Heq Hw Hcap. cbn in *. rewrite lookup_insert_ne; [eauto|]. congruence.
Qed.

(** The row keeps its message and recipient and is not reopened. *)
Definition not_reopened (f : DeliveryRow -> DeliveryRow) : Prop :=
  forall dl, dl_message (f dl) = dl_message dl /\ dl_recipient (f dl) = dl_recipient dl /\
    (dl_acked (f dl) = None -> dl_acked dl = None).

Lemma not_reopened_pending f d dl m :
  not_reopened f -> pendingMessage d (f dl) = Some m -> pendingMessage d dl = Some m.
Proof.
  intros Hf. destruct (Hf dl) as (Hm & _ & Ha). unfold pendingMessage. rewrite Hm.
  destruct (dl_acked (f dl)); [done|]. by rewrite Ha.
Qed.

Lemma rights_update id cond f :
  not_reopened f -> preserves (rights_but x) (sql_update t_deliveries id cond f).
Proof.
  intros Hf s n s' [(_ & -> & _)|(_ & dl & Hid & _ & _ & _ & ->)]%sql_update_ok; [done|].
  intros [Hrefs HI]. cbn in Hid. destruct (Hf dl) as (Hm & Hr & Ha). split.
  - by eapply delivery_update_refs.
  - intros id' dl' m Hid' Hp. cbn in Hid'. apply lookup_insert_Some in Hid' as [[_ <-]|[_ Hid']].
    + rewrite Hr. intros Hx. eapply (HI id dl m); [done| |done].
      exact (not_reopened_pending f (st_db s) dl m Hf Hp).
    + intros Hx. by eapply (HI id' dl' m).
Qed.

Lemma rights_update_where cond f :
  not_reopened f -> preserves (rights_but x) (sql_update_where t_deliveries cond f).
Proof.
  intros Hf s u s' [[-> _]|(_ & _ & ->)]%sql_update_where_ok; [done|]. intros [Hrefs HI].
  assert (forall id dl', db_deliveries (st_db (update_rows t_deliveries cond f s)) !! id = Some dl' ->
    exists dl, db_deliveries (st_db s) !! id = Some dl /\ (dl' = dl \/ dl' = f dl)) as Hrow.
  { intros id dl'. cbn. rewrite lookup_imap_upd. intros (dl & Hid & ->)%fmap_Some.
    exists dl. split; [done|]. destruct (cond id dl); auto. }
  split.
  - intros id dl' (dl & Hid & Hdl)%Hrow. destruct (Hf dl) as (Hm & _).
    assert (dl_message dl' = dl_message dl) as -> by (destruct Hdl as [Heq|Heq]; by rewrite Heq).
    by eapply Hrefs.
  - intros id dl' m (dl & Hid & Hdl)%Hrow Hp Hx. destruct (Hf dl) as (_ & Hr & _).
    destruct Hdl as [->| ->]; [by eapply (HI id dl m)|]. rewrite Hr in *.
    eapply (HI id dl m); [done| |done]. exact (not_reopened_pending f (st_db s) dl m Hf Hp).
Qed.

Lemma rights_message id m : preserves (rights_but x) (sql_insert t_messages id m).
Proof.
  intros s u s' (_ & Hid & _ & _ & ->)%sql_insert_ok [Hrefs HI]. cbn in Hid.
  assert (forall id' dl, db_deliveries (st_db s) !! id' = Some dl -> dl_message dl <> id) as Hne.
  { intros id' dl Hdl Heq. destruct (Hrefs id' dl Hdl) as [? ?]. congruence. }
  split.
  - intros id' dl Hdl. cbn in *. rewrite lookup_insert_is_Some'. right. by eapply Hrefs.
  - intros id' dl m' Hdl Hp Hx. eapply (HI id' dl m'); [done| |done].
    revert Hp. unfold pendingMessage. cbn. destruct (dl_acked dl); [done|].
    rewrite lookup_insert_ne; [done|]. intros Heq. by eapply Hne.
Qed.

Lemma rights_delivery id dl u s s' :
  sql_insert t_deliveries id dl s = (inr u, s') ->
  (forall m, db_messages (st_db s) !! dl_message dl = Some m ->
    may_receive (st_db s) (ms_conversation m) (dl_recipient dl)) ->
  rights_but x (st_db s) -> rights_but x (st_db s').
Proof.
  intros (_ & Hn & _ & Hfk & ->)%sql_insert_ok Hok [Hrefs HI]. cbn in Hn, Hfk.
  apply has_true in Hfk. split.
  - intros id' dl' Hid. cbn in *. apply lookup_insert_Some in Hid as [[_ <-]|[_ Hid]]; [done|by eapply Hrefs].
  - intros id' dl' m Hid Hp Hx. cbn in Hid. apply lookup_insert_Some in Hid as [[_ <-]|[_ Hid]].
    + apply Hok. unfold pendingMessage in Hp. by destruct (dl_acked dl).
    + by eapply (HI id' dl' m).
Qed.
End Rows.

#[export] Hint Resolve rights_member_insert rights_role_insert rights_message : preserve.
#[export] Hint Extern 1 (preserves (rights_but _) (sql_update t_deliveries _ _ _)) =>
  apply rights_update; by intros ? : preserve.
#[export] Hint Extern 1 (preserves (rights_but _) (sql_update_where t_deliveries _ _)) =>
  apply rights_update_where; by intros ? : preserve.

(** ** Direct rooms *)

Definition directGrant : Z := Z.lor CapSend CapReceive.

(** The room of a role pair has both roles as members, with send and receive. *)
Definition direct_rooms (d : Db) : Prop :=
  forall low high row, db_direct_conversations d !! (low, high) = Some row ->
    CanonicalRoleHandle low = true /\ CanonicalRoleHandle high = true /\
    db_role_memberships d !! (dc_conversation row, low) = Some directGrant /\
    db_role_memberships d !! (dc_conversation row, high) = Some directGrant.

Lemma direct_rooms_insert k v : preserves direct_rooms (sql_insert t_role_memberships k v).
Proof.
  intros s u s' (_ & Hn & _ & _ & ->)%sql_insert_ok HI low high row Hrow. cbn in *.
  destruct (HI low high row Hrow) as (? & ? & ? & ?).
  split_and!; try done; (rewrite lookup_insert_ne; [done|congruence]).
Qed.

Lemma direct_rooms_adopt c :
  preserves direct_rooms
    (sql_delete_where t_role_memberships (fun k _ => bool_decide (k = (c, TelegramCodexRole)))).
Proof.
  intros s u s' [[-> _]|(_ & _ & ->)]%sql_delete_where_ok HI; [done|].
  intros low high row Hrow. cbn in *. destruct (HI low high row Hrow) as (Hl & Hh & ? & ?).
  split_and!; try done; apply map_lookup_filter_Some; (split; [done|]);
    apply bool_decide_eq_false; simpl; intros [= _ ->]; done.
Qed.

Lemma ordered_pair from to low high :
  OrderedDirectRolePair from to = Some (low, high) ->
  CanonicalRoleHandle low = true /\ CanonicalRoleHandle high = true /\
  (low = from /\ high = to \/ low = to /\ high = from).
Proof.
  unfold OrderedDirectRolePair. destruct (_ || _) eqn:Hb; [done|]. bool_hyps.
  destruct (stringLt from to); intros [= <- <-]; auto.
Qed.

Section Direct.
Context `{Env}.

Lemma direct_rooms_get low high from to now :
  OrderedDirectRolePair from to = Some (low, high) ->
  preserves direct_rooms (getOrCreateDirectConversation low high from to now).
Proof.
  intros Hp s c s' Hg HI.
  apply getOrCreateDirectConversation_ok in Hg as [(row & _ & _ & ->)|(Hn & Hc & Hne & ->)]; [done|].
  apply ordered_pair in Hp as (Hl & Hh & Hp).
  set (grants := <[(c, to) := directGrant]> (<[(c, from) := directGrant]> (db_role_memberships (st_db s)))).
  assert (forall k, k = (c, from) \/ k = (c, to) \/ db_role_memberships (st_db s) !! k = Some directGrant ->
    grants !! k = Some directGrant) as Hgrants.
  { intros k Hk. unfold grants. rewrite !lookup_insert. repeat case_decide; naive_solver. }
  intros l h row Hrow.
  change (db_role_memberships (directDb c low high from to now (st_db s))) with grants.
  cbn in Hrow. apply lookup_insert_Some in Hrow as [[[= <- <-] <-]|[_ Hrow]].
  - simpl. split_and!; [done|done|..]; apply Hgrants; naive_solver.
  - destruct (HI l h row Hrow) as (? & ? & ? & ?). split_and!; auto.
Qed.

#[local] Hint Resolve direct_rooms_insert direct_rooms_adopt : preserve.
#[local] Hint Extern 1 (preserves direct_rooms (getOrCreateDirectConversation _ _ _ _ _)) =>
  apply direct_rooms_get; subst; eassumption : preserve.

#[export] Instance direct_rooms_invariant : RelayInvariant direct_rooms.
Proof.
  split; [|by intros ? ? ?]. split; [intros p d HI; exact HI|]. intros op. keep_op.
Qed.
End Direct.
