(* ===== verification/Rights.v ===== *)
(** * Receive rights: only current receivers have pending deliveries

    A delivery is pending only for an identity that currently holds the receive
    capability in the room: granting a message, revoking a member, changing
    capabilities and dropping a role all keep it so. *)

From S2P Require Import Prelude GoTime RateLimit Quota Text Sha256 Tables Tx Sessions Pending.
From S2P Require Import Invocations Rooms Claims Roles Directory Messages Deliveries QuotaInv Relay.
From S2P Require Import QuotaOps History Members.
Open Scope Z_scope.

Section Rights.
Context `{Env}.

(** ** Writing a message *)

(** Message [id] is in room [c], where every recipient of [rs] may receive. *)
Definition addressed (id c : string) (rs : list string) (d : Db) : Prop :=
  (exists m, db_messages d !! id = Some m /\ ms_conversation m = c) /\
  forall r, r ∈ rs -> may_receive d c r.

Lemma insertDelivery_rights id c rs r u s s' :
  insertDelivery id r s = (inr u, s') -> addressed id c rs (st_db s) -> r ∈ rs ->
  rights (st_db s) -> rights (st_db s') /\ addressed id c rs (st_db s').
Proof.
  intros Hi Ha Hr HI. split; [|by step_back Hi]. unfold insertDelivery in Hi. tx_inv Hi.
  eapply (rights_delivery None _ _ _ _ _ Hi); [|done].
  destruct Ha as ((m & Hm & Hc) & Hall). cbn. intros m' Hm'. simplify_eq. by apply Hall.
Qed.

(** A loop that gives each element of [l] a delivery or moves a cursor. *)
Lemma route_rights {A} (route : A -> M unit) id c rs (l : list A) u s s' :
  (forall x u s s', x ∈ l -> route x s = (inr u, s') -> addressed id c rs (st_db s) ->
    rights (st_db s) -> rights (st_db s') /\ addressed id c rs (st_db s')) ->
  for_each l route s = (inr u, s') -> addressed id c rs (st_db s) -> rights (st_db s) ->
  rights (st_db s') /\ addressed id c rs (st_db s').
Proof.
  revert s. induction l as [|x l IH]; intros s Hstep Hl Ha HI; simpl in Hl; tx_inv Hl; [done|].
  destruct (Hstep x _ _ _ ltac:(set_solver) Hm Ha HI) as [HI1 Ha1].
  eapply IH; [|done..]. intros y ? ? ? Hy. apply Hstep. set_solver.
Qed.

Lemma advance_rights id c rs r conv u s s' :
  advanceRecipientCursor r conv s = (inr u, s') -> addressed id c rs (st_db s) ->
  rights (st_db s) -> rights (st_db s') /\ addressed id c rs (st_db s').
Proof. intros Ha Had HI. split; by step_back Ha. Qed.

Lemma routeEndpoint_rights c id target e rs u s s' :
  routeEndpoint c id target e s = (inr u, s') -> e ∈ rs -> addressed id c rs (st_db s) ->
  rights (st_db s) -> rights (st_db s') /\ addressed id c rs (st_db s').
Proof.
  unfold routeEndpoint. intros Hr He. destruct (_ || _); intros Ha HI.
  - by eapply insertDelivery_rights.
  - by eapply advance_rights.
Qed.

Lemma routeRole_rights c id target r rs u s s' :
  routeRole c id target r s = (inr u, s') -> roleRecipient r ∈ rs -> addressed id c rs (st_db s) ->
  rights (st_db s) -> rights (st_db s') /\ addressed id c rs (st_db s').
Proof.
  unfold routeRole. intros Hr He Ha HI. destruct (bool_decide _); [by eapply advance_rights|].
  destruct (_ || _); [by eapply insertDelivery_rights|by eapply advance_rights].
Qed.

Lemma elem_of_receivingRoles d c r :
  r ∈ receivingRoles d c <->
  exists v, db_role_memberships d !! (c, r) = Some v /\ hasCap v CapReceive = true.
Proof.
  unfold receivingRoles. rewrite elem_of_select_snd with (c := c).
  - split.
    + intros (v & Hv & Hp). bool_hyps. eauto.
    + intros (v & Hv & Hc). exists v. split; [done|]. simpl. by rewrite bool_decide_true, Hc.
  - intros k v Hp. by bool_hyps.
Qed.

(** The identities the recipient queries of a message return. *)
Definition receivers (d : Db) (c from : string) : list string :=
  receivingEndpoints d c from ++ (roleRecipient <$> receivingRoles d c).

Lemma receivers_may_receive d c from r : r ∈ receivers d c from -> may_receive d c r.
Proof.
  unfold receivers. intros [Hr|Hr]%elem_of_app.
  - apply elem_of_receivingEndpoints in Hr as (v & ? & ? & _). left. eauto.
  - apply list_elem_of_fmap in Hr as (x & -> & (v & ? & ?)%elem_of_receivingRoles). right. eauto 6.
Qed.

Lemma storeMessage_rights id m target : preserves rights (storeMessage id m target).
Proof.
  intros s u s' Hs HI. unfold storeMessage in Hs. tx_inv Hs.
  assert (rights (st_db s0)) as HI0 by by step_back Hm.
  set (c := ms_conversation m) in *. set (rs := receivers (st_db s0) c (ms_from m)).
  assert (addressed id c rs (st_db s0)) as Ha.
  { split; [|intros r; apply receivers_may_receive].
    apply sql_insert_ok in Hm as (_ & _ & _ & _ & ->). exists m. cbn. by rewrite lookup_insert_eq. }
  assert (same_members (st_db s0) (st_db s1)) as [_ Hroles] by by step_back Hm0.
  eapply route_rights in Hm0 as [HI1 Ha1]; [| |done|done].
  - eapply route_rights in Hs as [? _]; [done| |done|done].
    intros r ? ? ? Hr Hx. eapply routeRole_rights; [done|]. unfold rs, receivers.
    apply elem_of_app. right. apply list_elem_of_fmap_2. unfold receivingRoles in *. by rewrite <-Hroles.
  - intros e ? ? ? He Hx. eapply routeEndpoint_rights; [done|]. unfold rs, receivers.
    apply elem_of_app. by left.
Qed.
#[local] Hint Resolve storeMessage_rights : preserve.

(** ** Direct messages *)

Lemma direct_target low high from to now c s s' :
  getOrCreateDirectConversation low high from to now s = (inr c, s') ->
  OrderedDirectRolePair from to = Some (low, high) -> direct_rooms (st_db s) ->
  may_receive (st_db s') c (roleRecipient to).
Proof.
  intros Hg Hp HJ. apply (direct_rooms_get _ _ _ _ now Hp _ _ _ Hg) in HJ as HJ'.
  assert (exists row, db_direct_conversations (st_db s') !! (low, high) = Some row /\
    dc_conversation row = c) as (row & Hrow & <-).
  { apply getOrCreateDirectConversation_ok in Hg as [(row & Hrow & -> & ->)|(_ & _ & _ & ->)].
    - by exists row.
    - eexists. split; [cbn; by rewrite lookup_insert_eq|done]. }
  destruct (HJ' _ _ _ Hrow) as (_ & _ & Hl & Hh). right. exists to, directGrant.
  apply ordered_pair in Hp as (_ & _ & [[-> ->]|[-> ->]]); done.
Qed.

Lemma direct_room_rights low high from to now :
  preserves rights (getOrCreateDirectConversation low high from to now).
Proof.
  intros s c s' Hg [Hrefs HI].
  apply getOrCreateDirectConversation_ok in Hg as [(row & _ & _ & ->)|(_ & _ & _ & ->)]; [done|].
  split; [exact Hrefs|]. intros id dl m Hid Hm Hx.
  eapply may_receive_ext; [| |by eapply HI]; [intros; eauto|].
  intros r v Heq Hv Hcap. cbn. rewrite !lookup_insert. repeat case_decide; eauto.
Qed.
#[local] Hint Resolve direct_room_rights : preserve.

Lemma sendDirect_rights input low high requestHash now a s s' :
  OrderedDirectRolePair (dm_FromRole input) (dm_ToRole input) = Some (low, high) ->
  sendDirect input low high requestHash now s = (inr a, s') ->
  direct_rooms (st_db s) -> rights (st_db s) -> rights (st_db s').
Proof.
  intros Hp Hs HJ HI. unfold sendDirect in Hs. tx_inv Hs.
  set (target := fun d => may_receive d a2 (roleRecipient (dm_ToRole input))).
  assert (direct_rooms (st_db s1)) as HJ1.
  { assert (direct_rooms (st_db s0)) as HJ0 by by step_back Hm. by step_back Hm0. }
  assert (target (st_db s2)) as Ht2 by by eapply direct_target.
  assert (rights (st_db s6)) as HI6.
  { step_back Hm5. step_back Hm4. change (rights (st_db s4)). step_back Hm3. step_back Hm2.
    step_back Hm1. step_back Hm0. by step_back Hm. }
  assert (addressed (uuid_NewString (st_supply s4)) a2 [roleRecipient (dm_ToRole input)] (st_db s7)) as Ha.
  { split.
    - apply sql_insert_ok in Hm5 as (_ & _ & _ & _ & ->).
      apply sql_insert_ok in Hm6 as (_ & _ & _ & _ & ->).
      eexists. cbn. by rewrite lookup_insert_eq.
    - intros r ->%list_elem_of_singleton. change (target (st_db s7)).
      step_back Hm6. step_back Hm5. step_back Hm4. change (target (st_db s4)).
      step_back Hm3. by step_back Hm2. }
  step_back Hm10. step_back Hm9. step_back Hm8.
  eapply insertDelivery_rights in Hm7 as [? _]; [done|done|set_solver|by step_back Hm6].
Qed.

Lemma direct_rights input : keeps_given direct_rooms rights (SendDirectMessage input).
Proof.
  unfold SendDirectMessage, validBody. keep_given.
  intros s1 r s2 Ht HJ HI.
  apply directTransaction_ok in Ht as [(-> & _)|(_ & Ha & _)]; [done|]. subst.
  by eapply sendDirect_rights.
Qed.

(** ** Members *)

Lemma gateway_rights conversationID : preserves rights (ensureTelegramGatewayMembership conversationID).
Proof.
  unfold ensureTelegramGatewayMembership. preserve.
  intros s n s' [(_ & -> & _)|(_ & v & _ & _ & _ & _ & ->)]%sql_update_ok HI; [done|].
  apply rights_set_member; [done|]. by left.
Qed.

Lemma revoke_clears conversationID endpoint now n s s' :
  revokeReceive conversationID endpoint now s = (inr n, s') ->
  rights (st_db s) -> rights (st_db s') /\ pending_within endpoint conversationID [] (st_db s').
Proof.
  intros Hr HI. unfold revokeReceive in Hr. tx_inv Hr. split.
  - step_back Hm1. step_back Hm0. by step_back Hm.
  - step_back Hm1. change (pending_within endpoint conversationID [] (st_db s1)). step_back Hm0.
    by eapply retire_clears.
Qed.

Lemma reads_keepAdmin (b : bool) conversationID endpoint :
  reads (if b then keepAdmin conversationID endpoint else mret tt).
Proof. reads. Qed.

Lemma reads_admitMember conversationID endpoint now : reads (admitMember conversationID endpoint now).
Proof. reads. Qed.

Lemma upsertMember_rights conversationID endpoint capabilities now :
  preserves rights (upsertMember conversationID endpoint capabilities now).
Proof.
  intros s n s' Hu HI. unfold upsertMember in Hu. tx_inv Hu. step_back Hm1.
  assert (rights (st_db s0) /\ (hasCap capabilities CapReceive = true \/
    (forall w, db_memberships (st_db s0) !! (conversationID, endpoint) = Some w ->
      hasCap w CapReceive = false) \/ pending_within endpoint conversationID [] (st_db s0))) as [HI0 Hcase].
  { destruct (db_memberships (st_db s) !! _) as [p|] eqn:Hp; tx_inv Hm.
    - assert (st_db s3 = st_db s) as Heq by (eapply (reads_keepAdmin (hasCap p CapAdmin && _)); exact Hm2).
      destruct (hasCap p CapReceive && _) eqn:Hb.
      + apply revoke_clears in Hm; [|by rewrite Heq]. tauto.
      + tx_inv Hm. rewrite Heq. split; [done|]. apply andb_false_iff in Hb as [Hb|Hb%negb_false_iff].
        * right. left. intros w Hw. simplify_eq. done.
        * by left.
    - assert (st_db s3 = st_db s) as Heq by by eapply reads_admitMember.
      rewrite Heq. split; [done|]. right. left. intros w Hw. congruence. }
  apply sql_upsert_ok in Hm0 as (_ & [(_ & _ & _ & ->)|(w & _ & _ & ->)]); by apply rights_set_member.
Qed.

Lemma removeMember_rights conversationID endpoint now :
  preserves rights (removeMember conversationID endpoint now).
Proof.
  intros s n s' Hu HI. unfold removeMember in Hu. tx_inv Hu.
  assert (st_db s0 = st_db s) as Heq by by eapply reads_keepAdmin.
  apply revoke_clears in Hm1 as [HI1 Hp]; [|by rewrite Heq].
  apply sql_delete_where_ok in Hm2 as [[-> _]|(_ & _ & ->)]; [done|]. by apply rights_delete_member.
Qed.
#[local] Hint Resolve gateway_rights upsertMember_rights removeMember_rights : preserve.

Lemma adopt_rights input wall : keeps rights (PrepareTelegramAdopt input wall).
Proof.
  unfold PrepareTelegramAdopt. keep. intros s2 u s3 Ha HI. tx_inv Ha.
  step_back Ha. step_back Hm8. step_back Hm7. pose proof (retire_clears _ _ _ _ _ _ Hm6) as Hp.
  eapply rights_restored; [|exact Hp]. step_back Hm6. eapply rights_delete_role; [exact Hm5|].
  step_back Hm4. step_back Hm3. step_back Hm1. by step_back Hm.
Qed.
#[local] Hint Resolve adopt_rights : preserve.

Lemma op_rights op : keeps_given direct_rooms rights (run_op op).
Proof.
  destruct op; simpl; lazymatch goal with
  | |- keeps_given _ _ (void (SendDirectMessage _)) => apply keeps_given_void, direct_rights
  | _ => apply keeps_given_of; try apply keeps_void; keep_maintain; keep; preserve
  end.
Qed.

#[export] Instance rights_invariant : RelayInvariant (fun d => direct_rooms d /\ rights d).
Proof.
  split.
  - apply Stable_under; [apply _|intros p d HI; exact HI|exact op_rights].
  - split; [apply inv_empty|]. split; by intros ? ?.
Qed.

(** C22: No mail is held for an identity without the right to it: in every
    reachable state a pending delivery belongs to an endpoint or role that
    currently holds the receive capability in the message's room. *)
Theorem pending_only_for_receivers id dl m s :
  reachable s -> db_deliveries (st_db s) !! id = Some dl -> dl_acked dl = None ->
  db_messages (st_db s) !! dl_message dl = Some m ->
  may_receive (st_db s) (ms_conversation m) (dl_recipient dl).
Proof.
  intros Hs Hid Ha Hm. pose proof (reachable_invariant _ _ Hs : direct_rooms _ /\ rights _) as [_ [_ HR]].
  apply (HR id); [done| |done]. unfold pendingMessage. by rewrite Ha.
Qed.
End Rights.
