(* ===== verification/Cursors.v ===== *)
(** * Recipient cursors and room sequences

    A recipient's cursor in a room is a promise: every message up to it has been
    dealt with.  The invariant says that no pending delivery lies at or below
    its recipient's cursor, that cursors never pass the room's last sequence
    number and that every message has a number the room has allocated. *)

From S2P Require Import Prelude GoTime RateLimit Quota Text Sha256 Tables Tx Sessions Pending.
From S2P Require Import Invocations Rooms Claims Roles Directory Messages Deliveries QuotaInv Relay.
From S2P Require Import QuotaOps History Members Rights.
Open Scope Z_scope.

(** ** MIN over a table *)

Lemma mmin_spec {K V} `{Countable K} (f : K -> V -> option Z) (m : gmap K V) :
  match mmin f m with
  | None => forall k v, m !! k = Some v -> f k v = None
  | Some x => (exists k v, m !! k = Some v /\ f k v = Some x) /\
      forall k v y, m !! k = Some v -> f k v = Some y -> x <= y
  end.
Proof.
  unfold mmin. apply (map_fold_weak_ind (fun acc m =>
    match acc with
    | None => forall k v, m !! k = Some v -> f k v = None
    | Some x => (exists k v, m !! k = Some v /\ f k v = Some x) /\
        forall k v y, m !! k = Some v -> f k v = Some y -> x <= y
    end)).
  - intros k v Hk. by rewrite lookup_empty in Hk.
  - intros k v m' acc Hk IH. destruct (f k v) as [x|] eqn:Hf, acc as [y|]; simpl.
    + destruct IH as [(k' & v' & Hk' & Hf') Hmin]. split.
      * destruct (Z.min_spec x y) as [[_ ->]|[_ ->]].
        -- exists k, v. by rewrite lookup_insert_eq.
        -- exists k', v'. rewrite lookup_insert_ne; [done|]. congruence.
      * intros k2 v2 z [[<- <-]|[_ Hk2]]%lookup_insert_Some Hz; [simplify_eq; lia|].
        specialize (Hmin _ _ _ Hk2 Hz). lia.
    + split; [exists k, v; by rewrite lookup_insert_eq|].
      intros k2 v2 z [[<- <-]|[_ Hk2]]%lookup_insert_Some Hz; [simplify_eq; lia|].
      by rewrite (IH _ _ Hk2) in Hz.
    + destruct IH as [(k' & v' & Hk' & Hf') Hmin]. split.
      * exists k', v'. rewrite lookup_insert_ne; [done|]. congruence.
      * intros k2 v2 z [[<- <-]|[_ Hk2]]%lookup_insert_Some Hz; [congruence|by eapply Hmin].
    + intros k2 v2 [[<- <-]|[_ Hk2]]%lookup_insert_Some; [done|by eapply IH].
Qed.

(** ** The invariant *)

Definition numbered (d : Db) (m : MessageRow) : Prop :=
  exists cv, db_conversations d !! ms_conversation m = Some cv /\
    1 <= ms_sequence m <= cv_next_sequence cv.

(** A cursor value a recipient of room [c] may have. *)
Definition cursor_range (d : Db) (c : string) (v : Z) : Prop :=
  0 <= v /\ exists cv, db_conversations d !! c = Some cv /\ v <= cv_next_sequence cv.

(** No pending delivery of [r] in [c] is at or below [v]. *)
Definition passed (d : Db) (r c : string) (v : Z) : Prop :=
  forall id dl m, db_deliveries d !! id = Some dl -> pendingAt d r dl = Some m ->
    ms_conversation m = c -> v < ms_sequence m.

Definition cursors_ok (d : Db) : Prop :=
  delivery_refs d /\
  (forall c cv, db_conversations d !! c = Some cv -> 0 <= cv_next_sequence cv) /\
  (forall id m, db_messages d !! id = Some m -> numbered d m) /\
  (forall r c v, db_recipient_cursors d !! (r, c) = Some v -> cursor_range d c v /\ passed d r c v).

(** Rooms may be added, renamed and advanced. *)
Definition rooms_grow (d d' : Db) : Prop :=
  forall c cv, db_conversations d !! c = Some cv ->
    exists cv', db_conversations d' !! c = Some cv' /\ cv_next_sequence cv <= cv_next_sequence cv'.

Lemma cursors_rooms d x :
  (forall c cv, x !! c = Some cv -> 0 <= cv_next_sequence cv) ->
  rooms_grow d (set_conversations x d) -> cursors_ok d -> cursors_ok (set_conversations x d).
Proof.
  intros Hx Hg (Hrefs & Hn & Hm & Hc). split_and!; [exact Hrefs|exact Hx| |].
  - intros id m Hid. destruct (Hm id m Hid) as (cv & Hcv & ?).
    destruct (Hg _ _ Hcv) as (cv' & ? & ?). exists cv'. split; [done|]. lia.
  - intros r c v Hv. destruct (Hc r c v Hv) as [[? (cv & Hcv & ?)] Hp]. split; [|exact Hp].
    split; [done|]. destruct (Hg _ _ Hcv) as (cv' & ? & ?). exists cv'. split; [done|]. lia.
Qed.

Lemma cursors_new_room c cv :
  cv_next_sequence cv = 0 -> preserves cursors_ok (sql_insert t_conversations c cv).
Proof.
  intros H0 s u s' (_ & Hc & _ & _ & ->)%sql_insert_ok HI. pose proof HI as (_ & Hn & _).
  apply cursors_rooms; [| |done].
  - intros c' cv' [[_ <-]|[_ Hc']]%lookup_insert_Some; [lia|by eapply Hn].
  - intros c' cv' Hc'. exists cv'. split; [|lia]. cbn in *. rewrite lookup_insert_ne; [done|]. congruence.
Qed.

Lemma cursors_update_room c cond f :
  (forall cv, cv_next_sequence cv <= cv_next_sequence (f cv)) ->
  preserves cursors_ok (sql_update t_conversations c cond f).
Proof.
  intros Hf s n s' [(_ & -> & _)|(_ & cv & Hcv & _ & _ & _ & ->)]%sql_update_ok HI; [done|].
  cbn in Hcv. pose proof HI as (_ & Hn & _). apply cursors_rooms; [| |done].
  - intros c' cv' [[_ <-]|[_ Hc']]%lookup_insert_Some; [|by eapply Hn].
    specialize (Hf cv). specialize (Hn _ _ Hcv). lia.
  - intros c' cv' Hc'. cbn. destruct (decide (c = c')) as [->|Hne].
    + rewrite lookup_insert_eq. simplify_eq. eauto.
    + rewrite lookup_insert_ne by done. exists cv'. split; [done|lia].
Qed.

(** Deliveries may be leased and closed. *)
Lemma passed_ext d d' r c v :
  (forall id dl' m, db_deliveries d' !! id = Some dl' -> pendingMessage d' dl' = Some m ->
    exists id0 dl, db_deliveries d !! id0 = Some dl /\ pendingMessage d dl = Some m /\
      dl_recipient dl = dl_recipient dl') ->
  passed d r c v -> passed d' r c v.
Proof.
  intros Hd Hp id dl' m Hid Hm Hc. unfold pendingAt in Hm. case_bool_decide as Hr; [|done].
  destruct (Hd id dl' m Hid Hm) as (id0 & dl & Hid0 & Hm0 & Hr0). eapply (Hp id0 dl m); [done| |done].
  unfold pendingAt. rewrite bool_decide_true; [done|congruence].
Qed.

Lemma cursors_deliveries d x :
  delivery_refs (set_deliveries x d) ->
  (forall id dl' m, x !! id = Some dl' -> pendingMessage d dl' = Some m ->
    exists id0 dl, db_deliveries d !! id0 = Some dl /\ pendingMessage d dl = Some m /\
      dl_recipient dl = dl_recipient dl') ->
  cursors_ok d -> cursors_ok (set_deliveries x d).
Proof.
  intros Hrefs Hx (_ & Hn & Hm & Hc). split_and!; [exact Hrefs|exact Hn|exact Hm|].
  intros r c v Hv. destruct (Hc r c v Hv) as [? Hp]. split; [done|].
  by apply (passed_ext d).
Qed.

Lemma cursors_update id cond f :
  not_reopened f -> preserves cursors_ok (sql_update t_deliveries id cond f).
Proof.
  intros Hf s n s' [(_ & -> & _)|(_ & dl & Hid & _ & _ & _ & ->)]%sql_update_ok HI; [done|].
  cbn in Hid. destruct (Hf dl) as (Hm & Hr & _). apply cursors_deliveries; [| |done].
  - destruct HI as (Hrefs & _). by eapply delivery_update_refs.
  - intros id' dl' m [[_ <-]|[_ Hid']]%lookup_insert_Some Hp; [|eauto].
    exists id, dl. split_and!; [done| |done]. by eapply not_reopened_pending.
Qed.

Lemma cursors_update_where cond f :
  not_reopened f -> preserves cursors_ok (sql_update_where t_deliveries cond f).
Proof.
  intros Hf s n s' [[-> _]|(_ & _ & ->)]%sql_update_where_ok HI; [done|].
  assert (forall id dl', map_imap (fun k v => Some (if (cond k v : bool) then f v else v))
      (db_deliveries (st_db s)) !! id = Some dl' ->
    exists dl, db_deliveries (st_db s) !! id = Some dl /\ (dl' = dl \/ dl' = f dl)) as Hrow.
  { intros id dl'. rewrite lookup_imap_upd. intros (dl & Hid & ->)%fmap_Some.
    exists dl. split; [done|]. destruct (cond id dl); auto. }
  apply cursors_deliveries; [| |done].
  - destruct HI as (Hrefs & _). intros id dl' (dl & Hid & Hdl)%Hrow. cbn.
    destruct (Hf dl) as (Hm & _). destruct Hdl as [->| ->]; [by eapply Hrefs|]. rewrite Hm. by eapply Hrefs.
  - intros id dl' m (dl & Hid & Hdl)%Hrow Hp. exists id, dl. destruct (Hf dl) as (_ & Hr & _).
    destruct Hdl as [->| ->]; [done|]. split_and!; [done| |done]. by eapply not_reopened_pending.
Qed.

(** ** Moving a cursor *)

Lemma set_cursor d r c v :
  cursors_ok d -> cursor_range d c v -> passed d r c v ->
  cursors_ok (set_recipient_cursors (<[(r, c) := v]> (db_recipient_cursors d)) d).
Proof.
  intros (Hrefs & Hn & Hm & Hc) Hv Hp. split_and!; [exact Hrefs|exact Hn|exact Hm|].
  intros r' c' v' Hv'. cbn in Hv'. apply lookup_insert_Some in Hv' as [[[= <- <-] <-]|[_ Hv']].
  - by split.
  - by apply Hc.
Qed.

(** A cursor at zero passes nothing. *)
Lemma zero_cursor d r c : cursors_ok d -> is_Some (db_conversations d !! c) ->
  cursor_range d c 0 /\ passed d r c 0.
Proof.
  intros (Hrefs & Hn & Hm & _) [cv Hcv]. split.
  - split; [lia|]. exists cv. split; [done|]. by eapply Hn.
  - intros id dl m Hid Hp _. unfold pendingAt, pendingMessage in Hp.
    case_bool_decide; [|done]. destruct (dl_acked dl); [done|].
    destruct (Hm _ _ Hp) as (? & _ & ?). lia.
Qed.

(** The next pending sequence above a sound cursor bounds all of them. *)
Lemma next_pending d r c v :
  cursors_ok d -> cursor_range d c v -> passed d r c v ->
  match mmin (fun _ => pendingSequence d r c v) (db_deliveries d) with
  | Some next => v <= next - 1 /\ cursor_range d c (next - 1) /\ passed d r c (next - 1)
  | None => forall w, passed d r c w
  end.
Proof.
  intros HI [Hv0 (cv & Hcv & Hvc)] Hp.
  pose proof (mmin_spec (fun _ => pendingSequence d r c v) (db_deliveries d)) as Hmin.
  assert (forall id dl m, db_deliveries d !! id = Some dl -> pendingAt d r dl = Some m ->
    ms_conversation m = c -> pendingSequence d r c v dl = Some (ms_sequence m)) as Hseq.
  { intros id dl m Hid Hm Hc. unfold pendingSequence. rewrite Hm, bool_decide_true by done.
    specialize (Hp id dl m Hid Hm Hc). simpl. by destruct (Z.ltb_spec v (ms_sequence m)); [|lia]. }
  destruct (mmin _ _) as [next|].
  - destruct Hmin as [(id & dl & Hid & Hs) Hmin]. unfold pendingSequence in Hs.
    destruct (pendingAt d r dl) as [m|] eqn:Hm; [|done].
    destruct (_ && _) eqn:Hb; [|done]. simplify_eq. bool_hyps. subst.
    split_and!; [lia| |].
    + assert (numbered d m) as (cv' & Hcv' & ?).
      { destruct HI as (_ & _ & Hmsg & _). unfold pendingAt, pendingMessage in Hm.
        case_bool_decide; [|done]. destruct (dl_acked dl); [done|]. by eapply Hmsg. }
      simplify_eq. split; [lia|]. exists cv. split; [done|]. lia.
    + intros id' dl' m' Hid' Hm' Hc'. pose proof (Hmin _ _ _ Hid' (Hseq _ _ _ Hid' Hm' Hc')). lia.
  - intros w id dl m Hid Hm Hc. specialize (Hmin id dl Hid). simpl in Hmin.
    by rewrite (Hseq _ _ _ Hid Hm Hc) in Hmin.
Qed.

(** What a cursor advance does. *)
Definition only_cursor (r c : string) (d d' : Db) : Prop :=
  exists x, d' = set_recipient_cursors x d /\
    (forall k, k <> (r, c) -> x !! k = db_recipient_cursors d !! k) /\
    (forall v, db_recipient_cursors d !! (r, c) = Some v -> exists v', x !! (r, c) = Some v' /\ v <= v').

Lemma only_cursor_refl r c d : only_cursor r c d d.
Proof. exists (db_recipient_cursors d). split_and!; [by destruct d|done|]. intros v Hv. exists v. split; [done|lia]. Qed.

Lemma only_cursor_set r c d d' v :
  only_cursor r c d d' -> (forall w, db_recipient_cursors d' !! (r, c) = Some w -> w <= v) ->
  only_cursor r c d (set_recipient_cursors (<[(r, c) := v]> (db_recipient_cursors d')) d').
Proof.
  intros (x & -> & Hx & Hv) Hmax. exists (<[(r, c) := v]> x). split_and!; [done|..].
  - intros k Hk. by rewrite lookup_insert_ne by congruence; apply Hx.
  - intros w Hw. rewrite lookup_insert_eq. exists v. split; [done|]. destruct (Hv w Hw) as (w' & Hw' & ?).
    specialize (Hmax w' Hw'). lia.
Qed.

Lemma advance_ok r c u s s' :
  advanceRecipientCursor r c s = (inr u, s') -> cursors_ok (st_db s) ->
  cursors_ok (st_db s') /\ only_cursor r c (st_db s) (st_db s').
Proof.
  intros Ha HI. unfold advanceRecipientCursor in Ha. tx_inv Ha.
  assert (cursors_ok (st_db s0) /\ only_cursor r c (st_db s) (st_db s0)) as [HI0 Ho].
  { apply sql_insert_or_ignore_ok in Hm as (_ & [[-> _]|(Hn & _ & Hfk & ->)]); [by split; [|apply only_cursor_refl]|].
    cbn in Hfk. apply has_true in Hfk. destruct (zero_cursor (st_db s) r c HI Hfk) as [Hr Hp]. split.
    - by apply set_cursor.
    - apply only_cursor_set; [apply only_cursor_refl|]. cbn in Hn. intros w Hw. congruence. }
  clear Hm HI. pose proof HI0 as (_ & _ & _ & Hc).
  destruct (Hc r c a0 Hm0) as [Hrange Hp]. pose proof (next_pending _ _ _ _ HI0 Hrange Hp) as Hnext.
  assert (s1 = s0 /\ cursor_range (st_db s0) c a1 /\ passed (st_db s0) r c a1) as (-> & Hrange1 & Hp1).
  { destruct (mmin _ _) as [next|]; tx_inv Hm1; [by destruct Hnext as (_ & ? & ?)|]. split_and!; [done| |done].
    destruct (db_conversations _ !! c) as [cv|] eqn:Hcv; [|done]. cbn in Hm1. simplify_eq.
    split; [|exists cv; split; [done|lia]]. destruct HI0 as (_ & Hn & _). by eapply Hn. }
  destruct (Z.ltb_spec a0 a1); tx_inv Ha; [|done].
  apply sql_update_ok in Hm as [(_ & -> & _)|(_ & v & Hv & _ & _ & _ & ->)]; [done|]. split.
  - by apply set_cursor.
  - apply only_cursor_set; [done|]. intros w Hw. rewrite Hm0 in Hw. simplify_eq. lia.
Qed.

Lemma advance_cursors r c : preserves cursors_ok (advanceRecipientCursor r c).
Proof. intros s u s' Ha HI. by apply advance_ok in Ha as [? _]. Qed.

#[export] Hint Resolve advance_cursors : preserve.
#[export] Hint Extern 1 (preserves cursors_ok (sql_update t_deliveries _ _ _)) =>
  apply cursors_update; by intros ? : preserve.
#[export] Hint Extern 1 (preserves cursors_ok (sql_update_where t_deliveries _ _)) =>
  apply cursors_update_where; by intros ? : preserve.
#[export] Hint Extern 1 (preserves cursors_ok (sql_insert t_conversations _ _)) =>
  apply cursors_new_room; reflexivity : preserve.
#[export] Hint Extern 1 (preserves cursors_ok (sql_update t_conversations _ _ _)) =>
  apply cursors_update_room; intros ?; cbn; lia : preserve.

(** ** New messages and deliveries *)

(** The message just numbered: its number is the room's last, so no cursor is
    past the one before, and nobody has a delivery of it yet. *)
Definition cursor_before (d : Db) (c : string) (n : Z) (r : string) : Prop :=
  forall v, db_recipient_cursors d !! (r, c) = Some v -> v < n.

Lemma cursors_message id m u s s' :
  sql_insert t_messages id m s = (inr u, s') -> numbered (st_db s) m ->
  cursors_ok (st_db s) -> cursors_ok (st_db s').
Proof.
  intros (_ & Hid & _ & _ & ->)%sql_insert_ok Hm (Hrefs & Hn & Hmsg & Hc). cbn in Hid.
  assert (forall id' dl, db_deliveries (st_db s) !! id' = Some dl -> dl_message dl <> id) as Hne.
  { intros id' dl Hdl Heq. destruct (Hrefs id' dl Hdl) as [? ?]. congruence. }
  split_and!; [|exact Hn| |].
  - intros id' dl Hdl. cbn in *. rewrite lookup_insert_is_Some'. right. by eapply Hrefs.
  - intros id' m' Hid'. cbn in Hid'. apply lookup_insert_Some in Hid' as [[_ <-]|[_ Hid']]; [exact Hm|].
    by eapply Hmsg.
  - intros r c v Hv. destruct (Hc r c v Hv) as [? Hp]. split; [done|]. apply (passed_ext (st_db s)); [|done].
    intros id' dl m' Hdl Hp'. exists id', dl. split_and!; [done| |done]. revert Hp'.
    unfold pendingMessage. cbn. destruct (dl_acked dl); [done|].
    rewrite lookup_insert_ne; [done|]. intros Heq. by eapply Hne.
Qed.

Lemma cursors_delivery id dl m u s s' :
  sql_insert t_deliveries id dl s = (inr u, s') -> db_messages (st_db s) !! dl_message dl = Some m ->
  cursor_before (st_db s) (ms_conversation m) (ms_sequence m) (dl_recipient dl) ->
  cursors_ok (st_db s) -> cursors_ok (st_db s').
Proof.
  intros (_ & Hid & _ & _ & ->)%sql_insert_ok Hm Hb (Hrefs & Hn & Hmsg & Hc).
  split_and!; [|exact Hn|exact Hmsg|].
  - intros id' dl' Hid'. cbn in *. apply lookup_insert_Some in Hid' as [[_ <-]|[_ ?]]; [eauto|by eapply Hrefs].
  - intros r c v Hv. destruct (Hc r c v Hv) as [? Hp]. split; [done|].
    intros id' dl' m' Hid' Hp' Hc'. cbn in Hid'. apply lookup_insert_Some in Hid' as [[_ <-]|[_ Hid']].
    + unfold pendingAt, pendingMessage in Hp'. case_bool_decide as Hr; [|done].
      destruct (dl_acked dl); [done|]. cbn in Hp'. simplify_eq. by apply Hb.
    + by eapply (Hp id' dl' m').
Qed.

Section Accept.
Context `{Env}.

(** Message [id] is stored, and the recipients of [rs] have not passed it. *)
Definition awaiting (id : string) (m : MessageRow) (rs : list string) (d : Db) : Prop :=
  db_messages d !! id = Some m /\
  forall r, r ∈ rs -> cursor_before d (ms_conversation m) (ms_sequence m) r.

Definition routing (id : string) (m : MessageRow) (rs : list string) (d : Db) : Prop :=
  cursors_ok d /\ awaiting id m rs d.

Lemma insertDelivery_routing id m rs r :
  r ∈ rs -> preserves (routing id m rs) (insertDelivery id r).
Proof.
  intros Hr s u s' Hi [HI Ha]. split; [|by step_back Hi]. unfold insertDelivery in Hi. tx_inv Hi.
  destruct Ha as [Hm Hb]. eapply (cursors_delivery _ _ m _ _ _ Hi); [done| |done].
  by apply Hb.
Qed.

Lemma advance_routing id m rs r c :
  r ∉ rs -> preserves (routing id m rs) (advanceRecipientCursor r c).
Proof.
  intros Hr s u s' Ha [HI [Hm Hb]]. apply advance_ok in Ha as [HI' (x & Heq & Hx & _)]; [|done].
  split; [done|]. rewrite Heq. split; [done|]. intros r' Hr' v Hv. cbn in Hv.
  rewrite Hx in Hv; [by eapply Hb|]. intros [= -> _]. done.
Qed.

(** The recipients [storeMessage] writes a delivery for. *)
Definition delivered (target : string) (endpoints roles : list string) : list string :=
  routedEndpoints target endpoints ++ routedRoles target roles.

Lemma routed_valid target endpoints e :
  (forall e, e ∈ endpoints -> ValidEndpoint e = true) ->
  e ∈ routedEndpoints target endpoints -> ValidEndpoint e = true.
Proof. intros Hv [_ He]%list_elem_of_filter. by apply Hv. Qed.

Lemma endpoint_not_role e r : ValidEndpoint e = true -> e <> roleRecipient r.
Proof. intros He ->. unfold ValidEndpoint in He. by rewrite roleRecipient_not_valid in He. Qed.

Lemma routeEndpoint_routing c id m target endpoints roles e :
  (forall e, e ∈ endpoints -> ValidEndpoint e = true) -> e ∈ endpoints ->
  preserves (routing id m (delivered target endpoints roles)) (routeEndpoint c id target e).
Proof.
  intros Hv He. unfold routeEndpoint. destruct (_ || _) eqn:Hb.
  - apply insertDelivery_routing, elem_of_app. left. apply list_elem_of_filter.
    split; [|done]. bool_or; naive_solver.
  - apply advance_routing. intros [Hin|Hin]%elem_of_app.
    + apply list_elem_of_filter in Hin as [Hcond _]. bool_or; naive_solver.
    + apply list_elem_of_fmap in Hin as (r & Heq & _). by apply (endpoint_not_role e r); [apply Hv|].
Qed.

Lemma roleRecipient_inj r r' : roleRecipient r = roleRecipient r' -> r = r'.
Proof. unfold roleRecipient. intros [= Heq]. exact Heq. Qed.

Lemma routeRole_routing c id m target endpoints roles r :
  (forall e, e ∈ endpoints -> ValidEndpoint e = true) -> r ∈ roles ->
  preserves (routing id m (delivered target endpoints roles)) (routeRole c id target r).
Proof.
  intros Hv Hr.
  assert (roleRecipient r ∈ delivered target endpoints roles ->
    target <> TelegramUserParticipant /\ (target = "" \/ r = target)) as Hin.
  { intros [Hin|Hin]%elem_of_app.
    - apply routed_valid in Hin; [|done]. by destruct (endpoint_not_role _ r Hin).
    - apply list_elem_of_fmap in Hin as (r' & ->%roleRecipient_inj & Hin).
      by apply list_elem_of_filter in Hin as [? _]. }
  unfold routeRole. case_bool_decide as Ht; [|destruct (_ || _) eqn:Hb].
  - apply advance_routing. intros ?%Hin. naive_solver.
  - apply insertDelivery_routing, elem_of_app. right. apply list_elem_of_fmap_2, list_elem_of_filter.
    split; [|done]. bool_or; naive_solver.
  - apply advance_routing. intros ?%Hin. bool_or; naive_solver.
Qed.

Lemma storeMessage_cursors id m target u s s' :
  storeMessage id m target s = (inr u, s') -> members_valid (st_db s) -> numbered (st_db s) m ->
  (forall r, cursor_before (st_db s) (ms_conversation m) (ms_sequence m) r) ->
  cursors_ok (st_db s) -> cursors_ok (st_db s').
Proof.
  intros Hs Hmv Hnum Hb HI. unfold storeMessage in Hs. tx_inv Hs.
  set (endpoints := receivingEndpoints (st_db s0) (ms_conversation m) (ms_from m)) in *.
  set (roles := receivingRoles (st_db s1) (ms_conversation m)) in *.
  assert (forall e, e ∈ endpoints -> ValidEndpoint e = true) as Hv.
  { assert (members_valid (st_db s0)) as Hmv0 by by step_back Hm.
    intros e (v & Hv & _)%elem_of_receivingEndpoints. by eapply Hmv0. }
  assert (routing id m (delivered target endpoints roles) (st_db s0)) as HR.
  { split; [by eapply cursors_message|].
    apply sql_insert_ok in Hm as (_ & _ & _ & _ & ->). split; [cbn; by rewrite lookup_insert_eq|].
    intros r _. apply Hb. }
  assert (routing id m (delivered target endpoints roles) (st_db s1)) as HR1.
  { revert HR. eapply (preserved _ _ _ _ _ Hm0). apply preserves_for_each. intros e He.
    by apply routeEndpoint_routing. }
  assert (routing id m (delivered target endpoints roles) (st_db s')) as [? _]; [|done].
  revert HR1. eapply (preserved _ _ _ _ _ Hs). apply preserves_for_each. intros r Hr.
  by apply routeRole_routing.
Qed.

Lemma allocate_ok c n s s' :
  allocateSequence c s = (inr n, s') -> cursors_ok (st_db s) ->
  cursors_ok (st_db s') /\ 1 <= n /\
  (exists cv, db_conversations (st_db s') !! c = Some cv /\ cv_next_sequence cv = n) /\
  forall r, cursor_before (st_db s') c n r.
Proof.
  intros Ha HI. unfold allocateSequence in Ha. tx_inv Ha.
  pose proof (cursors_update_room c _ bumpSequence ltac:(intros; cbn; lia) _ _ _ Hm HI) as HI'.
  apply sql_update_ok in Hm as [(-> & _)|(_ & cv & Hcv & _ & _ & _ & ->)]; [done|].
  cbn in Ha, Hcv. rewrite lookup_insert_eq in Ha. cbn in Ha. simplify_eq.
  destruct HI as (_ & Hn & _ & Hc). split_and!; [done| | |].
  - specialize (Hn _ _ Hcv). lia.
  - exists (bumpSequence cv). split; [cbn; by rewrite lookup_insert_eq|done].
  - intros r v Hv. destruct (Hc r c v Hv) as [[_ (cv' & Hcv' & ?)] _]. simplify_eq. lia.
Qed.

Lemma acceptMessage_cursors machineID key requestHash target now row c from body :
  (forall n, ms_conversation (row n) = c /\ ms_sequence (row n) = n) ->
  forall a s s', acceptMessage machineID key requestHash target now row c from body s = (inr a, s') ->
  members_valid (st_db s) -> cursors_ok (st_db s) -> cursors_ok (st_db s').
Proof.
  intros Hrow a s s' Ha Hmv HI. unfold acceptMessage in Ha. tx_inv Ha.
  assert (cursors_ok (st_db s2)) as HI2 by (step_back Hm1; step_back Hm0; by step_back Hm).
  assert (members_valid (st_db s2)) as Hmv2 by (step_back Hm1; step_back Hm0; by step_back Hm).
  assert (members_valid (st_db s3)) as Hmv3 by by step_back Hm2.
  apply allocate_ok in Hm2 as (HI3 & Hpos & (cv & Hcv & Hn) & Hb); [|done].
  destruct (Hrow a3) as [Hc Hs].
  step_back Hm5. step_back Hm4. eapply storeMessage_cursors; [exact Hm3|done| | |done].
  - exists cv. rewrite Hc, Hs. split; [done|]. lia.
  - by rewrite Hc, Hs.
Qed.

Lemma append_cursors input : keeps_given members_valid cursors_ok (AppendMessage input).
Proof.
  unfold AppendMessage, validBody. keep_given. intros s r s' Ht HJ HI.
  apply appendTransaction_ok in Ht as [(_ & -> & _)|(_ & _ & Ha & _)]; [done|].
  by eapply acceptMessage_cursors in Ha.
Qed.

Lemma inbound_cursors input : keeps_given members_valid cursors_ok (AppendTelegramInbound input).
Proof.
  unfold AppendTelegramInbound, ValidateTelegramInbound. keep_given. intros s r s' Ht HJ HI.
  apply inboundTransaction_ok in Ht as [(_ & -> & _)|(_ & Ha & _)]; [done|].
  by eapply acceptMessage_cursors in Ha.
Qed.

Lemma direct_room_cursors low high from to now :
  preserves cursors_ok (getOrCreateDirectConversation low high from to now).
Proof.
  intros s c s' Hg HI.
  apply getOrCreateDirectConversation_ok in Hg as [(row & _ & _ & ->)|(_ & Hc & _ & ->)]; [done|].
  change (cursors_ok (set_conversations (<[c := newConversationRow now None]>
    (db_conversations (st_db s))) (st_db s))).
  pose proof HI as (_ & Hn & _). apply cursors_rooms; [| |done].
  - intros c' cv' [[_ <-]|[_ Hc']]%lookup_insert_Some; [done|by eapply Hn].
  - intros c' cv' Hc'. exists cv'. split; [|lia]. cbn. rewrite lookup_insert_ne; [done|]. congruence.
Qed.
#[local] Hint Resolve direct_room_cursors : preserve.

Lemma sendDirect_cursors input low high requestHash now :
  preserves cursors_ok (sendDirect input low high requestHash now).
Proof.
  intros s a s' Hs HI. unfold sendDirect in Hs. tx_inv Hs.
  assert (cursors_ok (st_db s4)) as HI4.
  { step_back Hm3. step_back Hm2. step_back Hm1. step_back Hm0. by step_back Hm. }
  apply allocate_ok in Hm4 as (HI5 & Hpos & (cv & Hcv & Hn) & Hb); [|done].
  set (id := uuid_NewString (st_supply s4)) in *. set (row := directRow _ _ _ _ _) in *.
  set (rs := [roleRecipient (dm_ToRole input)]).
  assert (routing id row rs (st_db s6)) as HR.
  { split.
    - eapply cursors_message; [exact Hm5| |done]. exists cv. split; [done|]. cbn. lia.
    - apply sql_insert_ok in Hm5 as (_ & _ & _ & _ & ->). split; [cbn; by rewrite lookup_insert_eq|].
      intros r _. apply Hb. }
  assert (routing id row rs (st_db s8)) as [HI8 _].
  { assert (routing id row rs (st_db s7)) as HR7 by by step_back Hm6. revert HR7.
    apply (preserved _ _ _ _ _ Hm7). apply insertDelivery_routing. set_solver. }
  step_back Hm10. step_back Hm9. by step_back Hm8.
Qed.

Lemma directTransaction_cursors input low high requestHash now :
  preserves cursors_ok (directTransaction input low high requestHash now).
Proof.
  intros s r s' [(-> & _)|(_ & Ha & _)]%directTransaction_ok HI; [done|].
  exact (sendDirect_cursors _ _ _ _ _ _ _ _ Ha HI).
Qed.
#[local] Hint Resolve directTransaction_cursors : preserve.

Lemma op_cursors op : keeps_given members_valid cursors_ok (run_op op).
Proof.
  destruct op; simpl; lazymatch goal with
  | |- keeps_given _ _ (void (AppendMessage _)) => apply keeps_given_void, append_cursors
  | |- keeps_given _ _ (void (AppendTelegramInbound _)) => apply keeps_given_void, inbound_cursors
  | _ => apply keeps_given_of; try apply keeps_void; keep_maintain; keep; preserve
  end.
Qed.

#[export] Instance cursors_invariant : RelayInvariant (fun d => members_valid d /\ cursors_ok d).
Proof.
  split.
  - apply Stable_under; [apply _|intros p d HI; exact HI|exact op_cursors].
  - split; [apply inv_empty|]. split_and!; by intros ? ?.
Qed.

(** A recipient's cursor never passes mail it has not dealt with: in every
    reachable state the cursor lies between zero and the room's last sequence
    number, strictly below every pending delivery of that recipient there. *)
Theorem cursor_below_pending r c v s :
  reachable s -> db_recipient_cursors (st_db s) !! (r, c) = Some v ->
  (exists cv, db_conversations (st_db s) !! c = Some cv /\ 0 <= v <= cv_next_sequence cv) /\
  forall id dl m, db_deliveries (st_db s) !! id = Some dl -> pendingAt (st_db s) r dl = Some m ->
    ms_conversation m = c -> v < ms_sequence m.
Proof.
  intros Hs Hv. pose proof (reachable_invariant _ _ Hs : members_valid _ /\ cursors_ok _) as [_ HC].
  destruct HC as (_ & _ & _ & Hc). destruct (Hc r c v Hv) as [[H0 (cv & Hcv & Hle)] Hp].
  split; [by exists cv|exact Hp].
Qed.
End Accept.

(** ** Cursors never move back *)

Definition cursors_grow (d0 d : Db) : Prop :=
  forall k v, db_recipient_cursors d0 !! k = Some v ->
    exists v', db_recipient_cursors d !! k = Some v' /\ v <= v'.

Lemma advance_grows d0 r c : preserves (cursors_grow d0) (advanceRecipientCursor r c).
Proof.
  intros s u s' Ha HI. unfold advanceRecipientCursor in Ha. tx_inv Ha.
  assert (cursors_grow d0 (st_db s0)) as HI0.
  { apply sql_insert_or_ignore_ok in Hm as (_ & [[-> _]|(Hn & _ & _ & ->)]); [done|].
    intros k v Hk. destruct (HI k v Hk) as (v' & Hv' & Hle). exists v'. split; [|done]. cbn in *.
    rewrite lookup_insert_ne; [done|]. congruence. }
  assert (s1 = s0) as -> by by destruct (mmin _ _); tx_inv Hm1.
  destruct (Z.ltb_spec a0 a1); tx_inv Ha; [|done].
  apply sql_update_ok in Hm2 as [(_ & -> & _)|(_ & w & Hw & Heq & _ & _ & ->)]; [done|].
  intros k v Hk. destruct (HI0 k v Hk) as (v' & Hv' & Hle). cbn in *.
  destruct (decide (k = (r, c))) as [->|Hne].
  - rewrite lookup_insert_eq. exists a1. split; [done|]. apply Z.eqb_eq in Heq. simplify_eq. lia.
  - rewrite lookup_insert_ne by done. by exists v'.
Qed.
#[export] Hint Resolve advance_grows : preserve.

#[export] Instance cursors_grow_stable `{Env} d0 : Stable (cursors_grow d0).
Proof. split; [intros p d HI; exact HI|]. intros op. keep_op. Qed.

(** Cursors are monotone: no sequence of operations moves a recipient's
    cursor in a room back. *)
Theorem cursor_monotone `{Env} k v s s' :
  rtc step s s' -> db_recipient_cursors (st_db s) !! k = Some v ->
  exists v', db_recipient_cursors (st_db s') !! k = Some v' /\ v <= v'.
Proof.
  intros Hs Hk. assert (cursors_grow (st_db s) (st_db s)) as HI.
  { intros k' v' Hk'. exists v'. split; [done|lia]. }
  apply (stable_steps _ _ _ Hs) in HI. by apply HI.
Qed.

(** * Sequence numbers: gap-free and unique per room

    The messages of a room carry the numbers 1, 2, ..., next_sequence, each
    exactly once; and the counters recipients rely on never move back. *)

(** ** Uniqueness *)

Definition unique_sequences (d : Db) : Prop :=
  forall id id' m m', db_messages d !! id = Some m -> db_messages d !! id' = Some m' ->
    ms_conversation m = ms_conversation m' -> ms_sequence m = ms_sequence m' -> id = id'.

Lemma unique_insert id m : preserves unique_sequences (sql_insert t_messages id m).
Proof.
  intros s u s' (_ & Hid & Hrow & _ & ->)%sql_insert_ok HI. cbn in Hid.
  assert (forall id' m', db_messages (st_db s) !! id' = Some m' -> id' <> id ->
    ms_conversation m' = ms_conversation m -> ms_sequence m' = ms_sequence m -> False) as Hno.
  { intros id' m' Hm' Hne Hc Hs. unfold row_ok in Hrow. cbn in Hrow.
    apply negb_true_iff in Hrow. eapply mexists_false in Hrow; [|exact Hm'].
    rewrite bool_decide_false, bool_decide_true in Hrow by done. simpl in Hrow. lia. }
  intros i j mi mj Hi Hj Hc Hs. cbn in Hi, Hj.
  apply lookup_insert_Some in Hi as [[<- <-]|[Hni Hi]], Hj as [[<- <-]|[Hnj Hj]]; [done|..].
  - by destruct (Hno j mj).
  - by destruct (Hno i mi).
  - by eapply HI.
Qed.
#[export] Hint Resolve unique_insert : preserve.

(** ** No gaps *)

(** Room [c] has a message for each number up to its last, except perhaps the
    last one of [pending]. *)
Definition dense_but (exempt : option string) (d : Db) : Prop :=
  forall c cv n, db_conversations d !! c = Some cv ->
    1 <= n <= (if bool_decide (exempt = Some c) then cv_next_sequence cv - 1 else cv_next_sequence cv) ->
    exists id m, db_messages d !! id = Some m /\ ms_conversation m = c /\ ms_sequence m = n.

Abbreviation dense := (dense_but None).

Lemma dense_new_room c cv :
  cv_next_sequence cv = 0 -> preserves dense (sql_insert t_conversations c cv).
Proof.
  intros H0 s u s' (_ & _ & _ & _ & ->)%sql_insert_ok HI c' cv' n Hc'. cbn in Hc'.
  apply lookup_insert_Some in Hc' as [[_ <-]|[_ Hc']]; [|by eapply HI].
  case_bool_decide; [done|]. lia.
Qed.

Lemma dense_rename c cond f :
  (forall cv, cv_next_sequence (f cv) = cv_next_sequence cv) ->
  preserves dense (sql_update t_conversations c cond f).
Proof.
  intros Hf s u s' [(_ & -> & _)|(_ & cv & Hcv & _ & _ & _ & ->)]%sql_update_ok HI; [done|].
  intros c' cv' n Hc'. cbn in Hc', Hcv. apply lookup_insert_Some in Hc' as [[<- <-]|[_ Hc']].
  - rewrite Hf. by eapply HI.
  - by eapply HI.
Qed.

Lemma dense_message exempt id m : preserves (dense_but exempt) (sql_insert t_messages id m).
Proof.
  intros s u s' (_ & Hid & _ & _ & ->)%sql_insert_ok HI c cv n Hc Hn.
  destruct (HI c cv n Hc Hn) as (id' & m' & Hm' & ? & ?). exists id', m'. cbn in *.
  rewrite lookup_insert_ne; [done|]. congruence.
Qed.

#[export] Hint Resolve dense_message : preserve.
#[export] Hint Extern 1 (preserves dense (sql_insert t_conversations _ _)) =>
  apply dense_new_room; reflexivity : preserve.
#[export] Hint Extern 1 (preserves dense (sql_update t_conversations _ _ (renameRow _))) =>
  apply dense_rename; reflexivity : preserve.

Lemma allocate_dense c n s s' :
  allocateSequence c s = (inr n, s') -> dense (st_db s) ->
  dense_but (Some c) (st_db s') /\
  exists cv, db_conversations (st_db s') !! c = Some cv /\ cv_next_sequence cv = n.
Proof.
  intros Ha HI. unfold allocateSequence in Ha. tx_inv Ha.
  apply sql_update_ok in Hm as [(-> & _)|(_ & cv & Hcv & _ & _ & _ & ->)]; [done|].
  cbn in Ha, Hcv. rewrite lookup_insert_eq in Ha. cbn in Ha. simplify_eq. split.
  - intros c' cv' k Hc' Hk. cbn in Hc'. apply lookup_insert_Some in Hc' as [[<- <-]|[Hne Hc']].
    + rewrite bool_decide_true in Hk by done. cbn in Hk. apply (HI c cv); [done|].
      rewrite bool_decide_false by done. lia.
    + rewrite bool_decide_false in Hk by congruence. by eapply HI.
  - exists (bumpSequence cv). split; [cbn; by rewrite lookup_insert_eq|done].
Qed.

(** Storing the message that got the last number closes the gap. *)
Lemma message_fills id m u s s' :
  sql_insert t_messages id m s = (inr u, s') ->
  (exists cv, db_conversations (st_db s) !! ms_conversation m = Some cv /\
    cv_next_sequence cv = ms_sequence m) ->
  dense_but (Some (ms_conversation m)) (st_db s) -> dense (st_db s').
Proof.
  intros Hi (cv & Hcv & Hn) HI. pose proof (dense_message _ _ _ _ _ _ Hi HI) as HI'.
  apply sql_insert_ok in Hi as (_ & _ & _ & _ & ->).
  intros c cv' n Hc Hk. rewrite bool_decide_false in Hk by done.
  destruct (decide (c = ms_conversation m /\ n = ms_sequence m)) as [[-> ->]|Hne].
  - exists id, m. cbn. by rewrite lookup_insert_eq.
  - eapply (HI' c cv'); [done|]. case_bool_decide as Hd; [|done]. injection Hd as <-.
    cbn in Hc. simplify_eq. destruct (decide (n = ms_sequence m)); [|lia].
    exfalso. apply Hne. split; [done|]. congruence.
Qed.

Section Dense.
Context `{Env}.

Lemma direct_room_dense low high from to now :
  preserves dense (getOrCreateDirectConversation low high from to now).
Proof.
  intros s c s' Hg HI.
  apply getOrCreateDirectConversation_ok in Hg as [(row & _ & _ & ->)|(_ & Hc & _ & ->)]; [done|].
  intros c' cv' n Hc' Hn. cbn in Hc'. apply lookup_insert_Some in Hc' as [[_ <-]|[_ Hc']].
  - case_bool_decide; [done|]. cbn in Hn. lia.
  - by eapply HI.
Qed.
#[local] Hint Resolve direct_room_dense : preserve.

Lemma acceptMessage_dense machineID key requestHash target now row c from body :
  (forall n, ms_conversation (row n) = c /\ ms_sequence (row n) = n) ->
  preserves dense (acceptMessage machineID key requestHash target now row c from body).
Proof.
  intros Hrow s a s' Ha HI. unfold acceptMessage in Ha. tx_inv Ha.
  assert (dense (st_db s2)) as HI2 by (step_back Hm1; step_back Hm0; by step_back Hm).
  apply allocate_dense in Hm2 as (HI3 & cv & Hcv & Hn); [|done]. destruct (Hrow a3) as [Hc Hs].
  step_back Hm5. step_back Hm4. unfold storeMessage in Hm3. tx_inv Hm3.
  step_back Hm3. step_back Hm6. by eapply message_fills; [exact Hm2|exists cv|].
Qed.
#[local] Hint Extern 1 (preserves dense (acceptMessage _ _ _ _ _ _ _ _ _)) =>
  apply acceptMessage_dense; by intros ? : preserve.

Lemma sendDirect_dense input low high requestHash now :
  preserves dense (sendDirect input low high requestHash now).
Proof.
  intros s a s' Hs HI. unfold sendDirect in Hs. tx_inv Hs.
  assert (dense (st_db s4)) as HI4.
  { step_back Hm3. step_back Hm2. step_back Hm1. step_back Hm0. by step_back Hm. }
  apply allocate_dense in Hm4 as (HI5 & cv & Hcv & Hn); [|done].
  step_back Hm10. step_back Hm9. step_back Hm8. step_back Hm7. step_back Hm6.
  eapply message_fills; [exact Hm5|by exists cv|done].
Qed.
#[local] Hint Resolve sendDirect_dense : preserve.

Lemma op_dense op : keeps dense (run_op op).
Proof. keep_op. Qed.

#[export] Instance dense_invariant : RelayInvariant dense.
Proof. split; [split; [intros p d HI; exact HI|exact op_dense]|]. by intros ? ? ?. Qed.

#[export] Instance unique_invariant : RelayInvariant unique_sequences.
Proof. split; [split; [intros p d HI; exact HI|intros op; keep_op]|]. by intros ? ? ? ?. Qed.

(** Room sequences have no gaps and no repeats: in every reachable state
    the numbers of a room's messages are exactly 1 up to its last sequence
    number, and two messages of a room with the same number are one. *)
Theorem sequences_exact c cv s :
  reachable s -> db_conversations (st_db s) !! c = Some cv ->
  (forall n, 1 <= n <= cv_next_sequence cv <->
    exists id m, db_messages (st_db s) !! id = Some m /\ ms_conversation m = c /\ ms_sequence m = n) /\
  (forall id id' m m', db_messages (st_db s) !! id = Some m -> db_messages (st_db s) !! id' = Some m' ->
    ms_conversation m = c -> ms_conversation m' = c -> ms_sequence m = ms_sequence m' -> id = id').
Proof.
  intros Hs Hc. pose proof (reachable_invariant dense _ Hs) as HD.
  pose proof (reachable_invariant unique_sequences _ Hs) as HU.
  pose proof (reachable_invariant _ _ Hs : members_valid _ /\ cursors_ok _) as [_ (_ & _ & HM & _)].
  split.
  - intros n. split.
    + intros Hn. by apply (HD c cv).
    + intros (id & m & Hm & <- & <-). destruct (HM id m Hm) as (cv' & Hcv' & ?). by simplify_eq.
  - intros id id' m m' Hm Hm' E1 E2. apply (HU _ _ m m'); [done|done|congruence].
Qed.
End Dense.
