(* ===== verification/Mailbox.v ===== *)
(** * The mailbox: what the store promises, and a simulation

    [Mailbox] is the contract seen from outside: each room has a log of
    messages, some identities may receive in it, and each message waits unread
    for some of them.  Logs only grow at the end, a message is posted only to
    identities that may receive, and revoking that right drops what is unread.
    [mailbox_of] reads such a mailbox off the tables; every step of the relay is
    a sequence of steps of the contract. *)

From S2P Require Import Prelude GoTime RateLimit Quota Text Sha256 Tables Tx Sessions Pending.
From S2P Require Import Invocations Rooms Claims Roles Directory Messages Deliveries QuotaInv Relay.
From S2P Require Import QuotaOps History Members Rights Cursors.
Open Scope Z_scope.

(** ** The contract *)

Record Mailbox := mkMailbox {
  mb_logs : gmap string (list string);
  mb_receivers : gset (string * string);
  mb_unread : gset (string * string * string);
}.

Definition emptyMailbox : Mailbox := mkMailbox ∅ ∅ ∅.

(** Rooms are keyed by identifier; a receiver is (room, identity); an unread
    entry is (room, message, identity). *)
Inductive mailbox_step : Mailbox -> Mailbox -> Prop :=
  | mailbox_open c logs R U :
      logs !! c = None -> mailbox_step (mkMailbox logs R U) (mkMailbox (<[c := []]> logs) R U)
  | mailbox_grant p logs R U : mailbox_step (mkMailbox logs R U) (mkMailbox logs ({[p]} ∪ R) U)
  | mailbox_revoke p logs R U :
      mailbox_step (mkMailbox logs R U) (mkMailbox logs (R ∖ {[p]}) (filter (fun u => (u.1.1, u.2) <> p) U))
  | mailbox_post c id rs l logs R U :
      logs !! c = Some l -> (forall c' l', logs !! c' = Some l' -> id ∉ l') ->
      (forall r, r ∈ rs -> (c, r) ∈ R) ->
      mailbox_step (mkMailbox logs R U)
        (mkMailbox (<[c := l ++ [id]]> logs) R (set_map (D := gset _) (fun r => (c, id, r)) (rs : gset string) ∪ U))
  | mailbox_close u logs R U :
      u ∈ U -> mailbox_step (mkMailbox logs R U) (mkMailbox logs R (U ∖ {[u]})).

(** ** The mailbox of a store *)

(** The message with number [n] in room [c]. *)
Definition messageAt (d : Db) (c : string) (n : Z) : option string :=
  fst <$> head (filter (fun kv => ms_conversation kv.2 = c /\ ms_sequence kv.2 = n)
    (map_to_list (db_messages d))).

Definition roomLog (d : Db) (c : string) (n : Z) : list string := omap (messageAt d c) (seqZ 1 n).

Definition receives (kv : string * string * Z) : Prop := hasCap kv.2 CapReceive = true.

Definition receiversOf (d : Db) : gset (string * string) :=
  dom (filter receives (db_memberships d)) ∪
  set_map (fun k => (k.1, roleRecipient k.2)) (dom (filter receives (db_role_memberships d))).

Definition unreadRow (d : Db) (kv : string * DeliveryRow) : option (string * string * string) :=
  m ← pendingMessage d kv.2; Some (ms_conversation m, dl_message kv.2, dl_recipient kv.2).

Definition mailbox_of (d : Db) : Mailbox := {|
  mb_logs := map_imap (fun c cv => Some (roomLog d c (cv_next_sequence cv))) (db_conversations d);
  mb_receivers := receiversOf d;
  mb_unread := list_to_set (omap (unreadRow d) (map_to_list (db_deliveries d)))
|}.

Lemma elem_of_receivers d c x : (c, x) ∈ receiversOf d <-> may_receive d c x.
Proof.
  unfold receiversOf, may_receive. rewrite elem_of_union, elem_of_dom, elem_of_map. split.
  - intros [[v [Hv Hr]%map_lookup_filter_Some]|([c' r] & [= -> ->] & Hd)]; [left; by exists v|right].
    apply elem_of_dom in Hd as [v [Hv Hr]%map_lookup_filter_Some]. by exists r, v.
  - intros [(v & Hv & Hr)|(r & v & -> & Hv & Hr)]; [left|right].
    + exists v. by apply map_lookup_filter_Some.
    + exists (c, r). split; [done|]. apply elem_of_dom. exists v. by apply map_lookup_filter_Some.
Qed.

Lemma elem_of_unread d c mid r :
  (c, mid, r) ∈ mb_unread (mailbox_of d) <->
  exists id dl m, db_deliveries d !! id = Some dl /\ pendingMessage d dl = Some m /\
    ms_conversation m = c /\ dl_message dl = mid /\ dl_recipient dl = r.
Proof.
  cbn. rewrite elem_of_list_to_set, list_elem_of_omap. unfold unreadRow. split.
  - intros ([id dl] & Hin & (m & Hm & [= <- <- <-])%bind_Some). apply elem_of_map_to_list in Hin.
    by exists id, dl, m.
  - intros (id & dl & m & Hid & Hm & <- & <- & <-). exists (id, dl).
    split; [by apply elem_of_map_to_list|]. simpl. by rewrite Hm.
Qed.

Lemma lookup_logs d c :
  mb_logs (mailbox_of d) !! c = (fun cv => roomLog d c (cv_next_sequence cv)) <$> db_conversations d !! c.
Proof. cbn. rewrite map_lookup_imap. by destruct (db_conversations d !! c). Qed.

(** ** Numbers of messages *)

Definition nextOf (d : Db) (c : string) : Z :=
  match db_conversations d !! c with Some cv => cv_next_sequence cv | None => 0 end.

Definition has_number (d : Db) (c : string) (n : Z) : Prop :=
  exists id m, db_messages d !! id = Some m /\ ms_conversation m = c /\ ms_sequence m = n.

(** A store whose logs can be read off: no gaps, no repeats. *)
Definition logged (d : Db) : Prop :=
  unique_sequences d /\ (forall c n, has_number d c n <-> 1 <= n <= nextOf d c) /\ (forall c, 0 <= nextOf d c).

Lemma reachable_logged `{Env} s : reachable s -> logged (st_db s).
Proof.
  intros Hs. pose proof (reachable_invariant dense _ Hs) as HD.
  pose proof (reachable_invariant _ _ Hs : members_valid _ /\ cursors_ok _) as [_ (_ & HN & HM & _)].
  split; [exact (reachable_invariant unique_sequences _ Hs)|]. unfold nextOf. split.
  - intros c n. split.
    + intros (id & m & Hm & <- & <-). destruct (HM id m Hm) as (cv & -> & ?). done.
    + destruct (db_conversations (st_db s) !! c) as [cv|] eqn:Hc; [|lia]. by apply (HD c cv).
  - intros c. destruct (db_conversations (st_db s) !! c) as [cv|] eqn:Hc; [by eapply HN|lia].
Qed.

Lemma messageAt_Some d c n id :
  unique_sequences d -> messageAt d c n = Some id <->
  exists m, db_messages d !! id = Some m /\ ms_conversation m = c /\ ms_sequence m = n.
Proof.
  intros HU. unfold messageAt. rewrite fmap_Some. split.
  - intros ([i m] & Hh & ->). apply head_Some_elem_of in Hh.
    apply list_elem_of_filter in Hh as [[Hc Hn] Hin]. apply elem_of_map_to_list in Hin. by exists m.
  - intros (m & Hm & Hc & Hn).
    assert ((id, m) ∈ filter (fun kv => ms_conversation kv.2 = c /\ ms_sequence kv.2 = n)
      (map_to_list (db_messages d))) as Hin.
    { apply list_elem_of_filter. split; [done|]. by apply elem_of_map_to_list. }
    destruct (filter _ _) as [|[i m'] l] eqn:E; [by apply elem_of_nil in Hin|].
    exists (i, m'). split; [done|]. simpl.
    assert ((i, m') ∈ (i, m') :: l) as Hi by set_solver. rewrite <-E in Hi.
    apply list_elem_of_filter in Hi as [[Hc' Hn'] Hi]. apply elem_of_map_to_list in Hi. simpl in *.
    apply (HU id i m m'); congruence.
Qed.

Lemma elem_of_log d c n id :
  unique_sequences d -> id ∈ roomLog d c n <->
  exists m, db_messages d !! id = Some m /\ ms_conversation m = c /\ 1 <= ms_sequence m <= n.
Proof.
  intros HU. unfold roomLog. rewrite list_elem_of_omap. split.
  - intros (k & Hk & (m & ? & ? & <-)%messageAt_Some); [|done]. exists m. apply elem_of_seqZ in Hk. split_and!; [done..|lia|lia].
  - intros (m & Hm & Hc & Hn). exists (ms_sequence m). split; [apply elem_of_seqZ; lia|].
    apply messageAt_Some; [done|]. by exists m.
Qed.

(** The log of a room after one step: as before, with the new message if any. *)
Definition grown (c : string) (new : option (string * MessageRow)) : list string :=
  match new with Some (id, m) => if bool_decide (ms_conversation m = c) then [id] else [] | None => [] end.

Definition with_new (new : option (string * MessageRow)) (M : gmap string MessageRow) : gmap string MessageRow :=
  match new with Some (id, m) => <[id := m]> M | None => M end.

Definition fresh_in (M : gmap string MessageRow) (new : option (string * MessageRow)) : Prop :=
  match new with Some (id, _) => M !! id = None | None => True end.

Lemma with_new_lookup new M id m :
  fresh_in M new -> with_new new M !! id = Some m <-> M !! id = Some m \/ new = Some (id, m).
Proof.
  destruct new as [[i m']|]; simpl; [|naive_solver]. intros Hf. rewrite lookup_insert_Some.
  split; [naive_solver|]. intros [Hm|[= <- <-]]; [right|by left]. split; [congruence|done].
Qed.

Lemma omap_ext_elem {A B} (f g : A -> option B) (l : list A) :
  (forall x, x ∈ l -> f x = g x) -> omap f l = omap g l.
Proof.
  induction l as [|x l IH]; intros Hfg; [done|]. simpl. rewrite (Hfg x) by set_solver.
  destruct (g x); [f_equal|]; apply IH; set_solver.
Qed.

Section Growth.
Context (d0 d : Db) (new : option (string * MessageRow)).
Context (H0 : logged d0) (H1 : logged d) (Hf : fresh_in (db_messages d0) new).
Context (Hm : db_messages d = with_new new (db_messages d0)).

Lemma number_new c n :
  has_number d c n <-> has_number d0 c n \/
    exists id m, new = Some (id, m) /\ ms_conversation m = c /\ ms_sequence m = n.
Proof using Hf Hm.
  clear H0 H1. unfold has_number. rewrite Hm. setoid_rewrite (with_new_lookup new _ _ _ Hf). naive_solver.
Qed.

Lemma new_unnumbered id m : new = Some (id, m) -> ~ has_number d0 (ms_conversation m) (ms_sequence m).
Proof using Hf Hm H1.
  intros E (i & m' & Hi & Hc & Hn). destruct H1 as [HU _]. subst.
  assert (i = id) as ->; [|simpl in Hf; congruence].
  apply (HU i id m' m); [| |done..]; rewrite Hm; apply with_new_lookup; auto.
Qed.

Lemma next_grown c : nextOf d c = nextOf d0 c + Z.of_nat (length (grown c new)).
Proof using Hf Hm H0 H1.
  pose proof H0 as (_ & HN0 & HP0). pose proof H1 as (_ & HN1 & HP1).
  specialize (HP0 c). specialize (HP1 c).
  assert (forall n, 1 <= n <= nextOf d c <-> 1 <= n <= nextOf d0 c \/
    exists id m, new = Some (id, m) /\ ms_conversation m = c /\ ms_sequence m = n) as Hnum.
  { intros n. by rewrite <-HN0, <-HN1, number_new. }
  assert (forall id m, new = Some (id, m) -> ms_conversation m = c ->
    ~ (1 <= ms_sequence m <= nextOf d0 c)) as Hno.
  { intros id m E <-. rewrite <-HN0. by eapply new_unnumbered. }
  clear Hf Hm. destruct new as [[id m]|]; simpl; [case_bool_decide as Hc|]; simpl.
  - specialize (Hno id m eq_refl Hc).
    pose proof (proj2 (Hnum (ms_sequence m)) ltac:(right; eauto)) as Hk.
    pose proof (proj1 (Hnum (nextOf d c)) ltac:(lia)) as Hlast.
    destruct Hlast as [?|(? & ? & [= <- <-] & _ & Hlast)]; [lia|].
    destruct (decide (ms_sequence m = 1)) as [|Hne]; [lia|].
    pose proof (proj1 (Hnum (ms_sequence m - 1)) ltac:(lia)) as [?|(? & ? & [= <- <-] & _ & ?)]; lia.
  - assert (forall n, 1 <= n <= nextOf d c <-> 1 <= n <= nextOf d0 c) as Hs.
    { intros n. rewrite Hnum. naive_solver. }
    pose proof (Hs (nextOf d c)). pose proof (Hs (nextOf d0 c)). lia.
  - assert (forall n, 1 <= n <= nextOf d c <-> 1 <= n <= nextOf d0 c) as Hs.
    { intros n. rewrite Hnum. naive_solver. }
    pose proof (Hs (nextOf d c)). pose proof (Hs (nextOf d0 c)). lia.
Qed.

Lemma new_last c id m :
  new = Some (id, m) -> ms_conversation m = c -> messageAt d c (1 + nextOf d0 c) = Some id.
Proof using Hf Hm H0 H1.
  intros E Hc. pose proof H0 as (_ & HN0 & HP0). pose proof H1 as (HU1 & HN1 & _).
  assert (has_number d c (1 + nextOf d0 c)) as Hn.
  { apply HN1. rewrite next_grown, E. simpl. rewrite bool_decide_eq_true_2 by done. simpl.
    specialize (HP0 c). lia. }
  apply number_new in Hn as [Hn|(i & m' & Hi & _ & Hs)]; [apply HN0 in Hn; lia|].
  rewrite E in Hi. injection Hi as <- <-. apply messageAt_Some; [done|]. exists m.
  split; [|done]. rewrite Hm. apply with_new_lookup; [done|]. by right.
Qed.

(** Old messages keep their number, so the log of a room grows at its end. *)
Lemma log_grown c : roomLog d c (nextOf d c) = roomLog d0 c (nextOf d0 c) ++ grown c new.
Proof using Hf Hm H0 H1.
  rewrite next_grown. pose proof H0 as (HU0 & HN0 & HP0). pose proof H1 as (HU1 & HN1 & _).
  unfold roomLog. rewrite seqZ_app, omap_app by (try apply HP0; lia). f_equal.
  - apply omap_ext_elem. intros n Hn. apply elem_of_seqZ in Hn.
    destruct (proj2 (HN0 c n) ltac:(lia)) as (id & m & Hid & Hc & Hs).
    transitivity (Some id); [|symmetry]; apply messageAt_Some; [done| |done|]; exists m; [|done].
    split; [|done]. rewrite Hm. apply with_new_lookup; [done|]. by left.
  - pose proof (new_last c) as Hlast. unfold grown. destruct new as [[id m]|]; [|done].
    case_bool_decide as Hc; [|done]. simpl. change (Z.of_nat 0) with 0. by rewrite Z.add_0_l, (Hlast id m eq_refl Hc).
Qed.
End Growth.

(** ** At most one message per operation *)

Definition messages_are (M : gmap string MessageRow) (d : Db) : Prop := db_messages d = M.

Definition posted (M : gmap string MessageRow) (d : Db) : Prop :=
  exists new, fresh_in M new /\ db_messages d = with_new new M.

Lemma posted_none M d : messages_are M d -> posted M d.
Proof. intros Hm. by exists None. Qed.

Lemma posted_insert M id m u s s' :
  sql_insert t_messages id m s = (inr u, s') -> messages_are M (st_db s) ->
  M !! id = None /\ messages_are (<[id := m]> M) (st_db s').
Proof.
  intros (_ & Hid & _ & _ & ->)%sql_insert_ok Hm. unfold messages_are in *. cbn in *. by rewrite <-Hm.
Qed.

Lemma posted_one M id m d : M !! id = None -> messages_are (<[id := m]> M) d -> posted M d.
Proof. intros Hid Hm. by exists (Some (id, m)). Qed.

Section Posts.
Context `{Env} (old : gmap string MessageRow).

Lemma acceptMessage_posts machineID key requestHash target now row c from body a s s' :
  acceptMessage machineID key requestHash target now row c from body s = (inr a, s') ->
  messages_are old (st_db s) -> posted old (st_db s').
Proof.
  intros Ha HI. unfold acceptMessage, storeMessage in Ha. tx_inv Ha.
  assert (messages_are old (st_db s3)) as HM by (step_back Hm2; step_back Hm1; step_back Hm0; by step_back Hm).
  destruct (posted_insert _ _ _ _ _ _ Hm4 HM) as [Hid HM'].
  eapply posted_one; [exact Hid|]. step_back Hm7. step_back Hm6. step_back Hm3. by step_back Hm5.
Qed.

Lemma sendDirect_posts input low high requestHash now a s s' :
  sendDirect input low high requestHash now s = (inr a, s') ->
  messages_are old (st_db s) -> posted old (st_db s').
Proof.
  intros Ha HI. unfold sendDirect in Ha. tx_inv Ha.
  assert (messages_are old (st_db s5)) as HM.
  { step_back Hm4. step_back Hm3. step_back Hm2. step_back Hm1. step_back Hm0. by step_back Hm. }
  destruct (posted_insert _ _ _ _ _ _ Hm5 HM) as [Hid HM'].
  eapply posted_one; [exact Hid|]. step_back Hm10. step_back Hm9. step_back Hm8. step_back Hm7. by step_back Hm6.
Qed.

Lemma keeps_posted {A} (m : M A) : keeps (messages_are old) m -> keeps_given (messages_are old) (posted old) m.
Proof. intros Hm s r s' Hr HJ _. apply posted_none. by eapply Hm. Qed.

Lemma append_posts input : keeps_given (messages_are old) (posted old) (AppendMessage input).
Proof.
  unfold AppendMessage. keep_given. intros s1 r s2 Ha HJ HI.
  apply appendTransaction_ok in Ha as [(_ & -> & _)|(_ & _ & Ha & _)]; [done|]. by eapply acceptMessage_posts.
Qed.

Lemma inbound_posts input : keeps_given (messages_are old) (posted old) (AppendTelegramInbound input).
Proof.
  unfold AppendTelegramInbound. keep_given. intros s1 r s2 Ha HJ HI.
  apply inboundTransaction_ok in Ha as [(_ & -> & _)|(_ & Ha & _)]; [done|]. by eapply acceptMessage_posts.
Qed.

Lemma direct_posts input : keeps_given (messages_are old) (posted old) (SendDirectMessage input).
Proof.
  unfold SendDirectMessage, validBody. keep_given. intros s1 r s2 Ha HJ HI.
  apply directTransaction_ok in Ha as [(-> & _)|(_ & Ha & _)]; [done|]. subst. by eapply sendDirect_posts.
Qed.

(** Every operation adds at most one message. *)
Lemma op_posts op : keeps_given (messages_are old) (posted old) (run_op op).
Proof.
  destruct op; simpl; lazymatch goal with
  | |- keeps_given _ _ (void (AppendMessage _)) => apply keeps_given_void, append_posts
  | |- keeps_given _ _ (void (AppendTelegramInbound _)) => apply keeps_given_void, inbound_posts
  | |- keeps_given _ _ (void (SendDirectMessage _)) => apply keeps_given_void, direct_posts
  | _ => apply keeps_posted; try apply keeps_void; keep_maintain; keep; preserve
  end.
Qed.
End Posts.

(** ** Mail for old messages only shrinks *)

Definition mail_from (d0 d : Db) : Prop :=
  db_messages d0 ⊆ db_messages d /\
  forall id dl, db_deliveries d !! id = Some dl -> isPending dl = true ->
    db_messages d0 !! dl_message dl = None \/
    exists id0 dl0, db_deliveries d0 !! id0 = Some dl0 /\ isPending dl0 = true /\
      dl_message dl0 = dl_message dl /\ dl_recipient dl0 = dl_recipient dl.

Lemma mail_from_refl d : mail_from d d.
Proof. split; [done|]. intros id dl Hid Hp. right. by exists id, dl. Qed.

(** A row replaced by one for the same mail, pending only if it was. *)
Definition same_mail_row (dl dl' : DeliveryRow) : Prop :=
  dl_message dl' = dl_message dl /\ dl_recipient dl' = dl_recipient dl /\
  (isPending dl' = true -> isPending dl = true).

Section MailFrom.
Context (d0 : Db).

Lemma mail_row d id dl :
  mail_from d0 d -> db_deliveries d !! id = Some dl -> isPending dl = true ->
  forall dl', same_mail_row dl dl' -> db_messages d0 !! dl_message dl' = None \/
    exists id0 dl0, db_deliveries d0 !! id0 = Some dl0 /\ isPending dl0 = true /\
      dl_message dl0 = dl_message dl' /\ dl_recipient dl0 = dl_recipient dl'.
Proof. intros [_ HI] Hid Hp dl' (E1 & E2 & _). rewrite E1, E2. by eapply HI. Qed.

Lemma mail_update id cond f :
  (forall dl, cond dl = true -> same_mail_row dl (f dl)) ->
  preserves (mail_from d0) (sql_update t_deliveries id cond f).
Proof.
  intros Hf s n s' [(_ & -> & _)|(_ & dl & Hid & Hc & _ & _ & ->)]%sql_update_ok HI; [done|].
  split; [exact (proj1 HI)|]. intros i dl' Hi Hp. cbn in Hi.
  apply lookup_insert_Some in Hi as [[<- <-]|[_ Hi]]; [|by eapply HI].
  destruct (Hf dl Hc) as (E1 & E2 & E3). eapply mail_row; [done|done|by apply E3|done].
Qed.

Lemma mail_update_where cond f :
  (forall id dl, cond id dl = true -> same_mail_row dl (f dl)) ->
  preserves (mail_from d0) (sql_update_where t_deliveries cond f).
Proof.
  intros Hf s n s' [[-> _]|(_ & _ & ->)]%sql_update_where_ok HI; [done|].
  split; [exact (proj1 HI)|]. intros i dl' Hi Hp. cbn in Hi. rewrite lookup_imap_upd in Hi.
  apply fmap_Some in Hi as (dl & Hi & ->). destruct (cond i dl) eqn:Hc; [|by eapply HI].
  destruct (Hf i dl Hc) as (E1 & E2 & E3). eapply mail_row; [done|done|by apply E3|done].
Qed.

Lemma mail_insert `{Env} messageID r :
  db_messages d0 !! messageID = None -> preserves (mail_from d0) (insertDelivery messageID r).
Proof.
  intros Hn s u s' Hi HI. unfold insertDelivery in Hi. tx_inv Hi.
  apply sql_insert_ok in Hi as (_ & _ & _ & _ & ->). split; [exact (proj1 HI)|]. intros i dl Hid Hp. cbn in Hid.
  apply lookup_insert_Some in Hid as [[_ <-]|[_ Hid]]; [by left|by eapply HI].
Qed.

Lemma mail_message id m u s s' :
  sql_insert t_messages id m s = (inr u, s') -> mail_from d0 (st_db s) ->
  db_messages d0 !! id = None /\ mail_from d0 (st_db s').
Proof.
  intros (_ & Hid & _ & _ & ->)%sql_insert_ok [Hsub HI]. cbn in Hid. split; [by eapply lookup_weaken_None|].
  split; [|exact HI]. cbn. etransitivity; [exact Hsub|]. by apply insert_subseteq.
Qed.

Ltac same_mail :=
  intros; bool_hyps; unfold same_mail_row; cbn; split_and!; solve [reflexivity | by auto | by intros ?].

#[local] Hint Extern 1 (preserves (mail_from _) (sql_update t_deliveries _ _ _)) =>
  apply mail_update; same_mail : preserve.
#[local] Hint Extern 1 (preserves (mail_from _) (sql_update_where t_deliveries _ _)) =>
  apply mail_update_where; same_mail : preserve.
#[local] Hint Extern 1 (preserves (mail_from _) (insertDelivery _ _)) =>
  apply mail_insert; assumption : preserve.

Context `{Env}.

Lemma storeMessage_mail id m target : preserves (mail_from d0) (storeMessage id m target).
Proof.
  intros s u s' Hs HI. unfold storeMessage in Hs. apply bind_ok in Hs as (u1 & s1 & Hi & Hs).
  destruct (mail_message _ _ _ _ _ Hi HI) as [Hn HI1]. step_back Hs. done.
Qed.

Lemma sendDirect_mail input low high requestHash now :
  preserves (mail_from d0) (sendDirect input low high requestHash now).
Proof.
  intros s a s' Hs HI. unfold sendDirect in Hs. tx_inv Hs.
  assert (mail_from d0 (st_db s5)) as HI5.
  { step_back Hm4. step_back Hm3. step_back Hm2. step_back Hm1. step_back Hm0. by step_back Hm. }
  destruct (mail_message _ _ _ _ _ Hm5 HI5) as [Hn HI6].
  step_back Hm10. step_back Hm9. step_back Hm8. step_back Hm7. by step_back Hm6.
Qed.
#[local] Hint Resolve storeMessage_mail sendDirect_mail : preserve.

#[export] Instance mail_from_stable : Stable (mail_from d0).
Proof. split; [intros p d HI; exact HI|]. intros op. keep_op. Qed.
End MailFrom.

(** ** Rooms stay *)

Definition rooms_kept (d0 d : Db) : Prop :=
  forall c, is_Some (db_conversations d0 !! c) -> is_Some (db_conversations d !! c).

Lemma rooms_set d0 d c cv :
  rooms_kept d0 d -> rooms_kept d0 (set_conversations (<[c := cv]> (db_conversations d)) d).
Proof. intros HI c' Hc'. cbn. apply lookup_insert_is_Some'. right. by apply HI. Qed.

Section Rooms.
Context `{Env} (d0 : Db).

Lemma rooms_insert c cv : preserves (rooms_kept d0) (sql_insert t_conversations c cv).
Proof. intros s u s' (_ & _ & _ & _ & ->)%sql_insert_ok HI. by apply rooms_set. Qed.

Lemma rooms_update c cond f : preserves (rooms_kept d0) (sql_update t_conversations c cond f).
Proof.
  intros s n s' [(_ & -> & _)|(_ & cv & _ & _ & _ & _ & ->)]%sql_update_ok HI; [done|]. by apply rooms_set.
Qed.

Lemma rooms_direct low high from to now :
  preserves (rooms_kept d0) (getOrCreateDirectConversation low high from to now).
Proof.
  intros s c s' Hg HI.
  apply getOrCreateDirectConversation_ok in Hg as [(row & _ & _ & ->)|(_ & _ & _ & ->)]; [done|].
  exact (rooms_set d0 (st_db s) c (newConversationRow now None) HI).
Qed.
#[local] Hint Resolve rooms_insert rooms_update rooms_direct : preserve.

#[export] Instance rooms_kept_stable : Stable (rooms_kept d0).
Proof. split; [intros p d HI; exact HI|]. intros op. keep_op. Qed.
End Rooms.

(** ** Runs of the contract *)

Abbreviation mailbox_steps := (rtc mailbox_step).

Lemma steps_to m logs R U logs' R' U' :
  mailbox_steps m (mkMailbox logs' R' U') -> logs = logs' -> R ≡ R' -> U ≡ U' ->
  mailbox_steps m (mkMailbox logs R U).
Proof. intros Hs ->. by intros -> %leibniz_equiv -> %leibniz_equiv. Qed.

Lemma revoke_all logs R U P :
  mailbox_steps (mkMailbox logs R U)
    (mkMailbox logs (R ∖ P) (filter (fun u => (u.1.1, u.2) ∉ P) U)).
Proof.
  revert R U. induction P as [|p P Hp IH] using set_ind_L; intros R U.
  - eapply steps_to; [apply rtc_refl|done|set_solver|]. intros u. rewrite elem_of_filter. set_solver.
  - eapply steps_to; [eapply rtc_l; [apply (mailbox_revoke p)|apply IH]|done|set_solver|].
    intros u. rewrite !elem_of_filter. set_solver.
Qed.

Lemma close_all logs R U P :
  P ⊆ U -> mailbox_steps (mkMailbox logs R U) (mkMailbox logs R (U ∖ P)).
Proof.
  revert U. induction P as [|u P Hu IH] using set_ind_L; intros U HP.
  - by rewrite difference_empty_L.
  - eapply rtc_l; [apply (mailbox_close u); set_solver|].
    replace (U ∖ ({[u]} ∪ P)) with (U ∖ {[u]} ∖ P) by set_solver. apply IH. set_solver.
Qed.

Lemma grant_all logs R U P : mailbox_steps (mkMailbox logs R U) (mkMailbox logs (P ∪ R) U).
Proof.
  revert R. induction P as [|p P Hp IH] using set_ind_L; intros R.
  - by rewrite union_empty_l_L.
  - eapply rtc_l; [apply (mailbox_grant p)|]. rewrite <-(assoc_L (∪)), (union_comm_L P), (assoc_L (∪)), (union_comm_L _ P).
    apply IH.
Qed.

Definition openRooms (P : gset string) (logs : gmap string (list string)) : gmap string (list string) :=
  logs ∪ gset_to_gmap [] P.

Lemma open_all logs R U P :
  mailbox_steps (mkMailbox logs R U) (mkMailbox (openRooms P logs) R U).
Proof.
  revert logs. induction P as [|c P Hc IH] using set_ind_L; intros logs; unfold openRooms.
  - rewrite gset_to_gmap_empty, (right_id_L ∅ (∪)). done.
  - destruct (logs !! c) as [l|] eqn:Hl.
    + replace (logs ∪ gset_to_gmap [] ({[c]} ∪ P)) with (openRooms P logs); [apply IH|].
      apply map_eq. intros i. unfold openRooms. rewrite !lookup_union, gset_to_gmap_union_singleton, lookup_insert.
      case_decide as Hi; [|done]. subst. rewrite Hl. by destruct (gset_to_gmap [] P !! i).
    + eapply rtc_l; [by apply (mailbox_open c)|].
      replace (logs ∪ gset_to_gmap [] ({[c]} ∪ P)) with (openRooms P (<[c := []]> logs)); [apply IH|].
      apply map_eq. intros i. unfold openRooms. rewrite !lookup_union, gset_to_gmap_union_singleton, !lookup_insert.
      case_decide as Hi; [|done]. subst. rewrite Hl. by destruct (gset_to_gmap [] P !! i).
Qed.

(** ** The simulation *)

Lemma log_of d i :
  mb_logs (mailbox_of d) !! i =
  (if has (db_conversations d) i then Some (roomLog d i (nextOf d i)) else None).
Proof. rewrite lookup_logs. unfold has, nextOf. by destruct (db_conversations d !! i). Qed.

Section Simulation.
Context (d0 d : Db) (new : option (string * MessageRow)).
Context (H0 : logged d0) (H1 : logged d) (Hf : fresh_in (db_messages d0) new).
Context (Hm : db_messages d = with_new new (db_messages d0)).
Context (Hrooms : rooms_kept d0 d) (Hmail : mail_from d0 d) (Hrights : rights d).

(** The rooms of [d] with the logs of [d0]. *)
Definition opened : gmap string (list string) :=
  openRooms (dom (db_conversations d)) (mb_logs (mailbox_of d0)).

Lemma opened_log i :
  opened !! i = if has (db_conversations d) i then Some (roomLog d0 i (nextOf d0 i)) else None.
Proof using Hrooms.
  clear H0 H1 Hf Hm Hmail Hrights. unfold opened, openRooms.
  rewrite lookup_union, log_of, lookup_gset_to_gmap. unfold has.
  destruct (db_conversations d0 !! i) as [cv|] eqn:Hc0.
  - destruct (Hrooms i) as [cv' ->]; [by exists cv|]. by case_guard.
  - destruct (db_conversations d !! i) as [cv|] eqn:Hc.
    + case_guard as Hd; [unfold nextOf; by rewrite Hc0|]. destruct Hd. apply elem_of_dom. by exists cv.
    + case_guard as Hd; [|done]. exfalso. rewrite elem_of_dom, Hc in Hd. by apply is_Some_None in Hd.
Qed.

Lemma logs_grown i : mb_logs (mailbox_of d) !! i = (fun l => l ++ grown i new) <$> opened !! i.
Proof using H0 H1 Hf Hm Hrooms.
  rewrite log_of, opened_log, (log_grown d0 d new H0 H1 Hf Hm). by destruct (has _ _).
Qed.

Lemma opened_elem i l x : opened !! i = Some l -> x ∈ l -> is_Some (db_messages d0 !! x).
Proof using H0 Hrooms.
  rewrite opened_log. destruct (has _ _); [|done]. intros [= <-] Hx.
  apply elem_of_log in Hx as (m & Hx & _); [by exists m|apply H0].
Qed.

Lemma unread_receives c mid r : (c, mid, r) ∈ mb_unread (mailbox_of d) -> (c, r) ∈ receiversOf d.
Proof using Hrights.
  clear H0 H1 Hf Hm Hmail Hrooms.
  intros (id & dl & m & Hid & Hp & <- & <- & <-)%elem_of_unread. apply elem_of_receivers.
  destruct Hrights as [_ HR]. by eapply HR.
Qed.

(** What is unread was unread before, or belongs to the new message. *)
Lemma unread_new c mid r :
  (c, mid, r) ∈ mb_unread (mailbox_of d) ->
  (c, mid, r) ∈ mb_unread (mailbox_of d0) \/ exists m, new = Some (mid, m) /\ ms_conversation m = c.
Proof using Hf Hm Hmail.
  clear H0 H1 Hrooms Hrights. intros (id & dl & m & Hid & Hp & Hc & Hmid & Hr)%elem_of_unread.
  assert (isPending dl = true /\ db_messages d !! mid = Some m) as [Hpend Hdm].
  { unfold pendingMessage in Hp. unfold isPending. destruct (dl_acked dl); [done|]. by rewrite <-Hmid. }
  rewrite Hm in Hdm. apply with_new_lookup in Hdm as [Hdm|Hnew]; [left| |done].
  - destruct Hmail as [_ HI]. destruct (HI id dl Hid Hpend) as [Hno|(id0 & dl0 & Hid0 & Hp0 & E1 & E2)].
    { rewrite Hmid in Hno. congruence. }
    apply elem_of_unread. exists id0, dl0, m. split_and!; [done| |done|congruence|congruence].
    unfold pendingMessage, isPending in *. destruct (dl_acked dl0); [done|]. by rewrite E1, Hmid.
  - right. by exists m.
Qed.

Lemma mailbox_prepared :
  mailbox_steps (mailbox_of d0)
    (mkMailbox opened (receiversOf d) (mb_unread (mailbox_of d0) ∩ mb_unread (mailbox_of d))).
Proof using Hrights.
  clear H0 H1 Hf Hm Hmail Hrooms. unfold mailbox_of at 1. set (U0 := list_to_set _).
  change (mb_unread (mailbox_of d0)) with U0. set (U1 := mb_unread (mailbox_of d)).
  set (P := receiversOf d0 ∖ receiversOf d).
  eapply steps_to; [|reflexivity|reflexivity|reflexivity].
  etransitivity; [apply (revoke_all _ _ _ P)|].
  etransitivity; [eapply (close_all _ _ _ (filter (fun u => (u.1.1, u.2) ∉ P) U0 ∖ U1)); by apply subseteq_difference_l|].
  etransitivity; [apply (grant_all _ _ _ (receiversOf d))|].
  eapply steps_to; [apply (open_all _ _ _ (dom (db_conversations d)))|reflexivity| |].
  { intros p. unfold P. rewrite elem_of_union, !elem_of_difference. destruct (decide (p ∈ receiversOf d)); tauto. }
  intros [[c mid] r]. rewrite elem_of_intersection, !elem_of_difference, elem_of_filter. simpl.
  split; [|destruct (decide ((c, mid, r) ∈ U1)); tauto].
  intros [HU0 HU1]. pose proof (unread_receives c mid r HU1). unfold P. rewrite elem_of_difference. tauto.
Qed.

Lemma logs_same : new = None -> mb_logs (mailbox_of d) = opened.
Proof using H0 H1 Hf Hm Hrooms.
  intros E. apply map_eq. intros i. rewrite logs_grown, E. simpl.
  destruct (opened !! i); simpl; [|done]. by rewrite (right_id_L [] (++)).
Qed.

Lemma logs_posted id m :
  new = Some (id, m) -> exists l, opened !! ms_conversation m = Some l /\
    mb_logs (mailbox_of d) = <[ms_conversation m := l ++ [id]]> opened.
Proof using H0 H1 Hf Hm Hrooms.
  intros E. assert (exists l, opened !! ms_conversation m = Some l) as [l Hl].
  { rewrite opened_log. destruct (has (db_conversations d) (ms_conversation m)) eqn:Hh; [eauto|exfalso].
    destruct H1 as (_ & HN & _). assert (has_number d (ms_conversation m) (ms_sequence m)) as Hn.
    { exists id, m. split; [|done]. rewrite Hm. apply with_new_lookup; [done|]. by right. }
    apply HN in Hn. unfold nextOf in Hn. unfold has in Hh. destruct (_ !! _); [done|lia]. }
  exists l. split; [done|]. apply map_eq. intros i. rewrite logs_grown, E, lookup_insert. simpl.
  case_decide as Hi.
  - subst i. rewrite Hl. simpl. by rewrite bool_decide_eq_true_2.
  - rewrite bool_decide_eq_false_2 by done. destruct (opened !! i); simpl; [|done].
    by rewrite (right_id_L [] (++)).
Qed.

(** The identities the new message [id] waits for. *)
Definition waiting (id : string) : gset string :=
  set_map snd (filter (fun u => u.1.2 = id) (mb_unread (mailbox_of d))).

Lemma elem_of_waiting id r : r ∈ waiting id <-> exists c, (c, id, r) ∈ mb_unread (mailbox_of d).
Proof using.
  clear. unfold waiting. rewrite elem_of_map. setoid_rewrite elem_of_filter. split.
  - intros ([[c i] r'] & -> & Hi & Hu). simpl in *. subst. eauto.
  - intros [c Hu]. exists (c, id, r). done.
Qed.

Lemma new_room id m c r :
  new = Some (id, m) -> (c, id, r) ∈ mb_unread (mailbox_of d) -> c = ms_conversation m.
Proof using Hf Hm.
  intros E (i & dl & m' & _ & Hp & <- & Hmid & _)%elem_of_unread.
  unfold pendingMessage in Hp. destruct (dl_acked dl); [done|]. rewrite Hmid in Hp.
  assert (db_messages d !! id = Some m) as Hid; [|congruence].
  rewrite Hm. apply with_new_lookup; [done|]. by right.
Qed.

Lemma unread_posted id m : new = Some (id, m) ->
  mb_unread (mailbox_of d) ≡ set_map (fun r => (ms_conversation m, id, r)) (waiting id) ∪
    mb_unread (mailbox_of d0) ∩ mb_unread (mailbox_of d).
Proof using Hf Hm Hmail.
  intros E [[c mid] r]. rewrite elem_of_union, elem_of_intersection, elem_of_map.
  setoid_rewrite elem_of_waiting. split.
  - intros Hu. apply unread_new in Hu as Hu'. destruct Hu' as [?|(m' & E' & <-)]; [by right|left].
    rewrite E in E'. injection E' as -> ->. exists r. eauto.
  - intros [(r' & [= -> -> ->] & c' & Hu)|[_ ?]]; [|done]. by rewrite <-(new_room id m c' r' E Hu).
Qed.

Lemma simulates : mailbox_steps (mailbox_of d0) (mailbox_of d).
Proof using All.
  etransitivity; [apply mailbox_prepared|].
  change (mailbox_of d) with
    (mkMailbox (mb_logs (mailbox_of d)) (receiversOf d) (mb_unread (mailbox_of d))).
  assert (new = None \/ exists id m, new = Some (id, m)) as [E|(id & m & E)] by (destruct new as [[]|]; eauto).
  - rewrite logs_same by done. eapply steps_to; [apply rtc_refl|done|done|].
    intros [[c mid] r]. rewrite elem_of_intersection. split; [|tauto]. intros Hu. split; [|done].
    apply unread_new in Hu as [?|(m & E' & _)]; [done|congruence].
  - destruct (logs_posted id m E) as (l & Hl & ->).
    eapply steps_to; [apply rtc_once, (mailbox_post (ms_conversation m) id (waiting id) l); [done|..]
      |done|done|by apply unread_posted].
    + intros c' l' Hl' Hin. apply (opened_elem c' l' id Hl') in Hin as [m' Hm'].
      rewrite E in Hf. simpl in Hf. congruence.
    + intros r [c Hu]%elem_of_waiting. rewrite <-(new_room id m c r E Hu). by eapply unread_receives.
Qed.
End Simulation.

(** C2: The store refines the mailbox contract: every step of the relay from a
    reachable state, whatever it does, is a sequence of contract steps between
    the mailboxes read off the tables, so every reachable store is a mailbox
    that the contract allows.  Logs only grow at the end by new messages, mail
    is only added for a new message and for identities that may receive, and a
    revoked right leaves nothing unread. *)
Theorem store_refines_mailbox `{Env} s :
  reachable s ->
  (forall s', step s s' -> rtc mailbox_step (mailbox_of (st_db s)) (mailbox_of (st_db s'))) /\
  rtc mailbox_step emptyMailbox (mailbox_of (st_db s)).
Proof.
  assert (forall s, reachable s -> forall s', step s s' ->
    rtc mailbox_step (mailbox_of (st_db s)) (mailbox_of (st_db s'))) as Hsim.
  { clear s. intros s Hs s' Hstep.
    assert (reachable s') as Hs' by (eapply rtc_r; eassumption).
    pose proof (stable_steps _ _ _ (rtc_once _ _ Hstep) (mail_from_refl (st_db s))) as Hmail.
    pose proof (stable_steps (rooms_kept (st_db s)) _ _ (rtc_once _ _ Hstep) (fun c Hc => Hc)) as Hrooms.
    pose proof (reachable_invariant _ _ Hs' : direct_rooms _ /\ rights _) as [_ Hrights].
    assert (posted (db_messages (st_db s)) (st_db s')) as (new & Hf & Hm).
    { destruct Hstep as [op s r s' Hr|p s]; [|by exists None].
      eapply op_posts; [exact Hr|done|by apply posted_none]. }
    eapply simulates; try done; by apply reachable_logged. }
  intros Hs. split; [by apply Hsim|]. change emptyMailbox with (mailbox_of emptyDb).
  refine (rtc_ind_r (fun s => rtc mailbox_step (mailbox_of emptyDb) (mailbox_of (st_db s)))
    (newSt emptyDb) (rtc_refl _ _) _ s Hs).
  intros s1 s2 Hs1 Hstep IH. etransitivity; [exact IH|]. by apply Hsim.
Qed.
