(* ===== verification/Progress.v ===== *)
(** * Progress: closing a delivery and maintenance never get stuck

    In a store that accepts writes, the invariants of the earlier files are
    enough for the operations that close deliveries to succeed: the quota
    release finds its counters, the cursor finds its room, and the maintenance
    loop closes exactly as many overdue deliveries as its batch allows. *)

From S2P Require Import Prelude GoTime RateLimit Quota Text Sha256 Tables Tx Sessions Pending.
From S2P Require Import Invocations Rooms Claims Roles Directory Messages Deliveries QuotaInv Relay.
From S2P Require Import QuotaOps History Members Rights Cursors.
Open Scope Z_scope.

(** [uuid.NewString] returns the 36-character textual form, never the empty
    string. *)
Class UuidNonEmpty `{Env} : Prop := uuid_nonempty : forall n, uuid_NewString n <> "".

Definition ids_named (d : Db) : Prop :=
  forall id dl, db_deliveries d !! id = Some dl -> id <> "".

Lemma ids_update id cond f : preserves ids_named (sql_update t_deliveries id cond f).
Proof.
  intros s n s' [(_ & -> & _)|(_ & dl & Hid & _ & _ & _ & ->)]%sql_update_ok HI; [done|].
  intros id' dl' Hid'. cbn in Hid'. apply lookup_insert_Some in Hid' as [[<- _]|[_ ?]]; by eapply HI.
Qed.

Lemma ids_update_where cond f : preserves ids_named (sql_update_where t_deliveries cond f).
Proof.
  intros s n s' [[-> _]|(_ & _ & ->)]%sql_update_where_ok HI; [done|].
  intros id dl. cbn. rewrite lookup_imap_upd. intros (dl' & Hid & _)%fmap_Some. by eapply HI.
Qed.
#[export] Hint Resolve ids_update ids_update_where : preserve.

Section Named.
Context `{UuidNonEmpty}.

Lemma ids_insert messageID r : preserves ids_named (insertDelivery messageID r).
Proof.
  intros s u s' Hi HI. unfold insertDelivery in Hi. tx_inv Hi.
  apply sql_insert_ok in Hi as (_ & _ & _ & _ & ->). intros id dl Hid. cbn in Hid.
  apply lookup_insert_Some in Hid as [[<- _]|[_ ?]]; [apply uuid_nonempty|by eapply HI].
Qed.
#[local] Hint Resolve ids_insert : preserve.

#[export] Instance ids_named_invariant : RelayInvariant ids_named.
Proof. split; [split; [intros p d HI; exact HI|intros op; keep_op]|]. by intros ? ?. Qed.
End Named.

(** One delivery per message and recipient. *)
Definition unique_deliveries (d : Db) : Prop :=
  forall id id' dl dl', db_deliveries d !! id = Some dl -> db_deliveries d !! id' = Some dl' ->
    dl_message dl = dl_message dl' -> dl_recipient dl = dl_recipient dl' -> id = id'.

Lemma unique_deliveries_row d id dl :
  unique_deliveries d -> db_deliveries d !! id = Some dl ->
  forall dl', dl_message dl' = dl_message dl -> dl_recipient dl' = dl_recipient dl ->
  row_ok t_deliveries d id dl' = true.
Proof.
  intros HI Hid dl' Hm Hr. unfold row_ok. cbn. apply negb_true_iff. apply mexists_false.
  intros k w Hk. cbn in Hk. destruct (decide (k = id)) as [->|Hne]; [by rewrite bool_decide_true|].
  rewrite (bool_decide_false (k = id)) by done. simpl.
  destruct (bool_decide (dl_message w = _)) eqn:E1; [|done].
  destruct (bool_decide (dl_recipient w = _)) eqn:E2; [|done]. bool_hyps.
  exfalso. apply Hne. apply (HI k id w dl); [done|done|congruence..].
Qed.

Lemma unique_deliveries_insert id dl : preserves unique_deliveries (sql_insert t_deliveries id dl).
Proof.
  intros s u s' (_ & Hid & Hrow & _ & ->)%sql_insert_ok HI. cbn in Hid.
  assert (forall id' dl', db_deliveries (st_db s) !! id' = Some dl' -> id' <> id ->
    dl_message dl' = dl_message dl -> dl_recipient dl' = dl_recipient dl -> False) as Hno.
  { intros id' dl' Hdl' Hne Hm Hr. unfold row_ok in Hrow. cbn in Hrow.
    apply negb_true_iff in Hrow. eapply mexists_false in Hrow; [|exact Hdl'].
    rewrite bool_decide_false, !bool_decide_true in Hrow by done. done. }
  intros i j di dj Hi Hj Hm Hr. cbn in Hi, Hj.
  apply lookup_insert_Some in Hi as [[<- <-]|[Hni Hi]], Hj as [[<- <-]|[Hnj Hj]]; [done|..].
  - by destruct (Hno j dj).
  - by destruct (Hno i di).
  - by eapply HI.
Qed.

Lemma unique_deliveries_update id cond f :
  not_reopened f -> preserves unique_deliveries (sql_update t_deliveries id cond f).
Proof.
  intros Hf s n s' [(_ & -> & _)|(_ & dl & Hid & _ & _ & _ & ->)]%sql_update_ok HI; [done|].
  destruct (Hf dl) as (Hm & Hr & _). cbn in Hid.
  intros i j di dj Hi Hj. cbn in Hi, Hj.
  apply lookup_insert_Some in Hi as [[<- <-]|[Hni Hi]], Hj as [[<- <-]|[Hnj Hj]];
    rewrite ?Hm, ?Hr; [done|by apply HI..].
Qed.

Lemma unique_deliveries_update_where cond f :
  not_reopened f -> preserves unique_deliveries (sql_update_where t_deliveries cond f).
Proof.
  intros Hf s n s' [[-> _]|(_ & _ & ->)]%sql_update_where_ok HI; [done|].
  assert (forall id dl', db_deliveries (st_db (update_rows t_deliveries cond f s)) !! id = Some dl' ->
    exists dl, db_deliveries (st_db s) !! id = Some dl /\ dl_message dl' = dl_message dl /\
      dl_recipient dl' = dl_recipient dl) as Hrow.
  { intros id dl'. cbn. rewrite lookup_imap_upd. intros (dl & Hid & ->)%fmap_Some.
    exists dl. split; [done|]. destruct (cond id dl); [|done]. by destruct (Hf dl) as (? & ? & _). }
  intros i j di dj (di' & Hi & Hm & Hr)%Hrow (dj' & Hj & Hm' & Hr')%Hrow E1 E2.
  apply (HI i j di' dj'); [done|done|congruence..].
Qed.

#[export] Hint Resolve unique_deliveries_insert : preserve.
#[export] Hint Extern 1 (preserves unique_deliveries (sql_update t_deliveries _ _ _)) =>
  apply unique_deliveries_update; by intros ? : preserve.
#[export] Hint Extern 1 (preserves unique_deliveries (sql_update_where t_deliveries _ _)) =>
  apply unique_deliveries_update_where; by intros ? : preserve.

#[export] Instance unique_deliveries_invariant `{Env} : RelayInvariant unique_deliveries.
Proof. split; [split; [intros p d HI; exact HI|intros op; keep_op]|]. by intros ? ? ? ?. Qed.

(** ** What every reachable state satisfies *)

Definition sound (d : Db) : Prop :=
  quota_ok d /\ cursors_ok d /\ rights d /\ members_valid d /\ ids_named d /\ unique_deliveries d.

Lemma reachable_sound `{UuidNonEmpty} s : reachable s -> sound (st_db s).
Proof.
  intros Hs. pose proof (reachable_invariant _ _ Hs : direct_rooms _ /\ rights _) as [_ HR].
  pose proof (reachable_invariant _ _ Hs : members_valid _ /\ cursors_ok _) as [HM HC].
  split_and!; [by apply (reachable_invariant quota_ok)|done|done|done|..];
    [by apply (reachable_invariant ids_named)|by apply (reachable_invariant unique_deliveries)].
Qed.

(** A pending delivery has a message, a room and a named recipient. *)
Lemma pending_facts d id dl m :
  sound d -> db_deliveries d !! id = Some dl -> pendingMessage d dl = Some m ->
  id <> "" /\ dl_recipient dl <> "" /\ is_Some (db_conversations d !! ms_conversation m) /\
  db_messages d !! dl_message dl = Some m /\ dl_acked dl = None.
Proof.
  intros (_ & HC & HR & HM & HN & _) Hid Hm. split_and!.
  - by eapply HN.
  - destruct HR as [_ HR]. destruct (HR id dl m Hid Hm) as [(v & Hv & _)|(r & v & -> & _)]; [done| |done].
    intros Heq. rewrite Heq in Hv. apply HM in Hv. done.
  - destruct HC as (_ & _ & Hmsg & _). unfold pendingMessage in Hm. destruct (dl_acked dl); [done|].
    destruct (Hmsg _ _ Hm) as (cv & ? & _). eauto.
  - unfold pendingMessage in Hm. by destruct (dl_acked dl).
  - unfold pendingMessage in Hm. by destruct (dl_acked dl).
Qed.

(** ** Runs that succeed *)

Lemma insert_or_ignore_total {K V} `{Countable K} (T : Table K V) k v s :
  may_write T s -> t_fk T (st_db s) k v = true ->
  exists s', sql_insert_or_ignore T k v s = (inr tt, s') /\ (s' = s \/ s' = set_row T k v s).
Proof.
  intros Hw Hf. destruct (row_ok T (st_db s) k v) eqn:Hr.
  - rewrite sql_insert_or_ignore_run by done. eexists. split; [done|]. destruct (has _ _); auto.
  - exists s. split; [|by left]. unfold sql_insert_or_ignore.
    erewrite bind_run; [reflexivity|]. unfold sql_try_insert.
    erewrite bind_run by (by apply trigger_run). erewrite bind_run by reflexivity.
    by rewrite Hr, orb_true_r.
Qed.

Lemma advance_run r c s :
  writable (st_db s) = true -> cursors_ok (st_db s) -> is_Some (db_conversations (st_db s) !! c) ->
  exists s', advanceRecipientCursor r c s = (inr tt, s').
Proof.
  intros Hw HI Hc. unfold advanceRecipientCursor.
  destruct (ensure_row_run t_recipient_cursors (r, c) 0 s) as (s1 & E1 & [v Hv] & Hs1);
    [done|by apply may_write_guarded|done|by apply has_true|].
  erewrite bind_run by exact E1. cbn in Hv.
  assert (writable (st_db s1) = true) as Hw1 by by destruct Hs1 as [->| ->].
  assert (is_Some (db_conversations (st_db s1) !! c)) as [cv Hcv] by by destruct Hs1 as [->| ->].
  assert (0 <= v) as Hv0.
  { destruct HI as (_ & _ & _ & Hcur). destruct Hs1 as [->| ->]; cbn in Hv.
    - by destruct (Hcur _ _ _ Hv) as [[? _] _].
    - rewrite lookup_insert_eq in Hv. by simplify_eq. }
  erewrite bind_run by (apply query_or_ok; split; [exact Hv|reflexivity]).
  erewrite bind_run by reflexivity.
  set (next := mmin _ _). assert (exists target,
    (match next with Some n => mret (n - 1) | None => query_or ErrNoRows
      (fun d => cv_next_sequence <$> db_conversations d !! c) end) s1 = (inr target, s1)) as [target Ht].
  { destruct next; [by eexists|]. eexists. apply query_or_ok. by rewrite Hcv. }
  erewrite bind_run by exact Ht. destruct (Z.ltb_spec v target); [|by eexists].
  erewrite bind_run.
  2: { apply (sql_update_run t_recipient_cursors (r, c) _ _ _ v Hv); [by apply Z.eqb_eq|by apply may_write_guarded|].
       unfold row_ok. cbn. by destruct (Z.leb_spec 0 target); [|lia]. }
  by eexists.
Qed.

(** The tables the quota and cursor updates leave alone. *)
Definition same_mail (d0 d : Db) : Prop :=
  db_deliveries d = db_deliveries d0 /\ db_messages d = db_messages d0 /\
  db_phase d = db_phase d0 /\ db_conversations d = db_conversations d0.

Lemma close_run id dl m reason now s :
  writable (st_db s) = true -> sound (st_db s) -> db_deliveries (st_db s) !! id = Some dl ->
  pendingMessage (st_db s) dl = Some m ->
  exists s', closePendingDelivery (closeOf id dl m) reason now s = (inr true, s') /\
    exists t, db_deliveries (st_db s') = <[id := closeRow t dl]> (db_deliveries (st_db s)) /\
      db_messages (st_db s') = db_messages (st_db s) /\ db_phase (st_db s') = db_phase (st_db s).
Proof.
  intros Hw HS Hid Hm. destruct (pending_facts _ _ _ _ HS Hid Hm) as (Hn & Hr & Hc & Hmsg & Ha).
  unfold closePendingDelivery.
  erewrite bind_run by (apply reject_if_run; cbn; by rewrite !bool_decide_false).
  set (t := ms (Time.TruncateMs now)).
  assert (isPending dl = true) as Hp by (unfold isPending; by rewrite Ha).
  set (s1 := set_row t_deliveries id (closeRow t dl) s).
  assert (sql_update t_deliveries id isPending (closeRow t) s = (inr 1, s1)) as E1.
  { apply sql_update_run; [done|done|by apply may_write_guarded|].
    destruct HS as (_ & _ & _ & _ & _ & HU). by eapply unique_deliveries_row. }
  erewrite bind_run by exact E1. simpl.
  destruct (insert_or_ignore_total t_delivery_terminals id (terminalOf (closeOf id dl m) reason t) s1)
    as (s2 & E2 & Hs2); [by apply may_write_guarded|done|]. erewrite bind_run by exact E2.
  pose proof HS as (HQ & HC & _).
  assert (quota_credit [dl_recipient dl] (bodyBytes m) (st_db s2)) as HQ2.
  { step_back E2. apply close_delivery_credit in E1 as (dl' & m' & Hid' & _ & Hm' & _ & HI');
      [by simplify_eq|apply closeRow_closes|done]. }
  assert (cursors_ok (st_db s2)) as HC2 by (step_back E2; by step_back E1).
  assert (writable (st_db s2) = true) as Hw2 by by destruct Hs2 as [->| ->].
  destruct (releaseQuota_run (dl_recipient dl) (bodyBytes m) s2) as (s3 & E3);
    [done|apply bodyBytes_nonneg|done|done|]. erewrite bind_run by exact E3.
  assert (same_mail (st_db s1) (st_db s3)) as (Hd3 & Hm3 & Hp3 & Hc3).
  { step_back E3. by step_back E2. }
  destruct (advance_run (dl_recipient dl) (ms_conversation m) s3) as (s4 & E4).
  { unfold writable. by rewrite Hp3. }
  { by step_back E3. }
  { by rewrite Hc3. }
  erewrite bind_run by exact E4. exists s4. split; [done|]. exists t.
  assert (same_mail (st_db s3) (st_db s4)) as (Hd4 & Hm4 & Hp4 & _) by by step_back E4.
  rewrite Hd4, Hd3, Hm4, Hm3, Hp4, Hp3. done.
Qed.

(** ** Maintenance *)

(** The pending deliveries whose message is not newer than [cutoff]. *)
Definition isDue (d : Db) (cutoff : Z) (dl : DeliveryRow) : bool :=
  match pendingMessage d dl with Some m => ms_created_at m <=? cutoff | None => false end.

Definition dueCount (d : Db) (cutoff : Z) : Z := mcount (fun _ dl => isDue d cutoff dl) (db_deliveries d).

Lemma oldestDue_None d cutoff : oldestDue d cutoff = None -> dueCount d cutoff = 0.
Proof.
  intros Hnone. pose proof (mcount_nonneg (fun _ dl => isDue d cutoff dl) (db_deliveries d)) as Hpos.
  unfold dueCount. destruct (Z.eq_dec (mcount (fun _ dl => isDue d cutoff dl) (db_deliveries d)) 0) as [|Hne]; [done|].
  exfalso. assert (0 < mcount (fun _ dl => isDue d cutoff dl) (db_deliveries d)) as Hlt by lia.
  apply mcount_pos in Hlt as (id & dl & Hid & Hdue). unfold isDue in Hdue.
  destruct (pendingMessage d dl) as [m|] eqn:Hm; [|done].
  unfold oldestDue in Hnone. apply head_None in Hnone.
  assert (closeOf id dl m ∈ []) as Hin; [|by apply elem_of_nil in Hin].
  rewrite <-Hnone. apply elem_of_sortBy, list_elem_of_omap. exists (id, dl).
  split; [by apply elem_of_map_to_list|]. simpl. by rewrite Hm, Hdue.
Qed.

Lemma oldestDue_Some d cutoff row :
  oldestDue d cutoff = Some row ->
  exists id dl m, db_deliveries d !! id = Some dl /\ pendingMessage d dl = Some m /\
    ms_created_at m <= cutoff /\ row = closeOf id dl m.
Proof.
  unfold oldestDue. intros Hrow%head_Some_elem_of. apply elem_of_sortBy in Hrow.
  apply list_elem_of_omap in Hrow as ([id dl] & Hin & Hrow).
  apply elem_of_map_to_list in Hin. simpl in Hrow.
  destruct (pendingMessage d dl) as [m|] eqn:Hm; [|done].
  destruct (Z.leb_spec (ms_created_at m) cutoff); [|done]. simplify_eq. by exists id, dl, m.
Qed.

Lemma close_sound id dl m reason now b s s' :
  closePendingDelivery (closeOf id dl m) reason now s = (inr b, s') ->
  db_deliveries (st_db s) !! id = Some dl -> pendingMessage (st_db s) dl = Some m ->
  sound (st_db s) -> sound (st_db s').
Proof.
  intros Hc Hid Hm (HQ & HC & HR & HM & HN & HU). split_and!; [|by step_back Hc..].
  eapply closePendingDelivery_quota; [exact Hc| |done]. intros dl' Hdl'. cbn in Hdl'. rewrite Hid in Hdl'.
  injection Hdl' as <-. split; [done|]. exists m. unfold pendingMessage in Hm. by destruct (dl_acked dl).
Qed.

(** Closing a due delivery leaves one fewer. *)
Lemma due_closed d d' id dl m t cutoff :
  db_deliveries d !! id = Some dl -> pendingMessage d dl = Some m -> ms_created_at m <= cutoff ->
  db_deliveries d' = <[id := closeRow t dl]> (db_deliveries d) -> db_messages d' = db_messages d ->
  dueCount d' cutoff = dueCount d cutoff - 1.
Proof.
  intros Hid Hm Hc Hd Hms. unfold dueCount, mcount. rewrite Hd.
  assert (forall dl, isDue d' cutoff dl = isDue d cutoff dl) as Heq
    by (intros dl'; unfold isDue, pendingMessage; by rewrite Hms).
  rewrite (msum_ext _ (fun _ dl => indicator (isDue d cutoff dl))) by (intros; by rewrite Heq).
  rewrite (msum_update (fun _ dl => indicator (isDue d cutoff dl)) _ _ _ _ Hid). simpl.
  assert (isDue d cutoff dl = true) as -> by (unfold isDue; rewrite Hm; by apply Z.leb_le).
  change (isDue d cutoff (closeRow t dl)) with false. cbn. lia.
Qed.

Lemma expire_run cutoff now s :
  writable (st_db s) = true -> sound (st_db s) ->
  dueCount (st_db s) cutoff = 0 /\ expireOneDueDelivery cutoff now s = (inr (false, false), s) \/
  exists s', expireOneDueDelivery cutoff now s = (inr (true, true), s') /\ sound (st_db s') /\
    db_phase (st_db s') = db_phase (st_db s) /\
    dueCount (st_db s') cutoff = dueCount (st_db s) cutoff - 1.
Proof.
  intros Hw HS. unfold expireOneDueDelivery, transact. erewrite bind_run by reflexivity.
  destruct (oldestDue (st_db s) cutoff) as [row|] eqn:Hrow; [right|left].
  - apply oldestDue_Some in Hrow as (id & dl & m & Hid & Hm & Hc & ->).
    destruct (close_run id dl m ClosedExpired now s Hw HS Hid Hm) as (s' & E & t & Hd & Hms & Hp).
    exists s'. erewrite bind_run by exact E. split_and!; [done|by eapply close_sound|done|].
    by eapply due_closed.
  - apply oldestDue_None in Hrow. done.
Qed.

Lemma expireLoop_run fuel cutoff now scanned expired s :
  writable (st_db s) = true -> sound (st_db s) ->
  exists s', let k := Z.min (Z.of_nat fuel) (dueCount (st_db s) cutoff) in
    expireLoop fuel cutoff now scanned expired s = (inr (scanned + k, expired + k, None), s') /\
    sound (st_db s') /\ db_phase (st_db s') = db_phase (st_db s) /\
    dueCount (st_db s') cutoff = dueCount (st_db s) cutoff - k.
Proof.
  revert scanned expired s. induction fuel as [|fuel IH]; intros scanned expired s Hw HS; cbv zeta.
  - pose proof (mcount_nonneg (fun _ dl => isDue (st_db s) cutoff dl) (db_deliveries (st_db s))).
    unfold dueCount. rewrite Z.min_l by lia. exists s. cbn. rewrite !Z.add_0_r.
    split_and!; [done..|]. unfold dueCount. lia.
  - simpl. destruct (expire_run cutoff now s Hw HS) as [[Hz E]|(s1 & E & HS1 & Hp1 & Hd1)].
    + exists s. erewrite bind_run by (unfold attempt; by rewrite E). rewrite Hz, Z.min_r by lia.
      rewrite !Z.add_0_r. split_and!; [done..|lia].
    + erewrite bind_run by (unfold attempt; by rewrite E).
      assert (writable (st_db s1) = true) as Hw1 by (unfold writable; by rewrite Hp1).
      destruct (IH (scanned + 1) (expired + 1) s1 Hw1 HS1) as (s2 & E2 & HS2 & Hp2 & Hd2).
      exists s2. rewrite E2, Hd1.
      replace (Z.min (Z.of_nat (S fuel)) (dueCount (st_db s) cutoff)) with
        (1 + Z.min (Z.of_nat fuel) (dueCount (st_db s) cutoff - 1)) by lia.
      split_and!; [by rewrite !Z.add_assoc|done|congruence|]. rewrite Hd2, Hd1. lia.
Qed.

Lemma delete_where_total {K V} `{Countable K} (T : Table K V) cond s :
  may_write T s ->
  exists s', sql_delete_where T cond s = (inr tt, s') /\ (s' = s \/ s' = delete_rows T cond s).
Proof.
  intros Hw. unfold sql_delete_where. erewrite bind_run by reflexivity.
  destruct (mexists _ _); [|by exists s; split; [|left]].
  erewrite bind_run by by apply trigger_run. eexists. split; [done|]. by right.
Qed.

Lemma prune_run cutoff s :
  writable (st_db s) = true ->
  exists b s', pruneOneTerminal cutoff s = (inr b, s') /\ same_mail (st_db s) (st_db s').
Proof.
  intros Hw. unfold pruneOneTerminal, transact. erewrite bind_run by reflexivity.
  destruct (head _) as [id|]; [|by exists false, s].
  destruct (delete_where_total t_delivery_terminals (fun k _ => bool_decide (k = id)) s)
    as (s' & E & Hs'); [by apply may_write_guarded|].
  erewrite bind_run by exact E. exists true, s'. split; [done|]. by destruct Hs' as [->| ->].
Qed.

Lemma pruneLoop_run fuel cutoff pruned s :
  writable (st_db s) = true ->
  exists n s', pruneLoop fuel cutoff pruned s = (inr (n, None), s') /\ same_mail (st_db s) (st_db s').
Proof.
  revert pruned s. induction fuel as [|fuel IH]; intros pruned s Hw; simpl; [by exists pruned, s|].
  destruct (prune_run cutoff s Hw) as (b & s1 & E & Hs1).
  erewrite bind_run by (unfold attempt; by rewrite E).
  destruct b; [|by exists pruned, s1].
  destruct (IH (pruned + 1) s1) as (n & s2 & E2 & Hs2).
  { unfold writable. destruct Hs1 as (_ & _ & Hp & _). by rewrite Hp. }
  exists n, s2. split; [done|]. unfold same_mail in *. naive_solver congruence.
Qed.

Lemma dueCount_same d d' cutoff : same_mail d d' -> dueCount d' cutoff = dueCount d cutoff.
Proof.
  intros (Hd & Hm & _). unfold dueCount, mcount. rewrite Hd. apply msum_ext. intros id dl _.
  unfold isDue, pendingMessage. by rewrite Hm.
Qed.

Definition pendingCutoff (s : St) (wall : Z) : Z :=
  ms (Time.Add (Time.TruncateMs wall) (- (PendingMaxAgeSeconds (retentionConfig s) * Time.Second))).

Definition maintenanceBatch (s : St) : Z := Z.of_nat (Z.to_nat (MaintenanceBatch (retentionConfig s))).

(** C29: Maintenance makes progress: in a reachable store that accepts writes, one
    pass succeeds and closes exactly as many overdue deliveries as its batch
    allows, every one it scanned, leaving that many fewer overdue. *)
Theorem maintain_progress `{UuidNonEmpty} wall s :
  reachable s -> writable (st_db s) = true ->
  exists res s', MaintainDeliveries wall s = (inr res, s') /\
    mr_Expired res = Z.min (maintenanceBatch s) (dueCount (st_db s) (pendingCutoff s wall)) /\
    mr_Scanned res = mr_Expired res /\
    dueCount (st_db s') (pendingCutoff s wall) =
      dueCount (st_db s) (pendingCutoff s wall) - mr_Expired res.
Proof.
  intros Hreach Hw. apply reachable_sound in Hreach as HS. unfold MaintainDeliveries.
  erewrite bind_run by reflexivity. cbv zeta.
  destruct (expireLoop_run (Z.to_nat (MaintenanceBatch (retentionConfig s))) (pendingCutoff s wall)
    (Time.TruncateMs wall) 0 0 s Hw HS) as (s1 & E1 & HS1 & Hp1 & Hd1).
  erewrite bind_run by exact E1. cbv beta iota.
  edestruct (pruneLoop_run (Z.to_nat (MaintenanceBatch (retentionConfig s)))) as (n & s2 & E2 & Hs2).
  { instantiate (1 := s1). unfold writable. by rewrite Hp1. }
  erewrite bind_run by exact E2. cbv beta iota.
  erewrite bind_run by reflexivity.
  edestruct refreshPendingMetrics_run as (s3 & E3 & Hd3).
  erewrite bind_run by exact E3. eexists _, s3. split; [reflexivity|]. cbn [mr_Expired mr_Scanned].
  split_and!; [done|done|]. rewrite Hd3.
  etransitivity; [apply (dueCount_same (st_db s1)); exact Hs2|]. exact Hd1.
Qed.
