(* ===== verification/Occupancy.v ===== *)
(** * Occupancy: one exclusive room per session endpoint

    A room is exclusive once it has a display name or a Telegram claim.  The
    store promises that an endpoint other than the gateway sits in at most one
    exclusive room, and checks it wherever a seat is taken (creation, member
    upsert) or a room becomes exclusive (rename, adoption, claim). *)

From S2P Require Import Prelude GoTime RateLimit Quota Text Sha256 Tables Tx Sessions Pending.
From S2P Require Import Invocations Rooms Claims Roles Directory Messages Deliveries QuotaInv Relay.
From S2P Require Import QuotaOps History Members Rights Cursors Progress.
Open Scope Z_scope.

Definition excl (d : Db) (i : string) : bool :=
  match db_conversations d !! i with Some c => exclusiveRow d i c | None => false end.

Definition seated (d : Db) (i e : string) : Prop := is_Some (db_memberships d !! (i, e)).

Definition sits (i e : string) (d : Db) : Prop := seated d i e.

(** [e] sits in no exclusive room but possibly [i]. *)
Definition free (d : Db) (i e : string) : Prop := forall j, j <> i -> seated d j e -> excl d j = false.

Definition sole (d : Db) : Prop := forall e i j, e <> TelegramGatewayEndpoint ->
  seated d i e -> seated d j e -> excl d i = true -> excl d j = true -> i = j.

(** Seats and claims belong to existing rooms, whose identifiers are not empty. *)
Definition anchored (d : Db) : Prop :=
  (forall i, is_Some (db_conversations d !! i) -> i <> "") /\
  (forall i e, seated d i e -> is_Some (db_conversations d !! i)) /\
  (forall i, is_Some (db_telegram_claims d !! i) -> is_Some (db_conversations d !! i)).

Definition occupancy (d : Db) : Prop := anchored d /\ sole d.

(** ** What a change must respect *)

(** A new seat. *)
Lemma sole_seat d d' i e :
  sole d -> (forall j x, seated d' j x -> seated d j x \/ j = i /\ x = e) ->
  (forall j, excl d' j = true -> excl d j = true) ->
  e = TelegramGatewayEndpoint \/ (excl d i = true -> free d i e) -> sole d'.
Proof.
  intros HI Hs Hx Hfree x j k Hgw Hj Hk Hxj Hxk.
  apply Hx in Hxj, Hxk. apply Hs in Hj, Hk.
  destruct Hj as [Hj|[-> ->]], Hk as [Hk|[-> Ek]]; [by eapply HI|subst..]; [| |done].
  - destruct Hfree as [->|Hfree]; [done|]. destruct (decide (j = i)) as [|Hne]; [done|].
    by rewrite (Hfree Hxk j Hne Hj) in Hxj.
  - destruct Hfree as [->|Hfree]; [done|]. destruct (decide (k = i)) as [|Hne]; [done|].
    by rewrite (Hfree Hxj k Hne Hk) in Hxk.
Qed.

(** A room that becomes exclusive. *)
Lemma sole_excl d d' i :
  sole d -> (forall j x, seated d' j x -> seated d j x) ->
  (forall j, excl d' j = true -> excl d j = true \/ j = i) ->
  excl d i = true \/ (forall e, e <> TelegramGatewayEndpoint -> seated d i e -> free d i e) -> sole d'.
Proof.
  intros HI Hs Hx Hfree e j k Hgw Hj Hk Hxj Hxk. apply Hs in Hj, Hk. apply Hx in Hxj, Hxk.
  assert (excl d i = true -> j = k) as Hold.
  { intros Hi. apply (HI e j k Hgw Hj Hk); [by destruct Hxj as [? | -> ]|by destruct Hxk as [? | -> ]]. }
  destruct Hfree as [Hi|Hfree]; [by apply Hold|].
  destruct Hxj as [Hxj|Ej], Hxk as [Hxk|Ek]; [by eapply HI|..]; subst; [| |done].
  - destruct (decide (j = i)) as [|Hne]; [done|]. by rewrite (Hfree e Hgw Hk j Hne Hj) in Hxj.
  - destruct (decide (k = i)) as [|Hne]; [done|]. by rewrite (Hfree e Hgw Hj k Hne Hk) in Hxk.
Qed.

(** ** The check *)

Lemma occupies_seated d e i now : seated d i e -> occupies d e i now = true.
Proof. unfold occupies, seated. intros Hs%has_true. by rewrite Hs. Qed.

Lemma occupiesOther_free d e i now : occupiesOther d e i now = false -> free d i e.
Proof.
  intros Ho j Hne Hs. unfold excl. destruct (db_conversations d !! j) as [c|] eqn:Hj; [|done].
  apply not_true_iff_false. intros Hx. apply not_true_iff_false in Ho. apply Ho.
  apply mexists_true. exists j, c. split; [done|]. rewrite bool_decide_eq_false_2 by done.
  by rewrite Hx, (occupies_seated _ _ _ now Hs).
Qed.

Lemma occupancy_checked e i now u s s' :
  sessionOccupiesOtherExclusiveConversation e i now s = (inr u, s') ->
  s' = s /\ (e = TelegramGatewayEndpoint \/ free (st_db s) i e).
Proof.
  unfold sessionOccupiesOtherExclusiveConversation. intros Hc. case_bool_decide as He; tx_inv Hc.
  - split; [done|]. by left.
  - split; [done|]. right. by eapply occupiesOther_free.
Qed.

Lemma occupancy_checked_all es i now u s s' :
  for_each es (fun e => sessionOccupiesOtherExclusiveConversation e i now) s = (inr u, s') ->
  s' = s /\ forall e, e ∈ es -> e = TelegramGatewayEndpoint \/ free (st_db s) i e.
Proof.
  induction es as [|e es IH]; simpl; intros Hc; tx_inv Hc; [split; [done|set_solver]|].
  apply occupancy_checked in Hm as [-> He]. apply IH in Hc as [-> Hes].
  split; [done|]. intros x [->|Hx]%elem_of_cons; auto.
Qed.

Lemma occupants_checked i now u s s' :
  rejectExclusiveOccupants i now s = (inr u, s') ->
  s' = s /\ forall e, e <> TelegramGatewayEndpoint -> seated (st_db s) i e -> free (st_db s) i e.
Proof.
  intros Hc. unfold rejectExclusiveOccupants in Hc. tx_inv Hc.
  apply occupancy_checked_all in Hc as [-> Hes]. split; [done|]. intros e Hgw [v Hv].
  destruct (Hes e) as [->|Hf]; [|done..]. unfold occupants. apply elem_of_remove_dups, elem_of_app. left.
  apply list_elem_of_fmap. exists (i, e). split; [done|]. apply elem_of_select_keys.
  exists v. split; [done|]. by apply bool_decide_eq_true.
Qed.

(** ** Statements *)

(** Seats that move within existing rooms keep rooms as they are. *)
Lemma excl_seats d x i : excl (set_memberships x d) i = excl d i.
Proof. done. Qed.

Lemma occupancy_seats d x :
  occupancy d -> (forall i e, is_Some (x !! (i, e)) -> seated d i e) -> occupancy (set_memberships x d).
Proof.
  intros [(Hn & Hs & Hc) HI] Hx. split; [split_and!; [done| |done]|].
  - intros i e Hi. apply Hs with e, Hx, Hi.
  - intros e i j Hgw Hi Hj. apply (HI e i j Hgw); by apply Hx.
Qed.

Lemma seated_insert d i e v j x :
  is_Some (<[(i, e) := v]> (db_memberships d) !! (j, x)) -> j = i /\ x = e \/ seated d j x.
Proof. rewrite lookup_insert_is_Some. intros [[= <- <-]|[_ ?]]; auto. Qed.

Lemma occupancy_take_seat d i e v :
  occupancy d -> is_Some (db_conversations d !! i) ->
  seated d i e \/ e = TelegramGatewayEndpoint \/ (excl d i = true -> free d i e) ->
  occupancy (set_memberships (<[(i, e) := v]> (db_memberships d)) d).
Proof.
  intros HI Hi [Hseat|Hfree].
  - apply occupancy_seats; [done|]. by intros j x [[-> ->]|?]%seated_insert.
  - destruct HI as [(Hn & Hs & Hc) HI]. split; [split_and!; [done| |done]|].
    + intros j x [[-> ->]|Hj]%seated_insert; [done|by eapply Hs].
    + eapply (sole_seat d _ i e); [done| |done|done].
      intros j x [?|?]%seated_insert; [by right|by left].
Qed.

Lemma occupancy_gateway i v :
  preserves occupancy (sql_insert t_memberships (i, TelegramGatewayEndpoint) v).
Proof.
  intros s u s' (_ & _ & _ & Hfk%has_true & ->)%sql_insert_ok HI. apply occupancy_take_seat; auto.
Qed.

Lemma occupancy_update k cond f : preserves occupancy (sql_update t_memberships k cond f).
Proof.
  intros s n s' [(_ & -> & _)|(_ & v & Hv & _ & _ & _ & ->)]%sql_update_ok HI; [done|].
  apply occupancy_seats; [done|]. intros i e [->|[_ ?]]%lookup_insert_is_Some; [|done].
  by exists v.
Qed.

Lemma occupancy_delete cond : preserves occupancy (sql_delete_where t_memberships cond).
Proof.
  intros s u s' [[-> _]|(_ & _ & ->)]%sql_delete_where_ok HI; [done|].
  apply occupancy_seats; [done|]. intros i e [v Hv]. cbn in Hv.
  apply map_lookup_filter_Some in Hv as [Hv _]. by exists v.
Qed.

(** Rooms that keep their seats; only [i] may become exclusive. *)
Lemma occupancy_rooms d x i :
  occupancy d -> (forall j, is_Some (db_conversations d !! j) <-> is_Some (x !! j)) ->
  (forall j, excl (set_conversations x d) j = true -> excl d j = true \/ j = i) ->
  excl d i = true \/ (forall e, e <> TelegramGatewayEndpoint -> seated d i e -> free d i e) ->
  occupancy (set_conversations x d).
Proof.
  intros [(Hn & Hs & Hc) HI] Hx He Hfree. split; [split_and!|].
  - intros j Hj. by apply Hn, Hx.
  - intros j e Hj. apply Hx, Hs with e, Hj.
  - intros j Hj. by apply Hx, Hc.
  - by eapply (sole_excl d _ i).
Qed.

Lemma occupancy_bump i cond :
  preserves occupancy (sql_update t_conversations i cond bumpSequence).
Proof.
  intros s n s' [(_ & -> & _)|(_ & c & Hc & _ & _ & _ & ->)]%sql_update_ok HI; [done|].
  cbn in Hc. assert (forall j, excl (set_conversations (<[i := bumpSequence c]> (db_conversations (st_db s)))
    (st_db s)) j = excl (st_db s) j) as He.
  { intros j. unfold excl. cbn. rewrite lookup_insert. case_decide as Hj; [|done]. subst. by rewrite Hc. }
  destruct HI as [(Hn & Hs & Hcl) HI]. split; [split_and!|].
  - intros j. cbn. rewrite lookup_insert_is_Some. intros [<-|[_ ?]]; auto.
  - intros j e Hj. cbn. rewrite lookup_insert_is_Some'. right. by eapply Hs.
  - intros j Hj. cbn. rewrite lookup_insert_is_Some'. right. by eapply Hcl.
  - intros e j k Hgw Hj Hk. change (excl (st_db (set_row t_conversations i (bumpSequence c) s)))
      with (excl (set_conversations (<[i := bumpSequence c]> (db_conversations (st_db s))) (st_db s))).
    rewrite !He. by eapply HI.
Qed.

Lemma excl_set x d j :
  excl (set_conversations x d) j = match x !! j with Some c => exclusiveRow d j c | None => false end.
Proof. done. Qed.

Lemma occupancy_rename i name u s s' :
  setDisplayName i name s = (inr u, s') -> occupancy (st_db s) ->
  excl (st_db s) i = true \/
    (forall e, e <> TelegramGatewayEndpoint -> seated (st_db s) i e -> free (st_db s) i e) ->
  occupancy (st_db s').
Proof.
  intros Hm HI Hfree. unfold setDisplayName in Hm. tx_inv Hm.
  apply sql_update_ok in Hm0 as [(_ & -> & _)|(_ & c & Hc & _ & _ & _ & ->)]; [done|]. cbn in Hc.
  apply (occupancy_rooms _ _ i); [done| | |done].
  - intros j. rewrite lookup_insert_is_Some'. split; [by right|]. intros [->|?]; [by exists c|done].
  - intros j. rewrite excl_set, lookup_insert. case_decide as Hj; [by right|by left].
Qed.

(** A new room has no seats, and no claim either. *)
Lemma occupancy_new_room i c d :
  occupancy d -> db_conversations d !! i = None -> i <> "" ->
  occupancy (set_conversations (<[i := c]> (db_conversations d)) d) /\
  (forall e, ~ seated d i e) /\ has (db_telegram_claims d) i = false.
Proof.
  intros [(Hn & Hs & Hc) HI] Hi Hne.
  assert (forall e, ~ seated d i e) as Hempty.
  { intros e He%Hs. rewrite Hi in He. by apply is_Some_None in He. }
  split_and!; [split; [split_and!|]|done|].
  - intros j. cbn. rewrite lookup_insert_is_Some. intros [<-|[_ ?]]; auto.
  - intros j e Hj. cbn. rewrite lookup_insert_is_Some'. right. by eapply Hs.
  - intros j Hj. cbn. rewrite lookup_insert_is_Some'. right. by eapply Hc.
  - intros e j k Hgw Hj Hk. rewrite !excl_set, !lookup_insert.
    case_decide as Ej; [subst; by apply Hempty in Hj|]. case_decide as Ek; [subst; by apply Hempty in Hk|].
    by apply (HI e).
  - apply not_true_iff_false. intros Hcl%has_true%Hc. rewrite Hi in Hcl. by apply is_Some_None in Hcl.
Qed.

Lemma occupancy_claim i row u s s' :
  sql_insert t_telegram_claims i row s = (inr u, s') -> occupancy (st_db s) ->
  (forall e, e <> TelegramGatewayEndpoint -> seated (st_db s) i e -> free (st_db s) i e) ->
  occupancy (st_db s').
Proof.
  intros (_ & _ & _ & Hfk%has_true & ->)%sql_insert_ok [(Hn & Hs & Hc) HI] Hfree.
  split; [split_and!; [done|done|]|].
  - intros j. cbn. rewrite lookup_insert_is_Some. intros [<-|[_ ?]]; auto.
  - eapply (sole_excl (st_db s) _ i); [done|done| |by right].
    intros j. unfold excl. cbn. destruct (db_conversations (st_db s) !! j) as [c|]; [|by left].
    unfold exclusiveRow. cbn. unfold has. rewrite lookup_insert. case_decide; [by right|by left].
Qed.

Lemma occupancy_claim_update i cond f : preserves occupancy (sql_update t_telegram_claims i cond f).
Proof.
  intros s n s' [(_ & -> & _)|(_ & cl & Hcl & _ & _ & _ & ->)]%sql_update_ok [(Hn & Hs & Hc) HI]; [done|].
  cbn in Hcl. split; [split_and!; [done|done|]|].
  - intros j. cbn. rewrite lookup_insert_is_Some. intros [<-|[_ ?]]; eauto.
  - eapply (sole_seat (st_db s) _ "" TelegramGatewayEndpoint); [done|by left| |by left].
    intros j. unfold excl. cbn. destruct (db_conversations (st_db s) !! j) as [c|]; [|done].
    unfold exclusiveRow. cbn. unfold has. rewrite lookup_insert. case_decide as Hj; [|done].
    subst. by rewrite Hcl.
Qed.
#[export] Hint Resolve occupancy_gateway occupancy_update occupancy_delete occupancy_bump
  occupancy_claim_update : preserve.

(** ** Creating a room *)

(** While the members of room [i] are added: none of them is stuck elsewhere. *)
Definition joining (i : string) (es : list string) (d : Db) : Prop :=
  occupancy d /\ is_Some (db_conversations d !! i) /\
  (excl d i = true -> forall e, e ∈ es -> e = TelegramGatewayEndpoint \/ free d i e).

Lemma joining_add i es m :
  (m_Endpoint m <> "" -> m_Endpoint m ∈ es) -> preserves (joining i es) (addMember i m).
Proof.
  intros Hin. unfold addMember. case_bool_decide as He; simpl; [apply frame_insert; frame_tac|].
  intros s u s' (_ & _ & _ & _ & ->)%sql_insert_ok (HI & Hi & Hfree). split_and!; [|done|].
  - apply occupancy_take_seat; [done|done|]. right.
    destruct (excl (st_db s) i) eqn:Hx; [|by right]. destruct (Hfree eq_refl _ (Hin He)); auto.
  - intros Hx e Hes. destruct (Hfree Hx e Hes) as [?|Hf]; [by left|right].
    intros j Hne Hj. apply Hf; [done|]. by apply seated_insert in Hj as [[-> _]|?].
Qed.

Lemma checkMembers_endpoints creator members es rs admin es' rs' admin' :
  checkMembers creator members es rs admin = Some (es', rs', admin') ->
  (forall e, e ∈ es -> e ∈ es') /\
  (forall m, m ∈ members -> m_Endpoint m <> "" -> m_Endpoint m ∈ es').
Proof.
  revert es rs admin. induction members as [|m members IH]; intros es rs admin; simpl.
  { intros [= <- _ _]. split; [done|]. intros m Hm. by apply elem_of_nil in Hm. }
  destruct (negb (validCapabilities _)); [done|]. destruct (_ && _ && _) eqn:Hkind.
  - destruct (_ || _ || _); [done|]. intros [Hes Hms]%IH. split; [intros e He; apply Hes; set_solver|].
    intros m' [->|Hm']%elem_of_cons He; [apply Hes; set_solver|auto].
  - destruct (bool_decide (m_Endpoint m = "") && _ && _ && _) eqn:Hk; [|done].
    destruct (_ || _); [done|]. intros [Hes Hms]%IH. split; [done|].
    intros m' [->|Hm']%elem_of_cons He; [by bool_hyps|auto].
Qed.

Section Occupancy.
Context `{UuidNonEmpty}.

Lemma create_checked (name : string) es rs now u s s' :
  (if bool_decide (name = "") then mret tt else rejectExclusiveCreateOccupancy es rs now) s = (inr u, s') ->
  st_db s' = st_db s /\
  (name <> "" -> forall e, e ∈ es -> e = TelegramGatewayEndpoint \/ free (st_db s) "" e).
Proof.
  case_bool_decide as Hn; intros Hc; [by tx_inv Hc|]. unfold rejectExclusiveCreateOccupancy in Hc. tx_inv Hc.
  apply occupancy_checked_all in Hc as [-> Hes]. split; [done|]. intros _ e He. apply Hes. set_solver.
Qed.

(** In a store whose rooms have names, nobody is seated in room [""]. *)
Lemma free_anywhere d e i : occupancy d -> free d "" e -> forall j, j <> i -> seated d j e -> excl d j = false.
Proof.
  intros [(Hn & Hs & _) _] Hf j _ Hj. apply Hf; [|done]. by eapply Hn, Hs.
Qed.

Lemma occupancy_create input name es rs admin :
  checkMembers (cc_CreatorEndpoint input) (cc_Members input) [] [] false = Some (es, rs, admin) ->
  preserves occupancy (insertConversation input name es rs).
Proof.
  intros Hcm s conv s' Hi HI. apply checkMembers_endpoints in Hcm as [_ Hms].
  unfold insertConversation in Hi. tx_inv Hi. simplify_eq/=.
  assert (occupancy (st_db s0)) as HI0 by by step_back Hm.
  apply create_checked in Hm0 as [E1 Hfree].
  assert (occupancy (st_db s1)) as HI1 by by rewrite E1.
  assert (joining (uuid_NewString (st_supply s2)) es (st_db s4)) as [HI4 _].
  { eapply (preserved _ _ _ _ _ Hm3);
      [apply preserves_for_each; intros m Hm'; apply joining_add; by apply Hms|].
    assert (occupancy (st_db s2) /\ forall e, e ∈ es -> name <> "" -> e = TelegramGatewayEndpoint \/ free (st_db s2) "" e)
      as [HI2 Hfree2].
    { split; [by step_back Hm1|]. intros e He Hn. rewrite <-E1 in Hfree.
      destruct (Hfree Hn e He) as [?|Hf]; [by left|right].
      exact (preserved (fun d => free d "" e) _ _ _ _ Hm1 ltac:(preserve) Hf). }
    apply sql_insert_ok in Hm2 as (_ & Hnone & _ & _ & ->).
    edestruct (occupancy_new_room (uuid_NewString (st_supply s2))) as (HIn & Hempty & Hcl);
      [exact HI2|exact Hnone|apply uuid_nonempty|].
    split_and!; [exact HIn|cbn; rewrite lookup_insert_is_Some'; by left|].
    intros Hx e He. destruct (decide (name = "")) as [->|Hn].
    - exfalso. cbn in Hx. rewrite excl_set, lookup_insert_eq in Hx. unfold exclusiveRow in Hx. cbn in Hx.
      by rewrite Hcl in Hx.
    - destruct (Hfree2 e He Hn) as [?|Hf]; [by left|right]. intros j Hne Hj.
      cbn. rewrite excl_set, lookup_insert_ne by done.
      exact (free_anywhere _ e _ HI2 Hf j Hne Hj). }
  destruct (bool_decide (cc_MachineID input = "")); [by tx_inv Hm4|]. by step_back Hm4.
Qed.

(** ** Members, names, claims and direct rooms *)

Lemma admitMember_free i e now u s s' :
  admitMember i e now s = (inr u, s') ->
  s' = s /\ (e = TelegramGatewayEndpoint \/ (excl (st_db s) i = true -> free (st_db s) i e)).
Proof.
  intros Ha. pose proof Ha as Hr. unfold admitMember, conversationIsExclusive, endpointActive in Ha.
  tx_inv Ha. destruct (exclusiveRow _ _ _) eqn:Hx.
  - apply occupancy_checked in Ha as [-> Hf]. split; [done|]. destruct Hf; auto.
  - tx_inv Ha. split; [done|]. right. unfold excl.
    match goal with Hc : db_conversations _ !! i = Some _ |- _ => rewrite Hc end. congruence.
Qed.

Lemma upsertMember_occupancy i e caps now : preserves occupancy (upsertMember i e caps now).
Proof.
  intros s n s' Hu HI. unfold upsertMember in Hu. tx_inv Hu. step_back Hm1.
  assert (occupancy (st_db s0)) as HI0 by by step_back Hm.
  assert (seated (st_db s0) i e \/ e = TelegramGatewayEndpoint \/
    (excl (st_db s0) i = true -> free (st_db s0) i e)) as Hseat.
  { destruct (db_memberships (st_db s) !! (i, e)) as [p|] eqn:Hp; tx_inv Hm.
    - left. assert (sits i e (st_db s0)) as Hs; [|exact Hs]. step_back Hm. step_back Hm2. by exists p.
    - right. by apply admitMember_free in Hm2 as [-> ?]. }
  apply sql_upsert_ok in Hm0 as (_ & [(_ & _ & Hfk%has_true & ->)|(w & Hw & _ & ->)]).
  - by apply occupancy_take_seat.
  - apply occupancy_take_seat; [done| |left; by exists w]. destruct HI0 as [(_ & Hs & _) _]. by eapply Hs; exists w.
Qed.

Lemma conversation_found i c s s' :
  conversationByID i s = (inr c, s') ->
  s' = s /\ c_ID c = i /\
  exists row, db_conversations (st_db s) !! i = Some row /\ c_DisplayName c = displayName row.
Proof. intros Hc. unfold conversationByID in Hc. tx_inv Hc. eauto. Qed.

Lemma named_excl d i row :
  db_conversations d !! i = Some row -> displayName row <> "" -> excl d i = true.
Proof.
  intros Hi Hn. unfold excl. rewrite Hi. unfold exclusiveRow. by rewrite bool_decide_eq_false_2.
Qed.

Lemma rename_occupancy input : keeps occupancy (SetConversationDisplayName input).
Proof.
  unfold SetConversationDisplayName. keep. intros x r x' Hr HI. tx_inv Hr.
  apply (ltac:(reads) : reads (requireAdmin _ _ _ _)) in Hm. rewrite <-Hm in HI.
  destruct (_ !! _) as [row|]; tx_inv Hr.
  { by apply conversation_found in Hm1 as [-> _]. }
  apply conversation_found in Hm0 as (-> & _ & row & Hrow & Hname).
  step_back Hm2. case_bool_decide; [by tx_inv Hm1|]. apply bind_ok in Hm1 as ([] & s4 & Hchk & Hset).
  case_bool_decide as Hun.
  - apply occupants_checked in Hchk as [-> Hfree]. apply (occupancy_rename _ _ _ _ _ Hset HI). by right.
  - tx_inv Hchk. apply (occupancy_rename _ _ _ _ _ Hset HI). left. eapply named_excl; [done|]. by rewrite <-Hname.
Qed.

Lemma adopt_named i now name :
  preserves occupancy (rejectAdoptPrepareOccupancy i now;; setDisplayName i name).
Proof.
  intros s u s' ([] & s1 & Hchk & Hset)%bind_ok HI. unfold rejectAdoptPrepareOccupancy in Hchk. tx_inv Hchk.
  apply occupants_checked in Hchk as [-> Hfree]. apply (occupancy_rename _ _ _ _ _ Hset HI). by right.
Qed.

Lemma claim_reserved {A} i now row (k : unit -> M A) :
  (forall u, preserves occupancy (k u)) ->
  preserves occupancy (rejectExclusiveClaimOccupancy i now;; sql_insert t_telegram_claims i row ≫= k).
Proof.
  intros Hk s a s' ([] & s1 & Hchk & Hr)%bind_ok HI. apply occupants_checked in Hchk as [-> Hfree].
  apply bind_ok in Hr as (u & s2 & Hins & Hr). eapply Hk; [exact Hr|]. by eapply occupancy_claim.
Qed.

Lemma direct_occupancy low high from to now :
  preserves occupancy (getOrCreateDirectConversation low high from to now).
Proof.
  intros s c s' Hg HI. pose proof Hg as Hid.
  apply getOrCreateDirectConversation_ok in Hg as [(row & _ & _ & ->)|(Hn & Hc & _ & E)]; [done|].
  assert (c <> "" \/ st_db s' = st_db s) as [Hne | -> ]; [|rewrite E|done].
  { unfold getOrCreateDirectConversation in Hid. tx_inv Hid. case_match; tx_inv Hid.
    - left. apply uuid_nonempty.
    - right. by apply modify_ok in Hm2 as ->. }
  exact (proj1 (occupancy_new_room c (newConversationRow now None) (st_db s) HI Hc Hne)).
Qed.

#[local] Hint Resolve upsertMember_occupancy rename_occupancy adopt_named direct_occupancy : preserve.
#[local] Hint Extern 1 (preserves occupancy (mbind _ (rejectExclusiveClaimOccupancy _ _))) =>
  apply claim_reserved; intros ?; preserve : preserve.
#[local] Hint Extern 1 (preserves occupancy (insertConversation _ _ _ _)) =>
  eapply occupancy_create; eassumption : preserve.

#[export] Instance occupancy_invariant : RelayInvariant occupancy.
Proof.
  split; [split; [intros p d HI; exact HI|intros op; keep_op]|].
  split; [split_and!|].
  - by intros i [c Hc].
  - by intros i e [v Hv].
  - by intros i [cl Hcl].
  - by intros e i j _ [v Hv].
Qed.
End Occupancy.

(** Exclusive occupancy: in every reachable state an endpoint other than the
    Telegram gateway is a member of at most one room that has a display name or
    a Telegram claim. *)
Theorem one_exclusive_room `{UuidNonEmpty} e i j ci cj vi vj s :
  reachable s -> e <> TelegramGatewayEndpoint ->
  db_memberships (st_db s) !! (i, e) = Some vi -> db_memberships (st_db s) !! (j, e) = Some vj ->
  db_conversations (st_db s) !! i = Some ci -> db_conversations (st_db s) !! j = Some cj ->
  exclusiveRow (st_db s) i ci = true -> exclusiveRow (st_db s) j cj = true -> i = j.
Proof.
  intros Hs Hgw Hi Hj Hci Hcj Hxi Hxj. destruct (reachable_invariant occupancy _ Hs) as [_ Hsole].
  apply (Hsole e i j Hgw); [by exists vi|by exists vj|..]; unfold excl; [by rewrite Hci|by rewrite Hcj].
Qed.
