(* ===== verification/Paging.v ===== *)
(** * Paging: walking the role directory

    A page token survives its encoding, and a client that follows the tokens
    from the first page sees every addressable role once, in order, and stops. *)

From S2P Require Import Prelude GoTime RateLimit Quota Text Sha256 Tables Tx Sessions Pending.
From S2P Require Import Invocations Rooms Claims Roles Directory Messages Deliveries QuotaInv Relay.
Open Scope Z_scope.

(** ** Tokens *)

Lemma canonical_not_empty role : CanonicalRoleHandle role = true -> role <> "".
Proof. by intros Hc ->. Qed.

Lemma encode_not_empty l : l <> [] -> Base64.EncodeToString l <> "".
Proof. destruct l as [|a [|b [|c l]]]; done. Qed.

Lemma cursor_decodes role :
  CanonicalRoleHandle role = true -> DecodeRoleListCursor (EncodeRoleListCursor role) = Some role.
Proof.
  intros Hc. unfold EncodeRoleListCursor, DecodeRoleListCursor. rewrite Hc.
  rewrite bool_decide_eq_false_2.
  - rewrite base64_roundtrip by apply bytesOf_range. simpl. by rewrite ofBytes_bytesOf, Hc.
  - apply encode_not_empty. intros E%bytesOf_nil. by apply (canonical_not_empty role).
Qed.

(** ** Order *)

Lemma leb_le a b : bool_rel String.leb a b <-> String.le a b.
Proof. unfold bool_rel, String.le. by rewrite Is_true_true. Qed.

#[export] Instance leb_transitive : Transitive (bool_rel String.leb).
Proof. intros a b c. rewrite !leb_le. apply transitivity. Qed.
#[export] Instance leb_total : Total (bool_rel String.leb).
Proof. intros a b. rewrite !leb_le. apply total, _. Qed.

Definition before (a b : string) : Prop := stringLt a b = true.

Lemma before_leb a b : bool_rel String.leb a b -> a <> b -> before a b.
Proof.
  unfold bool_rel, before, stringLt, String.leb, String.ltb.
  destruct (String.compare a b) eqn:E; [|done..]. by apply String.compare_eq_iff in E.
Qed.

Lemma before_asymmetric a b : before a b -> ~ before b a.
Proof.
  unfold before, stringLt, String.ltb. rewrite (String.compare_antisym a b).
  by destruct (String.compare b a).
Qed.

Lemma before_irreflexive a : ~ before a a.
Proof. intros Ha. by apply (before_asymmetric a a). Qed.

Lemma sorted_before l : NoDup l -> StronglySorted (bool_rel String.leb) l -> StronglySorted before l.
Proof.
  intros Hnd Hs. induction Hs as [|a l Hs IH Ha]; [constructor|]. apply NoDup_cons in Hnd as [Hn Hnd].
  constructor; [by apply IH|]. rewrite Forall_forall in Ha |- *. intros b Hb.
  apply before_leb; [by apply Ha|]. by intros ->.
Qed.

Definition listed (c c' : RoleContact) : Prop := before (rc_Role c) (rc_Role c').

Lemma contactOf_role d now role c : contactOf d now role = Some c -> rc_Role c = role.
Proof.
  unfold contactOf. intros (p & _ & (owner & _ & Hc)%bind_Some)%bind_Some. case_match; by simplify_eq.
Qed.

Lemma contacts_sorted d now : StronglySorted listed (contacts d now).
Proof.
  unfold contacts. assert (StronglySorted before (sortStrings (map_to_list (db_role_profiles d)).*1)) as Hs.
  { apply sorted_before; [|apply (StronglySorted_merge_sort _)].
    unfold sortStrings. rewrite sortBy_perm. apply NoDup_fst_map_to_list. }
  induction Hs as [|role l Hs IH Hr]; simpl; [constructor|].
  destruct (contactOf d now role) as [c|] eqn:Hc; [|done]. constructor; [done|].
  apply Forall_forall. intros c' (role' & Hin & Hc')%list_elem_of_omap.
  unfold listed. rewrite (contactOf_role _ _ _ _ Hc), (contactOf_role _ _ _ _ Hc'). by apply (proj1 (Forall_forall _ _) Hr).
Qed.

(** In a sorted list, the rows after [x] are the rest. *)
Lemma filter_after (l1 l2 : list RoleContact) x :
  StronglySorted listed (l1 ++ x :: l2) ->
  filter (fun c => stringLt (rc_Role x) (rc_Role c) = true) (l1 ++ x :: l2) = l2.
Proof.
  intros Hs. rewrite filter_app, filter_cons_False by apply before_irreflexive.
  rewrite filter_empty, filter_all; [done|..].
  - intros c Hc. apply StronglySorted_app_1_r in Hs. apply StronglySorted_inv in Hs as [_ Hx].
    rewrite Forall_forall in Hx. by apply Hx.
  - intros c Hc. apply before_asymmetric.
    apply (StronglySorted_app_1_elem_of listed _ _ c x Hs); set_solver.
Qed.

(** ** Registered roles *)

Definition profiles_canonical (d : Db) : Prop :=
  forall role p, db_role_profiles d !! role = Some p -> CanonicalRoleHandle role = true.

Lemma profiles_insert role p :
  CanonicalRoleHandle role = true -> preserves profiles_canonical (sql_insert t_role_profiles role p).
Proof.
  intros Hc s u s' (_ & _ & _ & _ & ->)%sql_insert_ok HI r q Hq. cbn in Hq.
  apply lookup_insert_Some in Hq as [[<- _]|[_ Hq]]; [done|by eapply HI].
Qed.

Lemma profiles_update role cond f : preserves profiles_canonical (sql_update t_role_profiles role cond f).
Proof.
  intros s n s' [(_ & -> & _)|(_ & p & Hp & _ & _ & _ & ->)]%sql_update_ok HI; [done|].
  intros r q Hq. cbn in Hq. apply lookup_insert_Some in Hq as [[<- _]|[_ Hq]]; by eapply HI.
Qed.

Lemma canonical_for_machine role machineID :
  CanonicalRoleForMachine role machineID = true -> CanonicalRoleHandle role = true.
Proof. unfold CanonicalRoleForMachine. intros Hc. by bool_hyps. Qed.

#[export] Hint Resolve profiles_update : preserve.
#[export] Hint Extern 1 (preserves profiles_canonical (sql_insert t_role_profiles _ _)) =>
  apply profiles_insert; bool_hyps; eapply canonical_for_machine; eassumption : preserve.

#[export] Instance profiles_invariant `{Env} : RelayInvariant profiles_canonical.
Proof. split; [split; [intros p d HI; exact HI|intros op; keep_op]|]. by intros ? ?. Qed.

Lemma contacts_canonical d now c :
  profiles_canonical d -> c ∈ contacts d now -> CanonicalRoleHandle (rc_Role c) = true.
Proof.
  intros HI (role & _ & Hc)%list_elem_of_omap. rewrite (contactOf_role _ _ _ _ Hc).
  unfold contactOf in Hc. apply bind_Some in Hc as (p & Hp & _). by eapply HI.
Qed.

(** ** The walk *)

(** A client that follows the tokens, for at most [pages] requests. *)
Fixpoint walkDirectory (pages : nat) (cursor : string) (limit now : Z) : M (list RoleContact) :=
  match pages with
  | O => throw ErrDiverges
  | S pages =>
      page ← ListAddressableRoles cursor limit now;
      if bool_decide (pg_NextCursor page = "") then mret (pg_Roles page)
      else rest ← walkDirectory pages (pg_NextCursor page) limit now; mret (pg_Roles page ++ rest)
  end.

(** [cursor] stands between the roles seen, [seen], and the others. *)
Definition cursor_at (seen : list RoleContact) (cursor : string) : Prop :=
  match last seen with Some c => cursor = EncodeRoleListCursor (rc_Role c) | None => cursor = "" end.

Lemma cursor_rest d now seen rest cursor :
  profiles_canonical d -> contacts d now = seen ++ rest -> cursor_at seen cursor ->
  exists after, DecodeRoleListCursor cursor = Some after /\
    filter (fun c => (bool_decide (after = "") || stringLt after (rc_Role c)) = true) (contacts d now) = rest.
Proof.
  intros HI Hd Hc. unfold cursor_at in Hc. destruct (last seen) as [c|] eqn:Hl.
  - apply last_Some in Hl as [seen' ->]. rewrite <-(assoc_L (++)) in Hd. simpl in Hd.
    assert (CanonicalRoleHandle (rc_Role c) = true) as Hcan.
    { eapply contacts_canonical; [done|]. rewrite Hd. set_solver. }
    exists (rc_Role c). split; [subst; by apply cursor_decodes|].
    rewrite bool_decide_eq_false_2 by by apply canonical_not_empty. simpl.
    pose proof (contacts_sorted d now) as Hs. rewrite Hd in Hs |- *. by apply filter_after.
  - apply last_None in Hl as ->. subst. exists "". split; [done|]. rewrite Hd. simpl.
    by apply filter_all.
Qed.

Lemma walk_rest d now limit pages seen rest cursor s :
  st_db s = d -> profiles_canonical d -> 1 <= limit <= MaxRoleListLimit ->
  contacts d now = seen ++ rest -> cursor_at seen cursor ->
  (0 < pages)%nat -> Z.of_nat (length rest) <= Z.of_nat pages * limit ->
  walkDirectory pages cursor limit now s = (inr rest, s).
Proof.
  intros Hs HI Hlim. revert seen rest cursor. induction pages as [|pages IH]; [lia|].
  intros seen rest cursor Hd Hc _ Hlen. simpl.
  destruct (cursor_rest d now seen rest cursor HI Hd Hc) as (after & Hafter & Hrest).
  unfold ListAddressableRoles. rewrite Hafter. unfold reject_if.
  destruct ((limit <? 1) || (MaxRoleListLimit <? limit)) eqn:Hb; [bool_cases; lia|].
  unfold query, gets, mbind, M_bind, mret, M_ret. simpl. rewrite Hs, Hrest, length_take.
  destruct (Nat.ltb_spec (Z.to_nat limit) (Z.to_nat (limit + 1) `min` length rest)) as [Hmore|Hlast].
  - assert (take (Z.to_nat limit) (take (Z.to_nat (limit + 1)) rest) = take (Z.to_nat limit) rest) as ->.
    { rewrite take_take. f_equal. lia. }
    assert (exists c, last (take (Z.to_nat limit) rest) = Some c) as [c Hlast].
    { apply last_is_Some. intros E%(f_equal length). rewrite length_take in E. simpl in E. lia. }
    assert (CanonicalRoleHandle (rc_Role c) = true) as Hcan.
    { eapply contacts_canonical; [done|]. rewrite Hd, <-(take_drop (Z.to_nat limit) rest).
      apply last_Some_elem_of in Hlast. set_solver. }
    simpl. rewrite Hlast, bool_decide_eq_false_2.
    + erewrite (IH (seen ++ take (Z.to_nat limit) rest) (drop (Z.to_nat limit) rest)).
      * by rewrite take_drop.
      * by rewrite <-(assoc_L (++)), take_drop.
      * unfold cursor_at. by rewrite last_app, Hlast.
      * destruct pages; [lia|lia].
      * rewrite length_drop. lia.
    + intros E. apply (f_equal DecodeRoleListCursor) in E. rewrite cursor_decodes in E by done.
      injection E as E. by apply (canonical_not_empty _ Hcan).
  - simpl. f_equal. f_equal. apply take_ge. lia.
Qed.

(** C35: Walking the directory terminates and is exact: with enough requests for
    the number of roles, following the tokens from the first page returns every
    opted-in role with an owner, in strictly increasing order and hence once,
    and nothing else. *)
Theorem directory_walk_exact `{Env} s limit now pages :
  reachable s -> 1 <= limit <= MaxRoleListLimit -> (0 < pages)%nat ->
  Z.of_nat (length (contacts (st_db s) now)) <= Z.of_nat pages * limit ->
  exists l, walkDirectory pages "" limit now s = (inr l, s) /\
    StronglySorted before (rc_Role <$> l) /\
    forall role, role ∈ rc_Role <$> l <->
      exists p owner, db_role_profiles (st_db s) !! role = Some p /\ db_roles (st_db s) !! role = Some owner /\
        pr_addressable p = true.
Proof.
  intros Hs Hlim Hp Hlen. exists (contacts (st_db s) now). split_and!.
  - by eapply (walk_rest (st_db s) now limit pages []);
      [|apply (reachable_invariant profiles_canonical _ Hs)|..].
  - apply (StronglySorted_fmap _ listed before); [done|apply contacts_sorted].
  - intros role. rewrite list_elem_of_fmap. setoid_rewrite list_elem_of_omap.
    unfold sortStrings. setoid_rewrite elem_of_sortBy. split.
    + intros (c & -> & role' & _ & Hc). rewrite (contactOf_role _ _ _ _ Hc). unfold contactOf in Hc.
      apply bind_Some in Hc as (p & ? & (owner & ? & Hc)%bind_Some). exists p, owner. by case_match.
    + intros (p & owner & Hpr & Ho & Ha).
      assert (exists c, contactOf (st_db s) now role = Some c) as [c Hc].
      { unfold contactOf. rewrite Hpr, Ho. simpl. rewrite Ha. eauto. }
      exists c. split; [by rewrite (contactOf_role _ _ _ _ Hc)|]. exists role. split; [|done].
      apply list_elem_of_fmap. exists (role, p). split; [done|]. by apply elem_of_map_to_list.
Qed.

(** A page token is decoded to the role it was made for, and only tokens of
    canonical roles (or the empty token of the first page) are accepted. *)
Theorem cursor_roundtrip role :
  CanonicalRoleHandle role = true ->
  DecodeRoleListCursor (EncodeRoleListCursor role) = Some role /\
  forall cursor after, DecodeRoleListCursor cursor = Some after ->
    after = "" /\ cursor = "" \/ CanonicalRoleHandle after = true.
Proof.
  intros Hc. split; [by apply cursor_decodes|]. intros cursor after. unfold DecodeRoleListCursor.
  case_bool_decide; [intros [= <-]; by left|]. intros (raw & _ & Hd)%bind_Some. right.
  destruct (CanonicalRoleHandle (ofBytes raw)) eqn:E; by simplify_eq.
Qed.
