(* ===== verification/Fence.v ===== *)
(** * Lease fencing: who may acknowledge a delivery

    A lease names a delivery, a token and a generation.  The delivery a lease
    page hands out can be acknowledged with what the page says; once a newer
    lease has been granted, or the delivery is closed, the older one is refused
    for good. *)

From S2P Require Import Prelude GoTime RateLimit Quota Text Sha256 Tables Tx Sessions Pending.
From S2P Require Import Invocations Rooms Claims Roles Directory Messages Deliveries QuotaInv Relay.
From S2P Require Import QuotaOps History Replay Members Rights Cursors Progress.
Open Scope Z_scope.

(** ** Stale leases *)

Lemma AckDelivery_ok machineID endpoint id token generation now s s' :
  AckDelivery machineID endpoint id token generation now s = (inr tt, s') ->
  exists r s1, ackTransaction machineID endpoint id token generation now s = (inr r, s1) /\
    st_db s' = st_db s1.
Proof.
  intros Ha. unfold AckDelivery in Ha. tx_inv Ha. exists a, s0. split; [done|].
  destruct a as [n|]; tx_inv Ha; [|done]. by apply refreshPendingMetrics_db in Ha.
Qed.

(** A stale lease is refused for good: once a delivery's fence generation has
    moved past the one a consumer holds, no acknowledgement with the old
    generation succeeds in any later state. *)
Theorem stale_lease_refused `{Env} s s' id dl machineID endpoint token generation now s'' :
  db_deliveries (st_db s) !! id = Some dl -> generation < dl_generation dl -> rtc step s s' ->
  AckDelivery machineID endpoint id token generation now s' <> (inr tt, s'').
Proof.
  intros Hid Hg Hs Ha. pose proof (stable_steps _ _ _ Hs (deliveries_evolve_refl (st_db s))) as HE.
  destruct (HE id dl Hid) as (dl' & Hid' & (_ & _ & Hge & _)).
  apply AckDelivery_ok in Ha as (r & s1 & Ht & _).
  apply ackTransaction_ok in Ht as (e & dl2 & _ & Hid2 & _ & Hm & _). simplify_eq.
  unfold leaseMatches in Hm. bool_hyps. lia.
Qed.

(** ** What a lease page grants *)

(** The delivery is pending and leased to the caller under [token, generation]. *)
Definition granted (d : Db) (machineID : string) (ownership consumer now : Z) (id : string)
    (recipient token : string) (generation : Z) : Prop :=
  exists dl, db_deliveries d !! id = Some dl /\ dl_recipient dl = recipient /\ isPending dl = true /\
    leaseMatches dl token generation = true /\ leaseCurrent dl machineID ownership consumer now = true.

Section Grants.
Context `{Env}.

Lemma leaseDelivery_grants machineID endpoint ownership consumer now ttl id dl m v b s s' :
  leaseDelivery machineID endpoint ownership consumer now ttl (id, dl, m) s = (inr (v, b), s') ->
  db_deliveries (st_db s) !! id = Some dl -> isPending dl = true -> ms now < ms (Time.Add now ttl) ->
  v_ID v = id /\
  granted (st_db s') machineID ownership consumer now id (dl_recipient dl) (v_LeaseToken v)
    (v_LeaseGeneration v) /\
  exists x, st_db s' = set_deliveries x (st_db s) /\
    forall k, k <> id -> x !! k = db_deliveries (st_db s) !! k.
Proof.
  intros Hl Hid Hp Httl. unfold leaseDelivery in Hl. tx_inv Hl.
  destruct (leaseCurrent dl machineID ownership consumer now) eqn:Hcur; tx_inv Hl; simplify_eq.
  - split_and!; [done| |].
    + exists dl. split_and!; try done. unfold leaseCurrent, leaseMatches in *. cbn. bool_hyps.
      destruct (dl_token dl); [|done]. simpl. rewrite bool_decide_true by done. simpl. lia.
    + exists (db_deliveries (st_db s)). split; [by destruct (st_db s)|done].
  - apply sql_update_ok in Hm0 as [(_ & _ & Hno)|(_ & dl' & Hid' & _ & _ & _ & ->)].
    { by specialize (Hno dl Hid). }
    cbn in Hid'. rewrite Hid in Hid'. injection Hid' as <-. split_and!; [done| |].
    + eexists. split; [cbn; by rewrite lookup_insert_eq|].
      unfold leaseMatches, leaseCurrent. cbn. rewrite !bool_decide_true by done. simpl.
      split_and!; [done|done|lia|lia].
    + eexists. split; [done|]. intros k Hk. by rewrite lookup_insert_ne.
Qed.

(** Every result of the loop is granted in the final state. *)
Lemma lease_loop_grants machineID endpoint ownership consumer now ttl rows r s s' :
  collect rows (leaseDelivery machineID endpoint ownership consumer now ttl) s = (inr r, s') ->
  still_pending rows (st_db s) -> NoDup (rows.*1).*1 -> ms now < ms (Time.Add now ttl) ->
  (exists x, st_db s' = set_deliveries x (st_db s) /\
    forall k, k ∉ (rows.*1).*1 -> x !! k = db_deliveries (st_db s) !! k) /\
  forall v, v ∈ r.*1 -> exists row, row ∈ rows /\
    granted (st_db s') machineID ownership consumer now (v_ID v) (dl_recipient row.1.2)
      (v_LeaseToken v) (v_LeaseGeneration v).
Proof.
  intros Hl Hp Hnd Httl. revert r s Hl Hp Hnd.
  induction rows as [|[[id dl] m] rows IH]; intros r s Hl Hp Hnd; simpl in Hl; tx_inv Hl.
  { split; [|by intros v ?%elem_of_nil]. exists (db_deliveries (st_db s)). split; [by destruct (st_db s)|done]. }
  destruct a as [v b]. apply NoDup_cons in Hnd as [Hid Hnd]. simpl in Hid.
  destruct (Hp (id, dl, m)) as [Hrow Hpend]; [set_solver|]. simpl in Hrow, Hpend.
  apply leaseDelivery_grants in Hm as (Hv & Hg & x & Hx & Hother); [|done..].
  destruct (IH a0 s0) as [(y & Hy & Hyo) Hgs]; [done| |done|].
  { rewrite Hx. intros [[id' dl'] m'] Hin. cbn. rewrite Hother.
    - apply (Hp (id', dl', m')), elem_of_cons. by right.
    - intros ->. apply Hid, list_elem_of_fmap. exists (id, dl'). split; [done|].
      apply list_elem_of_fmap. by exists (id, dl', m'). }
  split.
  - exists y. rewrite Hy, Hx. split; [done|]. intros k Hk. simpl in Hk.
    rewrite Hyo by set_solver. rewrite Hx. cbn. apply Hother. set_solver.
  - intros w [->|Hw]%elem_of_cons.
    + exists (id, dl, m). split; [set_solver|]. destruct Hg as (dl1 & Hdl1 & Hrest).
      exists dl1. split; [|done]. rewrite Hy. cbn. rewrite Hv, Hyo by done. done.
    + destruct (Hgs w Hw) as (row & Hin & Hg'). exists row. split; [set_solver|done].
Qed.

Lemma leaseCandidates_recipient d rs machineID conversationID ownership consumer now n row :
  row ∈ take n (leaseCandidates d rs machineID conversationID ownership consumer now) ->
  dl_recipient row.1.2 ∈ rs.
Proof.
  intros (i & Hrow & _)%elem_of_take. apply list_elem_of_lookup_2 in Hrow.
  unfold leaseCandidates in Hrow. apply elem_of_sortBy in Hrow.
  apply list_elem_of_omap in Hrow as ([id dl] & _ & Hrow). simpl in Hrow.
  destruct (pendingMessage d dl); [|done]. destruct (_ && _) eqn:Hb; [|done]. simplify_eq. by bool_hyps.
Qed.

(** The page of [LeaseDeliveries]: its endpoint is owned by the caller under
    the consumer generation the leases carry. *)
Lemma lease_page machineID consumerID endpoint conversationID now ttl limit page s s' :
  LeaseDeliveries machineID consumerID endpoint conversationID now ttl limit s = (inr page, s') ->
  ms now < ms (Time.Add now ttl) ->
  exists e, owns (st_db s') endpoint machineID now e /\
    forall v, v ∈ p_Deliveries page -> exists recipient,
      recipient ∈ sessionIDs (st_db s') machineID endpoint (ep_generation e) now /\
      granted (st_db s') machineID (ep_generation e) (ep_consumer_generation e) now (v_ID v)
        recipient (v_LeaseToken v) (v_LeaseGeneration v).
Proof.
  intros Hl Httl. unfold LeaseDeliveries, sessionRecipientIDs in Hl. tx_inv Hl.
  cbn [fst p_Deliveries]. apply endpointOwnership_ok in Hm1 as (e & (He & Hmach & Hlive) & -> & ->).
  rewrite He in Hm2. injection Hm2 as <-. set (consumer := nextConsumerGeneration e consumerID now) in *.
  apply sql_update_ok in Hm4 as [(_ & _ & Hno)|(_ & e' & He' & _ & _ & _ & Hs2)].
  { specialize (Hno e He). cbn in Hno. lia. }
  cbn in He'. rewrite He in He'. injection He' as <-.
  edestruct leaseCandidates_pending as [Hp Hnd].
  pose proof (lease_loop_grants _ _ _ _ _ _ _ _ _ _ Hm5 Hp Hnd Httl) as [(x & Hx & _) Hg].
  assert (st_db s4 = st_db s3) as Hs4 by (revert Hm6; apply reads_collect; intros id; reads).
  exists (consumerRow consumerID consumer (ms (Time.Add now ttl)) e). split.
  - change (owns (st_db s4) endpoint machineID now
      (consumerRow consumerID consumer (ms (Time.Add now ttl)) e)).
    rewrite Hs4, Hx, Hs2. split_and!; [cbn; by rewrite lookup_insert_eq|done|done].
  - intros v Hv. destruct (Hg v Hv) as (row & Hin & Hgr). exists (dl_recipient row.1.2).
    change (dl_recipient row.1.2 ∈ sessionIDs (st_db s4) machineID endpoint (ep_generation e) now /\
      granted (st_db s4) machineID (ep_generation e) consumer now (v_ID v) (dl_recipient row.1.2)
        (v_LeaseToken v) (v_LeaseGeneration v)).
    rewrite Hs4. split; [|exact Hgr]. apply leaseCandidates_recipient in Hin.
    rewrite Hx, Hs2. exact Hin.
Qed.
End Grants.

(** ** Acknowledging a current lease *)

Lemma endpointOwnership_run endpoint machineID now e s :
  owns (st_db s) endpoint machineID now e ->
  endpointOwnership endpoint machineID now s = (inr (ep_generation e), s).
Proof.
  intros (He & Hm & Hl). unfold endpointOwnership, endpointOwnershipUntil.
  rewrite (bind_run _ _ s (ep_generation e, ep_lease_until e) s); [done|].
  erewrite bind_run by (apply query_or_ok; split; [exact He|reflexivity]).
  erewrite bind_run by (apply reject_if_run; rewrite bool_decide_true by done; simpl; lia). done.
Qed.

(** The holder of a current lease can acknowledge it, which closes the delivery. *)
Lemma ack_run machineID endpoint id token generation now e recipient s :
  writable (st_db s) = true -> sound (st_db s) -> owns (st_db s) endpoint machineID now e ->
  recipient ∈ sessionIDs (st_db s) machineID endpoint (ep_generation e) now ->
  granted (st_db s) machineID (ep_generation e) (ep_consumer_generation e) now id recipient token generation ->
  exists s' dl, AckDelivery machineID endpoint id token generation now s = (inr tt, s') /\
    db_deliveries (st_db s) !! id = Some dl /\
    db_deliveries (st_db s') = <[id := ackRow now dl]> (db_deliveries (st_db s)).
Proof.
  intros Hw HS Ho Hin (dl & Hid & Hr & Hp & Hmatch & Hcur).
  assert (exists m, pendingMessage (st_db s) dl = Some m) as [m Hm].
  { destruct HS as ((Hrefs & _) & _). destruct (Hrefs id dl Hid) as [m Hm]. exists m.
    unfold pendingMessage. unfold isPending in Hp. by destruct (dl_acked dl). }
  destruct (pending_facts _ _ _ _ HS Hid Hm) as (Hn & Hrn & Hc & Hmsg & Ha).
  unfold AckDelivery.
  assert (exists s3, ackTransaction machineID endpoint id token generation now s = (inr (Some 1), s3) /\
    db_deliveries (st_db s3) = <[id := ackRow now dl]> (db_deliveries (st_db s))) as (s3 & E & Hd).
  { unfold ackTransaction, sessionRecipientIDs.
    erewrite bind_run by (by apply endpointOwnership_run). erewrite bind_run by reflexivity.
    erewrite bind_run by (apply query_or_ok; split; [exact Hid|reflexivity]).
    erewrite bind_run by (apply reject_if_run; rewrite bool_decide_true by (by rewrite Hr); done).
    rewrite Hp. simpl. destruct Ho as (He & _).
    erewrite bind_run by (apply query_or_ok; split; [exact He|reflexivity]).
    erewrite bind_run by (apply reject_if_run; by rewrite Hmatch, Hcur).
    assert (sql_update t_deliveries id isPending (ackRow now) s =
      (inr 1, set_row t_deliveries id (ackRow now dl) s)) as E1.
    { apply sql_update_run; [done|done|by apply may_write_guarded|].
      destruct HS as (_ & _ & _ & _ & _ & HU). by eapply unique_deliveries_row. }
    erewrite bind_run by exact E1. set (s1 := set_row t_deliveries id (ackRow now dl) s) in *.
    erewrite bind_run.
    2: { apply query_or_ok. split; [|reflexivity]. unfold joinedDelivery. cbn.
         rewrite lookup_insert_eq. cbn. by rewrite Hmsg. }
    simpl. assert (quota_credit [dl_recipient dl] (bodyBytes m) (st_db s1)) as HQ1.
    { destruct HS as (HQ & _). apply close_delivery_credit in E1 as (dl' & m' & Hid' & _ & Hm' & _ & HI');
        [by simplify_eq|apply ackRow_closes|done]. }
    destruct (releaseQuota_run (dl_recipient dl) (bodyBytes m) s1) as (s2 & E2);
      [done|apply bodyBytes_nonneg|done|done|].
    assert (same_mail (st_db s1) (st_db s2)) as (Hd2 & Hm2 & Hp2 & Hc2) by by step_back E2.
    assert (exists s3, recordAckedTerminal id now s2 = (inr tt, s3)) as [s3 E3].
    { unfold recordAckedTerminal. erewrite bind_run.
      2: { apply query_or_ok. split; [|reflexivity]. unfold joinedDelivery. rewrite Hd2, Hm2. cbn.
           rewrite lookup_insert_eq. cbn. by rewrite Hmsg. }
      edestruct (insert_or_ignore_total t_delivery_terminals) as (s3 & E3 & _); [|done|by exists s3].
      apply may_write_guarded. unfold writable. by rewrite Hp2. }
    erewrite bind_run by (erewrite bind_run by exact E2; exact E3).
    assert (same_mail (st_db s2) (st_db s3)) as (Hd3 & Hm3 & Hp3 & Hc3) by by step_back E3.
    destruct (advance_run (dl_recipient dl) (ms_conversation m) s3) as (s4 & E4).
    { unfold writable. by rewrite Hp3, Hp2. }
    { step_back E3. step_back E2. destruct HS as (_ & HC & _). by step_back E1. }
    { by rewrite Hc3, Hc2. }
    erewrite bind_run by exact E4. exists s4. split; [done|].
    assert (same_mail (st_db s3) (st_db s4)) as (Hd4 & _) by by step_back E4.
    rewrite Hd4, Hd3, Hd2. done. }
  erewrite bind_run by (unfold transact; by rewrite E). cbv beta iota.
  erewrite bind_run by reflexivity.
  edestruct refreshPendingMetrics_run as (s4 & E4 & Hd4). exists s4, dl. rewrite Hd4. by split_and!.
Qed.

(** Lease then acknowledge: every delivery in the page [LeaseDeliveries]
    returns is pending, and acknowledging it with the token and generation of
    the page succeeds and closes exactly that delivery. *)
Theorem lease_then_ack `{UuidNonEmpty} machineID consumerID endpoint conversationID now ttl limit page v s s' :
  reachable s -> writable (st_db s) = true -> ms now < ms (Time.Add now ttl) ->
  LeaseDeliveries machineID consumerID endpoint conversationID now ttl limit s = (inr page, s') ->
  v ∈ p_Deliveries page ->
  exists s'' dl,
    AckDelivery machineID endpoint (v_ID v) (v_LeaseToken v) (v_LeaseGeneration v) now s' = (inr tt, s'') /\
    db_deliveries (st_db s') !! v_ID v = Some dl /\ dl_acked dl = None /\
    db_deliveries (st_db s'') = <[v_ID v := ackRow now dl]> (db_deliveries (st_db s')).
Proof.
  intros Hreach Hw Httl Hl Hv.
  assert (reachable s') as Hreach'.
  { eapply rtc_r; [done|]. eapply (step_op (OpLeaseDeliveries machineID consumerID endpoint conversationID now ttl limit)).
    simpl. unfold void. erewrite bind_run by exact Hl. done. }
  assert (writable (st_db s') = true) as Hw'.
  { assert (keeps (fun d => writable d = true)
      (LeaseDeliveries machineID consumerID endpoint conversationID now ttl limit)) as Hk by (keep; preserve).
    by eapply Hk. }
  destruct (lease_page _ _ _ _ _ _ _ _ _ _ Hl Httl) as (e & Ho & Hg).
  destruct (Hg v Hv) as (recipient & Hin & Hgr).
  destruct (ack_run _ _ _ _ _ _ _ _ _ Hw' (reachable_sound _ Hreach') Ho Hin Hgr) as (s'' & dl & E & Hid & Hd).
  exists s'', dl. split_and!; try done. destruct Hgr as (dl' & Hid' & _ & Hp & _). simplify_eq.
  unfold isPending in Hp. by destruct (dl_acked dl').
Qed.
