(* ===== verification/Atomic.v ===== *)
(** * Phases and failures

    A prepared or retired migration source is frozen, and a failed operation
    changes nothing (below).

    Once the offline migration has moved the store out of the active phase, the
    guard triggers abort every write to the 28 tables that are migrated: no
    operation changes any of them.  Start requests live outside the guard. *)

From S2P Require Import Prelude GoTime RateLimit Quota Text Sha256 Tables Tx Sessions Pending.
From S2P Require Import Invocations Rooms Claims Roles Directory Messages Deliveries QuotaInv Relay.
From S2P Require Import QuotaOps.
Open Scope Z_scope.

(** The database without the start-request tables. *)
Definition guarded_part (d : Db) : Db :=
  set_invocation_schema false (set_invocations ∅ (set_invocation_idempotency ∅ (set_invocation_audit ∅ d))).

Definition frozen (d0 d : Db) : Prop := writable d0 = false /\ guarded_part d = guarded_part d0.

Lemma frozen_phase d0 d : frozen d0 d -> writable d = false.
Proof.
  intros [Hw Heq]. apply (f_equal db_phase) in Heq. cbn in Heq. unfold writable in *. by rewrite Heq.
Qed.

Section Guarded.
Context (d0 : Db) {K V : Type} `{Countable K} (T : Table K V) (HT : t_guarded T = true).

Lemma frozen_may_write s : may_write T s -> frozen d0 (st_db s) -> False.
Proof. intros Hw Hf. specialize (Hw HT). apply frozen_phase in Hf. congruence. Qed.

Lemma frozen_insert k v : preserves (frozen d0) (sql_insert T k v).
Proof. intros s u s' (Hw & _)%sql_insert_ok Hf. by destruct (frozen_may_write s). Qed.

Lemma frozen_try_insert k v : preserves (frozen d0) (sql_try_insert T k v).
Proof. intros s u s' (Hw & _)%sql_try_insert_ok Hf. by destruct (frozen_may_write s). Qed.

Lemma frozen_insert_or_ignore k v : preserves (frozen d0) (sql_insert_or_ignore T k v).
Proof. intros s u s' (Hw & _)%sql_insert_or_ignore_ok Hf. by destruct (frozen_may_write s). Qed.

Lemma frozen_update k cond f : preserves (frozen d0) (sql_update T k cond f).
Proof.
  intros s u s' [(_ & -> & _)|(_ & v & _ & _ & Hw & _)]%sql_update_ok Hf; [done|].
  by destruct (frozen_may_write s).
Qed.

Lemma frozen_upsert k v f : preserves (frozen d0) (sql_upsert T k v f).
Proof. intros s u s' (Hw & _)%sql_upsert_ok Hf. by destruct (frozen_may_write s). Qed.

Lemma frozen_delete_where cond : preserves (frozen d0) (sql_delete_where T cond).
Proof.
  intros s u s' [[-> _]|(Hw & _)]%sql_delete_where_ok Hf; [done|]. by destruct (frozen_may_write s).
Qed.

Lemma frozen_update_where cond f : preserves (frozen d0) (sql_update_where T cond f).
Proof.
  intros s u s' [[-> _]|(Hw & _)]%sql_update_where_ok Hf; [done|]. by destruct (frozen_may_write s).
Qed.
End Guarded.

#[export] Hint Extern 1 (preserves (frozen _) (sql_insert _ _ _)) => apply frozen_insert; reflexivity : preserve.
#[export] Hint Extern 1 (preserves (frozen _) (sql_try_insert _ _ _)) => apply frozen_try_insert; reflexivity : preserve.
#[export] Hint Extern 1 (preserves (frozen _) (sql_insert_or_ignore _ _ _)) => apply frozen_insert_or_ignore; reflexivity : preserve.
#[export] Hint Extern 1 (preserves (frozen _) (sql_update _ _ _ _)) => apply frozen_update; reflexivity : preserve.
#[export] Hint Extern 1 (preserves (frozen _) (sql_upsert _ _ _ _)) => apply frozen_upsert; reflexivity : preserve.
#[export] Hint Extern 1 (preserves (frozen _) (sql_delete_where _ _)) => apply frozen_delete_where; reflexivity : preserve.
#[export] Hint Extern 1 (preserves (frozen _) (sql_update_where _ _ _)) => apply frozen_update_where; reflexivity : preserve.

Section Frozen.
Context `{Env}.

Lemma frozen_direct d0 low high from to now :
  preserves (frozen d0) (getOrCreateDirectConversation low high from to now).
Proof.
  intros s c s' Hg Hf. unfold getOrCreateDirectConversation in Hg. tx_inv Hg.
  apply sql_insert_ok in Hm as (Hw & _). by destruct (frozen_may_write d0 t_conversations eq_refl (next_supply s)).
Qed.
#[local] Hint Resolve frozen_direct : preserve.

Lemma op_frozen d0 op : keeps (frozen d0) (run_op op).
Proof. keep_op. Qed.

(** Outside the active migration phase no operation, successful or not,
    changes any of the guarded tables. *)
Theorem retired_source_frozen op r s s' :
  writable (st_db s) = false -> run_op op s = (r, s') ->
  guarded_part (st_db s') = guarded_part (st_db s).
Proof.
  intros Hw Hr. assert (frozen (st_db s) (st_db s)) as Hf by done.
  by apply (op_frozen _ _ _ _ _ Hr) in Hf as [_ ?].
Qed.
End Frozen.

(** * Failed operations change nothing

    Every operation but the maintenance pass, which is a sequence of
    transactions, is one transaction: when it returns an error the database is
    as before.  Creating the start-request schema is the one effect that stays. *)

(** The same rows; the start-request tables may have been created meanwhile. *)
Definition same_data (d0 d : Db) : Prop :=
  set_invocation_schema true d = set_invocation_schema true d0.

Definition atomic {A} (m : M A) : Prop :=
  forall s e s', m s = (inl e, s') -> same_data (st_db s) (st_db s').

(** Any outcome leaves the data alone. *)
Definition quiet {A} (m : M A) : Prop := forall d0, keeps (same_data d0) m.

Definition never_fails {A} (m : M A) : Prop := forall s e s', m s <> (inl e, s').

Lemma atomic_quiet {A} (m : M A) : quiet m -> atomic m.
Proof. intros Hq s e s' Hm. by apply (Hq (st_db s) _ _ _ Hm). Qed.

Lemma atomic_transact {A} (m : M A) : atomic (transact m).
Proof. intros s e s' Hm. apply transact_error in Hm. unfold same_data. by rewrite Hm. Qed.

Lemma atomic_bind {A B} (m : M A) (k : A -> M B) :
  quiet m -> (forall a, atomic (k a)) -> atomic (m ≫= k).
Proof.
  intros Hq Hk s e s'. unfold mbind, M_bind. destruct (m s) as [[e1|a] s1] eqn:Hm;
    pose proof (Hq (st_db s) _ _ _ Hm eq_refl) as H1.
  - by intros [= <- <-].
  - intros H2%Hk. unfold same_data in *. congruence.
Qed.

(** What follows the commit cannot fail. *)
Lemma atomic_then {A B} (m : M A) (k : A -> M B) :
  atomic m -> (forall a, never_fails (k a)) -> atomic (m ≫= k).
Proof.
  intros Hm Hk s e s'. unfold mbind, M_bind. destruct (m s) as [[e1|a] s1] eqn:H1.
  - intros [= <- <-]. by eapply Hm.
  - intros H2. by apply Hk in H2.
Qed.

Section NeverFails.
Lemma never_fails_bind {A B} (m : M A) (k : A -> M B) :
  never_fails m -> (forall a, never_fails (k a)) -> never_fails (m ≫= k).
Proof.
  intros Hm Hk s e s'. unfold mbind, M_bind. destruct (m s) as [[e1|a] s1] eqn:H1.
  - by apply Hm in H1.
  - apply Hk.
Qed.
Lemma never_fails_ret {A} (a : A) : never_fails (mret a).
Proof. by intros s e s'. Qed.
Lemma never_fails_modify f : never_fails (modify f).
Proof. by intros s e s'. Qed.
Lemma never_fails_gets {A} (f : St -> A) : never_fails (gets f).
Proof. by intros s e s'. Qed.
End NeverFails.

Ltac never_fail :=
  repeat lazymatch goal with
  | |- never_fails (mbind _ _) => apply never_fails_bind; [|intros ?]
  | |- never_fails (mret _) => apply never_fails_ret
  | |- never_fails (modify _) => apply never_fails_modify
  | |- never_fails (gets _) => apply never_fails_gets
  | |- never_fails (match ?x with _ => _ end) => destruct x
  | |- never_fails ((fun _ => _) _) => cbv beta
  | |- never_fails ?m => let h := head_of m in unfold h; cbv beta zeta
  end.

Ltac atomic_tac :=
  lazymatch goal with
  | |- atomic (transact _) => apply atomic_transact
  | |- atomic (void _) => apply atomic_then; [atomic_tac|intros ?; never_fail]
  | |- atomic (mbind _ (transact _)) => apply atomic_then; [apply atomic_transact|intros ?; never_fail]
  | |- atomic (mbind _ _) => apply atomic_bind; [intros ?; solve [keep; preserve]|intros ?; atomic_tac]
  | |- atomic (mret _) => apply atomic_quiet; intros ?; keep
  | |- atomic (throw _) => apply atomic_quiet; intros ?; keep
  | |- atomic (modify _) => apply atomic_quiet; intros ?; keep
  | |- atomic (query _) => apply atomic_quiet; intros ?; keep
  | |- atomic (query_or _ _) => apply atomic_quiet; intros ?; keep
  | |- atomic (rolled_back _) => apply atomic_quiet; intros ?; apply keeps_rolled_back
  | |- atomic (match ?x with _ => _ end) => destruct x; atomic_tac
  | |- atomic ((fun _ => _) _) => cbv beta; atomic_tac
  | |- atomic (let _ := _ in _) => cbv zeta; atomic_tac
  | |- atomic ?m => let h := head_of m in unfold h; cbv beta zeta; atomic_tac
  end.

Section Atomic.
Context `{Env}.

Definition one_transaction (op : Op) : bool :=
  match op with OpMaintainDeliveries _ => false | _ => true end.

(** A failed operation changes nothing: when any operation other than the
    maintenance pass returns an error, every table has the rows it had. *)
Theorem error_changes_nothing op e s s' :
  one_transaction op = true -> run_op op s = (inl e, s') ->
  set_invocation_schema true (st_db s') = set_invocation_schema true (st_db s).
Proof.
  intros Hop. assert (atomic (run_op op)) as Ha; [|intros Hr; exact (Ha _ _ _ Hr)].
  destruct op; try discriminate; simpl; atomic_tac.
Qed.
End Atomic.
