(* ===== verification/Access.v ===== *)
(** * Access: request nonces and the last administrator

    A request nonce is accepted once while it is remembered, and a control
    operation never leaves a room without an administrator. *)

From S2P Require Import Prelude GoTime RateLimit Quota Text Sha256 Tables Tx Sessions Pending.
From S2P Require Import Invocations Rooms Claims Roles Directory Messages Deliveries QuotaInv Relay.
From S2P Require Import QuotaOps Rights.
Open Scope Z_scope.

(** ** Nonces *)

(** The nonce is remembered until [expires]. *)
Definition remembered (machineID nonce : string) (expires : Z) (d : Db) : Prop :=
  db_request_nonces d !! (machineID, nonce) = Some expires.

Lemma remembered_purge machineID nonce expires now :
  ms now < expires ->
  preserves (remembered machineID nonce expires)
    (sql_delete_where t_request_nonces (fun _ e => e <=? ms now)).
Proof.
  intros Hlt s u s' [[-> _]|(_ & _ & ->)]%sql_delete_where_ok HI; [done|].
  unfold remembered in *. cbn. apply map_lookup_filter_Some. split; [done|]. simpl. lia.
Qed.

Lemma remembered_insert machineID nonce expires k v :
  preserves (remembered machineID nonce expires) (sql_insert t_request_nonces k v).
Proof.
  intros s u s' (_ & Hn & _ & _ & ->)%sql_insert_ok HI. unfold remembered in *. cbn in *.
  rewrite lookup_insert_ne; [done|]. congruence.
Qed.
#[export] Hint Resolve remembered_purge remembered_insert : preserve.

Section Nonces.
Context `{Env}.

(** Nonce purges happen at clock readings before [t]. *)
Definition purges_before (t : Z) (op : Op) : Prop :=
  match op with OpConsumeRequestNonce _ _ now _ => ms now < t | _ => True end.

Inductive step_before (t : Z) : St -> St -> Prop :=
  | before_op op s r s' : purges_before t op -> run_op op s = (r, s') -> step_before t s s'
  | before_phase p s : step_before t s (phase_to p s).

Lemma op_remembered machineID nonce expires op :
  purges_before expires op -> keeps (remembered machineID nonce expires) (run_op op).
Proof. intros Hb. destruct op; simpl in *; try apply keeps_void; keep_maintain; keep; preserve. Qed.

Lemma steps_remembered machineID nonce expires s s' :
  rtc (step_before expires) s s' ->
  remembered machineID nonce expires (st_db s) -> remembered machineID nonce expires (st_db s').
Proof.
  induction 1 as [|s1 s2 s3 [op s r s' Hb Hr|p s] _ IH]; [done|..]; intros HI; apply IH.
  - by eapply op_remembered.
  - done.
Qed.

Lemma consume_remembers machineID nonce now expiresAt s s' :
  ConsumeRequestNonce machineID nonce now expiresAt s = (inr tt, s') ->
  remembered machineID nonce (ms expiresAt) (st_db s').
Proof.
  intros Hc. unfold ConsumeRequestNonce in Hc. tx_inv Hc.
  apply sql_insert_ok in Hc as (_ & _ & _ & _ & ->). unfold remembered. cbn. by rewrite lookup_insert_eq.
Qed.

Lemma remembered_refuses machineID nonce expires now expiresAt s s' :
  remembered machineID nonce expires (st_db s) -> ms now < expires ->
  ConsumeRequestNonce machineID nonce now expiresAt s <> (inr tt, s').
Proof.
  intros HI Hlt Hc. unfold ConsumeRequestNonce in Hc. tx_inv Hc.
  assert (remembered machineID nonce expires (st_db s0)) as HI0 by (by step_back Hm0).
  apply sql_insert_ok in Hc as (_ & Hn & _). unfold remembered in HI0. cbn in Hn. congruence.
Qed.

(** A request nonce is accepted once: after it was consumed, and as long as
    purges run at clock readings before its expiry, consuming it again at such
    a reading is refused. *)
Theorem nonce_accepted_once machineID nonce now expiresAt now' expiresAt' s s1 s2 s3 :
  ConsumeRequestNonce machineID nonce now expiresAt s = (inr tt, s1) ->
  rtc (step_before (ms expiresAt)) s1 s2 -> ms now' < ms expiresAt ->
  ConsumeRequestNonce machineID nonce now' expiresAt' s2 <> (inr tt, s3).
Proof.
  intros Hc Hs. apply remembered_refuses, (steps_remembered _ _ _ _ _ Hs), (consume_remembers _ _ _ _ _ _ Hc).
Qed.
End Nonces.

(** ** Administrators *)

Definition has_admin (c : string) (d : Db) : Prop :=
  (exists e v, db_memberships d !! (c, e) = Some v /\ hasCap v CapAdmin = true) \/
  (exists r v, db_role_memberships d !! (c, r) = Some v /\ hasCap v CapAdmin = true).

(** An administrator of [c] other than endpoint [e]. *)
Definition other_admin (c e : string) (d : Db) : Prop :=
  (exists e' v, e' <> e /\ db_memberships d !! (c, e') = Some v /\ hasCap v CapAdmin = true) \/
  (exists r v, db_role_memberships d !! (c, r) = Some v /\ hasCap v CapAdmin = true).

Lemma remaining_other d c e : remainingAdmins d c e <> 0 -> other_admin c e d.
Proof.
  unfold remainingAdmins. intros Hne.
  match type of Hne with ?a + ?b <> 0 => assert (0 < a \/ 0 < b) as [Hpos|Hpos] end.
  { match type of Hne with mcount ?p ?m + mcount ?q ?n <> 0 =>
      pose proof (mcount_nonneg p m); pose proof (mcount_nonneg q n); lia end. }
  - apply mcount_pos in Hpos as ([c' e'] & v & Hv & Hp). simpl in Hp. bool_hyps. subst.
    left. by exists e', v.
  - apply mcount_pos in Hpos as ([c' r] & v & Hv & Hp). simpl in Hp. bool_hyps. subst.
    right. by exists r, v.
Qed.

(** Endpoint [e] is not the only administrator of [c]. *)
Definition spared (c e : string) (d : Db) : Prop :=
  other_admin c e d \/
  forall v, db_memberships d !! (c, e) = Some v -> hasCap v CapAdmin = false.

Lemma keepAdmin_spares (b : bool) c e u s s' v :
  (if b then keepAdmin c e else mret tt) s = (inr u, s') ->
  db_memberships (st_db s) !! (c, e) = Some v -> (b = false -> hasCap v CapAdmin = false) ->
  spared c e (st_db s').
Proof.
  intros Hk Hv Hb. destruct b; [|tx_inv Hk].
  - unfold keepAdmin in Hk. tx_inv Hk. left. apply remaining_other. by apply Z.eqb_neq.
  - right. intros w Hw. rewrite Hv in Hw. injection Hw as <-. auto.
Qed.

Lemma admin_other c e d : has_admin c d -> spared c e d -> other_admin c e d.
Proof.
  intros [(e' & v & Hv & Ha)|Hr] [?|Hno]; [done| |done|by right].
  left. exists e', v. split; [|done]. intros ->. by rewrite (Hno v Hv) in Ha.
Qed.

(** Rights of members other than [(c', e)] are untouched by a change of it. *)
Lemma admin_change (c c' e : string) (x : gmap (string * string) Z) d :
  (forall k, k <> (c', e) -> x !! k = db_memberships d !! k) ->
  has_admin c d -> spared c' e d -> has_admin c (set_memberships x d).
Proof.
  intros Hx HI Hs. destruct (decide (c = c')) as [->|Hne].
  - destruct (admin_other _ _ _ HI Hs) as [(e' & v & He & Hv & Ha)|Hr]; [left|by right].
    exists e', v. split; [|done]. cbn. rewrite Hx by congruence. done.
  - destruct HI as [(e' & v & Hv & Ha)|Hr]; [left|by right].
    exists e', v. split; [|done]. cbn. rewrite Hx by congruence. done.
Qed.

Lemma admin_grant c c' e v d :
  has_admin c d -> hasCap v CapAdmin = true ->
  has_admin c (set_memberships (<[(c', e) := v]> (db_memberships d)) d).
Proof.
  intros [(e' & w & Hw & Ha)|Hr] Hv; [left|by right]. cbn.
  destruct (decide ((c', e) = (c, e'))) as [Heq|Hne].
  - exists e', v. rewrite <-Heq. by rewrite lookup_insert_eq.
  - exists e', w. by rewrite lookup_insert_ne.
Qed.

Lemma admin_upsert c c' e v u s s' :
  sql_upsert t_memberships (c', e) v (fun _ => v) s = (inr u, s') ->
  has_admin c (st_db s) -> hasCap v CapAdmin = true \/ spared c' e (st_db s) -> has_admin c (st_db s').
Proof.
  intros Hu HI Hcase.
  assert (has_admin c (set_memberships (<[(c', e) := v]> (db_memberships (st_db s))) (st_db s))) as HI'.
  { destruct Hcase as [Hv|Hs]; [by apply admin_grant|]. eapply admin_change; [|done|done].
    intros k Hk. by rewrite lookup_insert_ne. }
  apply sql_upsert_ok in Hu as (_ & [(_ & _ & _ & ->)|(w & _ & _ & ->)]); exact HI'.
Qed.

Section Admins.
Context `{Env}.

Lemma upsertMember_admin c conversationID endpoint capabilities now :
  preserves (has_admin c) (upsertMember conversationID endpoint capabilities now).
Proof.
  intros s n s' Hu HI. unfold upsertMember in Hu. tx_inv Hu. step_back Hm1.
  assert (has_admin c (st_db s0)) as HI0 by by step_back Hm.
  eapply admin_upsert; [exact Hm0|done|].
  destruct (db_memberships (st_db s) !! _) as [p|] eqn:Hp; tx_inv Hm.
  - destruct (hasCap capabilities CapAdmin) eqn:Hcap; [by left|right].
    assert (spared conversationID endpoint (st_db s3)) as Hsp.
    { eapply keepAdmin_spares; [exact Hm2|done|]. by destruct (hasCap p CapAdmin). }
    by step_back Hm.
  - right. right. intros v Hv. apply reads_admitMember in Hm2. congruence.
Qed.

Lemma removeMember_admin c conversationID endpoint now :
  preserves (has_admin c) (removeMember conversationID endpoint now).
Proof.
  intros s n s' Hu HI. unfold removeMember in Hu. tx_inv Hu.
  assert (spared conversationID endpoint (st_db s0)) as Hsp.
  { eapply keepAdmin_spares; [exact Hm0|done|done]. }
  assert (spared conversationID endpoint (st_db s1)) as Hsp1 by by step_back Hm1.
  assert (has_admin c (st_db s1)) as HI1 by (step_back Hm1; by step_back Hm0).
  apply sql_delete_where_ok in Hm2 as [[-> _]|(_ & _ & ->)]; [done|].
  eapply admin_change; [|done|done]. intros k Hk. cbn. apply option_eq. intros v.
  rewrite map_lookup_filter_Some. simpl. rewrite bool_decide_eq_false. naive_solver.
Qed.
#[local] Hint Resolve upsertMember_admin removeMember_admin : preserve.

(** A control operation never leaves a room without an administrator:
    whatever it does and however it ends, a room that had one still has one. *)
Theorem control_keeps_admin input c r s s' :
  ApplyControl input s = (r, s') -> has_admin c (st_db s) -> has_admin c (st_db s').
Proof.
  intros Hr. assert (keeps (has_admin c) (ApplyControl input)) as Hk by (keep; preserve).
  exact (Hk _ _ _ Hr).
Qed.
End Admins.
