(* ===== verification/Authn.v ===== *)
(** * Authentication: one owner per endpoint, one meaning per signature

    What [Auth] guarantees: no endpoint belongs to two machines, the text a
    machine signs determines the request, an accepted session names an enrolled
    machine whose key vouched for it, and a request is accepted a second time at
    most within one millisecond. *)

From Stdlib Require Import Ascii.
From stdpp Require Import pretty.
From S2P Require Import Prelude GoTime RateLimit Quota Text Sha256 Tables Tx Sessions Pending.
From S2P Require Import Invocations Rooms Claims Roles Directory Messages Deliveries QuotaInv Relay.
From S2P Require Import QuotaOps Rights Access Auth.
Open Scope Z_scope.

(** ** Prefixes *)

Lemma HasPrefix_app s p : HasPrefix s p = true <-> exists t, s = p +:+ t.
Proof.
  unfold HasPrefix. split.
  - revert s. induction p as [|a p IH]; intros s Hp; [by exists s|].
    destruct s as [|b s]; [done|]. simpl in Hp. destruct (ascii_dec a b) as [->|]; [|done].
    destruct (IH s Hp) as [t ->]. by exists t.
  - intros [t ->]. induction p as [|a p IH]; [by destruct t|]. simpl.
    by destruct (ascii_dec a a).
Qed.

(** Two prefixes of one string are prefixes of each other. *)
Lemma HasPrefix_linear s p q :
  HasPrefix s p = true -> HasPrefix s q = true -> HasPrefix p q || HasPrefix q p = true.
Proof.
  revert p q. induction s as [|a s IH]; intros p q Hp Hq.
  { destruct p; [|done]. by destruct q; rewrite orb_true_r. }
  destruct p as [|b p]; [by destruct q; rewrite orb_true_r|].
  destruct q as [|c q]; [by destruct p|]. unfold HasPrefix in *. simpl in *.
  destruct (ascii_dec b a) as [->|]; [|done]. destruct (ascii_dec c a) as [->|]; [|done].
  destruct (ascii_dec a a); [|done]. by apply IH.
Qed.

(** ** One owner per endpoint *)

Lemma stringLt_total a b : a <> b -> stringLt a b = true \/ stringLt b a = true.
Proof.
  unfold stringLt, String.ltb. intros Hne. rewrite (String.compare_antisym a b).
  destruct (String.compare b a) eqn:E; auto. by apply String.compare_eq_iff in E as ->.
Qed.

Lemma owned_overlap l r e :
  machineOwnsEndpoint l e = true -> machineOwnsEndpoint r e = true -> machinesOverlap l r = true.
Proof.
  unfold machinesOverlap, machineOwnsEndpoint. rewrite !orb_true_iff, !bool_decide_eq_true.
  rewrite !existsb_exists. setoid_rewrite <-list_elem_of_In.
  intros [Hl|(p & Hp & Hpe)] Hr.
  { left. right. exists e. split; [done|]. by rewrite orb_true_iff, bool_decide_eq_true, existsb_exists;
      setoid_rewrite <-list_elem_of_In. }
  destruct Hr as [Hr|(q & Hq & Hqe)].
  { right. exists e. split; [done|]. rewrite orb_true_iff, existsb_exists. right.
    exists p. by rewrite <-list_elem_of_In. }
  left. left. unfold prefixesOverlap. rewrite existsb_exists. exists p. rewrite <-list_elem_of_In.
  split; [done|]. rewrite existsb_exists. exists q. rewrite <-list_elem_of_In.
  split; [done|]. by eapply HasPrefix_linear.
Qed.

Lemma anyOverlap_spec configured i j l r :
  anyOverlap configured = false -> configured !! i = Some l -> configured !! j = Some r -> i <> j ->
  forall e, machineOwnsEndpoint l e = true -> machineOwnsEndpoint r e = true -> False.
Proof.
  intros Ho Hi Hj Hne e Hl Hr. apply not_true_iff_false in Ho. apply Ho. unfold anyOverlap.
  rewrite existsb_exists. setoid_rewrite existsb_exists. setoid_rewrite <-list_elem_of_In.
  destruct (stringLt_total i j Hne) as [Hlt|Hlt]; [exists (i, l)|exists (j, r)];
    (split; [by apply elem_of_map_to_list|]); [exists (j, r)|exists (i, l)];
    (split; [by apply elem_of_map_to_list|]); simpl; rewrite Hlt; simpl; by eapply owned_overlap.
Qed.

(** The fields of an authenticator that was set up. *)
Lemma newAuthenticator_ok store machines transition a :
  newAuthenticator store machines transition = inr a ->
  store = Some (au_store a) /\ configureMachines machines ∅ ∅ = inr (au_machines a) /\
  anyOverlap (au_machines a) = false /\ au_transition a = transition.
Proof.
  unfold newAuthenticator. intros Ha. destruct store as [st|]; [|done].
  destruct (configureMachines machines ∅ ∅) as [|configured]; [done|].
  destruct (anyOverlap configured) eqn:Ho; [done|].
  destruct transition; [|by injection Ha as <-].
  destruct (transitionKeys configured); [|done]. by injection Ha as <-.
Qed.

Section Owners.
Context (store : option NonceStore) (machines : list Machine) (transition : option TransitionAuthority).
Context (a : Authenticator) (Ha : newAuthenticator store machines transition = inr a).

(** No endpoint is allowed to two machines: once an enrollment set was
    accepted, two machines that may act as the same endpoint, by an exact entry
    or by a prefix, are the same machine. *)
Theorem endpoint_single_owner m1 m2 endpoint :
  AllowsEndpoint a m1 endpoint = true -> AllowsEndpoint a m2 endpoint = true -> m1 = m2.
Proof using Ha.
  destruct (newAuthenticator_ok _ _ _ _ Ha) as (_ & _ & Ho & _). unfold AllowsEndpoint.
  destruct (au_machines a !! m1) as [l|] eqn:Hl; [|done].
  destruct (au_machines a !! m2) as [r|] eqn:Hr; [|done]. intros H1 H2.
  destruct (decide (m1 = m2)) as [|Hne]; [done|].
  by destruct (anyOverlap_spec _ _ _ _ _ Ho Hl Hr Hne endpoint).
Qed.

(** An enrolled machine is known under its own, valid identifier. *)
Lemma configureMachines_wf ms configured devices result :
  configureMachines ms configured devices = inr result ->
  map_Forall (fun k m => mc_ID m = k /\ validMachine m = true) configured ->
  map_Forall (fun k m => mc_ID m = k /\ validMachine m = true) result.
Proof using.
  clear Ha. revert configured devices. induction ms as [|m ms IH]; intros configured devices Hc HI.
  { by injection Hc as <-. }
  simpl in Hc. destruct (validMachine m) eqn:Hv; [simpl in Hc|done].
  destruct (has configured (mc_ID m)); [done|].
  destruct (negb _ && has devices _); [done|]. destruct (validRules m); [|done].
  simpl in Hc. eapply IH; [exact Hc|]. by apply map_Forall_insert_2.
Qed.

Lemma enrolled_wf i m : au_machines a !! i = Some m -> mc_ID m = i /\ ValidMachineID i = true.
Proof using Ha.
  destruct (newAuthenticator_ok _ _ _ _ Ha) as (_ & Hc & _). intros Hi.
  destruct (configureMachines_wf _ _ _ _ Hc (map_Forall_empty _) _ _ Hi) as [Hid Hv].
  split; [done|]. unfold validMachine in Hv. rewrite !andb_true_iff in Hv. destruct Hv as [[Hv _] _]. by rewrite <-Hid.
Qed.
End Owners.

(** ** The signed text *)

(** A newline separates the fields. *)
Definition lineFree (s : string) : Prop := 10 ∉ bytesOf s.
#[export] Instance lineFree_dec s : Decision (lineFree s).
Proof. unfold lineFree. apply _. Defined.

Lemma lineFree_ofBytes l : Forall isByte l -> 10 ∉ l -> lineFree (ofBytes l).
Proof. intros Hl Hn. unfold lineFree. by rewrite bytesOf_ofBytes. Qed.

Lemma lineFree_valid v maxCharacters maxBytes :
  validBoundedText v maxCharacters maxBytes = true -> lineFree v.
Proof. intros Hv. by eapply valid_text_no_control. Qed.

Lemma hexEncode_lineFree l : Forall isByte l -> lineFree (hexEncode l).
Proof.
  assert (forallb (fun n => negb (bool_decide (10 ∈ bytesOf (String (hexDigit n) "")))) (seqZ 0 16) = true)
    as Hd by reflexivity.
  rewrite forallb_Forall, Forall_forall in Hd.
  assert (forall n, 0 <= n < 16 -> 10 ∉ bytesOf (String (hexDigit n) "")) as Hd'.
  { intros n Hn. specialize (Hd n). rewrite negb_true_iff, bool_decide_eq_false in Hd.
    apply Hd. apply elem_of_seqZ. lia. }
  unfold lineFree. induction 1 as [|b l Hb _ IH]; simpl; [set_solver|]. unfold isByte in Hb.
  pose proof (Hd' (b / 16) ltac:(split; [apply Z.div_pos|apply Z.div_lt_upper_bound]; lia)).
  pose proof (Hd' (b `mod` 16) ltac:(apply Z.mod_pos_bound; lia)). simpl in *. set_solver.
Qed.

Lemma pretty_N_char_lineFree n : 10 ∉ bytesOf (String (pretty_N_char n) "").
Proof. unfold pretty_N_char. repeat case_match; cbv; set_solver. Qed.

Lemma pretty_N_go_lineFree n s : lineFree s -> lineFree (pretty_N_go n s).
Proof.
  revert s. induction (N.lt_wf_0 n) as [n _ IH]. intros s Hs.
  destruct (decide (n = 0)%N) as [->|Hn]; [done|]. rewrite pretty_N_go_step by lia.
  apply IH; [apply N.div_lt; lia|].
  pose proof (pretty_N_char_lineFree (n `mod` 10)) as Hc. unfold lineFree in *. simpl in *. set_solver.
Qed.

Lemma pretty_lineFree (n : Z) : lineFree (pretty n).
Proof.
  assert (forall k : N, lineFree (pretty k)) as HN.
  { intros k. unfold pretty, pretty_N. case_decide; [cbv; set_solver|].
    apply pretty_N_go_lineFree. unfold lineFree. simpl. set_solver. }
  destruct n as [|p|p]; [cbv; set_solver|exact (HN (N.pos p))|].
  unfold lineFree. change (pretty (Z.neg p)) with (String "-" (pretty (N.pos p))). simpl.
  specialize (HN (N.pos p)). unfold lineFree in HN. cbv [Ascii.N_of_ascii]. set_solver.
Qed.

(** Three fields from the right and any from the left determine a text, even if
    the field in the middle, the path, contains newlines. *)
Lemma last_fields_inj (p h t n p' h' t' n' : list Z) :
  10 ∉ h -> 10 ∉ t -> 10 ∉ n -> 10 ∉ h' -> 10 ∉ t' -> 10 ∉ n' ->
  p ++ 10 :: h ++ 10 :: t ++ 10 :: n = p' ++ 10 :: h' ++ 10 :: t' ++ 10 :: n' ->
  p = p' /\ h = h' /\ t = t' /\ n = n'.
Proof.
  intros Hh Ht Hn Hh' Ht' Hn' E.
  assert (forall p h t n : list Z, p ++ 10 :: h ++ 10 :: t ++ 10 :: n =
    ((p ++ 10 :: h) ++ 10 :: t) ++ 10 :: n) as Hassoc.
  { intros. by rewrite <-!(assoc_L (++)). }
  rewrite !Hassoc in E. apply split_last in E as [E ->]; [|done..].
  apply split_last in E as [E ->]; [|done..]. by apply split_last in E as [-> ->].
Qed.

Lemma bytesOf_inj s t : bytesOf s = bytesOf t -> s = t.
Proof. intros E. by rewrite <-(ofBytes_bytesOf s), E, ofBytes_bytesOf. Qed.

(** What a signature over a request vouches for. *)
Definition same_request (l r : SignedRequest) : Prop :=
  sr_MachineID l = sr_MachineID r /\ ToUpper (sr_Method l) = ToUpper (sr_Method r) /\
  sr_Path l = sr_Path r /\ Sha256.Sum256 (sr_Body l) = Sha256.Sum256 (sr_Body r) /\
  Time.UnixMilli (sr_Timestamp l) = Time.UnixMilli (sr_Timestamp r) /\ sr_Nonce l = sr_Nonce r.

Lemma canonical_bytes r :
  bytesOf (CanonicalRequest r) =
  bytesOf "punaro-request-v1" ++ 10 :: bytesOf (sr_MachineID r) ++ 10 ::
  bytesOf (ToUpper (sr_Method r)) ++ 10 :: bytesOf (sr_Path r) ++ 10 ::
  bytesOf (hexEncode (Sha256.Sum256 (sr_Body r))) ++ 10 ::
  bytesOf (pretty (Time.UnixMilli (sr_Timestamp r))) ++ 10 :: bytesOf (sr_Nonce r).
Proof.
  unfold CanonicalRequest. cbn [joinLines].
  repeat (rewrite bytesOf_app; f_equal; cbn [bytesOf]; f_equal).
Qed.

Lemma upper_lineFree m : lineFree m -> lineFree (ToUpper m).
Proof.
  intros Hm. unfold ToUpper. apply lineFree_ofBytes.
  - apply Forall_fmap. eapply Forall_impl; [apply bytesOf_range|]. intros b Hb.
    unfold isByte, compose, upperByte in *. case_match eqn:E; [|done].
    unfold Utf8.inRange in E. bool_hyps. lia.
  - rewrite list_elem_of_fmap. intros (b & Hb & Hin). unfold upperByte in Hb. case_match eqn:E.
    + unfold Utf8.inRange in E. bool_hyps. lia.
    + subst. done.
Qed.

(** A request whose fields can be told apart in the signed text. *)
Definition separable (r : SignedRequest) : Prop :=
  ValidMachineID (sr_MachineID r) = true /\ ValidRequestToken (sr_Nonce r) = true /\
  lineFree (sr_Method r).

Lemma canonical_same l r :
  separable l -> separable r -> CanonicalRequest l = CanonicalRequest r -> same_request l r.
Proof.
  intros (Hml & Hnl & Hl) (Hmr & Hnr & Hr) E. apply (f_equal bytesOf) in E.
  rewrite !canonical_bytes in E. apply app_inv_head in E. injection E as E.
  apply split_first in E as [Em E]; [|by eapply lineFree_valid..].
  apply split_first in E as [Eu E]; [|by apply upper_lineFree..].
  apply last_fields_inj in E as (Ep & Eh & Et & En);
    [|apply hexEncode_lineFree, Sum256_bytes|apply pretty_lineFree|by eapply lineFree_valid
     |apply hexEncode_lineFree, Sum256_bytes|apply pretty_lineFree|by eapply lineFree_valid].
  apply bytesOf_inj in Em, Eu, Ep, Eh, Et, En. apply (inj pretty) in Et.
  apply hexEncode_inj in Eh; [|apply Sum256_bytes..]. done.
Qed.

(** ** Accepted requests *)

Lemma of_result_ok {A} (r : Err + A) s a s' : of_result r s = (inr a, s') <-> r = inr a /\ s' = s.
Proof. destruct r; unfold of_result, throw, mret, M_ret; naive_solver. Qed.

Lemma clamped_age_le t u d : Time.Sub t u <= d -> d < 2 ^ 62 -> t - u <= d.
Proof. unfold Time.Sub, clamp64, int64_min, int64_max. lia. Qed.

Section Accepted.
Context `{Env, AuthEnv}.

Lemma verifySignature_ok a r now m :
  verifySignature a r now = inr m ->
  au_machines a !! sr_MachineID r = Some m /\ ValidRequestToken (sr_Nonce r) = true /\
  validSignedRequest r now = true /\
  ed25519_Verify (mc_PublicKey m) (CanonicalRequest r) (sr_Signature r) = true.
Proof.
  unfold verifySignature. destruct (au_machines a !! sr_MachineID r) as [m'|]; [|done].
  case_match eqn:E; [done|]. rewrite !orb_false_iff, !negb_false_iff in E. naive_solver.
Qed.

Lemma consumeNonce_ok a id r now s u s' :
  consumeNonce a id r now s = (inr u, s') ->
  au_store a id (sr_Nonce r) now (Time.Add (sr_Timestamp r) maxRequestAge) s = (inr u, s').
Proof. unfold consumeNonce. by repeat case_match. Qed.

Lemma Verify_ok a r now s u s' :
  Verify a r now s = (inr u, s') ->
  exists m, verifySignature a r now = inr m /\
    au_store a (mc_ID m) (sr_Nonce r) now (Time.Add (sr_Timestamp r) maxRequestAge) s = (inr u, s').
Proof.
  unfold Verify. destruct (verifySignature a r now) as [|m]; [done|]. intros Hc%consumeNonce_ok. eauto.
Qed.

Lemma fresh_request r now :
  validSignedRequest r now = true -> now <= sr_Timestamp r + maxRequestAge.
Proof.
  unfold validSignedRequest. intros Hv. rewrite !andb_true_iff in Hv. destruct Hv as [_ [Hv _]].
  apply Z.leb_le, clamped_age_le in Hv; [lia|]. done.
Qed.

Section Enrolled.
Context (store : option NonceStore) (machines : list Machine) (transition : option TransitionAuthority).
Context (a : Authenticator) (Ha : newAuthenticator store machines transition = inr a).

Lemma verified_separable r now m :
  verifySignature a r now = inr m -> lineFree (sr_Method r) -> mc_ID m = sr_MachineID r /\ separable r.
Proof using Ha.
  intros (Hm & Hn & _)%verifySignature_ok Hl. destruct (enrolled_wf _ _ _ _ Ha _ _ Hm). done.
Qed.

(** A signature vouches for one request: two requests the relay accepts
    under the same signed text agree on machine, method, path, body digest,
    timestamp in milliseconds and nonce, even if the path contains newlines. *)
Theorem canonical_injective l r now now' m m' :
  verifySignature a l now = inr m -> verifySignature a r now' = inr m' ->
  lineFree (sr_Method l) -> lineFree (sr_Method r) ->
  CanonicalRequest l = CanonicalRequest r -> same_request l r.
Proof using Ha.
  intros Hvl Hvr Hl Hr. destruct (verified_separable _ _ _ Hvl Hl), (verified_separable _ _ _ Hvr Hr).
  by apply canonical_same.
Qed.
End Enrolled.

(** Who may speak for a machine: its enrolled key, over this very request and
    with a nonce the store accepts, or a bearer credential the durable authority
    maps to exactly that key.  With an authority, a signed request needs its
    consent too. *)
Inductive vouched (a : Authenticator) (request : Request) (body : list Z) (now : Z) (machine : Machine)
    : string -> St -> St -> Prop :=
  | vouched_signature signed principal s s' :
      Header_Get request "Authorization" = "" ->
      signedRequest request body = inr signed -> sr_MachineID signed = mc_ID machine ->
      ed25519_Verify (mc_PublicKey machine) (CanonicalRequest signed) (sr_Signature signed) = true ->
      validSignedRequest signed now = true ->
      (forall authorize, au_transition a = Some authorize -> exists t,
        authorize "" (Some (mc_PublicKey machine)) = Some t /\ principal = ta_PrincipalID t /\
        uuid_Validate principal = true /\ ta_LegacyPublicKey t = mc_PublicKey machine) ->
      au_store a (mc_ID machine) (sr_Nonce signed) now
        (Time.Add (sr_Timestamp signed) maxRequestAge) s = (inr tt, s') ->
      vouched a request body now machine principal s s'
  | vouched_credential authorize credential t s :
      Header_Values request "Authorization" = [bearer +:+ credential] ->
      au_transition a = Some authorize -> authorize credential None = Some t ->
      uuid_Validate (ta_PrincipalID t) = true -> 1 <= ta_CredentialGeneration t ->
      ta_LegacyPublicKey t = mc_PublicKey machine ->
      vouched a request body now machine (ta_PrincipalID t) s s.

Lemma substring_drop p t :
  String.substring (String.length p) (String.length (p +:+ t) - String.length p) (p +:+ t) = t.
Proof.
  induction p as [|c p IH]; simpl; [|done]. rewrite Nat.sub_0_r. change ("" +:+ t) with t.
  induction t as [|c t IH]; [done|]. simpl. by rewrite IH.
Qed.

Lemma authorizeLegacy_ok authorize m t :
  authorizeLegacy authorize m = inr t ->
  authorize "" (Some (mc_PublicKey m)) = Some t /\ uuid_Validate (ta_PrincipalID t) = true /\
  ta_LegacyPublicKey t = mc_PublicKey m.
Proof.
  unfold authorizeLegacy. destruct (authorize _ _) as [t'|]; [|done]. case_match eqn:E; [done|].
  intros [= ->]. rewrite !orb_false_iff, !negb_false_iff, !bool_decide_eq_true in E. naive_solver.
Qed.

Lemma transitionDevice_ok a request authorization ss :
  authenticateTransitionDevice a request authorization = inr ss ->
  exists authorize credential t machine, au_transition a = Some authorize /\
    length (Header_Values request "Authorization") = 1%nat /\ authorization = bearer +:+ credential /\
    authorize credential None = Some t /\ uuid_Validate (ta_PrincipalID t) = true /\
    1 <= ta_CredentialGeneration t /\ ss_PrincipalID ss = ta_PrincipalID t /\
    au_machines a !! ss_MachineID ss = Some machine /\ ta_LegacyPublicKey t = mc_PublicKey machine.
Proof.
  unfold authenticateTransitionDevice. intros Hd. destruct (au_transition a) as [authorize|]; [|done].
  case_match eqn:E; [done|]. rewrite !orb_false_iff, !negb_false_iff in E.
  destruct E as [[[[[[El Ep] _] _] _] _] _]. apply HasPrefix_app in Ep as [credential ->].
  change 7%nat with (String.length bearer) in Hd. rewrite substring_drop in Hd.
  case_bool_decide; [done|]. destruct (authorize credential None) as [t|] eqn:Ht; [|done].
  case_match eqn:E; [done|]. rewrite !orb_false_iff, !negb_false_iff in E.
  destruct (au_transitionMachineIDs a !! _) as [id|]; [|done]. case_match eqn:Ek; [done|].
  injection Hd as <-. apply negb_false_iff, bool_decide_eq_true in Ek.
  destruct (au_machines a !! id) as [machine|] eqn:Em; [|done].
  injection Ek as Ek. apply Nat.eqb_eq in El. exists authorize, credential, t, machine. simpl.
  naive_solver lia.
Qed.

Section Sessions.
Context (store : option NonceStore) (machines : list Machine) (transition : option TransitionAuthority).
Context (a : Authenticator) (Ha : newAuthenticator store machines transition = inr a).

(** C4: Every session the relay opens belongs to an enrolled machine that was
    vouched for: by its key over the exact request with a fresh nonce, or by a
    bearer credential that the durable authority links to that key. *)
Theorem session_authentic request body now s ss s' :
  AuthenticateHTTPSession (Some a) (Some request) body now s = (inr ss, s') ->
  exists machine, au_machines a !! ss_MachineID ss = Some machine /\ mc_ID machine = ss_MachineID ss /\
    vouched a request body now machine (ss_PrincipalID ss) s s'.
Proof using Ha.
  unfold AuthenticateHTTPSession. intros Hs.
  assert (forall id m, au_machines a !! id = Some m -> mc_ID m = id) as Hid.
  { intros id m Hm. by destruct (enrolled_wf _ _ _ _ Ha _ _ Hm). }
  case_bool_decide as Hauth; simpl in Hs.
  - apply bind_ok in Hs as (signed & s0 & [Hsig ->]%of_result_ok & Hs).
    destruct (au_transition a) as [authorize|] eqn:Htr.
    + apply bind_ok in Hs as (m & s0 & [Hv ->]%of_result_ok & Hs).
      apply bind_ok in Hs as (t & s0 & [Ht ->]%of_result_ok & Hs).
      apply bind_ok in Hs as ([] & s0 & Hc%consumeNonce_ok & Hs). tx_inv Hs. simpl.
      apply verifySignature_ok in Hv as (Hm & _ & Hf & Hk). apply authorizeLegacy_ok in Ht.
      exists m. split; [done|]. split; [by apply Hid|]. eapply vouched_signature; try done.
      * symmetry. by apply Hid.
      * rewrite Htr. intros ? [= <-]. exists t. naive_solver.
    + apply bind_ok in Hs as ([] & s0 & (m & Hv & Hc)%Verify_ok & Hs). tx_inv Hs. simpl.
      apply verifySignature_ok in Hv as (Hm & _ & Hf & Hk).
      exists m. split; [done|]. split; [by apply Hid|]. eapply vouched_signature; try done.
      * symmetry. by apply Hid.
      * by rewrite Htr.
  - apply of_result_ok in Hs as [Hd ->].
    apply transitionDevice_ok in Hd as (authorize & credential & t & m & Htr & Hl & Hb & Ht & Hu & Hg & Hp & Hm & Hk).
    exists m. split; [done|]. split; [by apply Hid|]. rewrite Hp. eapply vouched_credential; try done.
    unfold Header_Get in Hb. destruct (Header_Values request "Authorization") as [|v [|]]; [done| |done].
    simpl in Hb. by subst.
Qed.
End Sessions.

Section Replays.
Context (machines : list Machine) (transition : option TransitionAuthority) (a : Authenticator).
Context (Ha : newAuthenticator (Some ConsumeRequestNonce) machines transition = inr a).

Lemma Verify_consumes r now s u s' :
  Verify a r now s = (inr u, s') ->
  validSignedRequest r now = true /\
  ConsumeRequestNonce (sr_MachineID r) (sr_Nonce r) now (sr_Timestamp r + maxRequestAge) s = (inr tt, s').
Proof using Ha.
  intros (m & Hv & Hc)%Verify_ok. destruct u. apply verifySignature_ok in Hv as (Hm & _ & Hv & _).
  destruct (newAuthenticator_ok _ _ _ _ Ha) as ([= Hs] & _), (enrolled_wf _ _ _ _ Ha _ _ Hm) as [Hid _].
  by rewrite <-Hs, Hid in Hc.
Qed.

Lemma ms_shift t : ms (t + maxRequestAge) = ms t + 300000.
Proof. unfold Time.UnixMilli. exact (Z.div_add t 300000 1000000 ltac:(lia)). Qed.

End Replays.
End Accepted.
