(* ===== verification/Http.v ===== *)
(** * The HTTP surface ([http.go], [fleet_config_http.go], [fleet_config.go])

    One request: bounds and method, authentication, the route, the decoded
    body, the endpoint authority of the machine, one or more store operations,
    and the status code.  The store is the SQLite [Store], which implements
    every optional backend interface the handlers ask for except the
    principal-scoped advertisement.  JSON decoding ([decodeJSON] into each
    request type) and the fleet configuration store are arguments. *)

From S2P Require Import Prelude Notifier GoTime RateLimit Quota Text Sha256 Tables Tx Sessions Pending.
From S2P Require Import Invocations Rooms Claims Roles Directory Messages Deliveries Auth.
Open Scope Z_scope.

(** ** Responses *)

(** Desired fleet configuration: metadata only. *)
Record FleetDesiredMetadata := { fd_Generation : Z; fd_Digest : string; fd_SourceCommit : string;
  fd_SkillCount : Z; fd_TotalBytes : Z }.

Inductive Payload :=
  | NoPayload
  | ErrorText (message : string)
  | RoleProfilePayload (profile : RoleProfileResult)
  | RolePagePayload (page : RoleListPage)
  | RoleResolvePayload (result : RoleResolveResult)
  | MessagePayload (message : Message)
  | EventPayload (event : ControlEvent)
  | EventsPayload (events : list ControlEvent)
  | AuthorizedPayload
  | ConversationPayload (conversation : Conversation)
  | ConversationsPayload (conversations : list Conversation)
  | ClaimPayload (claim : TelegramClaim)
  | ClaimsPayload (claims : list TelegramClaim)
  | TopicsPayload (topics : list UnclaimedTopic)
  | TopicPayload (topic : SessionTopicResult)
  | InvocationPayload (invocation : Invocation)
  | InvocationsPayload (invocations : list Invocation)
  | DeliveriesPayload (page : DeliveryLeasePage)
  | LeaseUntilPayload (until : Z)
  | DoctorPayload (snapshot : option AttachmentDoctorSnapshot) (attached : option bool)
  | FleetDesiredPayload (desired : FleetDesiredMetadata)
  | ArchivePayload (archive : list Z)
  | RecordedPayload.

(** What a handler does besides the store: status, [Retry-After], payload, the
    [notifier.Publish] calls, and the machine a notification socket registers.
    Status 0 is a connection the server aborts after a panic. *)
Record Response := {
  hr_Status : Z;
  hr_RetryAfter : option Z;
  hr_Payload : Payload;
  hr_Wakes : list (string * string * Z);
  hr_Subscribed : option string;
}.

Definition H : Type := St -> Response * St.

Definition plain (status : Z) (payload : Payload) : Response :=
  {| hr_Status := status; hr_RetryAfter := None; hr_Payload := payload; hr_Wakes := [];
     hr_Subscribed := None |}.

Definition writeJSON (status : Z) (payload : Payload) : H := fun s => (plain status payload, s).
Definition writeError (status : Z) (message : string) : H := writeJSON status (ErrorText message).

Definition StatusOK : Z := 200.
Definition StatusCreated : Z := 201.
Definition StatusNoContent : Z := 204.
Definition StatusBadRequest : Z := 400.
Definition StatusUnauthorized : Z := 401.
Definition StatusForbidden : Z := 403.
Definition StatusNotFound : Z := 404.
Definition StatusConflict : Z := 409.
Definition StatusRequestEntityTooLarge : Z := 413.
Definition StatusTooManyRequests : Z := 429.
Definition StatusServiceUnavailable : Z := 503.
Definition StatusSwitchingProtocols : Z := 101.

Definition denied : H := writeError StatusForbidden "authorization denied".
Definition routeNotFound : H := writeError StatusNotFound "route not found".
Definition keyRequired : H := writeError StatusBadRequest "Idempotency-Key is required".

Definition retryResponse (seconds : Z) (message : string) : Response :=
  let retryAfter := Z.min RateLimitRetryAfterMaxBound (Z.max RateLimitRetryAfterMin seconds) in
  {| hr_Status := StatusTooManyRequests; hr_RetryAfter := Some retryAfter;
     hr_Payload := ErrorText message; hr_Wakes := []; hr_Subscribed := None |}.

Definition writeStoreError (err : Err) : H := fun s =>
  match err with
  | ErrForbidden => (plain StatusForbidden (ErrorText "authorization denied"), s)
  | ErrConflict => (plain StatusConflict (ErrorText "request conflicts with durable state"), s)
  | ErrRateLimited seconds => (retryResponse seconds "rate limited", s)
  | ErrCapacityExceeded seconds => (retryResponse seconds "capacity exceeded", s)
  | ErrMaintenance =>
      ({| hr_Status := StatusServiceUnavailable; hr_RetryAfter := Some 5;
          hr_Payload := ErrorText "relay maintenance in progress"; hr_Wakes := []; hr_Subscribed := None |}, s)
  | _ => (plain StatusBadRequest (ErrorText "invalid request"), s)
  end.

Definition aborted : H := writeJSON 0 NoPayload.

(** Call the store; an error ends the request with its status. *)
Definition call {A} (m : M A) (k : A -> H) : H := fun s =>
  match m s with
  | (inl ErrPanic, s') => aborted s'
  | (inl e, s') => writeStoreError e s'
  | (inr a, s') => k a s'
  end.

Definition withWakes (wakes : list (string * string * Z)) (h : H) : H := fun s =>
  let '(r, s') := h s in
  ({| hr_Status := hr_Status r; hr_RetryAfter := hr_RetryAfter r; hr_Payload := hr_Payload r;
      hr_Wakes := wakes ++ hr_Wakes r; hr_Subscribed := hr_Subscribed r |}, s').

(** [StatusCreated], or [StatusOK] for a replay. *)
Definition createdUnless (duplicate : bool) : Z := if duplicate then StatusOK else StatusCreated.

(** ** Decoded request bodies *)

Record RegisterRoleBody := { rb_Role : string; rb_DisplayName : option string; rb_DirectAddressable : option bool }.
Record ListRolesBody := { lb_Cursor : string; lb_Limit : option Z }.
Record DirectMessageBody := { db_FromRole : string; db_ToRole : string; db_Body : string }.
Record BindRoleBody := { bb_Role : string; bb_SessionEndpoint : string }.
Record ControlBody := { ob_ActorEndpoint : string; ob_Operation : string; ob_Endpoint : string;
  ob_Capabilities : list string }.
Record DisplayNameBody := { nb_ActorEndpoint : string; nb_DisplayName : string }.
Record PendingClaimsBody := { pb_Limit : Z; pb_After : string }.
Record InboundBody := { ib_FromEndpoint : string; ib_FromParticipant : string; ib_Body : string;
  ib_InReplyToMessage : string; ib_InReplyToEndpoint : string; ib_TelegramThreadID : Z }.
Record MemberBody := { mb_Endpoint : string; mb_Role : string; mb_RoleMachineID : string;
  mb_Capabilities : list string }.
Record CreateBody := { cb_CreatorEndpoint : string; cb_DisplayName : string; cb_ProjectID : string;
  cb_Members : list MemberBody }.
Record AppendBody := { ab_FromEndpoint : string; ab_TargetRole : string; ab_Body : string;
  ab_ArtifactIDs : list string }.
Record InvocationBody := { vb_FromEndpoint : string; vb_TargetEndpoint : string }.
Record LeaseInvocationsBody := { lv_ConsumerID : string; lv_Limit : Z }.
Record OutcomeBody := { ub_LeaseToken : string; ub_LeaseGeneration : Z; ub_Accepted : bool }.
Record LeaseBody := { lz_Endpoint : string; lz_ConsumerID : string; lz_ConversationID : string; lz_Limit : Z }.
Record AckBody := { kb_Endpoint : string; kb_LeaseToken : string; kb_LeaseGeneration : Z }.
Record FleetStatusBody := { fb_Generation : Z; fb_AppliedDigest : string; fb_State : string;
  fb_Activation : string; fb_TrailerState : string; fb_AliasState : string;
  fb_ProjectMatchState : string; fb_ReportGeneration : Z }.

(** [decodeJSON] into a request type: [None] is an error. *)
Class DecodeJSON (T : Type) := decodeJSON : list Z -> option T.

(** The object types with one string field, by its name, and with none. *)
Record EndpointBody := { eb_Endpoint : string }.
Record ActorBody := { tb_ActorEndpoint : string }.
Record SenderBody := { sb_FromEndpoint : string }.
Record NameBody := { qb_Name : string }.
Record EmptyBody := { }.
Record EndpointsBody := { es_Endpoints : list string }.

Class Json := {
  json_registerRole :: DecodeJSON RegisterRoleBody;
  json_listRoles :: DecodeJSON ListRolesBody;
  json_resolveRole :: DecodeJSON NameBody;
  json_direct :: DecodeJSON DirectMessageBody;
  json_bindRole :: DecodeJSON BindRoleBody;
  json_control :: DecodeJSON ControlBody;
  json_actor :: DecodeJSON ActorBody;
  json_sender :: DecodeJSON SenderBody;
  json_displayName :: DecodeJSON DisplayNameBody;
  json_endpoint :: DecodeJSON EndpointBody;
  json_empty :: DecodeJSON EmptyBody;
  json_pendingClaims :: DecodeJSON PendingClaimsBody;
  json_inbound :: DecodeJSON InboundBody;
  json_endpoints :: DecodeJSON EndpointsBody;
  json_create :: DecodeJSON CreateBody;
  json_append :: DecodeJSON AppendBody;
  json_invocation :: DecodeJSON InvocationBody;
  json_leaseInvocations :: DecodeJSON LeaseInvocationsBody;
  json_outcome :: DecodeJSON OutcomeBody;
  json_lease :: DecodeJSON LeaseBody;
  json_ack :: DecodeJSON AckBody;
  json_fleetStatus :: DecodeJSON FleetStatusBody;
}.

(** ** Capabilities *)

Definition capabilityNamed (value : string) : option Z :=
  if bool_decide (value = "send") then Some CapSend
  else if bool_decide (value = "receive") then Some CapReceive
  else if bool_decide (value = "admin") then Some CapAdmin
  else if bool_decide (value = "invoke") then Some CapInvoke
  else None.

Fixpoint orCapabilities (values : list string) (capabilities : Z) : option Z :=
  match values with
  | [] => Some capabilities
  | value :: values =>
      c ← capabilityNamed value;
      orCapabilities values (Z.lor capabilities c)
  end.

Definition parseCapabilities (values : list string) : option Z :=
  capabilities ← orCapabilities values 0;
  if capabilities =? 0 then None else Some capabilities.

(** ** Fleet configuration *)

Record FleetStatusReport := { fr_Generation : Z; fr_AppliedDigest : string; fr_State : string;
  fr_Activation : string; fr_TrailerState : string; fr_AliasState : string; fr_ProjectMatchState : string;
  fr_ReportGeneration : Z; fr_IdempotencyKey : string; fr_RequestHash : string }.

(** The store behind the fleet routes; an error is its text. *)
Record FleetConfigStore := {
  FleetDesired : option FleetDesiredMetadata;
  FleetRelease : string -> option (list Z);
  PutFleetStatus : string -> FleetStatusReport -> option string;
}.

Definition hexLower (b : Z) : bool := Utf8.inRange 0x30 0x39 b || Utf8.inRange 0x61 0x66 b.

(** ^[0-9a-f]{64}$ *)
Definition fleetDigest (digest : string) : bool :=
  (goLen digest =? 64) && forallb hexLower (bytesOf digest).

Definition oneOf (value : string) (values : list string) : bool := bool_decide (value ∈ values).

Definition validFleetStatus (report : FleetStatusReport) : bool :=
  negb ((fr_Generation report <? 1) || (fr_ReportGeneration report <? 1) ||
        negb (ValidRequestToken (fr_IdempotencyKey report))) &&
  (bool_decide (fr_AppliedDigest report = "") || fleetDigest (fr_AppliedDigest report)) &&
  oneOf (fr_State report) ["current"; "pending"; "applying"; "failed"; "offline"; "drifted";
    "unsupported"; "restart_required"] &&
  (bool_decide (fr_Activation report = "") ||
   oneOf (fr_Activation report) ["immediate"; "next_turn"; "next_session"; "restart_required"]) &&
  oneOf (fr_TrailerState report) [""; "missing"; "present"; "collision"] &&
  oneOf (fr_AliasState report) [""; "disabled"; "linked"; "unsupported"; "collision"] &&
  oneOf (fr_ProjectMatchState report) [""; "none"; "matched"; "override"; "unmatched"].

Definition fleetStatusRequestHash (machineID : string) (report : FleetStatusReport) : string :=
  hexEncode (Sha256.Sum256 (bytesOf (joinLines [machineID; fr_AppliedDigest report; fr_State report;
    fr_Activation report; fr_TrailerState report; fr_AliasState report; fr_ProjectMatchState report;
    itoa (fr_Generation report); itoa (fr_ReportGeneration report)]))).

Definition fleetReport (machineID idempotencyKey : string) (b : FleetStatusBody) : FleetStatusReport :=
  let report hash := {| fr_Generation := fb_Generation b; fr_AppliedDigest := fb_AppliedDigest b;
    fr_State := fb_State b; fr_Activation := fb_Activation b; fr_TrailerState := fb_TrailerState b;
    fr_AliasState := fb_AliasState b; fr_ProjectMatchState := fb_ProjectMatchState b;
    fr_ReportGeneration := fb_ReportGeneration b; fr_IdempotencyKey := idempotencyKey;
    fr_RequestHash := hash |} in
  report (fleetStatusRequestHash machineID (report "")).

(** ** Handlers *)

Record handler := {
  h_auth : Authenticator;
  h_endpointLeaseTTL : Z;
  h_deliveryLeaseTTL : Z;
  h_fleet : option FleetConfigStore;
}.

(** The lease times of [HandlerOptions], not positive when unset. *)
Definition NewHandler (auth : Authenticator) (endpointLeaseTTL deliveryLeaseTTL : Z) (metrics : Metrics)
    (fleet : option FleetConfigStore) : M handler :=
  SetMetrics (Some metrics);;
  mret {| h_auth := auth;
          h_endpointLeaseTTL := if endpointLeaseTTL <=? 0 then 2 * Time.Minute else endpointLeaseTTL;
          h_deliveryLeaseTTL := if deliveryLeaseTTL <=? 0 then Time.Minute else deliveryLeaseTTL;
          h_fleet := fleet |}.

Definition DefaultRoleListLimit : Z := 50.

Section Handlers.
Context `{Env, AuthEnv, Json} (h : handler).

Definition allowed (machineID endpoint : string) : bool := AllowsEndpoint (h_auth h) machineID endpoint.

(** The wake hints of an accepted message. *)
Definition publishMessage (message : Message) (duplicate : bool) (now : Z) : H :=
  if duplicate then writeJSON StatusOK (MessagePayload message)
  else call (RecipientMachines (g_ID message) now) (fun machines =>
    withWakes ((fun machine => (machine, g_ConversationID message, g_Sequence message)) <$> machines)
      (writeJSON StatusCreated (MessagePayload message))).

Definition handler_registerRole (body : list Z) (machineID : string) (now : Z) (key : string) : H :=
  if negb (ValidRequestToken key) then keyRequired
  else match (decodeJSON body : option RegisterRoleBody) with
  | None => writeError StatusBadRequest "invalid role registration"
  | Some request =>
      call (RegisterRoleProfile {| rr_MachineID := machineID; rr_Role := rb_Role request;
          rr_DisplayName := default "" (rb_DisplayName request);
          rr_DirectAddressable := default false (rb_DirectAddressable request);
          rr_IdempotencyKey := key; rr_Now := now |})
        (fun r => writeJSON (if r.2 then StatusCreated else StatusOK) (RoleProfilePayload r.1))
  end.

Definition handler_listRoles (body : list Z) (now : Z) : H :=
  match (decodeJSON body : option ListRolesBody) with
  | None => writeError StatusBadRequest "invalid role directory request"
  | Some request =>
      call (ListAddressableRoles (lb_Cursor request) (default DefaultRoleListLimit (lb_Limit request)) now)
        (fun page => writeJSON StatusOK (RolePagePayload page))
  end.

Definition handler_resolveRole (body : list Z) (now : Z) : H :=
  match (decodeJSON body : option NameBody) with
  | None => writeError StatusBadRequest "invalid role resolution request"
  | Some request =>
      call (ResolveAddressableRole (qb_Name request) now) (fun result =>
        match rs_Status result with
        | RoleResolveResolved => writeJSON StatusOK (RoleResolvePayload result)
        | RoleResolveAmbiguous => writeJSON StatusConflict (RoleResolvePayload result)
        | RoleResolveNotFound => writeError StatusNotFound "role not found"
        end)
  end.

Definition handler_sendDirectMessage (body : list Z) (machineID : string) (now : Z) (key : string) : H :=
  if negb (ValidRequestToken key) then keyRequired
  else match (decodeJSON body : option DirectMessageBody) with
  | None => writeError StatusBadRequest "invalid direct message request"
  | Some request =>
      call (SendDirectMessage {| dm_SenderMachineID := machineID; dm_FromRole := db_FromRole request;
          dm_ToRole := db_ToRole request; dm_Body := db_Body request; dm_IdempotencyKey := key; dm_Now := now |})
        (fun r => publishMessage r.1 r.2 now)
  end.

Definition handler_bindRole (body : list Z) (machineID : string) (now : Z) : H :=
  match (decodeJSON body : option BindRoleBody) with
  | None => denied
  | Some request =>
      if negb (allowed machineID (bb_SessionEndpoint request)) then denied
      else call (BindRoleToSession machineID (bb_Role request) (bb_SessionEndpoint request) now
                   (h_endpointLeaseTTL h)) (fun _ => writeJSON StatusNoContent NoPayload)
  end.

(** The capabilities of a control request: parsed for an upsert, none for a
    removal. *)
Definition controlCapabilities (request : ControlBody) : option Z :=
  if bool_decide (ob_Operation request = "upsert_member") then parseCapabilities (ob_Capabilities request)
  else if negb (bool_decide (ob_Operation request = "remove_member")) ||
          negb (bool_decide (ob_Capabilities request = [])) then None
  else Some 0.

Definition handler_applyControl (body : list Z) (machineID conversationID : string) (now : Z)
    (key : string) : H :=
  if negb (ValidRequestToken key) then keyRequired
  else match (decodeJSON body : option ControlBody) with
  | None => writeError StatusBadRequest "invalid control request"
  | Some request =>
      if negb (allowed machineID (ob_ActorEndpoint request)) then denied
      else match controlCapabilities request with
      | None => writeError StatusBadRequest "invalid control request"
      | Some capabilities =>
          call (ApplyControl {| ci_ConversationID := conversationID; ci_ActorMachineID := machineID;
              ci_ActorEndpoint := ob_ActorEndpoint request; ci_Operation := ob_Operation request;
              ci_Member := {| m_Endpoint := ob_Endpoint request; m_Role := ""; m_RoleMachineID := "";
                              m_Capabilities := capabilities |};
              ci_IdempotencyKey := key; ci_Now := now |})
            (fun r => writeJSON (createdUnless r.2) (EventPayload r.1))
      end
  end.

Definition handler_controlAudit (body : list Z) (machineID conversationID : string) (now : Z) : H :=
  match (decodeJSON body : option ActorBody) with
  | None => denied
  | Some request =>
      if negb (allowed machineID (tb_ActorEndpoint request)) then denied
      else call (ControlAudit conversationID machineID (tb_ActorEndpoint request) now)
             (fun events => writeJSON StatusOK (EventsPayload events))
  end.

Definition handler_validateSender (body : list Z) (machineID conversationID : string) (now : Z) : H :=
  match (decodeJSON body : option SenderBody) with
  | None => writeError StatusBadRequest "invalid sender validation request"
  | Some request =>
      if negb (allowed machineID (sb_FromEndpoint request)) then denied
      else call (AuthorizeSender conversationID machineID (sb_FromEndpoint request) now)
             (fun _ => writeJSON StatusOK AuthorizedPayload)
  end.

Definition handler_setConversationDisplayName (body : list Z) (machineID conversationID : string)
    (now : Z) (key : string) : H :=
  if negb (ValidRequestToken key) then keyRequired
  else match (decodeJSON body : option DisplayNameBody) with
  | None => writeError StatusBadRequest "invalid display name request"
  | Some request =>
      if negb (allowed machineID (nb_ActorEndpoint request)) then denied
      else call (SetConversationDisplayName {| sd_ConversationID := conversationID;
             sd_ActorMachineID := machineID; sd_ActorEndpoint := nb_ActorEndpoint request;
             sd_DisplayName := nb_DisplayName request; sd_IdempotencyKey := key; sd_Now := now |})
           (fun r => writeJSON (createdUnless r.2) (ConversationPayload r.1))
  end.

Definition handler_reserveTelegramClaim (body : list Z) (machineID conversationID : string) (now : Z)
    (key : string) : H :=
  if negb (ValidRequestToken key) then keyRequired
  else match (decodeJSON body : option EndpointBody) with
  | None => writeError StatusBadRequest "invalid telegram claim request"
  | Some request =>
      if negb (allowed machineID (eb_Endpoint request)) then denied
      else call (ReserveTelegramClaim {| ti_ConversationID := conversationID; ti_MachineID := machineID;
             ti_Endpoint := eb_Endpoint request; ti_IdempotencyKey := key; ti_Now := now |})
           (fun r => writeJSON (createdUnless r.2) (ClaimPayload r.1))
  end.

Definition handler_completeTelegramClaim (body : list Z) (machineID conversationID : string) (now : Z) : H :=
  match (decodeJSON body : option EmptyBody) with
  | None => writeError StatusBadRequest "invalid telegram claim complete request"
  | Some _ =>
      if negb (allowed machineID TelegramGatewayEndpoint) then denied
      else call (CompleteTelegramClaim conversationID machineID now)
             (fun r => writeJSON (createdUnless r.2) (ClaimPayload r.1))
  end.

Definition handler_pendingTelegramClaims (body : list Z) (machineID : string) (now : Z) : H :=
  match (decodeJSON body : option PendingClaimsBody) with
  | None => writeError StatusBadRequest "invalid pending claim request"
  | Some request =>
      if (pb_Limit request <? 1) || (100 <? pb_Limit request)
      then writeError StatusBadRequest "invalid pending claim request"
      else if negb (allowed machineID TelegramGatewayEndpoint) then denied
      else call (PendingTelegramClaims machineID now (pb_Limit request) (pb_After request))
             (fun claims => writeJSON StatusOK (ClaimsPayload claims))
  end.

Definition handler_unclaimedTelegramTopics (machineID : string) (now : Z) : H :=
  if negb (allowed machineID TelegramGatewayEndpoint) then denied
  else call (UnclaimedNamedConversations machineID now 10)
         (fun topics => writeJSON StatusOK (TopicsPayload topics)).

Definition handler_sessionTopic (body : list Z) (machineID : string) (now : Z) : H :=
  match (decodeJSON body : option EndpointBody) with
  | None => writeError StatusBadRequest "invalid session topic request"
  | Some request =>
      if negb (allowed machineID (eb_Endpoint request)) then denied
      else call (SessionTopic machineID (eb_Endpoint request) now)
             (fun topic => writeJSON StatusOK (TopicPayload topic))
  end.

Definition handler_appendTelegramInbound (body : list Z) (machineID conversationID : string) (now : Z)
    (key : string) : H :=
  if negb (ValidRequestToken key) then keyRequired
  else match (decodeJSON body : option InboundBody) with
  | None => writeError StatusBadRequest "invalid telegram inbound request"
  | Some request =>
      if negb (allowed machineID TelegramGatewayEndpoint) then denied
      else call (AppendTelegramInbound {| tg_ConversationID := conversationID;
             tg_SenderMachineID := machineID; tg_FromEndpoint := ib_FromEndpoint request;
             tg_FromParticipant := ib_FromParticipant request; tg_Body := ib_Body request;
             tg_InReplyToMessageID := ib_InReplyToMessage request;
             tg_InReplyToEndpoint := ib_InReplyToEndpoint request;
             tg_TelegramThreadID := ib_TelegramThreadID request; tg_IdempotencyKey := key; tg_Now := now |})
           (fun r => publishMessage r.1 r.2 now)
  end.

Definition handler_listConversations (machineID : string) (now : Z) : H :=
  call (ConversationsForMachine machineID now)
    (fun conversations => writeJSON StatusOK (ConversationsPayload conversations)).

(** The socket registers before its handshake; what follows is the notifier's. *)
Definition handler_notifications (session : MachineSession) : H := fun s =>
  ({| hr_Status := StatusSwitchingProtocols; hr_RetryAfter := None; hr_Payload := NoPayload;
      hr_Wakes := []; hr_Subscribed := Some (ss_MachineID session) |}, s).

Definition handler_advertiseEndpoints (body : list Z) (machineID : string) (now : Z) : H :=
  match (decodeJSON body : option EndpointsBody) with
  | None => writeError StatusBadRequest "invalid endpoint advertisement"
  | Some request =>
      if negb (forallb (allowed machineID) (es_Endpoints request)) then denied
      else call (AdvertiseEndpoints machineID (es_Endpoints request) now (h_endpointLeaseTTL h))
             (fun _ => writeJSON StatusOK (LeaseUntilPayload (Time.Add now (h_endpointLeaseTTL h))))
  end.

(** The loop over the members: the parsed members, or how it ends. *)
Fixpoint parseMembers (members : list MemberBody) : H + list Member :=
  match members with
  | [] => inr []
  | member :: members =>
      match parseCapabilities (mb_Capabilities member) with
      | None => inl (writeError StatusBadRequest "invalid conversation capabilities")
      | Some capabilities =>
          if negb (bool_decide (mb_Role member = "")) && hasCap capabilities CapInvoke
          then inl (writeError StatusBadRequest "invalid conversation capabilities")
          else if negb (bool_decide (mb_RoleMachineID member = "")) &&
                  negb (has (au_machines (h_auth h)) (mb_RoleMachineID member))
          then inl denied
          else match parseMembers members with
          | inl e => inl e
          | inr parsed =>
              inr ({| m_Endpoint := mb_Endpoint member; m_Role := mb_Role member;
                      m_RoleMachineID := mb_RoleMachineID member; m_Capabilities := capabilities |} :: parsed)
          end
      end
  end.

Definition handler_createConversation (body : list Z) (machineID : string) (now : Z) (key : string) : H :=
  if negb (ValidRequestToken key) then keyRequired
  else match (decodeJSON body : option CreateBody) with
  | None => writeError StatusBadRequest "invalid conversation request"
  | Some request =>
      if negb (allowed machineID (cb_CreatorEndpoint request)) then denied
      else call (AssertEndpointOwnership machineID (cb_CreatorEndpoint request) now) (fun _ =>
        match parseMembers (cb_Members request) with
        | inl refused => refused
        | inr members =>
            call (CreateConversationIdempotent {| cc_MachineID := machineID;
                cc_ProjectID := cb_ProjectID request; cc_IdempotencyKey := key;
                cc_CreatorEndpoint := cb_CreatorEndpoint request; cc_DisplayName := cb_DisplayName request;
                cc_Members := members; cc_Now := now |})
              (fun conversation => writeJSON StatusCreated (ConversationPayload conversation))
        end)
  end.

Definition handler_appendMessage (body : list Z) (machineID principalID conversationID : string) (now : Z)
    (key : string) : H :=
  if negb (ValidRequestToken key) then keyRequired
  else match (decodeJSON body : option AppendBody) with
  | None => writeError StatusBadRequest "invalid message request"
  | Some request =>
      if negb (bool_decide (ab_TargetRole request = "")) && negb (ValidRole (ab_TargetRole request))
      then writeError StatusBadRequest "invalid message request"
      else if negb (allowed machineID (ab_FromEndpoint request)) then denied
      else call (AppendMessage {| ai_ConversationID := conversationID; ai_SenderMachineID := machineID;
             ai_PrincipalID := principalID; ai_FromEndpoint := ab_FromEndpoint request;
             ai_TargetRole := ab_TargetRole request; ai_Body := ab_Body request;
             ai_ArtifactIDs := ab_ArtifactIDs request; ai_IdempotencyKey := key; ai_Now := now |})
           (fun r => publishMessage r.1 r.2 now)
  end.

Definition handler_requestInvocation (body : list Z) (machineID conversationID : string) (now : Z)
    (key : string) : H :=
  if negb (ValidRequestToken key) then keyRequired
  else match (decodeJSON body : option InvocationBody) with
  | None => writeError StatusBadRequest "invalid invocation request"
  | Some request =>
      if negb (allowed machineID (vb_FromEndpoint request)) then denied
      else call (RequestInvocation {| in_ConversationID := conversationID; in_SenderMachineID := machineID;
             in_FromEndpoint := vb_FromEndpoint request; in_TargetEndpoint := vb_TargetEndpoint request;
             in_IdempotencyKey := key; in_Now := now |}) (fun r =>
           let '(invocation, duplicate) := r in
           let status := if duplicate || bool_decide (i_Status invocation = InvocationAlreadyRunning)
                         then StatusOK else StatusCreated in
           let wakes := if negb duplicate && bool_decide (i_Status invocation = InvocationPending) &&
                           allowed (i_TargetMachineID invocation) (i_TargetEndpoint invocation)
                        then [(i_TargetMachineID invocation, i_ConversationID invocation, 1)] else [] in
           withWakes wakes (writeJSON status (InvocationPayload invocation)))
  end.

(** The loop that keeps the allowed starts and rejects the others. *)
Fixpoint rejectOutOfScope (leased : list Invocation) (machineID : string) (now : Z)
    (kept : list Invocation) : H :=
  match leased with
  | [] => writeJSON StatusOK (InvocationsPayload (rev kept))
  | invocation :: leased =>
      if allowed machineID (i_TargetEndpoint invocation)
      then rejectOutOfScope leased machineID now (invocation :: kept)
      else call (RejectInvocation machineID (i_ID invocation) (i_LeaseToken invocation)
                   (i_LeaseGeneration invocation) now)
             (fun _ => rejectOutOfScope leased machineID now kept)
  end.

Definition handler_leaseInvocations (body : list Z) (machineID : string) (now : Z) : H :=
  match (decodeJSON body : option LeaseInvocationsBody) with
  | None => writeError StatusBadRequest "invalid invocation lease request"
  | Some request =>
      if negb (ValidRequestToken (lv_ConsumerID request))
      then writeError StatusBadRequest "invalid invocation lease request"
      else
        let limit := if lv_Limit request =? 0 then 50 else lv_Limit request in
        call (LeaseInvocations machineID (lv_ConsumerID request) now (h_deliveryLeaseTTL h) limit)
          (fun leased => rejectOutOfScope leased machineID now [])
  end.

Definition handler_reportInvocation (body : list Z) (machineID invocationID : string) (now : Z) : H :=
  match (decodeJSON body : option OutcomeBody) with
  | None => writeError StatusBadRequest "invalid invocation outcome"
  | Some request =>
      call (ReportInvocation machineID invocationID (ub_LeaseToken request) (ub_LeaseGeneration request)
              (ub_Accepted request) now) (fun _ => writeJSON StatusNoContent NoPayload)
  end.

Definition handler_leaseDeliveries (body : list Z) (machineID : string) (now : Z) : H :=
  match (decodeJSON body : option LeaseBody) with
  | None => writeError StatusBadRequest "invalid delivery lease request"
  | Some request =>
      if negb (ValidRequestToken (lz_ConsumerID request))
      then writeError StatusBadRequest "invalid delivery lease request"
      else if negb (allowed machineID (lz_Endpoint request)) then denied
      else
        let limit := if lz_Limit request =? 0 then 50 else lz_Limit request in
        call (LeaseDeliveries machineID (lz_ConsumerID request) (lz_Endpoint request)
                (lz_ConversationID request) now (h_deliveryLeaseTTL h) limit)
          (fun page => writeJSON StatusOK (DeliveriesPayload page))
  end.

Definition handler_ackDelivery (body : list Z) (machineID deliveryID : string) (now : Z) : H :=
  match (decodeJSON body : option AckBody) with
  | None => writeError StatusBadRequest "invalid delivery acknowledgement"
  | Some request =>
      if negb (allowed machineID (kb_Endpoint request)) then denied
      else call (AckDelivery machineID (kb_Endpoint request) deliveryID (kb_LeaseToken request)
                   (kb_LeaseGeneration request) now) (fun _ => writeJSON StatusNoContent NoPayload)
  end.
End Handlers.

(** ** Fleet configuration routes *)

Section Fleet.
Context `{Json} (h : handler).

Definition fleetRefused : H := writeError StatusForbidden "fleet-config access is not authorized".

Definition handler_fleetDesired : H :=
  match h_fleet h with
  | None => routeNotFound
  | Some fleet =>
      match FleetDesired fleet with
      | None => fleetRefused
      | Some desired => writeJSON StatusOK (FleetDesiredPayload desired)
      end
  end.

Definition handler_fleetRelease (digest : string) : H :=
  match h_fleet h with
  | None => routeNotFound
  | Some fleet =>
      if negb (fleetDigest digest) then routeNotFound
      else match FleetRelease fleet digest with
      | None | Some [] => fleetRefused
      | Some archive => writeJSON StatusOK (ArchivePayload archive)
      end
  end.

Definition handler_fleetStatus (body : list Z) (machineID key : string) : H :=
  match h_fleet h with
  | None => routeNotFound
  | Some fleet =>
      if negb (ValidRequestToken key) then writeError StatusBadRequest "idempotency key is required"
      else match (decodeJSON body : option FleetStatusBody) with
      | None => writeError StatusBadRequest "invalid fleet-config status"
      | Some request =>
          let report := fleetReport machineID key request in
          if negb (validFleetStatus report) then writeError StatusBadRequest "invalid fleet-config status"
          else match PutFleetStatus fleet machineID report with
          | None => writeJSON StatusOK RecordedPayload
          | Some text =>
              if Contains text "stale" then writeError StatusConflict "fleet-config status generation is stale"
              else if Contains text "idempotency"
              then writeError StatusConflict "idempotency key conflicts with an earlier operation"
              else fleetRefused
          end
      end
  end.
End Fleet.

(** ** Requests *)

Inductive BodyReader := BodyNil | BodyBytes (l : list Z) | BodyFails.

Record HttpRequest := {
  hq_Request : Request;
  hq_RawQuery : string;
  hq_RawPath : string;
  hq_EscapedPath : string;
  hq_Body : BodyReader;
}.

Definition maxRequestBodyBytes : Z := Z.shiftl 64 10.

Definition readBoundedBody (r : HttpRequest) : option (list Z) :=
  match hq_Body r with
  | BodyNil => Some []
  | BodyFails => None
  | BodyBytes l => if maxRequestBodyBytes <? Z.of_nat (length l) then None else Some l
  end.

Definition RequestCorrelationHeader : string := "X-Punaro-Request-Correlation".

Definition responseNonce (r : Request) : string :=
  let nonce := Header_Get r "X-Punaro-Nonce" in
  if negb (bool_decide (nonce = "")) then nonce
  else
    let correlation := Header_Get r RequestCorrelationHeader in
    if ValidRequestToken correlation then correlation else "".

(** The two clock readings of a request, and a third one of the doctor. *)
Record Clock := { ck_auth : Z; ck_now : Z; ck_last : Z }.

Definition TrimPrefix (s prefix : string) : string := default s (CutPrefix s prefix).
Definition TrimSuffix (s suffix : string) : string :=
  if HasSuffix s suffix then String.substring 0 (String.length s - String.length suffix) s else s.

(** A path [prefix]...[suffix], without the two. *)
Definition routeID (path prefix suffix : string) : option string :=
  if HasPrefix path prefix && HasSuffix path suffix
  then Some (TrimSuffix (TrimPrefix path prefix) suffix) else None.

(** One route with an identifier in its path, or the routes after it. *)
Definition withID (id : option string) (k : string -> H) (rest : H) : H :=
  match id with
  | None => rest
  | Some id => if bool_decide (id = "") || Contains id "/" then routeNotFound else k id
  end.

Section Serve.
Context `{Env, AuthEnv, Json} (h : handler).

Definition plainRequest (r : HttpRequest) (path : string) (body : list Z) : bool :=
  bool_decide (body = []) && bool_decide (hq_RawPath r = "") && bool_decide (hq_EscapedPath r = path).

Definition doctorSnapshot (machineID : string) (now : Z) : M (option AttachmentDoctorSnapshot) :=
  r ← attempt (DoctorAttachments machineID now);
  mret (match r with inr snapshot => Some snapshot | inl _ => None end).

Definition doctorAttached (machineID endpoint : string) (now : Z) : M (option bool) :=
  if bool_decide (endpoint = "") then mret None
  else if ValidEndpoint endpoint && AllowsEndpoint (h_auth h) machineID endpoint then
    r ← attempt (AssertEndpointOwnership machineID endpoint now);
    mret (Some (match r with inr _ => true | inl _ => false end))
  else mret (Some false).

Definition handler_doctor (r : HttpRequest) (path : string) (body : list Z) (clock : Clock) : H :=
  if negb (plainRequest r path body) then writeError StatusBadRequest "invalid doctor request"
  else match AuthenticateReadOnlyDoctor (Some (h_auth h)) (Some (hq_Request r)) body (ck_auth clock) with
  | inl _ => writeError StatusUnauthorized "authentication required"
  | inr session =>
      call (doctorSnapshot (ss_MachineID session) (ck_now clock)) (fun snapshot =>
        call (doctorAttached (ss_MachineID session) (Header_Get (hq_Request r) DoctorEndpointHeader)
                (ck_last clock)) (fun attached =>
          writeJSON StatusNoContent (DoctorPayload snapshot attached)))
  end.

Definition handler_doctorNotifications (r : HttpRequest) (path : string) (body : list Z) (clock : Clock) : H :=
  if negb (plainRequest r path body) then writeError StatusBadRequest "invalid doctor request"
  else match AuthenticateReadOnlyDoctor (Some (h_auth h)) (Some (hq_Request r)) body (ck_auth clock) with
  | inl _ => writeError StatusUnauthorized "authentication required"
  | inr _ => writeJSON StatusSwitchingProtocols NoPayload
  end.

(** The [switch] over method and path, for an authenticated session. *)
Definition route (r : HttpRequest) (path : string) (body : list Z) (session : MachineSession) (now : Z) : H :=
  let machineID := ss_MachineID session in
  let key := Header_Get (hq_Request r) "Idempotency-Key" in
  let isAt method p := bool_decide (rq_Method (hq_Request r) = method) && bool_decide (path = p) in
  let post suffix := if bool_decide (rq_Method (hq_Request r) = "POST")
                     then routeID path "/v1/conversations/" suffix else None in
  let postTo prefix suffix := if bool_decide (rq_Method (hq_Request r) = "POST")
                              then routeID path prefix suffix else None in
  if isAt "GET" "/v1/conversations" then handler_listConversations machineID now
  else if isAt "GET" "/v1/notifications" then handler_notifications session
  else if isAt "GET" "/v1/fleet-config/desired" then handler_fleetDesired h
  else withID (if bool_decide (rq_Method (hq_Request r) = "GET") && HasPrefix path "/v1/fleet-config/releases/"
               then Some (TrimPrefix path "/v1/fleet-config/releases/") else None)
    (handler_fleetRelease h) (
  if isAt "PUT" "/v1/fleet-config/status" then handler_fleetStatus h body machineID key
  else if isAt "PUT" "/v1/machines/me/endpoints" then handler_advertiseEndpoints h body machineID now
  else if isAt "POST" "/v1/roles/bindings" then handler_bindRole h body machineID now
  else if isAt "POST" "/v1/roles/register" then handler_registerRole body machineID now key
  else if isAt "POST" "/v1/roles/list" then handler_listRoles body now
  else if isAt "POST" "/v1/roles/resolve" then handler_resolveRole body now
  else if isAt "POST" "/v1/direct-messages" then handler_sendDirectMessage body machineID now key
  else if isAt "POST" "/v1/conversations" then handler_createConversation h body machineID now key
  else withID (post "/messages") (fun id =>
    handler_appendMessage h body machineID (ss_PrincipalID session) id now key) (
  withID (post "/invocations") (fun id => handler_requestInvocation h body machineID id now key) (
  withID (post "/sender-validation") (fun id => handler_validateSender h body machineID id now) (
  withID (post "/controls") (fun id => handler_applyControl h body machineID id now key) (
  withID (post "/controls/audit") (fun id => handler_controlAudit h body machineID id now) (
  withID (post "/display-name") (fun id => handler_setConversationDisplayName h body machineID id now key) (
  withID (post "/telegram-claim/complete") (fun id => handler_completeTelegramClaim h body machineID id now) (
  withID (post "/telegram-claim") (fun id => handler_reserveTelegramClaim h body machineID id now key) (
  withID (post "/telegram-inbound") (fun id => handler_appendTelegramInbound h body machineID id now key) (
  if isAt "POST" "/v1/telegram/claims/pending" then handler_pendingTelegramClaims h body machineID now
  else if isAt "GET" "/v1/telegram/unclaimed" then handler_unclaimedTelegramTopics h machineID now
  else if isAt "POST" "/v1/sessions/topic" then handler_sessionTopic h body machineID now
  else if isAt "POST" "/v1/deliveries/lease" then handler_leaseDeliveries h body machineID now
  else if isAt "POST" "/v1/invocations/lease" then handler_leaseInvocations h body machineID now
  else withID (postTo "/v1/invocations/" "/outcome") (fun id => handler_reportInvocation body machineID id now) (
  withID (postTo "/v1/deliveries/" "/ack") (fun id => handler_ackDelivery h body machineID id now)
  routeNotFound))))))))))).

(** The whole request. *)
Definition serveHTTP (r : HttpRequest) (clock : Clock) : H :=
  match rq_Path (hq_Request r) with
  | None => aborted
  | Some path =>
  if negb (bool_decide (hq_RawQuery r = "")) then writeError StatusBadRequest "query parameters are not accepted"
  else match readBoundedBody r with
  | None => writeError StatusRequestEntityTooLarge "request body is too large"
  | Some body =>
  if bool_decide (rq_Method (hq_Request r) = "HEAD") && bool_decide (path = DoctorPath)
  then handler_doctor r path body clock
  else if bool_decide (rq_Method (hq_Request r) = "GET") && bool_decide (path = DoctorNotificationsPath)
  then handler_doctorNotifications r path body clock
  else fun s =>
    match AuthenticateHTTPSession (Some (h_auth h)) (Some (hq_Request r)) body (ck_auth clock) s with
    | (inl ErrMaintenance, s') => writeStoreError ErrMaintenance s'
    | (inl ErrPanic, s') => aborted s'
    | (inl _, s') => writeError StatusUnauthorized "authentication required" s'
    | (inr session, s') => route r path body session (ck_now clock) s'
    end
  end
  end.

(** The response with the value of its [X-Punaro-Response-Nonce] header. *)
Definition ServeHTTP (r : HttpRequest) (clock : Clock) (s : St) : option string * Response * St :=
  let nonce := responseNonce (hq_Request r) in
  let '(response, s') := serveHTTP r clock s in
  (if bool_decide (nonce = "") then None else Some nonce, response, s').
End Serve.
