(* ===== verification/Starts.v ===== *)
(** * Start requests: one open fence per endpoint generation, bounded retries

    Requests to start an offline endpoint are coalesced into one pending fence
    per endpoint, machine and ownership generation; a leased request has been
    counted as an attempt, so reporting a failed start never computes a
    negative shift. *)

From S2P Require Import Prelude GoTime RateLimit Quota Text Sha256 Tables Tx Sessions Pending.
From S2P Require Import Invocations Rooms Claims Roles Directory Messages Deliveries QuotaInv Relay.
Open Scope Z_scope.

(** ** Attempts *)

(** Attempts stay within the limit, and a leased request has at least one. *)
Definition attempt_ok (iv : InvocationRow) : Prop :=
  0 <= iv_attempts iv <= maxInvocationAttempts /\ (is_Some (iv_lease_until iv) -> 1 <= iv_attempts iv).

Definition attempts_ok (d : Db) : Prop :=
  forall id iv, db_invocations d !! id = Some iv -> attempt_ok iv.

Lemma attempts_set d id iv :
  attempts_ok d -> attempt_ok iv -> attempts_ok (set_invocations (<[id:=iv]> (db_invocations d)) d).
Proof.
  intros HI Hiv id' iv' Hid. cbn in Hid. apply lookup_insert_Some in Hid as [[_ <-]|[_ ?]]; [done|by eapply HI].
Qed.

Lemma attempts_update id cond f :
  (forall iv, attempt_ok iv -> attempt_ok (f iv)) ->
  preserves attempts_ok (sql_update t_invocations id cond f).
Proof.
  intros Hf s n s' [(_ & -> & _)|(_ & iv & Hid & _ & _ & _ & ->)]%sql_update_ok HI; [done|].
  apply attempts_set; [done|]. apply Hf. by eapply HI.
Qed.

Lemma attempts_insert id iv : attempt_ok iv -> preserves attempts_ok (sql_insert t_invocations id iv).
Proof. intros Hiv s u s' (_ & _ & _ & _ & ->)%sql_insert_ok HI. by apply attempts_set. Qed.

Lemma attempts_delete cond : preserves attempts_ok (sql_delete_where t_invocations cond).
Proof.
  intros s u s' [[-> _]|(_ & _ & ->)]%sql_delete_where_ok HI; [done|].
  intros id iv Hid. cbn in Hid. apply map_lookup_filter_Some in Hid as [? _]. by eapply HI.
Qed.

Lemma attempt_endLease status notBefore terminal iv :
  attempt_ok iv -> attempt_ok (endLease status notBefore terminal iv).
Proof. intros [? _]. split; [done|]. by intros []. Qed.

Lemma attempt_close status now iv : attempt_ok iv -> attempt_ok (closeInvocationRow status now iv).
Proof. by intros [? ?]. Qed.

#[export] Hint Resolve attempts_delete : preserve.
#[export] Hint Extern 1 (preserves attempts_ok (sql_insert t_invocations _ _)) =>
  apply attempts_insert; split; [done|by intros []] : preserve.
#[export] Hint Extern 1 (preserves attempts_ok (sql_update t_invocations _ _ _)) =>
  apply attempts_update; intros ? ?; first [by apply attempt_endLease | by apply attempt_close] : preserve.

Section Leases.
Context `{Env}.

(** The rows still to be leased have been attempted if their lease is live. *)
Definition attempted (now : Z) (rows : list (string * InvocationRow)) (d : Db) : Prop :=
  forall id iv iv', (id, iv) ∈ rows -> leaseLapsed iv now = false ->
    db_invocations d !! id = Some iv' -> 1 <= iv_attempts iv'.

Lemma leaseOne_attempts machineID consumerID now ttl id iv rows r s s' :
  leaseOne machineID consumerID now ttl (id, iv) s = (inr r, s') -> attempt_ok iv ->
  attempts_ok (st_db s) -> attempted now ((id, iv) :: rows) (st_db s) ->
  attempts_ok (st_db s') /\ attempted now rows (st_db s').
Proof.
  intros Hl [Hiv _] HI HA. unfold leaseOne in Hl. tx_inv Hl.
  set (fresh := leaseLapsed iv now) in *.
  set (attempts := if fresh && negb (maxInvocationAttempts <=? iv_attempts iv)
    then iv_attempts iv + 1 else iv_attempts iv) in *.
  assert (fresh = true -> 1 <= attempts <= maxInvocationAttempts) as Hfresh.
  { intros ->. unfold attempts. simpl. unfold maxInvocationAttempts in *.
    destruct (Z.leb_spec 3 (iv_attempts iv)); simpl; lia. }
  assert (attempts_ok (st_db s0) /\ attempted now rows (st_db s0)) as [HI0 HA0].
  { apply sql_update_ok in Hm0 as [(_ & -> & _)|(_ & iv' & Hid & _ & _ & _ & ->)].
    - split; [done|]. intros k x x' Hk. apply (HA k x x'). set_solver.
    - cbn in Hid. assert (1 <= (if fresh then attempts else iv_attempts iv') <= maxInvocationAttempts) as Hok.
      { destruct fresh eqn:Hf; [by apply Hfresh|].
        split; [|destruct (HI id iv' Hid); lia].
        apply (HA id iv iv'); [set_solver|exact Hf|done]. }
      split.
      + apply attempts_set; [done|]. split; cbn; [lia|intros _; lia].
      + intros k x x' Hk Hx Hx'. cbn in Hx'. apply lookup_insert_Some in Hx' as [[_ <-]|[_ Hx']].
        * cbn. lia.
        * apply (HA k x x'); [set_solver|done|done]. }
  split; by step_back Hm1.
Qed.

Lemma lease_loop_attempts machineID consumerID now ttl rows r s s' :
  collect rows (leaseOne machineID consumerID now ttl) s = (inr r, s') ->
  (forall id iv, (id, iv) ∈ rows -> attempt_ok iv) ->
  attempts_ok (st_db s) -> attempted now rows (st_db s) -> attempts_ok (st_db s').
Proof.
  revert r s. induction rows as [|[id iv] rows IH]; intros r s Hl Hrows HI HA; cbn [collect] in Hl; tx_inv Hl; [done|].
  apply (leaseOne_attempts _ _ _ _ _ _ rows) in Hm as [HI0 HA0]; [| |done|done].
  - eapply IH; [done| |done|done]. intros k x Hk. eapply Hrows. apply elem_of_cons. by right.
  - eapply Hrows. apply elem_of_cons. by left.
Qed.

Lemma lease_attempts machineID consumerID now ttl limit :
  keeps attempts_ok (LeaseInvocations machineID consumerID now ttl limit).
Proof.
  unfold LeaseInvocations. keep. intros s r s' Hl HI. tx_inv Hl.
  match type of Hl with collect _ _ ?x = _ => assert (attempts_ok (st_db x)) as HI0 end.
  { step_back Hm2. step_back Hm1. step_back Hm0. by step_back Hm. }
  assert (forall id iv n, (id, iv) ∈ take n (orderBy (fun kv => (iv_created_at kv.2, kv.1))
    (filter (fun kv => leasable (st_db s3) machineID consumerID now kv.2 = true)
      (map_to_list (db_invocations (st_db s3))))) -> db_invocations (st_db s3) !! id = Some iv) as Hrow.
  { intros id iv n (i & Hin & _)%elem_of_take. apply list_elem_of_lookup_2, elem_of_sortBy in Hin.
    apply list_elem_of_filter in Hin as [_ Hin]. by apply elem_of_map_to_list. }
  eapply lease_loop_attempts; [exact Hl| |done|].
  - intros id iv Hin%Hrow. by eapply HI0.
  - intros id iv iv' Hin%Hrow Hlive Hiv'. rewrite Hin in Hiv'. injection Hiv' as <-.
    destruct (HI0 id iv Hin) as [_ H1]. apply H1.
    unfold leaseLapsed in Hlive. by destruct (iv_lease_until iv).
Qed.
#[local] Hint Resolve lease_attempts : preserve.

#[export] Instance attempts_invariant : RelayInvariant attempts_ok.
Proof. split; [split; [intros p d HI; exact HI|intros op; keep_op]|]. by intros ? ?. Qed.
End Leases.

(** ** No negative shift *)

Definition no_panic {A} (m : M A) : Prop := forall s s', m s <> (inl ErrPanic, s').

Lemma no_panic_bind {A B} (m : M A) (k : A -> M B) :
  no_panic m -> (forall a, no_panic (k a)) -> no_panic (m ≫= k).
Proof.
  intros Hm Hk s s'. unfold mbind, M_bind. destruct (m s) as [[e|a] s1] eqn:H1.
  - intros [= -> ->]. by apply Hm in H1.
  - apply Hk.
Qed.

Lemma no_panic_ret {A} (a : A) : no_panic (mret a).
Proof. by intros s s'. Qed.
Lemma no_panic_reject b e : e <> ErrPanic -> no_panic (reject_if b e).
Proof. intros He s s'. destruct b; simpl; [|done]. intros [= ? _]. done. Qed.
Lemma no_panic_query {A} (f : Db -> A) : no_panic (query f).
Proof. by intros s s'. Qed.
Lemma no_panic_put f : no_panic (put_db f).
Proof. by intros s s'. Qed.

Lemma no_panic_throw {A} e : e <> ErrPanic -> no_panic (throw (A:=A) e).
Proof. intros He s s' [= ? _]. done. Qed.

(** The same at one state. *)
Definition no_panic_at {A} (m : M A) (s : St) : Prop := forall s', m s <> (inl ErrPanic, s').

Lemma no_panic_then {A B} (m : M A) (k : A -> M B) s :
  no_panic m -> (forall a s1, m s = (inr a, s1) -> no_panic_at (k a) s1) -> no_panic_at (m ≫= k) s.
Proof.
  intros Hm Hk s'. unfold mbind, M_bind. destruct (m s) as [[e|a] s1] eqn:H1.
  - intros [= -> ->]. by apply Hm in H1.
  - by apply Hk.
Qed.

Lemma no_panic_transact {A} (m : M A) s : no_panic_at m s -> no_panic_at (transact m) s.
Proof.
  intros Hm s'. unfold transact. destruct (m s) as [[e|a] s1] eqn:H1; [|done].
  intros [= -> _]. by apply Hm in H1.
Qed.

Ltac no_panics :=
  repeat lazymatch goal with
  | |- no_panic (mbind _ _) => apply no_panic_bind; [|intros ?]
  | |- no_panic (mret _) => apply no_panic_ret
  | |- no_panic (reject_if _ _) => apply no_panic_reject; discriminate
  | |- no_panic (throw _) => apply no_panic_throw; discriminate
  | |- no_panic (query _) => apply no_panic_query
  | |- no_panic (put_db _) => apply no_panic_put
  | |- no_panic (match ?x with _ => _ end) => destruct x
  | |- no_panic ?m => let h := head_of m in unfold h; cbv beta zeta
  end.

Lemma no_panic_update id f action now : no_panic (updateInvocation id f action now).
Proof. no_panics. Qed.

(** The delay before the next attempt. *)
Lemma backoff_run n s :
  1 <= n <= maxInvocationAttempts ->
  exists b, invocationBackoff n s = (inr b, s) /\ 2 * Time.Second <= b <= maxInvocationBackoff.
Proof.
  unfold maxInvocationAttempts, invocationBackoff. intros Hn.
  destruct (Z.ltb_spec (n - 1) 0); [lia|].
  assert (n = 1 \/ n = 2 \/ n = 3) as [-> |[-> | ->]] by lia; eexists; (split; [reflexivity|]); vm_compute; done.
Qed.

(** Reporting the outcome of a start never panics: in every reachable state a
    leased request has one to three counted attempts, so the retry delay is
    computed with a non-negative shift and lies between two seconds and the
    configured maximum. *)
Theorem report_never_panics `{Env} machineID invocationID token generation accepted now s s' :
  reachable s ->
  ReportInvocation machineID invocationID token generation accepted now s <> (inl ErrPanic, s') /\
  forall iv, db_invocations (st_db s) !! invocationID = Some iv ->
    holdsLease iv machineID token generation now = true ->
    exists b, invocationBackoff (iv_attempts iv) s = (inr b, s) /\
      2 * Time.Second <= b <= maxInvocationBackoff.
Proof.
  intros Hs. pose proof (reachable_invariant attempts_ok s Hs) as HI.
  assert (forall iv, db_invocations (st_db s) !! invocationID = Some iv ->
    holdsLease iv machineID token generation now = true -> 1 <= iv_attempts iv <= maxInvocationAttempts) as Hatt.
  { intros iv Hiv Hl. destruct (HI _ _ Hiv) as [? H1]. split; [|lia]. apply H1.
    unfold holdsLease in Hl. bool_hyps. by destruct (iv_lease_until iv). }
  split; [|intros iv Hiv Hl; by apply backoff_run, Hatt].
  revert s'. change (no_panic_at (ReportInvocation machineID invocationID token generation accepted now) s).
  unfold ReportInvocation. apply no_panic_then; [no_panics|]. intros [] s1 [_ ->]%reject_if_ok.
  apply no_panic_then; [no_panics|]. intros b s1 [_ ->]%query_ok.
  apply no_panic_then; [no_panics|]. intros [] s1 [_ ->]%reject_if_ok.
  apply no_panic_transact, no_panic_then; [no_panics|]. intros iv s1 [Hiv ->]%query_or_ok.
  apply no_panic_then; [no_panics|]. intros [] s1 [Hl ->]%reject_if_ok. apply negb_false_iff in Hl.
  destruct accepted; [intros s'; apply no_panic_update|].
  destruct (_ <=? _); [intros s'; apply no_panic_update|]. intros s' Hp.
  destruct (backoff_run (iv_attempts iv) s (Hatt iv Hiv Hl)) as (b' & E & _).
  erewrite bind_run in Hp by exact E. by apply no_panic_update in Hp.
Qed.

(** ** Coalescing *)

(** Two requests for the same endpoint, machine and ownership generation. *)
Definition same_fence (iv iv' : InvocationRow) : Prop :=
  iv_target iv = iv_target iv' /\ iv_machine iv = iv_machine iv' /\ iv_generation iv = iv_generation iv'.

Definition one_fence (d : Db) : Prop :=
  forall id id' iv iv', db_invocations d !! id = Some iv -> db_invocations d !! id' = Some iv' ->
    isPendingInvocation iv = true -> isPendingInvocation iv' = true -> same_fence iv iv' -> id = id'.

(** The row stays for the same endpoint and is not reopened. *)
Definition not_requeued (iv iv' : InvocationRow) : Prop :=
  same_fence iv' iv /\ (isPendingInvocation iv' = true -> isPendingInvocation iv = true).

Lemma fence_set d id iv iv' :
  one_fence d -> db_invocations d !! id = Some iv -> not_requeued iv iv' ->
  one_fence (set_invocations (<[id:=iv']> (db_invocations d)) d).
Proof.
  intros HI Hid [(H1 & H2 & H3) Hp] i j x y Hi Hj. cbn in Hi, Hj. unfold same_fence.
  apply lookup_insert_Some in Hi as [[<- <-]|[Hni Hi]], Hj as [[<- <-]|[Hnj Hj]]; [done|..];
    intros Hx Hy Hs; eapply HI; eauto; unfold same_fence; intuition congruence.
Qed.

Lemma fence_update id cond f :
  (forall iv, not_requeued iv (f iv)) -> preserves one_fence (sql_update t_invocations id cond f).
Proof.
  intros Hf s n s' [(_ & -> & _)|(_ & iv & Hid & _ & _ & _ & ->)]%sql_update_ok HI; [done|].
  by eapply fence_set.
Qed.

Lemma fence_delete cond : preserves one_fence (sql_delete_where t_invocations cond).
Proof.
  intros s u s' [[-> _]|(_ & _ & ->)]%sql_delete_where_ok HI; [done|].
  intros i j x y Hi Hj. cbn in Hi, Hj.
  apply map_lookup_filter_Some in Hi as [Hi _], Hj as [Hj _]. by apply HI.
Qed.

Lemma fence_insert id iv u s s' :
  sql_insert t_invocations id iv s = (inr u, s') ->
  (isPendingInvocation iv = true -> forall k x, db_invocations (st_db s) !! k = Some x ->
    isPendingInvocation x = true -> same_fence iv x -> False) ->
  one_fence (st_db s) -> one_fence (st_db s').
Proof.
  intros (_ & Hn & _ & _ & ->)%sql_insert_ok Hno HI i j x y Hi Hj Hx Hy Hs. cbn in Hi, Hj.
  apply lookup_insert_Some in Hi as [[<- <-]|[Hni Hi]], Hj as [[<- <-]|[Hnj Hj]]; [done|..].
  - by destruct (Hno Hx j y).
  - destruct (Hno Hy i x); [done..|]. unfold same_fence in *. intuition congruence.
  - by eapply HI.
Qed.

#[export] Hint Resolve fence_delete : preserve.
#[export] Hint Extern 1 (preserves one_fence (sql_update t_invocations _ _ _)) =>
  apply fence_update; intros ?; split; [done|cbn; (done || discriminate)] : preserve.

Section Coalesce.
Context `{Env}.

Lemma queue_fence input requestHash machine generation status terminal action a s s' :
  queueInvocation input requestHash machine generation status terminal action s = (inr a, s') ->
  (status = InvocationPending ->
    oldestFence (st_db s) (in_TargetEndpoint input) machine generation (in_Now input) = None) ->
  one_fence (st_db s) -> one_fence (st_db s').
Proof.
  intros Hq Hno HI. unfold queueInvocation in Hq. tx_inv Hq. step_back Hm1. step_back Hm0.
  eapply fence_insert; [exact Hm| |done]. intros Hp k x Hk Hx (Ht & Hmach & Hg). cbn in Ht, Hmach, Hg.
  unfold isPendingInvocation in Hp. cbn in Hp. apply bool_decide_eq_true in Hp.
  specialize (Hno Hp). unfold oldestFence in Hno. apply head_None, fmap_nil_inv in Hno.
  assert ((k, x) ∈ []) as Hin; [|by apply elem_of_nil in Hin]. rewrite <-Hno.
  apply elem_of_sortBy, list_elem_of_filter. split; [|by apply elem_of_map_to_list].
  simpl. unfold openFence. rewrite Hx, !bool_decide_true by done. simpl. lia.
Qed.

Lemma request_fence input requestHash : keeps one_fence (requestInvocationWithSchema input requestHash).
Proof.
  unfold requestInvocationWithSchema. apply keeps_transact. intros s r s' Hr HI. tx_inv Hr.
  match type of Hr with match ?o with _ => _ end ?x = _ => assert (one_fence (st_db x)) as HI1;
    [|destruct o as [[hash id]|]] end.
  { step_back Hm1. step_back Hm0. by step_back Hm. }
  - by step_back Hr.
  - tx_inv Hr. assert (one_fence (st_db s4)) as HI4.
    { step_back Hm4. by step_back Hm2. }
    destruct (_ <? _); [tx_inv Hr; by eapply queue_fence|].
    tx_inv Hr. destruct (oldestFence _ _ _ _ _) as [id|] eqn:Hopen; [by step_back Hr|].
    tx_inv Hr. by eapply queue_fence.
Qed.
#[local] Hint Resolve request_fence : preserve.

(** A failed start puts its own pending request back in the queue. *)
Lemma report_fence machineID invocationID token generation accepted now :
  keeps one_fence (ReportInvocation machineID invocationID token generation accepted now).
Proof.
  unfold ReportInvocation. keep. intros s r s' Hr HI. tx_inv Hr.
  destruct accepted; [by step_back Hr|]. destruct (_ <=? _); [by step_back Hr|]. tx_inv Hr.
  assert (s0 = s) as -> by (unfold invocationBackoff in Hm1; destruct (_ <? _); by tx_inv Hm1).
  unfold updateInvocation in Hr. tx_inv Hr. step_back Hr.
  apply sql_update_ok in Hm2 as [(_ & -> & _)|(_ & iv & Hid & _ & _ & _ & ->)]; [done|].
  cbn in Hid. rewrite Hm in Hid. injection Hid as <-. eapply fence_set; [done..|]. split; [done|].
  intros _. unfold holdsLease in Hm0. by bool_hyps.
Qed.
#[local] Hint Resolve report_fence : preserve.

#[export] Instance one_fence_invariant : RelayInvariant one_fence.
Proof. split; [split; [intros p d HI; exact HI|intros op; keep_op]|]. by intros ? ? ? ?. Qed.

(** Start requests are coalesced: in every reachable state an endpoint has
    at most one pending start request per machine and ownership generation. *)
Theorem one_pending_start id id' iv iv' s :
  reachable s -> db_invocations (st_db s) !! id = Some iv -> db_invocations (st_db s) !! id' = Some iv' ->
  iv_status iv = InvocationPending -> iv_status iv' = InvocationPending ->
  iv_target iv = iv_target iv' -> iv_machine iv = iv_machine iv' ->
  iv_generation iv = iv_generation iv' -> id = id'.
Proof.
  intros Hs Hi Hj Hp Hp' H1 H2 H3. apply (reachable_invariant one_fence s Hs id id' iv iv'); try done.
  - unfold isPendingInvocation. by apply bool_decide_eq_true.
  - unfold isPendingInvocation. by apply bool_decide_eq_true.
Qed.
End Coalesce.
