(* ===== verification/Gateway.v ===== *)
(** * What a request can do

    Every request ends as a sequence of store operations that the
    authenticated machine may perform, each for an endpoint it owns; a request
    that is not authenticated leaves the tables as they were; and no request
    takes the store out of the states the relay can be in. *)

From S2P Require Import Prelude Notifier GoTime RateLimit Quota Text Sha256 Tables Tx Sessions Pending.
From S2P Require Import Invocations Rooms Claims Roles Directory Messages Deliveries QuotaInv Relay.
From S2P Require Import QuotaOps Rights Access Atomic Auth Authn Http.
Open Scope Z_scope.

(** ** Authorised operations *)

(** What machine [m] may ask of the store: operations in its own name, for
    endpoints its enrollment gives it, and public reads. *)
Definition authorized (a : Authenticator) (m : string) (op : Op) : Prop :=
  let owns e := AllowsEndpoint a m e = true in
  match op with
  | OpAssertEndpointOwnership m' e _ => m' = m /\ owns e
  | OpAdvertiseEndpoints m' es _ _ => m' = m /\ Forall owns es
  | OpDoctorAttachments m' _ => m' = m
  | OpRequestInvocation input => in_SenderMachineID input = m /\ owns (in_FromEndpoint input)
  | OpLeaseInvocations m' _ _ _ _ => m' = m
  | OpReportInvocation m' _ _ _ _ _ => m' = m
  | OpRejectInvocation m' _ _ _ _ => m' = m
  | OpCreateConversationIdempotent input => cc_MachineID input = m /\ owns (cc_CreatorEndpoint input)
  | OpApplyControl input => ci_ActorMachineID input = m /\ owns (ci_ActorEndpoint input)
  | OpControlAudit _ m' e _ => m' = m /\ owns e
  | OpSetConversationDisplayName input => sd_ActorMachineID input = m /\ owns (sd_ActorEndpoint input)
  | OpReserveTelegramClaim input => ti_MachineID input = m /\ owns (ti_Endpoint input)
  | OpCompleteTelegramClaim _ m' _ => m' = m /\ owns TelegramGatewayEndpoint
  | OpPendingTelegramClaims m' _ _ _ => m' = m /\ owns TelegramGatewayEndpoint
  | OpUnclaimedNamedConversations m' _ _ => m' = m /\ owns TelegramGatewayEndpoint
  | OpSessionTopic m' e _ => m' = m /\ owns e
  | OpBindRoleToSession m' _ e _ _ => m' = m /\ owns e
  | OpRegisterRoleProfile input => rr_MachineID input = m
  | OpListAddressableRoles _ _ _ | OpResolveAddressableRole _ _ | OpRecipientMachines _ _ => True
  | OpConversationsForMachine m' _ => m' = m
  | OpAuthorizeSender _ m' e _ => m' = m /\ owns e
  | OpAppendMessage input => ai_SenderMachineID input = m /\ owns (ai_FromEndpoint input)
  | OpAppendTelegramInbound input => tg_SenderMachineID input = m /\ owns TelegramGatewayEndpoint
  | OpSendDirectMessage input => dm_SenderMachineID input = m
  | OpLeaseDeliveries m' _ e _ _ _ _ => m' = m /\ owns e
  | OpAckDelivery m' e _ _ _ _ => m' = m /\ owns e
  | _ => False
  end.

Section Confined.
Context `{Env}.

Definition acts (P : Op -> Prop) (s s' : St) : Prop := exists op r, P op /\ run_op op s = (r, s').

Definition confined (P : Op -> Prop) (h : H) : Prop := forall s r s', h s = (r, s') -> rtc (acts P) s s'.

Context (P : Op -> Prop).

Lemma confined_json status payload : confined P (writeJSON status payload).
Proof. intros s r s' [= _ <-]. apply rtc_refl. Qed.

Lemma confined_store_error e : confined P (writeStoreError e).
Proof. intros s r s'. destruct e; intros [= _ <-]; apply rtc_refl. Qed.

Lemma confined_wakes wakes h : confined P h -> confined P (withWakes wakes h).
Proof.
  intros Hh s r s'. unfold withWakes. destruct (h s) as [r1 s1] eqn:E. intros [= _ <-]. by eapply Hh.
Qed.

(** The operation [op] leaves the state that the method [m] leaves. *)
Definition runs {A} (op : Op) (m : M A) : Prop := forall s, (run_op op s).2 = (m s).2.

Lemma runs_void {A} op (m : M A) : run_op op = void m -> runs op m.
Proof.
  intros Hop s. rewrite Hop. unfold void, mbind, M_bind. by destruct (m s) as [[e|a] s1].
Qed.

Lemma runs_acts {A} op (m : M A) r s s' : runs op m -> P op -> m s = (r, s') -> acts P s s'.
Proof.
  intros Hop HP Hm. exists op, (run_op op s).1. split; [done|].
  specialize (Hop s). rewrite Hm in Hop. simpl in Hop. rewrite <-Hop. by destruct (run_op op s).
Qed.

Lemma confined_call {A} (m : M A) k op :
  runs op m -> P op -> (forall a, confined P (k a)) -> confined P (call m k).
Proof.
  intros Hop HP Hk s r s'. unfold call. destruct (m s) as [[e|a] s1] eqn:E;
    apply (runs_acts _ _ _ _ _ Hop HP) in E.
  - intros Hr. eapply rtc_l; [exact E|]. destruct e; first
      [by apply (confined_json 0 NoPayload) in Hr | by apply (confined_store_error _) in Hr].
  - intros Hr. eapply rtc_l; [exact E|]. by eapply Hk.
Qed.
End Confined.

Create HintDb confine.
#[export] Hint Resolve confined_json confined_store_error : confine.

(** The operation a store method is run as. *)
Ltac op_of m :=
  lazymatch m with
  | AssertEndpointOwnership ?m ?e ?now => constr:(OpAssertEndpointOwnership m e now)
  | AdvertiseEndpoints ?m ?es ?now ?ttl => constr:(OpAdvertiseEndpoints m es now ttl)
  | RequestInvocation ?i => constr:(OpRequestInvocation i)
  | LeaseInvocations ?m ?c ?now ?ttl ?l => constr:(OpLeaseInvocations m c now ttl l)
  | ReportInvocation ?m ?i ?t ?g ?a ?now => constr:(OpReportInvocation m i t g a now)
  | RejectInvocation ?m ?i ?t ?g ?now => constr:(OpRejectInvocation m i t g now)
  | CreateConversationIdempotent ?i => constr:(OpCreateConversationIdempotent i)
  | ApplyControl ?i => constr:(OpApplyControl i)
  | ControlAudit ?c ?m ?e ?now => constr:(OpControlAudit c m e now)
  | SetConversationDisplayName ?i => constr:(OpSetConversationDisplayName i)
  | ReserveTelegramClaim ?i => constr:(OpReserveTelegramClaim i)
  | CompleteTelegramClaim ?c ?m ?now => constr:(OpCompleteTelegramClaim c m now)
  | PendingTelegramClaims ?m ?now ?l ?a => constr:(OpPendingTelegramClaims m now l a)
  | UnclaimedNamedConversations ?m ?now ?l => constr:(OpUnclaimedNamedConversations m now l)
  | SessionTopic ?m ?e ?now => constr:(OpSessionTopic m e now)
  | BindRoleToSession ?m ?r ?e ?now ?ttl => constr:(OpBindRoleToSession m r e now ttl)
  | RegisterRoleProfile ?i => constr:(OpRegisterRoleProfile i)
  | ListAddressableRoles ?c ?l ?now => constr:(OpListAddressableRoles c l now)
  | ResolveAddressableRole ?n ?now => constr:(OpResolveAddressableRole n now)
  | RecipientMachines ?i ?now => constr:(OpRecipientMachines i now)
  | ConversationsForMachine ?m ?now => constr:(OpConversationsForMachine m now)
  | AuthorizeSender ?c ?m ?e ?now => constr:(OpAuthorizeSender c m e now)
  | AppendMessage ?i => constr:(OpAppendMessage i)
  | AppendTelegramInbound ?i => constr:(OpAppendTelegramInbound i)
  | SendDirectMessage ?i => constr:(OpSendDirectMessage i)
  | LeaseDeliveries ?m ?c ?e ?v ?now ?ttl ?l => constr:(OpLeaseDeliveries m c e v now ttl l)
  | AckDelivery ?m ?e ?d ?t ?g ?now => constr:(OpAckDelivery m e d t g now)
  end.

(** [confine] walks through a handler; each store call must be authorised by the
    checks passed before it. *)
Ltac authorized_tac := bool_hyps; cbn; solve [done | split; [done|eassumption] | split; [done|by apply forallb_Forall]].
Ltac confine_step :=
  lazymatch goal with
  | |- confined _ (writeError _ _) => apply confined_json
  | |- confined _ (writeJSON _ _) => apply confined_json
  | |- confined _ (withWakes _ _) => apply confined_wakes
  | |- confined _ (call ?m _) =>
      let op := op_of m in
      apply (confined_call _ m _ op); [first [by apply runs_void | intros ?; reflexivity]|authorized_tac|intros ?]
  | |- confined _ (match ?x with _ => _ end) => destruct x eqn:?
  | |- confined _ (let _ := _ in _) => cbv zeta
  | |- confined _ (?f _) => cbv beta
  end.
Ltac confine := repeat (first [solve [auto with confine nocore] | confine_step]).

Section Handlers.
Context `{Env, AuthEnv, Json} (h : handler) (machineID : string).

Abbreviation safe := (confined (authorized (h_auth h) machineID)).

Lemma publishMessage_safe message duplicate now : safe (publishMessage message duplicate now).
Proof. unfold publishMessage. confine. Qed.
Hint Resolve publishMessage_safe : confine.

Lemma registerRole_safe body now key : safe (handler_registerRole body machineID now key).
Proof. unfold handler_registerRole, keyRequired. confine. Qed.

Lemma listRoles_safe body now : safe (handler_listRoles body now).
Proof. unfold handler_listRoles. confine. Qed.

Lemma resolveRole_safe body now : safe (handler_resolveRole body now).
Proof. unfold handler_resolveRole. confine. Qed.

Lemma sendDirectMessage_safe body now key : safe (handler_sendDirectMessage body machineID now key).
Proof. unfold handler_sendDirectMessage, keyRequired. confine. Qed.

Lemma bindRole_safe body now : safe (handler_bindRole h body machineID now).
Proof. unfold handler_bindRole, denied, allowed. confine. Qed.

Lemma applyControl_safe body conversationID now key :
  safe (handler_applyControl h body machineID conversationID now key).
Proof. unfold handler_applyControl, keyRequired, denied, allowed. confine. Qed.

Lemma controlAudit_safe body conversationID now : safe (handler_controlAudit h body machineID conversationID now).
Proof. unfold handler_controlAudit, denied, allowed. confine. Qed.

Lemma validateSender_safe body conversationID now : safe (handler_validateSender h body machineID conversationID now).
Proof. unfold handler_validateSender, denied, allowed. confine. Qed.

Lemma setConversationDisplayName_safe body conversationID now key :
  safe (handler_setConversationDisplayName h body machineID conversationID now key).
Proof. unfold handler_setConversationDisplayName, keyRequired, denied, allowed. confine. Qed.

Lemma reserveTelegramClaim_safe body conversationID now key :
  safe (handler_reserveTelegramClaim h body machineID conversationID now key).
Proof. unfold handler_reserveTelegramClaim, keyRequired, denied, allowed. confine. Qed.

Lemma completeTelegramClaim_safe body conversationID now :
  safe (handler_completeTelegramClaim h body machineID conversationID now).
Proof. unfold handler_completeTelegramClaim, denied, allowed. confine. Qed.

Lemma pendingTelegramClaims_safe body now : safe (handler_pendingTelegramClaims h body machineID now).
Proof. unfold handler_pendingTelegramClaims, denied, allowed. confine. Qed.

Lemma unclaimedTelegramTopics_safe now : safe (handler_unclaimedTelegramTopics h machineID now).
Proof. unfold handler_unclaimedTelegramTopics, denied, allowed. confine. Qed.

Lemma sessionTopic_safe body now : safe (handler_sessionTopic h body machineID now).
Proof. unfold handler_sessionTopic, denied, allowed. confine. Qed.

Lemma appendTelegramInbound_safe body conversationID now key :
  safe (handler_appendTelegramInbound h body machineID conversationID now key).
Proof. unfold handler_appendTelegramInbound, keyRequired, denied, allowed. confine. Qed.

Lemma listConversations_safe now : safe (handler_listConversations machineID now).
Proof. unfold handler_listConversations. confine. Qed.

Lemma advertiseEndpoints_safe body now : safe (handler_advertiseEndpoints h body machineID now).
Proof. unfold handler_advertiseEndpoints, denied, allowed. confine. Qed.

Lemma parseMembers_safe members refused : parseMembers h members = inl refused -> safe refused.
Proof.
  revert refused. induction members as [|m members IH]; intros refused; simpl; [done|].
  repeat case_match; intros [= <-]; unfold denied; confine. by apply IH.
Qed.

Lemma createConversation_safe body now key : safe (handler_createConversation h body machineID now key).
Proof.
  unfold handler_createConversation, keyRequired, denied, allowed. confine. by eapply parseMembers_safe.
Qed.

Lemma appendMessage_safe body principalID conversationID now key :
  safe (handler_appendMessage h body machineID principalID conversationID now key).
Proof. unfold handler_appendMessage, keyRequired, denied, allowed. confine. Qed.

Lemma requestInvocation_safe body conversationID now key :
  safe (handler_requestInvocation h body machineID conversationID now key).
Proof. unfold handler_requestInvocation, keyRequired, denied, allowed. confine. Qed.

Lemma rejectOutOfScope_safe leased now kept : safe (rejectOutOfScope h leased machineID now kept).
Proof.
  revert kept. induction leased as [|i leased IH]; intros kept; simpl; [confine|].
  destruct (allowed h machineID (i_TargetEndpoint i)); [apply IH|]. confine.
Qed.
Hint Resolve rejectOutOfScope_safe : confine.

Lemma leaseInvocations_safe body now : safe (handler_leaseInvocations h body machineID now).
Proof. unfold handler_leaseInvocations. confine. Qed.

Lemma reportInvocation_safe body invocationID now : safe (handler_reportInvocation body machineID invocationID now).
Proof. unfold handler_reportInvocation. confine. Qed.

Lemma leaseDeliveries_safe body now : safe (handler_leaseDeliveries h body machineID now).
Proof. unfold handler_leaseDeliveries, denied, allowed. confine. Qed.

Lemma ackDelivery_safe body deliveryID now : safe (handler_ackDelivery h body machineID deliveryID now).
Proof. unfold handler_ackDelivery, denied, allowed. confine. Qed.

Lemma fleetDesired_safe : safe (handler_fleetDesired h).
Proof. unfold handler_fleetDesired, fleetRefused, routeNotFound. confine. Qed.

Lemma fleetRelease_safe digest : safe (handler_fleetRelease h digest).
Proof. unfold handler_fleetRelease, fleetRefused, routeNotFound. confine. Qed.

Lemma fleetStatus_safe body key : safe (handler_fleetStatus h body machineID key).
Proof. unfold handler_fleetStatus, fleetRefused, routeNotFound. confine. Qed.

Lemma withID_safe id k rest : (forall i, safe (k i)) -> safe rest -> safe (withID id k rest).
Proof. intros Hk Hr. unfold withID, routeNotFound. destruct id as [i|]; [|done]. destruct (_ || _); [confine|done]. Qed.

Lemma route_safe r path body session now :
  ss_MachineID session = machineID -> safe (route h r path body session now).
Proof.
  intros Hm. unfold route. cbv zeta. rewrite !Hm.
  repeat first [ apply withID_safe; [intros ?|]
    | match goal with |- confined _ (if ?b then _ else _) => destruct b end ].
  all: first [ apply registerRole_safe | apply listRoles_safe | apply resolveRole_safe
    | apply sendDirectMessage_safe | apply bindRole_safe | apply applyControl_safe | apply controlAudit_safe
    | apply validateSender_safe | apply setConversationDisplayName_safe | apply reserveTelegramClaim_safe
    | apply completeTelegramClaim_safe | apply pendingTelegramClaims_safe | apply unclaimedTelegramTopics_safe
    | apply sessionTopic_safe | apply appendTelegramInbound_safe | apply listConversations_safe
    | apply advertiseEndpoints_safe | apply createConversation_safe | apply appendMessage_safe
    | apply requestInvocation_safe | apply leaseInvocations_safe | apply reportInvocation_safe
    | apply leaseDeliveries_safe | apply ackDelivery_safe | apply fleetDesired_safe | apply fleetRelease_safe | apply fleetStatus_safe
    | apply confined_json | unfold handler_notifications; intros s0 r0 s0' [= _ <-]; apply rtc_refl ].
Qed.
End Handlers.

(** ** Requests *)

Section Requests.
Context `{Env, AuthEnv, Json}.

Lemma acts_steps P s s' : rtc (acts P) s s' -> rtc step s s'.
Proof. apply rtc_subrel. intros s1 s2 (op & r & _ & Hr). by eapply step_op. Qed.

Lemma reachable_steps s s' : reachable s -> rtc step s s' -> reachable s'.
Proof. unfold reachable. intros ? ?. by etrans. Qed.

Lemma runs_attempt {A B} op (m : M A) (f : Err + A -> B) :
  runs op m -> runs op (r ← attempt m; mret (f r)).
Proof. intros Hop s. rewrite (Hop s). unfold mbind, M_bind, attempt. by destruct (m s). Qed.

Lemma doctor_safe h r path body clock :
  confined (fun _ => False) (handler_doctor h r path body clock) \/
  exists session, AuthenticateReadOnlyDoctor (Some (h_auth h)) (Some (hq_Request r)) body (ck_auth clock) = inr session /\
    confined (authorized (h_auth h) (ss_MachineID session)) (handler_doctor h r path body clock).
Proof.
  unfold handler_doctor. destruct (negb _); [left; confine|].
  destruct (AuthenticateReadOnlyDoctor _ _ _ _) as [e|session]; [left; confine|]. right. exists session.
  split; [done|]. eapply (confined_call _ _ _ (OpDoctorAttachments _ _)); [|done|intros snapshot].
  { apply runs_attempt, runs_void. done. }
  unfold doctorAttached. set (endpoint := Header_Get _ _).
  destruct (bool_decide (endpoint = "")).
  { intros s r0 s' [= _ <-]. apply rtc_refl. }
  destruct (ValidEndpoint endpoint && _) eqn:Ha.
  - apply andb_true_iff in Ha as [_ Ha].
    eapply (confined_call _ _ _ (OpAssertEndpointOwnership _ _ _)); [|by cbn|intros ?; confine].
    by apply runs_attempt.
  - intros s r0 s' [= _ <-]. apply rtc_refl.
Qed.

Section Authenticated.
Context (a : Authenticator) (Hstore : au_store a = ConsumeRequestNonce).

Lemma consumeNonce_step m r now s res s' :
  consumeNonce a m r now s = (res, s') -> step s s' /\ (forall e, res = inl e -> st_db s' = st_db s).
Proof using Hstore.
  unfold consumeNonce. rewrite Hstore. set (expires := Time.Add _ _).
  destruct (ConsumeRequestNonce m (sr_Nonce r) now expires s) as [r1 s1] eqn:Hc.
  intros Hr. assert (s1 = s') as -> by (repeat case_match; congruence). split.
  - by eapply (step_op (OpConsumeRequestNonce m (sr_Nonce r) now expires)).
  - intros e ->. destruct r1 as [e1|u]; [|congruence]. clear Hr. unfold ConsumeRequestNonce in Hc.
    unfold mbind at 1, M_bind, reject_if in Hc.
    destruct (negb _ || _ || _) in Hc; [by injection Hc as _ <-|]. by apply transact_error in Hc.
Qed.

(** Authentication is at most one store operation, and a refusal changes no table. *)
Lemma authenticate_step request body now s res s' :
  AuthenticateHTTPSession (Some a) (Some request) body now s = (res, s') ->
  rtc step s s' /\ (forall e, res = inl e -> st_db s' = st_db s).
Proof using Hstore.
  assert (forall A (v : Err + A) s0 res0 s0', of_result v s0 = (res0, s0') -> s0' = s0) as Hpure.
  { intros A [|] ? ? ?; unfold of_result, throw, mret, M_ret; congruence. }
  unfold AuthenticateHTTPSession. destruct (negb _); [by intros ->%Hpure|].
  unfold mbind, M_bind. destruct (of_result (signedRequest _ _) s) as [[e|signed] s0] eqn:E;
    apply Hpure in E as ->; [by intros [= _ <-]|].
  assert (forall m1 k, (let '(r, s1) := consumeNonce a m1 signed now s in
      match r with inl e => (inl e, s1) | inr _ => (inr k, s1) end) = (res, s') ->
      rtc step s s' /\ (forall e, res = inl e -> st_db s' = st_db s)) as Hc.
  { intros m1 k. destruct (consumeNonce a m1 signed now s) as [[e|u] s1] eqn:E;
      apply consumeNonce_step in E as [Hs He]; intros [= <- <-]; (split; [by apply rtc_once|naive_solver]). }
  destruct (au_transition a) as [authorize|].
  - destruct (of_result (verifySignature _ _ _) s) as [[e|m] s0] eqn:E;
      apply Hpure in E as ->; [by intros [= _ <-]|].
    destruct (of_result (authorizeLegacy _ _) s) as [[e|t] s0] eqn:E;
      apply Hpure in E as ->; [by intros [= _ <-]|]. apply Hc.
  - unfold Verify. destruct (verifySignature a signed now) as [e|m]; [by intros [= _ <-]|]. apply Hc.
Qed.
End Authenticated.

(** The relay admitted the request as [machineID]'s, and [s1] is the state after
    that: a session was opened, or the read-only doctor check passed. *)
Inductive admitted (h : handler) (r : HttpRequest) (clock : Clock) (s : St) (machineID : string) : St -> Prop :=
  | admitted_session body session s1 :
      readBoundedBody r = Some body ->
      AuthenticateHTTPSession (Some (h_auth h)) (Some (hq_Request r)) body (ck_auth clock) s = (inr session, s1) ->
      ss_MachineID session = machineID -> admitted h r clock s machineID s1
  | admitted_doctor body session :
      readBoundedBody r = Some body ->
      AuthenticateReadOnlyDoctor (Some (h_auth h)) (Some (hq_Request r)) body (ck_auth clock) = inr session ->
      ss_MachineID session = machineID -> admitted h r clock s machineID s.

Lemma refused_same h s r s' : confined (fun _ => False) h -> h s = (r, s') -> s' = s.
Proof.
  intros Hh Hr. apply Hh in Hr. destruct Hr as [|? ? ? (? & ? & [] & _)]. done.
Qed.

(** C3: A request does only what its machine may do.  Whatever the bytes of a
    request, either it leaves every table as it was, or the relay admitted it for
    one machine and all it did is a sequence of store operations in that
    machine's name, for endpoints enrolled for it. *)
Theorem http_confined machines transition h r clock s resp s' :
  newAuthenticator (Some ConsumeRequestNonce) machines transition = inr (h_auth h) ->
  serveHTTP h r clock s = (resp, s') ->
  (reachable s -> reachable s') /\
  (st_db s' = st_db s \/ exists machineID s1, admitted h r clock s machineID s1 /\
    rtc (acts (authorized (h_auth h) machineID)) s1 s').
Proof.
  intros (Hstore & _)%newAuthenticator_ok. injection Hstore as Hstore. symmetry in Hstore.
  assert (forall k, confined (fun _ => False) k -> k s = (resp, s') ->
    (reachable s -> reachable s') /\ (st_db s' = st_db s \/ exists machineID s1, admitted h r clock s machineID s1 /\
    rtc (acts (authorized (h_auth h) machineID)) s1 s')) as Hrefused.
  { intros k Hk Hr. apply (refused_same _ _ _ _ Hk) in Hr as ->. auto. }
  unfold serveHTTP. destruct (rq_Path (hq_Request r)) as [path|]; [|by apply Hrefused, confined_json].
  destruct (negb _); [by apply Hrefused, confined_json|].
  destruct (readBoundedBody r) as [body|] eqn:Hbody; [|by apply Hrefused, confined_json].
  destruct (_ && _).
  { destruct (doctor_safe h r path body clock) as [Hd|(session & Hs & Hd)]; [by apply Hrefused|].
    intros Hr%Hd. split; [intros Hreach; by eapply reachable_steps, acts_steps|].
    right. exists (ss_MachineID session), s. split; [by eapply admitted_doctor|done]. }
  destruct (_ && _).
  { apply Hrefused. unfold handler_doctorNotifications. confine. }
  destruct (AuthenticateHTTPSession _ _ _ _ _) as [[e|session] s1] eqn:Ha;
    destruct (authenticate_step _ Hstore _ _ _ _ _ _ Ha) as [Hsteps Hsame].
  - specialize (Hsame e eq_refl). intros Hr. assert (s' = s1) as -> by (destruct e; by injection Hr as _ <-).
    split; [intros Hreach; by eapply reachable_steps|by left].
  - intros Hr%(route_safe _ (ss_MachineID session)); [|done].
    split; [intros Hreach; eapply reachable_steps; [by eapply reachable_steps|by eapply acts_steps]|].
    right. exists (ss_MachineID session), s1. split; [by eapply admitted_session|done].
Qed.
End Requests.
