(* ===== verification/Handover.v ===== *)
(** * Handing the relay over: preparing, aborting and retiring its file

    The life of a relay file: the relay runs on it while it is active, and the
    offline commands move it between the phases.  Every such life stays within
    the reachable states, so all invariants hold through an aborted handover;
    preparing fences every lease; a retired file is final; and a prepared file
    is never stuck. *)

From S2P Require Import Prelude GoTime RateLimit Quota Text Sha256 Tables Tx Sessions Pending.
From S2P Require Import Invocations Rooms Claims Roles Directory Messages Deliveries QuotaInv Relay.
From S2P Require Import Auth Source QuotaOps History Atomic Fence.
Open Scope Z_scope.

(** ** Runs of the commands *)

Section Commands.
Context `{Env}.

Lemma inspectNow_ok control m s s' :
  inspectNow control s = (inr m, s') <-> inspectMigrationSource control (st_db s) = inr m /\ s' = s.
Proof.
  unfold inspectNow. erewrite bind_run by reflexivity.
  destruct (inspectMigrationSource control (st_db s)); unfold of_result, throw, mret, M_ret; naive_solver.
Qed.

(** What an accepted inspection says. *)
Lemma inspect_ok control d m :
  inspectMigrationSource control d = inr m ->
  mm_Phase m = db_phase d /\ verifyMigrationSourceSchema d = inr tt /\
  mm_EpochID m = default "" (mg_epoch_id control) /\
  mm_TargetIdentity m = default "" (mg_target_identity control) /\
  (db_phase d = MigrationSourceActive \/ mg_fingerprint control = Some (mm_Fingerprint m)).
Proof.
  unfold inspectMigrationSource. intros Hi. do 3 (destruct (negb _); [done|]).
  destruct (verifyMigrationSourceSchema d) as [|[]]; [done|].
  destruct (mbind _ _) as [[tables fingerprint]|]; [|done].
  destruct (_ && _) eqn:Hf; [done|]. injection Hi as <-. cbn. split_and!; try done.
  apply andb_false_iff in Hf. rewrite !negb_false_iff, !bool_decide_eq_true in Hf. done.
Qed.

Lemma verified_state d : verifyMigrationSourceSchema d = inr tt -> invalidLogicalState d = false.
Proof.
  unfold verifyMigrationSourceSchema. do 2 (destruct (negb _); [done|]).
  by destruct (invalidLogicalState d).
Qed.

(** The outcomes of a preparation: the same one again, or the fence. *)
Lemma PrepareMigrationSource_ok control epochID targetIdentity expected now m control' s s' :
  PrepareMigrationSource control epochID targetIdentity expected now s = (inr (m, control'), s') ->
  exists current, inspectMigrationSource control (st_db s) = inr current /\
  uuid_Validate epochID = true /\ validMigrationDigest targetIdentity = true /\
  (preparedAlready current epochID targetIdentity expected (ms now) = true /\
   m = current /\ control' = control /\ s' = s \/
   db_phase (st_db s) = MigrationSourceActive /\ mm_Fingerprint current = expected /\
   fenceLeases now s = (inr tt, with_db (fencedDb now (st_db s)) s) /\
   exists prepared, inspectMigrationSource control (fencedDb now (st_db s)) = inr prepared /\
     m = preparedManifest prepared epochID targetIdentity expected (ms now) /\
     control' = preparedControl control epochID targetIdentity expected (mm_Fingerprint prepared) (ms now) now /\
     s' = with_db (set_phase MigrationSourcePrepared (fencedDb now (st_db s))) s).
Proof.
  unfold PrepareMigrationSource, mutateMigrationSource. intros Hp. tx_inv Hp.
  apply inspectNow_ok in Hm0 as [Hi ->]. exists a0. split; [done|]. bool_hyps. split; [done|]. split; [done|].
  destruct (preparedAlready _ _ _ _ _) eqn:Ha; tx_inv Hp; simplify_eq; [by left|right]. bool_hyps.
  destruct (inspect_ok _ _ _ Hi) as (Hphase & _). split; [congruence|]. split; [done|].
  pose proof Hm0 as Hf. apply fenceLeases_ok in Hf as ->. destruct a2. split; [done|].
  apply inspectNow_ok in Hm1 as [Hi2 ->].
  unfold setPhase, put_db in Hm2. apply modify_ok in Hm2 as ->. eexists. split_and!; done.
Qed.

(** The outcomes of a transition of a prepared source. *)
Lemma transition_ok control epochID targetIdentity fingerprint target wall m control' s s' :
  transitionPreparedMigrationSource control epochID targetIdentity fingerprint target wall s =
    (inr (m, control'), s') ->
  target <> MigrationSourcePrepared /\
  exists current, inspectMigrationSource control (st_db s) = inr current /\
  (control' = control /\ s' = s /\ m = current /\ db_phase (st_db s) = target \/
   db_phase (st_db s) = MigrationSourcePrepared /\ bindingIs current epochID targetIdentity = true /\
   mm_Fingerprint current = fingerprint /\ control' = transitionControl control target wall /\
   m = transitionManifest current target /\ s' = with_db (set_phase target (st_db s)) s).
Proof.
  unfold transitionPreparedMigrationSource, mutateMigrationSource. intros Ht. tx_inv Ht. bool_hyps.
  split; [done|]. apply inspectNow_ok in Hm0 as [Hi ->]. exists a0. split; [done|].
  destruct (inspect_ok _ _ _ Hi) as (Hphase & _). rewrite Hphase in Ht.
  case_bool_decide as Hr; tx_inv Ht; [left|].
  { bool_hyps. repeat split; congruence. }
  destruct (_ && _ && _) eqn:Hb; tx_inv Ht; [left|right].
  { bool_hyps. repeat split; congruence. }
  bool_hyps. simplify_eq. unfold setPhase, put_db in Hm0. apply modify_ok in Hm0 as ->. split_and!; done.
Qed.
End Commands.

(** ** The life of a relay file *)

Section Life.
Context `{Env}.

(** The relay itself never fences its own leases. *)
Definition relayOp (op : Op) : Prop := match op with OpFenceSource _ => False | _ => True end.

(** A relay operation, failed or not, or a command that succeeded: a command that
    fails is rolled back. *)
Inductive file_step : MigrationControl * St -> MigrationControl * St -> Prop :=
  | file_op op control s r s' : relayOp op -> run_op op s = (r, s') -> file_step (control, s) (control, s')
  | file_prepare control epochID targetIdentity expected now m control' s s' :
      PrepareMigrationSource control epochID targetIdentity expected now s = (inr (m, control'), s') ->
      file_step (control, s) (control', s')
  | file_abort control epochID targetIdentity fingerprint wall m control' s s' :
      AbortPreparedMigrationSource control epochID targetIdentity fingerprint wall s = (inr (m, control'), s') ->
      file_step (control, s) (control', s')
  | file_retire control epochID targetIdentity fingerprint wall m control' s s' :
      RetirePreparedMigrationSource control epochID targetIdentity fingerprint wall s = (inr (m, control'), s') ->
      file_step (control, s) (control', s').

Lemma fence_run now s s' :
  invalidLogicalState (st_db s) = false -> fenceLeases now s = (inr tt, s') ->
  run_op (OpFenceSource now) s = (inr tt, s').
Proof.
  intros Hv Hf. simpl. unfold FenceSource, transact. erewrite bind_run by reflexivity. rewrite Hv.
  erewrite bind_run by reflexivity. by rewrite Hf.
Qed.

Lemma prepare_steps control epochID targetIdentity expected now m control' s s' :
  PrepareMigrationSource control epochID targetIdentity expected now s = (inr (m, control'), s') ->
  rtc step s s'.
Proof.
  intros (current & Hi & _ & _ & [(_ & _ & _ & ->)|(Ha & _ & Hf & prepared & _ & _ & _ & ->)])%PrepareMigrationSource_ok;
    [apply rtc_refl|].
  apply inspect_ok in Hi as (_ & Hv%verified_state & _).
  apply rtc_l with (with_db (fencedDb now (st_db s)) s).
  - apply (step_op (OpFenceSource now) s (inr tt)). by apply fence_run.
  - apply rtc_once, (step_phase MigrationSourcePrepared (with_db (fencedDb now (st_db s)) s)).
Qed.

Lemma transition_steps control epochID targetIdentity fingerprint target wall m control' s s' :
  transitionPreparedMigrationSource control epochID targetIdentity fingerprint target wall s =
    (inr (m, control'), s') -> rtc step s s'.
Proof.
  intros (_ & current & _ & [(_ & -> & _)|(_ & _ & _ & _ & _ & ->)])%transition_ok; [apply rtc_refl|].
  apply rtc_once, (step_phase target s).
Qed.

Lemma file_steps f f' : rtc file_step f f' -> rtc step f.2 f'.2.
Proof.
  induction 1 as [|f1 f2 f3 Hs _ IH]; [apply rtc_refl|]. etransitivity; [|exact IH].
  destruct Hs as [op control s r s' _ Hr|control e t x now m control' s s' Hp
    |control e t x wall m control' s s' Ht|control e t x wall m control' s s' Ht].
  - apply rtc_once. by eapply step_op.
  - by eapply prepare_steps.
  - by eapply transition_steps.
  - by eapply transition_steps.
Qed.

(** The invariants survive handovers: whatever the relay and the commands
    prepare, abort and retire did to a file since it was created, in any order,
    its tables are those of a reachable store; preparing turns an active source
    that passed inspection into its fenced copy, and aborting or retiring changes
    the phase and nothing else. *)
Theorem handover_reachable control0 control s :
  rtc file_step (control0, newSt emptyDb) (control, s) ->
  reachable s /\
  (forall epochID targetIdentity expected now m control' s',
    PrepareMigrationSource control epochID targetIdentity expected now s = (inr (m, control'), s') ->
    reachable s' /\ db_phase (st_db s') = MigrationSourcePrepared /\
    (s' = s \/ db_phase (st_db s) = MigrationSourceActive /\ invalidLogicalState (st_db s) = false /\
      st_db s' = set_phase MigrationSourcePrepared (fencedDb now (st_db s)))) /\
  (forall epochID targetIdentity fingerprint target wall m control' s',
    transitionPreparedMigrationSource control epochID targetIdentity fingerprint target wall s =
      (inr (m, control'), s') ->
    reachable s' /\ db_phase (st_db s') = target /\ set_phase target (st_db s) = st_db s').
Proof.
  intros Hs. apply file_steps in Hs. simpl in Hs. split; [exact Hs|].
  split.
  - intros epochID targetIdentity expected now m control' s' Hp.
    split; [unfold reachable; etrans; [exact Hs|by eapply prepare_steps]|].
    apply PrepareMigrationSource_ok in Hp as
      (current & Hi & _ & _ & [(Ha & _ & _ & ->)|(Ha & _ & Hf & prepared & _ & _ & _ & ->)]);
      apply inspect_ok in Hi as (Hphase & Hv%verified_state & _).
    + split; [|by left]. unfold preparedAlready in Ha. bool_hyps. congruence.
    + split; [done|]. right. done.
  - intros epochID targetIdentity fingerprint target wall m control' s' Ht.
    split; [unfold reachable; etrans; [exact Hs|by eapply transition_steps]|].
    apply transition_ok in Ht as (_ & current & _ & [(_ & -> & _ & Hphase)|(_ & _ & _ & _ & _ & ->)]).
    + split; [done|]. rewrite <-Hphase. by destruct (st_db s).
    + done.
Qed.

(** ** Fenced leases *)

(** Preparing fences every lease: what a consumer was granted before the
    handover is refused ever after, also when the handover is aborted and the
    relay runs on. *)
Theorem handover_fences control epochID targetIdentity expected now m control' s s' s2 s3
    id dl machineID endpoint token now' :
  PrepareMigrationSource control epochID targetIdentity expected now s = (inr (m, control'), s') ->
  writable (st_db s) = true -> db_deliveries (st_db s) !! id = Some dl -> rtc step s' s2 ->
  AckDelivery machineID endpoint id token (dl_generation dl) now' s2 <> (inr tt, s3).
Proof.
  intros Hp Hw Hid Hs Ha.
  apply PrepareMigrationSource_ok in Hp as (current & Hi & _ & _ & [(Hal & _ & _ & ->)|(_ & _ & _ & prepared & _ & _ & _ & ->)]).
  { apply inspect_ok in Hi as (Hphase & _). unfold preparedAlready in Hal. bool_hyps.
    unfold writable in Hw. bool_hyps. congruence. }
  pose proof (stable_steps _ _ _ Hs (deliveries_evolve_refl _)) as HE. cbn in HE.
  destruct (HE id (fenceDeliveryRow dl)) as (dl2 & Hid2 & _ & _ & Hge & Htok & _).
  { cbn. by rewrite lookup_fmap, Hid. }
  apply AckDelivery_ok in Ha as (r & s1 & Ht & _).
  apply ackTransaction_ok in Ht as (e & dl3 & _ & Hid3 & _ & Hm & _). simplify_eq.
  unfold leaseMatches in Hm. bool_hyps. cbn in *. destruct (dl_token dl); cbn in *; [lia|].
  destruct (Htok ltac:(lia)); congruence.
Qed.

(** ** Retired for good *)

Lemma retired_step f f' :
  file_step f f' -> db_phase (st_db f.2) = MigrationSourceRetired ->
  f'.1 = f.1 /\ guarded_part (st_db f'.2) = guarded_part (st_db f.2).
Proof.
  destruct 1 as [op control s r s' _ Hrun|control e t x now m control' s s' Hp
    |control e t x wall m control' s s' Ht|control e t x wall m control' s s' Ht]; cbn; intros Hr.
  - split; [done|]. assert (frozen (st_db s) (st_db s)) as Hf by by (split; [unfold writable; rewrite Hr|]).
    by apply (op_frozen _ _ _ _ _ Hrun) in Hf as [_ Hg].
  - apply PrepareMigrationSource_ok in Hp as (current & _ & _ & _ & [(_ & _ & -> & ->)|(? & _)]); [done|congruence].
  - apply transition_ok in Ht as (_ & current & _ & [(-> & -> & _)|(? & _)]); [done|congruence].
  - apply transition_ok in Ht as (_ & current & _ & [(-> & -> & _)|(? & _)]); [done|congruence].
Qed.

Lemma guarded_phase d d' : guarded_part d' = guarded_part d -> db_phase d' = db_phase d.
Proof. intros Hg. by apply (f_equal db_phase) in Hg. Qed.

(** Retirement is irreversible: nothing the relay or the commands do to a
    retired file brings it back or changes any of its guarded tables. *)
Theorem retired_forever f f' :
  rtc file_step f f' -> db_phase (st_db f.2) = MigrationSourceRetired ->
  db_phase (st_db f'.2) = MigrationSourceRetired /\ guarded_part (st_db f'.2) = guarded_part (st_db f.2).
Proof.
  induction 1 as [|f1 f2 f3 Hs _ IH]; [done|]. intros Hr.
  destruct (retired_step _ _ Hs Hr) as [_ Hg]. apply guarded_phase in Hg as Hr2. rewrite Hr in Hr2.
  destruct (IH Hr2) as [? ->]. done.
Qed.
End Life.

(** ** A prepared source is never stuck *)

Section Live.
Context `{Env}.

Lemma digest_valid l : validMigrationDigest (hexEncode (Sha256.Sum256 l)) = true.
Proof.
  destruct (hexEncode_hex (Sha256.Sum256 l) (Sum256_bytes l)) as [Hl Hh].
  unfold validMigrationDigest, goLen, hexText. rewrite Sum256_length in Hl.
  apply andb_true_intro. split; [|exact Hh]. by rewrite Hl.
Qed.

(** The manifest that goes with a control row. *)
Definition manifestOf (control : MigrationControl) (phase : MigrationSourcePhase)
    (tables : list TableEvidence) (fingerprint : string) : MigrationSourceManifest :=
  {| mm_Version := 8; mm_SourceID := mg_source_id control; mm_Phase := phase;
     mm_EpochID := default "" (mg_epoch_id control);
     mm_TargetIdentity := default "" (mg_target_identity control);
     mm_Tables := tables; mm_Fingerprint := fingerprint;
     mm_lastEpochID := default "" (mg_last_epoch_id control);
     mm_lastTargetIdentity := default "" (mg_last_target_identity control);
     mm_lastExpectedFingerprint := default "" (mg_last_expected_fingerprint control);
     mm_lastResultFingerprint := default "" (mg_last_result_fingerprint control);
     mm_lastCutoff := default 0 (mg_last_cutoff control);
     mm_lastTransition := default "" (mg_last_transition control) |}.

(** What is digested: the tables and the source id. *)
Definition evidence (sourceID : string) (d : Db) : option (list TableEvidence * string) :=
  tables ← tablesEvidence migrationTableSpecs d;
  bytes ← writeValues (overallValues sourceID tables);
  Some (tables, hexEncode (Sha256.Sum256 bytes)).

(** The binding and journal of a control row fit the phase. *)
Definition controlFits (control : MigrationControl) (phase : MigrationSourcePhase) (fingerprint : string) : Prop :=
  (if bool_decide (phase = MigrationSourceActive) then activeBinding control
   else durableBinding control && bool_decide (mg_fingerprint control = Some fingerprint)) = true /\
  validTransition (default "" (mg_last_transition control)) = true.

Lemma inspect_iff control d m :
  inspectMigrationSource control d = inr m <->
  uuid_Validate (mg_source_id control) = true /\ verifyMigrationSourceSchema d = inr tt /\
  exists tables fingerprint, evidence (mg_source_id control) d = Some (tables, fingerprint) /\
  controlFits control (db_phase d) fingerprint /\ m = manifestOf control (db_phase d) tables fingerprint.
Proof.
  unfold inspectMigrationSource, controlFits. fold (evidence (mg_source_id control) d).
  destruct (uuid_Validate _); [|naive_solver]. destruct (verifyMigrationSourceSchema d) as [|[]] eqn:Hv.
  { repeat destruct (negb _); naive_solver. }
  destruct (evidence _ d) as [[tables fingerprint]|]; [|repeat destruct (negb _); naive_solver].
  case_bool_decide as Hp; simpl.
  - destruct (activeBinding control), (validTransition _); naive_solver.
  - destruct (durableBinding control), (validTransition _); simpl; try (case_bool_decide as Hf; simpl);
      (split; [intros [=]|intros (_ & _ & t & f & [= <- <-] & [Hc ?] & ->)]); subst; try done.
    + split_and!; [done..|]. exists tables, fingerprint. by rewrite bool_decide_eq_true_2.
    + by apply bool_decide_eq_true in Hc.
Qed.

Lemma evidence_phase sourceID phase d : evidence sourceID (set_phase phase d) = evidence sourceID d.
Proof. by destruct d. Qed.
Lemma verify_phase phase d : verifyMigrationSourceSchema (set_phase phase d) = verifyMigrationSourceSchema d.
Proof. by destruct d. Qed.

Lemma evidence_digest sourceID d tables fingerprint :
  evidence sourceID d = Some (tables, fingerprint) -> validMigrationDigest fingerprint = true.
Proof.
  unfold evidence. intros (t & _ & (bytes & _ & [= _ <-])%bind_Some)%bind_Some. apply digest_valid.
Qed.

(** Another control row of the same source, in another phase. *)
Lemma inspect_rebind control control' phase d m :
  inspectMigrationSource control d = inr m -> mg_source_id control' = mg_source_id control ->
  controlFits control' phase (mm_Fingerprint m) ->
  inspectMigrationSource control' (set_phase phase d) =
    inr (manifestOf control' phase (mm_Tables m) (mm_Fingerprint m)).
Proof.
  intros (Hu & Hv & tables & fingerprint & He & _ & ->)%inspect_iff Hs Hf. apply inspect_iff.
  rewrite verify_phase, Hs, evidence_phase. split_and!; [done..|]. exists tables, fingerprint.
  split_and!; done.
Qed.

(** A preparation leaves a source that inspects as its manifest says. *)
Lemma prepared_inspects control epochID targetIdentity expected now m control' s s' :
  PrepareMigrationSource control epochID targetIdentity expected now s = (inr (m, control'), s') ->
  inspectMigrationSource control' (st_db s') = inr m /\
  preparedAlready m epochID targetIdentity expected (ms now) = true /\
  validMigrationDigest (mm_Fingerprint m) = true.
Proof.
  intros (current & Hi & Hu & Hd & [(Ha & -> & -> & ->)|(Ha & _ & _ & prepared & Hp & -> & -> & ->)])%PrepareMigrationSource_ok.
  { split; [done|]. split; [done|].
    apply inspect_iff in Hi as (_ & _ & tables & fingerprint & He & _ & ->). by eapply evidence_digest. }
  pose proof Hp as (_ & _ & tables & fingerprint & He & _ & ->)%inspect_iff.
  apply evidence_digest in He as Hg. split; [|split; [|done]].
  - eapply (inspect_rebind _ (preparedControl _ _ _ _ _ _ _) MigrationSourcePrepared) in Hp; [exact Hp|done|].
    unfold controlFits, durableBinding; cbn in *. split; [|done].
    rewrite bool_decide_eq_false_2, Hu, Hd, Hg by done. by apply bool_decide_eq_true.
  - unfold preparedAlready, bindingIs, lastIs; cbn. by rewrite !bool_decide_eq_true_2, Z.eqb_refl by done.
Qed.

Lemma mutate_run control mutation current r s s' :
  inspectMigrationSource control (st_db s) = inr current -> mutation current s = (inr r, s') ->
  mutateMigrationSource control mutation s = (inr r, s').
Proof.
  intros Hi Hm. unfold mutateMigrationSource, transact.
  erewrite bind_run by (by apply inspectNow_ok). by rewrite Hm.
Qed.

(** A prepared source moves on to [target], and inspects as the answer says. *)
Lemma transition_run control epochID targetIdentity target wall m s :
  inspectMigrationSource control (st_db s) = inr m -> mm_Phase m = MigrationSourcePrepared ->
  bindingIs m epochID targetIdentity = true -> uuid_Validate epochID = true ->
  validMigrationDigest targetIdentity = true -> target <> MigrationSourcePrepared ->
  let s' := with_db (set_phase target (st_db s)) s in
  transitionPreparedMigrationSource control epochID targetIdentity (mm_Fingerprint m) target wall s =
    (inr (transitionManifest m target, transitionControl control target wall), s') /\
  inspectMigrationSource (transitionControl control target wall) (st_db s') =
    inr (transitionManifest m target).
Proof.
  intros Hi Hp Hb Hu Hd Ht s'.
  pose proof Hi as (_ & _ & tables & fingerprint & He & [Hf _] & ->)%inspect_iff.
  apply evidence_digest in He as Hg. cbn in Hp. split.
  - unfold transitionPreparedMigrationSource. rewrite Hu, Hd; cbn [mm_Fingerprint manifestOf]. rewrite Hg.
    rewrite (bool_decide_eq_false_2 (target = MigrationSourcePrepared)) by done. cbn [negb orb].
    erewrite bind_run by (by apply reject_if_run). eapply mutate_run; [done|]. cbn [mm_Phase manifestOf].
    rewrite Hb, Hp. rewrite !(bool_decide_eq_false_2 (MigrationSourcePrepared = _)) by done. cbn.
    rewrite !bool_decide_eq_true_2 by done. reflexivity.
  - eapply (inspect_rebind _ (transitionControl control target wall) target) in Hi; [|reflexivity|].
    + etrans; [exact Hi|]. f_equal. unfold transitionManifest, manifestOf; cbn.
      by destruct target.
    + rewrite Hp, bool_decide_eq_false_2 in Hf by done.
      unfold controlFits. cbn. by destruct target.
Qed.

(** A prepared source is never stuck: the preparation can be repeated with
    the same answer and no further change (a retry after a lost reply is safe),
    and with the manifest it returned the operator can always abort, after which
    the relay may write again, or retire; both leave a file that inspects as
    the answer says. *)
Theorem prepared_not_stuck control epochID targetIdentity expected now m control' s s' wall :
  PrepareMigrationSource control epochID targetIdentity expected now s = (inr (m, control'), s') ->
  PrepareMigrationSource control' epochID targetIdentity expected now s' = (inr (m, control'), s') /\
  (exists ma ca sa, AbortPreparedMigrationSource control' epochID targetIdentity (mm_Fingerprint m) wall s' =
     (inr (ma, ca), sa) /\ writable (st_db sa) = true /\ inspectMigrationSource ca (st_db sa) = inr ma) /\
  (exists mr cr sr, RetirePreparedMigrationSource control' epochID targetIdentity (mm_Fingerprint m) wall s' =
     (inr (mr, cr), sr) /\ db_phase (st_db sr) = MigrationSourceRetired /\
     inspectMigrationSource cr (st_db sr) = inr mr).
Proof.
  intros Hp. pose proof (prepared_inspects _ _ _ _ _ _ _ _ _ Hp) as (Hi & Ha & Hg).
  assert (uuid_Validate epochID = true /\ validMigrationDigest targetIdentity = true /\
    validMigrationDigest expected = true /\ Time.IsZero now = false) as (Hu & Hd & Hx & Hz).
  { unfold PrepareMigrationSource in Hp. tx_inv Hp. by bool_hyps. }
  pose proof Ha as Hb. unfold preparedAlready in Hb. bool_hyps. split; [|split].
  - unfold PrepareMigrationSource. erewrite bind_run by (apply reject_if_run; by rewrite Hu, Hd, Hx, Hz).
    eapply mutate_run; [exact Hi|]. by rewrite Ha.
  - edestruct (transition_run control' epochID targetIdentity MigrationSourceActive wall) as [Hr Hi2];
      [done..|]. eauto 10.
  - edestruct (transition_run control' epochID targetIdentity MigrationSourceRetired wall) as [Hr Hi2];
      [done..|]. eauto 10.
Qed.
End Live.

(** * What stops a handover

    The inspector refuses states the relay reaches in everyday use. *)

Section Obstacles.
Context `{Env}.

(** An acknowledged delivery that still names its lease. *)
Definition ackedWithToken (id : string) (d : Db) : Prop :=
  exists dl, db_deliveries d !! id = Some dl /\ isPending dl = false /\ isNull (dl_token dl) = false.

Lemma ackedWithToken_evolve id d d' : deliveries_evolve d d' -> ackedWithToken id d -> ackedWithToken id d'.
Proof.
  intros HE (dl & Hid & Hp & Ht). destruct (HE id dl Hid) as (dl' & Hid' & (_ & _ & _ & _ & Hf)).
  rewrite (Hf Hp) in Hid'. by exists dl.
Qed.

Lemma ackedWithToken_invalid id d dl :
  db_deliveries d !! id = Some dl -> isPending dl = false -> isNull (dl_token dl) = false ->
  invalidLogicalState d = true.
Proof.
  intros Hid Hp Ht. apply not_false_iff_true. unfold invalidLogicalState, invalidMail. rewrite !orb_false_iff.
  intros Hv. assert (mexists (fun _ l => badLease l || badToken l) (db_deliveries d) = false) as Hb by tauto.
  rewrite mexists_false in Hb. apply Hb in Hid. unfold badLease in Hid. bool_hyps.
  unfold isPending in Hp. by destruct (dl_acked dl), (dl_token dl).
Qed.

Lemma evolve_release d0 recipient bytes : preserves (deliveries_evolve d0) (releaseQuota recipient bytes).
Proof. preserve. Qed.
Lemma evolve_terminal d0 id now : preserves (deliveries_evolve d0) (recordAckedTerminal id now).
Proof. preserve. Qed.
Lemma evolve_cursor d0 recipient room : preserves (deliveries_evolve d0) (advanceRecipientCursor recipient room).
Proof. preserve. Qed.

Lemma ack_keeps_token machineID endpoint id token generation now s s' :
  AckDelivery machineID endpoint id token generation now s = (inr tt, s') -> ackedWithToken id (st_db s').
Proof.
  intros (r & s1 & (e & dl & _ & Hid & _ & Hm & Hc)%ackTransaction_ok & ->)%AckDelivery_ok.
  assert (isNull (dl_token dl) = false) as Ht.
  { unfold leaseMatches in Hm. bool_hyps. by destruct (dl_token dl). }
  destruct Hc as [(_ & -> & Hp)|(_ & _ & _ & m & s2 & s3 & s4 & _ & _ & -> & Hr & Ha & Hcur)]; [by exists dl|].
  eapply (ackedWithToken_evolve id (st_db (set_row t_deliveries id (ackRow now dl) s))).
  - eapply evolve_cursor; [exact Hcur|]. eapply evolve_terminal; [exact Ha|].
    eapply evolve_release; [exact Hr|]. apply deliveries_evolve_refl.
  - exists (ackRow now dl). cbn. by rewrite lookup_insert_eq.
Qed.

(** C36: One acknowledgement ends every handover: after a successful
    acknowledgement, no later state of the store passes inspection, whatever the
    control row, so it can be neither inspected nor prepared. *)
Theorem ack_blocks_handover machineID endpoint id token generation now s s' s2 control :
  AckDelivery machineID endpoint id token generation now s = (inr tt, s') -> rtc step s' s2 ->
  (exists e, inspectMigrationSource control (st_db s2) = inl e) /\
  (forall epochID targetIdentity expected wall m s3,
    PrepareMigrationSource control epochID targetIdentity expected wall s2 <> (inr m, s3)).
Proof.
  intros Ha Hs. assert (exists e, inspectMigrationSource control (st_db s2) = inl e) as [e He].
  { destruct (inspectMigrationSource control (st_db s2)) as [e|m] eqn:Hi; [eauto|exfalso].
    apply inspect_ok in Hi as (_ & Hv%verified_state & _).
    apply ack_keeps_token, (ackedWithToken_evolve id _ (st_db s2)) in Ha as (dl & Hid & Hp & Ht).
    - by rewrite (ackedWithToken_invalid _ _ _ Hid Hp Ht) in Hv.
    - apply (stable_steps _ _ _ Hs), deliveries_evolve_refl. }
  split; [eauto|]. intros epochID targetIdentity expected wall [m control'] s3 Hp.
  apply PrepareMigrationSource_ok in Hp as (current & Hi & _). congruence.
Qed.
End Obstacles.
