(* ===== verification/Authority.v ===== *)
(** * One authority over the mail

    The whole installation during a cutover: the relay on its file, any number
    of executors on the file and the destination, the rest of the system on the
    destination, each taking one durable step at a time and stopping anywhere.
    An executor acts on what the calls returned to somebody: it activates with a
    manifest the file gave, and publishes after an activation.  In every such
    run the destination has authority only over a file that is retired for
    good. *)

From S2P Require Import Prelude GoTime RateLimit Quota Text Sha256 Tables Tx Sessions Pending.
From S2P Require Import Invocations Rooms Claims Roles Directory Messages Deliveries QuotaInv Relay.
From S2P Require Import Auth Source Export Destination Cutover Epochs QuotaOps History Atomic Fence Handover.
Open Scope Z_scope.

(** ** Runs *)

(** The durable state, and the manifests and epochs the calls have returned. *)
Record Run := mkRun {
  rn_world : World;
  rn_manifests : list MigrationSourceManifest;
  rn_epochs : list MailCutoverEpoch;
}.

Section Runs.
Context `{Env, RowJson, PgEnv}.

Inductive cut_step : Run -> Run -> Prop :=
  | cut_relay op w ms es r s' :
      relayOp op -> run_op op (w_store w) = (r, s') ->
      cut_step (mkRun w ms es) (mkRun (with_source (w_control w) s' w) ms es)
  | cut_prepare w ms es epochID targetIdentity expected now m control' s' :
      PrepareMigrationSource (w_control w) epochID targetIdentity expected now (w_store w) = (inr (m, control'), s') ->
      cut_step (mkRun w ms es) (mkRun (with_source control' s' w) (m :: ms) es)
  | cut_transition w ms es epochID targetIdentity fingerprint target wall m control' s' :
      transitionPreparedMigrationSource (w_control w) epochID targetIdentity fingerprint target wall (w_store w) =
        (inr (m, control'), s') ->
      cut_step (mkRun w ms es) (mkRun (with_source control' s' w) (m :: ms) es)
  | cut_inspect w ms es m :
      inspectMigrationSource (w_control w) (st_db (w_store w)) = inr m ->
      cut_step (mkRun w ms es) (mkRun w (m :: ms) es)
  | cut_read w ms es s' :                                    (* also a command that fails *)
      st_db s' = st_db (w_store w) ->
      cut_step (mkRun w ms es) (mkRun (with_source (w_control w) s' w) ms es)
  | cut_call w ms es returned p' :
      call (fun m => m ∈ ms) (w_pg w) returned p' ->
      cut_step (mkRun w ms es) (mkRun (with_pg p' w) ms (option_list returned ++ es))
  | cut_outside w ms es p' :
      outside (w_pg w) p' -> cut_step (mkRun w ms es) (mkRun (with_pg p' w) ms es)
  | cut_publish w ms es active begun pub :
      active ∈ es -> me_Phase active = MailCutoverActive -> rq_EpochID (me_Request active) = pb_EpochID pub ->
      begun ∈ es -> rq_EpochID (me_Request begun) = pb_EpochID pub ->
      rq_TargetIdentity (me_Request begun) = pb_TargetIdentity pub ->
      rq_SourceFingerprint (me_Request begun) = pb_SourceFingerprint pub ->
      cut_step (mkRun w ms es) (mkRun (with_published pub w) ms es).

(** ** What a retired file says of itself *)

Definition attests (control : MigrationControl) (d : Db) (m : MigrationSourceManifest) : Prop :=
  db_phase d = MigrationSourceRetired /\
  exists tables fingerprint, evidence (mg_source_id control) d = Some (tables, fingerprint) /\
    m = manifestOf control MigrationSourceRetired tables fingerprint.

Lemma evidence_guarded sourceID d : evidence sourceID (guarded_part d) = evidence sourceID d.
Proof. by destruct d. Qed.

Lemma attests_guarded control d d' m :
  guarded_part d' = guarded_part d -> attests control d m -> attests control d' m.
Proof.
  intros Hg (Hr & He). split; [by rewrite (guarded_phase d d')|].
  by rewrite <-evidence_guarded, Hg, evidence_guarded.
Qed.

Lemma inspect_attests control d m :
  inspectMigrationSource control d = inr m -> mm_Phase m = MigrationSourceRetired -> attests control d m.
Proof.
  intros (_ & _ & tables & fingerprint & He & _ & ->)%inspect_iff Hp. cbn in Hp. rewrite Hp. split; [done|]. eauto.
Qed.

(** A transition returns what the file then attests. *)
Lemma transition_attests control epochID targetIdentity fingerprint target wall m control' s s' :
  transitionPreparedMigrationSource control epochID targetIdentity fingerprint target wall s =
    (inr (m, control'), s') ->
  mm_Phase m = MigrationSourceRetired -> attests control' (st_db s') m.
Proof.
  intros (_ & current & Hi & [(-> & -> & -> & _)|(_ & _ & _ & -> & -> & ->)])%transition_ok Hp.
  { by apply inspect_attests. }
  cbn in Hp. subst. split; [done|].
  apply inspect_iff in Hi as (_ & _ & tables & fingerprint' & He & _ & ->).
  exists tables, fingerprint'. cbn [st_db with_db]. rewrite evidence_phase. done.
Qed.

Lemma transition_file control epochID targetIdentity fingerprint target wall m control' s s' :
  transitionPreparedMigrationSource control epochID targetIdentity fingerprint target wall s =
    (inr (m, control'), s') ->
  file_step (control, s) (control', s').
Proof.
  intros Ht. pose proof Ht as (Hne & _)%transition_ok. destruct target; [|done|].
  - by eapply file_abort.
  - by eapply file_retire.
Qed.

(** ** The invariant *)

(** Epoch [k] has authority: the file is retired to it, and holds what the
    epoch's manifest says. *)
Definition authorized (w : World) (k : string) (e : MailCutoverEpoch) : Prop :=
  exists retired prepared, attests (w_control w) (st_db (w_store w)) retired /\ mm_EpochID retired = k /\
    mm_Fingerprint retired = rq_SourceFingerprint (me_Request e) /\
    manifest_Unmarshal (rq_Manifest (me_Request e)) = Some prepared /\
    sameMailCutoverSource prepared retired = true.

Record authority (r : Run) : Prop := {
  at_pg : consistent (w_pg (rn_world r));
  at_manifests m : m ∈ rn_manifests r -> mm_Phase m = MigrationSourceRetired ->
    attests (w_control (rn_world r)) (st_db (w_store (rn_world r))) m;
  at_epochs e : e ∈ rn_epochs r -> exists e', pg_epochs (w_pg (rn_world r)) !! rq_EpochID (me_Request e) = Some e' /\
    me_Request e' = me_Request e /\ (me_Phase e = MailCutoverActive -> me_Phase e' = MailCutoverActive);
  at_active k e : pg_epochs (w_pg (rn_world r)) !! k = Some e -> me_Phase e = MailCutoverActive ->
    authorized (rn_world r) k e;
  at_published pub : w_published (rn_world r) = Some pub ->
    exists e, pg_epochs (w_pg (rn_world r)) !! pb_EpochID pub = Some e /\ me_Phase e = MailCutoverActive /\
      rq_TargetIdentity (me_Request e) = pb_TargetIdentity pub /\
      rq_SourceFingerprint (me_Request e) = pb_SourceFingerprint pub;
}.

(** A step on the file keeps what a retired file attests. *)
Lemma file_attests w control' s' m :
  file_step (w_control w, w_store w) (control', s') ->
  attests (w_control w) (st_db (w_store w)) m -> attests control' (st_db s') m.
Proof.
  intros Hs Ha. destruct (retired_step _ _ Hs) as [Hc Hg]; [by destruct Ha|]. cbn in *. subst.
  by eapply attests_guarded.
Qed.

Lemma authority_file w ms es control' s' m' :
  authority (mkRun w ms es) ->
  (forall m, attests (w_control w) (st_db (w_store w)) m -> attests control' (st_db s') m) ->
  (forall m, m ∈ m' -> mm_Phase m = MigrationSourceRetired -> attests control' (st_db s') m) ->
  authority (mkRun (with_source control' s' w) (m' ++ ms) es).
Proof.
  intros Ha Hk Hm. split; cbn.
  - apply (at_pg _ Ha).
  - intros m [Hin|Hin]%elem_of_app Hp; [by apply Hm|]. by apply Hk, (at_manifests _ Ha).
  - apply (at_epochs _ Ha).
  - intros k e He Hp. destruct (at_active _ Ha _ _ He Hp) as (retired & prepared & Hr & ?).
    exists retired, prepared. by split; [apply Hk|].
  - apply (at_published _ Ha).
Qed.

(** A step on the destination. *)
Lemma authority_pg w ms es p' es' :
  authority (mkRun w ms es) -> consistent p' ->
  (forall k e, pg_epochs (w_pg w) !! k = Some e -> exists e', pg_epochs p' !! k = Some e' /\
    me_Request e' = me_Request e /\ (me_Phase e = MailCutoverActive -> me_Phase e' = MailCutoverActive)) ->
  (forall e, e ∈ es' -> exists k, pg_epochs p' !! k = Some e) ->
  (forall k e, pg_epochs p' !! k = Some e -> me_Phase e = MailCutoverActive ->
    pg_epochs (w_pg w) !! k = Some e \/ authorized w k e) ->
  authority (mkRun (with_pg p' w) ms (es' ++ es)).
Proof.
  intros Ha Hc Hk Hes Hact. split; cbn.
  - done.
  - apply (at_manifests _ Ha).
  - intros e [Hin|Hin]%elem_of_app.
    + destruct (Hes _ Hin) as [k He]. rewrite (epoch_id p' Hc _ _ He). eauto.
    + destruct (at_epochs _ Ha _ Hin) as (e1 & He1 & Hr1 & Hp1).
      destruct (Hk _ _ He1) as (e2 & He2 & Hr2 & Hp2). exists e2. split_and!; [done|congruence|auto].
  - intros k e He Hp. destruct (Hact _ _ He Hp) as [He0|?]; [|done]. by apply (at_active _ Ha).
  - intros pub Hpub. destruct (at_published _ Ha _ Hpub) as (e & He & Hp & Ht & Hf).
    destruct (Hk _ _ He) as (e' & He' & Hr' & Hp'). exists e'. rewrite Hr'. auto.
Qed.

(** An epoch that becomes active is authorized. *)
Lemma effect_active w ms es p' k e :
  authority (mkRun w ms es) -> effect (fun m => m ∈ ms) (w_pg w) p' ->
  pg_epochs p' !! k = Some e -> me_Phase e = MailCutoverActive ->
  pg_epochs (w_pg w) !! k = Some e \/ authorized w k e.
Proof.
  intros Ha. generalize (eq_refl (w_pg w)). generalize (w_pg w) at 2 3 4. intros p Hp He. revert Hp.
  destruct He as [p|p r Hn Ht Ho|p r Hn|p k1 e1 Hk1 Ha1 Hb1|p k1 e1 staging checkpoints Hk1 Hi
    |p k1 e1 m Hk1 Hi Hm Hf|p p1 k1 e1 m retired Hk1 Hv Hm Hg Hsame Hid Hfp Hp1]; cbn;
    intros Hp; try (intros [[<- <-]|[_ ?]]%lookup_insert_Some; [|by left]); try done; auto.
  right. exists retired, m. split_and!; [|done..]. apply (at_manifests _ Ha); [done|].
  unfold sameMailCutoverSource in Hsame. by bool_hyps.
Qed.

Lemma authority_step r r' : cut_step r r' -> authority r -> authority r'.
Proof.
  destruct 1 as [op w ms es r s' Hop Hr|w ms es k t x now m control' s' Hp|w ms es k t x target wall m control' s' Ht
    |w ms es m Hi|w ms es s' Hd|w ms es returned p' Hc|w ms es p' Ho|w ms es active begun pub Hact Hph Hid Hb Hbid Htg Hfp];
    intros Ha.
  - apply (authority_file _ _ _ _ _ []); [done| |by intros ? ?%elem_of_nil].
    intros m. apply file_attests. by eapply file_op.
  - apply (authority_file _ _ _ _ _ [m]); [done|intros m'; apply file_attests; by eapply file_prepare|].
    intros m' ->%list_elem_of_singleton Hr. apply prepared_inspects in Hp as (_ & Hal & _).
    unfold preparedAlready in Hal. bool_hyps. congruence.
  - apply (authority_file _ _ _ _ _ [m]); [done|intros m'; by eapply file_attests, transition_file|].
    intros m' ->%list_elem_of_singleton. by eapply transition_attests.
  - assert (w = with_source (w_control w) (w_store w) w) as Hw by by destruct w.
    rewrite Hw. apply (authority_file _ _ _ _ _ [m]); [done|done|].
    intros m' ->%list_elem_of_singleton Hr. by apply inspect_attests.
  - apply (authority_file _ _ _ _ _ []); [done| |by intros ? ?%elem_of_nil]. by rewrite Hd.
  - apply call_ok in Hc as [He Hret]. apply authority_pg; [done|..].
    + eapply effect_consistent; [exact He|apply (at_pg _ Ha)].
    + intros k e. by eapply effect_keeps.
    + intros e Hin. apply Hret. destruct returned; [|by apply elem_of_nil in Hin].
      by apply list_elem_of_singleton in Hin as ->.
    + intros k e. by apply effect_active with ms es.
  - apply (authority_pg _ _ _ _ []); [done|..].
    + eapply outside_consistent; [done|apply (at_pg _ Ha)].
    + intros k e. destruct Ho as [p p' -> _ _ _|]; eauto.
    + by intros ? ?%elem_of_nil.
    + intros k e. destruct Ho as [p p' -> _ _ _|]; eauto.
  - split; cbn; [apply (at_pg _ Ha)|apply (at_manifests _ Ha)|apply (at_epochs _ Ha)|apply (at_active _ Ha)|].
    intros ? [= <-]. destruct (at_epochs _ Ha _ Hact) as (e & He & _ & Hp). rewrite Hid in He. exists e.
    destruct (at_epochs _ Ha _ Hb) as (e' & He' & Hr' & _). rewrite Hbid in He'. simplify_eq/=.
    rewrite Hr'. auto.
Qed.

Lemma authority_steps r r' : rtc cut_step r r' -> authority r -> authority r'.
Proof. induction 1; eauto using authority_step. Qed.

(** No cutover has begun; the mail tables may hold anything. *)
Definition fresh (w : World) : Prop := pg_epochs (w_pg w) = ∅ /\ w_published w = None.

Lemma authority_fresh w : fresh w -> authority (mkRun w [] []).
Proof.
  intros [He Hp]. split; cbn; rewrite ?Hp; try (by intros ? ?%elem_of_nil); try done.
  - by split; rewrite He; intros *; rewrite lookup_empty.
  - by rewrite He.
Qed.

Lemma active_retired r k e :
  authority r -> pg_epochs (w_pg (rn_world r)) !! k = Some e -> me_Phase e = MailCutoverActive ->
  db_phase (st_db (w_store (rn_world r))) = MigrationSourceRetired.
Proof. intros Ha He Hp. destruct (at_active _ Ha _ _ He Hp) as (? & ? & [? _] & _). done. Qed.

(** A retired file keeps its guarded tables. *)
Lemma cut_step_frozen r r' :
  cut_step r r' -> db_phase (st_db (w_store (rn_world r))) = MigrationSourceRetired ->
  guarded_part (st_db (w_store (rn_world r'))) = guarded_part (st_db (w_store (rn_world r))).
Proof.
  destruct 1 as [op w ms es r s' Hop Hr|w ms es k t x now m control' s' Hp|w ms es k t x target wall m control' s' Ht
    |w ms es m Hi|w ms es s' Hd|w ms es returned p' Hc|w ms es p' Ho|w ms es active begun pub Hact Hph Hid Hb Hbid Htg Hfp];
    cbn; intros Hret; try done.
  - by apply (file_op op (w_control w)) in Hr as [_ ?]%retired_step.
  - by apply file_prepare in Hp as [_ ?]%retired_step.
  - by apply transition_file in Ht as [_ ?]%retired_step.
  - by rewrite Hd.
Qed.

Lemma cut_steps_frozen r r' :
  rtc cut_step r r' -> db_phase (st_db (w_store (rn_world r))) = MigrationSourceRetired ->
  guarded_part (st_db (w_store (rn_world r'))) = guarded_part (st_db (w_store (rn_world r))).
Proof.
  induction 1 as [|r1 r2 r3 Hs _ IH]; [done|]. intros Hr. apply cut_step_frozen in Hs; [|done].
  rewrite IH, Hs; [done|]. by rewrite (guarded_phase _ _ Hs).
Qed.

End Runs.
