(* ===== verification/Execution.v ===== *)
(** * Every run of the executor keeps the authority boundary

    A small program logic for the executor's calls: what a program does to the
    installation is a sequence of steps of [Authority], and what it returns was
    returned to it by those steps.  From it: however a run of [Execute] or
    [AbortExecution] ends, one side has authority; and when it succeeds it is
    the side it reports. *)

From S2P Require Import Prelude GoTime RateLimit Quota Text Sha256 Tables Tx Sessions Pending.
From S2P Require Import Invocations Rooms Claims Roles Directory Messages Deliveries QuotaInv Relay.
From S2P Require Import Auth Source Export Destination Cutover Epochs QuotaOps History Atomic Fence Handover Authority.
Open Scope Z_scope.

(** ** The logic *)

Section Logic.
Context `{Env, RowJson, PgEnv}.

(** What was returned before is still known. *)
Definition knows (r r' : Run) : Prop :=
  rn_manifests r ⊆ rn_manifests r' /\ rn_epochs r ⊆ rn_epochs r'.

#[export] Instance knows_preorder : PreOrder knows.
Proof. split; [by intros r|]. intros a b c [? ?] [? ?]. split; by etrans. Qed.

(** From [r] the program takes steps, and a success satisfies [Q]. *)
Definition does {A} (r : Run) (m : X A) (Q : A -> Run -> Prop) : Prop :=
  forall result w', m (rn_world r) = (result, w') ->
  exists r', rtc cut_step r r' /\ rn_world r' = w' /\ knows r r' /\ forall a, result = inr a -> Q a r'.

Lemma does_bind {A B} r (m : X A) (k : A -> X B) Q R :
  does r m Q -> (forall a r', knows r r' -> rtc cut_step r r' -> Q a r' -> does r' (k a) R) -> does r (m ≫= k) R.
Proof.
  intros Hm Hk result w'. unfold mbind, X_bind. destruct (m (rn_world r)) as [[e|a] w1] eqn:Hrun; intros Hr.
  - destruct (Hm _ _ Hrun) as (r1 & Hs & Hw & Hkn & _). simplify_eq. exists r1. split_and!; [done..|]. by intros a.
  - destruct (Hm _ _ Hrun) as (r1 & Hs1 & <- & Hk1 & HQ).
    destruct (Hk a r1 Hk1 Hs1 (HQ a eq_refl) _ _ Hr) as (r2 & Hs2 & Hw2 & Hk2 & HR).
    exists r2. split_and!; [by etrans|done|by etrans|done].
Qed.

Lemma does_weaken {A} r (m : X A) (Q R : A -> Run -> Prop) :
  does r m Q -> (forall a r', Q a r' -> R a r') -> does r m R.
Proof. intros Hm HQ result w' Hr. destruct (Hm _ _ Hr) as (r' & ? & ? & ? & ?). exists r'. eauto 10. Qed.

Lemma does_ret {A} r (a : A) (Q : A -> Run -> Prop) : Q a r -> does r (mret a) Q.
Proof. intros HQ result w' [= <- <-]. exists r. split_and!; [done..|]. by intros b [= <-]. Qed.

Lemma does_fail {A} r e (Q : A -> Run -> Prop) : does r (fail e) Q.
Proof. intros result w' [= <- <-]. exists r. split_and!; [done..|]. by intros b [=]. Qed.

Lemma does_fail_if r b e : does r (fail_if b e) (fun _ _ => b = false).
Proof. destruct b; [apply does_fail|by apply does_ret]. Qed.

Lemma does_result {A} r (m : X A) Q :
  does r m Q -> does r (result m) (fun x r' => forall a, x = inr a -> Q a r').
Proof.
  intros Hm x w'. unfold result. destruct (m (rn_world r)) as [y w1] eqn:Hrun. intros [= <- <-].
  destruct (Hm _ _ Hrun) as (r' & ? & ? & ? & ?). exists r'. split_and!; [done..|]. by intros a [= <-].
Qed.

Lemma does_read {A} r (m : MigrationControl -> M A) :
  (forall control, reads (m control)) -> does r (fromSource m) (fun _ _ => True).
Proof.
  intros Hm result w'. unfold fromSource. destruct r as [w ms es]. cbn.
  destruct (m (w_control w) (w_store w)) as [x s] eqn:Hr. apply Hm in Hr. intros Hres.
  exists (mkRun (with_source (w_control w) s w) ms es).
  split_and!; [by apply rtc_once, cut_read|by destruct x; simplify_eq|done..].
Qed.

Lemma does_inspect r : does r (fromSource InspectMigrationSource) (fun m r' => m ∈ rn_manifests r').
Proof.
  intros result w'. unfold fromSource. destruct r as [w ms es]. cbn.
  destruct (InspectMigrationSource (w_control w) (w_store w)) as [x s] eqn:Hr.
  assert (s = w_store w /\ inspectMigrationSource (w_control w) (st_db (w_store w)) = x) as [-> Hx].
  { unfold InspectMigrationSource, rolled_back in Hr. unfold inspectNow in Hr.
    erewrite bind_run in Hr by reflexivity. destruct (w_store w) as [d ? ? ? ? ?]; cbn in *.
    destruct (inspectMigrationSource _ d); cbn in Hr; by simplify_eq. }
  assert (with_source (w_control w) (w_store w) w = w) as Hw by by destruct w.
  rewrite Hw. destruct x as [e|m]; intros [= <- <-].
  - exists (mkRun w ms es). by split_and!.
  - exists (mkRun w (m :: ms) es). split_and!; [by apply rtc_once, cut_inspect|done|split; set_solver|].
    intros a [= <-]. set_solver.
Qed.

(** The three commands. *)
Definition isCommand (m : MigrationControl -> M (MigrationSourceManifest * MigrationControl)) : Prop :=
  (exists epochID targetIdentity expected now, m = fun control =>
    PrepareMigrationSource control epochID targetIdentity expected now) \/
  (exists epochID targetIdentity fingerprint target wall, m = fun control =>
    transitionPreparedMigrationSource control epochID targetIdentity fingerprint target wall).

Lemma mutate_error control mutation s e s' :
  mutateMigrationSource control mutation s = (inl e, s') -> st_db s' = st_db s.
Proof. apply transact_error. Qed.

Lemma command_error m control s e s' : isCommand m -> m control s = (inl e, s') -> st_db s' = st_db s.
Proof.
  intros [(k & t & x & now & ->)|(k & t & x & target & wall & ->)];
    unfold PrepareMigrationSource, transitionPreparedMigrationSource, reject_if;
    (destruct (_ || _); [by intros [= _ <-]|]); erewrite bind_run by reflexivity; apply mutate_error.
Qed.

Lemma does_command r m :
  isCommand m -> does r (command m) (fun manifest r' => manifest ∈ rn_manifests r' /\
    exists control s, m (w_control (rn_world r)) (w_store (rn_world r)) = (inr (manifest, control), s) /\
      w_control (rn_world r') = control /\ w_store (rn_world r') = s).
Proof.
  intros Hc result w'. unfold command. destruct r as [w ms es]. cbn.
  destruct (m (w_control w) (w_store w)) as [[e|[manifest control]] s] eqn:Hr; intros [= <- <-].
  - exists (mkRun (with_source (w_control w) s w) ms es). split_and!; [|done..].
    apply rtc_once, cut_read. by eapply command_error.
  - exists (mkRun (with_source control s w) (manifest :: ms) es). split_and!; [|done|split; set_solver|].
    + apply rtc_once. destruct Hc as [(k & t & x & now & ->)|(k & t & x & target & wall & ->)];
        [by eapply cut_prepare|by eapply cut_transition].
    + intros a [= <-]. split; [set_solver|]. by exists control, s.
Qed.

(** A call that changes nothing. *)
Lemma does_look {A} r (d : D A) :
  (forall p a p', d p = inr (a, p') -> p' = p) -> does r (onDestination d) (fun _ _ => True).
Proof.
  intros Hd result w'. unfold onDestination. destruct r as [w ms es]. cbn.
  destruct (d (w_pg w)) as [e|[a p]] eqn:Hr; intros [= <- <-]; exists (mkRun w ms es); split_and!; try done.
  apply Hd in Hr as ->. by destruct w.
Qed.

(** A call that may. *)
Lemma does_call {A} r (d : D A) (returned : A -> option MailCutoverEpoch) (Q : A -> Pg -> Prop) :
  (forall p a p', d p = inr (a, p') -> call (fun m => m ∈ rn_manifests r) p (returned a) p' /\ Q a p') ->
  does r (onDestination d) (fun a r' => (forall e, returned a = Some e -> e ∈ rn_epochs r') /\
    Q a (w_pg (rn_world r')) /\ w_store (rn_world r') = w_store (rn_world r)).
Proof.
  intros Hd result w'. unfold onDestination. destruct r as [w ms es]. cbn in *.
  destruct (d (w_pg w)) as [e|[a p]] eqn:Hr; intros [= <- <-].
  - exists (mkRun w ms es). by split_and!.
  - apply Hd in Hr as [Hc HQ]. exists (mkRun (with_pg p w) ms (option_list (returned a) ++ es)).
    split_and!; [by apply rtc_once, cut_call|done|split; set_solver|].
    intros b [= <-]. split; [|done]. intros e He. cbn. rewrite He. set_solver.
Qed.
End Logic.

(** ** The executor *)

Section Executor.
Context `{Env, RowJson, PgEnv}.

Lemma does_seq {A B} r (m : X A) (k : A -> X B) R :
  does r m (fun _ _ => True) -> (forall a r', knows r r' -> rtc cut_step r r' -> does r' (k a) R) ->
  does r (m ≫= k) R.
Proof. intros Hm Hk. eapply does_bind; [exact Hm|auto]. Qed.

Lemma does_check {A} r b e (k : X A) R : (b = false -> does r k R) -> does r (fail_if b e;; k) R.
Proof. intros Hk. destruct b; [exact (does_fail r e R)|exact (Hk eq_refl)]. Qed.

Lemma knows_manifest r r' m : knows r r' -> m ∈ rn_manifests r -> m ∈ rn_manifests r'.
Proof. intros [Hk _]. apply Hk. Qed.
Lemma knows_epoch r r' e : knows r r' -> e ∈ rn_epochs r -> e ∈ rn_epochs r'.
Proof. intros [_ Hk]. apply Hk. Qed.
#[local] Hint Resolve knows_manifest knows_epoch authority_steps : core.

Lemma does_readiness r : does r (onDestination CheckMailCutoverSchemaReadiness) (fun _ _ => True).
Proof. apply does_look. unfold CheckMailCutoverSchemaReadiness. intros p a p' Hr. by pg_inv Hr. Qed.

Lemma does_identity r : does r (onDestination Identity) (fun _ _ => True).
Proof. apply does_look. by intros p a p' [= _ <-]. Qed.

Lemma does_preflight r : does r (onDestination InspectMailCutoverPreflight) (fun _ _ => True).
Proof. apply does_look. unfold InspectMailCutoverPreflight. intros p a p' Hr. by pg_inv Hr. Qed.

Lemma does_checkPreflight r manifest : does r (checkPreflight manifest) (fun _ _ => True).
Proof.
  unfold checkPreflight. case_bool_decide; [|by apply does_ret].
  apply does_seq; [apply does_preflight|]. intros pf r1 _ _. do 2 (apply does_check; intros _).
  eapply does_weaken; [apply does_fail_if|done].
Qed.

Lemma does_coverage r ex : does r (CheckEnrollmentCoverage ex) (fun _ _ => True).
Proof.
  apply does_read. intros control. unfold CheckMigrationSourceEnrollmentCoverage.
  destruct (machineEnrollmentAuthenticator _) as [|[]]; [apply reads_throw|apply reads_rolled_back].
Qed.

Lemma does_bindSource r ex request target manifest :
  manifest ∈ rn_manifests r ->
  does r (bindSource ex request target manifest) (fun m r' => m ∈ rn_manifests r').
Proof.
  intros Hin. unfold bindSource. case_bool_decide; apply does_check; intros _; [|by apply does_ret].
  eapply does_bind; [apply does_command; left; by do 4 eexists|]. intros prepared r2 _ _ [Hp _].
  apply does_seq; [apply does_coverage|]. intros _ r3 Hk _. apply does_ret. eauto.
Qed.

Lemma does_stage r actor batch : does r (onDestination (StageMailCutoverBatch actor batch)) (fun _ _ => True).
Proof.
  eapply does_weaken; [apply (does_call _ _ (fun _ => None) (fun _ _ => True))|done].
  intros p a p' Hr. split; [by eapply call_stage|done].
Qed.

Lemma does_importPages pages r request table batchSize after :
  does r (importPages pages request table batchSize after) (fun _ _ => True).
Proof.
  revert r after. induction pages as [|pages IH]; intros r after; [apply does_fail|]. simpl.
  apply does_seq; [apply does_read|].
  { intros control. unfold ReadMigrationSourceBatch. apply reads_bind; [apply reads_reject_if|intros _].
    destruct (columnSpec table); [apply reads_rolled_back|apply reads_throw]. }
  intros batch r1 _ _. apply does_seq; [apply does_stage|]. intros checkpoint r2 _ _.
  destruct (mb_Done batch); [by apply does_ret|]. apply does_check. intros _. apply IH.
Qed.

Lemma does_importTables pages r request prepared batchSize tables :
  does r (importTables pages request prepared batchSize tables) (fun _ _ => True).
Proof.
  revert r. induction tables as [|table tables IH]; intros r; [by apply does_ret|]. simpl.
  apply does_seq; [|by intros]. unfold importTable. apply does_seq.
  { apply does_look. intros p a p' Hr. unfold ReadMailCutoverCheckpoint in Hr. by pg_inv Hr. }
  intros checkpoint r1 _ _. apply does_check. intros _. destruct (_ && _); [by apply does_ret|].
  apply does_seq; [apply does_importPages|]. intros c2 r2 _ _. eapply does_weaken; [apply does_fail_if|done].
Qed.

(** A known epoch with the identifier [k]. *)
Definition knownEpoch (k : string) (e : MailCutoverEpoch) (r : Run) : Prop :=
  e ∈ rn_epochs r /\ rq_EpochID (me_Request e) = k.

(** A call for epoch [k] returns that epoch. *)
Lemma does_epoch r (d : D MailCutoverEpoch) k :
  authority r ->
  (forall p e p', d p = inr (e, p') -> call (fun m => m ∈ rn_manifests r) p (Some e) p' /\ pg_epochs p' !! k = Some e) ->
  does r (onDestination d) (knownEpoch k).
Proof.
  intros Ha Hd result w' Hr.
  destruct (does_call r d Some (fun e p => pg_epochs p !! k = Some e) Hd result w' Hr) as (r' & Hs & Hw & Hkn & HQ).
  exists r'. split_and!; [done..|]. intros e He. destruct (HQ e He) as (Hin & Hk & _). split; [by apply Hin|].
  by apply (epoch_id _ (at_pg _ (authority_steps _ _ Hs Ha))).
Qed.

Lemma does_importEpoch pages r request manifest prepared batchSize epoch :
  authority r -> knownEpoch (xr_EpochID request) epoch r ->
  does r (importEpoch pages request manifest prepared batchSize epoch) (knownEpoch (xr_EpochID request)).
Proof.
  intros Ha He. unfold importEpoch. case_bool_decide; [|by apply does_ret]. apply does_check. intros _.
  apply does_seq; [apply does_importTables|]. intros _ r1 _ Hs. apply does_epoch; [by eauto|].
  intros p e p' Hr. split; [by eapply call_verify|]. by apply (verifyCutover_ok (fun _ => True)) in Hr as [? _].
Qed.

Lemma does_retireSource wall r ex request target manifest prepared :
  manifest ∈ rn_manifests r ->
  does r (retireSource wall ex request target manifest prepared) (fun m r' => m ∈ rn_manifests r').
Proof.
  intros Hin. unfold retireSource. case_bool_decide; [|by apply does_ret]. apply does_seq.
  { apply does_look. unfold CheckMailCutoverActivationReadiness. intros p a p' Hr. pg_inv Hr.
    destruct (ValidateMachineEnrollments _), (ParseMachineEnrollments _); by pg_inv Hr. }
  intros _ r1 _ _. eapply does_weaken; [apply does_command; right; by do 5 eexists|]. by intros m r2 [? _].
Qed.

Lemma does_activateEpoch wall r ex request target manifest prepared epoch :
  authority r -> manifest ∈ rn_manifests r -> knownEpoch (xr_EpochID request) epoch r ->
  does r (activateEpoch wall ex request target manifest prepared epoch)
    (fun me r' => me.1 ∈ rn_manifests r' /\ knownEpoch (xr_EpochID request) me.2 r').
Proof.
  intros Ha Hm He. unfold activateEpoch. case_bool_decide; [|by apply does_ret].
  eapply does_bind; [by apply does_retireSource|]. intros retired r1 _ Hs1 Hr. apply does_check. intros _.
  eapply does_bind; [apply does_epoch; [by eauto|]|].
  - intros p e p' Hrun. split; [by eapply call_activate; [exact Hr|]|].
    by apply (activate_ok (fun _ => True)) in Hrun as [? _].
  - intros e r2 Hk2 _ Hk. apply does_ret. split; [by eauto|done].
Qed.

Lemma does_publish r ex active begun pub :
  active ∈ rn_epochs r -> me_Phase active = MailCutoverActive -> rq_EpochID (me_Request active) = pb_EpochID pub ->
  begun ∈ rn_epochs r -> rq_EpochID (me_Request begun) = pb_EpochID pub ->
  rq_TargetIdentity (me_Request begun) = pb_TargetIdentity pub ->
  rq_SourceFingerprint (me_Request begun) = pb_SourceFingerprint pub ->
  does r (publish ex pub) (fun _ r' => w_published (rn_world r') = Some pub).
Proof.
  intros Hact Hp Hid Hb Hbid Ht Hf result w'. unfold publish. destruct r as [w ms es].
  destruct (ex_Publish ex) as [accepts|]; [destruct (accepts pub)|]; intros [= <- <-].
  - exists (mkRun (with_published pub w) ms es). split_and!; [|done..|by intros [] _]. apply rtc_once. by eapply (cut_publish _ _ _ active begun).
  - by exists (mkRun w ms es).
  - by exists (mkRun w ms es).
Qed.

(** What a success reports. *)
Definition executed (request : Request) (x : Result) (r : Run) : Prop :=
  xr_Epoch x = xr_EpochID request /\ xr_SourcePhase x = MigrationSourceRetired /\ xr_Phase x = MailCutoverActive /\
  exists target, w_published (rn_world r) = Some {| pb_Version := 1; pb_EpochID := xr_EpochID request;
    pb_TargetIdentity := target; pb_SourceFingerprint := xr_SourceFingerprint x |}.

Lemma does_Execute pages wall ex request r :
  authority r -> does r (Execute pages wall ex request) (executed request).
Proof.
  intros Ha. unfold Execute. apply does_check. intros _. apply does_seq; [apply does_readiness|]. intros _ r1 _ Hs1.
  apply does_seq; [apply does_identity|]. intros target r2 _ Hs2.
  eapply does_bind; [apply does_inspect|]. intros inspected r3 _ Hs3 Hi.
  apply does_seq; [apply does_checkPreflight|]. intros _ r4 Hk4 Hs4.
  apply does_seq; [apply does_coverage|]. intros _ r5 Hk5 Hs5.
  eapply does_bind; [apply does_bindSource; by eauto|]. intros manifest r6 Hk6 Hs6 Hm.
  assert (authority r6) as Ha6 by (repeat (eapply authority_steps; [eassumption|]); done).
  cbv zeta. set (prepared := withPhase _ _ _ manifest). set (asked := destinationRequest prepared _ target).
  eapply does_bind; [apply (does_call _ _ Some (fun e p => samePins asked (me_Request e)))|].
  { intros p e p' Hr. split; [by eapply call_begin|]. by apply (begin_ok (fun _ => True)) in Hr as [? _]. }
  intros begun r7 Hk7 Hs7 (Hb & (Hbid & Hbt & Hbf) & _). specialize (Hb _ eq_refl). cbn in Hbid, Hbt, Hbf.
  eapply does_bind; [apply does_importEpoch; [by eauto|by split]|]. intros epoch r8 Hk8 Hs8 He.
  eapply does_bind; [apply does_activateEpoch; [by eauto 10|by eauto|done]|].
  intros [retired active] r9 Hk9 Hs9 [Hret [Hin Hid]]. cbn in Hret, Hin, Hid.
  apply does_check. intros Hcheck. bool_hyps.
  eapply does_bind; [apply (does_publish _ _ active begun); by eauto|]. intros u r10 _ _ Hpub.
  apply does_ret. split_and!; [done..|]. by exists target.
Qed.

Lemma does_abortFingerprint r actor epochID target manifest :
  does r (abortFingerprint actor epochID target manifest) (fun _ _ => True).
Proof.
  unfold abortFingerprint. eapply does_bind; [apply does_result, does_look|].
  { intros p a p' Hr. unfold MailCutoverStatus in Hr. by pg_inv Hr. }
  intros [e|status] r1 _ _ _; apply does_check; intros _; [|by apply does_ret].
  apply does_check. intros _.
  eapply does_bind; [apply (does_call _ _ Some (fun _ _ => True))|].
  { intros p e' p' Hr. split; [by eapply call_reserve|done]. }
  intros reserved r2 _ _ _. apply does_check. intros _. by apply does_ret.
Qed.

(** After an abort the relay may write again. *)
Definition aborted (epochID : string) (r : Run) : Prop :=
  writable (st_db (w_store (rn_world r))) = true /\
  exists e, pg_epochs (w_pg (rn_world r)) !! epochID = Some e /\ me_Phase e = MailCutoverAborted.

Lemma does_AbortExecution r actor epochID wall :
  does r (AbortExecution actor epochID wall) (fun _ => aborted epochID).
Proof.
  unfold AbortExecution. apply does_check. intros _. apply does_seq; [apply does_identity|]. intros target r1 _ _.
  eapply does_bind; [apply does_inspect|]. intros manifest r2 _ _ _. apply does_check. intros _.
  apply does_seq; [apply does_abortFingerprint|]. intros fingerprint r3 _ _. apply does_check. intros _.
  eapply does_bind; [apply does_command; right; by do 5 eexists|].
  intros m r4 _ _ (_ & control & s & Hr & _ & Hs). cbn beta in Hr.
  eapply does_bind; [apply (does_call _ _ (fun _ => None) (fun _ p => exists e, pg_epochs p !! epochID = Some e /\
    me_Phase e = MailCutoverAborted))|].
  { intros p [] p' Ha. split; [by eapply call_abort|]. by apply (abort_ok (fun _ => True)) in Ha as [? _]. }
  intros u r5 _ _ (_ & He & Hw). apply does_ret. split; [|done]. rewrite Hw, Hs. unfold writable.
  apply transition_ok in Hr as (_ & current & _ & [(_ & -> & _ & ->)|(_ & _ & _ & _ & _ & ->)]); done.
Qed.

(** However a run of [Execute] ends, it took only steps of the installation,
    so one side has authority; and when it succeeds, the marker is published, the
    epoch is active, and the file is retired to that epoch with the reported
    fingerprint. *)
Theorem execute_safe w0 r pages wall ex request result w' :
  fresh w0 -> rtc cut_step (mkRun w0 [] []) r -> Execute pages wall ex request (rn_world r) = (result, w') ->
  exists r', rtc cut_step r r' /\ rn_world r' = w' /\
  forall x, result = inr x ->
    (exists target, w_published w' = Some {| pb_Version := 1; pb_EpochID := xr_EpochID request; pb_TargetIdentity := target;
      pb_SourceFingerprint := xr_SourceFingerprint x |}) /\
    (exists e, pg_epochs (w_pg w') !! xr_EpochID request = Some e /\ me_Phase e = MailCutoverActive) /\
    (exists retired, attests (w_control w') (st_db (w_store w')) retired /\
      mm_EpochID retired = xr_EpochID request /\ mm_Fingerprint retired = xr_SourceFingerprint x).
Proof.
  intros Hf%authority_fresh Hs Hr. apply (authority_steps _ _ Hs) in Hf as Ha.
  destruct (does_Execute pages wall ex request r Ha _ _ Hr) as (r' & Hs' & <- & _ & HQ).
  exists r'. split_and!; [done..|]. intros x Hx. destruct (HQ x Hx) as (_ & _ & _ & target & Hpub).
  split; [by exists target|]. apply (authority_steps _ _ Hs') in Ha as Ha'.
  destruct (at_published _ Ha' _ Hpub) as (e & He & Hp & _ & Hfp). cbn in He, Hfp. split; [by exists e|].
  destruct (at_active _ Ha' _ _ He Hp) as (retired & prepared & Hat & Hid & Hrf & _).
  exists retired. rewrite Hrf. done.
Qed.

(** A successful [AbortExecution] gives the authority back: the relay may
    write its file again and the epoch is aborted; a failed one, too, took only
    steps of the installation. *)
Theorem abort_execution_safe r actor epochID wall result w' :
  AbortExecution actor epochID wall (rn_world r) = (result, w') ->
  exists r', rtc cut_step r r' /\ rn_world r' = w' /\
  forall x, result = inr x -> writable (st_db (w_store w')) = true /\
    exists e, pg_epochs (w_pg w') !! epochID = Some e /\ me_Phase e = MailCutoverAborted.
Proof.
  intros Hr. destruct (does_AbortExecution r actor epochID wall _ _ Hr) as (r' & Hs & <- & _ & HQ).
  exists r'. split_and!; [done..|]. intros x Hx. by apply HQ in Hx.
Qed.
End Executor.
