(* ===== verification/Prepare.v ===== *)
(** * Inspection is the only obstacle to a handover

    Fencing the leases keeps everything the inspector checks, so a source that
    passes inspection can always be prepared. *)

From Stdlib Require Import Ascii.
From S2P Require Import Prelude GoTime RateLimit Quota Text Sha256 Tables Tx Sessions Pending.
From S2P Require Import Invocations Rooms Claims Roles Directory Messages Deliveries QuotaInv Relay.
From S2P Require Import Auth Source QuotaOps History Atomic Fence Handover.
Open Scope Z_scope.

(** ** What fencing keeps *)

Section Kept.
Context {K V : Type} `{Countable K}.
Implicit Types (m : gmap K V).

Lemma has_fmap {W} (f : V -> W) m k : has (f <$> m) k = has m k.
Proof. unfold has. rewrite lookup_fmap. by destruct (m !! k). Qed.

Lemma mexists_fmap (p : K -> V -> bool) (f : V -> V) m :
  mexists p (f <$> m) = mexists (fun k v => p k (f v)) m.
Proof.
  apply eq_true_iff_eq. rewrite !mexists_true. setoid_rewrite lookup_fmap_Some. naive_solver.
Qed.

Lemma mexists_weaken (p q : K -> V -> bool) m :
  (forall k v, m !! k = Some v -> p k v = false -> q k v = false) ->
  mexists p m = false -> mexists q m = false.
Proof. rewrite !mexists_false. eauto. Qed.

Lemma mexists_ext (p q : K -> V -> bool) m :
  (forall k v, p k v = q k v) -> mexists p m = mexists q m.
Proof. intros E. apply eq_true_iff_eq. rewrite !mexists_true. by setoid_rewrite E. Qed.

Lemma keys_fmap (f : V -> V) m : (map_to_list (f <$> m)).*1 = (map_to_list m).*1.
Proof. rewrite map_to_list_fmap, <-list_fmap_compose. by apply list_fmap_ext. Qed.

Lemma values_fmap {B} (g : V -> B) (f : V -> V) m :
  (forall v, g (f v) = g v) -> g <$> (map_to_list (f <$> m)).*2 = g <$> (map_to_list m).*2.
Proof.
  intros E. rewrite map_to_list_fmap, <-!list_fmap_compose. apply list_fmap_ext. intros _ [k v] _. apply E.
Qed.
End Kept.

Section Fenced.
Context `{Env}.
Implicit Types (d : Db).

Lemma unknownRecipient_fenced now d r : unknownRecipient (fencedDb now d) r = unknownRecipient d r.
Proof. unfold unknownRecipient. cbn. by rewrite has_fmap. Qed.

Lemma uuidValues_fenced now d : uuidValues (fencedDb now d) = uuidValues d.
Proof. unfold uuidValues. cbn. by rewrite keys_fmap, values_fmap. Qed.

Lemma foreignKeys_fenced now d : foreignKeysHold (fencedDb now d) = foreignKeysHold d.
Proof.
  unfold foreignKeysHold. f_equal; unfold tableReferences; cbn; rewrite ?mexists_fmap; try done.
Qed.

Lemma fenced_rooms now d : invalidRooms d = false -> invalidRooms (fencedDb now d) = false.
Proof.
  unfold invalidRooms. rewrite !orb_false_iff. cbn. rewrite mexists_fmap.
  intros [[[[He ?] ?] ?] Hm]. split_and!; [|done..|].
  - revert He. apply mexists_weaken. intros _ e _. unfold badEndpointRow. cbn. intros Hb. bool_hyps.
    rewrite !orb_false_iff. split_and!; [apply Z.ltb_ge; lia| |done]. apply Z.ltb_ge. case_match; lia.
  - revert Hm. apply mexists_weaken. intros k _ _. by rewrite has_fmap.
Qed.

Lemma fenced_mail now d : invalidMail d = false -> invalidMail (fencedDb now d) = false.
Proof.
  unfold invalidMail. rewrite !orb_false_iff. cbn. rewrite !mexists_fmap.
  intros [[[[[[? Hf] ?] Hl] Hr] ?] Hc]. split_and!; [done| |done| | |done|].
  - revert Hf. apply mexists_weaken. intros _ m _. by rewrite has_fmap.
  - revert Hl. apply mexists_weaken. intros _ l _ Hb. unfold badLease, badToken in *. cbn. bool_hyps.
    rewrite andb_false_r, !orb_false_r. apply Z.ltb_ge. destruct (isNull (dl_token l)); lia.
  - revert Hr. apply mexists_weaken. intros _ l _. cbn. by rewrite unknownRecipient_fenced.
  - revert Hc. apply mexists_weaken. intros k _ _. by rewrite unknownRecipient_fenced.
Qed.

Lemma fenced_retries now d : invalidRetries d = false -> invalidRetries (fencedDb now d) = false.
Proof.
  unfold invalidRetries. rewrite !orb_false_iff. cbn.
  intros [[[[[[[? ?] ?] ?] ?] Ha] ?] ?]. split_and!; try done.
  revert Ha. apply mexists_weaken. intros _ c _. by rewrite !has_fmap.
Qed.

Lemma fenced_roles now d :
  (forall k e, db_endpoints d !! k = Some e -> 1 <= ep_generation e) ->
  invalidRoles d = false -> invalidRoles (fencedDb now d) = false.
Proof.
  intros Hge. unfold invalidRoles. rewrite !orb_false_iff. cbn. rewrite mexists_fmap.
  intros [[[[[[Hb ?] ?] ?] ?] ?] ?]. split_and!; try done.
  revert Hb. apply mexists_weaken. intros k b _. unfold badBinding. cbn.
  rewrite lookup_fmap. destruct (db_roles d !! k); [|done].
  destruct (db_endpoints d !! bd_session b) as [e|] eqn:He; [|done]. cbn. intros Hb. bool_hyps.
  apply Hge in He. rewrite !orb_false_iff, !negb_false_iff, Z.ltb_ge, Z.eqb_eq. split_and!; try lia;
    by apply bool_decide_eq_true.
Qed.

Lemma fenced_verifies now d :
  verifyMigrationSourceSchema d = inr tt -> verifyMigrationSourceSchema (fencedDb now d) = inr tt.
Proof.
  unfold verifyMigrationSourceSchema. rewrite foreignKeys_fenced.
  change (expectedSchema (fencedDb now d)) with (expectedSchema d).
  change (controlRetriesBound (fencedDb now d)) with (controlRetriesBound d).
  do 2 (destruct (negb _); [done|]). destruct (invalidLogicalState d) eqn:Hl; [done|].
  destruct (negb _); [done|]. intros _. unfold invalidLogicalState in *. rewrite uuidValues_fenced.
  rewrite !orb_false_iff in Hl. destruct Hl as [[[[Hr Hm] Ht] Hu] Ho].
  rewrite fenced_rooms, fenced_mail, fenced_retries, Hu, fenced_roles by
    (try done; unfold invalidRooms in Hr; bool_hyps; intros k e He;
     match goal with H : mexists (fun _ e => badEndpointRow e) _ = false |- _ =>
       rewrite mexists_false in H; apply H in He; unfold badEndpointRow in He; by bool_hyps end).
  done.
Qed.
End Fenced.

(** ** The evidence can still be taken *)

Section Evidence.
Context `{Env}.

Definition portable (v : SqlValue) : bool := match v with VText s => portableText s | _ => true end.

Lemma writeValues_some vs : is_Some (writeValues vs) <-> forallb portable vs = true.
Proof.
  induction vs as [|v vs IH]; simpl; [by split; eauto|]. rewrite andb_true_iff, <-IH.
  destruct (writeMigrationHashValue v) as [l|] eqn:Hv; simpl.
  - assert (portable v = true) as Hp by (destruct v; [done..|]; simpl in *; by destruct (portableText s)).
    rewrite Hp. destruct (writeValues vs); simpl; [|naive_solver congruence].
    split; [|eauto]. eauto.
  - assert (portable v = false) as Hp by (destruct v; [done..|]; simpl in *; by destruct (portableText s)).
    rewrite Hp. split; [intros []|intros []]; done.
Qed.

Lemma forallb_join {A} (p : A -> bool) (l : list (list A)) : forallb p (mjoin l) = forallb (forallb p) l.
Proof. induction l as [|x l IH]; [done|]. simpl. by rewrite forallb_app, IH. Qed.

Definition rowGood (spec : migrationTableSpec) (vs : list SqlValue) : bool :=
  rowValid spec vs && forallb portable vs.

Lemma tableEvidence_some spec d :
  is_Some (tableEvidence spec d) <-> forall r, r ∈ (sp_rows spec d).*2 -> rowGood spec r = true.
Proof.
  unfold tableEvidence, tableStream. transitivity (forallb (rowGood spec) (sp_rows spec d).*2 = true).
  2:{ rewrite forallb_forall. by setoid_rewrite list_elem_of_In. }
  assert (forall l, forallb (rowGood spec) l = forallb (rowValid spec) l && forallb (forallb portable) l) as ->.
  { induction l as [|x l IH]; [done|]. simpl. rewrite IH. unfold rowGood.
    by destruct (rowValid spec x), (forallb portable x), (forallb (rowValid spec) l). }
  rewrite <-forallb_join. destruct (forallb (rowValid spec) _); simpl; [|by split; [intros []|]].
  rewrite <-writeValues_some. destruct (writeValues _); simpl; split; intros []; eauto; done.
Qed.

Lemma orderedRows_elem {K V} `{Countable K} key row (m : gmap K V) r :
  r ∈ (orderedRows key row m).*2 <-> exists k v, m !! k = Some v /\ r = row k v.
Proof.
  unfold orderedRows. rewrite list_elem_of_fmap. setoid_rewrite sortBy_perm.
  setoid_rewrite list_elem_of_fmap. split.
  - intros ([? ?] & -> & [k v] & [= -> ->] & Hm%elem_of_map_to_list). eauto.
  - intros (k & v & Hm & ->). exists (key k, row k v). split; [done|]. exists (k, v).
    split; [done|]. by apply elem_of_map_to_list.
Qed.

(** A table whose rows change only in numbers and vanishing texts. *)
Lemma evidence_fmap {K V} `{Countable K} spec (key : K -> list string) row (f : V -> V) (m : gmap K V) d d' :
  sp_rows spec d = orderedRows key row m -> sp_rows spec d' = orderedRows key row (f <$> m) ->
  (forall k v, m !! k = Some v -> rowGood spec (row k v) = true -> rowGood spec (row k (f v)) = true) ->
  is_Some (tableEvidence spec d) -> is_Some (tableEvidence spec d').
Proof.
  intros E E' Hf. rewrite !tableEvidence_some, E, E'. setoid_rewrite orderedRows_elem.
  intros Hg r (k & v & Hm & ->). rewrite lookup_fmap_Some in Hm. destruct Hm as (w & <- & Hw).
  apply Hf; [done|]. apply Hg. eauto.
Qed.

Lemma tablesEvidence_some specs d :
  is_Some (tablesEvidence specs d) <-> Forall (fun spec => is_Some (tableEvidence spec d)) specs.
Proof.
  induction specs as [|spec specs IH]; simpl; [by split; eauto|]. rewrite Forall_cons, <-IH.
  destruct (tableEvidence spec d); simpl; [|by split; [intros []|intros [[] _]]].
  destruct (tablesEvidence specs d); simpl; split; eauto; by intros [].
Qed.

(** Only a text can fail the rules. *)
Definition keptValue (v v' : SqlValue) : Prop := v' = v \/ forall text, v' <> VText text.

Lemma rowGood_kept spec vs vs' :
  Forall2 keptValue vs vs' -> rowGood spec vs = true -> rowGood spec vs' = true.
Proof.
  unfold rowGood, rowValid. rewrite !andb_true_iff. generalize (sp_columns spec) as columns.
  intros columns Hk. revert columns.
  induction Hk as [|v v' vs vs' Hv _ IH]; intros columns [Hr Hp]; [by destruct columns|].
  simpl in Hp. bool_hyps. assert (portable v' = true) as Hv' by (destruct Hv as [->|Hv]; [done|destruct v'; naive_solver]).
  destruct columns as [|c columns]; simpl in *; rewrite Hv'; simpl.
  - by destruct (IH []) as [_ ->].
  - bool_hyps. destruct (IH columns) as [-> ->]; [done|]. rewrite andb_true_r. split; [|done].
    destruct Hv as [->|Hv]; [done|destruct v'; naive_solver].
Qed.

Lemma kept_same v : keptValue v v.
Proof. by left. Qed.
Lemma kept_int v z : keptValue v (VInt z).
Proof. by right. Qed.
Lemma kept_null v : keptValue v VNull.
Proof. by right. Qed.

Ltac kept_row :=
  intros ? ? _; cbn [nullable fenceEndpointRow fenceBindingRow fenceDeliveryRow
    ep_machine ep_lease_until ep_generation ep_consumer ep_consumer_generation ep_consumer_until
    bd_session bd_machine bd_generation bd_lease_until dl_message dl_recipient dl_machine dl_token
    dl_generation dl_ownership dl_consumer dl_until dl_acked];
  apply rowGood_kept; repeat (apply Forall2_cons; split); try apply Forall2_nil;
  first [apply kept_same|apply kept_int|apply kept_null|exact I].

Lemma ascii_valid l : Forall (fun b => 0 <= b < 128) l -> Utf8.ValidString l = true.
Proof.
  induction 1 as [|b l Hb _ IH]; [done|]. unfold Utf8.ValidString in *.
  rewrite (Utf8Facts.decode_cons (b :: l) true b 1); [|done|].
  - simpl. exact IH.
  - simpl. by destruct (Z.ltb_spec b 128); [|lia].
Qed.

Lemma ContainsByte_elem s c : ContainsByte s c = true -> Z.of_N (N_of_ascii c) ∈ bytesOf s.
Proof.
  unfold ContainsByte. destruct (Cut s c) as [[a b]|] eqn:E; [|done]. intros _.
  apply Cut_Some in E as [-> _]. rewrite bytesOf_app. apply elem_of_app. right. by left.
Qed.

Lemma portable_digest l : portableText (hexEncode (Sha256.Sum256 l)) = true.
Proof.
  destruct (hexEncode_hex (Sha256.Sum256 l) (Sum256_bytes l)) as [_ Hh].
  rewrite forallb_forall in Hh.
  assert (Forall (fun b => 0 < b < 128) (bytesOf (hexEncode (Sha256.Sum256 l)))) as Hb.
  { apply Forall_forall. intros b Hin%list_elem_of_In%Hh. unfold hexByte, Utf8.inRange in Hin.
    apply orb_true_iff in Hin as [Hin|Hin]; bool_hyps; lia. }
  unfold portableText. rewrite ascii_valid by (eapply Forall_impl; [exact Hb|simpl; lia]).
  apply negb_true_iff, not_true_iff_false. intros Hc%ContainsByte_elem.
  rewrite Forall_forall in Hb. apply Hb in Hc. simpl in Hc. lia.
Qed.

Lemma tablesEvidence_texts specs d tables :
  tablesEvidence specs d = Some tables ->
  te_name <$> tables = sp_name <$> specs /\ Forall (fun e => portableText (te_sha256 e) = true) tables.
Proof.
  revert tables. induction specs as [|spec specs IH]; simpl; [by intros ? [= <-]|].
  intros tables (e & He & (es & Hes & [= <-])%bind_Some)%bind_Some.
  apply IH in Hes as [E Hf]. unfold tableEvidence in He. apply bind_Some in He as (stream & _ & [= <-]).
  simpl. split; [by f_equal|]. constructor; [apply portable_digest|done].
Qed.

Lemma overall_some sourceID d tables :
  tablesEvidence migrationTableSpecs d = Some tables ->
  is_Some (writeValues (overallValues sourceID tables)) <-> portableText sourceID = true.
Proof.
  intros [E Hf]%tablesEvidence_texts. rewrite writeValues_some. unfold overallValues.
  cbn [forallb portable]. rewrite forallb_join.
  assert (portableText migrationSourceSchema = true) as -> by (vm_compute; reflexivity).
  split; [intros ?; by bool_hyps|]. intros ->. cbn [andb].
  apply forallb_forall. intros r (e & -> & He)%list_elem_of_In%list_elem_of_fmap. simpl.
  rewrite Forall_forall in Hf. rewrite (Hf e He), !andb_true_r.
  assert (forallb portableText (te_name <$> tables) = true) as Hn by by rewrite E.
  rewrite forallb_forall in Hn. apply Hn, list_elem_of_In, list_elem_of_fmap. eauto.
Qed.

Lemma fenced_evidence sourceID now d :
  is_Some (evidence sourceID d) -> is_Some (evidence sourceID (fencedDb now d)).
Proof.
  unfold evidence. intros [[t f] (tables & Ht & (bytes & Hb & _)%bind_Some)%bind_Some].
  assert (is_Some (tablesEvidence migrationTableSpecs (fencedDb now d))) as [tables' Ht'].
  { apply tablesEvidence_some.
    assert (is_Some (tablesEvidence migrationTableSpecs d)) as Hs%tablesEvidence_some by eauto.
    revert Hs. unfold migrationTableSpecs.
    repeat (intros [Hs1 Hs]%Forall_cons; apply Forall_cons; split; [clear Hs; revert Hs1|clear Hs1; revert Hs]);
      try exact (fun x => x).
    - eapply evidence_fmap; [reflexivity..|]. kept_row.
    - eapply evidence_fmap; [reflexivity..|]. kept_row.
    - eapply evidence_fmap; [reflexivity..|]. kept_row.
    - intros _. by constructor. }
  assert (is_Some (writeValues (overallValues sourceID tables'))) as [bytes' Hb'].
  { apply (overall_some _ _ _ Ht'), (overall_some _ _ _ Ht). eauto. }
  eexists. apply bind_Some. exists tables'. split; [done|]. apply bind_Some. exists bytes'. by split.
Qed.
End Evidence.

(** ** Preparing succeeds *)

Section Progress.
Context `{Env}.

Lemma update_all_run {K V} `{Countable K} (T : Table K V) f s :
  (forall m m' d, t_get T (t_set T m d) = m /\ t_set T m' (t_set T m d) = t_set T m' d /\
    t_set T (t_get T d) d = d) ->
  writable (st_db s) = true ->
  sql_update_where T (fun _ _ => true) f s = (inr tt, with_db (t_set T (f <$> t_get T (st_db s)) (st_db s)) s).
Proof.
  intros HT Hw. destruct (sql_update_where T (fun _ _ => true) f s) as [[e|[]] s'] eqn:E.
  - exfalso. revert E. unfold sql_update_where. erewrite bind_run by reflexivity.
    destruct (mexists _ _); [|done]. erewrite bind_run; [done|].
    apply trigger_run. unfold may_write. by destruct (t_guarded T).
  - f_equal. by apply update_all_ok in E.
Qed.

Lemma fenceLeases_run now s :
  writable (st_db s) = true -> invalidRoles (st_db s) = false ->
  fenceLeases now s = (inr tt, with_db (fencedDb now (st_db s)) s).
Proof.
  intros Hw Hr. unfold fenceLeases.
  erewrite bind_run by (apply update_all_run; [by intros ? ? []|done]).
  erewrite bind_run by reflexivity. erewrite bind_run.
  2:{ apply reject_if_run. cbn. unfold invalidRoles in Hr. bool_hyps.
      match goal with H : mexists (fun k b => badBinding _ k b) _ = false |- _ =>
        revert H; apply mexists_weaken end.
      intros k b _. unfold badBinding. rewrite has_fmap. unfold has.
      destruct (db_roles _ !! k); [|done]. by destruct (db_endpoints _ !! bd_session b). }
  erewrite bind_run by reflexivity.
  erewrite bind_run by (apply update_all_run; [by intros ? ? []|done]).
  rewrite update_all_run; [done|by intros ? ? []|done].
Qed.

(** The run of a preparation that is not refused. *)
Lemma prepare_run control epochID targetIdentity now m s :
  inspectMigrationSource control (st_db s) = inr m -> mm_Phase m = MigrationSourceActive ->
  uuid_Validate epochID = true -> validMigrationDigest targetIdentity = true -> Time.IsZero now = false ->
  exists prepared,
    inspectMigrationSource control (fencedDb now (st_db s)) = inr prepared /\
    PrepareMigrationSource control epochID targetIdentity (mm_Fingerprint m) now s =
      (inr (preparedManifest prepared epochID targetIdentity (mm_Fingerprint m) (ms now),
            preparedControl control epochID targetIdentity (mm_Fingerprint m) (mm_Fingerprint prepared)
              (ms now) now),
       with_db (set_phase MigrationSourcePrepared (fencedDb now (st_db s))) s).
Proof.
  intros Hi Hp Hu Hd Hz.
  pose proof Hi as (Hs & Hv & tables & fingerprint & He & [Hc Hj] & ->)%inspect_iff. cbn in Hp |- *.
  destruct (fenced_evidence (mg_source_id control) now (st_db s)) as [[tables' fingerprint'] He']; [eauto|].
  assert (inspectMigrationSource control (fencedDb now (st_db s)) =
    inr (manifestOf control (db_phase (st_db s)) tables' fingerprint')) as Hi'.
  { apply inspect_iff. split_and!; [done|by apply fenced_verifies|]. exists tables', fingerprint'.
    split; [done|]. unfold controlFits. cbn. rewrite Hp, bool_decide_eq_true_2 in * by done. done. }
  eexists. split; [exact Hi'|].
  unfold PrepareMigrationSource. apply evidence_digest in He as Hg.
  erewrite bind_run by (apply reject_if_run; by rewrite Hu, Hd, Hg, Hz).
  eapply mutate_run; [exact Hi|].
  assert (preparedAlready (manifestOf control (db_phase (st_db s)) tables fingerprint) epochID targetIdentity
    fingerprint (ms now) = false) as ->.
  { unfold preparedAlready. cbn. by rewrite Hp, bool_decide_eq_false_2. }
  erewrite bind_run by (apply reject_if_run; cbn; by rewrite Hp, !bool_decide_eq_true_2).
  erewrite bind_run.
  2:{ apply fenceLeases_run; [unfold writable; by rewrite Hp, bool_decide_eq_true_2|].
      apply verified_state in Hv. unfold invalidLogicalState in Hv. by bool_hyps. }
  erewrite bind_run by (apply inspectNow_ok; split; [exact Hi'|reflexivity]).
  reflexivity.
Qed.

(** Inspection is the only obstacle to a handover: when an active source
    passes inspection, preparing it with the fingerprint just reported, a valid
    epoch and a valid target always succeeds, and what it reports is the digest
    of the fenced tables. *)
Theorem prepare_succeeds control epochID targetIdentity now m s :
  inspectMigrationSource control (st_db s) = inr m -> mm_Phase m = MigrationSourceActive ->
  uuid_Validate epochID = true -> validMigrationDigest targetIdentity = true -> Time.IsZero now = false ->
  exists prepared control',
    PrepareMigrationSource control epochID targetIdentity (mm_Fingerprint m) now s =
      (inr (prepared, control'), with_db (set_phase MigrationSourcePrepared (fencedDb now (st_db s))) s) /\
    mm_Phase prepared = MigrationSourcePrepared /\
    evidence (mg_source_id control) (fencedDb now (st_db s)) =
      Some (mm_Tables prepared, mm_Fingerprint prepared).
Proof.
  intros Hi Hp Hu Hd Hz. destruct (prepare_run _ epochID targetIdentity now _ _ Hi Hp Hu Hd Hz) as (prepared & Hi' & Hr).
  do 2 eexists. split; [exact Hr|]. split; [done|].
  by apply inspect_iff in Hi' as (_ & _ & tables & fingerprint & He & _ & ->).
Qed.

(** A source whose rows are in order passes inspection. *)
Lemma inspect_exists control d :
  uuid_Validate (mg_source_id control) = true -> portableText (mg_source_id control) = true ->
  activeBinding control = true -> validTransition (default "" (mg_last_transition control)) = true ->
  db_phase d = MigrationSourceActive -> verifyMigrationSourceSchema d = inr tt ->
  forallb (fun spec => forallb (rowGood spec) (sp_rows spec d).*2) migrationTableSpecs = true ->
  exists m, inspectMigrationSource control d = inr m /\ mm_Phase m = MigrationSourceActive.
Proof.
  intros Hu Hpt Hb Hj Hp Hv Hrows.
  assert (is_Some (tablesEvidence migrationTableSpecs d)) as [tables Ht].
  { apply tablesEvidence_some, Forall_forall. intros spec Hin. apply tableEvidence_some. intros r Hr.
    rewrite forallb_forall in Hrows. apply list_elem_of_In in Hin. specialize (Hrows spec Hin).
    rewrite forallb_forall in Hrows. by apply Hrows, list_elem_of_In. }
  destruct (proj2 (overall_some (mg_source_id control) d tables Ht) Hpt) as [bytes Hbytes].
  eexists. split; [apply inspect_iff; split_and!; [done..|]|].
  - exists tables, (hexEncode (Sha256.Sum256 bytes)). split.
    + apply bind_Some. exists tables. split; [done|]. apply bind_Some. exists bytes. split; [exact Hbytes|reflexivity].
    + split; [|reflexivity]. unfold controlFits.
      rewrite Hp, bool_decide_eq_true_2 by reflexivity. by split.
  - exact Hp.
Qed.
End Progress.
