(* ===== verification/Transfer.v ===== *)
(** * An export carries every row

    Reading a prepared source page by page returns every row of a table once
    and in order, and rehashing the rows reproduces the evidence of the
    manifest: what the importer verified is what the source holds. *)

From Stdlib Require Import Ascii.
From S2P Require Import Prelude GoTime RateLimit Quota Text Sha256 Tables Tx Sessions Pending.
From S2P Require Import Invocations Rooms Claims Roles Directory Messages Deliveries QuotaInv Relay.
From S2P Require Import Auth Source Export QuotaOps History Paging Atomic Fence Handover Prepare.
Open Scope Z_scope.

(** ** The order of keys *)

Lemma compare_gt a b : String.compare a b = Gt <-> String.compare b a = Lt.
Proof. rewrite (String.compare_antisym a b). by destruct (String.compare b a). Qed.

Lemma compare_refl a : String.compare a a = Eq.
Proof. pose proof (String.compare_antisym a a). by destruct (String.compare a a). Qed.

Lemma compare_lt_trans a b c :
  String.compare a b = Lt -> String.compare b c = Lt -> String.compare a c = Lt.
Proof.
  intros Hab Hbc. assert (bool_rel String.leb a c) as Hac.
  { etransitivity; [instantiate (1 := b)|]; unfold bool_rel, String.leb; [by rewrite Hab|by rewrite Hbc]. }
  unfold bool_rel, String.leb in Hac. destruct (String.compare a c) eqn:E; [|done..].
  apply String.compare_eq_iff in E as ->. apply compare_gt in Hbc. congruence.
Qed.

Lemma keysLe_refl a : keysLe a a = true.
Proof. unfold keysLe. induction a as [|x a IH]; [done|]. simpl. by rewrite compare_refl. Qed.

#[export] Instance keysLe_trans : Transitive (bool_rel keysLe).
Proof.
  unfold bool_rel, keysLe. intros a. induction a as [|x a IH]; intros [|y b] [|z c]; simpl; try done.
  destruct (String.compare x y) eqn:Exy, (String.compare y z) eqn:Eyz; try done; intros Hab Hbc.
  - apply String.compare_eq_iff in Exy as ->, Eyz as ->. rewrite compare_refl. by apply (IH b).
  - apply String.compare_eq_iff in Exy as ->. by rewrite Eyz.
  - apply String.compare_eq_iff in Eyz as ->. by rewrite Exy.
  - by rewrite (compare_lt_trans _ _ _ Exy Eyz).
Qed.

#[export] Instance keysLe_total : Total (bool_rel keysLe).
Proof.
  unfold bool_rel, keysLe. intros a. induction a as [|x a IH]; intros [|y b]; simpl; auto.
  rewrite (String.compare_antisym y x). destruct (String.compare x y); simpl; auto.
Qed.

Definition keyBefore (a b : list string) : Prop := keysLt a b = true.

Lemma keysCompare_eq a b : keysCompare a b = Eq -> a = b.
Proof.
  revert b. induction a as [|x a IH]; intros [|y b]; simpl; try done.
  destruct (String.compare x y) eqn:E; try done. apply String.compare_eq_iff in E as ->.
  intros Hk. f_equal. by apply IH.
Qed.

Lemma keysLe_before a b : bool_rel keysLe a b -> a <> b -> keyBefore a b.
Proof.
  unfold bool_rel, keysLe, keyBefore, keysLt. destruct (keysCompare a b) eqn:E; [|done..].
  by apply keysCompare_eq in E.
Qed.

Lemma keysCompare_antisym a b : keysCompare a b = CompOpp (keysCompare b a).
Proof.
  revert b. induction a as [|x a IH]; intros [|y b]; simpl; try done.
  rewrite (String.compare_antisym x y). by destruct (String.compare y x); simpl.
Qed.

Lemma keyBefore_asymmetric a b : keyBefore a b -> ~ keyBefore b a.
Proof.
  unfold keyBefore, keysLt. rewrite (keysCompare_antisym a b). by destruct (keysCompare b a).
Qed.

(** ** The rows of a table *)

Definition rowBefore (a b : list string * list SqlValue) : Prop := keyBefore a.1 b.1.

Lemma orderedRows_sorted {K V} `{Countable K} (key : K -> list string) row (m : gmap K V) :
  Inj (=) (=) key -> StronglySorted rowBefore (orderedRows key row m).
Proof.
  intros Hk. unfold orderedRows. set (l := _ <$> map_to_list m).
  assert (NoDup l.*1) as Hnd.
  { unfold l. rewrite <-list_fmap_compose.
    rewrite (list_fmap_ext _ (key ∘ fst)) by done. rewrite list_fmap_compose.
    apply (NoDup_fmap_2 key), NoDup_fst_map_to_list. }
  assert (StronglySorted (bool_rel (fun a b => keysLe a.1 b.1)) (sortBy (fun a b => keysLe a.1 b.1) l)) as Hs.
  { apply StronglySorted_merge_sort.
    - intros a b c. apply (keysLe_trans a.1 b.1 c.1).
    - intros a b. apply (keysLe_total a.1 b.1). }
  assert (NoDup (sortBy (fun a b => keysLe a.1 b.1) l).*1) as Hnd2 by by rewrite sortBy_perm.
  induction Hs as [|r rs Hs IH Hr]; [constructor|]. simpl in Hnd2. apply NoDup_cons in Hnd2 as [Hn Hnd2].
  constructor; [by apply IH|]. rewrite Forall_forall in Hr |- *. intros r' Hr'. apply keysLe_before.
  - by apply Hr.
  - intros E. apply Hn. rewrite E. by apply list_elem_of_fmap_2.
Qed.

#[export] Instance one_inj : Inj (=) (=) one.
Proof. by intros a b [= ->]. Qed.
#[export] Instance two_inj : Inj (=) (=) two.
Proof. by intros [a b] [c d] [= -> ->]. Qed.

(** Every exported table: its rows are sorted by key, a row has a value per
    column, and the target names the table. *)
Record specWf (spec : migrationTableSpec) : Prop := {
  wf_sorted : forall d, StronglySorted rowBefore (sp_rows spec d);
  wf_width : forall d r, r ∈ sp_rows spec d -> length r.2 = length (sp_columns spec);
  wf_keys : forall d r, r ∈ sp_rows spec d -> length r.1 = sp_keys spec;
  wf_columns : NoDup (sp_columns spec);
  wf_nonempty : sp_columns spec <> [];
  wf_lookup : columnSpec (sp_target spec) = Some spec;
}.

Lemma orderedRows_shape {K V} `{Countable K} key row (m : gmap K V) r :
  r ∈ orderedRows key row m -> exists k v, r = (key k, row k v).
Proof.
  unfold orderedRows. rewrite sortBy_perm. intros ([k v] & -> & _)%list_elem_of_fmap. eauto.
Qed.

Lemma specs_wf : Forall specWf migrationTableSpecs.
Proof.
  unfold migrationTableSpecs.
  repeat (apply Forall_cons; split); try (by constructor);
    (split; [intros d; apply orderedRows_sorted; apply _
            |intros d r (? & ? & ->)%orderedRows_shape; reflexivity
            |intros d r (? & ? & ->)%orderedRows_shape; reflexivity
            |apply (bool_decide_unpack _); vm_compute; exact I
            |done
            |reflexivity]).
Qed.

(** ** Resume keys *)

Lemma splitKey_nonempty s : splitKey s <> [].
Proof. destruct s as [|c s]; simpl; [done|]. case_bool_decide; [done|]. by destruct (splitKey s). Qed.

Lemma splitKey_part p : ContainsByte p unitSeparator = false -> splitKey p = [p].
Proof.
  unfold ContainsByte. induction p as [|c p IH]; [done|]. simpl.
  case_bool_decide as Hc; [by subst|]. destruct (Cut p unitSeparator) as [[? ?]|]; [done|].
  intros _. by rewrite IH.
Qed.

Lemma splitKey_app p s :
  ContainsByte p unitSeparator = false -> splitKey (p +:+ String unitSeparator s) = p :: splitKey s.
Proof.
  unfold ContainsByte. induction p as [|c p IH]; [done|]. simpl.
  case_bool_decide as Hc; [by subst|]. destruct (Cut p unitSeparator) as [[? ?]|]; [done|].
  intros _. by rewrite IH.
Qed.

Lemma splitKey_encode parts :
  parts <> [] -> existsb badPart parts = false -> splitKey (encodeMigrationRowKey parts) = parts.
Proof.
  induction parts as [|p parts IH]; [done|]. intros _ Hb. simpl in Hb. bool_hyps.
  assert (ContainsByte p unitSeparator = false) as Hp by (unfold badPart in *; by bool_hyps).
  destruct parts as [|q parts]; [by apply splitKey_part|].
  change (splitKey (p +:+ String unitSeparator (encodeMigrationRowKey (q :: parts))) = p :: q :: parts).
  rewrite splitKey_app by done. f_equal. by apply IH.
Qed.

(** ** Pages *)

Section Pages.
Context `{Env, RowJson}.
Implicit Types (r : list string * list SqlValue).

Definition exported (spec : migrationTableSpec) r : MigrationSourceRow := {|
  mr_Table := sp_target spec; mr_Key := encodeMigrationRowKey r.1; mr_Payload := payloadOf spec r.2;
  mr_SHA256 := hexEncode (Sha256.Sum256 (payloadOf spec r.2)) |}.

(** A value as SQLite stores it: a 64-bit integer, or text whose length fits. *)
Definition boundedValue (v : SqlValue) : Prop :=
  match v with VNull => True | VInt z => - 2 ^ 63 <= z < 2 ^ 63 | VText s => goLen s < 2 ^ 64 end.

(** The key and the payload are within the limits of an exported row. *)
Definition exportable (spec : migrationTableSpec) r : Prop :=
  badKey r.1 = false /\ payloadOf spec r.2 <> [] /\
  Z.of_nat (length (payloadOf spec r.2)) <= MaxMigrationSourcePayloadBytes.

Lemma exportRow_run spec r :
  exportable spec r -> exportRow spec r.1 r.2 = Some (exported spec r).
Proof.
  intros (_ & Hp & Hl). unfold exportRow. rewrite bool_decide_eq_false_2 by done. cbn [orb].
  by destruct (Z.ltb_spec MaxMigrationSourcePayloadBytes (Z.of_nat (length (payloadOf spec r.2)))); [lia|].
Qed.

Definition lastKey (next : string) (rows : list MigrationSourceRow) : string :=
  match last rows with Some row => mr_Key row | None => next end.

Lemma exportRows_run spec rows room done next :
  Forall (exportable spec) rows ->
  exportRows spec rows room done next = Some {|
    mb_Rows := done ++ (exported spec <$> take room rows);
    mb_NextKey := lastKey next (exported spec <$> take room rows);
    mb_Done := bool_decide (length rows <= room)%nat |}.
Proof.
  intros Hf. revert room done next. induction Hf as [|[key vs] rows Hr _ IH]; intros room done next.
  { simpl. rewrite take_nil. simpl. rewrite app_nil_r. done. }
  pose proof (exportRow_run _ _ Hr) as He. destruct Hr as (Hk & _). simpl in Hk, He |- *. rewrite Hk.
  destruct room as [|room]; [by rewrite app_nil_r|]. rewrite He. simpl. rewrite IH. f_equal. f_equal.
  - by rewrite <-(assoc_L (++)).
  - unfold lastKey. rewrite last_cons. by destruct (last _).
  - apply bool_decide_ext. lia.
Qed.

(** The key to resume from after [seen]. *)
Definition key_at (seen : list (list string * list SqlValue)) (after : string) : Prop :=
  match last seen with Some r => after = encodeMigrationRowKey r.1 | None => after = "" end.

Lemma encode_nonempty key : badKey key = false -> encodeMigrationRowKey key <> "".
Proof. unfold badKey. intros Hb E. rewrite E in Hb. bool_hyps. done. Qed.

Lemma rows_after (l1 l2 : list (list string * list SqlValue)) x :
  StronglySorted rowBefore (l1 ++ x :: l2) ->
  filter (fun r => keysLt x.1 r.1 = true) (l1 ++ x :: l2) = l2.
Proof.
  intros Hs. rewrite filter_app, filter_cons_False by (intros Hx; by apply (keyBefore_asymmetric x.1 x.1)).
  rewrite filter_empty, filter_all; [done|..].
  - intros r Hr. apply StronglySorted_app_1_r in Hs. apply StronglySorted_inv in Hs as [_ Hx].
    rewrite Forall_forall in Hx. by apply Hx.
  - intros r Hr. apply keyBefore_asymmetric.
    apply (StronglySorted_app_1_elem_of rowBefore _ _ r x Hs); set_solver.
Qed.

Lemma resume_rest spec d seen rest after :
  specWf spec -> Forall (exportable spec) (sp_rows spec d) -> sp_rows spec d = seen ++ rest ->
  key_at seen after ->
  exists from, (if bool_decide (after = "") then Some None
                else match resumeKey spec d after with Some key => Some (Some key) | None => None end) = Some from /\
    rowsAfter spec d from = rest.
Proof.
  intros Hw Hf Hd Hc. unfold key_at in Hc. destruct (last seen) as [r|] eqn:Hl.
  - apply last_Some in Hl as [seen' ->]. rewrite <-(assoc_L (++)) in Hd. simpl in Hd.
    assert (r ∈ sp_rows spec d) as Hr by (rewrite Hd; set_solver).
    destruct (proj1 (Forall_forall _ _) Hf r Hr) as (Hk & _). exists (Some r.1). subst after.
    rewrite bool_decide_eq_false_2 by by apply encode_nonempty. unfold resumeKey.
    pose proof (wf_keys _ Hw _ _ Hr) as Hlen.
    assert (existsb badPart r.1 = false) as Hb by (unfold badKey in Hk; by bool_hyps).
    rewrite splitKey_encode; [|intros E; by rewrite E in Hk|done].
    rewrite Hlen, Nat.eqb_refl, Hb. simpl.
    assert (existsb (fun row => bool_decide (row.1 = r.1)) (sp_rows spec d) = true) as ->.
    { apply existsb_exists. exists r. split; [by apply list_elem_of_In|by apply bool_decide_eq_true]. }
    split; [done|]. simpl. pose proof (wf_sorted _ Hw d) as Hs. rewrite Hd in Hs |- *. by apply rows_after.
  - apply last_None in Hl as ->. subst. exists None. by rewrite bool_decide_eq_true_2.
Qed.

(** The client's loop: pages until the last one. *)
Fixpoint exportTable (pages : nat) (control : MigrationControl) (table afterKey : string) (limit : Z)
    : M (list MigrationSourceRow) :=
  match pages with
  | O => throw ErrDiverges
  | S pages =>
      batch ← ReadMigrationSourceBatch control table afterKey limit;
      if mb_Done batch then mret (mb_Rows batch)
      else rest ← exportTable pages control table (mb_NextKey batch) limit; mret (mb_Rows batch ++ rest)
  end.

(** One page: the next [limit] rows and whether they are the last. *)
Lemma batch_run control spec seen rest after limit m s :
  specWf spec -> Forall (exportable spec) (sp_rows spec (st_db s)) ->
  inspectMigrationSource control (st_db s) = inr m -> mm_Phase m = MigrationSourcePrepared ->
  1 <= limit <= maxMigrationBatchRows -> sp_rows spec (st_db s) = seen ++ rest -> key_at seen after ->
  ReadMigrationSourceBatch control (sp_target spec) after limit s = (inr {|
    mb_Rows := exported spec <$> take (Z.to_nat limit) rest;
    mb_NextKey := lastKey "" (exported spec <$> take (Z.to_nat limit) rest);
    mb_Done := bool_decide (length rest <= Z.to_nat limit)%nat |}, s).
Proof.
  intros Hw Hf Hi Hp Hlim Hd Hc. unfold ReadMigrationSourceBatch.
  erewrite bind_run by (apply reject_if_run; apply orb_false_iff; rewrite !Z.ltb_ge; lia).
  rewrite (wf_lookup _ Hw). unfold rolled_back.
  erewrite bind_run by (by apply inspectNow_ok).
  erewrite bind_run by (apply reject_if_run; by rewrite Hp).
  erewrite bind_run by reflexivity.
  destruct (resume_rest spec (st_db s) seen rest after Hw Hf Hd Hc) as (from & Hfrom & Hrest).
  erewrite (bind_run _ _ _ from).
  2:{ case_bool_decide; [by injection Hfrom as <-|]. destruct (resumeKey _ _ _); by simplify_eq. }
  rewrite Hrest, exportRows_run.
  - cbn [app]. rewrite take_take, Nat.min_l by lia.
    rewrite (bool_decide_ext _ (length rest <= Z.to_nat limit)%nat);
      [by destruct s|]. rewrite length_take. lia.
  - rewrite Hd in Hf. apply Forall_app in Hf as [_ Hf]. by apply Forall_take.
Qed.

Lemma export_rest control spec limit m s pages seen rest after :
  specWf spec -> Forall (exportable spec) (sp_rows spec (st_db s)) ->
  inspectMigrationSource control (st_db s) = inr m -> mm_Phase m = MigrationSourcePrepared ->
  1 <= limit <= maxMigrationBatchRows ->
  sp_rows spec (st_db s) = seen ++ rest -> key_at seen after ->
  (0 < pages)%nat -> Z.of_nat (length rest) <= Z.of_nat pages * limit ->
  exportTable pages control (sp_target spec) after limit s = (inr (exported spec <$> rest), s).
Proof.
  intros Hw Hf Hi Hp Hlim. revert seen rest after. induction pages as [|pages IH]; [lia|].
  intros seen rest after Hd Hc _ Hlen. cbn [exportTable].
  erewrite bind_run by (by eapply batch_run). cbn [mb_Done mb_Rows mb_NextKey].
  case_bool_decide as Hdone; [by rewrite take_ge|].
  assert (exportTable pages control (sp_target spec)
    (lastKey "" (exported spec <$> take (Z.to_nat limit) rest)) limit s =
    (inr (exported spec <$> drop (Z.to_nat limit) rest), s)) as Hr.
  { apply (IH (seen ++ take (Z.to_nat limit) rest)).
    - by rewrite <-(assoc_L (++)), take_drop.
    - unfold key_at, lastKey. rewrite last_app, fmap_last.
      destruct (last (take (Z.to_nat limit) rest)) eqn:E; [done|exfalso].
      apply last_None, (f_equal length) in E. rewrite length_take in E. simpl in E. lia.
    - destruct pages; lia.
    - rewrite length_drop. lia. }
  erewrite bind_run by exact Hr. unfold mret, M_ret. by rewrite <-fmap_app, take_drop.
Qed.
End Pages.

(** ** Rehashing *)

Section Rehash.
Context `{Env, RowJson}.

(** The JSON value a column is decoded as. *)
Definition toJson (v : SqlValue) : JsonValue :=
  match v with VNull => JNull | VInt z => JNumber (Some z) | VText s => JString s end.

(** Decoding what [json.Marshal] wrote for a row of [int64], [nil] and UTF-8
    strings gives the row back. *)
Class RowJsonRoundTrip : Prop :=
  json_round_trip (row : gmap string SqlValue) :
    map_Forall (fun _ v => portable v = true /\ boundedValue v) row ->
    json_Decode (json_Marshal row) = Some (toJson <$> row).

Fixpoint hashRows (h : MigrationTableHasher) (rows : list MigrationSourceRow) : option MigrationTableHasher :=
  match rows with
  | [] => Some h
  | row :: rows => h ← hasher_Add h row; hashRows h rows
  end.

Lemma writeValues_app vs ws l :
  writeValues (vs ++ ws) = Some l ->
  exists l1 l2, writeValues vs = Some l1 /\ writeValues ws = Some l2 /\ l = l1 ++ l2.
Proof.
  revert l. induction vs as [|v vs IH]; intros l; [intros; by exists [], l|]. simpl.
  intros (x & Hx & (y & (l1 & l2 & Hv & Hw & ->)%IH & [= <-])%bind_Some)%bind_Some.
  exists (x ++ l1), l2. rewrite Hx. simpl. rewrite Hv. simpl. by rewrite (assoc_L (++)).
Qed.

Lemma hashedValue_toJson v : hashedValue (toJson v) = writeMigrationHashValue v.
Proof. by destruct v. Qed.

Lemma hashColumns_run table columns vs payload l :
  length vs = length columns ->
  (forall c v, (c, v) ∈ zip columns vs -> payload !! c = Some (toJson v)) ->
  writeValues vs = Some l -> hashColumns table columns payload = Some (l, length columns).
Proof.
  revert vs l. induction columns as [|c columns IH]; intros [|v vs] l Hl Hp Hw; try done; simpl in *.
  { by injection Hw as <-. }
  apply bind_Some in Hw as (x & Hx & (y & Hy & [= <-])%bind_Some).
  rewrite (Hp c v) by set_solver. rewrite hashedValue_toJson, Hx. simpl.
  rewrite (IH vs y); [done|lia| |done]. intros c' v' Hin. apply Hp. set_solver.
Qed.

(** The number of columns found is the number of columns of the payload. *)
Lemma payload_size (columns : list string) (vs : list SqlValue) :
  NoDup columns -> length vs = length columns ->
  size (list_to_map (M := gmap string SqlValue) (zip columns vs)) = length columns.
Proof.
  intros Hnd Hl. rewrite <-length_map_to_list, map_to_list_to_map.
  - rewrite length_zip_with, Hl. lia.
  - by rewrite fst_zip by lia.
Qed.

Lemma hasher_Add_run `{!RowJsonRoundTrip} spec r l h :
  specWf spec -> exportable spec r -> length r.2 = length (sp_columns spec) ->
  writeValues r.2 = Some l -> Forall boundedValue r.2 ->
  th_table h = sp_target spec -> th_columns h = sp_columns spec ->
  hasher_Add h (exported spec r) = Some {| th_table := th_table h; th_columns := th_columns h;
    th_stream := th_stream h ++ l; th_count := th_count h + 1 |}.
Proof.
  intros Hw (Hk & Hp & Hz) Hl Hv Hi Ht Hc. unfold hasher_Add. cbn [mr_Table mr_Key mr_Payload mr_SHA256 exported].
  pose proof (encode_nonempty _ Hk) as Hne. unfold badKey in Hk. bool_hyps.
  rewrite Ht, Hc, !bool_decide_eq_true_2, !bool_decide_eq_false_2 by done. cbn [negb orb].
  rewrite (proj2 (Z.ltb_ge 4096 _)), (proj2 (Z.ltb_ge MaxMigrationSourcePayloadBytes _)) by done.
  pose proof (digest_valid (payloadOf spec r.2)) as Hdig. unfold validMigrationDigest in Hdig.
  apply andb_true_iff in Hdig as [Hd1 Hd2]. unfold badDigest. rewrite Hd1, Hd2. cbn [negb orb].
  assert (forallb portable r.2 = true) as Hport by (apply writeValues_some; eauto).
  rewrite forallb_forall in Hport. rewrite Forall_forall in Hi. unfold payloadOf.
  rewrite json_round_trip.
  2:{ intros c v Hcv%elem_of_list_to_map_2%elem_of_zip_r. split; [by apply Hport, list_elem_of_In|by apply Hi]. }
  cbn [mbind option_bind]. rewrite (hashColumns_run _ _ r.2 _ l Hl).
  - cbn [mbind option_bind]. rewrite map_size_fmap, payload_size; [|apply Hw|done].
    by rewrite bool_decide_eq_true_2, Nat.eqb_refl.
  - intros c v Hin. rewrite lookup_fmap, (elem_of_list_to_map_1 _ c v); [done| |done].
    rewrite fst_zip by lia. apply Hw.
  - done.
Qed.

Lemma hashRows_run `{!RowJsonRoundTrip} spec rows l h :
  specWf spec -> Forall (exportable spec) rows ->
  Forall (fun r => length r.2 = length (sp_columns spec) /\ Forall boundedValue r.2) rows ->
  writeValues (mjoin rows.*2) = Some l ->
  th_table h = sp_target spec -> th_columns h = sp_columns spec ->
  hashRows h (exported spec <$> rows) = Some {| th_table := th_table h; th_columns := th_columns h;
    th_stream := th_stream h ++ l; th_count := th_count h + Z.of_nat (length rows) |}.
Proof.
  intros Hw. revert l h. induction rows as [|r rows IH]; intros l h He Hr Hv Ht Hc.
  { injection Hv as <-. simpl. rewrite app_nil_r, Z.add_0_r. by destruct h. }
  apply Forall_cons in He as [He1 He], Hr as [[Hr1 Hi1] Hr]. cbn in Hv.
  apply writeValues_app in Hv as (l1 & l2 & Hv1 & Hv2 & ->).
  cbn [fmap list_fmap hashRows]. erewrite hasher_Add_run by done. cbn [mbind option_bind].
  rewrite (IH l2) by done. cbn [th_table th_columns th_stream th_count length].
  rewrite <-(assoc_L (++)). do 2 f_equal. lia.
Qed.

Lemma tablesEvidence_elem specs d tables spec :
  tablesEvidence specs d = Some tables -> spec ∈ specs ->
  exists stream, writeValues (mjoin (sp_rows spec d).*2) = Some stream /\
    {| te_name := sp_name spec; te_count := Z.of_nat (length (sp_rows spec d));
       te_sha256 := hexEncode (Sha256.Sum256 stream) |} ∈ tables.
Proof.
  revert tables. induction specs as [|spec' specs IH]; intros tables; [set_solver|]. simpl.
  intros (e & He & (es & Hes & [= <-])%bind_Some)%bind_Some [->|Hin]%elem_of_cons.
  - unfold tableEvidence, tableStream in He. apply bind_Some in He as (stream & Hs & [= <-]).
    destruct (forallb _ _); [|done]. exists stream. split; [done|]. by left.
  - destruct (IH es Hes Hin) as (stream & ? & ?). exists stream. split; [done|]. by right.
Qed.

End Rehash.

(** ** A digest commits to the rows *)

Section Commitment.
Context `{Env}.

Lemma be_inj n a b : 0 <= a < 256 ^ Z.of_nat n -> 0 <= b < 256 ^ Z.of_nat n ->
  Sha256.be n a = Sha256.be n b -> a = b.
Proof.
  revert a b. induction n as [|n IH]; intros a b Ha Hb E.
  { simpl in Ha, Hb. lia. }
  rewrite Nat2Z.inj_succ, Z.pow_succ_r in Ha, Hb by lia. simpl in E.
  apply app_inj_2 in E as [E [= Em]]; [|done].
  apply IH in E; [|split; [apply Z.div_pos|apply Z.div_lt_upper_bound]; lia..].
  rewrite (Z.div_mod a 256), (Z.div_mod b 256) by lia. congruence.
Qed.

Lemma frame_inj k k' body body' rest rest' :
  Z.of_nat (length body) < 2 ^ 64 -> Z.of_nat (length body') < 2 ^ 64 ->
  frame k body ++ rest = frame k' body' ++ rest' -> k = k' /\ body = body' /\ rest = rest'.
Proof.
  intros Hb Hb' E. unfold frame in E. rewrite <-!app_comm_cons in E.
  assert (forall (a b : Z) l l', a :: l = b :: l' -> a = b /\ l = l') as Hcons by (by intros ? ? ? ? [= -> ->]).
  apply Hcons in E as [-> E].
  rewrite <-!(assoc_L (++)) in E.
  apply app_inj_1 in E as [El E]; [|by rewrite !be_length].
  apply be_inj, Nat2Z.inj in El; [|split; [lia|exact Hb]|split; [lia|exact Hb']].
  by apply app_inj_1 in E as [-> ->].
Qed.

Lemma writeValue_inj v v' l l' rest rest' :
  boundedValue v -> boundedValue v' -> writeMigrationHashValue v = Some l ->
  writeMigrationHashValue v' = Some l' -> l ++ rest = l' ++ rest' -> v = v' /\ rest = rest'.
Proof.
  assert (forall w x, writeMigrationHashValue w = Some x -> boundedValue w ->
    exists k body, x = frame k body /\ Z.of_nat (length body) < 2 ^ 64 /\
    (w = VNull /\ k = 0 \/ (exists z, w = VInt z /\ k = 1 /\ body = Sha256.be 8 (wrapu64 z)) \/
     (exists s, w = VText s /\ k = 2 /\ body = bytesOf s))) as Hshape.
  { intros [|z|s] x Hw Hb; simpl in Hw; simplify_eq.
    - exists 0, []. split_and!; [done..|by left].
    - exists 1, (Sha256.be 8 (wrapu64 z)). rewrite be_length. split_and!; [done..|]. right. left. eauto.
    - destruct (portableText s); simplify_eq. exists 2, (bytesOf s). split_and!; [done..|]. right. right. eauto. }
  intros Hb Hb' Hv Hv' E.
  destruct (Hshape _ _ Hv Hb) as (k & body & -> & Hl & Hc).
  destruct (Hshape _ _ Hv' Hb') as (k' & body' & -> & Hl' & Hc').
  apply frame_inj in E as (-> & -> & ->); [|done..]. split; [|done].
  destruct Hc as [[-> Hk]|[(z & -> & Hk & Eb)|(s & -> & Hk & Eb)]];
    destruct Hc' as [[-> Hk']|[(z' & -> & Hk' & Eb')|(s' & -> & Hk' & Eb')]]; try lia; [done|..].
  - f_equal. rewrite Eb in Eb'. apply be_inj in Eb'; [|unfold wrapu64; apply Z.mod_pos_bound; lia..].
    simpl in Hb, Hb'. unfold wrapu64 in Eb'. revert Eb'. rewrite !Z.mod_eq by lia. intros Eb'.
    pose proof (Z.mod_pos_bound z (2 ^ 64)). pose proof (Z.mod_pos_bound z' (2 ^ 64)). nia.
  - f_equal. by rewrite <-(ofBytes_bytesOf s), <-(ofBytes_bytesOf s'), <-Eb, <-Eb'.
Qed.

Lemma writeValues_inj vs vs' l :
  Forall boundedValue vs -> Forall boundedValue vs' -> writeValues vs = Some l -> writeValues vs' = Some l ->
  vs = vs'.
Proof.
  intros Hb. revert vs' l. induction Hb as [|v vs Hv _ IH]; intros vs' l Hb' Hw Hw'.
  - simpl in Hw. simplify_eq. destruct Hb' as [|v' vs' _ _]; [done|]. exfalso. simpl in Hw'.
    apply bind_Some in Hw' as (x & Hx & (y & _ & E)%bind_Some). destruct v'; simpl in Hx; simplify_eq.
    destruct (portableText s); by simplify_eq.
  - simpl in Hw. apply bind_Some in Hw as (x & Hx & (y & Hy & [= <-])%bind_Some).
    destruct Hb' as [|v' vs' Hv' Hb'].
    { exfalso. simpl in Hw'. injection Hw' as E. destruct v; simpl in Hx; simplify_eq.
      destruct (portableText s); by simplify_eq. }
    simpl in Hw'. apply bind_Some in Hw' as (x' & Hx' & (y' & Hy' & [= E])%bind_Some).
    apply (writeValue_inj v' v x' x) in E as [-> ->]; [|done..]. f_equal. by eapply IH.
Qed.

Lemma join_inj {A} n (ls ks : list (list A)) :
  (0 < n)%nat -> Forall (fun l => length l = n) ls -> Forall (fun l => length l = n) ks ->
  mjoin ls = mjoin ks -> ls = ks.
Proof.
  intros Hn Hl. revert ks. induction Hl as [|l ls Hl _ IH]; intros ks Hk E; destruct Hk as [|k ks Hk Hks].
  - done.
  - exfalso. apply (f_equal length) in E. simpl in E. rewrite length_app in E. lia.
  - exfalso. apply (f_equal length) in E. simpl in E. rewrite length_app in E. lia.
  - simpl in E. apply app_inj_1 in E as [-> E]; [|lia]. f_equal. by apply IH.
Qed.

(** A digest commits to its table: two stores from which the same bytes are
    hashed for a table have the same rows in it, value for value, so only a
    collision of SHA-256 can make two different tables look alike. *)
Theorem stream_commits spec d d' stream :
  spec ∈ migrationTableSpecs -> tableStream spec d = Some stream -> tableStream spec d' = Some stream ->
  Forall (fun r => Forall boundedValue r.2) (sp_rows spec d) ->
  Forall (fun r => Forall boundedValue r.2) (sp_rows spec d') ->
  (sp_rows spec d).*2 = (sp_rows spec d').*2.
Proof.
  intros Hin Hs Hs' Hb Hb'. pose proof (proj1 (Forall_forall _ _) specs_wf spec Hin) as Hw.
  unfold tableStream in Hs, Hs'. destruct (forallb _ _); [|done]. destruct (forallb _ _); [|done].
  apply (join_inj (length (sp_columns spec))).
  - pose proof (wf_nonempty _ Hw). destruct (sp_columns spec); [done|simpl; lia].
  - apply Forall_fmap, Forall_forall. intros r. by apply wf_width.
  - apply Forall_fmap, Forall_forall. intros r. by apply wf_width.
  - eapply writeValues_inj; [..|exact Hs|exact Hs']; by apply Forall_join, Forall_fmap.
Qed.
End Commitment.
