(* ===== verification/Exactness.v ===== *)
(** * What is activated is what was retired

    The rows an epoch puts into the mail tables are those of the retired file:
    the digests the destination verified commit to every row, so only a
    collision of SHA-256 could make them differ. *)

From S2P Require Import Prelude GoTime RateLimit Quota Text Sha256 Tables Tx Sessions Pending.
From S2P Require Import Invocations Rooms Claims Roles Directory Messages Deliveries QuotaInv Relay.
From S2P Require Import Auth Source Export Destination Cutover Epochs QuotaOps History Atomic Fence Handover.
From S2P Require Import Prepare Transfer Authority.
Open Scope Z_scope.

(** ** Evidence *)

Lemma present8 m table : mm_Version m = 8 -> MigrationSourceTablePresent m table = true.
Proof.
  intros Hv. unfold MigrationSourceTablePresent, IsLegacyTelegramMigrationSource. rewrite Hv. cbn.
  by rewrite ?andb_false_r.
Qed.

Lemma head_filter_name (tables : list TableEvidence) e :
  NoDup (te_name <$> tables) -> e ∈ tables ->
  head (filter (fun e' => te_name e' = te_name e) tables) = Some e.
Proof.
  induction tables as [|x tables IH]; [by intros _ ?%elem_of_nil|]. cbn. intros [Hn Hnd]%NoDup_cons [->|Hin]%elem_of_cons.
  - by rewrite decide_True.
  - rewrite decide_False; [by apply IH|]. intros E. apply Hn. rewrite E. by apply list_elem_of_fmap_2.
Qed.

Lemma evidenceOf_elem m e :
  NoDup (te_name <$> mm_Tables m) -> e ∈ mm_Tables m -> evidenceOf m (te_name e) = (te_count e, te_sha256 e).
Proof. intros Hnd Hin. unfold evidenceOf. by rewrite (head_filter_name _ e). Qed.

Lemma specs_targets : Forall (fun spec => sp_target spec ∈ mailCutoverTables) migrationTableSpecs.
Proof. apply (bool_decide_unpack _). vm_compute. exact I. Qed.

Lemma specs_names : NoDup (sp_name <$> migrationTableSpecs).
Proof. apply (bool_decide_unpack _). vm_compute. exact I. Qed.

Section Evidence.
Context `{Env}.

Lemma tablesEvidence_names specs d tables :
  tablesEvidence specs d = Some tables -> te_name <$> tables = sp_name <$> specs.
Proof.
  revert tables. induction specs as [|spec specs IH]; intros tables; simpl; [by intros [= <-]|].
  intros (e & (stream & _ & [= <-])%bind_Some & (es & Hes%IH & [= <-])%bind_Some)%bind_Some. cbn. by rewrite Hes.
Qed.

Lemma sameMailCutoverSource_ok prepared retired spec :
  sameMailCutoverSource prepared retired = true -> spec ∈ migrationTableSpecs ->
  mm_Version prepared = mm_Version retired /\ evidenceOf prepared (sp_name spec) = evidenceOf retired (sp_name spec).
Proof.
  unfold sameMailCutoverSource. intros Hs Hin. bool_hyps. split; [done|].
  match goal with Hf : forallb _ _ = true |- _ => rewrite forallb_forall in Hf; apply list_elem_of_In, Hf in Hin end.
  by apply bool_decide_eq_true in Hin.
Qed.

(** What a manifest records of a table. *)
Lemma evidenceOf_tables m d spec :
  tablesEvidence migrationTableSpecs d = Some (mm_Tables m) -> spec ∈ migrationTableSpecs ->
  exists stream, writeValues (mjoin (sp_rows spec d).*2) = Some stream /\
    evidenceOf m (sp_name spec) = (Z.of_nat (length (sp_rows spec d)), hexEncode (Sha256.Sum256 stream)).
Proof.
  intros Hts Hin. destruct (tablesEvidence_elem _ _ _ spec Hts Hin) as (stream & Hstream & Helem). exists stream.
  split; [done|]. refine (evidenceOf_elem m _ _ Helem). rewrite (tablesEvidence_names _ _ _ Hts). exact specs_names.
Qed.

(** What an epoch expects of a table. *)
Lemma expected_evidence m spec count stream :
  mm_Version m = 8 -> spec ∈ migrationTableSpecs ->
  evidenceOf m (sp_name spec) = (count, hexEncode (Sha256.Sum256 stream)) ->
  mailCutoverTableEvidence m (sp_target spec) = (count, hexEncode (Sha256.Sum256 stream)).
Proof.
  intros Hv Hin He. unfold mailCutoverTableEvidence. rewrite present8 by exact Hv. cbn [negb].
  rewrite (wf_lookup _ (proj1 (Forall_forall _ _) specs_wf spec Hin)), He.
  rewrite (bool_decide_eq_false_2 (_ = "")), andb_false_r; [done|].
  intros E. pose proof (digest_valid stream) as Hd. by rewrite E in Hd.
Qed.

(** The same, when the file attests it. *)
Lemma attested_evidence control d prepared retired spec :
  attests control d retired -> sameMailCutoverSource prepared retired = true -> spec ∈ migrationTableSpecs ->
  exists stream, writeValues (mjoin (sp_rows spec d).*2) = Some stream /\
    mailCutoverTableEvidence prepared (sp_target spec) =
      (Z.of_nat (length (sp_rows spec d)), hexEncode (Sha256.Sum256 stream)).
Proof.
  intros (_ & tables & fingerprint & He & ->) Hs Hin.
  destruct (sameMailCutoverSource_ok _ _ _ Hs Hin) as [Hv Hev].
  unfold evidence in He. apply bind_Some in He as (ts & Hts & (bytes & _ & [= -> _])%bind_Some).
  destruct (evidenceOf_tables (manifestOf control MigrationSourceRetired tables fingerprint) d spec) as (stream & Hst & He);
    [done..|]. exists stream. split; [done|]. apply expected_evidence; [exact Hv|done|congruence].
Qed.
End Evidence.

(** ** What the hasher saw *)

Section Hashed.
Context `{Env, RowJson, PgEnv}.

(** The values written for the columns of an object. *)
Lemma hashColumns_ok table columns (payload : gmap string JsonValue) l n :
  hashColumns table columns payload = Some (l, n) ->
  exists vs, length vs = n /\ (n <= length columns)%nat /\ writeValues vs = Some l /\
    Forall (fun v => exists c, payload !! c = Some (toJson v)) vs /\
    (n = length columns -> Forall2 (fun c v => payload !! c = Some (toJson v)) columns vs).
Proof.
  revert l n. induction columns as [|c columns IH]; intros l n; simpl.
  { intros [= <- <-]. exists []. split_and!; [done..|constructor|constructor]. }
  destruct (payload !! c) as [v|] eqn:Hc.
  - intros (x & Hx & ([r k] & (vs & <- & Hle & Hw & Hall & Hf)%IH & [= <- <-])%bind_Some)%bind_Some.
    assert (exists v', v = toJson v') as [v' ->].
    { destruct v as [|[z|]|s|]; try done; [by exists VNull|by exists (VInt z)|by exists (VText s)]. }
    rewrite hashedValue_toJson in Hx. exists (v' :: vs). simpl. rewrite Hx. simpl. rewrite Hw.
    split_and!; [done|lia|done|constructor; eauto|]. intros [= Hl]. constructor; auto.
  - destruct (optionalParentMigrationColumn table c); [|done].
    intros (vs & <- & Hle & Hw & Hall & Hf)%IH. exists vs. split_and!; [done|lia|done|done|lia].
Qed.

Lemma writeValues_join vs ws l1 l2 :
  writeValues vs = Some l1 -> writeValues ws = Some l2 -> writeValues (vs ++ ws) = Some (l1 ++ l2).
Proof.
  revert l1. induction vs as [|v vs IH]; intros l1; simpl; [by intros [= <-]|].
  intros (x & -> & (y & Hy & [= <-])%bind_Some)%bind_Some Hw. simpl. rewrite (IH y) by done. simpl.
  by rewrite (assoc_L (++)).
Qed.

(** A stored payload as it is read back: its canonical text, decoded. *)
Definition readBack (payload : Payload) : option (gmap string JsonValue) := json_Decode (json_Canonical payload).

(** One rehashed row: as many values as the object has, of its columns. *)
Definition rowHashed (columns : list string) (row : string * (Payload * string)) (vs : list SqlValue) : Prop :=
  exists object, readBack row.2.1 = Some object /\ length vs = size object /\
    (length vs <= length columns)%nat /\ Forall (fun v => exists c, object !! c = Some (toJson v)) vs /\
    (length vs = length columns -> Forall2 (fun c v => object !! c = Some (toJson v)) columns vs).

Lemma rehash_ok table h rows h' :
  rehash table h rows = Some h' ->
  exists vss l, Forall2 (rowHashed (th_columns h)) rows vss /\ writeValues (mjoin vss) = Some l /\
    th_stream h' = th_stream h ++ l /\ th_count h' = th_count h + Z.of_nat (length rows).
Proof.
  revert h. induction rows as [|[key [payload digest]] rows IH]; intros h; simpl.
  { intros [= <-]. exists [], []. rewrite app_nil_r, Z.add_0_r. split_and!; [constructor|done..]. }
  intros (h1 & Ha & (vss & l & Hf & Hw & Hs & Hc)%IH)%bind_Some.
  unfold hasher_Add in Ha. destruct (_ || _); [done|]. destruct (negb _); [done|]. cbn [mr_Payload] in Ha.
  apply bind_Some in Ha as (object & Ho & ([x n] & (vs & <- & Hle & Hv & Hall & Hcol)%hashColumns_ok & Hn)%bind_Some).
  destruct (Nat.eqb_spec (length vs) (size object)) as [Hsz|]; [|done]. simpl in Hn. injection Hn as <-. cbn in *.
  exists (vs :: vss), (x ++ l). split_and!.
  - constructor; [|done]. exists object. by split_and!.
  - simpl. by apply writeValues_join.
  - by rewrite Hs, (assoc_L (++)).
  - lia.
Qed.
End Hashed.

(** ** Equal rows *)

Lemma full_rows {A} n (vss : list (list A)) :
  Forall (fun vs => (length vs <= n)%nat) vss -> length (mjoin vss) = (length vss * n)%nat ->
  Forall (fun vs => length vs = n) vss.
Proof.
  assert (forall vss : list (list A), Forall (fun vs => (length vs <= n)%nat) vss ->
    (length (mjoin vss) <= length vss * n)%nat) as Hb.
  { induction 1 as [|vs l Hv _ IH]; simpl; [lia|]. rewrite length_app. lia. }
  induction 1 as [|vs l Hv Hl IH]; [constructor|]. simpl. rewrite length_app. intros E.
  pose proof (Hb _ Hl). constructor; [lia|]. apply IH. lia.
Qed.

Lemma join_length {A} n (vss : list (list A)) :
  Forall (fun vs => length vs = n) vss -> length (mjoin vss) = (length vss * n)%nat.
Proof. induction 1; simpl; [done|]. rewrite length_app. lia. Qed.

(** The object with these columns and values. *)
Definition rowObject (columns : list string) (vs : list SqlValue) : gmap string JsonValue :=
  toJson <$> list_to_map (zip columns vs).

Lemma object_exact columns vs (object : gmap string JsonValue) :
  NoDup columns -> length vs = length columns -> length columns = size object ->
  Forall2 (fun c v => object !! c = Some (toJson v)) columns vs -> object = rowObject columns vs.
Proof.
  intros Hnd Hl Hs Hf. symmetry. apply map_subseteq_size_eq.
  - apply map_subseteq_spec. intros c j. unfold rowObject. rewrite lookup_fmap, fmap_Some.
    intros (v & Hin%elem_of_list_to_map_2 & ->). rewrite Forall2_lookup in Hf.
    apply list_elem_of_lookup in Hin as [i Hi]. apply lookup_zip_Some in Hi as [Hc Hv].
    specialize (Hf i). rewrite Hc, Hv in Hf. by inversion Hf.
  - unfold rowObject. rewrite map_size_fmap, payload_size by done. lia.
Qed.

(** Two different texts with one digest. *)
Definition collision : Prop := exists l l', l <> l' /\ Sha256.Sum256 l = Sha256.Sum256 l'.

Section Exact.
Context `{Env, RowJson, PgEnv}.

(** A decoded value is one of Go: a number read by [Int64] fits, and a string
    has a length. *)
Class JsonBounded : Prop :=
  json_bounded l object c v : json_Decode l = Some object -> object !! c = Some (toJson v) -> boundedValue v.

Lemma hashed_bounded `{!JsonBounded} columns rows vss :
  Forall2 (rowHashed columns) rows vss -> Forall boundedValue (mjoin vss).
Proof.
  intros Hf. apply Forall_join. induction Hf as [|row vs rows vss Hr _ IH]; [constructor|]. constructor; [|done].
  destruct Hr as (object & Ho & _ & _ & Hall & _). eapply Forall_impl; [exact Hall|].
  intros v [c Hc]. by eapply json_bounded.
Qed.

(** Staged rows with the evidence of a table are the rows of that table. *)
Lemma rehashed_exact `{!JsonBounded} spec d rows stream :
  spec ∈ migrationTableSpecs -> Forall (fun r => Forall boundedValue r.2) (sp_rows spec d) ->
  writeValues (mjoin (sp_rows spec d).*2) = Some stream ->
  rehashed (sp_target spec) rows = Some (Z.of_nat (length (sp_rows spec d)), hexEncode (Sha256.Sum256 stream)) ->
  collision \/
  (readBack ∘ fst ∘ snd) <$> rows = (fun r => Some (rowObject (sp_columns spec) r.2)) <$> sp_rows spec d.
Proof.
  intros Hin Hb Hw Hre. pose proof (proj1 (Forall_forall _ _) specs_wf spec Hin) as Hwf.
  unfold rehashed, NewMigrationTableHasher in Hre. rewrite (wf_lookup _ Hwf) in Hre. cbn [mbind option_bind] in Hre.
  apply bind_Some in Hre as (h & (vss & l & Hf & Hvss & Hs & Hc)%rehash_ok & Hev). cbn in Hf, Hs, Hc.
  unfold hasher_Evidence in Hev. rewrite Hs, Hc in Hev. injection Hev as Hlen Hdig.
  apply hexEncode_inj in Hdig; [|apply Sum256_bytes..].
  destruct (decide (l = stream)) as [->|Hne]; [right|left; by exists l, stream].
  assert (mjoin vss = mjoin (sp_rows spec d).*2) as Hj.
  { eapply writeValues_inj; [by eapply hashed_bounded|by apply Forall_join, Forall_fmap|done|done]. }
  assert (Forall (fun vs => length vs = length (sp_columns spec)) (sp_rows spec d).*2) as Hwidth.
  { apply Forall_fmap, Forall_forall. intros r. by apply wf_width. }
  apply Forall2_length in Hf as Hlf.
  assert (vss = (sp_rows spec d).*2) as ->.
  { apply (join_inj (length (sp_columns spec))); [|apply full_rows|done|done].
    - pose proof (wf_nonempty _ Hwf). destruct (sp_columns spec); [done|simpl; lia].
    - apply Forall_forall. intros vs Hvs. apply list_elem_of_lookup in Hvs as [i Hi].
      destruct (Forall2_lookup_r _ _ _ _ _ Hf Hi) as (row & _ & object & _ & _ & Hle & _). done.
    - rewrite Hj, (join_length _ _ Hwidth), length_fmap. f_equal. lia. }
  clear -Hf Hwidth Hwf. rewrite Forall_fmap in Hwidth. rewrite Forall2_fmap_r in Hf.
  revert Hwidth. induction Hf as [|row r rows rs Hr _ IH]; intros Hwidth; [done|].
  apply Forall_cons in Hwidth as [Hl Hwidth]. cbn. f_equal; [|by apply IH].
  destruct Hr as (object & Ho & Hsz & _ & _ & Hcol). cbn in Hl. rewrite Ho. f_equal.
  apply object_exact; [apply Hwf|done|congruence|by apply Hcol].
Qed.

(** The payloads of a mail table. *)
Definition mailTable (p : Pg) (table : string) : list Payload :=
  omap (fun kv => if bool_decide (kv.1.1 = table) then Some kv.2.1 else None) (map_to_list (pg_target p)).

Lemma mailTable_staged p k table :
  pg_target p = stagedTarget p k -> mailTable p table ≡ₚ (fst ∘ snd) <$> stagedRows p k table.
Proof.
  intros Ht. unfold mailTable, stagedRows. rewrite Ht, sortBy_perm. unfold stagedTarget.
  rewrite map_to_list_to_map.
  - apply reflexive_eq. induction (map_to_list (pg_staging p)) as [|[[[k' t] key] [payload digest]] l IH]; [done|].
    cbn. destruct (decide (k' = k)) as [->|]; [destruct (decide (t = table)) as [->|]|].
    + rewrite !bool_decide_eq_true_2 by done. cbn. rewrite bool_decide_eq_true_2 by done. cbn. by rewrite <-IH.
    + rewrite bool_decide_eq_true_2, bool_decide_eq_false_2 by congruence. cbn.
      by rewrite bool_decide_eq_false_2.
    + by rewrite !bool_decide_eq_false_2 by congruence.
  - apply (NoDup_fmap_1 (fun t => (k, t.1, t.2))). rewrite <-list_fmap_compose.
    apply (NoDup_omap _ _ fst); [|apply NoDup_fst_map_to_list].
    intros [[[k' t] key] v] y. cbn. case_bool_decide; [|done]. intros [= <-]. cbn. congruence.
Qed.

End Exact.
