(* ===== verification/Staging.v ===== *)
(** * Importing a table

    The progress of an import: the rows of a table staged so far, and the
    checkpoint that goes with them.  A page read from the prepared file advances
    it; when every row is staged, the staged rows rehash to the evidence of the
    manifest. *)

From Stdlib Require Import Ascii.
From S2P Require Import Prelude GoTime RateLimit Quota Text Sha256 Tables Tx Sessions Pending.
From S2P Require Import Invocations Rooms Claims Roles Directory Messages Deliveries QuotaInv Relay.
From S2P Require Import Auth Source Export Destination Cutover Epochs QuotaOps History Paging Atomic Fence Handover.
From S2P Require Import Prepare Transfer Authority Exactness.
Open Scope Z_scope.

(** ** The order of joined keys *)

(** No byte of the key is at or below the separator. *)
Definition printable (part : string) : bool := forallb (fun b => 0x1f <? b) (bytesOf part).

Lemma compare_cons c s t : String.compare (String c s) (String c t) = String.compare s t.
Proof. simpl. unfold Ascii.compare. by rewrite N.compare_refl. Qed.

Lemma compare_prefix p s t : String.compare (p +:+ s) (p +:+ t) = String.compare s t.
Proof. induction p as [|c p IH]; [done|]. rewrite <-IH. apply compare_cons. Qed.

(** A smaller part sorts first, whatever follows the separator. *)
Lemma compare_separated x y s t :
  String.compare x y = Lt -> printable y = true ->
  String.compare (x +:+ String unitSeparator s) (y +:+ String unitSeparator t) = Lt.
Proof.
  revert y. induction x as [|a x IH]; intros [|b y] Hc Hp; [done| |done|].
  - cbn in Hp. apply andb_true_iff in Hp as [Hb _]. apply Z.ltb_lt in Hb.
    simpl. unfold Ascii.compare. replace (N_of_ascii unitSeparator) with 0x1f%N by reflexivity.
    destruct (N.compare_spec 0x1f (N_of_ascii b)); [lia|done|lia].
  - cbn in Hp. apply andb_true_iff in Hp as [_ Hp]. simpl in Hc |- *.
    destruct (Ascii.compare a b); [by apply IH|done|done].
Qed.

Lemma encodeRowKey_cons x y xs : encodeMigrationRowKey (x :: y :: xs) =
  x +:+ String unitSeparator (encodeMigrationRowKey (y :: xs)).
Proof. done. Qed.

Lemma encode_order a b :
  length a = length b -> forallb printable b = true -> keysCompare a b = Lt ->
  String.compare (encodeMigrationRowKey a) (encodeMigrationRowKey b) = Lt.
Proof.
  revert b. induction a as [|x a IH]; intros [|y b] Hl Hp Hc; try done. simpl in Hl. injection Hl as Hl.
  cbn [forallb] in Hp. apply andb_true_iff in Hp as [Hy Hp]. simpl in Hc.
  destruct a as [|x' a], b as [|y' b]; [|done|done|].
  - simpl. by destruct (String.compare x y).
  - rewrite !encodeRowKey_cons. destruct (String.compare x y) eqn:E; [|by apply compare_separated|done].
    apply String.compare_eq_iff in E as ->. rewrite compare_prefix, compare_cons. by apply IH.
Qed.

(** ** Hexadecimal digests *)

Lemma hexNibble_digit n : 0 <= n < 16 -> hexNibble (Z.of_N (N_of_ascii (hexDigit n))) = Some n.
Proof.
  assert (forallb (fun n => bool_decide (hexNibble (Z.of_N (N_of_ascii (hexDigit n))) = Some n)) (seqZ 0 16) = true)
    as Ha by reflexivity.
  rewrite forallb_Forall, Forall_forall in Ha. intros Hn. specialize (Ha n).
  eapply bool_decide_eq_true, Ha, elem_of_seqZ. lia.
Qed.

Lemma hexDecode_encode l : Forall (fun b => 0 <= b < 256) l -> hexDecode (hexEncode l) = Some l.
Proof.
  unfold hexDecode. induction 1 as [|b l Hb _ IH]; [done|]. cbn [hexEncode bytesOf hexDecodeBytes].
  rewrite !hexNibble_digit; [|split; [apply Z.div_pos|apply Z.div_lt_upper_bound]; lia|apply Z.mod_pos_bound; lia].
  cbn. rewrite IH. cbn. do 2 f_equal. pose proof (Z.div_mod b 16). lia.
Qed.

(** A rolling digest. *)
Definition chained (s : string) : Prop := exists l, s = hexEncode (Sha256.Sum256 l).

Lemma next_chained previous rows :
  chained previous -> Forall (fun row => chained (mr_SHA256 row)) rows ->
  chained (nextMailCutoverDigest previous rows).
Proof.
  intros [l ->] Hr. unfold nextMailCutoverDigest. rewrite hexDecode_encode by apply Sum256_bytes.
  rewrite Sum256_length. cbn. case_bool_decide; [by exists l|].
  assert (exists ds, rowDigests rows = Some ds) as [ds ->]; [|by eexists].
  clear -Hr. induction Hr as [|row rows [x Hx] _ [ds IH]]; [by eexists|]. simpl.
  rewrite Hx, hexDecode_encode by apply Sum256_bytes. simpl. rewrite IH. by eexists.
Qed.

Lemma chained_empty : chained emptyMailCutoverDigest.
Proof. by exists []. Qed.

Lemma chained_nonempty s : chained s -> s <> "".
Proof. intros [l ->] E. pose proof (digest_valid l) as Hd. by rewrite E in Hd. Qed.

(** ** Progress *)

Section Progress.
Context `{Env, RowJson, PgEnv}.
Implicit Types (r : list string * list SqlValue).

(** A staged row: key and stored value. *)
Definition stagedKey r : string := encodeMigrationRowKey r.1.
Definition stagedValue (spec : migrationTableSpec) r : Payload * string :=
  (rowObject (sp_columns spec) r.2, hexEncode (Sha256.Sum256 (payloadOf spec r.2))).
Definition stagedMap (spec : migrationTableSpec) (rows : list (list string * list SqlValue))
    : gmap string (Payload * string) :=
  list_to_map ((fun r => (stagedKey r, stagedValue spec r)) <$> rows).

(** The first [n] rows of the table are staged, and the checkpoint says so. *)
Record progress (p : Pg) (k : string) (spec : migrationTableSpec)
    (rows : list (list string * list SqlValue)) (n : nat) (recorded : bool) : Prop := {
  pr_rows key : pg_staging p !! (k, sp_target spec, key) = stagedMap spec (take n rows) !! key;
  pr_bound : (n <= length rows)%nat;
  pr_checkpoint :
    match pg_checkpoints p !! (k, sp_target spec) with
    | Some c => recorded = true /\ ck_LastKey c = stagedKey <$> last (take n rows) /\
        ck_RowCount c = Z.of_nat n /\ chained (ck_RollingSHA256 c) /\ ck_Recorded c = true
    | None => recorded = false /\ n = 0%nat
    end;
}.

(** Rows that can be staged: exportable, with printable keys in strict order. *)
Record stageable (spec : migrationTableSpec) (rows : list (list string * list SqlValue)) : Prop := {
  sg_export : Forall (exportable spec) rows;
  sg_values : Forall (fun r => length r.2 = length (sp_columns spec) /\ Forall boundedValue r.2 /\
    forallb portable r.2 = true) rows;
  sg_keys : StronglySorted (fun r r' => before (stagedKey r) (stagedKey r')) rows;
}.

Lemma stagedBefore_irreflexive s : ~ before s s.
Proof. unfold before, stringLt, String.ltb. by rewrite compare_refl. Qed.

Lemma stageable_NoDup spec rows : stageable spec rows -> NoDup (stagedKey <$> rows).
Proof.
  intros [_ _ Hs]. induction Hs as [|r rows _ IH Hr]; [constructor|]. cbn. constructor; [|done].
  rewrite list_elem_of_fmap. intros (r' & E & Hin). rewrite Forall_forall in Hr.
  apply Hr in Hin. rewrite E in Hin. by apply stagedBefore_irreflexive in Hin.
Qed.

Lemma stageable_app spec l1 l2 : stageable spec (l1 ++ l2) -> stageable spec l1 /\ stageable spec l2.
Proof.
  intros [He Hv Hk]. apply Forall_app in He as [? ?], Hv as [? ?].
  split; split; try done; [by eapply StronglySorted_app_1_l|by eapply StronglySorted_app_1_r].
Qed.

Lemma stagedMap_keys spec rows : ((fun r => (stagedKey r, stagedValue spec r)) <$> rows).*1 = stagedKey <$> rows.
Proof. by rewrite <-list_fmap_compose. Qed.

Lemma stagedMap_None spec rows key : key ∉ stagedKey <$> rows -> stagedMap spec rows !! key = None.
Proof. intros Hn. apply not_elem_of_list_to_map_1. by rewrite stagedMap_keys. Qed.

Lemma stagedMap_app spec l1 l2 : stagedMap spec (l1 ++ l2) = stagedMap spec l1 ∪ stagedMap spec l2.
Proof. unfold stagedMap. by rewrite fmap_app, list_to_map_app. Qed.

(** A table's rows among the staged ones. *)
Definition placed (k table : string) (key : string) : string * string * string := (k, table, key).
#[export] Instance placed_inj k table : Inj (=) (=) (placed k table).
Proof. by intros a b [= ->]. Qed.

Lemma stageRows_run `{!RowJsonRoundTrip} k spec rows p :
  stageable spec rows -> (forall key, key ∈ stagedKey <$> rows -> pg_staging p !! (k, sp_target spec, key) = None) ->
  stageRows k (sp_target spec) (exported spec <$> rows) p =
    inr (tt, with_cutover (pg_epochs p) (kmap (placed k (sp_target spec)) (stagedMap spec rows) ∪ pg_staging p)
      (pg_checkpoints p) (pg_target p) p).
Proof.
  intros Hs. pose proof (stageable_NoDup _ _ Hs) as Hnd. destruct Hs as [_ Hv _].
  revert p Hnd. induction Hv as [|r rows (Hl & Hi & Hp) _ IH]; intros p Hnd Hfresh.
  { cbn. unfold stagedMap. cbn. rewrite kmap_empty, (left_id_L ∅ (∪)). by destruct p. }
  apply NoDup_cons in Hnd as [Hn Hnd]. cbn [fmap list_fmap stageRows mr_Key mr_Payload mr_SHA256 exported].
  unfold mbind, D_bind, look, stagedPayload. cbn [mr_Payload exported].
  assert (json_Decode (payloadOf spec r.2) = Some (rowObject (sp_columns spec) r.2)) as ->.
  { apply json_round_trip. rewrite forallb_forall in Hp. rewrite Forall_forall in Hi.
    intros c v Hcv%elem_of_list_to_map_2%elem_of_zip_r. split; [by apply Hp, list_elem_of_In|by apply Hi]. }
  cbn [found mret D_ret]. change (encodeMigrationRowKey r.1) with (stagedKey r).
  assert (has (pg_staging p) (k, sp_target spec, stagedKey r) = false) as ->.
  { unfold has. by rewrite Hfresh by (cbn; left). }
  cbn [refuse_if mret D_ret change].
  etrans; [apply IH; [done|]|].
  - intros key Hkey. cbn. rewrite lookup_insert_ne; [apply Hfresh; cbn; by right|]. intros [= <-]. by apply Hn.
  - f_equal. f_equal. unfold with_cutover. cbn. f_equal. fold (stagedMap spec rows).
    change (list_to_map _) with (<[stagedKey r := stagedValue spec r]> (stagedMap spec rows)).
    rewrite (kmap_insert (placed k (sp_target spec))), <-insert_union_l, insert_union_r; [done|].
    rewrite lookup_kmap by apply _. by apply stagedMap_None.
Qed.

(** A page in order is valid. *)
Lemma rowsInOrder_run `{!RowJsonRoundTrip} spec rows h previous :
  specWf spec -> stageable spec rows -> th_table h = sp_target spec -> th_columns h = sp_columns spec ->
  (previous <> "" -> Forall (fun r => before previous (stagedKey r)) rows) ->
  rowsInOrder h previous (exported spec <$> rows) = true.
Proof.
  intros Hw [He Hv Hk]. revert h previous. induction Hk as [|r rows Hk IH Hr]; intros h previous Ht Hc Hp; [done|].
  apply Forall_cons in He as [He1 He], Hv as [(Hl & Hi & Hport) Hv]. cbn [fmap list_fmap rowsInOrder mr_Key exported].
  change (encodeMigrationRowKey r.1) with (stagedKey r).
  assert (negb (bool_decide (previous = "")) && negb (stringLt previous (stagedKey r)) = false) as ->.
  { case_bool_decide as Hne; [done|]. apply Hp, Forall_cons in Hne as [Hb _]. unfold before in Hb. by rewrite Hb. }
  destruct (proj2 (writeValues_some r.2) Hport) as [l Hl'].
  erewrite hasher_Add_run by done. by apply IH.
Qed.

(** The owner may change the destination. *)
Record mayMutate (actor : string) (p : Pg) : Prop := {
  mu_actor : validOpaqueID actor = true;
  mu_idle : pg_maintenance p = false;
  mu_owner : pg_owner p = Some actor;
}.

Definition lastKeyOf (rows : list (list string * list SqlValue)) : option string := stagedKey <$> last rows.

Lemma lastKeyOf_app l1 l2 : lastKeyOf (l1 ++ l2) = match lastKeyOf l2 with Some k => Some k | None => lastKeyOf l1 end.
Proof. unfold lastKeyOf. rewrite last_app. by destruct (last l2). Qed.

Lemma lastKeyOf_some spec rows key :
  stageable spec rows -> lastKeyOf rows = Some key -> key <> "" /\ goLen key <= 4096.
Proof.
  intros [He _ _] Hl. unfold lastKeyOf in Hl. apply fmap_Some in Hl as (r & Hr & ->).
  apply last_Some_elem_of in Hr. rewrite Forall_forall in He. destruct (He r Hr) as (Hk & _).
  split; [by apply encode_nonempty|]. unfold badKey in Hk. by bool_hyps.
Qed.

(** After staging a page. *)
Definition stagedPg (k : string) (spec : migrationTableSpec) (page : list (list string * list SqlValue))
    (c : MailCutoverCheckpoint) (p : Pg) : Pg :=
  with_cutover (pg_epochs p) (kmap (placed k (sp_target spec)) (stagedMap spec page) ∪ pg_staging p)
    (<[(k, sp_target spec) := c]> (pg_checkpoints p)) (pg_target p) p.

(** Other tables are not concerned. *)
Lemma stagedPg_other k spec page c p spec' all n recorded :
  sp_target spec' <> sp_target spec -> progress p k spec' all n recorded ->
  progress (stagedPg k spec page c p) k spec' all n recorded.
Proof.
  intros Hne [Hr Hb Hc]. split; [|done|].
  - intros key. cbn. rewrite lookup_union_r; [done|]. apply lookup_kmap_None; [apply _|]. by intros ? [= ? ?].
  - cbn. rewrite lookup_insert_ne; [done|]. by intros [= ?].
Qed.

Lemma stagedPg_progress k spec done page rest recorded c p :
  stageable spec (done ++ page ++ rest) ->
  progress p k spec (done ++ page ++ rest) (length done) recorded ->
  ck_LastKey c = lastKeyOf (done ++ page) -> ck_RowCount c = Z.of_nat (length (done ++ page)) ->
  chained (ck_RollingSHA256 c) -> ck_Recorded c = true ->
  progress (stagedPg k spec page c p) k spec (done ++ page ++ rest) (length (done ++ page)) true.
Proof.
  intros Hs [Hr Hb Hc] Hl Hn Hch Hrec. rewrite take_app_length in Hr. split.
  - intros key. cbn. change (k, sp_target spec, key) with (placed k (sp_target spec) key).
    rewrite lookup_union, lookup_kmap by apply _. unfold placed at 1. rewrite Hr, (assoc_L (++)), take_app_length, stagedMap_app.
    rewrite <-lookup_union. f_equal. apply map_union_comm, map_disjoint_spec. intros key' v1 v2 H1' H2'.
    apply stageable_NoDup in Hs. rewrite fmap_app, NoDup_app in Hs. destruct Hs as (_ & Hd & _).
    apply elem_of_list_to_map_2, (list_elem_of_fmap_2 fst) in H1', H2'. rewrite stagedMap_keys in H1', H2'. cbn in *.
    apply (Hd key'); [done|]. rewrite fmap_app. set_solver.
  - rewrite !length_app. lia.
  - cbn. rewrite lookup_insert_eq, (assoc_L (++)), take_app_length. by split_and!.
Qed.
(** The page that comes next. *)
Definition pageOf (k : string) (spec : migrationTableSpec) (seen page : list (list string * list SqlValue)) (done : bool)
    : MailCutoverBatch := {|
  bt_EpochID := k; bt_Table := sp_target spec; bt_AfterKey := default "" (lastKeyOf seen);
  bt_Rows := exported spec <$> page; bt_Done := done |}.

Lemma page_valid `{!RowJsonRoundTrip} k spec seen page rest done :
  specWf spec -> stageable spec (seen ++ page ++ rest) -> uuid_Validate k = true -> (length page <= 256)%nat ->
  (page = [] -> seen = [] /\ done = true) ->
  validBatch (pageOf k spec seen page done) = true.
Proof.
  intros Hw Hs Hu Hlen Hemp. unfold validBatch. cbn [bt_EpochID bt_Table bt_AfterKey bt_Rows bt_Done pageOf].
  rewrite Hu, length_fmap. apply andb_true_intro. split; [repeat (apply andb_true_intro; split)|].
  - done.
  - apply Z.leb_le. destruct (lastKeyOf seen) as [key|] eqn:E; cbn; [|done].
    apply stageable_app in Hs as [Hs _]. by destruct (lastKeyOf_some _ _ _ Hs E).
  - by apply Nat.leb_le.
  - apply negb_true_iff. destruct page as [|r page]; [|done]. destruct (Hemp eq_refl) as [-> ->]. done.
  - unfold NewMigrationTableHasher. rewrite (wf_lookup _ Hw). cbn [mbind option_bind].
    pose proof Hs as [_ Hs2%stageable_app]%stageable_app. apply rowsInOrder_run; [done|by apply Hs2|done|done|].
    intros Hne. apply Forall_forall. intros r Hr. destruct (lastKeyOf seen) as [key|] eqn:E; [|done]. cbn.
    unfold lastKeyOf in E. apply fmap_Some in E as (r' & Hr' & ->). apply last_Some_elem_of in Hr'.
    destruct Hs as [_ _ Hk]. eapply (StronglySorted_app_1_elem_of _ _ _ r' r Hk); [done|]. set_solver.
Qed.

Lemma importing_run k e p :
  pg_epochs p !! k = Some e -> me_Phase e = MailCutoverImporting -> importing k p = inr (e, p).
Proof.
  intros He Hp. unfold importing. erewrite dest_bind_run by reflexivity.
  erewrite dest_bind_run by (by apply found_run). erewrite dest_bind_run; [reflexivity|].
  apply refuse_if_run. by rewrite Hp, bool_decide_eq_true_2.
Qed.

Lemma stage_run `{!RowJsonRoundTrip} actor k e spec seen page rest recorded done p :
  specWf spec -> stageable spec (seen ++ page ++ rest) -> mayMutate actor p -> uuid_Validate k = true ->
  pg_epochs p !! k = Some e -> me_Phase e = MailCutoverImporting ->
  progress p k spec (seen ++ page ++ rest) (length seen) recorded -> (length page <= 256)%nat ->
  (page = [] -> seen = [] /\ done = true /\ recorded = false) ->
  exists c, StageMailCutoverBatch actor (pageOf k spec seen page done) p = inr (c, stagedPg k spec page c p) /\
    ck_RowCount c = Z.of_nat (length (seen ++ page)) /\
    progress (stagedPg k spec page c p) k spec (seen ++ page ++ rest) (length (seen ++ page)) true.
Proof.
  intros Hw Hs [Hact Hidle Hown] Hu He Hph Hpr Hlen Hemp.
  assert (validBatch (pageOf k spec seen page done) = true) as Hvalid.
  { apply (page_valid _ _ _ _ rest); [done..|]. intros Hp. by destruct (Hemp Hp) as (? & ? & _). }
  set (stored := pg_checkpoints p !! (k, sp_target spec)).
  assert (default "" (ck_LastKey (default noCheckpoint stored)) = default "" (lastKeyOf seen) /\
    ck_RowCount (default noCheckpoint stored) = Z.of_nat (length seen) /\
    chained (ck_RollingSHA256 (default noCheckpoint stored)) /\ (page = [] -> stored = None)) as (Hk & Hn & Hch & Hnone).
  { pose proof (pr_checkpoint _ _ _ _ _ _ Hpr) as Hc. fold stored in Hc. rewrite take_app_length in Hc.
    destruct stored as [c|]; cbn [from_option id ck_LastKey ck_RowCount ck_RollingSHA256 noCheckpoint].
    - destruct Hc as (-> & Hl & Hn & Hch & _). split_and!; [by rewrite Hl|done|done|].
      intros Hp. by destruct (Hemp Hp) as (_ & _ & ?).
    - destruct Hc as (_ & Hz). apply nil_length_inv in Hz as ->. split_and!; [done|done|apply chained_empty|done]. }
  exists {| ck_LastKey := lastKeyOf (seen ++ page); ck_RowCount := Z.of_nat (length (seen ++ page));
    ck_RollingSHA256 := nextMailCutoverDigest (ck_RollingSHA256 (default noCheckpoint stored)) (exported spec <$> page);
    ck_Recorded := true |}.
  assert (chained (nextMailCutoverDigest (ck_RollingSHA256 (default noCheckpoint stored)) (exported spec <$> page))) as Hnext.
  { apply next_chained; [done|]. apply Forall_fmap, Forall_true. intros r. by eexists. }
  split; [|split; [done|by apply (stagedPg_progress _ _ _ _ _ recorded)]].
  unfold StageMailCutoverBatch. cbv zeta.
  erewrite dest_bind_run by (apply refuse_if_run; by rewrite Hact, Hvalid).
  erewrite dest_bind_run by (apply refuse_if_run; exact Hidle).
  erewrite dest_bind_run by (apply refuse_if_run; by rewrite Hown, bool_decide_eq_true_2).
  erewrite dest_bind_run by (by apply importing_run).
  erewrite dest_bind_run by reflexivity. cbn [bt_EpochID bt_Table bt_AfterKey bt_Rows bt_Done pageOf]. fold stored.
  rewrite Hk, bool_decide_eq_true_2 by done. cbn [negb].
  assert ((if negb (isNull stored) && bool_decide (exported spec <$> page = []) then true else false) = false) as Hgo.
  { destruct page; [by rewrite (Hnone eq_refl)|]. by rewrite andb_false_r. }
  destruct (negb (isNull stored) && _); [done|].
  erewrite dest_bind_run.
  2:{ apply stageRows_run; [|].
      - by apply stageable_app in Hs as [_ [? _]%stageable_app].
      - intros key Hkey. rewrite (pr_rows _ _ _ _ _ _ Hpr), take_app_length. apply stagedMap_None.
        apply stageable_NoDup in Hs. rewrite !fmap_app, !NoDup_app in Hs. destruct Hs as (_ & Hd & _).
        intros Hin. apply (Hd _ Hin). set_solver. }
  erewrite dest_bind_run by (apply refuse_if_run; apply bool_decide_eq_false_2, chained_nonempty, Hnext).
  assert (match last (exported spec <$> page) with Some row => mr_Key row | None => default "" (lastKeyOf seen) end =
    default "" (lastKeyOf (seen ++ page))) as ->.
  { rewrite lastKeyOf_app. unfold lastKeyOf at 2. rewrite fmap_last. by destruct (last page). }
  assert ((if bool_decide (default "" (lastKeyOf (seen ++ page)) = "") then None
    else Some (default "" (lastKeyOf (seen ++ page)))) = lastKeyOf (seen ++ page)) as ->.
  { destruct (lastKeyOf (seen ++ page)) as [key|] eqn:E; [|done]. cbn.
    rewrite (assoc_L (++)) in Hs. apply stageable_app in Hs as [Hs _].
    destruct (lastKeyOf_some _ _ _ Hs E). by rewrite bool_decide_eq_false_2. }
  rewrite Hn, length_fmap, length_app, Nat2Z.inj_add. reflexivity.
Qed.
(** ** A complete table *)

Definition stagedPair (spec : migrationTableSpec) r : string * (Payload * string) := (stagedKey r, stagedValue spec r).

(** Decoding an object and encoding it again gives the text [json.Marshal]
    writes for the row: keys are sorted, numbers and strings kept. *)
Class CanonicalJson : Prop :=
  canonical_row (row : gmap string SqlValue) :
    map_Forall (fun _ v => portable v = true /\ boundedValue v) row ->
    json_Canonical (toJson <$> row) = json_Marshal row.

Lemma stageable_object spec rows r :
  stageable spec rows -> r ∈ rows ->
  map_Forall (fun _ v => portable v = true /\ boundedValue v) (list_to_map (M := gmap string SqlValue) (zip (sp_columns spec) r.2)).
Proof.
  intros [_ Hv _] Hr. rewrite Forall_forall in Hv. destruct (Hv r Hr) as (_ & Hi & Hp).
  rewrite forallb_forall in Hp. rewrite Forall_forall in Hi.
  intros c v Hcv%elem_of_list_to_map_2%elem_of_zip_r. split; [by apply Hp, list_elem_of_In|by apply Hi].
Qed.

(** The staged rows in key order are the rows of the table. *)
Lemma stagedRows_complete p k spec rows recorded :
  stageable spec rows -> progress p k spec rows (length rows) recorded ->
  stagedRows p k (sp_target spec) = stagedPair spec <$> rows.
Proof.
  intros Hs [Hr _ _]. rewrite firstn_all in Hr.
  assert (forall x, x ∈ stagedRows p k (sp_target spec) <-> x ∈ stagedPair spec <$> rows) as Hmem.
  { intros [key v]. unfold stagedRows. rewrite elem_of_sortBy, list_elem_of_omap. split.
    - intros ([[[k' t] key'] v'] & Hin%elem_of_map_to_list & E). cbn in E. case_bool_decide; simplify_eq/=.
      rewrite Hr in Hin. by apply elem_of_list_to_map_2 in Hin.
    - intros Hin. exists (k, sp_target spec, key, v). split; [|cbn; by rewrite bool_decide_eq_true_2].
      apply elem_of_map_to_list. rewrite Hr. apply elem_of_list_to_map_1; [|done].
      rewrite stagedMap_keys. by apply stageable_NoDup with spec. }
  apply (StronglySorted_unique_strong (bool_rel (fun a b => stringLe a.1 b.1))).
  - intros [k1 v1] [k2 v2] Hin1%Hmem Hin2 Hle1 Hle2.
    assert (k1 = k2) as ->.
    { unfold bool_rel, stringLe in Hle1, Hle2. cbn in Hle1, Hle2.
      rewrite (String.compare_antisym k2 k1) in Hle2. destruct (String.compare k1 k2) eqn:E; [|done..].
      by apply String.compare_eq_iff in E. }
    apply stageable_NoDup in Hs. rewrite <-(stagedMap_keys spec) in Hs.
    eapply elem_of_list_to_map_1 in Hin1, Hin2; [|exact Hs..]. by simplify_eq.
  - unfold stagedRows. apply StronglySorted_merge_sort.
    + intros a b c. unfold bool_rel, stringLe. intros Hab Hbc.
      destruct (String.compare a.1 b.1) eqn:E1; [apply String.compare_eq_iff in E1; by rewrite E1| |done].
      destruct (String.compare b.1 c.1) eqn:E2; [apply String.compare_eq_iff in E2; by rewrite <-E2, E1| |done].
      by rewrite (compare_lt_trans _ _ _ E1 E2).
    + intros a b. unfold bool_rel, stringLe. rewrite (String.compare_antisym b.1 a.1).
      destruct (String.compare a.1 b.1); simpl; auto.
  - destruct Hs as [_ _ Hk]. clear -Hk. induction Hk as [|r rows _ IH Hf]; [constructor|]. constructor; [done|].
    apply Forall_fmap. eapply Forall_impl; [exact Hf|]. intros r' Hb. unfold bool_rel, stringLe. cbn.
    unfold before, stringLt, String.ltb in Hb. by destruct (String.compare (stagedKey r) (stagedKey r')).
  - apply NoDup_Permutation; [..|exact Hmem].
    + unfold stagedRows. rewrite sortBy_perm. apply (NoDup_fmap_1 (fun x => (placed k (sp_target spec) x.1))).
      apply (NoDup_omap _ _ fst); [|apply NoDup_fst_map_to_list].
      intros [[[k' t] key'] v'] y. cbn. case_bool_decide; [|done]. intros [= <-]. cbn. unfold placed. congruence.
    + apply (NoDup_fmap_1 fst). rewrite <-list_fmap_compose. by apply stageable_NoDup with spec.
Qed.

Lemma rehash_complete `{!RowJsonRoundTrip, !CanonicalJson} spec rows h :
  stageable spec rows -> rehash (sp_target spec) h (stagedPair spec <$> rows) = hashRows h (exported spec <$> rows).
Proof.
  intros Hs. assert (Forall (fun r => json_Canonical (rowObject (sp_columns spec) r.2) = payloadOf spec r.2) rows) as Hc.
  { apply Forall_forall. intros r Hr. by apply canonical_row, (stageable_object _ rows). }
  clear Hs. revert h. induction Hc as [|r rows Hr _ IH]; intros h; [done|].
  cbn [fmap list_fmap rehash hashRows stagedPair stagedValue]. rewrite Hr.
  change (exported spec r) with {| mr_Table := sp_target spec; mr_Key := stagedKey r; mr_Payload := payloadOf spec r.2;
    mr_SHA256 := hexEncode (Sha256.Sum256 (payloadOf spec r.2)) |}.
  destruct (hasher_Add _ _) as [h'|]; [|done]. apply IH.
Qed.

Lemma tableVerified_run `{!RowJsonRoundTrip, !CanonicalJson} p k spec rows stream manifest :
  specWf spec -> stageable spec rows -> progress p k spec rows (length rows) true ->
  writeValues (mjoin rows.*2) = Some stream ->
  mailCutoverTableEvidence manifest (sp_target spec) = (Z.of_nat (length rows), hexEncode (Sha256.Sum256 stream)) ->
  tableVerified p manifest k (sp_target spec) = true.
Proof.
  intros Hw Hs Hp Hv He. unfold tableVerified. rewrite He.
  pose proof (pr_checkpoint _ _ _ _ _ _ Hp) as Hc. destruct (pg_checkpoints p !! _) as [c|]; [|by destruct Hc].
  destruct Hc as (_ & _ & -> & _). cbn [fst]. rewrite Z.eqb_refl. apply bool_decide_eq_true.
  rewrite (stagedRows_complete _ _ _ _ _ Hs Hp). unfold rehashed, NewMigrationTableHasher.
  rewrite (wf_lookup _ Hw). cbn [mbind option_bind]. rewrite rehash_complete by done.
  erewrite (hashRows_run spec rows stream); [|done|apply (sg_export _ _ Hs)| |done|done|done].
  - done.
  - eapply Forall_impl; [apply (sg_values _ _ Hs)|]. cbn. by intros r (? & ? & _).
Qed.
End Progress.
