(* ===== verification/Completion.v ===== *)
(** * Execute and abort complete

    From every durable boundary of an execution (the file active, prepared, or
    retired; the epoch absent, importing with any progress, verified, or active)
    a run of [Execute] with the same request reaches the end: the file retired,
    the epoch active, the marker published.  Without authority at the destination
    an execution can be taken back. *)

From Stdlib Require Import Ascii.
From S2P Require Import Prelude GoTime RateLimit Quota Text Sha256 Tables Tx Sessions Pending.
From S2P Require Import QuotaInv Invocations Rooms Claims Roles Directory Messages Deliveries Auth Source.
From S2P Require Import Export Destination Cutover Epochs Relay QuotaOps History Paging Fence Atomic.
From S2P Require Import Handover Authority Execution Prepare Transfer Exactness Staging.
Open Scope Z_scope.

(** ** Running the executor forwards *)

Lemma exec_bind_run {A B} (m : X A) (k : A -> X B) w a w1 :
  m w = (inr a, w1) -> mbind k m w = k a w1.
Proof. unfold mbind, X_bind. by intros ->. Qed.

Lemma fail_if_run b e w : b = false -> fail_if b e w = (inr tt, w).
Proof. by intros ->. Qed.

Lemma destination_run {A} (d : D A) w a p :
  d (w_pg w) = inr (a, p) -> onDestination d w = (inr a, with_pg p w).
Proof. unfold onDestination. by intros ->. Qed.

Lemma destination_look {A} (d : D A) w a : d (w_pg w) = inr (a, w_pg w) -> onDestination d w = (inr a, w).
Proof. intros Hd. rewrite (destination_run d w a (w_pg w)) by done. by destruct w. Qed.

Lemma source_run {A} (m : MigrationControl -> M A) w a :
  m (w_control w) (w_store w) = (inr a, w_store w) -> fromSource m w = (inr a, w).
Proof. unfold fromSource. intros ->. by destruct w. Qed.

Lemma command_run m w manifest control s :
  m (w_control w) (w_store w) = (inr (manifest, control), s) ->
  command m w = (inr manifest, with_source control s w).
Proof. unfold command. by intros ->. Qed.

(** ** Importing *)

(** Only staged rows and checkpoints differ. *)
Definition importedFrom (p p' : Pg) : Prop :=
  exists staging checkpoints, p' = with_cutover (pg_epochs p) staging checkpoints (pg_target p) p.

#[export] Instance importedFrom_preorder : PreOrder importedFrom.
Proof.
  split.
  - intros p. exists (pg_staging p), (pg_checkpoints p). by destruct p.
  - intros a b c (s1 & c1 & ->) (s2 & c2 & ->). by exists s2, c2.
Qed.

Section Importing.
Context `{Env, RowJson, PgEnv, !RowJsonRoundTrip}.
Context (request : Request) (e : MailCutoverEpoch).
Abbreviation actor := (xr_ActorPrincipalID request).
Abbreviation k := (xr_EpochID request).

(** The destination takes rows of the epoch. *)
Record accepting (p : Pg) : Prop := {
  ac_mutate : mayMutate actor p;
  ac_epoch : pg_epochs p !! k = Some e;
  ac_phase : me_Phase e = MailCutoverImporting;
  ac_uuid : uuid_Validate k = true;
}.

Lemma accepting_from p p' : importedFrom p p' -> accepting p -> accepting p'.
Proof. intros (s & c & ->) [[? ? ?] ? ? ?]. by split; [split|..]. Qed.

(** Progress of the other tables. *)
Definition othersKeep (spec : migrationTableSpec) (p p' : Pg) : Prop :=
  forall spec' rows n recorded, sp_target spec' <> sp_target spec ->
    progress p k spec' rows n recorded -> progress p' k spec' rows n recorded.

Lemma pages_run pages spec m w seen rest recorded batchSize :
  specWf spec -> stageable spec (sp_rows spec (st_db (w_store w))) ->
  inspectMigrationSource (w_control w) (st_db (w_store w)) = inr m -> mm_Phase m = MigrationSourcePrepared ->
  1 <= batchSize <= 256 -> accepting (w_pg w) ->
  sp_rows spec (st_db (w_store w)) = seen ++ rest ->
  progress (w_pg w) k spec (seen ++ rest) (length seen) recorded -> (rest = [] -> seen = [] /\ recorded = false) ->
  (0 < pages)%nat -> Z.of_nat (length rest) <= Z.of_nat pages * batchSize ->
  exists c p', importPages pages request (sp_target spec) batchSize (default "" (lastKeyOf seen)) w = (inr c, with_pg p' w) /\
    ck_RowCount c = Z.of_nat (length (seen ++ rest)) /\ importedFrom (w_pg w) p' /\
    progress p' k spec (seen ++ rest) (length (seen ++ rest)) true /\ othersKeep spec (w_pg w) p'.
Proof.
  intros Hw. revert w seen rest recorded.
  induction pages as [|pages IH]; [lia|]. intros w seen rest recorded Hs Hi Hph Hb Hac Hrows Hpr Hemp _ Hlen.
  cbn [importPages]. set (page := take (Z.to_nat batchSize) rest). set (rest' := drop (Z.to_nat batchSize) rest).
  assert (rest = page ++ rest') as Hsplit by (symmetry; apply take_drop).
  erewrite exec_bind_run.
  2:{ apply source_run. eapply batch_run; [done|apply (sg_export _ _ Hs)|done|done|done|exact Hrows|].
      unfold key_at, lastKeyOf. by destruct (last seen). }
  cbn [mb_Rows mb_NextKey mb_Done]. fold page.
  set (fin := bool_decide (length rest <= Z.to_nat batchSize)%nat).
  change {| bt_EpochID := k; bt_Table := sp_target spec; bt_AfterKey := default "" (lastKeyOf seen);
    bt_Rows := exported spec <$> page; bt_Done := fin |} with (pageOf k spec seen page fin).
  assert (page = [] -> rest = []) as Hpage.
  { intros Hp. unfold page in Hp. apply (f_equal length) in Hp. rewrite length_take in Hp.
    apply nil_length_inv. simpl in Hp. lia. }
  destruct (stage_run actor k e spec seen page rest' recorded fin (w_pg w)) as (c & Hrun & Hcount & Hpr');
    [done|by rewrite <-Hsplit, <-Hrows|apply Hac..|by rewrite <-Hsplit| | |].
  { unfold page. rewrite length_take. lia. }
  { intros Hp%Hpage. destruct (Hemp Hp) as [? ?]. split_and!; [done| |done]. unfold fin. by rewrite Hp. }
  erewrite exec_bind_run by (by apply destination_run).
  assert (importedFrom (w_pg w) (stagedPg k spec page c (w_pg w))) as Hfrom by by do 2 eexists.
  assert (othersKeep spec (w_pg w) (stagedPg k spec page c (w_pg w))) as Hkeep.
  { intros spec' rows n rec Hne. by apply stagedPg_other. }
  destruct fin eqn:Hfin.
  { apply bool_decide_eq_true in Hfin. exists c, (stagedPg k spec page c (w_pg w)).
    assert (page = rest) as -> by (unfold page; rewrite take_ge; done). split_and!; try done.
    assert (rest' = []) as -> by (unfold rest'; rewrite drop_ge; done). by rewrite app_nil_r in Hpr'. }
  apply bool_decide_eq_false in Hfin.
  assert (exists r, last page = Some r) as [r Hr].
  { destruct (last page) eqn:E; [by eexists|]. apply last_None, Hpage in E. rewrite E in Hfin. simpl in Hfin. lia. }
  assert (lastKeyOf (seen ++ page) = Some (stagedKey r)) as Hkey by by rewrite lastKeyOf_app; unfold lastKeyOf at 1; rewrite Hr.
  assert (lastKey "" (exported spec <$> page) = stagedKey r) as -> by by unfold lastKey; rewrite fmap_last, Hr.
  rewrite Hrows in Hs. rewrite Hsplit in Hs.
  erewrite exec_bind_run.
  2:{ apply fail_if_run, orb_false_iff. split; apply bool_decide_eq_false_2.
      - pose proof Hs as Hs2. rewrite (assoc_L (++)) in Hs2. apply stageable_app in Hs2 as [Hs2 _].
        by destruct (lastKeyOf_some _ _ _ Hs2 Hkey).
      - intros E. destruct (lastKeyOf seen) as [key|] eqn:El; cbn in E.
        + unfold lastKeyOf in El. apply fmap_Some in El as (r' & Hr' & ->). apply last_Some_elem_of in Hr', Hr.
          apply (before_irreflexive (stagedKey r')). rewrite <-E at 2.
          eapply (StronglySorted_app_1_elem_of _ _ _ r' r (sg_keys _ _ Hs)); [done|]. set_solver.
        + apply last_Some_elem_of in Hr. pose proof (sg_export _ _ Hs) as He. rewrite Forall_forall in He.
          destruct (He r) as (Hbad & _); [set_solver|]. by apply encode_nonempty in Hbad. }
  replace (stagedKey r) with (default "" (lastKeyOf (seen ++ page))) by by rewrite Hkey.
  destruct (IH (with_pg (stagedPg k spec page c (w_pg w)) w) (seen ++ page) rest' true) as
    (c' & p' & Hrun' & Hcount' & Hfrom' & Hpr'' & Hkeep'); cbn [w_control w_store w_pg with_pg].
  - rewrite Hrows, Hsplit. done.
  - done.
  - done.
  - done.
  - by eapply accepting_from.
  - by rewrite Hrows, Hsplit, (assoc_L (++)).
  - by rewrite <-(assoc_L (++)).
  - intros Hnil. exfalso. unfold rest' in Hnil. apply (f_equal length) in Hnil. rewrite length_drop in Hnil.
    simpl in Hnil. lia.
  - destruct pages; lia.
  - unfold rest'. rewrite length_drop. lia.
  - exists c', p'. rewrite Hrun'. rewrite <-(assoc_L (++)), <-Hsplit in *. split_and!; [done|done|by etrans|done|].
    intros spec' rows n rec Hne Hp. by apply Hkeep', Hkeep.
Qed.
Lemma checkpoint_run spec p :
  specWf spec -> accepting p ->
  ReadMailCutoverCheckpoint actor k (sp_target spec) p =
    inr (default noCheckpoint (pg_checkpoints p !! (k, sp_target spec)), p).
Proof.
  intros Hw [[Ha Hm Ho] He Hp Hu]. unfold ReadMailCutoverCheckpoint.
  erewrite dest_bind_run by (apply refuse_if_run; by rewrite Ha, Hu).
  erewrite dest_bind_run by (apply found_run; unfold NewMigrationTableHasher; by rewrite (wf_lookup _ Hw)).
  erewrite dest_bind_run by (apply refuse_if_run; by rewrite Ho, bool_decide_eq_true_2).
  erewrite dest_bind_run by reflexivity. erewrite dest_bind_run by (by apply found_run).
  erewrite dest_bind_run by (apply refuse_if_run; by rewrite Hp, bool_decide_eq_false_2).
  reflexivity.
Qed.

Context (pages : nat) (batchSize : Z) (Hbatch : 1 <= batchSize <= 256) (Hpages : (0 < pages)%nat).

Lemma table_run spec prepared m w n recorded :
  specWf spec -> stageable spec (sp_rows spec (st_db (w_store w))) ->
  inspectMigrationSource (w_control w) (st_db (w_store w)) = inr m -> mm_Phase m = MigrationSourcePrepared ->
  accepting (w_pg w) -> progress (w_pg w) k spec (sp_rows spec (st_db (w_store w))) n recorded ->
  expectedRows prepared (sp_target spec) = Z.of_nat (length (sp_rows spec (st_db (w_store w)))) ->
  Z.of_nat (length (sp_rows spec (st_db (w_store w)))) <= Z.of_nat pages * batchSize ->
  exists p', importTable pages request prepared batchSize (sp_target spec) w = (inr tt, with_pg p' w) /\
    importedFrom (w_pg w) p' /\ othersKeep spec (w_pg w) p' /\
    progress p' k spec (sp_rows spec (st_db (w_store w))) (length (sp_rows spec (st_db (w_store w)))) true.
Proof.
  intros Hw Hs Hi Hph Hac Hpr Hexp Hlen. unfold importTable. set (rows := sp_rows spec (st_db (w_store w))) in *.
  erewrite exec_bind_run by (by apply destination_look, checkpoint_run). rewrite Hexp.
  set (stored := default noCheckpoint (pg_checkpoints (w_pg w) !! (k, sp_target spec))).
  assert (ck_RowCount stored = Z.of_nat n /\ ck_Recorded stored = recorded /\
    default "" (ck_LastKey stored) = default "" (lastKeyOf (take n rows)) /\ (recorded = false -> n = 0%nat)) as
    (Hn & Hrec & Hkey & Hzero).
  { pose proof (pr_checkpoint _ _ _ _ _ _ Hpr) as Hc. unfold stored.
    destruct (pg_checkpoints (w_pg w) !! _) as [c|]; cbn [from_option id].
    - destruct Hc as (-> & Hl & Hn & _ & Hr). split_and!; [done|done|by rewrite Hl|done].
    - destruct Hc as [-> ->]. split_and!; done. }
  pose proof (pr_bound _ _ _ _ _ _ Hpr) as Hbound.
  erewrite exec_bind_run by (apply fail_if_run, Z.ltb_ge; lia). rewrite Hn, Hrec, Hkey.
  destruct (_ && _) eqn:Hskip.
  - exists (w_pg w). apply andb_true_iff in Hskip as [Heq%Z.eqb_eq Hor].
    assert (n = length rows /\ recorded = true) as [-> ->].
    { split; [lia|]. destruct recorded; [done|]. rewrite (Hzero eq_refl) in Heq. rewrite orb_false_r in Hor.
      apply Z.ltb_lt in Hor. lia. }
    split_and!; [by destruct w|done|by intros ? ? ? ?|done].
  - assert (length (take n rows) = n) as Htake by (rewrite length_take; lia).
    destruct (pages_run pages spec m w (take n rows) (drop n rows) recorded batchSize) as
      (c & p' & Hrun & Hcount & Hfrom & Hpr' & Hkeep); try done.
    + by rewrite take_drop.
    + by rewrite take_drop, Htake.
    + intros Hd. apply (f_equal length) in Hd. rewrite length_drop in Hd. simpl in Hd.
      assert (n = length rows) as -> by lia. rewrite Z.eqb_refl in Hskip. cbn in Hskip.
      apply orb_false_iff in Hskip as [Hz%Z.ltb_ge ->]. split; [|done].
      apply nil_length_inv. rewrite length_take. lia.
    + rewrite length_drop. lia.
    + rewrite take_drop in Hcount, Hpr'. erewrite exec_bind_run by exact Hrun. exists p'.
      split_and!; [|done..]. apply fail_if_run. by rewrite Hcount, Z.eqb_refl.
Qed.

(** Every table has some progress; the listed ones are complete afterwards. *)
Lemma tables_run prepared m specs w :
  Forall (fun spec => specWf spec /\ stageable spec (sp_rows spec (st_db (w_store w))) /\
    expectedRows prepared (sp_target spec) = Z.of_nat (length (sp_rows spec (st_db (w_store w)))) /\
    Z.of_nat (length (sp_rows spec (st_db (w_store w)))) <= Z.of_nat pages * batchSize /\
    exists n recorded, progress (w_pg w) k spec (sp_rows spec (st_db (w_store w))) n recorded) specs ->
  NoDup (sp_target <$> specs) ->
  inspectMigrationSource (w_control w) (st_db (w_store w)) = inr m -> mm_Phase m = MigrationSourcePrepared ->
  accepting (w_pg w) ->
  exists p', importTables pages request prepared batchSize (sp_target <$> specs) w = (inr tt, with_pg p' w) /\
    importedFrom (w_pg w) p' /\
    Forall (fun spec => progress p' k spec (sp_rows spec (st_db (w_store w)))
      (length (sp_rows spec (st_db (w_store w)))) true) specs /\
    forall spec rows n recorded, sp_target spec ∉ sp_target <$> specs -> progress (w_pg w) k spec rows n recorded ->
      progress p' k spec rows n recorded.
Proof.
  intros Hf. revert w Hf. induction specs as [|spec specs IH]; intros w Hf Hnd Hi Hph Hac.
  { exists (w_pg w). split_and!; [by destruct w|done|constructor|done]. }
  apply Forall_cons in Hf as [(Hw & Hs & Hexp & Hlen & n & recorded & Hpr) Hf].
  apply NoDup_cons in Hnd as [Hn Hnd]. cbn [fmap list_fmap importTables].
  destruct (table_run spec prepared m w n recorded) as (p1 & Hrun & Hfrom & Hkeep & Hfull); [done..|].
  erewrite exec_bind_run by exact Hrun.
  destruct (IH (with_pg p1 w)) as (p' & Hrun' & Hfrom' & Hall & Hkeep'); cbn [w_store w_control w_pg with_pg]; try done.
  - rewrite Forall_forall in Hf |- *. intros spec' Hin. destruct (Hf spec' Hin) as (? & ? & ? & ? & n' & rec' & Hp').
    split_and!; [done..|]. exists n', rec'. apply Hkeep; [|done]. intros E. apply Hn. rewrite <-E.
    by apply list_elem_of_fmap_2.
  - by eapply accepting_from.
  - exists p'. rewrite Hrun'. split_and!; [done|by etrans| |].
    + constructor; [|done]. by apply Hkeep'.
    + intros spec' rows n' rec' Hni Hp'. cbn in Hni. apply Hkeep'; [set_solver|]. apply Hkeep; [|done]. set_solver.
Qed.
End Importing.

(** ** Verifying *)

(** The tables in the executor's order. *)
Definition executorSpecs : list migrationTableSpec :=
  [endpointSpec; conversationSpec; claimSpec; participantSpec; claimEventSpec; claimIdempotencySpec;
   membershipSpec; roleSpec; roleMembershipSpec; bindingSpec; messageSpec; deliverySpec; cursorSpec;
   idempotencySpec; conversationIdempotencySpec; displayNameIdempotencySpec; controlSpec; controlIdempotencySpec;
   nonceSpec; profileSpec; profileIdempotencySpec; bucketSpec; directSpec; fromRoleSpec; directIdempotencySpec].

Lemma executorSpecs_targets : sp_target <$> executorSpecs = executorTables.
Proof. reflexivity. Qed.

Lemma executorSpecs_listed : Forall (fun spec => spec ∈ migrationTableSpecs) executorSpecs.
Proof.
  assert (executorSpecs = omap (fun i => migrationTableSpecs !! i)
    [0; 1; 20; 21; 22; 24; 2; 3; 4; 5; 6; 7; 8; 9; 10; 23; 11; 12; 13; 14; 15; 16; 17; 18; 19]%nat) as -> by reflexivity.
  apply Forall_forall. intros spec (i & _ & Hi)%list_elem_of_omap. by apply list_elem_of_lookup_2 in Hi.
Qed.

Lemma cutover_tables : Forall (fun table => table ∈ executorTables) mailCutoverTables.
Proof. apply (bool_decide_unpack _). vm_compute. exact I. Qed.

Lemma executorTables_NoDup : NoDup executorTables.
Proof. apply (bool_decide_unpack _). vm_compute. exact I. Qed.

Section Verify.
Context `{Env, RowJson, PgEnv, !RowJsonRoundTrip, !CanonicalJson}.
Context (request : Request) (e : MailCutoverEpoch) (d : Db).
Abbreviation actor := (xr_ActorPrincipalID request).
Abbreviation k := (xr_EpochID request).

(** Every row of every table is staged, and nothing else. *)
Record complete (p : Pg) : Prop := {
  cp_tables spec : spec ∈ executorSpecs ->
    stageable spec (sp_rows spec d) /\ progress p k spec (sp_rows spec d) (length (sp_rows spec d)) true;
  cp_others table key : table ∉ executorTables -> pg_staging p !! (k, table, key) = None;
}.

Lemma stagedTarget_lookup p t key v :
  stagedTarget p k !! (t, key) = Some v -> pg_staging p !! (k, t, key) = Some v.
Proof.
  unfold stagedTarget. intros Hin%elem_of_list_to_map_2. apply list_elem_of_omap in Hin as ([[[k' t'] key'] v'] & Hin & E).
  cbn in E. case_bool_decide; simplify_eq/=. by apply elem_of_map_to_list.
Qed.

(** A staged row is a row of its table. *)
Lemma complete_row p t key v :
  complete p -> stagedTarget p k !! (t, key) = Some v ->
  exists spec r, spec ∈ executorSpecs /\ t = sp_target spec /\ r ∈ sp_rows spec d /\ v = stagedValue spec r.
Proof.
  intros Hc Hv%stagedTarget_lookup. destruct (decide (t ∈ executorTables)) as [Ht|Ht].
  2:{ by rewrite (cp_others p Hc) in Hv. }
  rewrite <-executorSpecs_targets in Ht. apply list_elem_of_fmap in Ht as (spec & -> & Hin).
  destruct (cp_tables p Hc spec Hin) as [_ Hp]. rewrite (pr_rows _ _ _ _ _ _ Hp), firstn_all in Hv.
  unfold stagedMap in Hv. apply elem_of_list_to_map_2, list_elem_of_fmap in Hv as (r & [= _ ->] & Hr). by exists spec, r.
Qed.

Lemma count_mailTable p table : targetCount table (pg_target p) = Z.of_nat (length (mailTable p table)).
Proof.
  unfold targetCount, mailTable, mcount. induction (pg_target p) as [|key v m Hk IH] using map_ind.
  - by rewrite msum_empty, map_to_list_empty.
  - rewrite msum_insert_new, IH by done. rewrite map_to_list_insert by done. cbn.
    case_bool_decide; cbn; lia.
Qed.

Lemma complete_count p spec :
  complete p -> spec ∈ executorSpecs ->
  targetCount (sp_target spec) (stagedTarget p k) = Z.of_nat (length (sp_rows spec d)).
Proof.
  intros Hc Hin. destruct (cp_tables p Hc spec Hin) as [Hs Hp].
  pose proof (count_mailTable (with_cutover (pg_epochs p) (pg_staging p) (pg_checkpoints p) (stagedTarget p k) p) (sp_target spec)) as Hn.
  cbn [pg_target with_cutover] in Hn. rewrite Hn. f_equal.
  rewrite (mailTable_staged _ k) by done. rewrite length_fmap.
  change (stagedRows _ k (sp_target spec)) with (stagedRows p k (sp_target spec)).
  by rewrite (stagedRows_complete p k spec _ true Hs Hp), length_fmap.
Qed.

Definition verifiedPg (p : Pg) : Pg :=
  with_cutover (<[k := setEpochPhase MailCutoverVerified e]> (pg_epochs p)) (pg_staging p) (pg_checkpoints p)
    (stagedTarget p k) p.

Lemma verify_run p manifest fingerprint :
  accepting request e p -> complete p -> pg_target p = ∅ ->
  rq_SourceFingerprint (me_Request e) = fingerprint -> validMigrationDigest fingerprint = true ->
  manifest_Unmarshal (rq_Manifest (me_Request e)) = Some manifest ->
  (forall spec, spec ∈ executorSpecs -> exists stream, writeValues (mjoin (sp_rows spec d).*2) = Some stream /\
    mailCutoverTableEvidence manifest (sp_target spec) =
      (Z.of_nat (length (sp_rows spec d)), hexEncode (Sha256.Sum256 stream))) ->
  (forall spec r, spec ∈ executorSpecs -> r ∈ sp_rows spec d ->
    row_accepted (sp_target spec) (rowObject (sp_columns spec) r.2) = true) ->
  VerifyMailCutover actor k fingerprint p = inr (setEpochPhase MailCutoverVerified e, verifiedPg p).
Proof.
  intros [[Ha Hm Ho] He Hp Hu] Hc Ht Hfp Hd Hman Hev Hacc. unfold VerifyMailCutover.
  assert (forall table, table ∈ mailCutoverTables -> exists spec, spec ∈ executorSpecs /\ table = sp_target spec) as Htab.
  { intros table Hin. pose proof cutover_tables as Hct. rewrite Forall_forall in Hct. apply Hct in Hin.
    rewrite <-executorSpecs_targets in Hin. apply list_elem_of_fmap in Hin as (spec & -> & Hin). by exists spec. }
  erewrite dest_bind_run by (apply refuse_if_run; by rewrite Ha, Hu, Hd).
  erewrite dest_bind_run by (by apply refuse_if_run).
  erewrite dest_bind_run by (apply refuse_if_run; by rewrite Ho, bool_decide_eq_true_2).
  erewrite dest_bind_run by reflexivity. erewrite dest_bind_run by (by apply found_run).
  erewrite dest_bind_run by (apply refuse_if_run; by rewrite Hfp, bool_decide_eq_true_2).
  rewrite Hp, bool_decide_eq_false_2 by done.
  erewrite dest_bind_run by (by apply refuse_if_run).
  erewrite dest_bind_run by (by apply found_run). erewrite dest_bind_run by reflexivity.
  erewrite dest_bind_run.
  2:{ apply refuse_if_run, negb_false_iff, forallb_forall. intros table (spec & Hin & ->)%list_elem_of_In%Htab.
      destruct (Hev spec Hin) as (stream & Hs & He'). destruct (cp_tables p Hc spec Hin).
      eapply tableVerified_run; [|done..]. pose proof executorSpecs_listed as Hl. rewrite Forall_forall in Hl.
      by apply (proj1 (Forall_forall _ _) specs_wf), Hl. }
  erewrite dest_bind_run.
  2:{ apply refuse_if_run, mexists_false. intros [t key] v Hv. unfold has. rewrite Ht, lookup_empty. cbn.
      destruct (complete_row p t key v Hc Hv) as (spec & r & Hin & -> & Hr & ->). by apply negb_false_iff, Hacc. }
  rewrite Ht, (right_id_L ∅ (∪)). erewrite dest_bind_run.
  2:{ apply refuse_if_run, negb_false_iff, forallb_forall. intros table (spec & Hin & ->)%list_elem_of_In%Htab.
      destruct (Hev spec Hin) as (stream & _ & ->). apply Z.eqb_eq. by apply complete_count. }
  reflexivity.
Qed.
End Verify.

(** ** Binding an epoch *)

(** A manifest as it is decoded: the journal is not exported. *)
Definition publicManifest (m : MigrationSourceManifest) : MigrationSourceManifest := {|
  mm_Version := mm_Version m; mm_SourceID := mm_SourceID m; mm_Phase := mm_Phase m; mm_EpochID := mm_EpochID m;
  mm_TargetIdentity := mm_TargetIdentity m; mm_Tables := mm_Tables m; mm_Fingerprint := mm_Fingerprint m;
  mm_lastEpochID := ""; mm_lastTargetIdentity := ""; mm_lastExpectedFingerprint := "";
  mm_lastResultFingerprint := ""; mm_lastCutoff := 0; mm_lastTransition := "" |}.

Section Bind.
Context `{Env, PgEnv}.

(** The manifests of prepared files. *)
Record codable (m : MigrationSourceManifest) : Prop := {
  cd_source : uuid_Validate (mm_SourceID m) = true;
  cd_epoch : uuid_Validate (mm_EpochID m) = true;
  cd_target : validMigrationDigest (mm_TargetIdentity m) = true;
  cd_fingerprint : validMigrationDigest (mm_Fingerprint m) = true;
  cd_names : te_name <$> mm_Tables m = sp_name <$> migrationTableSpecs;
  cd_tables : Forall (fun t => 0 <= te_count t /\ validMigrationDigest (te_sha256 t) = true) (mm_Tables m);
}.

(** [json.Marshal] writes the exported fields, in a few kilobytes for these
    manifests, and both decoders read them back. *)
Class ManifestCodec : Prop := {
  manifest_decodes m : codable m -> manifest_Decode (manifest_Marshal m) = Some (publicManifest m);
  manifest_unmarshals m : codable m -> manifest_Unmarshal (manifest_Marshal m) = Some (publicManifest m);
  manifest_public m : manifest_Marshal (publicManifest m) = manifest_Marshal m;
  manifest_size m : codable m -> 0 < Z.of_nat (length (manifest_Marshal m)) <= 8192;
}.

(** The inspection of a file that is not active is codable. *)
Lemma inspect_codable control d m :
  inspectMigrationSource control d = inr m -> mm_Phase m <> MigrationSourceActive -> codable m.
Proof.
  intros (Hu & _ & tables & fingerprint & He & [Hf _] & ->)%inspect_iff Hp. cbn in Hp.
  rewrite bool_decide_eq_false_2 in Hf by done. unfold durableBinding in Hf. bool_hyps.
  apply evidence_digest in He as Hg. unfold evidence in He.
  apply bind_Some in He as (ts & Hts & (bytes & _ & [= -> _])%bind_Some).
  split; try done; [exact (tablesEvidence_names _ _ _ Hts)|]. cbn [mm_Tables manifestOf].
  clear -Hts. revert tables Hts. generalize migrationTableSpecs. intros specs.
  induction specs as [|spec specs IH]; intros ts; cbn; [by intros [= <-]|].
  intros (t & (stream & _ & [= <-])%bind_Some & (ts' & Hts' & [= <-])%bind_Some)%bind_Some.
  constructor; [|by apply IH]. cbn. split; [lia|apply digest_valid].
Qed.

Lemma codable_evidence m spec :
  codable m -> spec ∈ migrationTableSpecs ->
  0 <= countOf m (sp_name spec) /\ validMigrationDigest (digestOf m (sp_name spec)) = true.
Proof.
  intros Hc Hin. pose proof (cd_names m Hc) as Hn.
  assert (sp_name spec ∈ te_name <$> mm_Tables m) as Ht by (rewrite Hn; by apply list_elem_of_fmap_2).
  apply list_elem_of_fmap in Ht as (t & Ht & Hel). unfold countOf, digestOf.
  rewrite Ht, (evidenceOf_elem m t); [|rewrite Hn; apply specs_names|done].
  pose proof (cd_tables m Hc) as Hf. rewrite Forall_forall in Hf. by apply Hf.
Qed.

(** The request for a prepared file is canonical. *)
Lemma canonical_run `{!ManifestCodec} m :
  codable m -> mm_Version m = 8 -> mm_Phase m = MigrationSourcePrepared ->
  canonicalMailCutoverManifest (destinationRequest m (mm_EpochID m) (mm_TargetIdentity m)) = Some (manifest_Marshal m).
Proof.
  intros Hc Hv Hp. assert (withPhase MigrationSourcePrepared (mm_EpochID m) (mm_TargetIdentity m) m = m) as Hm.
  { destruct m; cbn in *. by subst. }
  pose proof (manifest_size m Hc) as Hsz.
  unfold canonicalMailCutoverManifest, destinationRequest. rewrite Hm. cbn [rq_EpochID rq_SourceID rq_TargetIdentity
    rq_SourceFingerprint rq_Manifest rq_ManifestSHA256].
  rewrite (cd_epoch m Hc), (cd_source m Hc), (cd_target m Hc), (cd_fingerprint m Hc), digest_valid. cbn [negb orb].
  rewrite (proj2 (Z.eqb_neq _ 0)), (proj2 (Z.ltb_ge 8192 _)) by lia. cbn [orb].
  rewrite manifest_decodes by done. cbn [mbind option_bind].
  assert (manifestBound (publicManifest m) {| rq_EpochID := mm_EpochID m; rq_SourceID := mm_SourceID m;
    rq_TargetIdentity := mm_TargetIdentity m; rq_SourceFingerprint := mm_Fingerprint m;
    rq_Manifest := manifest_Marshal m; rq_ManifestSHA256 := hexEncode (Sha256.Sum256 (manifest_Marshal m)) |} = true) as ->.
  { unfold manifestBound. cbn. rewrite Hv, Hp, !bool_decide_eq_true_2 by done. done. }
  assert (existsb (fun spec => countOf (publicManifest m) (sp_name spec) <? 0) migrationTableSpecs = false) as ->.
  { apply not_true_iff_false. intros (spec & Hin%list_elem_of_In & Hlt%Z.ltb_lt)%existsb_exists.
    destruct (codable_evidence m spec Hc Hin) as [Hge _]. unfold countOf, evidenceOf in *. cbn in *. lia. }
  assert (forallb (tableEvidenceValid (publicManifest m)) migrationTableSpecs = true) as ->.
  { apply forallb_forall. intros spec Hin%list_elem_of_In. unfold tableEvidenceValid. rewrite present8 by done.
    by destruct (codable_evidence m spec Hc Hin). }
  cbn [negb orb mm_Version publicManifest]. rewrite Hv. change (8 =? 1) with false. cbv iota.
  rewrite manifest_public, (proj2 (Z.ltb_ge 8192 _)) by lia. by rewrite bool_decide_eq_true_2.
Qed.

Lemma validRequest_run `{!ManifestCodec} actor m p :
  validOpaqueID actor = true -> codable m -> mm_Version m = 8 -> mm_Phase m = MigrationSourcePrepared ->
  let request := destinationRequest m (mm_EpochID m) (mm_TargetIdentity m) in
  validRequest actor request p = inr (request, p).
Proof.
  intros Ha Hc Hv Hp request. unfold validRequest. erewrite dest_bind_run by (apply refuse_if_run; by rewrite Ha).
  erewrite dest_bind_run by (by apply found_run, canonical_run). unfold mret, D_ret. do 2 f_equal.
  unfold request, with_Manifest, destinationRequest. cbn. by rewrite <-Hp; destruct m.
Qed.
End Bind.

(** ** The stages of an execution *)

Section Stages.
Context `{Env, RowJson, PgEnv, !RowJsonRoundTrip, !CanonicalJson, !ManifestCodec}.
Context (pages : nat) (wall : Z) (ex : Executor) (request : Request) (target : string).
Context (accepts : MailCutoverPublication -> bool) (machines : list Machine) (authenticator : Authenticator).
Abbreviation actor := (xr_ActorPrincipalID request).
Abbreviation k := (xr_EpochID request).
Abbreviation records := (default [] (ex_Enrollment ex)).
Abbreviation batchSize := (if (ex_BatchSize ex <? 1) || (256 <? ex_BatchSize ex) then 128 else ex_BatchSize ex).

(** Every endpoint stays claimable by its machine, every role by a known one. *)
Definition covered (d : Db) : bool :=
  negb (mexists (fun endpoint e => negb (AllowsEndpoint authenticator (ep_machine e) endpoint)) (db_endpoints d)) &&
  negb (mexists (fun _ machine => negb (has (au_machines authenticator) machine)) (db_roles d)).

(** A well-formed request on a publisher that accepts it. *)
Record wellRequested : Prop := {
  wr_valid : validExecution ex request = true;
  wr_actor : validOpaqueID actor = true;
  wr_publish : ex_Publish ex = Some accepts /\ forall pub, accepts pub = true;
  wr_machines : ParseMachineEnrollments records = inr machines;
  wr_enrolled : exists transition, machineEnrollmentAuthenticator records = inr (authenticator, transition);
  wr_target : validMigrationDigest target = true;
}.

(** The installation the destination belongs to, but for the cutover's tables. *)
Record installed (p : Pg) : Prop := {
  in_schema : pg_current_schema p = true;
  in_idle : pg_maintenance p = false;
  in_owner : pg_owner p = Some actor;
  in_identity : pg_identity p = target;
  in_pending : existsb (fun m => bool_decide (m.2 = LegacyPending)) (pg_legacy p) = false;
  in_auth : isNull (pg_legacy_auth p) = false;
  in_keys : validateMailCutoverEnrollmentKeys machines (filter (fun m => m.2 <> LegacyPending) (pg_legacy p)) = true;
}.

Lemma installed_cutover epochs staging checkpoints targets p :
  installed p -> installed (with_cutover epochs staging checkpoints targets p).
Proof. by intros []. Qed.

(** The file in [phase], bound to this execution. *)
Record bound (w : World) (m : MigrationSourceManifest) (phase : MigrationSourcePhase) : Prop := {
  bd_inspect : inspectMigrationSource (w_control w) (st_db (w_store w)) = inr m;
  bd_phase : mm_Phase m = phase;
  bd_epoch : mm_EpochID m = k;
  bd_target : mm_TargetIdentity m = target;
  bd_expected : mm_lastExpectedFingerprint m = xr_ExpectedSourceFingerprint request;
}.

(** The manifest an epoch is begun with. *)
Definition asPrepared (m : MigrationSourceManifest) : MigrationSourceManifest :=
  withPhase MigrationSourcePrepared (mm_EpochID m) (mm_TargetIdentity m) m.

(** Epoch [k] in [phase], begun with the manifest [m]. *)
Record begun (p : Pg) (m : MigrationSourceManifest) (e : MailCutoverEpoch) (phase : MailCutoverPhase) : Prop := {
  bg_epoch : pg_epochs p !! k = Some e;
  bg_phase : me_Phase e = phase;
  bg_request : me_Request e = destinationRequest (asPrepared m) k target;
}.

(** Nothing of the epoch exists, and no other is open. *)
Record unbegun (p : Pg) : Prop := {
  ub_epoch : pg_epochs p !! k = None;
  ub_open : openEpoch (pg_epochs p) = false;
  ub_target : pg_target p = ∅;
  ub_staging table key : pg_staging p !! (k, table, key) = None;
  ub_checkpoints table : pg_checkpoints p !! (k, table) = None;
}.

(** Some rows of each table are staged. *)
Record partial (d : Db) (p : Pg) : Prop := {
  pt_target : pg_target p = ∅;
  pt_tables spec : spec ∈ executorSpecs -> exists n recorded, progress p k spec (sp_rows spec d) n recorded;
  pt_others table : table ∉ executorTables ->
    pg_checkpoints p !! (k, table) = None /\ forall key, pg_staging p !! (k, table, key) = None;
}.

(** The rows fit the limits of the export and of the mail tables. *)
Definition transferable (d : Db) : Prop :=
  Forall (fun spec =>
    Z.of_nat (length (sp_rows spec d)) <= Z.of_nat pages * batchSize /\
    Forall (fun r => exportable spec r /\ Forall boundedValue r.2 /\ forallb printable r.1 = true /\
      row_accepted (sp_target spec) (rowObject (sp_columns spec) r.2) = true) (sp_rows spec d)) migrationTableSpecs.

Context (Hreq : wellRequested).

Lemma batchSize_range : 1 <= batchSize <= 256.
Proof. destruct (_ || _) eqn:Hb; [lia|]. apply orb_false_iff in Hb as [?%Z.ltb_ge ?%Z.ltb_ge]. lia. Qed.

Lemma epoch_uuid : uuid_Validate k = true.
Proof. pose proof (wr_valid Hreq) as Hv. unfold validExecution in Hv. by bool_hyps. Qed.

Lemma bound_codable w m phase : bound w m phase -> phase <> MigrationSourceActive -> codable (asPrepared m).
Proof.
  intros Hb Hp. pose proof (inspect_codable _ _ _ (bd_inspect _ _ _ Hb)) as Hc. rewrite (bd_phase _ _ _ Hb) in Hc.
  destruct (Hc Hp). by split.
Qed.

Lemma bound_version w m phase : bound w m phase -> mm_Version m = 8.
Proof. intros Hb. by destruct (proj1 (inspect_iff _ _ _) (bd_inspect _ _ _ Hb)) as (_ & _ & ? & ? & _ & _ & ->). Qed.

Lemma spec_listed spec : spec ∈ executorSpecs -> spec ∈ migrationTableSpecs.
Proof. apply (proj1 (Forall_forall _ _) executorSpecs_listed). Qed.
Lemma spec_wf spec : spec ∈ executorSpecs -> specWf spec.
Proof. intros Hin. by apply (proj1 (Forall_forall _ _) specs_wf), spec_listed. Qed.

(** The rows of a bound file can be staged. *)
Lemma transferable_stageable w m phase spec :
  bound w m phase -> transferable (st_db (w_store w)) -> spec ∈ executorSpecs ->
  stageable spec (sp_rows spec (st_db (w_store w))).
Proof.
  intros Hb Ht Hin. pose proof (spec_wf _ Hin) as Hw. pose proof (spec_listed _ Hin) as Hl.
  pose proof (proj1 (Forall_forall _ _) Ht spec Hl) as [_ Hrows].
  destruct (proj1 (inspect_iff _ _ _) (bd_inspect _ _ _ Hb)) as (_ & _ & tables & fingerprint & He & _ & _).
  unfold evidence in He. apply bind_Some in He as (ts & Hts & _).
  destruct (tablesEvidence_elem _ _ _ spec Hts Hl) as (stream & Hstream & _).
  split.
  - eapply Forall_impl; [exact Hrows|]. by intros r (? & _).
  - assert (forallb portable (mjoin (sp_rows spec (st_db (w_store w))).*2) = true) as Hp
      by (apply writeValues_some; by eexists).
    rewrite Forall_forall in Hrows |- *. intros r Hr. destruct (Hrows r Hr) as (_ & Hi & _).
    split_and!; [by eapply wf_width|done|]. rewrite forallb_forall in Hp |- *. intros v Hv. apply Hp, list_elem_of_In.
    apply list_elem_of_join. exists r.2. split; [by apply list_elem_of_In|by apply list_elem_of_fmap_2].
  - pose proof (wf_sorted _ Hw (st_db (w_store w))) as Hs. revert Hrows.
    assert (Forall (fun r => length r.1 = sp_keys spec) (sp_rows spec (st_db (w_store w)))) as Hlen
      by (apply Forall_forall; intros r Hr; by eapply wf_keys).
    clear Hstream. revert Hlen. induction Hs as [|r rows _ IH Hr]; intros Hlen Hrows; [constructor|].
    apply Forall_cons in Hlen as [Hl1 Hlen], Hrows as [_ Hrows]. constructor; [by apply IH|].
    rewrite Forall_forall in *. intros r' Hin'. destruct (Hrows r' Hin') as (_ & _ & Hpr & _).
    unfold before, stringLt, String.ltb, stagedKey. rewrite encode_order; [done| |done|].
    + rewrite Hl1, Hlen by done. done.
    + specialize (Hr r' Hin'). unfold rowBefore, keyBefore, keysLt in Hr. by destruct (keysCompare r.1 r'.1).
Qed.

Lemma installed_mutate p : installed p -> mayMutate actor p.
Proof. intros Hi. split; [apply (wr_actor Hreq)|apply Hi|apply Hi]. Qed.

Lemma coverage_run w m :
  inspectMigrationSource (w_control w) (st_db (w_store w)) = inr m -> covered (st_db (w_store w)) = true ->
  CheckEnrollmentCoverage ex w = (inr tt, w).
Proof.
  intros Hi Hc. apply source_run. unfold CheckMigrationSourceEnrollmentCoverage.
  destruct (wr_enrolled Hreq) as [transition ->]. unfold covered in Hc. apply andb_true_iff in Hc as [He%negb_true_iff Hr%negb_true_iff].
  unfold rolled_back. erewrite bind_run by (by apply inspectNow_ok). erewrite bind_run by reflexivity.
  rewrite He. erewrite bind_run by reflexivity. erewrite bind_run by reflexivity. rewrite Hr. cbn. by destruct (w_store w).
Qed.

(** Fencing keeps the coverage. *)
Lemma covered_fenced now phase d : covered (set_phase phase (fencedDb now d)) = covered d.
Proof. unfold covered. cbn. by rewrite mexists_fmap. Qed.

Lemma inspect_run w m :
  inspectMigrationSource (w_control w) (st_db (w_store w)) = inr m -> fromSource InspectMigrationSource w = (inr m, w).
Proof.
  intros Hi. apply source_run. unfold InspectMigrationSource, rolled_back.
  rewrite (proj2 (inspectNow_ok _ m _ (w_store w))) by done. by destruct (w_store w).
Qed.

Lemma preflight_run w m :
  installed (w_pg w) -> (mm_Phase m = MigrationSourceActive -> unbegun (w_pg w)) -> checkPreflight m w = (inr tt, w).
Proof.
  intros Hi Hu. unfold checkPreflight. case_bool_decide as Hp; [|done]. specialize (Hu Hp).
  assert (forall q, (forall e, q e = true -> me_Phase e <> MailCutoverAborted) ->
    mcount (fun _ e => q e) (pg_epochs (w_pg w)) = 0) as Hz.
  { intros q Hq. apply msum_zero. intros key e He. pose proof (openEpoch_false _ _ _ (ub_open _ Hu) He) as Ha.
    destruct (q e) eqn:E; [|done]. by destruct (Hq e E). }
  assert (legacyMachines LegacyPending (w_pg w) = 0) as Hl.
  { unfold legacyMachines. rewrite filter_empty; [done|]. intros x Hx Hpend.
    pose proof (in_pending _ Hi) as Hno. apply not_true_iff_false in Hno. apply Hno, existsb_exists. exists x.
    split; [by apply list_elem_of_In|by apply bool_decide_eq_true]. }
  erewrite exec_bind_run.
  2:{ apply destination_look. unfold InspectMailCutoverPreflight. erewrite dest_bind_run by reflexivity.
      cbn [pf_IncompleteEpochs pf_ActiveEpochs].
      rewrite (Hz (fun e => bool_decide (me_Phase e = MailCutoverImporting) || bool_decide (me_Phase e = MailCutoverVerified))).
      2:{ intros e Hq. apply orb_true_iff in Hq as [Hq%bool_decide_eq_true|Hq%bool_decide_eq_true]; congruence. }
      rewrite (Hz (fun e => bool_decide (me_Phase e = MailCutoverActive))).
      2:{ intros e Hq%bool_decide_eq_true. congruence. }
      erewrite dest_bind_run by reflexivity. reflexivity. }
  cbn [pf_IncompleteEpochs pf_TargetRows pf_LegacyPending].
  erewrite exec_bind_run by (by apply fail_if_run).
  erewrite exec_bind_run by (apply fail_if_run; unfold mailCutoverEmptyTargetCount; by rewrite (ub_target _ Hu)).
  apply fail_if_run. by rewrite Hl.
Qed.

(** Beginning, or finding the epoch begun. *)
Lemma begin_run p m e :
  installed p -> codable (asPrepared m) -> mm_Version m = 8 -> mm_EpochID m = k -> mm_TargetIdentity m = target ->
  (unbegun p /\ e = {| me_Request := destinationRequest (asPrepared m) k target; me_Phase := MailCutoverImporting |} \/
   exists phase, begun p m e phase) ->
  BeginMailCutover actor (destinationRequest (asPrepared m) k target) p =
    inr (e, with_epochs (<[k := e]> (pg_epochs p)) p).
Proof.
  intros Hi Hc Hv He Ht Hcase.
  pose proof (validRequest_run actor (asPrepared m) p (wr_actor Hreq) Hc Hv eq_refl) as Hvr.
  cbn [mm_EpochID mm_TargetIdentity asPrepared withPhase] in Hvr. rewrite He, Ht in Hvr.
  unfold BeginMailCutover. erewrite dest_bind_run by exact Hvr.
  erewrite dest_bind_run by (apply refuse_if_run; apply Hi).
  erewrite dest_bind_run by (apply refuse_if_run; by rewrite (in_owner _ Hi), bool_decide_eq_true_2).
  erewrite dest_bind_run.
  2:{ unfold matchIdentity. erewrite dest_bind_run by reflexivity. apply refuse_if_run.
      by rewrite (in_identity _ Hi), bool_decide_eq_true_2. }
  erewrite dest_bind_run by reflexivity. cbn [rq_EpochID destinationRequest].
  destruct Hcase as [[Hu ->]|[phase Hb]].
  - rewrite (ub_epoch _ Hu). erewrite dest_bind_run by reflexivity.
    erewrite dest_bind_run by (apply refuse_if_run; unfold mailCutoverEmptyTargetCount; by rewrite (ub_target _ Hu)).
    erewrite dest_bind_run by (apply refuse_if_run, (ub_open _ Hu)). reflexivity.
  - rewrite (bg_epoch _ _ _ _ Hb).
    erewrite dest_bind_run.
    2:{ apply refuse_if_run. rewrite (bg_request _ _ _ _ Hb). unfold sameMailCutoverRequest.
        by rewrite !bool_decide_eq_true_2. }
    unfold mret, D_ret. rewrite (insert_id (pg_epochs p) k e) by apply Hb. by destruct p.
Qed.

Lemma unbegun_partial d p e : unbegun p -> partial d (with_epochs (<[k := e]> (pg_epochs p)) p).
Proof.
  intros [He Ho Ht Hs Hc]. split; cbn; [done| |by split].
  intros spec _. exists 0%nat, false. split; cbn; [|lia|by rewrite Hc]. intros key. by rewrite Hs.
Qed.

(** The evidence of a bound file. *)
Lemma bound_evidence w m phase spec :
  bound w m phase -> spec ∈ executorSpecs ->
  exists stream, writeValues (mjoin (sp_rows spec (st_db (w_store w))).*2) = Some stream /\
    evidenceOf m (sp_name spec) =
      (Z.of_nat (length (sp_rows spec (st_db (w_store w)))), hexEncode (Sha256.Sum256 stream)).
Proof.
  intros Hb Hin. destruct (proj1 (inspect_iff _ _ _) (bd_inspect _ _ _ Hb)) as (_ & _ & tables & fingerprint & He & _ & ->).
  unfold evidence in He. apply bind_Some in He as (ts & Hts & (bytes & _ & [= -> _])%bind_Some).
  apply evidenceOf_tables; [done|by apply spec_listed].
Qed.

(** A table of its own for a name that is none of them. *)
Definition noTable (table : string) : migrationTableSpec :=
  {| sp_name := ""; sp_target := table; sp_keys := 0; sp_columns := []; sp_rows _ := [] |}.

Lemma noTable_progress p table :
  progress p k (noTable table) [] 0 false <->
  pg_checkpoints p !! (k, table) = None /\ forall key, pg_staging p !! (k, table, key) = None.
Proof.
  split.
  - intros [Hr _ Hc]. cbn in Hr, Hc. split; [by destruct (pg_checkpoints p !! _); [destruct Hc|]|done].
  - intros [Hc Hs]. split; cbn; [done|lia|by rewrite Hc].
Qed.

Lemma import_run w m e :
  bound w m MigrationSourcePrepared -> installed (w_pg w) -> begun (w_pg w) m e MailCutoverImporting ->
  partial (st_db (w_store w)) (w_pg w) -> transferable (st_db (w_store w)) -> (0 < pages)%nat ->
  exists p', importEpoch pages request m (asPrepared m) batchSize e w =
      (inr (setEpochPhase MailCutoverVerified e), with_pg p' w) /\
    installed p' /\ begun p' m (setEpochPhase MailCutoverVerified e) MailCutoverVerified.
Proof.
  intros Hb Hi Hbg Hpt Htr Hpages. unfold importEpoch. rewrite (bg_phase _ _ _ _ Hbg), bool_decide_eq_true_2 by done.
  erewrite exec_bind_run by (apply fail_if_run; by rewrite (bd_phase _ _ _ Hb), bool_decide_eq_true_2).
  assert (accepting request e (w_pg w)) as Hac.
  { split; [by apply installed_mutate|apply Hbg|apply Hbg|apply epoch_uuid]. }
  destruct (tables_run request e pages batchSize batchSize_range Hpages (asPrepared m) m executorSpecs w) as
    (p1 & Hrun & Hfrom & Hall & Hkeep); [|by rewrite executorSpecs_targets; apply executorTables_NoDup|apply Hb|apply Hb|done|].
  { apply Forall_forall. intros spec Hin. destruct (bound_evidence w m _ spec Hb Hin) as (stream & Hst & He).
    destruct (proj1 (Forall_forall _ _) Htr spec (spec_listed _ Hin)) as [Hlen _].
    split_and!; [by apply spec_wf|by eapply transferable_stageable| |done|by apply (pt_tables _ _ Hpt)].
    unfold expectedRows. rewrite (wf_lookup _ (spec_wf _ Hin)). unfold countOf.
    change (evidenceOf (asPrepared m) (sp_name spec)) with (evidenceOf m (sp_name spec)). by rewrite He. }
  rewrite executorSpecs_targets in Hrun. erewrite exec_bind_run by exact Hrun.
  assert (complete request (st_db (w_store w)) p1) as Hcomp.
  { split.
    - intros spec Hin. split; [by eapply transferable_stageable|]. by apply (proj1 (Forall_forall _ _) Hall).
    - intros table key Hn. apply (proj1 (noTable_progress p1 table)), Hkeep; [by rewrite executorSpecs_targets|].
      apply noTable_progress. by apply (pt_others _ _ Hpt). }
  assert (codable (asPrepared m)) as Hcod by (eapply bound_codable; [exact Hb|done]).
  exists (verifiedPg request e p1). split.
  - pose proof (bg_request _ _ _ _ Hbg) as Hrq.
    erewrite destination_run.
    2:{ eapply (verify_run request e (st_db (w_store w)) p1 (publicManifest (asPrepared m))); try done.
        - by eapply accepting_from.
        - destruct Hfrom as (s & c & ->). apply Hpt.
        - by rewrite Hrq.
        - apply Hcod.
        - rewrite Hrq. cbn [rq_Manifest destinationRequest].
          replace (withPhase MigrationSourcePrepared k target (asPrepared m)) with (asPrepared m).
          + by apply manifest_unmarshals.
          + unfold asPrepared, withPhase. cbn. by rewrite (bd_epoch _ _ _ Hb), (bd_target _ _ _ Hb).
        - intros spec Hin. destruct (bound_evidence w m _ spec Hb Hin) as (stream & Hst & He). exists stream.
          split; [done|]. apply expected_evidence; [exact (bound_version _ _ _ Hb)|by apply spec_listed|exact He].
        - intros spec r Hin Hr. destruct (proj1 (Forall_forall _ _) Htr spec (spec_listed _ Hin)) as [_ Hrows].
          by destruct (proj1 (Forall_forall _ _) Hrows r Hr) as (_ & _ & _ & ?). }
    by destruct w.
  - destruct Hfrom as (s & c & ->). split; [by do 2 apply installed_cutover|].
    split; [apply lookup_insert_eq|done|apply Hbg].
Qed.

(** ** Crossing the barrier *)

Lemma readiness_run p m e :
  installed p -> begun p m e MailCutoverVerified -> validMigrationDigest (mm_Fingerprint m) = true ->
  CheckMailCutoverActivationReadiness actor k (mm_Fingerprint m) records p = inr (tt, p).
Proof.
  intros Hi Hb Hd. unfold CheckMailCutoverActivationReadiness.
  erewrite dest_bind_run by (apply refuse_if_run; by rewrite (wr_actor Hreq), epoch_uuid, Hd).
  unfold ValidateMachineEnrollments. destruct (wr_enrolled Hreq) as [transition ->]. rewrite (wr_machines Hreq).
  erewrite dest_bind_run by (apply refuse_if_run; apply Hi).
  erewrite dest_bind_run by (apply refuse_if_run; by rewrite (in_owner _ Hi), bool_decide_eq_true_2).
  erewrite dest_bind_run by reflexivity. erewrite dest_bind_run by (apply found_run, (bg_epoch _ _ _ _ Hb)).
  erewrite dest_bind_run.
  2:{ apply refuse_if_run. rewrite (bg_request _ _ _ _ Hb), (bg_phase _ _ _ _ Hb), !bool_decide_eq_true_2 by done. done. }
  erewrite dest_bind_run by reflexivity. erewrite dest_bind_run by (apply refuse_if_run, (in_auth _ Hi)).
  erewrite dest_bind_run.
  2:{ unfold noPendingMachines. erewrite dest_bind_run by reflexivity. apply refuse_if_run, (in_pending _ Hi). }
  erewrite dest_bind_run by reflexivity. apply refuse_if_run. by rewrite (in_keys _ Hi).
Qed.

(** The retired manifest matches the one the epoch was begun with. *)
Lemma sameSource_run m retired :
  mm_Version retired = mm_Version m -> mm_SourceID retired = mm_SourceID m -> mm_EpochID retired = mm_EpochID m ->
  mm_TargetIdentity retired = mm_TargetIdentity m -> mm_Fingerprint retired = mm_Fingerprint m ->
  mm_Tables retired = mm_Tables m -> mm_Phase retired = MigrationSourceRetired ->
  sameMailCutoverSource (publicManifest (asPrepared m)) retired = true.
Proof.
  intros Hv Hs He Ht Hf Htab Hp. unfold sameMailCutoverSource. cbn [mm_Version mm_SourceID mm_EpochID mm_TargetIdentity
    mm_Fingerprint mm_Phase publicManifest asPrepared withPhase].
  rewrite Hv, Hs, He, Ht, Hf, Hp, Z.eqb_refl, !bool_decide_eq_true_2 by done. cbn [andb]. rewrite andb_true_r.
  apply andb_true_intro. split; [|done]. apply forallb_forall. intros spec _. apply bool_decide_eq_true.
  unfold evidenceOf. cbn [mm_Tables publicManifest asPrepared withPhase]. by rewrite Htab.
Qed.

Lemma activate_run p m e retired :
  installed p -> codable (asPrepared m) -> begun p m e MailCutoverVerified ->
  mm_EpochID m = k -> mm_TargetIdentity m = target ->
  sameMailCutoverSource (publicManifest (asPrepared m)) retired = true -> mm_Phase retired = MigrationSourceRetired ->
  mm_EpochID retired = k -> mm_Fingerprint retired = mm_Fingerprint m ->
  exists p', ActivateMailCutover actor k (mm_Fingerprint m) retired p = inr (setEpochPhase MailCutoverActive e, p') /\
    pg_epochs p' = <[k := setEpochPhase MailCutoverActive e]> (pg_epochs p).
Proof.
  intros Hi Hc Hb He Ht Hsame Hp Hre Hrf. unfold ActivateMailCutover.
  erewrite dest_bind_run.
  2:{ apply refuse_if_run. rewrite (wr_actor Hreq), epoch_uuid, Hp, Hre, Hrf, !bool_decide_eq_true_2 by done.
      change (mm_Fingerprint m) with (mm_Fingerprint (asPrepared m)). by rewrite (cd_fingerprint _ Hc). }
  erewrite dest_bind_run by (apply refuse_if_run; apply Hi).
  erewrite dest_bind_run by (apply refuse_if_run; by rewrite (in_owner _ Hi), bool_decide_eq_true_2).
  erewrite dest_bind_run by reflexivity. erewrite dest_bind_run by (apply found_run, (bg_epoch _ _ _ _ Hb)).
  erewrite dest_bind_run.
  2:{ apply refuse_if_run. rewrite (bg_request _ _ _ _ Hb), bool_decide_eq_true_2 by done. done. }
  erewrite dest_bind_run.
  2:{ apply found_run. rewrite (bg_request _ _ _ _ Hb). cbn [rq_Manifest destinationRequest].
      replace (withPhase MigrationSourcePrepared k target (asPrepared m)) with (asPrepared m).
      - by apply manifest_unmarshals.
      - unfold asPrepared, withPhase. cbn. by rewrite He, Ht. }
  erewrite dest_bind_run by (apply refuse_if_run; by rewrite Hsame).
  rewrite (bg_phase _ _ _ _ Hb), bool_decide_eq_false_2 by done.
  erewrite dest_bind_run by (by apply refuse_if_run).
  erewrite dest_bind_run.
  2:{ unfold noPendingMachines. erewrite dest_bind_run by reflexivity. apply refuse_if_run, (in_pending _ Hi). }
  erewrite dest_bind_run by reflexivity. pose proof (in_auth _ Hi) as Hauth.
  destruct (pg_legacy_auth p) as [[|]|]; [..|done]; eexists; (split; [reflexivity|done]).
Qed.

(** The end of an execution. *)
Definition crossed (w : World) : Prop :=
  db_phase (st_db (w_store w)) = MigrationSourceRetired /\
  exists e, pg_epochs (w_pg w) !! k = Some e /\ me_Phase e = MailCutoverActive.

(** From a verified epoch, with the file prepared or already retired. *)
Lemma crossing_run w m e phase :
  bound w m phase -> phase <> MigrationSourceActive -> installed (w_pg w) -> begun (w_pg w) m e MailCutoverVerified ->
  exists retired w', activateEpoch wall ex request target m (asPrepared m) e w =
      (inr (retired, setEpochPhase MailCutoverActive e), w') /\
    mm_Phase retired = MigrationSourceRetired /\ crossed w'.
Proof.
  intros Hb Hph Hi Hbg. pose proof (bound_codable _ _ _ Hb Hph) as Hcod.
  assert (exists retired control s, retireSource wall ex request target m (asPrepared m) w =
      (inr retired, with_source control s w) /\ mm_Phase retired = MigrationSourceRetired /\
    db_phase (st_db s) = MigrationSourceRetired /\ mm_EpochID retired = mm_EpochID m /\
    mm_Fingerprint retired = mm_Fingerprint m /\
    sameMailCutoverSource (publicManifest (asPrepared m)) retired = true) as
    (retired & control & s & Hret & Hrp & Hrs & Hre & Hrf & Hsame).
  { unfold retireSource. rewrite (bd_phase _ _ _ Hb). case_bool_decide as Hp; [subst phase|].
    - pose proof (cd_fingerprint _ Hcod) as Hfp.
      erewrite exec_bind_run by (apply destination_look; exact (readiness_run _ m e Hi Hbg Hfp)).
      destruct (transition_run (w_control w) k target MigrationSourceRetired wall m (w_store w)) as [Hrun _];
        [apply Hb|apply Hb| |apply epoch_uuid|apply (wr_target Hreq)|done|].
      { unfold bindingIs. by rewrite (bd_epoch _ _ _ Hb), (bd_target _ _ _ Hb), !bool_decide_eq_true_2. }
      erewrite command_run by exact Hrun. eexists _, _, _. split; [reflexivity|]. split_and!; try done.
      by apply sameSource_run.
    - destruct phase; [done|done|]. exists m, (w_control w), (w_store w). split; [by destruct w|].
      destruct (inspect_ok _ _ _ (bd_inspect _ _ _ Hb)) as (Hd & _). rewrite (bd_phase _ _ _ Hb) in Hd.
      split_and!; try done; [apply Hb|]. apply sameSource_run; try done. apply Hb. }
  unfold activateEpoch. rewrite (bg_phase _ _ _ _ Hbg), bool_decide_eq_true_2 by done.
  erewrite exec_bind_run by exact Hret.
  erewrite exec_bind_run by (apply fail_if_run; by rewrite Hrp, bool_decide_eq_true_2).
  destruct (activate_run (w_pg w) m e retired) as (p' & Hact & Hep); try done;
    [apply Hb|apply Hb|by rewrite Hre, (bd_epoch _ _ _ Hb)|].
  erewrite exec_bind_run by (by apply destination_run).
  eexists retired, _. split; [reflexivity|]. split; [done|]. split; [done|]. cbn. rewrite Hep.
  eexists. split; [apply lookup_insert_eq|done].
Qed.

(** Where an execution can be interrupted. *)
Inductive boundary (w : World) : Prop :=
  | at_start m :
      inspectMigrationSource (w_control w) (st_db (w_store w)) = inr m -> mm_Phase m = MigrationSourceActive ->
      mm_Fingerprint m = xr_ExpectedSourceFingerprint request -> unbegun (w_pg w) ->
      transferable (set_phase MigrationSourcePrepared (fencedDb (xr_Cutoff request) (st_db (w_store w)))) -> boundary w
  | at_prepared m :
      bound w m MigrationSourcePrepared -> unbegun (w_pg w) -> transferable (st_db (w_store w)) -> boundary w
  | at_importing m e :
      bound w m MigrationSourcePrepared -> begun (w_pg w) m e MailCutoverImporting ->
      partial (st_db (w_store w)) (w_pg w) -> transferable (st_db (w_store w)) -> boundary w
  | at_verified m e phase :
      bound w m phase -> phase <> MigrationSourceActive -> begun (w_pg w) m e MailCutoverVerified -> boundary w
  | at_active m e :
      bound w m MigrationSourceRetired -> begun (w_pg w) m e MailCutoverActive -> boundary w.

(** An epoch that is begun is carried to the end. *)
Lemma carry_run w m phase e :
  bound w m phase -> phase <> MigrationSourceActive -> installed (w_pg w) -> (0 < pages)%nat ->
  phase = MigrationSourcePrepared /\ begun (w_pg w) m e MailCutoverImporting /\
    partial (st_db (w_store w)) (w_pg w) /\ transferable (st_db (w_store w)) \/
  begun (w_pg w) m e MailCutoverVerified \/
  phase = MigrationSourceRetired /\ begun (w_pg w) m e MailCutoverActive ->
  exists epoch w1 retired active w2,
    importEpoch pages request m (asPrepared m) batchSize e w = (inr epoch, w1) /\
    activateEpoch wall ex request target m (asPrepared m) epoch w1 = (inr (retired, active), w2) /\
    mm_Phase retired = MigrationSourceRetired /\ me_Phase active = MailCutoverActive /\ crossed w2.
Proof.
  intros Hb Hph Hi Hpages [(-> & Hbg & Hpt & Htr)|[Hbg|[-> Hbg]]].
  - destruct (import_run w m e Hb Hi Hbg Hpt Htr Hpages) as (p' & Himp & Hi' & Hbg').
    destruct (crossing_run (with_pg p' w) m (setEpochPhase MailCutoverVerified e) MigrationSourcePrepared) as
      (retired & w' & Hact & Hr & Hc); [by destruct Hb|done..|]. by eexists _, _, _, _, _.
  - destruct (crossing_run w m e phase Hb Hph Hi Hbg) as (retired & w' & Hact & Hr & Hc).
    eexists _, _, _, _, _. split; [|by split_and!]. unfold importEpoch.
    by rewrite (bg_phase _ _ _ _ Hbg), bool_decide_eq_false_2.
  - eexists e, w, m, e, w. unfold importEpoch, activateEpoch.
    rewrite (bg_phase _ _ _ _ Hbg), !bool_decide_eq_false_2 by done. split_and!; [done..|apply Hb|done|].
    destruct (inspect_ok _ _ _ (bd_inspect _ _ _ Hb)) as (Hd & _). rewrite (bd_phase _ _ _ Hb) in Hd.
    split; [done|]. exists e. by split; apply Hbg.
Qed.

(** The part of [Execute] from binding the source on. *)
Definition rest (m : MigrationSourceManifest) : X Result :=
  let prepared := withPhase MigrationSourcePrepared (mm_EpochID m) (mm_TargetIdentity m) m in
  epoch ← onDestination (BeginMailCutover actor (destinationRequest prepared k target));
  epoch ← importEpoch pages request m prepared batchSize epoch;
  '(manifest, epoch) ← activateEpoch wall ex request target m prepared epoch;
  fail_if (negb (bool_decide (me_Phase epoch = MailCutoverActive)) ||
    negb (bool_decide (mm_Phase manifest = MigrationSourceRetired))) (CutError "authority boundary");;
  publish ex {| pb_Version := 1; pb_EpochID := k; pb_TargetIdentity := target; pb_SourceFingerprint := mm_Fingerprint prepared |};;
  mret {| xr_Epoch := k; xr_SourceFingerprint := mm_Fingerprint prepared;
          xr_SourcePhase := mm_Phase manifest; xr_Phase := me_Phase epoch |}.

Definition completed (x : Result) (w : World) : Prop :=
  crossed w /\ xr_Epoch x = k /\ xr_SourcePhase x = MigrationSourceRetired /\ xr_Phase x = MailCutoverActive /\
  w_published w = Some {| pb_Version := 1; pb_EpochID := k; pb_TargetIdentity := target; pb_SourceFingerprint := xr_SourceFingerprint x |}.

Lemma rest_run w m phase :
  bound w m phase -> phase <> MigrationSourceActive -> installed (w_pg w) -> (0 < pages)%nat ->
  phase = MigrationSourcePrepared /\ unbegun (w_pg w) /\ transferable (st_db (w_store w)) \/
  (exists e, phase = MigrationSourcePrepared /\ begun (w_pg w) m e MailCutoverImporting /\
     partial (st_db (w_store w)) (w_pg w) /\ transferable (st_db (w_store w)) \/
   begun (w_pg w) m e MailCutoverVerified \/
   phase = MigrationSourceRetired /\ begun (w_pg w) m e MailCutoverActive) ->
  exists x w', rest m w = (inr x, w') /\ completed x w'.
Proof.
  intros Hb Hph Hi Hpages Hcase. pose proof (bound_codable _ _ _ Hb Hph) as Hcod.
  assert (exists e w1, onDestination (BeginMailCutover actor (destinationRequest (asPrepared m) k target)) w = (inr e, w1) /\
    bound w1 m phase /\ installed (w_pg w1) /\
    (phase = MigrationSourcePrepared /\ begun (w_pg w1) m e MailCutoverImporting /\
       partial (st_db (w_store w1)) (w_pg w1) /\ transferable (st_db (w_store w1)) \/
     begun (w_pg w1) m e MailCutoverVerified \/
     phase = MigrationSourceRetired /\ begun (w_pg w1) m e MailCutoverActive)) as (e & w1 & Hbegin & Hb1 & Hi1 & Hcase1).
  { destruct Hcase as [(-> & Hu & Htr)|(e & Hcase)].
    - eexists _, _. split; [apply destination_run, begin_run; [done|done|by eapply bound_version|apply Hb|apply Hb|by left]|].
      split; [by destruct Hb|]. split; [by apply installed_cutover|]. left. split; [done|].
      split; [by split; [apply lookup_insert_eq|..]|]. split; [by apply unbegun_partial|done].
    - exists e, w. assert (exists phase', begun (w_pg w) m e phase') as [phase' Hbg].
      { destruct Hcase as [(_ & ? & _)|[?|[_ ?]]]; by eexists. }
      split; [|done]. apply destination_look.
      rewrite (begin_run (w_pg w) m e); [|done|done|by eapply bound_version|apply Hb|apply Hb|right; by exists phase'].
      rewrite insert_id by apply Hbg. by destruct (w_pg w). }
  destruct (carry_run w1 m phase e Hb1 Hph Hi1 Hpages Hcase1) as (epoch & w2 & retired & active & w3 & Himp & Hact & Hr & Ha & Hc).
  unfold rest. cbv zeta. erewrite exec_bind_run by exact Hbegin. erewrite exec_bind_run by exact Himp.
  erewrite exec_bind_run by exact Hact. cbn beta iota.
  erewrite exec_bind_run by (apply fail_if_run; by rewrite Hr, Ha, !bool_decide_eq_true_2).
  destruct (wr_publish Hreq) as [Hpub Hacc].
  erewrite exec_bind_run by (unfold publish; rewrite Hpub, Hacc; reflexivity).
  eexists _, _. split; [reflexivity|]. by split_and!.
Qed.

(** The part of [Execute] up to there. *)
Lemma execute_run w inspected m w1 :
  installed (w_pg w) -> covered (st_db (w_store w)) = true ->
  inspectMigrationSource (w_control w) (st_db (w_store w)) = inr inspected ->
  (mm_Phase inspected = MigrationSourceActive -> unbegun (w_pg w)) ->
  bindSource ex request target inspected w = (inr m, w1) ->
  Execute pages wall ex request w = rest m w1.
Proof.
  intros Hi Hc Hins Hu Hbind. unfold Execute.
  erewrite exec_bind_run by (apply fail_if_run; by rewrite (wr_valid Hreq)).
  erewrite exec_bind_run.
  2:{ apply destination_look. unfold CheckMailCutoverSchemaReadiness. erewrite dest_bind_run by reflexivity.
      apply refuse_if_run. by rewrite (in_schema _ Hi). }
  cbv zeta. erewrite exec_bind_run by (apply destination_look; unfold Identity, look; by rewrite (in_identity _ Hi)).
  erewrite exec_bind_run by (by apply inspect_run). erewrite exec_bind_run by (by apply preflight_run).
  erewrite exec_bind_run by (by eapply coverage_run). erewrite exec_bind_run by exact Hbind. reflexivity.
Qed.

Lemma bind_run_bound w m phase :
  bound w m phase -> phase <> MigrationSourceActive -> bindSource ex request target m w = (inr m, w).
Proof.
  intros Hb Hph. unfold bindSource. rewrite (bd_phase _ _ _ Hb), bool_decide_eq_false_2 by done.
  erewrite exec_bind_run; [reflexivity|]. apply fail_if_run.
  by rewrite (bd_epoch _ _ _ Hb), (bd_target _ _ _ Hb), (bd_expected _ _ _ Hb), !bool_decide_eq_true_2.
Qed.

(** Binding an active file prepares it. *)
Lemma bind_run_active w m :
  inspectMigrationSource (w_control w) (st_db (w_store w)) = inr m -> mm_Phase m = MigrationSourceActive ->
  mm_Fingerprint m = xr_ExpectedSourceFingerprint request -> covered (st_db (w_store w)) = true ->
  exists m1 control s, bindSource ex request target m w = (inr m1, with_source control s w) /\
    st_db s = set_phase MigrationSourcePrepared (fencedDb (xr_Cutoff request) (st_db (w_store w))) /\
    bound (with_source control s w) m1 MigrationSourcePrepared.
Proof.
  intros Hi Hp Hf Hc. pose proof (wr_valid Hreq) as Hv. unfold validExecution in Hv. bool_hyps.
  destruct (prepare_run (w_control w) k target (xr_Cutoff request) m (w_store w)) as (prepared & _ & Hrun);
    [done|done|done|apply (wr_target Hreq)|done|].
  pose proof (prepared_inspects _ _ _ _ _ _ _ _ _ Hrun) as (Hi1 & Ha & _). unfold preparedAlready in Ha. bool_hyps.
  unfold bindingIs in *. bool_hyps. unfold bindSource. rewrite Hp, bool_decide_eq_true_2 by done.
  erewrite exec_bind_run by (apply fail_if_run; by rewrite Hf, bool_decide_eq_true_2).
  rewrite Hf in Hrun. eexists _, _, _. split.
  - erewrite exec_bind_run by (apply command_run; exact Hrun).
    erewrite exec_bind_run; [reflexivity|]. eapply coverage_run; cbn; [by rewrite <-Hf|]. by rewrite covered_fenced.
  - split; [done|]. rewrite Hf in *. by split.
Qed.

End Stages.

(** * Aborting an execution completes

    While the destination has no authority an execution can be taken back,
    whatever became of it: the epoch not begun, importing, verified or already
    reserved as aborted, and the file prepared or, after an interrupted abort,
    active again. *)

Section Rollback.
Context `{Env, PgEnv} {codec : ManifestCodec}.
Context (actor k target : string) (wall : Z).
Context (Hactor : uuid_Validate actor = true) (Hk : uuid_Validate k = true) (Htarget : validMigrationDigest target = true).

(** Epoch [k] is at the destination with this fingerprint, without authority. *)
Record pendingEpoch (p : Pg) (fingerprint : string) (e : MailCutoverEpoch) : Prop := {
  pe_epoch : pg_epochs p !! k = Some e;
  pe_phase : me_Phase e <> MailCutoverActive;
  pe_fingerprint : rq_SourceFingerprint (me_Request e) = fingerprint;
}.

Inductive abortable (w : World) : Prop :=
  | abort_prepared m :
      inspectMigrationSource (w_control w) (st_db (w_store w)) = inr m -> mm_Phase m = MigrationSourcePrepared ->
      mm_EpochID m = k -> mm_TargetIdentity m = target ->
      (pg_epochs (w_pg w) !! k = None \/ exists e, pendingEpoch (w_pg w) (mm_Fingerprint m) e) -> abortable w
  | abort_reopened m fingerprint e :
      inspectMigrationSource (w_control w) (st_db (w_store w)) = inr m -> mm_Phase m = MigrationSourceActive ->
      validMigrationDigest fingerprint = true -> lastIs m k target fingerprint "aborted" = true ->
      pendingEpoch (w_pg w) fingerprint e -> abortable w.

(** The status of an epoch the owner asks for. *)
Lemma status_run p :
  mayMutate actor p ->
  MailCutoverStatus actor k p = match pg_epochs p !! k with Some e => inr (e, p) | None => inl CutNotFound end.
Proof using Hk.
  intros [Ha _ Ho]. unfold MailCutoverStatus. erewrite dest_bind_run by (apply refuse_if_run; by rewrite Ha, Hk).
  erewrite dest_bind_run by (apply refuse_if_run; by rewrite Ho, bool_decide_eq_true_2).
  pg_run. by destruct (pg_epochs p !! k).
Qed.

Lemma reserve_run p m :
  mayMutate actor p -> pg_identity p = target -> codable m -> mm_Version m = 8 ->
  mm_Phase m = MigrationSourcePrepared -> mm_EpochID m = k -> mm_TargetIdentity m = target -> pg_epochs p !! k = None ->
  let e := {| me_Request := destinationRequest m k target; me_Phase := MailCutoverAborted |} in
  ReserveMailCutoverAbort actor (destinationRequest m k target) p =
    inr (e, with_epochs (<[k := e]> (pg_epochs p)) p).
Proof using codec.
  intros [Ha _ Ho] Hid Hc Hv Hp He Ht Hn e. pose proof (validRequest_run actor m p Ha Hc Hv Hp) as Hvr.
  cbn in Hvr. rewrite He, Ht in Hvr. unfold ReserveMailCutoverAbort. erewrite dest_bind_run by exact Hvr.
  erewrite dest_bind_run by (apply refuse_if_run; by rewrite Ho, bool_decide_eq_true_2).
  erewrite dest_bind_run.
  2:{ unfold matchIdentity. pg_run. apply refuse_if_run. cbn. by rewrite Hid, bool_decide_eq_true_2. }
  pg_run. cbn [rq_EpochID destinationRequest]. by rewrite Hn.
Qed.

(** The destination's abort of an epoch without authority. *)
Lemma abort_run p fingerprint e :
  mayMutate actor p -> validMigrationDigest fingerprint = true -> pendingEpoch p fingerprint e ->
  exists p', AbortMailCutover actor k fingerprint p = inr (tt, p') /\
    pg_epochs p' !! k = Some (setEpochPhase MailCutoverAborted e).
Proof using Hk.
  intros [Ha Hm Ho] Hf [He Hp Hfp]. unfold AbortMailCutover.
  erewrite dest_bind_run by (apply refuse_if_run; by rewrite Ha, Hk, Hf).
  erewrite dest_bind_run by (by apply refuse_if_run).
  erewrite dest_bind_run by (apply refuse_if_run; by rewrite Ho, bool_decide_eq_true_2).
  pg_run. erewrite dest_bind_run by (by apply found_run).
  erewrite dest_bind_run by (apply refuse_if_run; by rewrite Hfp, bool_decide_eq_true_2).
  erewrite dest_bind_run by (apply refuse_if_run; by rewrite bool_decide_eq_false_2).
  case_bool_decide as Hab.
  - exists p. split; [done|]. rewrite He. destruct e; cbn in *. by subst.
  - eexists. split; [reflexivity|]. apply lookup_insert_eq.
Qed.

(** The fingerprint is found, under a reservation when the destination has no
    epoch. *)
Lemma fingerprint_run w m fingerprint :
  mayMutate actor (w_pg w) -> pg_identity (w_pg w) = target ->
  (exists e, pendingEpoch (w_pg w) fingerprint e) \/
  pg_epochs (w_pg w) !! k = None /\ codable m /\ mm_Version m = 8 /\ mm_Phase m = MigrationSourcePrepared /\
    mm_EpochID m = k /\ mm_TargetIdentity m = target /\ mm_Fingerprint m = fingerprint ->
  exists p e, abortFingerprint actor k target m w = (inr fingerprint, with_pg p w) /\
    mayMutate actor p /\ pendingEpoch p fingerprint e.
Proof using All.
  intros Hm Hid [[e Hpe]|(Hn & Hc & Hv & Hp & He & Ht & Hf)]; unfold abortFingerprint.
  - erewrite exec_bind_run by (unfold result, onDestination; rewrite (status_run _ Hm), (pe_epoch _ _ _ Hpe); reflexivity).
    exists (w_pg w), e. split; [|done].
    erewrite exec_bind_run by (apply fail_if_run, bool_decide_eq_false_2, Hpe).
    unfold mret, X_ret. by rewrite (pe_fingerprint _ _ _ Hpe); destruct w.
  - erewrite exec_bind_run by (unfold result, onDestination; rewrite (status_run _ Hm), Hn; reflexivity).
    eexists _, _. split.
    + erewrite exec_bind_run by (by apply fail_if_run).
      erewrite exec_bind_run by (apply fail_if_run; by rewrite Hp, He, Ht, !bool_decide_eq_true_2).
      erewrite exec_bind_run by (by apply destination_run, reserve_run).
      erewrite exec_bind_run by (apply fail_if_run; cbn; by rewrite !bool_decide_eq_true_2).
      by rewrite Hf.
    + split; [by destruct Hm|]. split; cbn; [apply lookup_insert_eq|done|done].
Qed.

(** The file is reopened, or was. *)
Lemma reopen_run control m fingerprint s :
  inspectMigrationSource control (st_db s) = inr m -> validMigrationDigest fingerprint = true ->
  mm_Phase m = MigrationSourcePrepared /\ bindingIs m k target = true /\ mm_Fingerprint m = fingerprint \/
  mm_Phase m = MigrationSourceActive /\ lastIs m k target fingerprint "aborted" = true ->
  exists m' control' s', AbortPreparedMigrationSource control k target fingerprint wall s = (inr (m', control'), s') /\
    mm_Phase m' = MigrationSourceActive /\ st_db s' = set_phase MigrationSourceActive (st_db s).
Proof using Hk Htarget.
  intros Hi Hf [(Hp & Hb & <-)|[Hp Hl]].
  - destruct (transition_run control k target MigrationSourceActive wall m s) as [Hr _]; [done..|].
    by eexists _, _, _.
  - exists m, control, s. split; [|split; [done|]].
    + unfold AbortPreparedMigrationSource, transitionPreparedMigrationSource.
      erewrite bind_run by (apply reject_if_run; by rewrite Hk, Htarget, Hf).
      eapply mutate_run; [done|]. by rewrite Hp, Hl.
    + destruct (inspect_ok _ _ _ Hi) as (Hd & _). rewrite Hp in Hd. destruct (st_db s); cbn in *. by subst.
Qed.

End Rollback.
