(* ===== verification/Restart.v ===== *)
(** * Restarting the relay

    Opening the file of a running store again changes nothing in it: claim keys
    are unique and recorded, the quota counters are exact, so every statement
    of [migrate] finds its work done and the verification pass accepts. *)

From S2P Require Import Prelude GoTime RateLimit Quota Text Sha256 Tables Tx Sessions Pending Opening.
From S2P Require Import QuotaInv Invocations Rooms Claims Roles Directory Messages Deliveries Relay.
From S2P Require Import QuotaOps.
Open Scope Z_scope.

(** ** Claim keys *)

Definition claim_keys_unique (d : Db) : Prop :=
  forall c c' cl cl', db_telegram_claims d !! c = Some cl -> db_telegram_claims d !! c' = Some cl' ->
    cl_machine cl = cl_machine cl' -> cl_key cl = cl_key cl' -> c = c'.

Definition claims_recorded (d : Db) : Prop :=
  forall c cl, db_telegram_claims d !! c = Some cl ->
    ValidMachineID (cl_machine cl) = true /\
    is_Some (db_telegram_claim_idempotency d !! (cl_machine cl, cl_key cl)).

Definition claims_ok (d : Db) : Prop := claim_keys_unique d /\ claims_recorded d.

Lemma claim_row_unique d c cl c' cl' :
  row_ok t_telegram_claims d c cl = true -> db_telegram_claims d !! c' = Some cl' ->
  cl_machine cl' = cl_machine cl -> cl_key cl' = cl_key cl -> c' = c.
Proof.
  unfold row_ok. cbn. intros Hu%negb_true_iff Hc' Hm Hk. destruct (decide (c' = c)) as [|Hne]; [done|].
  exfalso. rewrite mexists_false in Hu. specialize (Hu c' cl' Hc').
  rewrite bool_decide_eq_false_2, !bool_decide_eq_true_2 in Hu by done. done.
Qed.

Lemma set_claim_unique d c cl :
  row_ok t_telegram_claims d c cl = true -> claim_keys_unique d ->
  claim_keys_unique (set_telegram_claims (<[c := cl]> (db_telegram_claims d)) d).
Proof.
  intros Hok HU c1 c2 cl1 cl2. cbn. rewrite !lookup_insert_Some.
  intros [[<- <-]|[Hn1 H1]] [[<- <-]|[Hn2 H2]] Hm Hk; [done|symmetry|..].
  - by apply (claim_row_unique d c cl c2 cl2).
  - by apply (claim_row_unique d c cl c1 cl1).
  - by apply (HU c1 c2 cl1 cl2).
Qed.

Lemma claim_inserted conv cl d : row_ok t_telegram_claims d conv cl = true ->
  ValidMachineID (cl_machine cl) = true -> claims_ok d ->
  let d1 := set_telegram_claims (<[conv := cl]> (db_telegram_claims d)) d in
  is_Some (db_telegram_claim_idempotency d !! (cl_machine cl, cl_key cl)) -> claims_ok d1.
Proof.
  intros Hok Hv [HU HR] d1 Hb. split; [by apply set_claim_unique|].
  intros c cl1. cbn. rewrite lookup_insert_Some. intros [[<- <-]|[_ Hc]]; [done|exact (HR c cl1 Hc)].
Qed.

Lemma key_recorded k row d : claims_ok d ->
  claims_ok (set_telegram_claim_idempotency (<[k := row]> (db_telegram_claim_idempotency d)) d).
Proof.
  intros [HU HR]. split; [done|]. intros c cl Hc. destruct (HR c cl Hc) as [? Hb]. split; [done|].
  cbn. rewrite lookup_insert. case_decide; [by eexists|done].
Qed.

(** A reservation writes the claim and then its key. *)
Lemma reserve_recorded {A} machine key conv cl hash now (k : unit -> M A) :
  cl_machine cl = machine -> cl_key cl = key -> ValidMachineID machine = true ->
  (forall u, preserves claims_ok (k u)) ->
  preserves claims_ok (sql_insert t_telegram_claims conv cl ≫= fun _ =>
    bindTelegramClaimIdempotency machine key conv hash now ≫= k).
Proof.
  intros <- <- Hv Hk s a s' Hr HI. tx_inv Hr.
  apply sql_insert_ok in Hm as (_ & _ & Hok & _ & ->). eapply Hk; [done|]. clear Hr.
  unfold bindTelegramClaimIdempotency in Hm0. tx_inv Hm0.
  destruct (db_telegram_claim_idempotency _ !! _) as [row|] eqn:Hb; tx_inv Hm0.
  - by apply claim_inserted.
  - apply sql_insert_ok in Hm0 as (_ & _ & _ & _ & ->).
    apply (claim_inserted conv cl (set_telegram_claim_idempotency
      (<[(cl_machine cl, cl_key cl) := {| id_hash := hash; id_target := conv; id_created_at := ms now |}]>
        (db_telegram_claim_idempotency (st_db s))) (st_db s))); try done.
    + by apply key_recorded.
    + cbn. rewrite lookup_insert_eq. by eexists.
Qed.

Lemma complete_claims conv cond completedAt :
  preserves claims_ok (sql_update t_telegram_claims conv cond (completeRow completedAt)).
Proof.
  intros s n s' [(_ & -> & _)|(_ & cl & Hc & _ & _ & Hok & ->)]%sql_update_ok [HU HR]; [done|].
  apply claim_inserted; try done; apply (HR conv cl Hc).
Qed.

Lemma insert_claim_key k row : preserves claims_ok (sql_insert t_telegram_claim_idempotency k row).
Proof. intros s u s' (_ & _ & _ & _ & ->)%sql_insert_ok HI. by apply key_recorded. Qed.
#[export] Hint Resolve complete_claims insert_claim_key : preserve.

Section Restart.
Context `{Env}.

#[local] Hint Extern 1 (preserves claims_ok (mbind _ (sql_insert t_telegram_claims _ _))) =>
  apply reserve_recorded; [reflexivity|reflexivity|assumption|intros ?; preserve] : preserve.

Lemma reserve_claims input : keeps claims_ok (ReserveTelegramClaim input).
Proof.
  unfold ReserveTelegramClaim. apply keeps_guard. intros Hg. bool_hyps. keep. preserve.
Qed.
#[local] Hint Resolve reserve_claims : preserve.

#[export] Instance claims_ok_invariant : RelayInvariant claims_ok.
Proof.
  split; [split; [intros p d HI; exact HI|intros op; keep_op]|]. split; by intros ? ?.
Qed.
End Restart.

(** ** Reopening finds nothing to do *)

Lemma scopedKey_inj m k m' k' : ValidMachineID m = true -> ValidMachineID m' = true ->
  scopedKey m k = scopedKey m' k' -> m = m' /\ k = k'.
Proof.
  intros Hm Hm' E. apply (f_equal bytesOf) in E. unfold scopedKey in E. rewrite !bytesOf_app in E.
  apply split_at_nul in E as [E1 E2]; [|by eapply valid_text_no_nul..].
  split; [rewrite <-(ofBytes_bytesOf m), E1|rewrite <-(ofBytes_bytesOf k); fold (bytesOf k) in E2; rewrite E2];
    apply ofBytes_bytesOf.
Qed.

Lemma groupClaims_snoc claims row :
  groupClaims (claims ++ [row]) =
  <[rowKey row := default [] (groupClaims claims !! rowKey row) ++ [row]]> (groupClaims claims).
Proof. unfold groupClaims. by rewrite foldl_app. Qed.

Lemma groupClaims_dom claims k : is_Some (groupClaims claims !! k) <-> k ∈ rowKey <$> claims.
Proof.
  induction claims as [|row claims IH] using rev_ind; [cbn; rewrite lookup_empty; set_solver|].
  rewrite groupClaims_snoc, fmap_app, lookup_insert, elem_of_app, <-IH.
  case_decide as Hk; [subst|]; set_solver.
Qed.

(** Distinct keys make groups of one. *)
Lemma groupClaims_singletons claims k group : NoDup (rowKey <$> claims) ->
  groupClaims claims !! k = Some group -> exists row, group = [row].
Proof.
  revert group. induction claims as [|row claims IH] using rev_ind; intros group; [done|].
  rewrite fmap_app, NoDup_app. intros (Hnd & Hnew & _).
  rewrite groupClaims_snoc, lookup_insert. case_decide as Hk; [|by apply IH].
  intros [= <-]. destruct (groupClaims claims !! rowKey row) eqn:Hg; [|by eexists].
  exfalso. apply (Hnew (rowKey row)); [|set_solver]. apply groupClaims_dom. by eexists.
Qed.

Lemma reconcileGroups_singletons groups used s :
  (forall g, g ∈ groups -> exists row, g = [row]) -> reconcileGroups groups used s = (inr tt, s).
Proof.
  induction groups as [|g groups IH]; intros Hg; [done|].
  destruct (Hg g) as [row ->]; [set_solver|]. simpl. erewrite bind_run by reflexivity. apply IH. set_solver.
Qed.

Lemma claim_rowKeys d : claims_ok d ->
  NoDup (rowKey <$> (claimKeyRow <$> map_to_list (db_telegram_claims d))).
Proof.
  intros [HU HR]. rewrite <-list_fmap_compose. apply NoDup_fmap_2_strong; [|apply NoDup_map_to_list].
  intros [c cl] [c' cl'] Hc%elem_of_map_to_list Hc'%elem_of_map_to_list E.
  apply scopedKey_inj in E as [E1 E2]; [|by eapply HR..]. simpl in E1, E2.
  assert (c = c') as <- by by apply (HU c c' cl cl'). congruence.
Qed.

Lemma reconcile_noop s : claims_ok (st_db s) ->
  reconcileLegacyDuplicateTelegramClaimKeys s = (inr tt, s).
Proof.
  intros HI. unfold reconcileLegacyDuplicateTelegramClaimKeys. erewrite bind_run by reflexivity.
  apply reconcileGroups_singletons. intros g Hg.
  apply list_elem_of_fmap in Hg as ([k g'] & -> & Hg%elem_of_map_to_list).
  eapply groupClaims_singletons; [|done]. by apply claim_rowKeys.
Qed.

(** INSERT OR IGNORE of a row whose key is taken. *)
Lemma ignored_run {K V} `{Countable K} (T : Table K V) k v s :
  may_write T s -> is_Some (t_get T (st_db s) !! k) -> sql_insert_or_ignore T k v s = (inr tt, s).
Proof.
  intros Hw Hk. unfold sql_insert_or_ignore, sql_try_insert. erewrite bind_run; [reflexivity|].
  erewrite bind_run by (by apply trigger_run). erewrite bind_run by reflexivity.
  rewrite (proj2 (has_true _ _) Hk). reflexivity.
Qed.

Lemma for_each_noop {A} (l : list A) f s :
  (forall x, x ∈ l -> f x s = (inr tt, s)) -> for_each l f s = (inr tt, s).
Proof.
  induction l as [|x l IH]; intros Hf; [done|]. simpl. erewrite bind_run by (apply Hf; set_solver).
  apply IH. set_solver.
Qed.

Lemma copyClaimKeys_noop s : writable (st_db s) = true -> claims_ok (st_db s) ->
  copyClaimKeys s = (inr tt, s).
Proof.
  intros Hw [_ HR]. unfold copyClaimKeys. erewrite bind_run by reflexivity. apply for_each_noop.
  intros [c cl] Hc%elem_of_map_to_list. apply ignored_run; [by apply may_write_guarded|].
  by apply (HR c cl).
Qed.

Lemma bootstrap_noop s : writable (st_db s) = true -> quota_ok (st_db s) ->
  bootstrapPendingQuota s = (inr tt, s).
Proof.
  intros Hw (_ & Hi & Hr). unfold bootstrapPendingQuota. erewrite bind_run by reflexivity.
  assert ((if 0 <? Count (pendingTotal (st_db s))
    then sql_insert_or_ignore t_pending_quota_install tt (pendingTotal (st_db s)) else mret tt) s =
    (inr tt, s)) as E.
  { destruct (0 <? _) eqn:Hc; [|done]. apply ignored_run; [by apply may_write_guarded|].
    cbn. unfold readInstallQuota in Hi. destruct (_ !! tt); [by eexists|].
    rewrite <-Hi in Hc. done. }
  erewrite bind_run by exact E. apply for_each_noop.
  intros [r c] Hin%elem_of_map_to_list%pendingGroups_lookup. destruct Hin as [Hin _].
  apply ignored_run; [by apply may_write_guarded|]. cbn.
  specialize (Hr r). unfold recipientQuota in Hr. destruct (_ !! r); [by eexists|].
  apply pendingFor_pos in Hin. rewrite <-Hr in Hin. cbn in Hin. lia.
Qed.

Lemma migrate_noop s : writable (st_db s) = true -> claims_ok (st_db s) -> quota_ok (st_db s) ->
  migrate s = (inr tt, s).
Proof.
  intros Hw HC HQ. unfold migrate, transact. erewrite bind_run by (by apply reconcile_noop).
  erewrite bind_run by (by apply copyClaimKeys_noop). by rewrite bootstrap_noop.
Qed.

Section Reopen.
Context `{Env}.

Lemma refresh_silent now s : st_metrics s = None -> refreshPendingMetrics now s = (inr tt, s).
Proof.
  destruct s as [d r q t m n]. cbn. intros ->. unfold refreshPendingMetrics.
  erewrite bind_run by reflexivity. cbv zeta. by repeat erewrite bind_run by reflexivity.
Qed.

(** The store a restart gives is one the running relay could have been set to. *)
Lemma freshPolicies_steps s : rtc step s (freshPolicies s).
Proof.
  eapply rtc_l; [eapply (step_op (OpSetRateLimits DefaultRateLimitConfig)); reflexivity|].
  eapply rtc_l; [eapply (step_op (OpSetQuotaLimits DefaultQuotaConfig)); reflexivity|].
  eapply rtc_l; [eapply (step_op (OpSetRetentionPolicy DefaultRetentionConfig)); reflexivity|].
  apply rtc_once. apply (step_op (OpSetMetrics None) _ (inr tt)). cbn [run_op]. unfold SetMetrics.
  erewrite bind_run by reflexivity. by apply refresh_silent.
Qed.

(** C30: A restart is safe: opening the file of any store the relay can be in,
    outside a migration, succeeds with the quota check on, leaves every table
    as it was, and gives a store that the running relay could have been in, so
    every invariant holds on. *)
Theorem restart_safe s :
  reachable s -> writable (st_db s) = true ->
  exists s', openStore true s = (inr tt, s') /\ st_db s' = st_db s /\ reachable s' /\
    rateLimitConfig s' = DefaultRateLimitConfig /\ quotaConfig s' = DefaultQuotaConfig.
Proof.
  intros Hs Hw. exists (freshPolicies s).
  pose proof (reachable_invariant claims_ok _ Hs) as HC.
  pose proof (reachable_invariant quota_ok _ Hs) as HQ.
  assert (requireActivePhase (freshPolicies s) = (inr tt, freshPolicies s)) as Hphase.
  { unfold requireActivePhase. erewrite bind_run by reflexivity.
    unfold writable in Hw. apply bool_decide_eq_true in Hw. cbn. by rewrite Hw. }
  split_and!; [|done| |done|done].
  - unfold openStore. erewrite bind_run by reflexivity. erewrite bind_run by exact Hphase.
    erewrite bind_run by (by apply migrate_noop). erewrite bind_run by exact Hphase.
    by apply verify_ok.
  - unfold reachable in *. etransitivity; [exact Hs|apply freshPolicies_steps].
Qed.

Definition phaseError (p : MigrationSourcePhase) : Err :=
  match p with MigrationSourcePrepared => ErrMigrationSourcePrepared | _ => ErrMigrationSourceRetired end.

Lemma phase_refused s : writable (st_db s) = false ->
  requireActivePhase s = (inl (phaseError (db_phase (st_db s))), s).
Proof.
  unfold writable. intros Hw%bool_decide_eq_false. unfold requireActivePhase.
  erewrite bind_run by reflexivity. by destruct (db_phase (st_db s)).
Qed.

(** A prepared or retired migration source is not opened: the call reports
    which of the two it is and leaves the file alone. *)
Theorem fenced_source_not_opened verify s :
  writable (st_db s) = false ->
  exists s', openStore verify s = (inl (phaseError (db_phase (st_db s))), s') /\ st_db s' = st_db s.
Proof.
  intros Hw. exists (freshPolicies s). split; [|done]. unfold openStore.
  erewrite bind_run by reflexivity. apply bind_error. exact (phase_refused (freshPolicies s) Hw).
Qed.
End Reopen.
