(* ===== verification/Scenario.v ===== *)
(** * A concrete relay session

    An environment with readable identifiers and a session in it: two machines,
    a room, messages, leases and acknowledgements.  The states are computed, so
    they show that the hypotheses of the general theorems can be met. *)

From stdpp Require Import pretty.
From S2P Require Import Prelude GoTime RateLimit Quota Text Sha256 Tables Tx Sessions Pending.
From S2P Require Import Invocations Rooms Claims Roles Directory Messages Deliveries Relay.
Open Scope Z_scope.

(** Identifiers [u0], [u1], ... and tokens [tok0], [tok1], ... *)
#[export] Instance demoEnv : Env := {|
  uuid_NewString n := "u" +:+ pretty n;
  rand_token n := Some ("tok" +:+ pretty n);
  uuid_Validate _ := true;
|}.

Definition at_ (seconds : Z) : Z := seconds * Time.Second.

(** The state after a list of operations. *)
Fixpoint after (ops : list Op) (s : St) : St :=
  match ops with
  | [] => s
  | op :: ops => after ops (run_op op s).2
  end.

Definition newStore : St := newSt emptyDb.

Definition member (endpoint : string) (capabilities : Z) : Member :=
  {| m_Endpoint := endpoint; m_Role := ""; m_RoleMachineID := ""; m_Capabilities := capabilities |}.

Definition full : Z := Z.lor (Z.lor CapSend CapReceive) CapAdmin.

Definition setup : list Op := [
  OpAdvertiseEndpoints "m1" ["e1"] (at_ 1000) (600 * Time.Second);
  OpAdvertiseEndpoints "m2" ["e2"] (at_ 1000) (600 * Time.Second);
  OpCreateConversation "e1" [member "e1" full; member "e2" (Z.lor CapSend CapReceive)] (at_ 1001)
].

Definition room : string := "u0".

Definition hello : AppendInput := {| ai_ConversationID := room; ai_SenderMachineID := "m1";
  ai_PrincipalID := ""; ai_FromEndpoint := "e1"; ai_TargetRole := ""; ai_Body := "hello";
  ai_ArtifactIDs := []; ai_IdempotencyKey := "key-1"; ai_Now := at_ 1002 |}.

(** The room exists; [hello] was sent; [m2] leased it. *)
Definition state0 : St := after setup newStore.
Definition state1 : St := (AppendMessage hello state0).2.
Definition leasing : M DeliveryLeasePage :=
  LeaseDeliveries "m2" "consumer-1" "e2" room (at_ 1003) (30 * Time.Second) 10.
Definition state2 : St := (leasing state1).2.

(** A second lease after the first lapsed. *)
Definition releasing : M DeliveryLeasePage :=
  LeaseDeliveries "m2" "consumer-1" "e2" room (at_ 1040) (30 * Time.Second) 10.
Definition state3 : St := (releasing state2).2.

(** Direct mail between two roles. *)
Definition alpha : string := "role/m1/alpha".
Definition beta : string := "role/m2/beta".
Definition profile (machine role key : string) : RegisterRoleInput :=
  {| rr_MachineID := machine; rr_Role := role; rr_DisplayName := "a role";
     rr_DirectAddressable := true; rr_IdempotencyKey := key; rr_Now := at_ 1002 |}.
Definition roleSetup : list Op := [
  OpRegisterRoleProfile (profile "m1" alpha "reg-1");
  OpRegisterRoleProfile (profile "m2" beta "reg-2");
  OpBindRoleToSession "m1" alpha "e1" (at_ 1002) (300 * Time.Second);
  OpBindRoleToSession "m2" beta "e2" (at_ 1002) (300 * Time.Second)
].
Definition ping : DirectMessageInput := {| dm_SenderMachineID := "m1"; dm_FromRole := alpha;
  dm_ToRole := beta; dm_Body := "ping"; dm_IdempotencyKey := "dm-1"; dm_Now := at_ 1003 |}.
Definition pong : DirectMessageInput := {| dm_SenderMachineID := "m2"; dm_FromRole := beta;
  dm_ToRole := alpha; dm_Body := "pong"; dm_IdempotencyKey := "dm-2"; dm_Now := at_ 1004 |}.
Definition roleState : St := after roleSetup state0.
Definition pingState : St := (SendDirectMessage ping roleState).2.

(** ** Runs and reachability *)

Lemma ran {A} (m : M A) s r : (m s).1 = r -> m s = (r, (m s).2).
Proof. destruct (m s). by intros <-. Qed.

Lemma op_step op s : step s (run_op op s).2.
Proof. apply (step_op op s (run_op op s).1). by destruct (run_op op s). Qed.

Lemma after_steps ops s : rtc step s (after ops s).
Proof.
  revert s. induction ops as [|op ops IH]; intros s; simpl; [apply rtc_refl|].
  eapply rtc_l; [apply op_step|apply IH].
Qed.

Lemma after_reachable ops s : reachable s -> reachable (after ops s).
Proof. intros Hs. unfold reachable in *. etransitivity; [exact Hs|apply after_steps]. Qed.

(** The state an operation with a result leaves is the one its [Op] leaves. *)
Lemma result_step {A} (m : M A) op s : run_op op = void m -> step s (m s).2.
Proof.
  intros Hop. assert ((run_op op s).2 = (m s).2) as <-; [|apply op_step].
  rewrite Hop. unfold void, mbind, M_bind. by destruct (m s) as [[e|a] s1].
Qed.

Lemma reachable_new : reachable newStore.
Proof. apply rtc_refl. Qed.

Lemma state0_reachable : reachable state0.
Proof. apply after_reachable, reachable_new. Qed.

Lemma state1_step : step state0 state1.
Proof. exact (result_step (AppendMessage hello) (OpAppendMessage hello) state0 eq_refl). Qed.

Lemma state2_step : step state1 state2.
Proof.
  exact (result_step leasing
    (OpLeaseDeliveries "m2" "consumer-1" "e2" room (at_ 1003) (30 * Time.Second) 10) state1 eq_refl).
Qed.

Lemma state3_step : step state2 state3.
Proof.
  exact (result_step releasing
    (OpLeaseDeliveries "m2" "consumer-1" "e2" room (at_ 1040) (30 * Time.Second) 10) state2 eq_refl).
Qed.

Lemma state1_reachable : reachable state1.
Proof. eapply rtc_r; [exact state0_reachable|exact state1_step]. Qed.

Lemma state2_reachable : reachable state2.
Proof. eapply rtc_r; [exact state1_reachable|exact state2_step]. Qed.

Lemma state1_to_3 : rtc step state1 state3.
Proof. eapply rtc_l; [exact state2_step|]. apply rtc_once. exact state3_step. Qed.

Lemma roleState_reachable : reachable roleState.
Proof. exact (after_reachable roleSetup state0 state0_reachable). Qed.

Lemma pingState_step : step roleState pingState.
Proof. exact (result_step (SendDirectMessage ping) (OpSendDirectMessage ping) roleState eq_refl). Qed.

(** ** Starts: [e1] has [m2] asked to start [e2], whose advertisement lapsed *)

Definition starterRoom : Op := OpCreateConversation "e1"
  [member "e1" (Z.lor full CapInvoke); member "e2" (Z.lor CapSend CapReceive)] (at_ 1001).
Definition wakeUp : AppendInput := {| ai_ConversationID := "u1"; ai_SenderMachineID := "m1";
  ai_PrincipalID := ""; ai_FromEndpoint := "e1"; ai_TargetRole := ""; ai_Body := "wake up";
  ai_ArtifactIDs := []; ai_IdempotencyKey := "key-2"; ai_Now := at_ 1002 |}.
Definition startInput : InvokeInput := {| in_ConversationID := "u1"; in_SenderMachineID := "m1";
  in_FromEndpoint := "e1"; in_TargetEndpoint := "e2"; in_IdempotencyKey := "start-1"; in_Now := at_ 1700 |}.
Definition startOps : list Op := [
  starterRoom;
  OpAppendMessage wakeUp;
  OpAdvertiseEndpoints "m1" ["e1"] (at_ 1500) (600 * Time.Second);
  OpRequestInvocation startInput
].
Definition startState : St := after startOps state0.
Definition startLeased : St :=
  after [OpLeaseInvocations "m2" "consumer-1" (at_ 1703) (30 * Time.Second) 10] startState.

Lemma startState_reachable : reachable startState.
Proof. exact (after_reachable startOps state0 state0_reachable). Qed.

Lemma startLeased_reachable : reachable startLeased.
Proof. apply after_reachable, startState_reachable. Qed.
