(* ===== verification/Witness.v ===== *)
(** * The general theorems at concrete inputs

    Each lemma applies one theorem to the session of [Scenario] (or to plain
    values), with its hypotheses computed. *)

From stdpp Require Import pretty.
From S2P Require Import Prelude GoTime RateLimit Quota Text Sha256 Tables Tx Sessions Pending.
From S2P Require Import QuotaInv Invocations Rooms Claims Roles Directory Messages Deliveries Relay.
From S2P Require Import QuotaOps History Replay Members Rights Cursors Progress Fence.
From S2P Require Import Atomic Access Starts Opening Restart Occupancy Paging Mailbox Scenario.
Open Scope Z_scope.

#[export] Instance demoEnv_nonempty : UuidNonEmpty.
Proof. intros n. discriminate. Qed.

(** The run of [m] from [s] has the result in the goal. *)
Tactic Notation "run" constr(m) constr(s) := refine (ran m s _ _); vm_compute; reflexivity.

(** ** Messages *)

Definition helloMessage : Message := {| g_ID := "u1"; g_ConversationID := room; g_Sequence := 1;
  g_FromEndpoint := "e1"; g_FromRole := ""; g_FromParticipant := ""; g_InReplyToMessageID := "";
  g_InReplyToEndpoint := ""; g_TelegramThreadID := 0; g_Body := "hello"; g_CreatedAt := at_ 1002 |}.

Lemma append_at_most_once_witness :
  (AppendMessage hello state3).1 = inr (helloMessage, true) /\
  st_db (AppendMessage hello state3).2 = st_db state3.
Proof.
  split; [vm_compute; reflexivity|].
  apply (append_at_most_once hello hello (helloMessage, false) (helloMessage, true)
    state0 state1 state3 (AppendMessage hello state3).2).
  - exact state0_reachable.
  - run (AppendMessage hello) state0.
  - exact state1_to_3.
  - reflexivity.
  - reflexivity.
  - run (AppendMessage hello) state3.
Defined.

Lemma quota_exact_witness :
  VerifyPendingQuota state1 = (inr tt, state1) /\ readInstallQuota (st_db state1) = {| Count := 1; Bytes := 5 |}.
Proof.
  split; [|vm_compute; reflexivity]. apply (quota_exact state1). exact state1_reachable.
Defined.

Definition helloRow : MessageRow := appendRow hello 1.
Definition helloDelivery : DeliveryRow := newDeliveryRow "u1" "e2".

Lemma pending_only_for_receivers_witness : may_receive (st_db state1) room "e2".
Proof.
  apply (pending_only_for_receivers "u2" helloDelivery helloRow state1).
  - exact state1_reachable.
  - vm_compute; reflexivity.
  - reflexivity.
  - vm_compute; reflexivity.
Defined.

Definition upsertE2 : ControlInput := {| ci_ConversationID := room; ci_ActorMachineID := "m1";
  ci_ActorEndpoint := "e1"; ci_Operation := "upsert_member"; ci_Member := member "e2" (Z.lor CapSend CapReceive);
  ci_IdempotencyKey := "ctl-1"; ci_Now := at_ 1002 |}.

Lemma cursor_below_pending_witness : 0 < ms_sequence helloRow.
Proof.
  destruct (cursor_below_pending "e2" room 0 (after [OpAppendMessage hello] (after
    [OpApplyControl upsertE2] state0))) as [_ Hbelow].
  - apply after_reachable, after_reachable, state0_reachable.
  - vm_compute; reflexivity.
  - apply (Hbelow "u3" (newDeliveryRow "u2" "e2") helloRow); vm_compute; reflexivity.
Defined.

Lemma sequences_exact_witness : exists id m,
  db_messages (st_db state1) !! id = Some m /\ ms_conversation m = room /\ ms_sequence m = 1.
Proof.
  destruct (sequences_exact room {| cv_created_at := 1001000; cv_next_sequence := 1; cv_display_name := None |}
    state1) as [Hdense _].
  - exact state1_reachable.
  - vm_compute; reflexivity.
  - apply Hdense. split; vm_compute; discriminate.
Defined.

Lemma messages_immutable_witness : db_messages (st_db state3) !! "u1" = Some helloRow.
Proof.
  apply (messages_immutable "u1" helloRow state1 state3).
  - exact state1_to_3.
  - vm_compute; reflexivity.
Defined.

(** ** Deliveries *)

Definition leasedHello : Delivery := {| v_ID := "u2"; v_RecipientEndpoint := "e2"; v_RecipientRole := "";
  v_Message := helloMessage; v_LeaseToken := "tok3"; v_LeaseGeneration := 1; v_LeaseUntil := at_ 1033 |}.
Definition helloPage : DeliveryLeasePage :=
  {| p_Deliveries := [leasedHello]; p_Cursors := {[ room := 0 ]} |}.
Definition leasedRow : DeliveryRow := default helloDelivery (db_deliveries (st_db state2) !! "u2").
Definition releasedRow : DeliveryRow := default helloDelivery (db_deliveries (st_db state3) !! "u2").

Lemma lease_then_ack_witness : exists s dl,
  AckDelivery "m2" "e2" "u2" "tok3" 1 (at_ 1003) state2 = (inr tt, s) /\
  db_deliveries (st_db state2) !! "u2" = Some dl /\ dl_acked dl = None /\
  db_deliveries (st_db s) = <["u2" := ackRow (at_ 1003) dl]> (db_deliveries (st_db state2)).
Proof.
  apply (lease_then_ack "m2" "consumer-1" "e2" room (at_ 1003) (30 * Time.Second) 10 helloPage leasedHello
    state1 state2).
  - exact state1_reachable.
  - vm_compute; reflexivity.
  - vm_compute; reflexivity.
  - run leasing state1.
  - apply list_elem_of_singleton; reflexivity.
Defined.

Lemma stale_lease_refused_witness :
  AckDelivery "m2" "e2" "u2" "tok3" 1 (at_ 1041) state3 <> (inr tt, state3).
Proof.
  apply (stale_lease_refused state3 state3 "u2" releasedRow).
  - vm_compute; reflexivity.
  - vm_compute; reflexivity.
  - apply rtc_refl.
Defined.

Lemma delivery_history_witness : exists dl, db_deliveries (st_db state3) !! "u2" = Some dl /\
  dl_message dl = "u1" /\ dl_recipient dl = "e2" /\ 1 <= dl_generation dl.
Proof.
  destruct (delivery_history "u2" leasedRow state2 state3) as (dl & Hdl & Hm & Hr & Hg & _).
  - apply rtc_once. exact state3_step.
  - vm_compute; reflexivity.
  - exists dl. repeat split; [exact Hdl|exact Hm|exact Hr|exact Hg].
Defined.

Lemma cursor_monotone_witness : exists v,
  db_recipient_cursors (st_db (after [OpAppendMessage hello] (after [OpApplyControl upsertE2] state0)))
    !! ("e2", room) = Some v /\ 0 <= v.
Proof.
  apply (cursor_monotone ("e2", room) 0 (after [OpApplyControl upsertE2] state0)).
  - apply after_steps.
  - vm_compute; reflexivity.
Defined.

Lemma maintain_progress_witness : exists res s, MaintainDeliveries (at_ 100000000) state1 = (inr res, s) /\
  mr_Expired res = 1.
Proof.
  destruct (maintain_progress (at_ 100000000) state1) as (res & s & Hrun & Hexpired & _).
  - exact state1_reachable.
  - vm_compute; reflexivity.
  - exists res, s. split; [exact Hrun|]. rewrite Hexpired. vm_compute; reflexivity.
Defined.

(** ** Direct mail *)

Definition pingMessage : Message := {| g_ID := "u2"; g_ConversationID := "u1"; g_Sequence := 1;
  g_FromEndpoint := ""; g_FromRole := alpha; g_FromParticipant := ""; g_InReplyToMessageID := "";
  g_InReplyToEndpoint := ""; g_TelegramThreadID := 0; g_Body := "ping"; g_CreatedAt := at_ 1003 |}.
Definition pongMessage : Message := {| g_ID := "u5"; g_ConversationID := "u1"; g_Sequence := 2;
  g_FromEndpoint := ""; g_FromRole := beta; g_FromParticipant := ""; g_InReplyToMessageID := "";
  g_InReplyToEndpoint := ""; g_TelegramThreadID := 0; g_Body := "pong"; g_CreatedAt := at_ 1004 |}.

Lemma direct_at_most_once_witness :
  (SendDirectMessage ping pingState).1 = inr (pingMessage, true) /\
  st_db (SendDirectMessage ping pingState).2 = st_db pingState.
Proof.
  split; [vm_compute; reflexivity|].
  apply (direct_at_most_once ping ping (pingMessage, false) (pingMessage, true)
    roleState pingState pingState (SendDirectMessage ping pingState).2).
  - run (SendDirectMessage ping) roleState.
  - apply rtc_refl.
  - reflexivity.
  - reflexivity.
  - run (SendDirectMessage ping) pingState.
Defined.

Lemma direct_room_shared_witness : g_ConversationID pongMessage = g_ConversationID pingMessage.
Proof.
  apply (direct_room_shared ping pong pingMessage pongMessage
    roleState pingState pingState (SendDirectMessage pong pingState).2).
  - run (SendDirectMessage ping) roleState.
  - apply rtc_refl.
  - run (SendDirectMessage pong) pingState.
  - right. split; reflexivity.
Defined.


(** ** Starts *)

Definition startRow : InvocationRow := newInvocationRow startInput "m2" "u5" 1 InvocationPending None.
Definition startLeasedRow : InvocationRow := default startRow (db_invocations (st_db startLeased) !! "u4").

Lemma one_pending_start_witness :
  db_invocations (st_db startState) !! "u4" = Some startRow /\ "u4" = "u4".
Proof.
  split; [vm_compute; reflexivity|].
  apply (one_pending_start "u4" "u4" startRow startRow startState);
    [exact startState_reachable|vm_compute; reflexivity..].
Defined.

Lemma report_never_panics_witness : exists b,
  invocationBackoff 1 startLeased = (inr b, startLeased) /\ 2 * Time.Second <= b <= maxInvocationBackoff.
Proof.
  destruct (report_never_panics "m2" "u4" "tok6" 1 false (at_ 1704) startLeased startLeased) as [_ Hdelay].
  - exact startLeased_reachable.
  - apply (Hdelay startLeasedRow); vm_compute; reflexivity.
Defined.

(** ** Access, migration and failures *)

Definition removeE2 : ControlInput := {| ci_ConversationID := room; ci_ActorMachineID := "m1";
  ci_ActorEndpoint := "e1"; ci_Operation := "remove_member"; ci_Member := member "e2" 0;
  ci_IdempotencyKey := "ctl-2"; ci_Now := at_ 1002 |}.

Lemma control_keeps_admin_witness : has_admin room (st_db (ApplyControl removeE2 state1).2).
Proof.
  apply (control_keeps_admin removeE2 room (ApplyControl removeE2 state1).1 state1).
  - apply surjective_pairing.
  - left. exists "e1", full. split; vm_compute; reflexivity.
Defined.

Lemma nonce_accepted_once_witness :
  let s := (ConsumeRequestNonce "m1" "nonce-1" (at_ 1000) (at_ 1100) newStore).2 in
  ConsumeRequestNonce "m1" "nonce-1" (at_ 1001) (at_ 1101) s <> (inr tt, s).
Proof.
  apply (nonce_accepted_once "m1" "nonce-1" (at_ 1000) (at_ 1100) (at_ 1001) (at_ 1101) newStore
    (ConsumeRequestNonce "m1" "nonce-1" (at_ 1000) (at_ 1100) newStore).2).
  - run (ConsumeRequestNonce "m1" "nonce-1" (at_ 1000) (at_ 1100)) newStore.
  - apply rtc_refl.
  - vm_compute; reflexivity.
Defined.

Definition retiredState : St := phase_to MigrationSourceRetired state1.

Lemma retired_source_frozen_witness :
  guarded_part (st_db (run_op (OpAppendMessage hello) retiredState).2) = guarded_part (st_db retiredState).
Proof.
  apply (retired_source_frozen (OpAppendMessage hello) (run_op (OpAppendMessage hello) retiredState).1).
  - vm_compute; reflexivity.
  - apply surjective_pairing.
Defined.

Lemma error_changes_nothing_witness :
  let s := (run_op (OpAckDelivery "m2" "e2" "u2" "tok9" 1 (at_ 1004)) state2).2 in
  set_invocation_schema true (st_db s) = set_invocation_schema true (st_db state2).
Proof.
  apply (error_changes_nothing (OpAckDelivery "m2" "e2" "u2" "tok9" 1 (at_ 1004)) ErrForbidden).
  - reflexivity.
  - run (run_op (OpAckDelivery "m2" "e2" "u2" "tok9" 1 (at_ 1004))) state2.
Defined.

(** ** Quotas *)

(** The store after its counters were lost. *)
Definition lostCounters : St := with_db (set_pending_quota_recipients ∅ (st_db state1)) state1.

Lemma lostCounters_refs s : reachable s ->
  delivery_refs (st_db (with_db (set_pending_quota_recipients ∅ (st_db s)) s)).
Proof. intros Hs. by destruct (reachable_invariant quota_ok s Hs). Qed.

Lemma reconcile_repairs_witness :
  (VerifyPendingQuota lostCounters).1 = inl ErrQuotaInconsistent /\
  exists s, ReconcilePendingQuota (at_ 1004) lostCounters = (inr {| Count := 1; Bytes := 5 |}, s) /\
    VerifyPendingQuota s = (inr tt, s).
Proof.
  split; [vm_compute; reflexivity|].
  destruct (reconcile_repairs (at_ 1004) lostCounters) as (s & Hrun & Hok & _).
  - exact (lostCounters_refs state1 state1_reachable).
  - vm_compute; reflexivity.
  - exists s. split; [|exact Hok]. rewrite Hrun. apply (f_equal (fun c => (inr c, s))). vm_compute; reflexivity.
Defined.

Definition oneCharge : list QuotaCharge := [{| Recipient := "e2"; ChargeBytes := 5 |}].

Lemma decide_quota_exact_witness :
  quota_fits DefaultQuotaConfig ∅ zeroCounters oneCharge.
Proof.
  destruct (decide_quota_exact DefaultQuotaConfig ∅ zeroCounters oneCharge) as [Hfits _].
  - split; split; vm_compute; [discriminate|reflexivity|discriminate|reflexivity].
  - intros r c Hc. rewrite lookup_empty in Hc. discriminate Hc.
  - vm_compute; discriminate.
  - vm_compute; discriminate.
  - destruct Hfits as [Hnil|[_ Hok]]; [vm_compute; reflexivity|discriminate Hnil|exact Hok].
Defined.

(** ** Rates *)

Definition bucketWith (tokens : Z) : RateBucket := {| Tokens := tokens; UpdatedAt := at_ 1000 |}.

Lemma bucketWith_at tokens : 0 <= tokens <= RateLimitBurstMax -> stored_at (bucketWith tokens) (at_ 1000).
Proof.
  intros Ht. split; [split; [split; [exact Ht|]|]|]; [split; vm_compute; discriminate|vm_compute; discriminate|].
  vm_compute; reflexivity.
Qed.

Lemma retry_after_exact_witness :
  1 <= RetryAfterSeconds (DecideRateLimit DefaultRateLimitConfig (bucketWith 0) (bucketWith 9) (at_ 1000)) <= 60.
Proof.
  destruct (retry_after_exact DefaultRateLimitConfig (bucketWith 0) (bucketWith 9) (at_ 1000)) as [Hbounds _].
  - vm_compute; reflexivity.
  - apply (bucketWith_at 0). split; vm_compute; discriminate.
  - apply (bucketWith_at 9). split; vm_compute; discriminate.
  - split; vm_compute; discriminate.
  - split; vm_compute; discriminate.
  - vm_compute; reflexivity.
  - exact Hbounds.
Defined.

Lemma append_rate_bound_witness :
  run_appends DefaultRateLimitConfig (bucketWith 2) (bucketWith 9) [at_ 1000; at_ 1001] <= 63.
Proof.
  destruct (append_rate_bound DefaultRateLimitConfig (bucketWith 2) (bucketWith 9) (at_ 1000) [at_ 1001] (at_ 1001))
    as [Hsender _].
  - vm_compute; reflexivity.
  - repeat constructor; vm_compute; discriminate.
  - repeat constructor; vm_compute; discriminate.
  - repeat constructor; vm_compute; discriminate.
  - apply bucketWith_at; split; vm_compute; discriminate.
  - apply bucketWith_at; split; vm_compute; discriminate.
  - exact Hsender.
Defined.

(** ** Names *)

Lemma recipient_namespaces_witness : "e1" <> roleRecipient alpha /\ parseRoleRecipient "e1" = None /\
  parseRoleRecipient (roleRecipient alpha) = Some alpha.
Proof. apply (recipient_namespaces "e1" alpha); vm_compute; reflexivity. Defined.

Lemma display_name_bounds_witness : "Build log" <> "" /\ goLen "Build log" <= 512.
Proof.
  destruct (display_name_bounds "  Build log" "Build log") as (Hne & _ & _ & Hlen & _).
  - discriminate.
  - vm_compute; reflexivity.
  - split; [exact Hne|exact Hlen].
Defined.

(** ** The whole store *)

Lemma restart_safe_witness : exists s', openStore true state1 = (inr tt, s') /\
  st_db s' = st_db state1 /\ reachable s' /\
  rateLimitConfig s' = DefaultRateLimitConfig /\ quotaConfig s' = DefaultQuotaConfig.
Proof. apply (restart_safe state1); [exact state1_reachable|vm_compute; reflexivity]. Defined.

Lemma fenced_source_not_opened_witness : exists s',
  openStore true retiredState = (inl ErrMigrationSourceRetired, s') /\ st_db s' = st_db retiredState.
Proof. apply (fenced_source_not_opened true retiredState). vm_compute; reflexivity. Defined.

Definition buildRoom : Op := OpCreateConversationIdempotent {| cc_MachineID := "m1"; cc_ProjectID := "";
  cc_IdempotencyKey := "create-1"; cc_CreatorEndpoint := "e1"; cc_DisplayName := "Build";
  cc_Members := [member "e1" full; member "e2" (Z.lor CapSend CapReceive)]; cc_Now := at_ 1002 |}.
Definition buildState : St := after [buildRoom] state0.
Definition buildRow : ConversationRow :=
  {| cv_created_at := 1002000; cv_next_sequence := 0; cv_display_name := Some "Build" |}.

Lemma one_exclusive_room_witness :
  exclusiveRow (st_db buildState) "u1" buildRow = true /\ "u1" = "u1".
Proof.
  split; [vm_compute; reflexivity|].
  apply (one_exclusive_room "e1" "u1" "u1" buildRow buildRow full full buildState).
  - apply after_reachable, state0_reachable.
  - discriminate.
  - vm_compute; reflexivity.
  - vm_compute; reflexivity.
  - vm_compute; reflexivity.
  - vm_compute; reflexivity.
  - vm_compute; reflexivity.
  - vm_compute; reflexivity.
Defined.

Lemma directory_walk_exact_witness : exists l,
  walkDirectory 2 "" 1 (at_ 1003) roleState = (inr l, roleState) /\ alpha ∈ rc_Role <$> l.
Proof.
  destruct (directory_walk_exact roleState 1 (at_ 1003) 2) as (l & Hl & _ & Hroles).
  - exact roleState_reachable.
  - split; vm_compute; discriminate.
  - repeat constructor.
  - vm_compute; discriminate.
  - exists l. split; [exact Hl|]. apply Hroles. eexists _, _. split_and!; vm_compute; reflexivity.
Defined.

Lemma cursor_roundtrip_witness : DecodeRoleListCursor (EncodeRoleListCursor alpha) = Some alpha.
Proof. apply (cursor_roundtrip alpha). vm_compute; reflexivity. Defined.

Lemma store_refines_mailbox_witness :
  rtc mailbox_step (mailbox_of (st_db state0)) (mailbox_of (st_db state1)) /\
  mb_logs (mailbox_of (st_db state1)) = {[ room := ["u1"] ]}.
Proof.
  split; [|vm_compute; reflexivity].
  apply (store_refines_mailbox state0); [exact state0_reachable|exact state1_step].
Defined.
