(* ===== verification/CutoverWitness.v ===== *)
(** * A handover and a cutover, computed

    Two machines, a room, a leased message: the store passes inspection, is
    prepared, exported, aborted and retired.  An acknowledged message, or a role
    whose session detached, stops the handover at its first step. *)

From S2P Require Import Prelude GoTime RateLimit Quota Text Sha256 Tables Tx Sessions Pending.
From S2P Require Import QuotaInv Invocations Rooms Claims Roles Directory Messages Deliveries Auth Source.
From S2P Require Import Export Destination Cutover Epochs Relay QuotaOps History Fence Atomic Handover.
From S2P Require Import Authority Execution Prepare Transfer Exactness Staging Completion.
Open Scope Z_scope.

(** Identifiers of the shape of a UUID, and tokens of 64 hexadecimal digits. *)
#[export] Instance uuidEnv : Env := {|
  uuid_NewString n := "00000000-0000-4000-8000-" +:+ hexEncode (Sha256.be 6 (Z.of_nat n));
  rand_token n := Some (hexEncode (Sha256.be 32 (Z.of_nat n)));
  uuid_Validate := uuidText;
|}.

Definition sec (seconds : Z) : Z := seconds * Time.Second.

Fixpoint runOps (ops : list Op) (s : St) : St :=
  match ops with
  | [] => s
  | op :: ops => runOps ops (run_op op s).2
  end.

Definition member (endpoint : string) (capabilities : Z) : Member :=
  {| m_Endpoint := endpoint; m_Role := ""; m_RoleMachineID := ""; m_Capabilities := capabilities |}.
Definition theRoom : string := uuid_NewString 0.
Definition hello : AppendInput := {| ai_ConversationID := theRoom; ai_SenderMachineID := "m1";
  ai_PrincipalID := ""; ai_FromEndpoint := "e1"; ai_TargetRole := ""; ai_Body := "hello";
  ai_ArtifactIDs := []; ai_IdempotencyKey := "key-1"; ai_Now := sec 1002 |}.

Definition mailOps : list Op := [
  OpAdvertiseEndpoints "m1" ["e1"] (sec 1000) (600 * Time.Second);
  OpAdvertiseEndpoints "m2" ["e2"] (sec 1000) (600 * Time.Second);
  OpCreateConversation "e1" [member "e1" 7; member "e2" 3] (sec 1001);
  OpAppendMessage hello;
  OpLeaseDeliveries "m2" "consumer-1" "e2" theRoom (sec 1003) (30 * Time.Second) 10
].
Definition mailState : St := Eval vm_compute in runOps mailOps (newSt emptyDb).

Definition freshControl : MigrationControl := {|
  mg_source_id := uuid_NewString 1000; mg_epoch_id := None; mg_target_identity := None;
  mg_fingerprint := None; mg_last_epoch_id := None; mg_last_target_identity := None;
  mg_last_expected_fingerprint := None; mg_last_result_fingerprint := None; mg_last_cutoff := None;
  mg_last_transition := None; mg_changed_at := 0 |}.

Lemma runOps_steps control ops s :
  Forall relayOp ops -> rtc file_step (control, s) (control, runOps ops s).
Proof.
  intros Hf. revert s. induction Hf as [|op ops Hop _ IH]; intros s; simpl; [apply rtc_refl|].
  eapply rtc_l; [|apply IH]. apply (file_op op control s (run_op op s).1); [done|]. by destruct (run_op op s).
Qed.

Lemma mailState_run : runOps mailOps (newSt emptyDb) = mailState.
Proof. vm_compute. reflexivity. Qed.

Lemma mailState_steps : rtc file_step (freshControl, newSt emptyDb) (freshControl, mailState).
Proof. rewrite <-mailState_run. apply runOps_steps. repeat constructor. Qed.

(** ** Inspecting and preparing it *)

Lemma mail_inspected :
  exists m, inspectMigrationSource freshControl (st_db mailState) = inr m /\ mm_Phase m = MigrationSourceActive.
Proof. apply inspect_exists; vm_compute; reflexivity. Qed.

Definition epoch : string := uuid_NewString 2000.
Definition target : string := hexEncode (Sha256.be 32 7).
Definition cutoff : Z := sec 1010.
Definition fencedState : St :=
  with_db (set_phase MigrationSourcePrepared (fencedDb cutoff (st_db mailState))) mailState.

Lemma mail_prepared : exists m prepared control',
  inspectMigrationSource freshControl (st_db mailState) = inr m /\ mm_Phase m = MigrationSourceActive /\
  PrepareMigrationSource freshControl epoch target (mm_Fingerprint m) cutoff mailState =
    (inr (prepared, control'), fencedState).
Proof.
  destruct mail_inspected as (m & Hi & Hp).
  destruct (prepare_run freshControl epoch target cutoff m mailState Hi Hp) as (prepared & _ & Hr);
    [reflexivity..|]. eauto 10.
Qed.

Lemma prepare_succeeds_witness : exists m prepared control',
  PrepareMigrationSource freshControl epoch target (mm_Fingerprint m) cutoff mailState =
    (inr (prepared, control'), fencedState) /\ mm_Phase prepared = MigrationSourcePrepared.
Proof.
  destruct mail_inspected as (m & Hi & Hp). exists m.
  destruct (prepare_succeeds freshControl epoch target cutoff m mailState Hi Hp) as (prepared & control' & Hr & Hph & _);
    [reflexivity..|]. exists prepared, control'. by split.
Defined.

Lemma handover_reachable_witness : exists m prepared control',
  PrepareMigrationSource freshControl epoch target (mm_Fingerprint m) cutoff mailState =
    (inr (prepared, control'), fencedState) /\ reachable fencedState.
Proof.
  destruct mail_prepared as (m & prepared & control' & _ & _ & Hr). exists m, prepared, control'.
  split; [exact Hr|]. destruct (handover_reachable freshControl freshControl mailState mailState_steps) as (_ & Hp & _).
  exact (proj1 (Hp _ _ _ _ _ _ _ Hr)).
Defined.

(** The delivery [m2] had leased. *)
Definition leasedDelivery : string := uuid_NewString 2.
Definition leaseToken : string := hexEncode (Sha256.be 32 3).
Definition ackHello (s : St) : (Err + unit) * St :=
  AckDelivery "m2" "e2" leasedDelivery leaseToken 1 (sec 1010) s.

Lemma leased_row : exists dl, db_deliveries (st_db mailState) !! leasedDelivery = Some dl /\ dl_generation dl = 1.
Proof. eexists. split; vm_compute; reflexivity. Qed.

Lemma handover_fences_witness : exists m prepared control' s,
  PrepareMigrationSource freshControl epoch target (mm_Fingerprint m) cutoff mailState =
    (inr (prepared, control'), fencedState) /\
  (ackHello mailState).1 = inr tt /\ ackHello fencedState <> (inr tt, s).
Proof.
  destruct mail_prepared as (m & prepared & control' & _ & _ & Hr). destruct leased_row as (dl & Hid & Hg).
  exists m, prepared, control', fencedState. split; [exact Hr|]. split; [vm_compute; reflexivity|].
  unfold ackHello. rewrite <-Hg.
  apply (handover_fences _ _ _ _ _ _ _ _ _ _ _ _ _ _ _ _ _ Hr); [reflexivity|exact Hid|apply rtc_refl].
Defined.

Definition retiredState : St := with_db (set_phase MigrationSourceRetired (st_db mailState)) mailState.

Lemma retiredState_steps :
  rtc file_step (freshControl, retiredState) (freshControl, runOps mailOps retiredState).
Proof. apply runOps_steps. repeat constructor. Qed.

Lemma retired_forever_witness : exists s,
  rtc file_step (freshControl, retiredState) (freshControl, s) /\ db_phase (st_db s) = MigrationSourceRetired /\
  guarded_part (st_db s) = guarded_part (st_db retiredState).
Proof.
  exists (runOps mailOps retiredState). split; [exact retiredState_steps|].
  generalize (runOps mailOps retiredState) retiredState_steps. intros s Hs.
  destruct (retired_forever _ _ Hs) as [Hp Hg]; [reflexivity|]. split; [exact Hp|exact Hg].
Defined.

Lemma prepared_not_stuck_witness : exists prepared control' sa,
  db_phase (st_db fencedState) = MigrationSourcePrepared /\
  (AbortPreparedMigrationSource control' epoch target (mm_Fingerprint prepared) (sec 1020) fencedState).2 = sa /\
  writable (st_db sa) = true.
Proof.
  destruct mail_prepared as (m & prepared & control' & _ & _ & Hr).
  destruct (prepared_not_stuck _ _ _ _ _ _ _ _ _ (sec 1020) Hr) as (_ & (ma & ca & sa & Ha & Hw & _) & _).
  exists prepared, control', sa. split; [reflexivity|]. rewrite Ha. by split.
Defined.

(** ** Exporting it *)

(** A row is written as one symbol that encodes it. *)
Definition sumOf (v : SqlValue) : unit + (Z + string) :=
  match v with VNull => inl tt | VInt z => inr (inl z) | VText s => inr (inr s) end.
Definition ofSum (x : unit + (Z + string)) : SqlValue :=
  match x with inl _ => VNull | inr (inl z) => VInt z | inr (inr s) => VText s end.
#[export] Instance SqlValue_countable : Countable SqlValue.
Proof. apply (inj_countable' sumOf ofSum). by intros []. Defined.

Definition boundedBool (v : SqlValue) : bool :=
  match v with
  | VNull => true
  | VInt z => (- 2 ^ 63 <=? z) && (z <? 2 ^ 63)
  | VText s => goLen s <? 2 ^ 64
  end.

Lemma boundedBool_spec v : boundedBool v = true <-> boundedValue v.
Proof. destruct v; simpl; split; intros; bool_hyps; lia. Qed.

#[export] Instance symbolJson : RowJson := {|
  json_Marshal row := [Z.pos (encode row)];
  json_Decode l := match l with
                   | [Z.pos p] =>
                       row ← decode p;
                       if forallb (fun kv => boundedBool kv.2) (map_to_list (row : gmap string SqlValue))
                       then Some (toJson <$> row) else None
                   | _ => None
                   end;
|}.

#[export] Instance symbolJson_round_trip : RowJsonRoundTrip.
Proof.
  intros row Hf. cbn [json_Marshal json_Decode symbolJson]. rewrite decode_encode. cbn [mbind option_bind].
  replace (forallb _ _) with true; [done|]. symmetry. apply forallb_forall.
  intros [c v] Hin%list_elem_of_In%elem_of_map_to_list. apply boundedBool_spec. by apply (Hf c v).
Qed.

Lemma symbol_exportable spec rows :
  forallb (fun r => negb (badKey r.1)) rows = true -> Forall (exportable spec) rows.
Proof.
  intros Hb. apply Forall_forall. intros r Hr. rewrite forallb_forall in Hb.
  apply list_elem_of_In, Hb, negb_true_iff in Hr. split; [done|]. split; [done|]. by vm_compute.
Qed.

Lemma bounded_rows (rows : list (list string * list SqlValue)) :
  forallb (fun r => forallb boundedBool r.2) rows = true ->
  Forall (fun r => Forall boundedValue r.2) rows.
Proof.
  intros Hb. rewrite !Forall_forall. rewrite forallb_forall in Hb.
  intros r Hr; apply list_elem_of_In, Hb in Hr; apply Forall_forall; intros v Hv.
  rewrite forallb_forall in Hr. by apply list_elem_of_In, Hr, boundedBool_spec in Hv.
Qed.

Lemma messageSpec_listed : messageSpec ∈ migrationTableSpecs.
Proof. do 6 right. left. Qed.


Lemma stream_commits_witness : exists stream,
  tableStream messageSpec (st_db mailState) = Some stream /\
  tableStream messageSpec (st_db fencedState) = Some stream /\
  (sp_rows messageSpec (st_db mailState)).*2 = (sp_rows messageSpec (st_db fencedState)).*2.
Proof.
  eexists. split; [vm_compute; reflexivity|]. split; [vm_compute; reflexivity|].
  eapply stream_commits; [|vm_compute; reflexivity|vm_compute; reflexivity|..].
  - exact messageSpec_listed.
  - apply bounded_rows. vm_compute. reflexivity.
  - apply bounded_rows. vm_compute. reflexivity.
Defined.

(** ** What stops it *)

Lemma ack_blocks_handover_witness : exists e,
  (ackHello mailState).1 = inr tt /\
  inspectMigrationSource freshControl (st_db (ackHello mailState).2) = inl e.
Proof.
  assert (ackHello mailState = (inr tt, (ackHello mailState).2)) as Ha by (vm_compute; reflexivity).
  destruct (ack_blocks_handover _ _ _ _ _ _ _ _ (ackHello mailState).2 freshControl Ha) as [[e He] _];
    [apply rtc_refl|]. exists e. split; [by rewrite Ha|exact He].
Defined.

Definition theRole : string := "role/m1/alpha".
Definition bindOps : list Op := [
  OpAdvertiseEndpoints "m1" ["e1"] (sec 1000) (600 * Time.Second);
  OpRegisterRoleProfile {| rr_MachineID := "m1"; rr_Role := theRole; rr_DisplayName := "a role";
    rr_DirectAddressable := true; rr_IdempotencyKey := "reg-1"; rr_Now := sec 1001 |};
  OpBindRoleToSession "m1" theRole "e1" (sec 1002) (300 * Time.Second)
].
Definition boundState : St := Eval vm_compute in runOps bindOps (newSt emptyDb).
Lemma boundState_run : runOps bindOps (newSt emptyDb) = boundState.
Proof. vm_compute. reflexivity. Qed.

Lemma boundState_steps : rtc file_step (freshControl, newSt emptyDb) (freshControl, boundState).
Proof. rewrite <-boundState_run. apply runOps_steps. repeat constructor. Qed.

Lemma boundState_reachable : reachable boundState.
Proof. exact (file_steps _ _ boundState_steps). Qed.

Definition detachedState : St :=
  (AdvertiseEndpoints "m1" [] (sec 1003) (600 * Time.Second) boundState).2.


(** * A cutover at a concrete installation

    The store above, with two enrolled machines and an empty
    destination: the execution completes from its start, the mail tables it
    activates hold the rows of the file, and a prepared file can be taken
    back. *)

(** ** Codecs *)

(** A manifest is written as one symbol that encodes its exported fields. *)
Definition phaseSymbol (phase : MigrationSourcePhase) : Z :=
  match phase with MigrationSourceActive => 0 | MigrationSourcePrepared => 1 | MigrationSourceRetired => 2 end.
Definition symbolPhase (z : Z) : MigrationSourcePhase :=
  if z =? 0 then MigrationSourceActive else if z =? 1 then MigrationSourcePrepared else MigrationSourceRetired.

Definition fieldsOf (m : MigrationSourceManifest) : Z * string * Z * string * string * list (string * Z * string) * string :=
  (mm_Version m, mm_SourceID m, phaseSymbol (mm_Phase m), mm_EpochID m, mm_TargetIdentity m,
   (fun t => (te_name t, te_count t, te_sha256 t)) <$> mm_Tables m, mm_Fingerprint m).
Definition ofFields (x : Z * string * Z * string * string * list (string * Z * string) * string)
    : MigrationSourceManifest :=
  let '(version, source, phase, epoch, target, tables, fingerprint) := x in {|
  mm_Version := version; mm_SourceID := source; mm_Phase := symbolPhase phase; mm_EpochID := epoch;
  mm_TargetIdentity := target;
  mm_Tables := (fun '(name, count, digest) => {| te_name := name; te_count := count; te_sha256 := digest |}) <$> tables;
  mm_Fingerprint := fingerprint; mm_lastEpochID := ""; mm_lastTargetIdentity := ""; mm_lastExpectedFingerprint := "";
  mm_lastResultFingerprint := ""; mm_lastCutoff := 0; mm_lastTransition := "" |}.

Lemma ofFields_fieldsOf m : ofFields (fieldsOf m) = publicManifest m.
Proof.
  unfold fieldsOf, ofFields, publicManifest. f_equal; [by destruct (mm_Phase m)|].
  rewrite <-list_fmap_compose. etrans; [|apply list_fmap_id]. apply list_fmap_ext. by intros _ [] _.
Qed.

Lemma fieldsOf_public m : fieldsOf (publicManifest m) = fieldsOf m.
Proof. reflexivity. Qed.

Definition fromJson (v : JsonValue) : SqlValue :=
  match v with JNumber (Some z) => VInt z | JString s => VText s | _ => VNull end.

Definition symbolDecode (l : list Z) : option MigrationSourceManifest :=
  match l with [Z.pos p] => ofFields <$> decode p | _ => None end.

#[export] Instance symbolPg : PgEnv := {|
  validOpaqueID := uuidText;
  json_Canonical payload := json_Marshal (fromJson <$> payload);
  manifest_Marshal m := [Z.pos (encode (fieldsOf m))];
  manifest_Decode := symbolDecode;
  manifest_Unmarshal := symbolDecode;
  row_accepted _ _ := true;
|}.

Lemma symbolDecode_encode m : symbolDecode [Z.pos (encode (fieldsOf m))] = Some (publicManifest m).
Proof. unfold symbolDecode. rewrite decode_encode. cbn [fmap option_fmap option_map]. by rewrite ofFields_fieldsOf. Qed.

#[export] Instance symbolPg_codec : ManifestCodec.
Proof.
  split; intros m; cbn [manifest_Decode manifest_Unmarshal manifest_Marshal symbolPg].
  - intros _. exact (symbolDecode_encode m).
  - intros _. exact (symbolDecode_encode m).
  - by rewrite fieldsOf_public.
  - cbn [length]. lia.
Qed.

#[export] Instance symbolJson_canonical : CanonicalJson.
Proof.
  intros row _. cbn [json_Canonical symbolPg]. rewrite <-map_fmap_compose. f_equal.
  etrans; [|apply map_fmap_id]. apply map_fmap_ext. by intros _ [] _.
Qed.

#[export] Instance symbolJson_bounded : JsonBounded.
Proof.
  intros l object c v Hd Hv. destruct l as [|[|p|] []]; try done. cbn in Hd.
  apply bind_Some in Hd as (row & _ & Hd). destruct (forallb _ _) eqn:Hb; [|done]. injection Hd as <-.
  rewrite lookup_fmap in Hv. destruct (row !! c) as [v'|] eqn:Hc; [|done]. injection Hv as Hv.
  assert (v' = v) as -> by (by destruct v', v; simplify_eq/=).
  rewrite forallb_forall in Hb. apply boundedBool_spec, (Hb (c, v)), list_elem_of_In, elem_of_map_to_list, Hc.
Qed.

(** ** The installation *)

Definition owner : string := uuid_NewString 3000.

Definition enrollment (id endpoint : string) (b : Z) : EnrollmentRecord := {|
  er_ID := id; er_PublicKey := Base64.EncodeToString (replicate 32 b); er_EndpointPrefixes := [];
  er_Endpoints := [endpoint]; er_AttachmentDeviceID := "" |}.
Definition enrollments : list EnrollmentRecord := [enrollment "m1" "e1" 1; enrollment "m2" "e2" 2].
Definition machine (id endpoint : string) (b : Z) : Machine := {|
  mc_ID := id; mc_PublicKey := replicate 32 b; mc_EndpointPrefixes := []; mc_Endpoints := [endpoint];
  mc_AttachmentDeviceID := noDevice |}.
Definition machines : list Machine := [machine "m1" "e1" 1; machine "m2" "e2" 2].

Definition emptyPg : Pg := {|
  pg_identity := target; pg_current_schema := true; pg_maintenance := false; pg_owner := Some owner;
  pg_legacy := [(replicate 32 1, LegacyMigrated); (replicate 32 2, LegacyMigrated); (replicate 32 3, LegacyRetired)];
  pg_legacy_auth := Some true; pg_epochs := ∅; pg_staging := ∅; pg_checkpoints := ∅; pg_target := ∅ |}.

Definition mailWorld : World :=
  {| w_control := freshControl; w_store := mailState; w_pg := emptyPg; w_published := None |}.

Definition accepts : MailCutoverPublication -> bool := fun _ => true.
Definition executor : Executor :=
  {| ex_Publish := Some accepts; ex_BatchSize := 0; ex_Enrollment := Some enrollments |}.
Definition cutRequest (fingerprint : string) : Request := {|
  xr_ActorPrincipalID := owner; xr_EpochID := epoch; xr_ExpectedSourceFingerprint := fingerprint;
  xr_Cutoff := cutoff |}.

Lemma enrollments_parse : ParseMachineEnrollments enrollments = inr machines.
Proof. vm_compute. reflexivity. Qed.

Definition authenticator : Authenticator :=
  match machineEnrollmentAuthenticator enrollments with
  | inr (a, _) => a
  | inl _ => {| au_store := enrollmentValidationStore; au_machines := ∅; au_transition := None; au_transitionMachineIDs := ∅ |}
  end.

Lemma enrollments_accepted : exists parsed, machineEnrollmentAuthenticator enrollments = inr (authenticator, parsed).
Proof. eexists. vm_compute. reflexivity. Qed.

Lemma cut_requested fingerprint :
  validMigrationDigest fingerprint = true ->
  wellRequested executor (cutRequest fingerprint) target accepts machines authenticator.
Proof.
  intros Hf. split.
  - unfold validExecution. cbn [xr_ExpectedSourceFingerprint cutRequest]. rewrite Hf. reflexivity.
  - reflexivity.
  - by split.
  - exact enrollments_parse.
  - exact enrollments_accepted.
  - reflexivity.
Qed.

Lemma empty_installed fingerprint : installed (cutRequest fingerprint) target machines emptyPg.
Proof. split; reflexivity. Qed.

Lemma mail_covered : covered authenticator (st_db mailState) = true.
Proof. vm_compute. reflexivity. Qed.

Lemma empty_unbegun fingerprint : unbegun (cutRequest fingerprint) emptyPg.
Proof. by split. Qed.

(** The rows of the file fit the limits, before and after it is prepared. *)
Definition transferableBool (rows : list (list string * list SqlValue)) : bool :=
  (length rows <=? 128)%nat &&
  forallb (fun r => negb (badKey r.1) && forallb boundedBool r.2 && forallb printable r.1) rows.

Lemma symbol_transferable d :
  forallb (fun spec => transferableBool (sp_rows spec d)) migrationTableSpecs = true -> transferable 1 executor d.
Proof.
  intros Hb. unfold transferable. rewrite Forall_forall. intros spec Hin.
  rewrite forallb_forall in Hb. apply list_elem_of_In, Hb in Hin. unfold transferableBool in Hin.
  apply andb_true_iff in Hin as [Hlen%Nat.leb_le Hrows]. split; [cbn; lia|].
  apply Forall_forall. intros r Hr. rewrite forallb_forall in Hrows. apply list_elem_of_In, Hrows in Hr.
  apply andb_true_iff in Hr as [[Hk%negb_true_iff Hv]%andb_true_iff Hp].
  split; [split; [exact Hk|split; [discriminate|by vm_compute]]|].
  split; [|by split]. apply Forall_forall. intros v Hin. apply boundedBool_spec.
  rewrite forallb_forall in Hv. by apply Hv, list_elem_of_In.
Qed.

Lemma fenced_transferable : transferable 1 executor (st_db fencedState).
Proof. apply symbol_transferable. vm_compute. reflexivity. Qed.

(** ** Executing it *)

Lemma mail_fingerprint m :
  inspectMigrationSource freshControl (st_db mailState) = inr m -> validMigrationDigest (mm_Fingerprint m) = true.
Proof. intros (_ & _ & tables & fingerprint & He & _ & ->)%inspect_iff. by eapply evidence_digest. Qed.

Lemma mail_start m :
  inspectMigrationSource freshControl (st_db mailState) = inr m -> mm_Phase m = MigrationSourceActive ->
  boundary 1 executor (cutRequest (mm_Fingerprint m)) target mailWorld.
Proof.
  intros Hi Hp. apply (at_start _ _ _ _ _ m); [exact Hi|exact Hp|reflexivity|apply empty_unbegun|].
  exact fenced_transferable.
Qed.


Lemma bound_pg request target w m phase p :
  bound request target w m phase -> bound request target (with_pg p w) m phase.
Proof. intros []. by split. Qed.

(** The same run, by its stages. *)
Section Mail.
Context (m : MigrationSourceManifest).
Context (Hi : inspectMigrationSource freshControl (st_db mailState) = inr m).
Context (Hp : mm_Phase m = MigrationSourceActive).
Abbreviation request := (cutRequest (mm_Fingerprint m)).
Abbreviation start := (mkRun mailWorld [] []).

Lemma mail_requested : wellRequested executor request target accepts machines authenticator.
Proof. apply cut_requested, (mail_fingerprint m Hi). Qed.

Lemma mail_fresh : fresh mailWorld.
Proof. by split. Qed.

Lemma mail_bound : exists m1 control s,
  bindSource executor request target m mailWorld = (inr m1, with_source control s mailWorld) /\
  st_db s = st_db fencedState /\ bound request target (with_source control s mailWorld) m1 MigrationSourcePrepared.
Proof. by apply (bind_run_active executor request target accepts machines authenticator mail_requested mailWorld). Qed.

Lemma mail_executes : exists x w', Execute 1 (sec 1020) executor request mailWorld = (inr x, w') /\
  completed request target x w'.
Proof.
  destruct mail_bound as (m1 & control & s & Hb & Hs & Hbd).
  rewrite (execute_run 1 (sec 1020) executor request target accepts machines authenticator mail_requested
    mailWorld m m1 (with_source control s mailWorld) (empty_installed _) mail_covered Hi (fun _ => empty_unbegun _) Hb).
  eapply rest_run; [exact mail_requested|exact Hbd|discriminate|apply empty_installed|constructor|].
  left. split; [reflexivity|]. split; [apply empty_unbegun|]. cbn [w_store with_source]. rewrite Hs.
  exact fenced_transferable.
Qed.

(** The run up to the prepared file. *)
Lemma mail_run_prepared : exists r m1,
  rtc cut_step start r /\ bound request target (rn_world r) m1 MigrationSourcePrepared /\ m1 ∈ rn_manifests r /\
  st_db (w_store (rn_world r)) = st_db fencedState /\ w_pg (rn_world r) = emptyPg.
Proof.
  destruct mail_bound as (m1 & control & s & Hb & Hs & Hbd).
  destruct (does_bindSource (mkRun mailWorld [m] []) executor request target m) with
    (result := @inr CutErr _ m1) (w' := with_source control s mailWorld) as (r & Hsteps & Hw & _ & HQ);
    [by apply list_elem_of_singleton|exact Hb|].
  exists r, m1. rewrite Hw. split_and!; [|exact Hbd|by apply HQ|exact Hs|reflexivity].
  eapply rtc_l; [by apply (cut_inspect mailWorld [] [] m)|exact Hsteps].
Qed.

(** The run up to the verified epoch. *)
Lemma mail_run_verified : exists r m1 e,
  rtc cut_step start r /\ bound request target (rn_world r) m1 MigrationSourcePrepared /\ m1 ∈ rn_manifests r /\
  st_db (w_store (rn_world r)) = st_db fencedState /\ installed request target machines (w_pg (rn_world r)) /\
  begun request target (w_pg (rn_world r)) m1 e MailCutoverVerified.
Proof.
  destruct mail_run_prepared as (r & m1 & Hsteps & Hbd & Hin & Hs & Hpg).
  pose proof (bound_codable _ _ _ _ _ Hbd) as Hcod. specialize (Hcod ltac:(discriminate)).
  pose proof (begin_run executor request target accepts machines authenticator mail_requested emptyPg m1
    {| me_Request := destinationRequest (asPrepared m1) epoch target; me_Phase := MailCutoverImporting |}
    (empty_installed _) Hcod (bound_version _ _ _ _ _ Hbd) (bd_epoch _ _ _ _ _ Hbd) (bd_target _ _ _ _ _ Hbd)
    (or_introl (conj (empty_unbegun _) eq_refl))) as Hbegin.
  set (e := {| me_Request := _; me_Phase := MailCutoverImporting |}) in Hbegin.
  set (p := with_epochs _ emptyPg) in Hbegin. rewrite <-Hpg in Hbegin at 1.
  destruct r as [w ms es]. cbn [rn_world rn_manifests] in *.
  set (r1 := mkRun (with_pg p w) ms (e :: es)).
  assert (rtc cut_step start r1) as Hs1.
  { eapply rtc_r; [exact Hsteps|]. apply (cut_call w ms es (Some e) p). by eapply call_begin. }
  destruct (import_run 1 executor request target accepts machines authenticator mail_requested (with_pg p w) m1 e) as
    (p' & Himp & Hinst & Hbg).
  - by apply bound_pg.
  - apply installed_cutover, empty_installed.
  - split; [apply lookup_insert_eq|reflexivity|reflexivity].
  - cbn [w_store w_pg with_pg]. apply unbegun_partial, empty_unbegun.
  - cbn [w_store with_pg]. rewrite Hs. exact fenced_transferable.
  - constructor.
  - assert (authority r1) as Ha by exact (authority_steps _ _ Hs1 (authority_fresh _ mail_fresh)).
    assert (knownEpoch epoch e r1) as Hke by (split; [left|reflexivity]).
    destruct (does_importEpoch 1 r1 request m1 (asPrepared m1) _ e Ha Hke _ _ Himp) as (r2 & Hs2 & Hw & [Hkn _] & _).
    exists r2, m1, (setEpochPhase MailCutoverVerified e). rewrite Hw.
    split_and!; [by etrans|by do 2 apply bound_pg|by apply Hkn|exact Hs|exact Hinst|exact Hbg].
Qed.

(** The run up to the retired file, and the activation. *)
Lemma mail_run_retired : exists r retired e p' e0,
  rtc cut_step start r /\ retired ∈ rn_manifests r /\
  ActivateMailCutover owner epoch (mm_Fingerprint retired) retired (w_pg (rn_world r)) = inr (e, p') /\
  pg_epochs (w_pg (rn_world r)) !! epoch = Some e0 /\ me_Phase e0 = MailCutoverVerified /\
  sp_rows messageSpec (st_db (w_store (rn_world r))) = sp_rows messageSpec (st_db fencedState).
Proof.
  destruct mail_run_verified as (r & m1 & e & Hsteps & Hbd & Hin & Hs & Hinst & Hbg).
  pose proof (bound_codable _ _ _ _ _ Hbd) as Hcod. specialize (Hcod ltac:(discriminate)).
  set (w := rn_world r) in *.
  destruct (transition_run (w_control w) epoch target MigrationSourceRetired (sec 1020) m1 (w_store w)) as [Hrun _].
  - apply Hbd.
  - apply Hbd.
  - unfold bindingIs. by rewrite (bd_epoch _ _ _ _ _ Hbd), (bd_target _ _ _ _ _ Hbd), !bool_decide_eq_true_2.
  - reflexivity.
  - reflexivity.
  - discriminate.
  - destruct r as [w' ms es]. unfold w in *. cbn [rn_world rn_manifests] in *.
    set (retired := transitionManifest m1 MigrationSourceRetired) in *.
    destruct (activate_run executor request target accepts machines authenticator mail_requested (w_pg w') m1 e retired) as (p' & Hact & _).
    + done.
    + done.
    + done.
    + apply Hbd.
    + apply Hbd.
    + by apply sameSource_run.
    + done.
    + apply Hbd.
    + done.
    + eexists (mkRun (with_source _ _ w') (retired :: ms) es), retired, _, p', e.
      split_and!; [eapply rtc_r; [exact Hsteps|exact (cut_transition w' ms es _ _ _ _ _ _ _ _ Hrun)]|left|exact Hact|apply Hbg|apply Hbg|].
      cbn [rn_world w_store with_source st_db with_db]. rewrite Hs.
      generalize (st_db fencedState). intros []. reflexivity.
Qed.
End Mail.

Lemma execute_safe_witness : exists fingerprint x w' r',
  Execute 1 (sec 1020) executor (cutRequest fingerprint) mailWorld = (inr x, w') /\
  rtc cut_step (mkRun mailWorld [] []) r' /\ rn_world r' = w' /\
  exists e, pg_epochs (w_pg w') !! epoch = Some e /\ me_Phase e = MailCutoverActive.
Proof.
  destruct mail_inspected as (m & Hi & Hp). destruct (mail_executes m Hi Hp) as (x & w' & Hx & _).
  destruct (execute_safe mailWorld (mkRun mailWorld [] []) 1 (sec 1020) executor (cutRequest (mm_Fingerprint m))
    (inr x) w' mail_fresh (rtc_refl _ _) Hx) as (r' & Hs & Hw & HQ).
  exists (mm_Fingerprint m), x, w', r'. split; [exact Hx|]. split; [exact Hs|]. split; [exact Hw|].
  destruct (HQ x eq_refl) as (_ & He & _). exact He.
Defined.



(** ** Taking it back *)

