(* ===== verification/Programs.v ===== *)
(** * Programs as trees of calls

    A process that works on a database file of its own and talks to others is a
    tree: a call and what it does with each reply.  A call to the database is one
    transaction; the others are answered from outside.  What a run of such a
    program did is its list of events. *)

From S2P Require Import Prelude.
Open Scope Z_scope.

(** ** Transactions of a database *)

(** A transaction fails and changes nothing, or commits. *)
Definition Trans (S E A : Type) : Type := S -> E + (A * S).
#[export] Instance Trans_ret S E : MRet (Trans S E) := fun A a d => inr (a, d).
#[export] Instance Trans_bind S E : MBind (Trans S E) := fun A B k m d =>
  match m d with inl e => inl e | inr (a, d1) => k a d1 end.

Section Trans.
Context {S E : Type}.
Definition st_fail {A} (e : E) : Trans S E A := fun _ => inl e.
Definition st_reject (b : bool) (e : E) : Trans S E unit := if b then st_fail e else mret tt.
Definition st_read {A} (f : S -> A) : Trans S E A := fun d => inr (f d, d).
Definition st_write (f : S -> S) : Trans S E unit := fun d => inr (tt, f d).

Lemma st_bind_ok {A B} (m : Trans S E A) (k : A -> Trans S E B) d b d2 :
  mbind k m d = inr (b, d2) -> exists a d1, m d = inr (a, d1) /\ k a d1 = inr (b, d2).
Proof. unfold mbind, Trans_bind. destruct (m d) as [e|[a d1]]; [done|]. eauto. Qed.
Lemma st_reject_ok b e d u d1 : st_reject b e d = inr (u, d1) -> b = false /\ d1 = d.
Proof. unfold st_reject. destruct b; [done|]. by intros [= _ <-]. Qed.
Lemma st_read_ok {A} (f : S -> A) d a d1 : st_read f d = inr (a, d1) -> a = f d /\ d1 = d.
Proof. by intros [= <- <-]. Qed.
Lemma st_write_ok f d u d1 : st_write f d = inr (u, d1) -> d1 = f d.
Proof. by intros [= _ <-]. Qed.
Lemma st_ret_ok {A} (a b : A) d d1 : (mret a : Trans S E A) d = inr (b, d1) -> a = b /\ d1 = d.
Proof. by intros [= <- <-]. Qed.
End Trans.

(** Inverts a transaction that committed. *)
Ltac st_inv H :=
  cbn beta zeta in H;
  lazymatch type of H with
  | mbind _ _ _ = inr _ =>
      let a := fresh "a" in let d1 := fresh "d1" in let Hm := fresh "Hm" in
      apply st_bind_ok in H as (a & d1 & Hm & H); st_inv Hm; st_inv H
  | st_reject _ _ _ = inr _ => apply st_reject_ok in H as [H ->]
  | st_read _ _ = inr _ => apply st_read_ok in H as [-> ->]
  | st_write _ _ = inr _ => apply st_write_ok in H as ->
  | mret _ _ = inr _ => apply st_ret_ok in H as [H ->]; first [discriminate H | subst | idtac]
  | st_fail _ _ = inr _ => discriminate H
  | _ => idtac
  end.
Ltac st_cases :=
  repeat match goal with
  | H : _ = inr (_, _) |- _ => progress st_inv H
  | H : (match ?x with _ => _ end) _ = inr _ |- _ => destruct x eqn:?
  end.

(** The database carries a transaction out, refuses it, is not available ([down]),
    or fails after it committed. *)
Inductive answers {S E A} (down : E) (op : Trans S E A) (d : S) : E + A -> S -> Prop :=
  | answer_commit a d' : op d = inr (a, d') -> answers down op d (inr a) d'
  | answer_refused e : op d = inl e -> answers down op d (inl e) d
  | answer_unavailable : answers down op d (inl down) d
  | answer_lost a d' : op d = inr (a, d') -> answers down op d (inl down) d'.

(** A committed or lost transaction happened; the others did not. *)
Lemma answers_after {S E A} (down : E) (op : Trans S E A) d r d' : answers down op d r d' -> d' = d \/ exists a, op d = inr (a, d').
Proof. intros [a t Ha|e He| |a t Ha]; eauto. Qed.

(** ** Programs *)

Inductive Program (C : Type -> Type) (A : Type) : Type :=
  | Ret (a : A)
  | Vis {R} (c : C R) (k : R -> Program C A).
Arguments Ret {C A} a.
Arguments Vis {C A R} c k.

#[export] Instance Program_ret C : MRet (Program C) := fun A => Ret.
#[export] Instance Program_bind C : MBind (Program C) := fun A B f =>
  fix bind (p : Program C A) : Program C B :=
    match p with Ret a => f a | Vis c k => Vis c (fun r => bind (k r)) end.

Section Programs.
Context {C : Type -> Type} {E : Type}.

Definition call {R} (c : C R) : Program C R := Vis c Ret.

(** Programs that may fail; [x ⇐ m; k] returns the error of [m]. *)
Definition tryBind {A B} (k : A -> Program C (E + B)) (m : Program C (E + A)) : Program C (E + B) :=
  r ← m; match r with inl e => mret (inl e) | inr a => k a end.
Definition ok {A} (a : A) : Program C (E + A) := mret (inr a).
Definition failWith {A} (e : E) : Program C (E + A) := mret (inl e).
End Programs.

Notation "x ⇐ y ; z" := (tryBind (fun x => z) y)
  (at level 20, y at level 100, z at level 200, only parsing) : stdpp_scope.
Notation "y ⨟ z" := (tryBind (fun _ : unit => z) y)
  (at level 100, z at level 200, only parsing, right associativity) : stdpp_scope.

Inductive Event (C : Type -> Type) : Type :=
  | Did {R} (c : C R) (reply : R).
Arguments Did {C R} c reply.

(** ** Runs of one program *)

(** [possible] are the replies that can be given. *)
Section Runs.
Context {C : Type -> Type} (possible : forall R, C R -> R -> Prop).

Inductive runs {A} : Program C A -> list (Event C) -> Program C A -> Prop :=
  | runs_here p : runs p [] p
  | runs_call {R} (c : C R) k r tr p : possible R c r -> runs (k r) tr p -> runs (Vis c k) (Did c r :: tr) p.

(** The program makes every call [c] after a past with [G past c], and ends with
    [Q]. *)
Context (G : list (Event C) -> forall R, C R -> Prop).

Fixpoint tw {A} (past : list (Event C)) (p : Program C A) (Q : A -> list (Event C) -> Prop) : Prop :=
  match p with
  | Ret a => Q a past
  | @Vis _ _ R c k => G past R c /\ forall r, possible R c r -> tw (past ++ [Did c r]) (k r) Q
  end.

Lemma tw_weaken {A} past (p : Program C A) (Q Q' : A -> list (Event C) -> Prop) :
  (forall a past', Q a past' -> Q' a past') -> tw past p Q -> tw past p Q'.
Proof.
  intros HQ. revert past. induction p as [a|R c k IH]; intros past; [apply HQ|].
  intros [Hg Hk]. split; [done|]. intros r Hr. apply IH, Hk, Hr.
Qed.

Lemma tw_bind {A B} past (p : Program C A) (f : A -> Program C B) Q1 Q :
  tw past p Q1 -> (forall a past', Q1 a past' -> tw past' (f a) Q) -> tw past (p ≫= f) Q.
Proof.
  intros Hp Hf. revert past Hp. induction p as [a|R c k IH]; intros past; [apply Hf|].
  intros [Hg Hk]. split; [done|]. intros r Hr. apply IH, Hk, Hr.
Qed.

Lemma tw_try {E A B} past (m : Program C (E + A)) (f : A -> Program C (E + B)) Q1 (Q : E + B -> list (Event C) -> Prop) :
  tw past m Q1 -> (forall e past', Q1 (inl e) past' -> Q (inl e) past') ->
  (forall a past', Q1 (inr a) past' -> tw past' (f a) Q) -> tw past (tryBind f m) Q.
Proof. intros Hm Hl Hf. eapply tw_bind; [exact Hm|]. intros [e|a] past' H; [by apply Hl|by apply Hf]. Qed.

Lemma tw_runs {A} past (p : Program C A) Q tr q : tw past p Q -> runs p tr q -> tw (past ++ tr) q Q.
Proof.
  intros Hp Hr. revert past Hp. induction Hr as [p|R c k r tr p Hpos Hr IH]; intros past Hp; [by rewrite app_nil_r|].
  destruct Hp as [_ Hk]. specialize (IH (past ++ [Did c r])). rewrite <-app_assoc in IH. by apply IH, Hk.
Qed.

Definition allowedAt (past : list (Event C)) (ev : Event C) : Prop := match ev with @Did _ R c r => G past R c end.

Lemma tw_calls {A} past (p : Program C A) Q tr1 ev tr2 q : tw past p Q -> runs p (tr1 ++ ev :: tr2) q -> allowedAt (past ++ tr1) ev.
Proof.
  intros Hp Hr. remember (tr1 ++ ev :: tr2) as tr eqn:Htr. revert tr1 past Htr Hp.
  induction Hr as [p|R c k r tr p Hpos Hr IH]; intros tr1 past Htr Hp; [by destruct tr1|]. destruct Hp as [Hg Hk].
  destruct tr1 as [|ev1 tr1]; simplify_eq/=; [by rewrite app_nil_r|].
  specialize (IH tr1 (past ++ [Did c r]) eq_refl (Hk r Hpos)). by rewrite <-app_assoc in IH.
Qed.

Lemma runs_prefix {A} (p : Program C A) tr1 tr2 q : runs p (tr1 ++ tr2) q -> exists p', runs p tr1 p'.
Proof.
  intros Hr. remember (tr1 ++ tr2) as tr eqn:Htr. revert tr1 Htr.
  induction Hr as [p|R c k r tr p Hpos Hr IH]; intros tr1 Htr; (destruct tr1 as [|ev tr1]; [by eexists; constructor|]).
  - done.
  - simplify_eq/=. destruct (IH tr1 eq_refl) as [p' Hp']. exists p'. by constructor.
Qed.
End Runs.

(** Where nothing is said of calls, every program does; its trace grows. *)
Abbreviation free := (fun (_ : list (Event _)) (R : Type) (_ : _ R) => True).

Section Free.
Context {C : Type -> Type} (possible : forall R, C R -> R -> Prop).

Lemma tw_grows {A} past (p : Program C A) : tw possible free past p (fun _ past' => exists tail, past' = past ++ tail).
Proof.
  revert past. induction p as [a|R c k IH]; intros past; [exists []; by rewrite app_nil_r|].
  split; [done|]. intros r _. eapply tw_weaken; [|apply IH]. intros a past' [tail ->]. exists (Did c r :: tail). by rewrite <-app_assoc.
Qed.

Lemma tw_and {A} past (p : Program C A) Q1 Q2 :
  tw possible free past p Q1 -> tw possible free past p Q2 -> tw possible free past p (fun a past' => Q1 a past' /\ Q2 a past').
Proof.
  revert past. induction p as [a|R c k IH]; intros past; [done|]. intros [_ H1] [_ H2]. split; [done|]. intros r Hr. by apply IH; auto.
Qed.

Lemma tw_then {A B} past (p : Program C A) (f : A -> Program C B) Q :
  (forall a tail, tw possible free (past ++ tail) (f a) Q) -> tw possible free past (p ≫= f) Q.
Proof. intros Hf. eapply tw_bind; [apply tw_grows|]. intros a past' [tail ->]. apply Hf. Qed.
End Free.

(** ** Processes on one database

    Any number of programs run at once: they interleave call by call, may stop
    anywhere, and what they share may also change without them ([env]). *)

Inductive Thread (C : Type -> Type) : Type :=
  | process {A} (p : Program C A).
Arguments process {C A} p.

Record Pool (C : Type -> Type) (S : Type) := { po_threads : list (Thread C); po_db : S; po_trace : list (Event C) }.
Arguments po_threads {C S}.
Arguments po_db {C S}.
Arguments po_trace {C S}.

Section Pools.
Context {C : Type -> Type} {S : Type} (replies : S -> forall R, C R -> R -> S -> Prop).
Context (entry : Thread C -> Prop) (env : S -> S -> Prop).

Inductive pool_step : Pool C S -> Pool C S -> Prop :=
  | pool_call ts1 ts2 {A R} (c : C R) (k : R -> Program C A) d r d' trace :
      replies d R c r d' ->
      pool_step {| po_threads := ts1 ++ process (Vis c k) :: ts2; po_db := d; po_trace := trace |}
        {| po_threads := ts1 ++ process (k r) :: ts2; po_db := d'; po_trace := trace ++ [Did c r] |}
  | pool_start t ts d trace :
      entry t -> pool_step {| po_threads := ts; po_db := d; po_trace := trace |}
        {| po_threads := t :: ts; po_db := d; po_trace := trace |}
  | pool_stop t ts1 ts2 d trace :
      pool_step {| po_threads := ts1 ++ t :: ts2; po_db := d; po_trace := trace |}
        {| po_threads := ts1 ++ ts2; po_db := d; po_trace := trace |}
  | pool_env ts d d' trace :
      env d d' -> pool_step {| po_threads := ts; po_db := d; po_trace := trace |}
        {| po_threads := ts; po_db := d'; po_trace := trace |}.

(** *** An invariant of the shared state and of what was done *)

Context (Inv : S -> list (Event C) -> Prop).

(** Facts about the past stay. *)
Definition lasting (K : list (Event C) -> Prop) : Prop := forall tr tail, K tr -> K (tr ++ tail).

(** The program keeps the invariant, may use [K], and ends with [Q]. *)
Fixpoint wk {A} (K : list (Event C) -> Prop) (p : Program C A) (Q : A -> list (Event C) -> Prop) : Prop :=
  match p with
  | Ret a => forall tr, K tr -> Q a tr
  | @Vis _ _ R c k => forall d tr r d', Inv d tr -> K tr -> replies d R c r d' ->
      Inv d' (tr ++ [Did c r]) /\
      exists K', lasting K' /\ K' (tr ++ [Did c r]) /\ wk K' (k r) Q
  end.

Lemma wk_weaken {A} (K K2 : list (Event C) -> Prop) (p : Program C A) (Q Q2 : A -> list (Event C) -> Prop) :
  (forall tr, K2 tr -> K tr) -> (forall a tr, Q a tr -> Q2 a tr) -> wk K p Q -> wk K2 p Q2.
Proof.
  revert K K2. induction p as [a|R c k IH]; intros K K2 HK HQ Hp; [by intros tr ?; apply HQ, Hp, HK|].
  intros d tr r d' Hi Htr Hr. destruct (Hp d tr r d' Hi (HK _ Htr) Hr) as (Hi' & K' & Hl & HK' & Hk).
  split; [done|]. exists K'. split_and!; [done..|]. by eapply IH; [..|exact Hk].
Qed.

Lemma wk_bind {A B} K (p : Program C A) (f : A -> Program C B) Q1 Q :
  wk K p Q1 -> (forall a, wk (Q1 a) (f a) Q) -> wk K (p ≫= f) Q.
Proof.
  intros Hp Hf. revert K Hp. induction p as [a|R c k IH]; intros K Hp.
  - by eapply wk_weaken; [exact Hp|by intros|apply Hf].
  - intros d tr r d' Hi Htr Hr. destruct (Hp d tr r d' Hi Htr Hr) as (Hi' & K' & Hl & HK' & Hk).
    split; [done|]. exists K'. split_and!; [done..|]. by apply IH.
Qed.

Definition threadKeeps (tr : list (Event C)) (t : Thread C) : Prop :=
  match t with process p => exists K, lasting K /\ K tr /\ wk K p (fun _ _ => True) end.

Lemma threadKeeps_later tr tail t : threadKeeps tr t -> threadKeeps (tr ++ tail) t.
Proof. destruct t as [A p]. intros (K & Hl & HK & Hp). exists K. auto. Qed.

Lemma pool_invariant s s' :
  (forall t tr, entry t -> threadKeeps tr t) -> (forall d d' tr, Inv d tr -> env d d' -> Inv d' tr) ->
  rtc pool_step s s' -> po_threads s = [] -> Inv (po_db s) (po_trace s) -> Inv (po_db s') (po_trace s').
Proof.
  intros Hentry Henv Hs Hn Hi.
  enough (Inv (po_db s') (po_trace s') /\ Forall (threadKeeps (po_trace s')) (po_threads s')) as [? _] by done.
  revert Hs. refine (rtc_ind_r (fun s' => Inv (po_db s') (po_trace s') /\ Forall (threadKeeps (po_trace s')) (po_threads s')) s _ _ s').
  { rewrite Hn. auto. }
  clear s'. intros s1 s2 _ Hstep [Hi1 Hts]. destruct Hstep as [ts1 ts2 A R c k d r d' trace Hr|t ts d trace Ht|t ts1 ts2 d trace|ts d d' trace He]; cbn in *.
  - apply Forall_app in Hts as [H1 H2]. apply Forall_cons in H2 as [(K & Hl & HK & Hp) H2].
    destruct (Hp d trace r d' Hi1 HK Hr) as (Hi2 & K' & Hl' & HK' & Hk). split; [done|].
    apply Forall_app. split; [|constructor; [by exists K'|]]; (eapply Forall_impl; [eassumption|]); intros; by apply threadKeeps_later.
  - split; [done|]. constructor; [by apply Hentry|done].
  - split; [done|]. apply Forall_app in Hts as [H1 H2]. apply Forall_cons in H2 as [_ H2]. by apply Forall_app.
  - split; [|done]. by eapply Henv.
Qed.

(** *** Rules *)

Lemma wk_try {E A B} K (m : Program C (E + A)) (f : A -> Program C (E + B)) Q1 (Q : E + B -> list (Event C) -> Prop) :
  wk K m Q1 -> (forall e tr, Q1 (inl e) tr -> Q (inl e) tr) -> (forall a, wk (Q1 (inr a)) (f a) Q) -> wk K (tryBind f m) Q.
Proof. intros Hm Hl Hf. eapply wk_bind; [exact Hm|]. intros [e|a]; [exact (Hl e)|apply Hf]. Qed.

(** A call and what it teaches. *)
Lemma wk_learn {A R} K (K' : R -> list (Event C) -> Prop) (c : C R) (k : R -> Program C A) Q :
  (forall r, lasting (K' r)) ->
  (forall d tr r d', Inv d tr -> K tr -> replies d R c r d' -> Inv d' (tr ++ [Did c r]) /\ K' r (tr ++ [Did c r])) ->
  (forall r, wk (K' r) (k r) Q) -> wk K (Vis c k) Q.
Proof.
  intros Hl Hc Hk d tr r d' Hi Htr Hr. destruct (Hc d tr r d' Hi Htr Hr) as [Hi' Hk']. split; [done|]. by exists (K' r).
Qed.

Lemma wk_call {A R} K (c : C R) (k : R -> Program C A) Q :
  lasting K ->
  (forall d tr r d', Inv d tr -> K tr -> replies d R c r d' -> Inv d' (tr ++ [Did c r])) ->
  (forall r, wk (fun tr => K tr /\ Did c r ∈ tr) (k r) Q) -> wk K (call c ≫= k) Q.
Proof.
  intros Hl Hc Hk d tr r d' Hi Htr Hr. split; [by eapply Hc|]. exists (fun tr => K tr /\ Did c r ∈ tr). split_and!; [|by apply Hl| |apply Hk].
  - intros tr' tail [? ?]. split; [by apply Hl|]. apply elem_of_app. auto.
  - rewrite elem_of_app, list_elem_of_singleton. auto.
Qed.
End Pools.

Section Lasting.
Context {C : Type -> Type}.
Lemma lasting_and (K1 K2 : list (Event C) -> Prop) : lasting K1 -> lasting K2 -> lasting (fun tr => K1 tr /\ K2 tr).
Proof. intros H1 H2 tr tail [? ?]. auto. Qed.
Lemma lasting_or (K1 K2 : list (Event C) -> Prop) : lasting K1 -> lasting K2 -> lasting (fun tr => K1 tr \/ K2 tr).
Proof. intros H1 H2 tr tail [?|?]; auto. Qed.
Lemma lasting_true : lasting (fun _ : list (Event C) => True).
Proof. done. Qed.
Lemma lasting_event (ev : Event C) : lasting (fun tr => ev ∈ tr).
Proof. intros tr tail Hin. apply elem_of_app. auto. Qed.
End Lasting.
Create HintDb lasting.

(** Every event was in order after what came before it. *)
Definition ordered {C : Type -> Type} (P : list (Event C) -> Event C -> Prop) (tr : list (Event C)) : Prop :=
  forall tr1 ev tr2, tr = tr1 ++ ev :: tr2 -> P tr1 ev.

Lemma ordered_nil {C : Type -> Type} (P : list (Event C) -> Event C -> Prop) : ordered P [].
Proof. intros tr1 ev tr2 Htr. by destruct tr1. Qed.
Lemma ordered_snoc {C : Type -> Type} (P : list (Event C) -> Event C -> Prop) tr ev : ordered P tr -> P tr ev -> ordered P (tr ++ [ev]).
Proof.
  intros Ho Hev tr1 ev1 tr2 Htr. destruct tr2 as [|ev2 tr2 _] using rev_ind.
  - by apply app_inj_tail in Htr as [-> <-].
  - rewrite app_comm_cons, app_assoc in Htr. apply app_inj_tail in Htr as [-> _]. by eapply Ho.
Qed.
#[export] Hint Resolve lasting_and lasting_or lasting_true lasting_event : lasting.

(** ** Calls of one kind *)

Section EveryCall.
Context {C : Type -> Type} (P : forall R, C R -> Prop).

Fixpoint everyCall {A} (p : Program C A) : Prop :=
  match p with Ret _ => True | Vis c k => P _ c /\ forall r, everyCall (k r) end.

Lemma every_bind {A B} (p : Program C A) (f : A -> Program C B) : everyCall p -> (forall a, everyCall (f a)) -> everyCall (p ≫= f).
Proof. intros Hp Hf. induction p as [a|R c k IH]; [apply Hf|]. destruct Hp as [Hc Hk]. split; [done|]. intros r. by apply IH. Qed.
Lemma every_try {E A B} (m : Program C (E + A)) (f : A -> Program C (E + B)) : everyCall m -> (forall a, everyCall (f a)) -> everyCall (tryBind f m).
Proof. intros Hm Hf. apply every_bind; [done|]. by intros [e|a]. Qed.
Lemma every_call {R} (c : C R) : P R c -> everyCall (call c).
Proof. by intros Hc. Qed.

(** Calls that keep an invariant, and so do the programs made of them. *)
Lemma every_keeps {S A} (replies : S -> forall R, C R -> R -> S -> Prop) (Inv : S -> list (Event C) -> Prop) K (p : Program C A) :
  (forall d tr R (c : C R) r d', P R c -> Inv d tr -> replies d R c r d' -> Inv d' (tr ++ [Did c r])) ->
  lasting K -> everyCall p -> wk replies Inv K p (fun _ => K).
Proof.
  intros HP HK Hp. induction p as [a|R c k IH]; [by intros tr ?|]. destruct Hp as [Hc Hk].
  intros d tr r d' Hi Htr Hr. split; [by eapply HP|]. exists K. split_and!; [done|by apply HK|by apply IH].
Qed.
End EveryCall.

Lemma every_impl {C : Type -> Type} {A} (P Q : forall R, C R -> Prop) (p : Program C A) :
  (forall R c, P R c -> Q R c) -> everyCall P p -> everyCall Q p.
Proof. intros HPQ. induction p as [a|R c k IH]; [done|]. intros [Hc Hk]. split; auto. Qed.
