(* ===== verification/TelegramState.v ===== *)
(** * The Telegram gateway's own state ([src/internal/telegram/state.go])

    A SQLite file beside the gateway: processed updates, topic routes, callback
    tokens, claim executions, the map of sent messages, cursors, and the health
    ledgers.  Every method is one statement or one transaction: it either fails
    and changes nothing, or commits.  The health ledgers have a file of their
    own ([TelegramHealth]). *)

From S2P Require Import Prelude Programs GoTime Text Sha256 Tables Source.
Open Scope Z_scope.

(** ** Data *)

Inductive ClaimPhase :=
  | ClaimPhaseReserved | ClaimPhaseCreating | ClaimPhaseTopicCreated
  | ClaimPhaseAdopting | ClaimPhaseRoutePersisted | ClaimPhaseComplete.

#[export] Instance ClaimPhase_eq_dec : EqDecision ClaimPhase.
Proof. solve_decision. Defined.

Inductive GatewayFailureClass :=
  | GatewayFailureNone | GatewayFailureTransient | GatewayFailureMessageLessPoll
  | GatewayFailureInboundRelayPermanent | GatewayFailureOutboundTelegramPermanent
  | GatewayFailureDeletedTopic.

#[export] Instance GatewayFailureClass_eq_dec : EqDecision GatewayFailureClass.
Proof. solve_decision. Defined.

(** callback_tokens, by the hash of the token. *)
Record TokenRow := {
  tk_conversation : string;
  tk_expires_at : Z;
  tk_consumed_at : option Z;
  tk_rowid : Z;
}.

(** claim_executions, by conversation. *)
Record ClaimRow := {
  ce_thread_id : option Z;
  ce_chat_id : option Z;
  ce_phase : ClaimPhase;
  ce_display_name : option string;
  ce_skip_reserve : bool;
}.

(** telegram_outbound, by chat and message. *)
Record OutboundRow := {
  ob_conversation : string;
  ob_message : string;
  ob_endpoint : string;
  ob_created_at : Z;
  ob_rowid : Z;
}.

(** The row of gateway_health. *)
Record HealthRow := {
  gh_last_cycle_at : Z;
  gh_last_success_at : option Z;
  gh_last_poll_at : option Z;
  gh_last_relay_at : option Z;
  gh_last_telegram_at : option Z;
  gh_last_progress_at : Z;
  gh_last_outbound_progress_at : option Z;
  gh_offset : Z;
  gh_outbound_blocked : bool;
  gh_consecutive_failures : Z;
  gh_last_failure : GatewayFailureClass;
  gh_terminal_inbound : Z;
  gh_terminal_outbound : Z;
}.

Record TgDb := {
  tg_processed : gset Z;
  tg_routes : gmap (Z * Z) string;
  tg_tokens : gmap string TokenRow;
  tg_claims : gmap string ClaimRow;
  tg_outbound : gmap (Z * Z) OutboundRow;
  tg_cursors : gmap string string;
  tg_health : option HealthRow;
  tg_inbound_targets : gmap string Z;
  tg_outbound_targets : gmap string (Z * GatewayFailureClass);
  tg_outbound_events : gmap string (string * GatewayFailureClass);
}.

Definition set_processed (x : gset Z) (d : TgDb) : TgDb := {|
  tg_processed := x; tg_routes := tg_routes d; tg_tokens := tg_tokens d; tg_claims := tg_claims d;
  tg_outbound := tg_outbound d; tg_cursors := tg_cursors d; tg_health := tg_health d;
  tg_inbound_targets := tg_inbound_targets d; tg_outbound_targets := tg_outbound_targets d;
  tg_outbound_events := tg_outbound_events d |}.
Definition set_routes (x : gmap (Z * Z) string) (d : TgDb) : TgDb := {|
  tg_processed := tg_processed d; tg_routes := x; tg_tokens := tg_tokens d; tg_claims := tg_claims d;
  tg_outbound := tg_outbound d; tg_cursors := tg_cursors d; tg_health := tg_health d;
  tg_inbound_targets := tg_inbound_targets d; tg_outbound_targets := tg_outbound_targets d;
  tg_outbound_events := tg_outbound_events d |}.
Definition set_tokens (x : gmap string TokenRow) (d : TgDb) : TgDb := {|
  tg_processed := tg_processed d; tg_routes := tg_routes d; tg_tokens := x; tg_claims := tg_claims d;
  tg_outbound := tg_outbound d; tg_cursors := tg_cursors d; tg_health := tg_health d;
  tg_inbound_targets := tg_inbound_targets d; tg_outbound_targets := tg_outbound_targets d;
  tg_outbound_events := tg_outbound_events d |}.
Definition set_claims (x : gmap string ClaimRow) (d : TgDb) : TgDb := {|
  tg_processed := tg_processed d; tg_routes := tg_routes d; tg_tokens := tg_tokens d; tg_claims := x;
  tg_outbound := tg_outbound d; tg_cursors := tg_cursors d; tg_health := tg_health d;
  tg_inbound_targets := tg_inbound_targets d; tg_outbound_targets := tg_outbound_targets d;
  tg_outbound_events := tg_outbound_events d |}.
Definition set_outbound (x : gmap (Z * Z) OutboundRow) (d : TgDb) : TgDb := {|
  tg_processed := tg_processed d; tg_routes := tg_routes d; tg_tokens := tg_tokens d; tg_claims := tg_claims d;
  tg_outbound := x; tg_cursors := tg_cursors d; tg_health := tg_health d;
  tg_inbound_targets := tg_inbound_targets d; tg_outbound_targets := tg_outbound_targets d;
  tg_outbound_events := tg_outbound_events d |}.
Definition set_cursors (x : gmap string string) (d : TgDb) : TgDb := {|
  tg_processed := tg_processed d; tg_routes := tg_routes d; tg_tokens := tg_tokens d; tg_claims := tg_claims d;
  tg_outbound := tg_outbound d; tg_cursors := x; tg_health := tg_health d;
  tg_inbound_targets := tg_inbound_targets d; tg_outbound_targets := tg_outbound_targets d;
  tg_outbound_events := tg_outbound_events d |}.
Definition set_ledgers (health : option HealthRow) (inbound : gmap string Z)
    (outbound : gmap string (Z * GatewayFailureClass)) (events : gmap string (string * GatewayFailureClass))
    (d : TgDb) : TgDb := {|
  tg_processed := tg_processed d; tg_routes := tg_routes d; tg_tokens := tg_tokens d; tg_claims := tg_claims d;
  tg_outbound := tg_outbound d; tg_cursors := tg_cursors d; tg_health := health;
  tg_inbound_targets := inbound; tg_outbound_targets := outbound; tg_outbound_events := events |}.

Definition emptyTg : TgDb := {|
  tg_processed := ∅; tg_routes := ∅; tg_tokens := ∅; tg_claims := ∅; tg_outbound := ∅; tg_cursors := ∅;
  tg_health := None; tg_inbound_targets := ∅; tg_outbound_targets := ∅; tg_outbound_events := ∅ |}.

(** The errors of the gateway, as far as anything tells them apart: of a closed
    relay call, of a completed or broken Bot API call, of a delivery that
    cannot be sent, of the database, and the rest by their text.  An error that
    wraps another is the one it wraps. *)
Inductive TgErr :=
  | TgFailed (text : string)
  | TgDatabase
  | TgRelay (permanent : bool)
  | TgBot (method : string) (status : Z) (deletedTopic : bool)
  | TgTransport
  | TgDelivery.

#[export] Instance TgErr_eq_dec : EqDecision TgErr.
Proof. solve_decision. Defined.

Definition T (A : Type) : Type := Trans TgDb TgErr A.

(** ** Processed updates *)

Definition Processed (updateID : Z) : T bool := st_read (fun d => bool_decide (updateID ∈ tg_processed d)).

Definition MarkProcessed (updateID : Z) : T unit :=
  st_write (fun d => set_processed ({[updateID]} ∪ tg_processed d) d).

(** ** Routes *)

(** The sole topic of a conversation. *)
Definition routeOf (routes : gmap (Z * Z) string) (conversationID : string) : option (Z * Z) :=
  fst <$> head (filter (fun kv => kv.2 = conversationID) (map_to_list routes)).

Definition Route (chatID threadID : Z) : T (option string) := st_read (fun d => tg_routes d !! (chatID, threadID)).

Definition RouteForConversation (conversationID : string) : T (option (Z * Z)) :=
  st_read (fun d => routeOf (tg_routes d) conversationID).

Definition claimProtectsRoute (d : TgDb) (conversationID : string) : bool :=
  match tg_claims d !! conversationID with
  | Some c => negb (bool_decide (ce_phase c = ClaimPhaseReserved))
  | None => false
  end.

(** [thread_id IS NULL OR thread_id <= 0] *)
Definition unthreaded (c : ClaimRow) : bool := match ce_thread_id c with Some t => t <=? 0 | None => true end.

Definition claimBlocksRemap (d : TgDb) (conversationID : string) : bool :=
  match tg_claims d !! conversationID with
  | Some c =>
      if bool_decide (ce_phase c = ClaimPhaseCreating) && unthreaded c then false
      else negb (bool_decide (ce_phase c = ClaimPhaseReserved))
  | None => false
  end.

Definition RouteBlocked (chatID threadID : Z) (conversationID : string) : T unit :=
  d ← st_read (fun d => d);
  st_reject (claimBlocksRemap d conversationID) (TgFailed "telegram conversation is already claimed");;
  match tg_routes d !! (chatID, threadID) with
  | None => mret tt
  | Some existing =>
      if bool_decide (existing = conversationID) then mret tt
      else st_reject (claimProtectsRoute d existing) (TgFailed "telegram topic is already bound to a claimed conversation")
  end.

(** INSERT, with the unique index on the conversation. *)
Definition insertRoute (chatID threadID : Z) (conversationID : string) : T unit :=
  routes ← st_read tg_routes;
  st_reject (mexists (fun k c => negb (bool_decide (k = (chatID, threadID))) && bool_decide (c = conversationID)) routes)
    TgDatabase;;
  st_write (set_routes (<[(chatID, threadID) := conversationID]> routes)).

Definition with_phase (phase : ClaimPhase) (c : ClaimRow) : ClaimRow := {|
  ce_thread_id := ce_thread_id c; ce_chat_id := ce_chat_id c; ce_phase := phase;
  ce_display_name := ce_display_name c; ce_skip_reserve := ce_skip_reserve c |}.
Definition with_topic (threadID chatID : Z) (phase : ClaimPhase) (c : ClaimRow) : ClaimRow := {|
  ce_thread_id := Some threadID; ce_chat_id := Some chatID; ce_phase := phase;
  ce_display_name := ce_display_name c; ce_skip_reserve := ce_skip_reserve c |}.

(** UPDATE claim_executions ... WHERE conversation_id = ? AND [when]; the number
    of rows. *)
Definition updateClaim (conversationID : string) (when : ClaimRow -> bool) (f : ClaimRow -> ClaimRow) : T Z :=
  claims ← st_read tg_claims;
  match claims !! conversationID with
  | Some c =>
      if when c then st_write (set_claims (<[conversationID := f c]> claims));; mret 1 else mret 0
  | None => mret 0
  end.
Definition always {A} : A -> bool := fun _ => true.
Definition inPhase (phase : ClaimPhase) (c : ClaimRow) : bool := bool_decide (ce_phase c = phase).

Definition SetRoute (chatID threadID : Z) (conversationID : string) : T unit :=
  st_reject (blank conversationID) (TgFailed "conversation ID is required");;
  RouteBlocked chatID threadID conversationID;;
  insertRoute chatID threadID conversationID;;
  updateClaim conversationID (fun c => inPhase ClaimPhaseCreating c && unthreaded c)
    (with_topic threadID chatID ClaimPhaseTopicCreated);;
  mret tt.

(** ** Callback tokens *)

Definition callbackTokenTTL : Z := 15 * Time.Minute.
Definition maxCallbackTokens : Z := 100.

Definition callbackTokenHash (raw : string) : string := hexEncode (Sha256.Sum256 (bytesOf raw)).

(** The next value of SQLite's rowid. *)
Definition nextRowid (used : list Z) : Z := 1 + foldr Z.max 0 used.

(** [raw] are the 32 random bytes, or their failure. *)
Definition IssueCallbackToken (raw : option (list Z)) (conversationID : string) (now : Z) : T string :=
  st_reject (blank conversationID) (TgFailed "conversation ID is required");;
  match raw with
  | None => st_fail (TgFailed "generate telegram callback token")
  | Some raw =>
      let token := hexEncode raw in
      let nowMs := Time.UnixMilli now in
      tokens ← st_read tg_tokens;
      let live := filter (fun kv => nowMs < tk_expires_at kv.2) tokens in
      let open := filter (fun kv => tk_consumed_at kv.2 = None) (map_to_list live) in
      let outstanding := Z.of_nat (length open) in
      let evicted := if maxCallbackTokens <=? outstanding then
        (take (Z.to_nat (outstanding - maxCallbackTokens + 1))
          (sortBy (fun a b => (tk_expires_at a.2 <? tk_expires_at b.2) ||
             (tk_expires_at a.2 =? tk_expires_at b.2) && (tk_rowid a.2 <=? tk_rowid b.2)) open)).*1
        else [] in
      let kept := filter (fun kv => kv.1 ∉ evicted) live in
      st_reject (has kept (callbackTokenHash token)) TgDatabase;;
      st_write (set_tokens (<[callbackTokenHash token := {|
        tk_conversation := conversationID; tk_expires_at := Time.UnixMilli (Time.Add now callbackTokenTTL);
        tk_consumed_at := None; tk_rowid := nextRowid ((fun kv => tk_rowid kv.2) <$> map_to_list kept) |}]> kept));;
      mret token
  end.

(** INSERT ... ON CONFLICT(conversation_id) DO NOTHING; whether a row was made. *)
Definition insertExecution (conversationID : string) (displayName : option string) (skip : bool) : T bool :=
  claims ← st_read tg_claims;
  if has claims conversationID then mret false
  else
    st_write (set_claims (<[conversationID := {| ce_thread_id := None; ce_chat_id := None;
      ce_phase := ClaimPhaseReserved; ce_display_name := displayName; ce_skip_reserve := skip |}]> claims));;
    mret true.

(** The conversation of a token that was valid; the token is used up. *)
Definition ReserveClaimAndConsumeToken (raw : string) (now : Z) : T (option string) :=
  if blank raw then mret None
  else
    tokens ← st_read tg_tokens;
    match tokens !! callbackTokenHash raw with
    | None => mret None
    | Some t =>
        if negb (isNull (tk_consumed_at t)) || (tk_expires_at t <=? Time.UnixMilli now) then mret None
        else
          insertExecution (tk_conversation t) None false;;
          st_write (set_tokens (<[callbackTokenHash raw := {| tk_conversation := tk_conversation t;
            tk_expires_at := tk_expires_at t; tk_consumed_at := Some (Time.UnixMilli now);
            tk_rowid := tk_rowid t |}]> tokens));;
          mret (Some (tk_conversation t))
    end.

(** ** Claim executions *)

Record ClaimExecution := {
  cx_ConversationID : string;
  cx_ThreadID : Z;
  cx_ChatID : Z;
  cx_Phase : ClaimPhase;
  cx_DisplayName : string;
  cx_SkipReserve : bool;
}.

Definition scanClaimExecution (conversationID : string) (c : ClaimRow) : ClaimExecution := {|
  cx_ConversationID := conversationID; cx_ThreadID := default 0 (ce_thread_id c);
  cx_ChatID := default 0 (ce_chat_id c); cx_Phase := ce_phase c;
  cx_DisplayName := default "" (ce_display_name c); cx_SkipReserve := ce_skip_reserve c |}.

Definition ReadClaimExecution (conversationID : string) : T (option ClaimExecution) :=
  st_read (fun d => scanClaimExecution conversationID <$> (tg_claims d !! conversationID)).

Definition InsertPendingExecution (conversationID displayName : string) : T bool :=
  st_reject (blank conversationID) (TgFailed "conversation ID is required");;
  insertExecution conversationID (Some displayName) true.

(** The executions with a phase, ORDER BY conversation_id. *)
Definition claimsWhere (p : ClaimPhase -> bool) (d : TgDb) : list ClaimExecution :=
  (fun kv => scanClaimExecution kv.1 kv.2) <$>
    sortBy (fun a b => negb (stringLt b.1 a.1))
      (filter (fun kv => p (ce_phase kv.2) = true) (map_to_list (tg_claims d))).

Definition afterCursor (after : string) (limit : Z) (l : list ClaimExecution) : list ClaimExecution :=
  take (Z.to_nat limit)
    (filter (fun e => bool_decide (after = "") || stringLt after (cx_ConversationID e) = true) l).

Definition incomplete (phase : ClaimPhase) : bool := negb (bool_decide (phase = ClaimPhaseComplete)).

Definition IncompleteClaimExecutions : T (list ClaimExecution) := st_read (claimsWhere incomplete).
Definition IncompleteClaimExecutionsAfter (after : string) (limit : Z) : T (list ClaimExecution) :=
  if limit <? 1 then mret [] else st_read (fun d => afterCursor after limit (claimsWhere incomplete d)).
Definition CompletedClaimExecutions : T (list ClaimExecution) := st_read (claimsWhere (fun p => negb (incomplete p))).
Definition CompletedClaimExecutionsAfter (after : string) (limit : Z) : T (list ClaimExecution) :=
  if limit <? 1 then mret []
  else st_read (fun d => afterCursor after limit (claimsWhere (fun p => negb (incomplete p)) d)).

Definition PersistClaimDisplayName (conversationID displayName : string) : T unit :=
  updateClaim conversationID always (fun c => {| ce_thread_id := ce_thread_id c; ce_chat_id := ce_chat_id c;
    ce_phase := ce_phase c; ce_display_name := Some displayName; ce_skip_reserve := ce_skip_reserve c |});;
  mret tt.

(** [Some route] when the conversation has its topic already; [None] after the
    step from reserved to creating. *)
Definition BeginClaimCreating (conversationID : string) (allowedUserID : Z) : T (option (Z * Z)) :=
  st_reject (blank conversationID) (TgFailed "conversation ID is required");;
  routes ← st_read tg_routes;
  let found := match routeOf routes conversationID with
    | Some (chatID, threadID) => if 0 <? threadID then Some (chatID, threadID) else None
    | None => None
    end in
  match found with
  | Some (chatID, threadID) =>
      st_reject (negb (allowedUserID =? 0) && negb (chatID =? allowedUserID)) (TgFailed "telegram_route_persist_failed");;
      updateClaim conversationID always (with_topic threadID chatID ClaimPhaseTopicCreated);;
      mret (Some (chatID, threadID))
  | None =>
      affected ← updateClaim conversationID (fun c => inPhase ClaimPhaseReserved c && unthreaded c)
        (with_phase ClaimPhaseCreating);
      st_reject (negb (affected =? 1)) (TgFailed "telegram claim creating fence is unavailable");;
      mret None
  end.

Definition PersistClaimCreating (conversationID : string) : T unit :=
  found ← BeginClaimCreating conversationID 0;
  st_reject (negb (isNull found)) (TgFailed "telegram claim creating fence is unavailable").

Definition ClearClaimCreating (conversationID : string) : T unit :=
  st_reject (blank conversationID) (TgFailed "conversation ID is required");;
  updateClaim conversationID (fun c => inPhase ClaimPhaseCreating c && unthreaded c) (with_phase ClaimPhaseReserved);;
  mret tt.

Definition PersistClaimThread (conversationID : string) (chatID threadID : Z) : T unit :=
  st_reject (blank conversationID || (chatID =? 0) || (threadID <=? 0)) (TgFailed "claim thread is required");;
  updateClaim conversationID always (with_topic threadID chatID ClaimPhaseTopicCreated);;
  mret tt.

Definition with_thread (threadID : Z) (phase : ClaimPhase) (c : ClaimRow) : ClaimRow := {|
  ce_thread_id := Some threadID; ce_chat_id := ce_chat_id c; ce_phase := phase;
  ce_display_name := ce_display_name c; ce_skip_reserve := ce_skip_reserve c |}.

Definition PersistClaimRoute (chatID threadID : Z) (conversationID : string) : T unit :=
  st_reject (blank conversationID || (chatID =? 0) || (threadID <=? 0)) (TgFailed "telegram route persist is required");;
  routes ← st_read tg_routes;
  let existing := match routeOf routes conversationID with
    | Some (chat, thread) => if 0 <? thread then Some (chat, thread) else None
    | None => None
    end in
  match existing with
  | Some (existingChat, existingThread) =>
      st_reject (negb (existingChat =? chatID)) (TgFailed "telegram topic is bound to another chat");;
      updateClaim conversationID always (with_thread existingThread ClaimPhaseRoutePersisted);;
      mret tt
  | None =>
      match routes !! (chatID, threadID) with
      | Some bound =>
          st_reject (negb (bool_decide (bound = conversationID))) (TgFailed "telegram topic is already bound")
      | None => insertRoute chatID threadID conversationID
      end;;
      updateClaim conversationID always (with_phase ClaimPhaseRoutePersisted);;
      mret tt
  end.

(** INSERT ... ON CONFLICT DO UPDATE that spares a complete row. *)
Definition adoptClaim (conversationID : string) (threadID : Z) (chatID : option Z) (phase : ClaimPhase) : T unit :=
  claims ← st_read tg_claims;
  let adopted := match claims !! conversationID with
    | None => {| ce_thread_id := Some threadID; ce_chat_id := chatID; ce_phase := phase;
                 ce_display_name := None; ce_skip_reserve := true |}
    | Some c =>
        let complete := inPhase ClaimPhaseComplete c in
        {| ce_thread_id := if complete then ce_thread_id c else Some threadID;
           ce_chat_id := if complete || isNull chatID then ce_chat_id c else chatID;
           ce_phase := if complete then ce_phase c else phase;
           ce_display_name := ce_display_name c; ce_skip_reserve := true |}
    end in
  st_write (set_claims (<[conversationID := adopted]> claims)).

Definition AdoptExecution (conversationID : string) (threadID : Z) : T unit :=
  st_reject (blank conversationID || (threadID <=? 0)) (TgFailed "adopt route is required");;
  adoptClaim conversationID threadID None ClaimPhaseRoutePersisted.

Definition AdoptExistingRoute (conversationID : string) (allowedUserID : Z) : T Z :=
  st_reject (blank conversationID || (allowedUserID =? 0)) (TgFailed "telegram adopt is not configured");;
  routes ← st_read tg_routes;
  match routeOf routes conversationID with
  | None => st_fail (TgFailed "telegram adopt requires an existing topic route")
  | Some (chatID, threadID) =>
      st_reject (threadID <=? 0) (TgFailed "telegram adopt requires an existing topic route");;
      st_reject (negb (chatID =? allowedUserID)) (TgFailed "telegram adopt requires the configured telegram chat");;
      adoptClaim conversationID threadID (Some chatID) ClaimPhaseAdopting;;
      mret threadID
  end.

Definition PersistClaimAdoptReserved (conversationID : string) : T unit :=
  st_reject (blank conversationID) (TgFailed "conversation ID is required");;
  updateClaim conversationID (inPhase ClaimPhaseAdopting) (with_phase ClaimPhaseRoutePersisted);;
  mret tt.

Definition MarkClaimComplete (conversationID : string) : T unit :=
  updateClaim conversationID always (with_phase ClaimPhaseComplete);; mret tt.

Definition ClaimComplete (conversationID : string) : T bool :=
  d ← st_read (fun d => d);
  if negb (claimProtectsRoute d conversationID) then mret false
  else
    execution ← ReadClaimExecution conversationID;
    match execution with
    | None => mret false
    | Some e => mret (bool_decide (cx_Phase e = ClaimPhaseComplete))
    end.

(** ** Cursors *)

Definition pendingClaimCursorName : string := "pending_claims".
Definition resumeClaimCursorName : string := "resume_claims".
Definition completedRouteCursorName : string := "completed_routes".

Definition readCursor (name : string) : T string := st_read (fun d => default "" (tg_cursors d !! name)).
Definition writeCursor (name after : string) : T unit :=
  st_write (fun d => set_cursors (if bool_decide (after = "") then delete name (tg_cursors d)
                                  else <[name := after]> (tg_cursors d)) d).

Definition pendingClaimCursor : T string := readCursor pendingClaimCursorName.
Definition setPendingClaimCursor (after : string) : T unit := writeCursor pendingClaimCursorName after.
Definition resumeClaimCursor : T string := readCursor resumeClaimCursorName.
Definition setResumeClaimCursor (after : string) : T unit := writeCursor resumeClaimCursorName after.
Definition completedRouteCursor : T string := readCursor completedRouteCursorName.
Definition setCompletedRouteCursor (after : string) : T unit := writeCursor completedRouteCursorName after.

(** ** Sent messages *)

Definition telegramOutboundLimit : Z := 10000.

Definition RecordOutbound (chatID messageID : Z) (conversationID punaroMessageID fromEndpoint : string) (now : Z)
    : T unit :=
  st_reject ((chatID =? 0) || (messageID <=? 0) || blank conversationID) (TgFailed "telegram outbound map row is required");;
  st_write (fun d =>
    let rows := tg_outbound d in
    let rowid := match rows !! (chatID, messageID) with
      | Some row => ob_rowid row
      | None => nextRowid ((fun kv => ob_rowid kv.2) <$> map_to_list rows)
      end in
    let rows := <[(chatID, messageID) := {| ob_conversation := conversationID; ob_message := punaroMessageID;
      ob_endpoint := fromEndpoint; ob_created_at := Time.UnixMilli now; ob_rowid := rowid |}]> rows in
    let excess := Z.of_nat (size rows) - telegramOutboundLimit in
    let oldest := (take (Z.to_nat excess)
      (sortBy (fun a b => (ob_created_at a.2 <? ob_created_at b.2) ||
         (ob_created_at a.2 =? ob_created_at b.2) && (ob_rowid a.2 <=? ob_rowid b.2)) (map_to_list rows))).*1 in
    set_outbound (filter (fun kv => kv.1 ∉ oldest) rows) d).

Record OutboundRef := { rf_ConversationID : string; rf_PunaroMessageID : string; rf_FromEndpoint : string }.

Definition LookupOutbound (chatID messageID : Z) : T (option OutboundRef) :=
  st_read (fun d => (fun row => {| rf_ConversationID := ob_conversation row; rf_PunaroMessageID := ob_message row;
    rf_FromEndpoint := ob_endpoint row |}) <$> (tg_outbound d !! (chatID, messageID))).
