(* ===== verification/TelegramHealth.v ===== *)
(** * The Telegram gateway's health ledgers ([src/internal/telegram/state.go])

    What was terminally rejected, per conversation and direction, the row with
    the last cycle, and the bounded snapshot the doctor reads.  The schema is
    the current one: the columns that older files lack are there. *)

From S2P Require Import Prelude Programs GoTime Text Tables Source TelegramState.
Open Scope Z_scope.

Definition gatewayLegacyTarget : string := "__legacy_unattributed__".

(** ** Terminal targets *)

(** INSERT ... ON CONFLICT DO UPDATE SET failures = failures + excluded.failures *)
Definition bumpInbound (conversationID : string) (n : Z) (targets : gmap string Z) : gmap string Z :=
  <[conversationID := default 0 (targets !! conversationID) + n]> targets.

(** The class of a target that failed once more. *)
Definition mergeClass (old new : GatewayFailureClass) : GatewayFailureClass :=
  if bool_decide (old = GatewayFailureDeletedTopic) || bool_decide (new = GatewayFailureDeletedTopic)
  then GatewayFailureDeletedTopic else GatewayFailureOutboundTelegramPermanent.

Definition bumpOutbound (conversationID : string) (n : Z) (class : GatewayFailureClass)
    (targets : gmap string (Z * GatewayFailureClass)) : gmap string (Z * GatewayFailureClass) :=
  <[conversationID := match targets !! conversationID with
                      | Some (failures, old) => (failures + n, mergeClass old class)
                      | None => (n, class)
                      end]> targets.

Definition forgetTarget {A} (conversationID : string) (targets : gmap string A) : gmap string A :=
  delete conversationID (delete gatewayLegacyTarget targets).

Definition forgetEvents (conversationID : string) (events : gmap string (string * GatewayFailureClass))
    : gmap string (string * GatewayFailureClass) :=
  filter (fun kv => kv.2.1 <> conversationID) events.

Definition with_inbound (targets : gmap string Z) (d : TgDb) : TgDb :=
  set_ledgers (tg_health d) targets (tg_outbound_targets d) (tg_outbound_events d) d.
Definition with_outbound (targets : gmap string (Z * GatewayFailureClass))
    (events : gmap string (string * GatewayFailureClass)) (d : TgDb) : TgDb :=
  set_ledgers (tg_health d) (tg_inbound_targets d) targets events d.

(** INSERT INTO processed_updates ... ON CONFLICT DO NOTHING; whether it was new. *)
Definition insertProcessed (updateID : Z) : T bool :=
  processed ← st_read tg_processed;
  if bool_decide (updateID ∈ processed) then mret false
  else st_write (set_processed ({[updateID]} ∪ processed));; mret true.

Definition MarkProcessedTerminalInbound (updateID : Z) (conversationID : string) : T unit :=
  st_reject ((updateID <? 0) || blank conversationID) (TgFailed "invalid terminal inbound update");;
  inserted ← insertProcessed updateID;
  if inserted : bool then st_write (fun d => with_inbound (bumpInbound conversationID 1 (tg_inbound_targets d)) d)
  else mret tt.

Definition MarkProcessedInboundRecovery (updateID : Z) (conversationID : string) : T unit :=
  st_reject ((updateID <? 0) || blank conversationID) (TgFailed "invalid inbound recovery update");;
  inserted ← insertProcessed updateID;
  if inserted : bool then st_write (fun d => with_inbound (forgetTarget conversationID (tg_inbound_targets d)) d)
  else mret tt.

Definition permanentClass (class : GatewayFailureClass) : bool :=
  bool_decide (class = GatewayFailureOutboundTelegramPermanent) || bool_decide (class = GatewayFailureDeletedTopic).

(** The class of a target after the class of a staged event changed. *)
Definition reconciledClass (conversationID : string) (failures : Z) (targetClass : GatewayFailureClass)
    (events : gmap string (string * GatewayFailureClass)) : GatewayFailureClass :=
  let staged := mcount (fun _ e => bool_decide (e.1 = conversationID)) events in
  let deleted := mcount (fun _ e => bool_decide (e.1 = conversationID) &&
    bool_decide (e.2 = GatewayFailureDeletedTopic)) events in
  if (0 <? deleted) || (staged <? failures) && bool_decide (targetClass = GatewayFailureDeletedTopic)
  then GatewayFailureDeletedTopic else GatewayFailureOutboundTelegramPermanent.

Definition StageTerminalOutbound (deliveryID conversationID : string) (class : GatewayFailureClass) : T unit :=
  st_reject (blank deliveryID || blank conversationID || negb (permanentClass class))
    (TgFailed "invalid terminal outbound delivery");;
  targets ← st_read tg_outbound_targets;
  events ← st_read tg_outbound_events;
  match events !! deliveryID with
  | None =>
      st_write (with_outbound (bumpOutbound conversationID 1 class targets)
        (<[deliveryID := (conversationID, class)]> events))
  | Some (existingConversation, existingClass) =>
      st_reject (negb (bool_decide (existingConversation = conversationID)))
        (TgFailed "terminal outbound delivery identity conflict");;
      if bool_decide (existingClass = class) then mret tt
      else
        let events := <[deliveryID := (conversationID, class)]> events in
        match targets !! conversationID with
        | None => st_fail TgDatabase
        | Some (failures, targetClass) =>
            st_write (with_outbound
              (<[conversationID := (failures, reconciledClass conversationID failures targetClass events)]> targets)
              events)
        end
  end.

Definition FinalizeTerminalOutbound (deliveryID : string) : T unit :=
  st_reject (blank deliveryID) (TgFailed "invalid terminal outbound delivery");;
  st_write (fun d => with_outbound (tg_outbound_targets d) (delete deliveryID (tg_outbound_events d)) d).

Definition RecoverTerminalOutbound (conversationID : string) : T unit :=
  st_reject (blank conversationID) (TgFailed "invalid terminal outbound recovery");;
  st_write (fun d => with_outbound (forgetTarget conversationID (tg_outbound_targets d))
    (forgetEvents conversationID (tg_outbound_events d)) d).

(** ** A cycle *)

Record GatewayTargetEvent := {
  ev_ConversationID : string;
  ev_Terminal : bool;
  ev_Staged : bool;
  ev_Failure : GatewayFailureClass;
}.

Record GatewayCycleRecord := {
  cr_At : Z;
  cr_Offset : Z;
  cr_PollOK : bool;
  cr_RelayOK : bool;
  cr_TelegramOK : bool;
  cr_OutboundBlocked : bool;
  cr_OutboundProgress : bool;
  cr_TerminalInbound : Z;
  cr_TerminalOutbound : Z;
  cr_InboundTargetEvents : list GatewayTargetEvent;
  cr_OutboundTargetEvents : list GatewayTargetEvent;
  cr_Failure : GatewayFailureClass;
}.

Definition noFailure (class : GatewayFailureClass) : bool := bool_decide (class = GatewayFailureNone).

Definition invalidEvent (failures : list GatewayFailureClass) (event : GatewayTargetEvent) : bool :=
  blank (ev_ConversationID event) || ev_Staged event && negb (ev_Terminal event) ||
  ev_Terminal event && negb (bool_decide (ev_Failure event ∈ failures)).

Definition terminalEvents (events : list GatewayTargetEvent) : Z :=
  Z.of_nat (length (filter (fun e => ev_Terminal e = true) events)).

Definition invalidCycle (record : GatewayCycleRecord) : bool :=
  Time.IsZero (cr_At record) || (cr_Offset record <? 0) ||
  cr_OutboundProgress record && negb (cr_OutboundBlocked record) ||
  (cr_TerminalInbound record <? 0) || (cr_TerminalOutbound record <? 0) ||
  noFailure (cr_Failure record) && ((0 <? cr_TerminalInbound record) || (0 <? cr_TerminalOutbound record)) ||
  existsb (invalidEvent [GatewayFailureNone; GatewayFailureInboundRelayPermanent]) (cr_InboundTargetEvents record) ||
  existsb (invalidEvent [GatewayFailureNone; GatewayFailureOutboundTelegramPermanent; GatewayFailureDeletedTopic])
    (cr_OutboundTargetEvents record).

Definition inboundDelta (record : GatewayCycleRecord) : Z :=
  if (cr_TerminalInbound record =? 0) && bool_decide (cr_Failure record = GatewayFailureInboundRelayPermanent)
  then 1 else cr_TerminalInbound record.
Definition outboundDelta (record : GatewayCycleRecord) : Z :=
  if (cr_TerminalOutbound record =? 0) && permanentClass (cr_Failure record) then 1 else cr_TerminalOutbound record.

Definition outboundClass (class : GatewayFailureClass) : GatewayFailureClass :=
  if bool_decide (class = GatewayFailureDeletedTopic) then class else GatewayFailureOutboundTelegramPermanent.

(** One event of a direction; [Terminal] and [Staged] is counted already. *)
Definition recordInbound (targets : gmap string Z) (event : GatewayTargetEvent) : gmap string Z :=
  if ev_Terminal event then
    if ev_Staged event then targets else bumpInbound (ev_ConversationID event) 1 targets
  else forgetTarget (ev_ConversationID event) targets.

Definition recordOutbound (failure : GatewayFailureClass)
    (ledgers : gmap string (Z * GatewayFailureClass) * gmap string (string * GatewayFailureClass))
    (event : GatewayTargetEvent)
    : gmap string (Z * GatewayFailureClass) * gmap string (string * GatewayFailureClass) :=
  let '(targets, events) := ledgers in
  if ev_Terminal event then
    if ev_Staged event then (targets, events)
    else
      let class := if noFailure (ev_Failure event) then failure else ev_Failure event in
      (bumpOutbound (ev_ConversationID event) 1 (outboundClass class) targets, events)
  else (forgetTarget (ev_ConversationID event) targets, forgetEvents (ev_ConversationID event) events).

Definition inboundTotal (targets : gmap string Z) : Z := msum (fun _ n => n) targets.
Definition outboundTotal (targets : gmap string (Z * GatewayFailureClass)) : Z := msum (fun _ t => t.1) targets.
Definition deletedTopics (targets : gmap string (Z * GatewayFailureClass)) : Z :=
  mcount (fun _ t => bool_decide (t.2 = GatewayFailureDeletedTopic)) targets.

Definition effectiveFailure (failure : GatewayFailureClass) (inbound : gmap string Z)
    (outbound : gmap string (Z * GatewayFailureClass)) : GatewayFailureClass :=
  if noFailure failure && ((0 <? inboundTotal inbound) || (0 <? outboundTotal outbound)) then
    if 0 <? deletedTopics outbound then GatewayFailureDeletedTopic
    else if 0 <? outboundTotal outbound then GatewayFailureOutboundTelegramPermanent
    else GatewayFailureInboundRelayPermanent
  else failure.

(** The row of the next cycle. *)
Definition nextHealth (record : GatewayCycleRecord) (inbound : gmap string Z)
    (outbound : gmap string (Z * GatewayFailureClass)) (previous : option HealthRow) : HealthRow :=
  let now := Time.UnixMilli (cr_At record) in
  let effective := effectiveFailure (cr_Failure record) inbound outbound in
  let when (b : bool) (old : HealthRow -> option Z) : option Z := if b then Some now else previous ≫= old in
  let wasBlocked := match previous with Some p => gh_outbound_blocked p | None => false end in
  let blocked := cr_OutboundBlocked record ||
    wasBlocked && negb (noFailure (cr_Failure record)) && negb (cr_OutboundProgress record) in
  {| gh_last_cycle_at := now;
     gh_last_success_at := when (noFailure (cr_Failure record)) gh_last_success_at;
     gh_last_poll_at := when (cr_PollOK record) gh_last_poll_at;
     gh_last_relay_at := when (cr_RelayOK record) gh_last_relay_at;
     gh_last_telegram_at := when (cr_TelegramOK record) gh_last_telegram_at;
     gh_last_progress_at := match previous with
       | Some p => if gh_offset p =? cr_Offset record then gh_last_progress_at p else now
       | None => now
       end;
     gh_last_outbound_progress_at := Some match previous with
       | Some p => if blocked && negb (cr_OutboundProgress record) && wasBlocked
                   then default (gh_last_progress_at p) (gh_last_outbound_progress_at p) else now
       | None => now
       end;
     gh_offset := cr_Offset record;
     gh_outbound_blocked := blocked;
     gh_consecutive_failures :=
       let consecutive := match previous with Some p => gh_consecutive_failures p | None => 0 end in
       if negb (noFailure (cr_Failure record)) then consecutive + 1
       else if negb (noFailure effective) then consecutive else 0;
     gh_last_failure := effective;
     gh_terminal_inbound := inboundTotal inbound;
     gh_terminal_outbound := outboundTotal outbound |}.

Definition RecordGatewayCycle (record : GatewayCycleRecord) : T unit :=
  st_reject (invalidCycle record) (TgFailed "invalid gateway cycle record");;
  let unmatchedIn := inboundDelta record - terminalEvents (cr_InboundTargetEvents record) in
  let unmatchedOut := outboundDelta record - terminalEvents (cr_OutboundTargetEvents record) in
  st_reject ((unmatchedIn <? 0) || (unmatchedOut <? 0)) (TgFailed "invalid gateway cycle record");;
  st_write (fun d =>
    let inbound := if 0 <? unmatchedIn then bumpInbound gatewayLegacyTarget unmatchedIn (tg_inbound_targets d)
                   else tg_inbound_targets d in
    let inbound := foldl recordInbound inbound (cr_InboundTargetEvents record) in
    let outbound := if 0 <? unmatchedOut
      then bumpOutbound gatewayLegacyTarget unmatchedOut (outboundClass (cr_Failure record)) (tg_outbound_targets d)
      else tg_outbound_targets d in
    let '(outbound, events) :=
      foldl (recordOutbound (cr_Failure record)) (outbound, tg_outbound_events d) (cr_OutboundTargetEvents record) in
    set_ledgers (Some (nextHealth record inbound outbound (tg_health d))) inbound outbound events d).

(** ** Opening *)

(** INSERT ... VALUES(?, 1) ON CONFLICT DO NOTHING for every route. *)
Definition spread {A} (one : A) (routes : list string) (targets : gmap string A) : gmap string A :=
  foldl (fun m c => if has m c then m else <[c := one]> m) targets routes.

Definition ensureGatewayTerminalTargetLedgers : T unit :=
  d ← st_read (fun d => d);
  match tg_health d with
  | None => mret tt
  | Some health =>
      let routes := sortBy (fun a b => negb (stringLt b a)) ((map_to_list (tg_routes d)).*2) in
      let inbound := match routes, tg_inbound_targets d !! gatewayLegacyTarget with
        | _ :: _, Some legacy =>
            if 0 <? legacy then spread 1 routes (delete gatewayLegacyTarget (tg_inbound_targets d))
            else tg_inbound_targets d
        | _, _ => tg_inbound_targets d
        end in
      let outbound := match routes, tg_outbound_targets d !! gatewayLegacyTarget with
        | _ :: _, Some (legacy, class) =>
            if 0 <? legacy
            then spread (1, outboundClass class) routes (delete gatewayLegacyTarget (tg_outbound_targets d))
            else tg_outbound_targets d
        | _, _ => tg_outbound_targets d
        end in
      let inbound := if (0 <? gh_terminal_inbound health) && (inboundTotal inbound =? 0) then
          match routes with
          | [] => <[gatewayLegacyTarget := gh_terminal_inbound health]> inbound
          | _ => spread 1 routes inbound
          end
        else inbound in
      let outbound := if (0 <? gh_terminal_outbound health) && (outboundTotal outbound =? 0) then
          let class := outboundClass (gh_last_failure health) in
          match routes with
          | [] => <[gatewayLegacyTarget := (gh_terminal_outbound health, class)]> outbound
          | _ => spread (1, class) routes outbound
          end
        else outbound in
      st_write (set_ledgers (Some {|
        gh_last_cycle_at := gh_last_cycle_at health; gh_last_success_at := gh_last_success_at health;
        gh_last_poll_at := gh_last_poll_at health; gh_last_relay_at := gh_last_relay_at health;
        gh_last_telegram_at := gh_last_telegram_at health; gh_last_progress_at := gh_last_progress_at health;
        gh_last_outbound_progress_at := gh_last_outbound_progress_at health; gh_offset := gh_offset health;
        gh_outbound_blocked := gh_outbound_blocked health;
        gh_consecutive_failures := gh_consecutive_failures health; gh_last_failure := gh_last_failure health;
        gh_terminal_inbound := inboundTotal inbound; gh_terminal_outbound := outboundTotal outbound |})
        inbound outbound (tg_outbound_events d))
  end.

(** ** The doctor's view *)

Record GatewayStateSnapshot := {
  sn_Integrity : bool;
  sn_RoutesConsistent : bool;
  sn_HasHealth : bool;
  sn_HasSuccess : bool;
  sn_HasPoll : bool;
  sn_HasRelay : bool;
  sn_HasTelegram : bool;
  sn_RouteCount : Z;
  sn_IncompleteClaims : Z;
  sn_LastCycleAge : Z;
  sn_LastSuccessAge : Z;
  sn_LastPollAge : Z;
  sn_LastRelayAge : Z;
  sn_LastTelegramAge : Z;
  sn_ConsecutiveFailures : Z;
  sn_LastFailure : GatewayFailureClass;
  sn_TerminalInbound : Z;
  sn_TerminalOutbound : Z;
  sn_DeletedTopicTargets : Z;
  sn_StuckHead : bool;
}.

(** A claim that is routed according to its phase but not according to its row. *)
Definition inconsistentClaim (d : TgDb) (conversationID : string) (c : ClaimRow) : bool :=
  (inPhase ClaimPhaseRoutePersisted c || inPhase ClaimPhaseComplete c) &&
  match routeOf (tg_routes d) conversationID with
  | None => true
  | Some (chat, thread) =>
      unthreaded c || negb (bool_decide (ce_thread_id c = Some thread)) ||
      match ce_chat_id c with Some chatID => negb (chat =? chatID) | None => false end
  end.

Definition invalidTargetClass (class : GatewayFailureClass) : bool := negb (permanentClass class).

Definition ageOf (now : Z) (value : option Z) : Z :=
  match value with Some v => Time.Sub now (Time.fromMillis v) | None => 0 end.

(** [integrity] is the answer of PRAGMA quick_check. *)
Definition InspectGatewayState (integrity : bool) (now : Z) (d : TgDb) : option GatewayStateSnapshot :=
  let inconsistent := mcount (inconsistentClaim d) (tg_claims d) in
  let base health := {|
    sn_Integrity := integrity; sn_RoutesConsistent := inconsistent =? 0;
    sn_HasHealth := negb (isNull health);
    sn_HasSuccess := negb (isNull (health ≫= gh_last_success_at));
    sn_HasPoll := negb (isNull (health ≫= gh_last_poll_at));
    sn_HasRelay := negb (isNull (health ≫= gh_last_relay_at));
    sn_HasTelegram := negb (isNull (health ≫= gh_last_telegram_at));
    sn_RouteCount := Z.of_nat (size (tg_routes d));
    sn_IncompleteClaims := mcount (fun _ c => incomplete (ce_phase c)) (tg_claims d);
    sn_LastCycleAge := ageOf now (gh_last_cycle_at <$> health);
    sn_LastSuccessAge := ageOf now (health ≫= gh_last_success_at);
    sn_LastPollAge := ageOf now (health ≫= gh_last_poll_at);
    sn_LastRelayAge := ageOf now (health ≫= gh_last_relay_at);
    sn_LastTelegramAge := ageOf now (health ≫= gh_last_telegram_at);
    sn_ConsecutiveFailures := match health with Some h => gh_consecutive_failures h | None => 0 end;
    sn_LastFailure := match health with Some h => gh_last_failure h | None => GatewayFailureNone end;
    sn_TerminalInbound := inboundTotal (tg_inbound_targets d);
    sn_TerminalOutbound := outboundTotal (tg_outbound_targets d);
    sn_DeletedTopicTargets := deletedTopics (tg_outbound_targets d);
    sn_StuckHead := match health with
      | Some h =>
          let stuck := if gh_outbound_blocked h then gh_last_outbound_progress_at h
                       else Some (gh_last_progress_at h) in
          (3 <=? gh_consecutive_failures h) && negb (isNull stuck) && (5 * Time.Minute <=? ageOf now stuck)
      | None => false
      end |} in
  if Time.IsZero now || mexists (fun _ t => invalidTargetClass t.2) (tg_outbound_targets d) then None
  else match tg_health d with
  | None => Some (base None)
  | Some h =>
      let future v := match v with Some v => Time.After (Time.fromMillis v) now | None => false end in
      if existsb future [Some (gh_last_cycle_at h); gh_last_success_at h; gh_last_poll_at h; gh_last_relay_at h;
           gh_last_telegram_at h; Some (gh_last_progress_at h); gh_last_outbound_progress_at h]
      then None else Some (base (Some h))
  end.
