(* ===== verification/TelegramClaims.v ===== *)
(** * Claiming Telegram topics ([src/internal/telegram/claim.go])

    The gateway's programs are trees of calls: to its own state, to the relay
    and to Telegram.  A call to the state is one transaction; every reply is
    possible for a call to the outside.  [CreateForumTopic] carries, besides its
    arguments, the conversation it is made for. *)

From S2P Require Import Prelude Programs GoTime Text Tables Source Messages Deliveries Claims TelegramState TelegramHealth.
Open Scope Z_scope.

(** ** Programs *)

(** A claim as the relay's client returns it. *)
Record RelayClaim := { rc_ConversationID : string; rc_Status : string; rc_DisplayName : string }.

Record Update := {
  up_ID : Z;
  up_UserID : Z;
  up_ChatID : Z;
  up_ThreadID : Z;
  up_MessageID : Z;
  up_Text : string;
  up_CallbackID : string;
  up_CallbackData : string;
  up_ReplyToID : Z;
  up_IsCommand : bool;
  up_Command : string;
}.

(** The arguments of [SendTelegramInbound]. *)
Record InboundMessage := {
  im_ConversationID : string;
  im_FromEndpoint : string;
  im_FromParticipant : string;
  im_Body : string;
  im_InReplyToMessageID : string;
  im_InReplyToEndpoint : string;
  im_TelegramThreadID : Z;
  im_IdempotencyKey : string;
}.

Record InlineKeyboardButton := { kb_Text : string; kb_CallbackData : string }.

Inductive Call : Type -> Type :=
  | Database {A} (op : T A) : Call (TgErr + A)
  | ClaimConversation (conversationID endpoint idempotencyKey : string) : Call (TgErr + RelayClaim)
  | CompleteTelegramClaim (conversationID : string) : Call (TgErr + unit)
  | PendingTelegramClaims (limit : Z) (after : string) : Call (TgErr + list RelayClaim)
  | CreateForumTopic (conversationID : string) (chatID : Z) (name : string) : Call (TgErr + Z)
  | Advertise (endpoints : list string) : Call (TgErr + unit)
  | Lease (endpoint : string) : Call (TgErr + list Delivery)
  | Ack (delivery : Delivery) : Call (TgErr + unit)
  | SendTelegramInbound (message : InboundMessage) : Call (TgErr + unit)
  | ListUnclaimed : Call (TgErr + list UnclaimedTopic)
  | Updates (offset : Z) : Call (TgErr + list Update)
  | SendMessage (chatID : Z) (text : string) (keyboard : list (list InlineKeyboardButton)) : Call (TgErr + unit)
  | AnswerCallbackQuery (callbackID text : string) : Call (TgErr + unit)
  | SendRichMessage (chatID threadID : Z) (html : list Z) : Call (TgErr + Z)
  | Clock : Call Z
  | RandomBytes : Call (option (list Z)).

Abbreviation Prog := (Program Call).

Definition failing {A} (text : string) : Prog (TgErr + A) := failWith (TgFailed text).
Definition check (b : bool) (text : string) : Prog (TgErr + unit) := if b then failing text else ok tt.
Definition db {A} (op : T A) : Prog (TgErr + A) := call (Database op).

(** ** The executor *)

Record ClaimExecutor := { cl_Topics : bool; cl_AllowedUserID : Z }.

Definition GatewayClaimKey (conversationID : string) : string := "gateway-claim-" +:+ conversationID.
Definition AdoptClaimKey (conversationID : string) : string := "adopt-" +:+ conversationID.

Definition with_claim_phase (phase : ClaimPhase) (e : ClaimExecution) : ClaimExecution := {|
  cx_ConversationID := cx_ConversationID e; cx_ThreadID := cx_ThreadID e; cx_ChatID := cx_ChatID e;
  cx_Phase := phase; cx_DisplayName := cx_DisplayName e; cx_SkipReserve := cx_SkipReserve e |}.
Definition with_claim_topic (chatID threadID : Z) (e : ClaimExecution) : ClaimExecution := {|
  cx_ConversationID := cx_ConversationID e; cx_ThreadID := threadID; cx_ChatID := chatID;
  cx_Phase := ClaimPhaseTopicCreated; cx_DisplayName := cx_DisplayName e; cx_SkipReserve := cx_SkipReserve e |}.
Definition with_claim_name (name : string) (e : ClaimExecution) : ClaimExecution := {|
  cx_ConversationID := cx_ConversationID e; cx_ThreadID := cx_ThreadID e; cx_ChatID := cx_ChatID e;
  cx_Phase := cx_Phase e; cx_DisplayName := name; cx_SkipReserve := cx_SkipReserve e |}.

(** 4xx: Telegram rejected the request before it created anything. *)
Definition definitivePreCreationRejection (e : TgErr) : bool :=
  match e with TgBot _ status _ => (400 <=? status) && (status <? 500) | _ => false end.

Section Executor.
Context (cl : ClaimExecutor).
Abbreviation allowed := (cl_AllowedUserID cl).

(** [e.AllowedUserID != 0 && chatID != e.AllowedUserID] *)
Definition foreignChat (chatID : Z) : bool := negb (allowed =? 0) && negb (chatID =? allowed).

Definition localClaimRouteRecoverable (execution : ClaimExecution) : Prog (TgErr + bool) :=
  if 0 <? cx_ThreadID execution then ok true
  else
    route ⇐ db (RouteForConversation (cx_ConversationID execution));
    match route with
    | Some (chatID, threadID) => ok (negb (threadID <=? 0) && negb (foreignChat chatID))
    | None => ok false
    end.

Definition ensurePending (execution : ClaimExecution) : Prog (TgErr + ClaimExecution) :=
  if cx_SkipReserve execution then ok execution
  else
    let conversationID := cx_ConversationID execution in
    reply ← call (ClaimConversation conversationID TelegramGatewayEndpoint (GatewayClaimKey conversationID));
    match reply with
    | inl _ => failing "telegram_reserve_failed"
    | inr claim =>
        (if bool_decide (rc_Status claim = "pending") then ok tt
         else if bool_decide (rc_Status claim = "complete") then
           recoverable ⇐ localClaimRouteRecoverable execution;
           check (negb recoverable) "telegram_claim_already_complete"
         else failing "telegram_reserve_failed") ⨟
        if bool_decide (rc_DisplayName claim = "") then ok execution
        else
          db (PersistClaimDisplayName conversationID (rc_DisplayName claim)) ⨟
          ok (with_claim_name (rc_DisplayName claim) execution)
    end.

Definition ensureAdoptReserved (execution : ClaimExecution) : Prog (TgErr + ClaimExecution) :=
  let conversationID := cx_ConversationID execution in
  reply ← call (ClaimConversation conversationID TelegramGatewayEndpoint (AdoptClaimKey conversationID));
  match reply with
  | inl _ => failing "telegram_reserve_failed"
  | inr claim =>
      check (blank (rc_DisplayName claim)) "telegram adopt requires a display name" ⨟
      db (PersistClaimDisplayName conversationID (rc_DisplayName claim)) ⨟
      let execution := with_claim_name (rc_DisplayName claim) execution in
      if bool_decide (rc_Status claim = "pending") then
        db (PersistClaimAdoptReserved conversationID) ⨟ ok (with_claim_phase ClaimPhaseRoutePersisted execution)
      else if bool_decide (rc_Status claim = "complete") then
        db (MarkClaimComplete conversationID) ⨟ ok (with_claim_phase ClaimPhaseComplete execution)
      else failing "telegram_reserve_failed"
  end.

Definition rejectMismatchedRoute (conversationID : string) : Prog (TgErr + unit) :=
  route ⇐ db (RouteForConversation conversationID);
  match route with
  | Some (chatID, threadID) =>
      check ((threadID <=? 0) || (allowed =? 0) || negb (chatID =? allowed)) "telegram_route_persist_failed"
  | None => failing "telegram_route_persist_failed"
  end.

(** The topic a route binds already, if any. *)
Definition takeRoute (execution : ClaimExecution) : Prog (TgErr + option ClaimExecution) :=
  let conversationID := cx_ConversationID execution in
  route ⇐ db (RouteForConversation conversationID);
  match route with
  | Some (chatID, threadID) =>
      if 0 <? threadID then
        check (foreignChat chatID) "telegram_route_persist_failed" ⨟
        db (PersistClaimThread conversationID chatID threadID) ⨟
        ok (Some (with_claim_topic chatID threadID execution))
      else ok None
  | None => ok None
  end.

(** Fence, create, and record the topic. *)
Definition createTopic (execution : ClaimExecution) : Prog (TgErr + ClaimExecution) :=
  let conversationID := cx_ConversationID execution in
  check (negb (cl_Topics cl) || (allowed =? 0)) "telegram_create_forum_topic_failed" ⨟
  match SanitizeConversationDisplayName (cx_DisplayName execution) with
  | None | Some "" => failing "telegram_sanitize_failed"
  | Some name =>
      begun ← db (BeginClaimCreating conversationID allowed);
      match begun with
      | inl e =>
          if bool_decide (e = TgFailed "telegram_route_persist_failed") then failWith e
          else failing "telegram_create_forum_topic_failed"
      | inr (Some (chatID, threadID)) =>
          check (foreignChat chatID) "telegram_route_persist_failed" ⨟ ok (with_claim_topic chatID threadID execution)
      | inr None =>
          reply ← call (CreateForumTopic conversationID allowed name);
          let created := match reply with inr threadID => if 0 <? threadID then Some threadID else None | inl _ => None end in
          match created with
          | Some threadID =>
              db (PersistClaimThread conversationID allowed threadID) ⨟
              ok (with_claim_topic allowed threadID execution)
          | None =>
              if match reply with inl e => definitivePreCreationRejection e | inr _ => false end then
                cleared ← db (ClearClaimCreating conversationID); failing "telegram_create_forum_topic_failed"
              else failing "telegram_create_forum_topic_failed"
          end
      end
  end.

(** The branch for a reserved execution. *)
Definition executeReserved (execution : ClaimExecution) : Prog (TgErr + ClaimExecution) :=
  execution ⇐ ensurePending execution;
  if 0 <? cx_ThreadID execution then ok (with_claim_phase ClaimPhaseTopicCreated execution)
  else
    routed ⇐ takeRoute execution;
    match routed with
    | Some execution => ok execution
    | None => createTopic execution
    end.

(** The branch for an execution that was interrupted while creating. *)
Definition executeCreating (execution : ClaimExecution) : Prog (TgErr + ClaimExecution) :=
  if 0 <? cx_ThreadID execution then ok (with_claim_phase ClaimPhaseTopicCreated execution)
  else
    routed ⇐ takeRoute execution;
    match routed with
    | Some execution => ok execution
    | None => failing "telegram_create_forum_topic_failed"
    end.

Definition executeTopicCreated (execution : ClaimExecution) : Prog (TgErr + ClaimExecution) :=
  check ((allowed =? 0) || (cx_ThreadID execution <=? 0) || (cx_ChatID execution =? 0) ||
         negb (cx_ChatID execution =? allowed)) "telegram_route_persist_failed" ⨟
  db (PersistClaimRoute (cx_ChatID execution) (cx_ThreadID execution) (cx_ConversationID execution)) ⨟
  ok (with_claim_phase ClaimPhaseRoutePersisted execution).

Definition executeRoutePersisted (execution : ClaimExecution) : Prog (TgErr + unit) :=
  completed ← call (CompleteTelegramClaim (cx_ConversationID execution));
  match completed with
  | inl _ => failing "telegram_complete_failed"
  | inr _ => db (MarkClaimComplete (cx_ConversationID execution))
  end.

(** Run a branch when the execution is in its phase. *)
Definition whenPhase (phase : ClaimPhase) (branch : ClaimExecution -> Prog (TgErr + ClaimExecution))
    (execution : ClaimExecution) : Prog (TgErr + ClaimExecution) :=
  if bool_decide (cx_Phase execution = phase) then branch execution else ok execution.

(** The method [Execute]. *)
Definition ExecuteClaim (conversationID : string) : Prog (TgErr + unit) :=
  check (blank conversationID) "telegram claim executor is not configured" ⨟
  found ⇐ db (ReadClaimExecution conversationID);
  match found with
  | None => failing "telegram claim execution is missing"
  | Some execution =>
      if bool_decide (cx_Phase execution = ClaimPhaseComplete) then rejectMismatchedRoute conversationID
      else
        execution ⇐ whenPhase ClaimPhaseAdopting ensureAdoptReserved execution;
        execution ⇐ whenPhase ClaimPhaseReserved executeReserved execution;
        execution ⇐ whenPhase ClaimPhaseCreating executeCreating execution;
        execution ⇐ whenPhase ClaimPhaseTopicCreated executeTopicCreated execution;
        if bool_decide (cx_Phase execution = ClaimPhaseRoutePersisted) then executeRoutePersisted execution
        else ok tt
  end.

(** ** Polling *)

Definition pendingClaimPollLimit : Z := 10.

(** The cursor after a page: back to the start when the page was not full. *)
Definition nextCursor (executions : list ClaimExecution) (after : string) : string :=
  if Z.of_nat (length executions) <? pendingClaimPollLimit then ""
  else match last executions with Some e => cx_ConversationID e | None => after end.

Fixpoint rejectMismatches (executions : list ClaimExecution) : Prog (TgErr + unit) :=
  match executions with
  | [] => ok tt
  | execution :: executions => rejectMismatchedRoute (cx_ConversationID execution) ⨟ rejectMismatches executions
  end.

Definition rejectCompletedRouteMismatches : Prog (TgErr + unit) :=
  after ⇐ db completedRouteCursor;
  executions ⇐ db (CompletedClaimExecutionsAfter after pendingClaimPollLimit);
  rejectMismatches executions ⨟
  db (setCompletedRouteCursor (nextCursor executions after)).

(** Their failures stay with the executions. *)
Fixpoint executeAll (executions : list ClaimExecution) : Prog unit :=
  match executions with
  | [] => mret tt
  | execution :: executions => ExecuteClaim (cx_ConversationID execution);; executeAll executions
  end.

Definition ResumeAll : Prog (TgErr + unit) :=
  rejectCompletedRouteMismatches ⨟
  after ⇐ db resumeClaimCursor;
  executions ⇐ db (IncompleteClaimExecutionsAfter after pendingClaimPollLimit);
  executeAll executions;;
  db (setResumeClaimCursor (nextCursor executions after)).

(** The claims of a page; [Some] when the scan reached its limit. *)
Fixpoint startClaims (scanned : Z) (claims : list RelayClaim) : Prog (TgErr + option string) :=
  match claims with
  | [] => ok None
  | claim :: claims =>
      let conversationID := rc_ConversationID claim in
      found ⇐ db (ReadClaimExecution conversationID);
      match found with
      | Some _ => ok tt
      | None =>
          inserted ⇐ db (InsertPendingExecution conversationID (rc_DisplayName claim));
          if inserted : bool then ExecuteClaim conversationID;; ok tt else ok tt
      end ⨟
      if pendingClaimPollLimit <=? scanned + 1 then ok (Some conversationID) else startClaims (scanned + 1) claims
  end.

(** The loop of [StartPending]; a page is either short, or reaches the limit, so
    its body always returns. *)
Definition StartPending : Prog (TgErr + unit) :=
  after ⇐ db pendingClaimCursor;
  claims ⇐ call (PendingTelegramClaims pendingClaimPollLimit after);
  if bool_decide (claims = []) then db (setPendingClaimCursor "")
  else
    reached ⇐ startClaims 0 claims;
    db (setPendingClaimCursor (default "" reached)).
End Executor.

(** ** Adopting *)

Definition Adopt (conversationID : string) (allowedUserID : Z) : Prog (TgErr + unit) :=
  check (blank conversationID) "telegram adopt is not configured" ⨟
  route ⇐ db (RouteForConversation conversationID);
  match route with
  | None => failing "telegram adopt requires an existing topic route"
  | Some (chatID, threadID) =>
      check (threadID <=? 0) "telegram adopt requires an existing topic route" ⨟
      check ((allowedUserID =? 0) || negb (chatID =? allowedUserID))
        "telegram adopt requires the configured telegram chat" ⨟
      _ ⇐ db (AdoptExistingRoute conversationID allowedUserID);
      reply ← call (ClaimConversation conversationID TelegramGatewayEndpoint (AdoptClaimKey conversationID));
      match reply with
      | inl _ => failing "telegram_reserve_failed"
      | inr claim =>
          check (blank (rc_DisplayName claim)) "telegram adopt requires a display name" ⨟
          db (PersistClaimDisplayName conversationID (rc_DisplayName claim)) ⨟
          existing ⇐ db (ReadClaimExecution conversationID);
          let complete := bool_decide (rc_Status claim = "complete") in
          if match existing with Some e => bool_decide (cx_Phase e = ClaimPhaseComplete) | None => false end && complete
          then ok tt
          else if complete then db (MarkClaimComplete conversationID)
          else
            db (PersistClaimAdoptReserved conversationID) ⨟
            completed ← call (CompleteTelegramClaim conversationID);
            match completed with
            | inl _ => failing "telegram_complete_failed"
            | inr _ => db (MarkClaimComplete conversationID)
            end
      end
  end.
