(* ===== verification/TelegramBridge.v ===== *)
(** * The Telegram gateway ([gateway.go], [outbound.go], [relay_submit.go],
      [runner.go], [bridge.go] of [src/internal/telegram], and the loop of
      [src/cmd/punaro-telegram/main.go])

    Updates of the allowed user go to the relay, deliveries of the relay go to
    the topic of their conversation, and each cycle leaves a health record. *)

From stdpp Require Import pretty.
From S2P Require Import Prelude Programs GoTime Text Tables Source Messages Deliveries Claims.
From S2P Require Import TelegramState TelegramHealth TelegramClaims.
Open Scope Z_scope.

Record Gateway := {
  gw_AllowedUserID : Z;
  gw_Endpoint : string;
  gw_ListUnclaimed : bool;
  gw_Notify : bool;
  gw_Claims : option ClaimExecutor;
}.

(** What the handling of an update tells the cycle. *)
Inductive InboundEvent := Dropped (conversationID : string) (e : TgErr) | Recovered (conversationID : string).

Definition startHelpText : string :=
  "This bot lets you claim a Punaro topic. Send /list to see unclaimed topics, then tap one to claim it.".
Definition listEmptyText : string := "There are no unclaimed Punaro topics right now.".
Definition listPromptText : string := "Tap a topic to claim it.".
Definition listAmbiguousText : string := "Could not list unclaimed topics. Try again later.".
Definition callbackFailureText : string := "Unable to complete this action.".
Definition callbackAcceptedText : string := "Claim accepted.".
Definition maxButtonTextRunes : nat := 64.

(** [string(r)] of a rune of a [range] loop: an invalid byte has become U+FFFD. *)
Definition runeBytes (r : Utf8.Rune) : list Z := if Utf8.valid r then Utf8.encoding r else [0xEF; 0xBF; 0xBD].

Definition truncateRunes (value : string) (limit : nat) : string :=
  let runes := Utf8.decode (bytesOf value) in
  if (limit <? 1)%nat || (length runes <=? limit)%nat then value
  else ofBytes (mjoin (runeBytes <$> take limit runes)).

(** The error of the relay is final. *)
Definition isPermanentRelayFailure (e : TgErr) : bool := match e with TgRelay permanent => permanent | _ => false end.

(** [strconv.FormatInt] *)
Definition decimal (z : Z) : string := pretty z.

(** ** Submitting text *)

Record Submission := {
  su_UpdateID : Z;
  su_ConversationID : string;
  su_Text : string;
  su_ChatID : Z;
  su_ThreadID : Z;
  su_ReplyToID : Z;
}.

(** The closure [SubmitToRelay] makes. *)
Definition SubmitToRelay (endpoint : string) (submission : Submission) : Prog (TgErr + unit) :=
  check (blank endpoint || (su_UpdateID submission <? 1) || blank (su_ConversationID submission) ||
    blank (su_Text submission)) "invalid Telegram relay submission" ⨟
  reply ⇐ (if 0 <? su_ReplyToID submission then
    ref ⇐ db (LookupOutbound (su_ChatID submission) (su_ReplyToID submission));
    match ref with
    | None => ok ("", "")
    | Some ref =>
        if negb (bool_decide (rf_ConversationID ref = su_ConversationID submission)) ||
           (0 <? su_ThreadID submission) && (su_ReplyToID submission =? su_ThreadID submission)
        then ok ("", "") else ok (rf_PunaroMessageID ref, rf_FromEndpoint ref)
    end
  else ok ("", ""));
  call (SendTelegramInbound {|
    im_ConversationID := su_ConversationID submission; im_FromEndpoint := endpoint;
    im_FromParticipant := TelegramUserParticipant; im_Body := su_Text submission;
    im_InReplyToMessageID := reply.1; im_InReplyToEndpoint := reply.2;
    im_TelegramThreadID := su_ThreadID submission;
    im_IdempotencyKey := "telegram-update:" +:+ decimal (su_UpdateID submission) |}).

(** ** Handling an update *)

Section Handle.
Context (g : Gateway).

Definition markInert (updateID : Z) : Prog (TgErr + option InboundEvent) := db (MarkProcessed updateID) ⨟ ok None.

Definition answerCallback (callbackID text : string) : Prog unit :=
  if negb (gw_Notify g) || bool_decide (callbackID = "") then mret tt
  else call (AnswerCallbackQuery callbackID text);; mret tt.

Definition handleCallback (update : Update) : Prog (TgErr + option InboundEvent) :=
  if negb (up_UserID update =? gw_AllowedUserID g) || negb (up_ChatID update =? gw_AllowedUserID g) then
    answerCallback (up_CallbackID update) callbackFailureText;; markInert (up_ID update)
  else
    now ← call Clock;
    reserved ⇐ db (ReserveClaimAndConsumeToken (up_CallbackData update) now);
    match reserved with
    | None => answerCallback (up_CallbackID update) callbackFailureText;; markInert (up_ID update)
    | Some conversationID =>
        answerCallback (up_CallbackID update) callbackAcceptedText;;
        db (MarkProcessed (up_ID update)) ⨟
        match gw_Claims g with
        | Some claims => ExecuteClaim claims conversationID;; ok None
        | None => ok None
        end
    end.

Definition sendOperator (text : string) (keyboard : list (list InlineKeyboardButton)) : Prog (TgErr + unit) :=
  check (negb (gw_Notify g)) "telegram gateway is not configured" ⨟
  call (SendMessage (gw_AllowedUserID g) text keyboard).

(** Two topics with one label. *)
Fixpoint ambiguousLabels (labels : gmap string string) (topics : list UnclaimedTopic) : bool :=
  match topics with
  | [] => false
  | topic :: topics =>
      let label := truncateRunes (u_DisplayName topic) maxButtonTextRunes in
      if match labels !! label with Some other => negb (bool_decide (other = u_ID topic)) | None => false end then true
      else ambiguousLabels (<[label := u_ID topic]> labels) topics
  end.

Fixpoint issueButtons (now : Z) (topics : list UnclaimedTopic) : Prog (TgErr + list (list InlineKeyboardButton)) :=
  match topics with
  | [] => ok []
  | topic :: topics =>
      raw ← call RandomBytes;
      token ⇐ db (IssueCallbackToken raw (u_ID topic) now);
      rest ⇐ issueButtons now topics;
      ok ([{| kb_Text := truncateRunes (u_DisplayName topic) maxButtonTextRunes; kb_CallbackData := token |}] :: rest)
  end.

Definition handleList : Prog (TgErr + unit) :=
  check (negb (gw_ListUnclaimed g) || negb (gw_Notify g)) "telegram gateway is not configured" ⨟
  topics ⇐ call ListUnclaimed;
  if bool_decide (length topics = 0%nat) then sendOperator listEmptyText []
  else if ambiguousLabels ∅ topics then sendOperator listAmbiguousText []
  else
    now ← call Clock;
    keyboard ⇐ issueButtons now topics;
    sendOperator listPromptText keyboard.

Definition handleCommand (update : Update) : Prog (TgErr + option InboundEvent) :=
  if negb (up_ChatID update =? gw_AllowedUserID g) then markInert (up_ID update)
  else if bool_decide (up_Command update = "start") then sendOperator startHelpText [] ⨟ markInert (up_ID update)
  else if bool_decide (up_Command update = "list") then handleList ⨟ markInert (up_ID update)
  else markInert (up_ID update).

(** Ordinary text in a topic with a route. *)
Definition handleText (update : Update) (conversationID : string) : Prog (TgErr + option InboundEvent) :=
  submitted ← SubmitToRelay (gw_Endpoint g) {| su_UpdateID := up_ID update; su_ConversationID := conversationID;
    su_Text := up_Text update; su_ChatID := up_ChatID update; su_ThreadID := up_ThreadID update;
    su_ReplyToID := up_ReplyToID update |};
  match submitted with
  | inl e =>
      if isPermanentRelayFailure e then
        db (MarkProcessedTerminalInbound (up_ID update) conversationID) ⨟ ok (Some (Dropped conversationID e))
      else failWith e
  | inr _ =>
      db (MarkProcessedInboundRecovery (up_ID update) conversationID) ⨟ ok (Some (Recovered conversationID))
  end.

Definition Handle (update : Update) : Prog (TgErr + option InboundEvent) :=
  check (gw_AllowedUserID g =? 0) "telegram gateway is not configured" ⨟
  processed ⇐ db (Processed (up_ID update));
  if processed : bool then ok None
  else if negb (bool_decide (up_CallbackID update = "")) then handleCallback update
  else if negb (up_UserID update =? gw_AllowedUserID g) then markInert (up_ID update)
  else if up_IsCommand update then handleCommand update
  else if blank (up_Text update) then markInert (up_ID update)
  else
    route ⇐ db (Route (up_ChatID update) (up_ThreadID update));
    match route with
    | None => markInert (up_ID update)
    | Some conversationID => handleText update conversationID
    end.

(** The page; the events of the updates before a failure stay. *)
Fixpoint handleAll (events : list InboundEvent) (next : Z) (updates : list Update)
    : Prog (list InboundEvent * (TgErr + Z)) :=
  match updates with
  | [] => mret (events, inr next)
  | update :: updates =>
      handled ← Handle update;
      match handled with
      | inl e => mret (events, inl e)
      | inr event =>
          handleAll (events ++ option_list event)
            (if next <=? up_ID update then wrap64 (up_ID update + 1) else next) updates
      end
  end.

Definition RunOnce (offset : Z) : Prog (list InboundEvent * (TgErr + Z)) :=
  updates ← call (Updates offset);
  match updates with
  | inl e => mret ([], inl e)
  | inr updates => handleAll [] offset updates
  end.
End Handle.

(** ** Sending a delivery *)

Definition maxRichMessageBytes : Z := Z.shiftl 32 10.

(** [html.EscapeString] *)
Definition escapeByte (b : Z) : list Z :=
  if b =? 0x26 then bytesOf "&amp;" else if b =? 0x27 then bytesOf "&#39;" else if b =? 0x3C then bytesOf "&lt;"
  else if b =? 0x3E then bytesOf "&gt;" else if b =? 0x22 then bytesOf "&#34;" else [b].
Definition EscapeString (l : list Z) : list Z := mjoin (escapeByte <$> l).

Definition renderHeader (endpoint : string) : list Z :=
  bytesOf "<p><b>Reply from </b><code>" ++ EscapeString (bytesOf endpoint) ++ bytesOf "</code></p><pre>".
Definition renderFooter : list Z := bytesOf "</pre>".

Definition renderPart (header current : list Z) : list Z := header ++ EscapeString current ++ renderFooter.

Fixpoint renderParts (header current : list Z) (runes : list Utf8.Rune) : list (list Z) :=
  match runes with
  | [] => if bool_decide (current = []) then [] else [renderPart header current]
  | r :: runes =>
      if negb (bool_decide (current = [])) &&
         (maxRichMessageBytes <? Z.of_nat (length (renderPart header (current ++ runeBytes r))))
      then renderPart header current :: renderParts header (runeBytes r) runes
      else renderParts header (current ++ runeBytes r) runes
  end.

Definition renderDelivery (endpoint body : string) : list (list Z) :=
  let header := renderHeader endpoint in
  let parts := renderParts header [] (Utf8.decode (bytesOf body)) in
  if bool_decide (parts = []) && Utf8.ValidString (bytesOf body) then [header ++ renderFooter] else parts.

Definition senderOf (m : Message) : string := if bool_decide (g_FromEndpoint m = "") then g_FromRole m else g_FromEndpoint m.

Fixpoint sendParts (chatID threadID : Z) (m : Message) (parts : list (list Z)) : Prog (TgErr + unit) :=
  match parts with
  | [] => ok tt
  | rendered :: parts =>
      messageID ⇐ call (SendRichMessage chatID threadID rendered);
      now ← call Clock;
      db (RecordOutbound chatID messageID (g_ConversationID m) (g_ID m) (g_FromEndpoint m) now) ⨟
      sendParts chatID threadID m parts
  end.

Definition SendDelivery (delivery : Delivery) (allowedUserID : Z) : Prog (TgErr + unit) :=
  let m := v_Message delivery in
  if blank (g_ConversationID m) || blank (senderOf m) || bool_decide (g_Body m = "") then failWith TgDelivery
  else
    route ⇐ db (RouteForConversation (g_ConversationID m));
    match route with
    | None => failing "telegram conversation route is missing"
    | Some (chatID, threadID) =>
        check ((allowedUserID =? 0) || negb (chatID =? allowedUserID))
          "telegram conversation route is not the configured chat" ⨟
        sendParts chatID threadID m (renderDelivery (senderOf m) (g_Body m))
    end.

(** ** Failures *)

Definition PermanentBotAPIFailure (e : TgErr) : bool :=
  match e with TgBot _ status _ => bool_decide (status ∈ [400; 403; 405; 410; 422]) | _ => false end.
Definition DeletedTopicFailure (e : TgErr) : bool := match e with TgBot _ _ deleted => deleted | _ => false end.
Definition isPermanentTelegramFailure (e : TgErr) : bool :=
  match e with TgDelivery => true | _ => PermanentBotAPIFailure e end.
Definition failedPoll (e : TgErr) : bool :=
  match e with TgBot method _ _ => bool_decide (method = "getUpdates") | _ => false end.

Inductive GatewayCyclePhase :=
  | GatewayPhaseAdvertise | GatewayPhaseClaim | GatewayPhasePoll | GatewayPhaseInbound
  | GatewayPhaseLease | GatewayPhaseSend | GatewayPhaseAck.

#[export] Instance GatewayCyclePhase_eq_dec : EqDecision GatewayCyclePhase.
Proof. solve_decision. Defined.

Record GatewayCycleError := {
  ge_Phase : GatewayCyclePhase;
  ge_NonFatal : bool;
  ge_TerminalInbound : Z;
  ge_TerminalOutbound : Z;
  ge_InboundRecovery : bool;
  ge_OutboundRecovery : bool;
  ge_InboundTargetEvents : list GatewayTargetEvent;
  ge_OutboundTargetEvents : list GatewayTargetEvent;
  ge_OutboundBlocked : bool;
  ge_OutboundProgress : bool;
  ge_Err : option TgErr;
}.

Inductive SyncError := SyncPlain (e : TgErr) | SyncCycle (e : GatewayCycleError).

Definition syncCause (e : SyncError) : option TgErr :=
  match e with SyncPlain e => Some e | SyncCycle e => ge_Err e end.
Definition caused (p : TgErr -> bool) (e : SyncError) : bool :=
  match syncCause e with Some cause => p cause | None => false end.

Definition ClassifyGatewayCycleFailure (e : SyncError) : GatewayFailureClass :=
  if caused DeletedTopicFailure e then GatewayFailureDeletedTopic
  else if caused (fun c => failedPoll c && PermanentBotAPIFailure c) e then GatewayFailureMessageLessPoll
  else if caused PermanentBotAPIFailure e then GatewayFailureOutboundTelegramPermanent
  else match e with
  | SyncPlain _ => GatewayFailureTransient
  | SyncCycle cycle =>
      if ge_NonFatal cycle && isNull (ge_Err cycle) then GatewayFailureNone
      else if bool_decide (ge_Phase cycle = GatewayPhaseSend) && caused isPermanentTelegramFailure e
      then GatewayFailureOutboundTelegramPermanent
      else if negb (bool_decide (ge_Phase cycle = GatewayPhaseInbound)) then GatewayFailureTransient
      else if caused isPermanentRelayFailure e then GatewayFailureInboundRelayPermanent
      else GatewayFailureTransient
  end.

(** ** A cycle *)

(** What the inbound events of a cycle amount to. *)
Definition droppedEvents (events : list InboundEvent) : list TgErr :=
  omap (fun e => match e with Dropped _ cause => Some cause | Recovered _ => None end) events.
Definition recoveredAny (events : list InboundEvent) : bool :=
  existsb (fun e => match e with Recovered _ => true | Dropped _ _ => false end) events.
Definition inboundTargets (events : list InboundEvent) : list GatewayTargetEvent :=
  (fun e => match e with
    | Dropped conversationID _ => {| ev_ConversationID := conversationID; ev_Terminal := true; ev_Staged := true;
        ev_Failure := GatewayFailureInboundRelayPermanent |}
    | Recovered conversationID => {| ev_ConversationID := conversationID; ev_Terminal := false; ev_Staged := false;
        ev_Failure := GatewayFailureNone |}
    end) <$> events.

(** The outbound part so far. *)
Record Outbound := {
  ou_progress : bool;
  ou_recovery : bool;
  ou_terminal : Z;
  ou_events : list GatewayTargetEvent;
  ou_err : option TgErr;
}.
Definition noOutbound : Outbound :=
  {| ou_progress := false; ou_recovery := false; ou_terminal := 0; ou_events := []; ou_err := None |}.
Definition progressed (o : Outbound) : Outbound := {|
  ou_progress := true; ou_recovery := ou_recovery o; ou_terminal := ou_terminal o; ou_events := ou_events o;
  ou_err := ou_err o |}.
Definition staged (conversationID : string) (class : GatewayFailureClass) (e : TgErr) (o : Outbound) : Outbound := {|
  ou_progress := ou_progress o; ou_recovery := ou_recovery o; ou_terminal := ou_terminal o + 1;
  ou_events := ou_events o ++ [{| ev_ConversationID := conversationID; ev_Terminal := true; ev_Staged := true;
    ev_Failure := class |}];
  ou_err := if isNull (ou_err o) || DeletedTopicFailure e then Some e else ou_err o |}.
Definition recovered (conversationID : string) (o : Outbound) : Outbound := {|
  ou_progress := ou_progress o; ou_recovery := true; ou_terminal := ou_terminal o;
  ou_events := ou_events o ++ [{| ev_ConversationID := conversationID; ev_Terminal := false; ev_Staged := false;
    ev_Failure := GatewayFailureNone |}];
  ou_err := ou_err o |}.

(** One delivery: the outbound part after it, and the phase and error that stop
    the cycle. *)
Definition bridgeDelivery (allowedUserID : Z) (o : Outbound) (delivery : Delivery)
    : Prog (Outbound * option (GatewayCyclePhase * TgErr)) :=
  let conversationID := g_ConversationID (v_Message delivery) in
  sent ← SendDelivery delivery allowedUserID;
  match sent with
  | inl e =>
      if isPermanentTelegramFailure e then
        let class := if DeletedTopicFailure e then GatewayFailureDeletedTopic
                     else GatewayFailureOutboundTelegramPermanent in
        stage ← db (StageTerminalOutbound (v_ID delivery) conversationID class);
        match stage with
        | inl e => mret (o, Some (GatewayPhaseSend, e))
        | inr _ =>
            let o := staged conversationID class e o in
            acked ← call (Ack delivery);
            match acked with
            | inl e => mret (o, Some (GatewayPhaseAck, e))
            | inr _ =>
                let o := progressed o in
                finalized ← db (FinalizeTerminalOutbound (v_ID delivery));
                match finalized with
                | inl e => mret (o, Some (GatewayPhaseAck, e))
                | inr _ => mret (o, None)
                end
            end
        end
      else mret (o, Some (GatewayPhaseSend, e))
  | inr _ =>
      cleared ← db (RecoverTerminalOutbound conversationID);
      match cleared with
      | inl e => mret (o, Some (GatewayPhaseSend, e))
      | inr _ =>
          let o := recovered conversationID o in
          acked ← call (Ack delivery);
          match acked with
          | inl e => mret (o, Some (GatewayPhaseAck, e))
          | inr _ => mret (progressed o, None)
          end
      end
  end.

Fixpoint bridgeAll (allowedUserID : Z) (o : Outbound) (deliveries : list Delivery)
    : Prog (Outbound * option (GatewayCyclePhase * TgErr)) :=
  match deliveries with
  | [] => mret (o, None)
  | delivery :: deliveries =>
      result ← bridgeDelivery allowedUserID o delivery;
      match result with
      | (o, None) => bridgeAll allowedUserID o deliveries
      | (o, Some stop) => mret (o, Some stop)
      end
  end.

Definition cycleError (phase : GatewayCyclePhase) (events : list InboundEvent) (o : Outbound) (blocked : bool)
    (e : TgErr) : SyncError := SyncCycle {|
  ge_Phase := phase; ge_NonFatal := false; ge_TerminalInbound := Z.of_nat (length (droppedEvents events));
  ge_TerminalOutbound := ou_terminal o; ge_InboundRecovery := recoveredAny events;
  ge_OutboundRecovery := ou_recovery o; ge_InboundTargetEvents := inboundTargets events;
  ge_OutboundTargetEvents := ou_events o; ge_OutboundBlocked := blocked; ge_OutboundProgress := ou_progress o;
  ge_Err := Some e |}.

(** The end of a cycle that ran through: an error only if it has news. *)
Definition cycleNews (events : list InboundEvent) (o : Outbound) : option SyncError :=
  let terminalInbound := Z.of_nat (length (droppedEvents events)) in
  if (0 <? terminalInbound) || (0 <? ou_terminal o) || recoveredAny events || ou_recovery o then
    let outbound := (0 <? ou_terminal o) || (terminalInbound =? 0) && ou_recovery o in
    Some (SyncCycle {|
      ge_Phase := if outbound then GatewayPhaseSend else GatewayPhaseInbound; ge_NonFatal := true;
      ge_TerminalInbound := terminalInbound; ge_TerminalOutbound := ou_terminal o;
      ge_InboundRecovery := recoveredAny events; ge_OutboundRecovery := ou_recovery o;
      ge_InboundTargetEvents := inboundTargets events; ge_OutboundTargetEvents := ou_events o;
      ge_OutboundBlocked := false; ge_OutboundProgress := false;
      ge_Err := if outbound then ou_err o else head (droppedEvents events) |})
  else None.

Section Cycle.
Context (g : Gateway).

Definition claimsStep : Prog (TgErr + unit) :=
  match gw_Claims g with
  | Some claims => ResumeAll claims ⨟ StartPending claims
  | None => ok tt
  end.

Definition SyncOnce (offset : Z) : Prog (Z * option SyncError) :=
  if blank (gw_Endpoint g) then mret (offset, Some (SyncPlain (TgFailed "telegram bridge is not configured")))
  else
    advertised ← call (Advertise [gw_Endpoint g]);
    match advertised with
    | inl e => mret (offset, Some (cycleError GatewayPhaseAdvertise [] noOutbound false e))
    | inr _ =>
        claimed ← claimsStep;
        match claimed with
        | inl e => mret (offset, Some (cycleError GatewayPhaseClaim [] noOutbound false e))
        | inr _ =>
            page ← RunOnce g offset;
            match page with
            | (events, inl e) =>
                mret (offset, Some (cycleError (if failedPoll e then GatewayPhasePoll else GatewayPhaseInbound)
                  events noOutbound false e))
            | (events, inr next) =>
                deliveries ← call (Lease (gw_Endpoint g));
                match deliveries with
                | inl e => mret (next, Some (cycleError GatewayPhaseLease events noOutbound false e))
                | inr deliveries =>
                    outcome ← bridgeAll (gw_AllowedUserID g) noOutbound deliveries;
                    match outcome with
                    | (o, Some (phase, e)) => mret (next, Some (cycleError phase events o true e))
                    | (o, None) => mret (next, cycleNews events o)
                    end
                end
            end
        end
    end.

(** ** The loop *)

Definition failedGatewayCycleRecord (at_ offset : Z) (e : SyncError) : GatewayCycleRecord :=
  let failure := ClassifyGatewayCycleFailure e in
  match e with
  | SyncPlain _ => {| cr_At := at_; cr_Offset := offset; cr_PollOK := false; cr_RelayOK := false;
      cr_TelegramOK := false; cr_OutboundBlocked := false; cr_OutboundProgress := false; cr_TerminalInbound := 0;
      cr_TerminalOutbound := 0; cr_InboundTargetEvents := []; cr_OutboundTargetEvents := []; cr_Failure := failure |}
  | SyncCycle c =>
      let '(poll, relay, telegram) :=
        if ge_NonFatal c then (true, true, ge_TerminalOutbound c =? 0)
        else match ge_Phase c with
        | GatewayPhaseInbound | GatewayPhaseLease => (true, false, false)
        | GatewayPhaseSend => (true, true, false)
        | GatewayPhaseAck => (true, true, true)
        | _ => (false, false, false)
        end in
      {| cr_At := at_; cr_Offset := offset; cr_PollOK := poll; cr_RelayOK := relay; cr_TelegramOK := telegram;
         cr_OutboundBlocked := ge_OutboundBlocked c; cr_OutboundProgress := ge_OutboundProgress c;
         cr_TerminalInbound := ge_TerminalInbound c; cr_TerminalOutbound := ge_TerminalOutbound c;
         cr_InboundTargetEvents := ge_InboundTargetEvents c; cr_OutboundTargetEvents := ge_OutboundTargetEvents c;
         cr_Failure := failure |}
  end.

Definition isNonFatalGatewayCycle (e : SyncError) : bool :=
  match e with SyncCycle c => ge_NonFatal c | SyncPlain _ => false end.

(** One turn of the loop of [run]: the offset of the next turn, and whether it
    starts at once. *)
Definition gatewayTurn (offset : Z) : Prog (Z * bool) :=
  outcome ← SyncOnce offset;
  now ← call Clock;
  match outcome with
  | (next, None) =>
      recorded ← db (RecordGatewayCycle {| cr_At := now; cr_Offset := next; cr_PollOK := true; cr_RelayOK := true;
        cr_TelegramOK := true; cr_OutboundBlocked := false; cr_OutboundProgress := false; cr_TerminalInbound := 0;
        cr_TerminalOutbound := 0; cr_InboundTargetEvents := []; cr_OutboundTargetEvents := [];
        cr_Failure := GatewayFailureNone |});
      mret (match recorded with inr _ => (next, true) | inl _ => (offset, false) end)
  | (next, Some e) =>
      recorded ← db (RecordGatewayCycle (failedGatewayCycleRecord now next e));
      mret (match recorded with
            | inr _ => if isNonFatalGatewayCycle e then (next, true) else (offset, false)
            | inl _ => (offset, false)
            end)
  end.
End Cycle.
