(* ===== verification/TelegramPool.v ===== *)
(** * Gateway processes on one state

    Any number of gateway programs run at once on the same state: the daemon,
    its replacement after a restart, the operator's commands.  They interleave
    call by call and may stop anywhere.  The outside replies as it likes; the
    state may refuse a call, and may lose the answer of one it committed.  A
    logic for such runs: an invariant of the state, facts no step destroys, and
    permits to create a topic. *)

From S2P Require Import Prelude Programs GoTime Text Tables Source Messages Deliveries Claims.
From S2P Require Import TelegramState TelegramHealth TelegramClaims TelegramBridge.
Open Scope Z_scope.

(** ** Runs *)

Abbreviation Event := (Programs.Event Call).

Abbreviation Thread := (Programs.Thread Call).
Abbreviation Pool := (Programs.Pool Call TgDb).

Definition replies {R} (d : TgDb) (c : Call R) : R -> TgDb -> Prop :=
  match c in Call R return R -> TgDb -> Prop with
  | Database op => answers TgDatabase op d
  | _ => fun _ d' => d' = d
  end.

(** What may be started: turns of the daemon, the operator's route and adopt
    commands, and the opening of the state. *)
Inductive entry : Thread -> Prop :=
  | entry_turn g offset : entry (process (gatewayTurn g offset))
  | entry_route chatID threadID conversationID : entry (process (db (SetRoute chatID threadID conversationID)))
  | entry_adopt conversationID allowedUserID : entry (process (Adopt conversationID allowedUserID))
  | entry_open : entry (process (db ensureGatewayTerminalTargetLedgers)).

Abbreviation pool_step := (Programs.pool_step (fun d R => @replies R d) entry (fun _ _ : TgDb => False)).

Definition noPool : Pool := {| po_threads := []; po_db := emptyTg; po_trace := [] |}.

(** A topic that was or may have been created for conversation [c]. *)
Definition topicMade (c : string) (e : Event) : bool :=
  match e with
  | @Did _ R call reply =>
      match call in Call R return R -> bool with
      | CreateForumTopic c' _ _ => fun reply =>
          bool_decide (c' = c) && match reply with inl e => negb (definitivePreCreationRejection e) | inr _ => true end
      | _ => fun _ => false
      end reply
  end.
Definition topicsMade (c : string) (trace : list Event) : Z := lsum (fun e => indicator (topicMade c e)) trace.

(** ** The invariant of the state *)

Definition topicOf (d : TgDb) (c : string) : Prop :=
  exists chatID threadID, tg_routes d !! (chatID, threadID) = Some c /\ 0 < threadID.

Definition routedPhase (phase : ClaimPhase) : bool :=
  match phase with ClaimPhaseAdopting | ClaimPhaseRoutePersisted | ClaimPhaseComplete => true | _ => false end.
Definition settledPhase (phase : ClaimPhase) : bool :=
  match phase with ClaimPhaseReserved | ClaimPhaseCreating => false | _ => true end.

Definition settled (d : TgDb) (c : string) : Prop :=
  exists row, tg_claims d !! c = Some row /\ settledPhase (ce_phase row) = true.
Definition routed (d : TgDb) (c : string) : Prop := settled d c /\ topicOf d c.

Record tgInv (d : TgDb) : Prop := {
  iv_routes k1 k2 c : tg_routes d !! k1 = Some c -> tg_routes d !! k2 = Some c -> k1 = k2;
  iv_claims c row : tg_claims d !! c = Some row -> routedPhase (ce_phase row) = true -> topicOf d c;
}.

Record evolves (d d' : TgDb) : Prop := {
  el_claims c : is_Some (tg_claims d !! c) -> is_Some (tg_claims d' !! c);
  el_routed c : routed d c -> routed d' c;
}.

#[export] Instance evolves_preorder : PreOrder evolves.
Proof. split; [by intros d|]. intros d1 d2 d3 [Hc1 Hr1] [Hc2 Hr2]. split; auto. Qed.

(** Facts that no step destroys. *)
Definition stable (K : TgDb -> Prop) : Prop := forall d d', evolves d d' -> K d -> K d'.

(** 1 while a topic may still be started for [c]. *)
Definition slot (d : TgDb) (c : string) : Z :=
  match tg_claims d !! c with
  | None => 1
  | Some row => indicator (bool_decide (ce_phase row = ClaimPhaseReserved))
  end.

(** ** The logic *)

Definition permits : Type := string -> Z.
Definition none : permits := fun _ => 0.
Definition one (c : string) : permits := fun c' => indicator (bool_decide (c' = c)).

(** What a call needs, with its continuation. *)
Definition before {R} (c : Call R) (π : permits) (K : TgDb -> Prop)
    (cont : R -> permits -> (TgDb -> Prop) -> Prop) : Prop :=
  (forall d r d', tgInv d -> K d -> replies d c r d' ->
    tgInv d' /\ evolves d d' /\ exists π' K',
      (forall k, slot d' k + π' k + indicator (topicMade k (Did c r)) <= slot d k + π k) /\ (forall k, 0 <= π' k) /\
      stable K' /\ K' d' /\ cont r π' K').

(** The program keeps the invariant, its facts and its permits, and ends with
    [Q]. *)
Fixpoint wp {A} (π : permits) (K : TgDb -> Prop) (p : Prog A) (Q : A -> TgDb -> Prop) : Prop :=
  match p with
  | Ret a => forall d, K d -> Q a d
  | Vis c k => before c π K (fun r π' K' => wp π' K' (k r) Q)
  end.

Lemma before_weaken {R} (c : Call R) π π2 (K K2 : TgDb -> Prop) (cont cont2 : R -> permits -> (TgDb -> Prop) -> Prop) :
  (forall k, π k <= π2 k) -> (forall d, K2 d -> K d) -> (forall r π' K', cont r π' K' -> cont2 r π' K') ->
  before c π K cont -> before c π2 K2 cont2.
Proof.
  intros Hle HKK Hc Hb d r d' Hi HK Hr. destruct (Hb d r d' Hi (HKK _ HK) Hr) as (Hi' & He & π' & K' & Hs & Hp & HK' & HKd & Hcont).
  split_and!; [done..|]. exists π', K'. split_and!; [|done|done|done|auto]. intros k. specialize (Hs k). specialize (Hle k). lia.
Qed.

Lemma wp_weaken {A} π π2 (K K2 : TgDb -> Prop) (p : Prog A) (Q Q2 : A -> TgDb -> Prop) :
  (forall k, π k <= π2 k) -> (forall d, K2 d -> K d) -> (forall a d, Q a d -> Q2 a d) -> wp π K p Q -> wp π2 K2 p Q2.
Proof.
  revert π π2 K K2. induction p as [a|R c k IH]; intros π π2 K K2 Hle HKK HQ Hwp; [by intros d ?; apply HQ, Hwp, HKK|].
  eapply before_weaken; [exact Hle|exact HKK| |exact Hwp]. intros r π' K' Hk. cbn beta. by eapply IH; [..|exact Hk].
Qed.

Lemma wp_bind {A B} π K (p : Prog A) (f : A -> Prog B) Q1 Q :
  (forall k, 0 <= π k) -> wp π K p Q1 -> (forall a, wp none (Q1 a) (f a) Q) -> wp π K (p ≫= f) Q.
Proof.
  intros Hp Hwp Hf. revert π K Hp Hwp. induction p as [a|R c k IH]; intros π K Hp Hwp.
  - eapply wp_weaken; [exact Hp|exact Hwp|by intros|apply Hf].
  - intros d r d' Hi HK Hr. destruct (Hwp d r d' Hi HK Hr) as (Hi' & He & π' & K' & Hs & Hp' & HK' & HKd & Hcont).
    split_and!; [done..|]. exists π', K'. split_and!; [done..|]. by apply IH.
Qed.

(** ** The pool's invariant *)

Definition threadOk (d : TgDb) (t : Thread) (π : permits) : Prop :=
  match t with process p => (forall k, 0 <= π k) /\ exists K, stable K /\ K d /\ wp π K p (fun _ _ => True) end.

Record poolInv (s : Pool) (πs : list permits) : Prop := {
  pi_db : tgInv (po_db s);
  pi_threads : Forall2 (threadOk (po_db s)) (po_threads s) πs;
  pi_topics c : slot (po_db s) c + lsum (fun π : permits => π c) πs + topicsMade c (po_trace s) <= 1;
}.

Lemma threadOk_evolves d d' t π : evolves d d' -> threadOk d t π -> threadOk d' t π.
Proof. destruct t as [A p]. intros He [Hp (K & Hs & HK & Hw)]. split; [done|]. exists K. eauto. Qed.

Lemma poolInv_step s s' πs :
  (forall t d, entry t -> tgInv d -> threadOk d t none) ->
  pool_step s s' -> poolInv s πs -> exists πs', poolInv s' πs'.
Proof.
  intros Hentry Hs [Hdb Hts Htop].
  destruct Hs as [ts1 ts2 A R c k d r d' trace Hr|t ts d trace Ht|t ts1 ts2 d trace|ts d d' trace []]; cbn in *.
  - apply Forall2_app_inv_l in Hts as (πs1 & πs2' & H1 & H2 & ->).
    apply Forall2_cons_inv_l in H2 as (π & πs2 & [Hp (K & HsK & HK & Hw)] & H2 & ->).
    destruct (Hw d r d' Hdb HK Hr) as (Hdb' & He & π' & K' & Hsl & Hp' & HsK' & HK' & Hw').
    exists (πs1 ++ π' :: πs2). split; cbn; [done| |].
    + apply Forall2_app; [|constructor]; try (eapply Forall2_impl; [eassumption|]; intros; by eapply threadOk_evolves).
      split; [done|]. exists K'. done.
    + intros k0. specialize (Htop k0). specialize (Hsl k0). unfold topicsMade in *. rewrite !lsum_app in *. simpl in *. lia.
  - exists (none :: πs). split; cbn; [done|constructor; [by apply Hentry|done]|]. intros c. specialize (Htop c). unfold none at 1. lia.
  - apply Forall2_app_inv_l in Hts as (πs1 & πs2' & H1 & H2 & ->).
    apply Forall2_cons_inv_l in H2 as (π & πs2 & Hok & H2 & ->).
    exists (πs1 ++ πs2). split; cbn; [done|by apply Forall2_app|]. intros c. specialize (Htop c).
    rewrite !lsum_app in *. simpl in *. destruct t, Hok as [Hp _]. specialize (Hp c). lia.
Qed.

(** ** Rules *)

(** A call to the state that is safe under [K]. *)
Definition tame {A} (K : TgDb -> Prop) (op : T A) : Prop :=
  forall d a d', tgInv d -> K d -> op d = inr (a, d') ->
    tgInv d' /\ evolves d d' /\ forall k, slot d' k <= slot d k.

Lemma wp_db {A} (K : TgDb -> Prop) (op : T A) (Q : TgErr + A -> TgDb -> Prop) :
  stable K -> tame K op -> (forall e d, K d -> Q (inl e) d) -> (forall a, stable (Q (inr a))) ->
  (forall d a d', tgInv d -> K d -> op d = inr (a, d') -> tgInv d' -> evolves d d' -> Q (inr a) d') ->
  wp none K (db op) Q.
Proof.
  intros HK Ht Hl Hst Hr d r d' Hi HKd Hrep. cbn in Hrep.
  destruct Hrep as [a d' Ho|e Ho| |a d' Ho].
  - destruct (Ht d a d' Hi HKd Ho) as (Hi' & He & Hsl). split_and!; [done..|].
    exists none, (Q (inr a)). split_and!; [|done|exact (Hst a)|exact (Hr d a d' Hi HKd Ho Hi' He)|by intros ?]. intros k. specialize (Hsl k). cbn. unfold none. lia.
  - split_and!; [done..|]. exists none, K. split_and!; [|done..|exact (Hl _)]. intros k. cbn. lia.
  - split_and!; [done..|]. exists none, K. split_and!; [|done..|exact (Hl _)]. intros k. cbn. lia.
  - destruct (Ht d a d' Hi HKd Ho) as (Hi' & He & Hsl). split_and!; [done..|].
    exists none, K. split_and!; [|done..|by eapply HK|exact (Hl _)]. intros k. specialize (Hsl k). cbn. unfold none. lia.
Qed.

(** A call to the outside, other than the one that creates topics. *)
Definition plain {R} (c : Call R) : bool :=
  match c with Database _ | CreateForumTopic _ _ _ => false | _ => true end.

Lemma wp_plain {R} (c : Call R) K (Q : R -> TgDb -> Prop) :
  stable K -> plain c = true -> (forall r d, K d -> Q r d) -> wp none K (call c) Q.
Proof.
  intros HK Hc HQ d r d' Hi HKd Hr. assert (d' = d) as -> by (by destruct c).
  split_and!; [done..|]. exists none, K. split_and!; [|done..|exact (HQ _)].
  intros k. assert (topicMade k (Did c r) = false) as -> by (by destruct c). unfold none. cbn. lia.
Qed.

Lemma wp_ret {A} π (K : TgDb -> Prop) (a : A) (Q : A -> TgDb -> Prop) : (forall d, K d -> Q a d) -> wp π K (mret a) Q.
Proof. done. Qed.

(** [m] may fail; then nothing is known but [K]. *)
Lemma wp_try {A B} (K : TgDb -> Prop) (m : Prog (TgErr + A)) (f : A -> Prog (TgErr + B)) Q1 Q :
  wp none K m Q1 -> (forall e d, Q1 (inl e) d -> Q (inl e) d) -> (forall a, wp none (Q1 (inr a)) (f a) Q) ->
  wp none K (tryBind f m) Q.
Proof.
  intros Hm Hl Hf. eapply wp_bind; [done|exact Hm|]. intros [e|a]; [|apply Hf]. apply wp_ret. intros d. apply Hl.
Qed.

Lemma wp_call {R A} (c : Call R) (K : TgDb -> Prop) (k : R -> Prog A) Q :
  stable K -> plain c = true -> (forall r, wp none K (k r) Q) -> wp none K (call c ≫= k) Q.
Proof. intros HK Hc Hk. apply (wp_bind _ _ _ _ (fun _ => K)); [done| |done]. by apply wp_plain. Qed.

(** A call to the state that takes or returns permits. *)
Lemma wp_spend {A B} (π : permits) (π' : A -> permits) (K : TgDb -> Prop) (op : T A) (k : TgErr + A -> Prog B) Q :
  stable K -> (forall x, 0 <= π x) -> (forall a x, 0 <= π' a x) ->
  (forall d a d', tgInv d -> K d -> op d = inr (a, d') ->
    tgInv d' /\ evolves d d' /\ forall x, slot d' x + π' a x <= slot d x + π x) ->
  (forall a, wp (π' a) K (k (inr a)) Q) -> (forall e, wp none K (k (inl e)) Q) -> wp π K (db op ≫= k) Q.
Proof.
  intros HK Hp Hp' Hop Hr Hl d r d' Hi HKd Hrep. cbn in Hrep.
  destruct Hrep as [a d' Ho|e Ho| |a d' Ho].
  - destruct (Hop d a d' Hi HKd Ho) as (Hi' & He & Hsl). split_and!; [done..|].
    exists (π' a), K. split_and!; [|apply Hp'|done|by eapply HK|apply Hr]. intros x. specialize (Hsl x). cbn. lia.
  - split_and!; [done..|]. exists none, K. split_and!; [|done..|apply Hl]. intros x. specialize (Hp x). unfold none. cbn. lia.
  - split_and!; [done..|]. exists none, K. split_and!; [|done..|apply Hl]. intros x. specialize (Hp x). unfold none. cbn. lia.
  - destruct (Hop d a d' Hi HKd Ho) as (Hi' & He & Hsl). split_and!; [done..|].
    exists none, K. split_and!; [|done|done|by eapply HK|apply Hl]. intros x. specialize (Hsl x). specialize (Hp' a x).
    unfold none. cbn. lia.
Qed.

(** Creating a topic takes a permit, unless Telegram rejected the request. *)
Lemma wp_create {A} (K : TgDb -> Prop) c chatID name (k : TgErr + Z -> Prog A) Q :
  stable K ->
  (forall r, wp (if topicMade c (Did (CreateForumTopic c chatID name) r) then none else one c) K (k r) Q) ->
  wp (one c) K (call (CreateForumTopic c chatID name) ≫= k) Q.
Proof.
  intros HK Hk d r d' Hi HKd Hr. cbn in Hr. subst d'. split_and!; [done..|].
  eexists _, K. split_and!; [| |done|done|apply Hk].
  - intros x. unfold one, none. cbn. destruct (decide (x = c)) as [->|Hne].
    + rewrite (bool_decide_eq_true_2 (c = c)) by done. destruct r as [e|t]; cbn; [destruct (definitivePreCreationRejection e)|];
        cbn; rewrite ?(bool_decide_eq_true_2 (c = c)) by done; cbn; lia.
    + rewrite (bool_decide_eq_false_2 (c = x)), (bool_decide_eq_false_2 (x = c)) by congruence. cbn.
      case_match; rewrite ?(bool_decide_eq_false_2 (x = c)) by congruence; cbn; lia.
  - intros x. case_match; unfold none, one; [lia|]. case_bool_decide; cbn; lia.
Qed.

(** ** Programs that may fail *)

Definition onOk {A} (Q : A -> TgDb -> Prop) (r : TgErr + A) (d : TgDb) : Prop :=
  match r with inl _ => True | inr a => Q a d end.

Lemma wp_onOk {A B} (K : TgDb -> Prop) (m : Prog (TgErr + A)) (f : A -> Prog (TgErr + B)) Q1 Q :
  wp none K m (onOk Q1) -> (forall a, wp none (Q1 a) (f a) (onOk Q)) -> wp none K (tryBind f m) (onOk Q).
Proof. intros Hm Hf. eapply wp_try; [exact Hm|done|exact Hf]. Qed.

Lemma wp_ok {A} π (K : TgDb -> Prop) (a : A) Q : (forall d, K d -> Q a d) -> wp π K (ok a) (onOk Q).
Proof. done. Qed.

Lemma wp_failing {A} π K text (Q : A -> TgDb -> Prop) : wp π K (failing text) (onOk Q).
Proof. done. Qed.

Lemma wp_check K b text : wp none K (check b text) (onOk (fun _ => K)).
Proof. destruct b; [done|]. by intros d. Qed.

Lemma tame_weaken {A} (K K' : TgDb -> Prop) (op : T A) : (forall d, K' d -> K d) -> tame K op -> tame K' op.
Proof. intros HK Ht d a d' Hi Hk. apply Ht; auto. Qed.

Lemma wp_state {A} (K : TgDb -> Prop) (op : T A) : stable K -> tame K op -> wp none K (db op) (onOk (fun _ => K)).
Proof. intros HK Ht. apply wp_db; [done..|]. intros d a d' _ HKd _ _ He. by eapply HK. Qed.

(** ** Programs that need to know nothing *)

Definition anything : TgDb -> Prop := fun _ => True.
Definition safe {A} (p : Prog A) : Prop := wp none anything p (fun _ => anything).

Lemma stable_anything : stable anything.
Proof. done. Qed.

Lemma safe_wp {A} (p : Prog (TgErr + A)) Q : wp none anything p (onOk Q) -> safe p.
Proof. by apply wp_weaken. Qed.

Lemma safe_onOk {A} (p : Prog (TgErr + A)) : safe p -> wp none anything p (onOk (fun _ => anything)).
Proof. apply wp_weaken; [done..|]. by intros [e|a]. Qed.

Lemma safe_ret {A} (a : A) : safe (mret a).
Proof. done. Qed.

Lemma safe_bind {A B} (p : Prog A) (f : A -> Prog B) : safe p -> (forall a, safe (f a)) -> safe (p ≫= f).
Proof. intros Hp Hf. by eapply wp_bind; [done|exact Hp|]. Qed.

Lemma safe_try {A B} (m : Prog (TgErr + A)) (f : A -> Prog (TgErr + B)) :
  safe m -> (forall a, safe (f a)) -> safe (tryBind f m).
Proof. intros Hm Hf. apply safe_bind; [done|]. by intros [e|a]. Qed.

Lemma safe_db {A} (op : T A) : tame anything op -> safe (db op).
Proof. intros Ht. by eapply safe_wp, wp_state. Qed.

Lemma safe_call {R} (c : Call R) : plain c = true -> safe (call c).
Proof. intros Hc. by apply wp_plain. Qed.

Lemma safe_thread {A} (p : Prog A) d : safe p -> threadOk d (process p) none.
Proof. intros Hp. split; [done|]. by exists anything. Qed.
