(* ===== verification/TelegramTopics.v ===== *)
(** * What each operation of the Telegram state does to claims and routes

    Every operation keeps the invariant of the state, destroys no fact that
    others rely on, and opens no slot for a topic, but for the one that returns
    a permit. *)

From S2P Require Import Prelude Programs GoTime Text Tables Source Messages Deliveries Claims.
From S2P Require Import TelegramState TelegramHealth TelegramClaims TelegramBridge TelegramPool.
Open Scope Z_scope.

(** ** Routes *)

Lemma routeOf_some routes c k : routeOf routes c = Some k -> routes !! k = Some c.
Proof.
  unfold routeOf. destruct (head _) as [[k' c']|] eqn:Hh; [|done]. intros [= <-]. cbn.
  apply head_Some_elem_of, list_elem_of_filter in Hh as [Hc Hin]. cbn in Hc. subst. by apply elem_of_map_to_list.
Qed.

Lemma routeOf_none routes c k : routeOf routes c = None -> routes !! k <> Some c.
Proof.
  unfold routeOf. intros Hn Hk. apply elem_of_map_to_list in Hk.
  assert ((k, c) ∈ filter (fun kv => kv.2 = c) (map_to_list routes)) as Hin by (by apply list_elem_of_filter).
  destruct (filter _ _); [by apply elem_of_nil in Hin|done].
Qed.

(** ** Steps on claims and routes *)

Lemma slot_same d d' : tg_claims d' = tg_claims d -> forall k, slot d' k <= slot d k.
Proof. intros Hc k. unfold slot. rewrite Hc. lia. Qed.

Lemma tame_quiet {A} K (op : T A) :
  (forall d a d', op d = inr (a, d') -> tg_routes d' = tg_routes d /\ tg_claims d' = tg_claims d) -> tame K op.
Proof.
  intros Hq d a d' Hi _ Ho. apply Hq in Ho as [Hr Hc].
  assert (forall c, topicOf d' c <-> topicOf d c) as Ht by (intros c; unfold topicOf; by rewrite Hr).
  split_and!; [|split|by apply slot_same].
  - destruct Hi as [H1 H2]. split; [by rewrite Hr|]. intros c row. rewrite Hc. intros. apply Ht. eauto.
  - intros c. by rewrite Hc.
  - intros c [(row & Hrow & Hs) Htop]. split; [|by apply Ht]. exists row. by rewrite Hc.
Qed.

(** What a claim row may become. *)
Record advances (d : TgDb) (c : string) (row : ClaimRow) : Prop := {
  ad_topic : routedPhase (ce_phase row) = true -> topicOf d c;
  ad_settled old : tg_claims d !! c = Some old -> settledPhase (ce_phase old) = true -> settledPhase (ce_phase row) = true;
  ad_slot old : tg_claims d !! c = Some old -> ce_phase row = ClaimPhaseReserved -> ce_phase old = ClaimPhaseReserved;
}.

Lemma claim_step d c row :
  tgInv d -> advances d c row ->
  let d' := set_claims (<[c := row]> (tg_claims d)) d in
  tgInv d' /\ evolves d d' /\ forall k, slot d' k <= slot d k.
Proof.
  intros [H1 H2] [Ht Hs Hl] d'. split_and!.
  - split; [done|]. intros c0 row0. cbn. intros [[<- <-]|[Hne Hr]]%lookup_insert_Some; [done|]. by apply H2.
  - split; cbn; intros c0.
    + intros [old Hold]. destruct (decide (c0 = c)) as [->|Hne]; [rewrite lookup_insert_eq|rewrite lookup_insert_ne by done]; eauto.
    + intros [(old & Hold & Hset) Htop]. split; [|done]. destruct (decide (c = c0)) as [->|Hne].
      * exists row. cbn. rewrite lookup_insert_eq. split; [done|]. by eapply Hs.
      * exists old. cbn. by rewrite lookup_insert_ne.
  - intros k. unfold slot. cbn. destruct (decide (c = k)) as [->|Hne]; [|by rewrite lookup_insert_ne].
    rewrite lookup_insert_eq. destruct (tg_claims d !! k) as [old|] eqn:Hold; case_bool_decide as Hp; cbn; try lia.
    + by rewrite bool_decide_eq_true_2 by (by eapply Hl).
    + case_bool_decide; cbn; lia.
Qed.

Lemma updateClaim_ok c when f d n d' :
  updateClaim c when f d = inr (n, d') ->
  d' = d /\ n = 0 \/
  exists row, tg_claims d !! c = Some row /\ when row = true /\ n = 1 /\
    d' = set_claims (<[c := f row]> (tg_claims d)) d.
Proof.
  unfold updateClaim. intros H. st_inv H. destruct (tg_claims d !! c) as [row|]; [|left; by st_inv H].
  destruct (when row) eqn:Hw; st_inv H; [right|by left]. eauto 10.
Qed.

(** A route added for [c], or given to it by a conversation that has no claim on
    it. *)
Lemma route_step d chatID threadID c u d' :
  tgInv d -> insertRoute chatID threadID c d = inr (u, d') ->
  (forall c', tg_routes d !! (chatID, threadID) = Some c' -> c' <> c -> claimProtectsRoute d c' = false) ->
  tgInv d' /\ evolves d d' /\ (forall k, slot d' k <= slot d k) /\ tg_claims d' = tg_claims d /\
  tg_routes d' !! (chatID, threadID) = Some c.
Proof.
  intros [H1 H2] Hins Hfree. unfold insertRoute in Hins. st_inv Hins.
  rename Hm into Huniq. rewrite mexists_false in Huniq.
  assert (forall k, tg_routes d !! k = Some c -> k = (chatID, threadID)) as Honly.
  { intros k Hk. specialize (Huniq k c Hk). apply not_true_iff_false in Huniq. destruct (decide (k = (chatID, threadID))); [done|].
    destruct Huniq. by rewrite bool_decide_eq_false_2, bool_decide_eq_true_2. }
  assert (forall c0, c0 <> c -> claimProtectsRoute d c0 = true -> topicOf d c0 ->
    topicOf (set_routes (<[(chatID, threadID) := c]> (tg_routes d)) d) c0) as Hkeep.
  { intros c0 Hne Hprot (chat & thr & Hr & Hpos). exists chat, thr. split; [|done]. cbn.
    rewrite lookup_insert_ne; [done|]. intros Heq. rewrite <-Heq in Hr. specialize (Hfree c0 Hr Hne). congruence. }
  assert (forall c0, topicOf d c0 -> (exists row, tg_claims d !! c0 = Some row /\ ce_phase row <> ClaimPhaseReserved) ->
    topicOf (set_routes (<[(chatID, threadID) := c]> (tg_routes d)) d) c0) as Hkeep'.
  { intros c0 Ht (row & Hrow & Hph). destruct (decide (c0 = c)) as [->|Hne].
    - destruct Ht as (chat & thr & Hr & Hpos). exists chat, thr. split; [|done]. cbn.
      rewrite (Honly _ Hr). by rewrite lookup_insert_eq.
    - apply Hkeep; [done| |done]. unfold claimProtectsRoute. by rewrite Hrow, bool_decide_eq_false_2. }
  split_and!; [split|split|by intros; apply slot_same|done|cbn; by rewrite lookup_insert_eq].
  - intros k1 k2 c0. cbn. intros [[<- <-]|[Hn1 Hk1]]%lookup_insert_Some [[<- E]|[Hn2 Hk2]]%lookup_insert_Some; subst; try done.
    + symmetry. by apply Honly.
    + by apply Honly.
    + by eapply H1.
  - cbn. intros c0 row Hrow Hph. apply Hkeep'; [by eapply H2|]. exists row. split; [done|]. by destruct (ce_phase row).
  - done.
  - intros c0 [(row & Hrow & Hset) Htop]. split; [by exists row|]. apply Hkeep'; [done|]. exists row. split; [done|].
    by destruct (ce_phase row).
Qed.

(** ** Every operation of the state *)

Create HintDb tame.

Lemma tame_bind {A B} K (m : T A) (k : A -> T B) : stable K -> tame K m -> (forall a, tame K (k a)) -> tame K (m ≫= k).
Proof.
  intros HK Hm Hk d b d2 Hi HKd Ho. apply st_bind_ok in Ho as (a & d1 & Ho1 & Ho2).
  destruct (Hm _ _ _ Hi HKd Ho1) as (Hi1 & He1 & Hs1). destruct (Hk a _ _ _ Hi1 (HK _ _ He1 HKd) Ho2) as (Hi2 & He2 & Hs2).
  split_and!; [done|by trans d1|]. intros k0. specialize (Hs1 k0). specialize (Hs2 k0). lia.
Qed.

Ltac quiet := intros; apply tame_quiet; intros ??? ?; st_cases; by simplify_eq/=.

Lemma tame_reject K b e : tame K (st_reject b e).
Proof. quiet. Qed.
Lemma tame_read {A} K (f : TgDb -> A) : tame K (st_read f).
Proof. quiet. Qed.
Lemma tame_ret {A} K (a : A) : tame K (mret a).
Proof. quiet. Qed.
Lemma tame_processed K updateID : tame K (MarkProcessed updateID).
Proof. unfold MarkProcessed. quiet. Qed.
Lemma tame_terminal K updateID c : tame K (MarkProcessedTerminalInbound updateID c).
Proof. unfold MarkProcessedTerminalInbound, insertProcessed. quiet. Qed.
Lemma tame_recovery K updateID c : tame K (MarkProcessedInboundRecovery updateID c).
Proof. unfold MarkProcessedInboundRecovery, insertProcessed. quiet. Qed.
Lemma tame_issue K raw c now : tame K (IssueCallbackToken raw c now).
Proof. unfold IssueCallbackToken. quiet. Qed.
Lemma tame_cursor K name after : tame K (writeCursor name after).
Proof. unfold writeCursor. quiet. Qed.
Lemma tame_outbound K chatID messageID c m e now : tame K (RecordOutbound chatID messageID c m e now).
Proof. unfold RecordOutbound. quiet. Qed.
Lemma tame_stage K deliveryID c class : tame K (StageTerminalOutbound deliveryID c class).
Proof. unfold StageTerminalOutbound. quiet. Qed.
Lemma tame_finalize K deliveryID : tame K (FinalizeTerminalOutbound deliveryID).
Proof. unfold FinalizeTerminalOutbound. quiet. Qed.
Lemma tame_recover K c : tame K (RecoverTerminalOutbound c).
Proof. unfold RecoverTerminalOutbound. quiet. Qed.
Lemma tame_cycle K record : tame K (RecordGatewayCycle record).
Proof. unfold RecordGatewayCycle. intros. apply tame_quiet. intros ??? Ho. st_cases. by destruct (foldl _ (_, _) _). Qed.
Lemma tame_ledgers K : tame K ensureGatewayTerminalTargetLedgers.
Proof. unfold ensureGatewayTerminalTargetLedgers. quiet. Qed.
Lemma tame_incomplete K after limit : tame K (IncompleteClaimExecutionsAfter after limit).
Proof. unfold IncompleteClaimExecutionsAfter. quiet. Qed.
Lemma tame_completed K after limit : tame K (CompletedClaimExecutionsAfter after limit).
Proof. unfold CompletedClaimExecutionsAfter. quiet. Qed.
#[export] Hint Resolve tame_reject tame_read tame_ret tame_processed tame_terminal tame_recovery tame_issue tame_cursor
  tame_outbound tame_stage tame_finalize tame_recover tame_cycle tame_ledgers tame_incomplete tame_completed : tame.

Lemma advances_settled d c row :
  settledPhase (ce_phase row) = true -> (routedPhase (ce_phase row) = true -> topicOf d c) -> advances d c row.
Proof. intros Hs Ht. split; [done|done|]. intros old _ Hp. by rewrite Hp in Hs. Qed.

Lemma advances_same d c old row :
  tgInv d -> tg_claims d !! c = Some old -> ce_phase row = ce_phase old -> advances d c row.
Proof.
  intros Hi Hold Hp. split; rewrite Hp.
  - by eapply iv_claims.
  - intros old' Hold'. by simplify_eq.
  - intros old' Hold'. by simplify_eq.
Qed.

Lemma tame_update K c when f :
  (forall d row, tgInv d -> K d -> tg_claims d !! c = Some row -> when row = true -> advances d c (f row)) ->
  tame K (updateClaim c when f).
Proof.
  intros Hf d n d' Hi HKd [[-> _]|(row & Hrow & Hw & _ & ->)]%updateClaim_ok; [done|]. apply claim_step; [done|]. by apply Hf.
Qed.

Lemma tame_thread_update K c when f :
  (forall row, ce_phase (f row) = ClaimPhaseTopicCreated) -> tame K (updateClaim c when f).
Proof. intros Hf. apply tame_update. intros d row _ _ _ _. apply advances_settled; by rewrite Hf. Qed.

Lemma tame_insert K c name skip : tame K (insertExecution c name skip).
Proof.
  intros d a d' Hi _ Ho. unfold insertExecution in Ho. st_cases; [done|]. apply claim_step; [done|].
  unfold has in Heqb. destruct (tg_claims d !! c) eqn:Hc; [done|].
  split; [done|intros; congruence..].
Qed.
#[export] Hint Resolve tame_insert : tame.

Lemma tame_name K c name : tame K (PersistClaimDisplayName c name).
Proof.
  intros d a d' Hi HKd Ho. unfold PersistClaimDisplayName in Ho. st_inv Ho.
  eapply (tame_update K); [|exact Hi|exact HKd|exact Hm]. intros. by eapply advances_same.
Qed.

Lemma tame_thread K c chatID threadID : tame K (PersistClaimThread c chatID threadID).
Proof.
  intros d a d' Hi HKd Ho. unfold PersistClaimThread in Ho. st_inv Ho. by eapply (tame_thread_update K); [|exact Hi|exact HKd|eassumption].
Qed.

Lemma tame_adoptReserved K c : tame K (PersistClaimAdoptReserved c).
Proof.
  intros d a d' Hi HKd Ho. unfold PersistClaimAdoptReserved in Ho. st_inv Ho.
  eapply (tame_update K); [|exact Hi|exact HKd|eassumption]. intros d0 row Hi0 _ Hrow Hp. apply bool_decide_eq_true in Hp.
  apply advances_settled; [done|]. intros _. eapply iv_claims; [done..|]. by rewrite Hp.
Qed.

Lemma tame_pending K c name : stable K -> tame K (InsertPendingExecution c name).
Proof. intros HK. unfold InsertPendingExecution. apply tame_bind; auto with tame. Qed.

Lemma tame_tokens K f : tame K (st_write (fun d => set_tokens (f d) d)).
Proof. quiet. Qed.

Lemma tame_reserve raw now : tame anything (ReserveClaimAndConsumeToken raw now).
Proof.
  unfold ReserveClaimAndConsumeToken. case_match; [apply tame_ret|]. apply tame_bind; [done|apply tame_read|]. intros tokens.
  repeat case_match; auto with tame. apply tame_bind; [done|apply tame_insert|]. intros _.
  apply tame_bind; [done|apply (tame_tokens _ (fun _ => _))|]. intros _. apply tame_ret.
Qed.

Lemma blocked_free d chatID threadID c d' u :
  RouteBlocked chatID threadID c d = inr (u, d') ->
  d' = d /\ forall c', tg_routes d !! (chatID, threadID) = Some c' -> c' <> c -> claimProtectsRoute d c' = false.
Proof.
  unfold RouteBlocked. intros Ho. st_inv Ho. destruct (tg_routes d !! _) as [c0|] eqn:Hr.
  - case_bool_decide; st_inv Ho; (split; [done|]); intros c' ? ?; simplify_eq; done.
  - st_inv Ho. done.
Qed.

Lemma tame_route K chatID threadID c : tame K (SetRoute chatID threadID c).
Proof.
  intros d a d' Hi HKd Ho. unfold SetRoute in Ho. st_inv Ho. rename Hm0 into Hb, Hm1 into Hins, Hm2 into Hup.
  apply blocked_free in Hb as [-> Hfree]. destruct (route_step _ _ _ _ _ _ Hi Hins Hfree) as (Hi1 & He1 & Hs1 & _).
  eapply (tame_thread_update anything) in Hup as (Hi2 & He2 & Hs2); [|done..].
  split_and!; [done|by etrans|]. intros k. specialize (Hs1 k). specialize (Hs2 k). lia.
Qed.

(** An update of every claim of [c] whose route is there. *)
Lemma routed_update d c f n d' :
  tgInv d -> topicOf d c -> (forall row, ce_phase (f row) = ClaimPhaseRoutePersisted) ->
  updateClaim c always f d = inr (n, d') ->
  tgInv d' /\ evolves d d' /\ (forall k, slot d' k <= slot d k) /\ (is_Some (tg_claims d !! c) -> routed d' c).
Proof.
  intros Hi Ht Hf Ho. assert (tame (fun d => topicOf d c) (updateClaim c always f)) as Htame.
  { apply tame_update. intros d0 row _ Ht0 _ _. apply advances_settled; by rewrite Hf. }
  destruct (Htame _ _ _ Hi Ht Ho) as (Hi' & He & Hs). split_and!; [done..|]. intros [row Hrow].
  unfold updateClaim in Ho. st_inv Ho. rewrite Hrow in Ho. cbn in Ho. st_inv Ho. split.
  - exists (f row). cbn. by rewrite lookup_insert_eq, Hf.
  - done.
Qed.

Lemma persist_route d chatID threadID c u d' :
  tgInv d -> PersistClaimRoute chatID threadID c d = inr (u, d') ->
  tgInv d' /\ evolves d d' /\ (forall k, slot d' k <= slot d k) /\ (is_Some (tg_claims d !! c) -> routed d' c).
Proof.
  intros Hi Ho. unfold PersistClaimRoute in Ho. st_inv Ho.
  apply orb_false_iff in Hm as [_ Hpos%Z.leb_gt]. case_match eqn:Hex; [destruct p as [chat thr]|]; st_inv Ho.
  - destruct (routeOf _ c) as [[chat' thr']|] eqn:Hr; [|done]. case_match eqn:Hthr; [|done]. simplify_eq.
    eapply routed_update; [done| | |eassumption]; [|done]. exists chat, thr. split; [by apply routeOf_some|lia].
  - destruct (tg_routes d !! (chatID, threadID)) as [bound|] eqn:Hb.
    + st_inv Hm. apply negb_false_iff, bool_decide_eq_true in Hm. subst.
      eapply routed_update; [done| | |eassumption]; [|done]. by exists chatID, threadID.
    + destruct (route_step _ _ _ _ _ _ Hi Hm) as (Hi1 & He1 & Hs1 & Hc1 & Hr1); [by rewrite Hb|].
      rename Hm0 into Hup. eapply routed_update in Hup as (Hi2 & He2 & Hs2 & Hr2); [|done|by exists chatID, threadID|done].
      split_and!; [done|by etrans| |by rewrite <-Hc1]. intros k. specialize (Hs1 k). specialize (Hs2 k). lia.
Qed.

Lemma adopt_route d c allowedUserID t d' :
  tgInv d -> AdoptExistingRoute c allowedUserID d = inr (t, d') ->
  tgInv d' /\ evolves d d' /\ (forall k, slot d' k <= slot d k) /\ routed d' c.
Proof.
  intros Hi Ho. unfold AdoptExistingRoute, adoptClaim in Ho. st_inv Ho.
  destruct (routeOf _ c) as [[chat thr]|] eqn:Hr; [|by st_inv Ho]. st_inv Ho. apply Z.leb_gt in Hm0.
  assert (topicOf d c) as Ht by (exists chat, t; split; [by apply routeOf_some|lia]).
  match goal with |- tgInv (set_claims (<[_ := ?row]> _) _) /\ _ => assert (settledPhase (ce_phase row) = true) as Hset end.
  { destruct (tg_claims d !! c) as [old|]; [|done]. cbn. unfold inPhase. case_bool_decide as Hp; cbn; by rewrite ?Hp. }
  match goal with |- tgInv (set_claims (<[_ := ?row]> _) _) /\ _ =>
    destruct (claim_step d c row Hi) as (Hi' & He & Hs); [by apply advances_settled|] end.
  split_and!; [done..|]. split; [|done]. eexists. cbn. rewrite lookup_insert_eq. done.
Qed.

Lemma begin_creating d c allowedUserID r d' :
  tgInv d -> BeginClaimCreating c allowedUserID d = inr (r, d') ->
  tgInv d' /\ evolves d d' /\ forall k, slot d' k + (match r with Some _ => none | None => one c end) k <= slot d k.
Proof.
  intros Hi Ho. unfold BeginClaimCreating in Ho. st_inv Ho. case_match eqn:Hex; [destruct p as [chat thr]|]; st_inv Ho.
  - eapply (tame_thread_update anything) in Hm1 as (Hi' & He & Hs); [|done..]. split_and!; [done..|].
    intros k. specialize (Hs k). unfold none. lia.
  - rename Hm0 into Hup, Hm1 into Hone. apply negb_false_iff, Z.eqb_eq in Hone.
    apply updateClaim_ok in Hup as [[_ Hz]|(row & Hrow & Hw & _ & ->)]; [lia|].
    apply andb_true_iff in Hw as [Hp%bool_decide_eq_true _].
    destruct (claim_step d c (with_phase ClaimPhaseCreating row) Hi) as (Hi' & He & Hs).
    { split; [done| |done]. intros old Hold. simplify_eq. by rewrite Hp. }
    split_and!; [done..|]. intros k. specialize (Hs k). unfold one. case_bool_decide as Hk; [subst k|cbn; lia].
    unfold slot. cbn. rewrite lookup_insert_eq, Hrow, Hp. by vm_compute.
Qed.

Lemma clear_creating d c u d' :
  tgInv d -> ClearClaimCreating c d = inr (u, d') ->
  tgInv d' /\ evolves d d' /\ forall k, slot d' k <= slot d k + one c k.
Proof.
  intros [H1 H2] Ho. unfold ClearClaimCreating in Ho. st_inv Ho. rename Hm0 into Hup.
  assert (forall k, 0 <= one c k) as Hpos by (intros k; unfold one; case_bool_decide; cbn; lia).
  apply updateClaim_ok in Hup as [[-> _]|(row & Hrow & Hw & _ & ->)].
  { split_and!; [done..|]. intros k. specialize (Hpos k). lia. }
  apply andb_true_iff in Hw as [Hp%bool_decide_eq_true _]. split_and!; [split|split|]; cbn.
  - done.
  - intros c0 row0 [[<- <-]|[Hne Hr]]%lookup_insert_Some; [done|]. by apply H2.
  - intros c0 Hc0. destruct (decide (c0 = c)) as [->|]; [rewrite lookup_insert_eq|rewrite lookup_insert_ne by done]; eauto.
  - intros c0 [(row0 & Hrow0 & Hs) Ht]. split; [|done]. exists row0. cbn. rewrite lookup_insert_ne; [done|].
    intros <-. simplify_eq. by rewrite Hp in Hs.
  - intros k. unfold slot, one. cbn. case_bool_decide as Hk; [subst k|by rewrite lookup_insert_ne, Z.add_0_r by done].
    rewrite lookup_insert_eq, Hrow, Hp. by vm_compute.
Qed.
