(* ===== verification/TelegramRuns.v ===== *)
(** * One topic per conversation

    In every run of gateway processes on one state at most one topic is created
    for a conversation, unless Telegram rejected the request, and a claim that
    says it is routed has its route. *)

From S2P Require Import Prelude Programs GoTime Text Tables Source Messages Deliveries Claims.
From S2P Require Import TelegramState TelegramHealth TelegramClaims TelegramBridge TelegramPool TelegramTopics.
Open Scope Z_scope.

(** ** What an executor knows of its claim *)

Definition known (e : ClaimExecution) (d : TgDb) : Prop :=
  is_Some (tg_claims d !! cx_ConversationID e) /\ (routedPhase (cx_Phase e) = true -> routed d (cx_ConversationID e)).

Lemma stable_known e : stable (known e).
Proof. intros d d' He [Hc Hr]. split; [by eapply el_claims|]. intros Hp. eapply el_routed; eauto. Qed.

Lemma known_unrouted e e' d :
  cx_ConversationID e' = cx_ConversationID e -> routedPhase (cx_Phase e') = false -> known e d -> known e' d.
Proof. intros Hc Hp [Hk _]. split; rewrite Hc; [done|]. by rewrite Hp. Qed.

Lemma known_same e e' d :
  cx_ConversationID e' = cx_ConversationID e -> cx_Phase e' = cx_Phase e -> known e d -> known e' d.
Proof. intros Hc Hp [Hk Hr]. split; rewrite Hc, ?Hp; done. Qed.

Lemma known_routed e e' d :
  cx_ConversationID e' = cx_ConversationID e -> routedPhase (cx_Phase e) = true -> known e d -> known e' d.
Proof. intros Hc Hp [Hk Hr]. split; rewrite Hc; auto. Qed.

Lemma known_read c row d : tgInv d -> tg_claims d !! c = Some row -> known (scanClaimExecution c row) d.
Proof.
  intros Hi Hrow. split; [by exists row|]. cbn. intros Hp. split; [|by eapply iv_claims].
  exists row. split; [done|]. by destruct (ce_phase row).
Qed.

(** Steps of a program that keep what is known. *)
Lemma wp_keep {A B} K (m : Prog (TgErr + A)) (f : A -> Prog (TgErr + B)) Q :
  wp none K m (onOk (fun _ => K)) -> (forall a, wp none K (f a) (onOk Q)) -> wp none K (tryBind f m) (onOk Q).
Proof. apply wp_onOk. Qed.

Lemma wp_keep_check {B} K b text (f : unit -> Prog (TgErr + B)) Q :
  wp none K (f tt) (onOk Q) -> wp none K (tryBind f (check b text)) (onOk Q).
Proof. intros Hf. apply wp_keep; [apply wp_check|by intros []]. Qed.

Lemma wp_keep_db {A B} K (op : T A) (f : A -> Prog (TgErr + B)) Q :
  stable K -> tame K op -> (forall a, wp none K (f a) (onOk Q)) -> wp none K (tryBind f (db op)) (onOk Q).
Proof. intros HK Ht Hf. apply wp_keep; [by apply wp_state|done]. Qed.

#[export] Hint Resolve stable_known stable_anything tame_name tame_thread tame_adoptReserved tame_pending tame_reserve tame_route : tame.

Ltac wp_step :=
  lazymatch goal with
  | |- wp _ _ (tryBind _ (check _ _)) _ => apply wp_keep_check
  | |- wp _ _ (tryBind _ (db _)) _ => apply wp_keep_db; [by auto with tame|by auto with tame|intros ?]
  | |- wp _ _ (call _ ≫= _) _ => apply wp_call; [by auto with tame|done|intros ?]
  | |- wp _ _ (failing _) _ => apply wp_failing
  | |- wp _ _ (failWith _) _ => by intros ?
  | |- wp _ _ (ok _) _ => apply wp_ok; intros ? ?
  | |- wp _ _ (match ?x with _ => _ end) _ => destruct x eqn:?
  | |- wp _ _ (let _ := _ in _) _ => cbv zeta
  end.

Section Executor.
Context (cl : ClaimExecutor).

Lemma recoverable_keeps e e' : wp none (known e) (localClaimRouteRecoverable cl e') (onOk (fun _ => known e)).
Proof. unfold localClaimRouteRecoverable, RouteForConversation. by repeat wp_step. Qed.

Lemma ensurePending_keeps e : wp none (known e) (ensurePending cl e) (onOk known).
Proof.
  unfold ensurePending. repeat wp_step; try done. apply wp_keep.
  - repeat wp_step; try done. apply wp_keep; [apply recoverable_keeps|intros recoverable; apply wp_check].
  - intros _. repeat wp_step; [done|]. by apply (known_same e).
Qed.

Lemma tame_complete K c : (forall d, K d -> routed d c) -> tame K (MarkClaimComplete c).
Proof.
  intros HK d u d' Hi HKd Ho. unfold MarkClaimComplete in Ho. st_inv Ho.
  eapply (tame_update K); [|exact Hi|exact HKd|eassumption]. intros d0 row _ HK0 _ _.
  apply advances_settled; [done|]. intros _. by apply HK.
Qed.

Lemma tame_complete_known e : routedPhase (cx_Phase e) = true -> tame (known e) (MarkClaimComplete (cx_ConversationID e)).
Proof. intros Hp. apply tame_complete. intros d [_ Hr]. auto. Qed.

Lemma ensureAdoptReserved_keeps e :
  cx_Phase e = ClaimPhaseAdopting -> wp none (known e) (ensureAdoptReserved e) (onOk known).
Proof.
  intros Hp. assert (routedPhase (cx_Phase e) = true) as Hr by (by rewrite Hp).
  pose proof (tame_complete_known e Hr). unfold ensureAdoptReserved. repeat wp_step; by apply (known_routed e).
Qed.

Lemma takeRoute_keeps e :
  wp none (known e) (takeRoute cl e) (onOk (fun r d => match r with Some e' => known e' d | None => known e d end)).
Proof. unfold takeRoute, RouteForConversation. repeat wp_step; [|done..]. by apply (known_unrouted e). Qed.

(** After the call: the topic is recorded, or the fence is taken down with the
    permit of a rejected request. *)
Lemma created_keeps e chatID name (r : TgErr + Z) :
  wp (if topicMade (cx_ConversationID e) (Did (CreateForumTopic (cx_ConversationID e) chatID name) r) then none
      else one (cx_ConversationID e)) (known e)
    (let created := match r with inr threadID => if 0 <? threadID then Some threadID else None | inl _ => None end in
     match created with
     | Some threadID =>
         db (PersistClaimThread (cx_ConversationID e) chatID threadID) ⨟ ok (with_claim_topic chatID threadID e)
     | None =>
         if match r with inl e => definitivePreCreationRejection e | inr _ => false end then
           cleared ← db (ClearClaimCreating (cx_ConversationID e)); failing "telegram_create_forum_topic_failed"
         else failing "telegram_create_forum_topic_failed"
     end) (onOk known).
Proof.
  unfold topicMade. rewrite bool_decide_eq_true_2, andb_true_l by done. destruct r as [err|threadID]; cbv beta iota zeta.
  - destruct (definitivePreCreationRejection err); [|by intros ?]. cbn [negb].
    apply (wp_spend _ (fun _ => none)); [by auto with tame| |done| |done..].
    + intros x. unfold one. case_bool_decide; cbn; lia.
    + intros d u d' Hi _ Ho. destruct (clear_creating _ _ _ _ Hi Ho) as (Hi' & He & Hs). split_and!; [done..|].
      intros x. specialize (Hs x). unfold none. lia.
  - destruct (0 <? threadID); [|by intros ?]. repeat wp_step. by apply (known_unrouted e).
Qed.

Lemma createTopic_keeps e : wp none (known e) (createTopic cl e) (onOk known).
Proof.
  unfold createTopic. wp_step. wp_step; [|wp_step]. wp_step; [wp_step|].
  apply (wp_spend none (fun r => match r with Some _ => none | None => one (cx_ConversationID e) end)); [by auto with tame|done| | | |].
  - intros [?|] x; [done|]. unfold one. case_bool_decide; cbn; lia.
  - intros d r d' Hi _ Ho. destruct (begin_creating _ _ _ _ _ Hi Ho) as (Hi' & He & Hs). split_and!; [done..|].
    intros x. specialize (Hs x). unfold none at 2. lia.
  - intros [[chat thr]|]; [repeat wp_step; by apply (known_unrouted e)|]. apply wp_create; [by auto with tame|]. apply created_keeps.
  - intros e0. by repeat wp_step.
Qed.

Lemma executeReserved_keeps e : wp none (known e) (executeReserved cl e) (onOk known).
Proof.
  unfold executeReserved. eapply wp_onOk; [apply ensurePending_keeps|]. intros e'. cbv beta.
  wp_step; [wp_step; by apply (known_unrouted e')|]. eapply wp_onOk; [apply takeRoute_keeps|].
  intros [e''|]; [by intros ?|]. apply createTopic_keeps.
Qed.

Lemma executeCreating_keeps e : wp none (known e) (executeCreating cl e) (onOk known).
Proof.
  unfold executeCreating. wp_step; [wp_step; by apply (known_unrouted e)|]. eapply wp_onOk; [apply takeRoute_keeps|].
  by intros [e'|] ?.
Qed.

Lemma executeTopicCreated_keeps e : wp none (known e) (executeTopicCreated cl e) (onOk known).
Proof.
  unfold executeTopicCreated. wp_step. eapply (wp_onOk _ _ _ (fun _ d => is_Some (tg_claims d !! _) /\ routed d (cx_ConversationID e))).
  - apply wp_db; [by auto with tame| |done| |].
    + intros d a d' Hi _ Ho. by destruct (persist_route _ _ _ _ _ _ Hi Ho) as (? & ? & ? & _).
    + intros a d d' He [H1 H2]. split; [by eapply el_claims|by eapply el_routed].
    + intros d a d' Hi [Hc _] Ho _ He. destruct (persist_route _ _ _ _ _ _ Hi Ho) as (_ & _ & _ & Hr).
      split; [by eapply el_claims|auto].
  - intros a. cbv beta. wp_step. destruct H as [H1 H2]. split; cbn; auto.
Qed.

Lemma executeRoutePersisted_keeps e :
  cx_Phase e = ClaimPhaseRoutePersisted -> wp none (known e) (executeRoutePersisted e) (onOk (fun _ => anything)).
Proof.
  intros Hp. unfold executeRoutePersisted. wp_step. wp_step; [wp_step|].
  eapply wp_weaken; [done|done| |apply wp_state; [apply stable_known|apply tame_complete_known; by rewrite Hp]]. by intros [|] ?.
Qed.

Lemma whenPhase_keeps phase branch e :
  (cx_Phase e = phase -> wp none (known e) (branch e) (onOk known)) -> wp none (known e) (whenPhase phase branch e) (onOk known).
Proof. intros Hb. unfold whenPhase. case_bool_decide; [auto|]. by intros ?. Qed.

Lemma safe_mismatched c : safe (rejectMismatchedRoute cl c).
Proof.
  unfold rejectMismatchedRoute, RouteForConversation. eapply safe_wp. repeat wp_step. apply wp_check.
Qed.

Lemma safe_execute c : safe (ExecuteClaim cl c).
Proof.
  unfold ExecuteClaim. eapply safe_wp. wp_step.
  eapply (wp_onOk _ _ _ (fun r d => match r with Some e => known e d | None => True end)).
  { apply wp_db; [done|apply tame_read|done| |].
    - intros [e|]; [apply stable_known|done].
    - intros d r d' Hi _ [-> ->]%st_read_ok _ _. destruct (tg_claims d !! c) as [row|] eqn:Hrow; [|done]. by apply known_read. }
  intros [e|]; [|by intros ?]. cbv beta iota.
  wp_step; [eapply wp_weaken; [done| |done|apply safe_onOk, safe_mismatched]; done|].
  eapply wp_onOk; [apply whenPhase_keeps, ensureAdoptReserved_keeps|]. clear. intros e. cbv beta.
  eapply wp_onOk; [apply whenPhase_keeps; intros _; apply executeReserved_keeps|]. clear. intros e. cbv beta.
  eapply wp_onOk; [apply whenPhase_keeps; intros _; apply executeCreating_keeps|]. clear. intros e. cbv beta.
  eapply wp_onOk; [apply whenPhase_keeps; intros _; apply executeTopicCreated_keeps|]. clear. intros e. cbv beta.
  case_bool_decide; [by apply executeRoutePersisted_keeps|]. by intros ?.
Qed.
End Executor.

(** ** Programs of the daemon *)

Create HintDb safe.
#[export] Hint Resolve safe_execute safe_mismatched : safe.

Ltac safe_step :=
  lazymatch goal with
  | |- safe (tryBind _ _) => apply safe_try; [|intros ?]
  | |- safe (mbind _ _) => apply safe_bind; [|intros ?]
  | |- safe (db _) => apply safe_db; by auto with tame
  | |- safe (call _) => by apply safe_call
  | |- safe (match ?x with _ => _ end) => destruct x eqn:?
  | |- safe (let _ := _ in _) => cbv zeta
  | |- safe (mret _) => apply safe_ret
  | |- safe (ok _) => apply safe_ret
  | |- safe (failWith _) => apply safe_ret
  | |- safe (failing _) => apply safe_ret
  | |- safe (check _ _) => unfold check
  | |- safe _ => by auto with safe
  end.
Ltac safe_go := repeat safe_step.

Section Daemon.
Context (cl : ClaimExecutor) (g : Gateway).

Lemma safe_mismatches l : safe (rejectMismatches cl l).
Proof. induction l; cbn [rejectMismatches]; safe_go; done. Qed.
Lemma safe_executeAll l : safe (executeAll cl l).
Proof. induction l; cbn [executeAll]; safe_go; done. Qed.
Lemma safe_resume : safe (ResumeAll cl).
Proof.
  unfold ResumeAll, rejectCompletedRouteMismatches, completedRouteCursor, resumeClaimCursor, readCursor,
    setCompletedRouteCursor, setResumeClaimCursor. safe_go; auto using safe_mismatches, safe_executeAll.
Qed.
Lemma safe_startClaims l n : safe (startClaims cl n l).
Proof. revert n. induction l; intros n; cbn [startClaims]; unfold ReadClaimExecution; safe_go; done. Qed.
Lemma safe_start : safe (StartPending cl).
Proof.
  unfold StartPending, pendingClaimCursor, readCursor, setPendingClaimCursor. safe_go; auto using safe_startClaims.
Qed.

Lemma safe_inert updateID : safe (markInert updateID).
Proof. unfold markInert. safe_go. Qed.
Lemma safe_answer callbackID text : safe (answerCallback g callbackID text).
Proof. unfold answerCallback. safe_go. Qed.
Lemma safe_operator text keyboard : safe (sendOperator g text keyboard).
Proof. unfold sendOperator. safe_go. Qed.
Lemma safe_buttons now l : safe (issueButtons now l).
Proof. induction l; cbn [issueButtons]; safe_go; done. Qed.
End Daemon.
#[export] Hint Resolve safe_resume safe_start safe_inert safe_answer safe_operator safe_buttons : safe.

Section Gateway.
Context (g : Gateway).

Lemma safe_submit endpoint submission : safe (SubmitToRelay endpoint submission).
Proof. unfold SubmitToRelay, LookupOutbound. safe_go. Qed.
Hint Resolve safe_submit : safe.

Lemma safe_handle update : safe (Handle g update).
Proof. unfold Handle, handleCallback, handleCommand, handleList, handleText, Processed, Route. safe_go. Qed.
Hint Resolve safe_handle : safe.

Lemma safe_handleAll updates events next : safe (handleAll g events next updates).
Proof. revert events next. induction updates; intros; cbn [handleAll]; safe_go; done. Qed.
Hint Resolve safe_handleAll : safe.

Lemma safe_sendParts chatID threadID m parts : safe (sendParts chatID threadID m parts).
Proof. induction parts; cbn [sendParts]; safe_go; done. Qed.
Hint Resolve safe_sendParts : safe.

Lemma safe_bridgeAll allowed deliveries o : safe (bridgeAll allowed o deliveries).
Proof.
  revert o. induction deliveries; intros; cbn [bridgeAll]; unfold bridgeDelivery, SendDelivery, RouteForConversation; safe_go; done.
Qed.
Hint Resolve safe_bridgeAll : safe.

Lemma safe_turn offset : safe (gatewayTurn g offset).
Proof. unfold gatewayTurn, SyncOnce, claimsStep, RunOnce. safe_go. Qed.
End Gateway.

Lemma safe_adopt c allowedUserID : safe (Adopt c allowedUserID).
Proof.
  unfold Adopt. apply (safe_wp _ (fun _ d => routed d c)). wp_step. unfold RouteForConversation. wp_step. wp_step; [|by intros ?]. wp_step. wp_step. wp_step.
  eapply (wp_onOk _ _ _ (fun _ d => routed d c)).
  { apply wp_db; [done| |done| |].
    - intros d t d' Hi _ Ho. by destruct (adopt_route _ _ _ _ _ Hi Ho) as (? & ? & ? & _).
    - intros t d d' He. apply He.
    - intros d t d' Hi _ Ho _ _. by destruct (adopt_route _ _ _ _ _ Hi Ho) as (_ & _ & _ & ?). }
  intros t. assert (stable (fun d => routed d c)) as Hst by (intros d d' He; apply He).
  assert (tame (fun d => routed d c) (MarkClaimComplete c)) as Hcomplete by (by apply tame_complete).
  unfold ReadClaimExecution. cbv beta. repeat wp_step; first [exact H | by apply wp_state].
Qed.

Lemma entry_safe t d : entry t -> tgInv d -> threadOk d t none.
Proof.
  intros [g offset|chatID threadID c|c allowed|] _; apply safe_thread.
  - apply safe_turn.
  - apply safe_db; auto with tame.
  - apply safe_adopt.
  - apply safe_db; auto with tame.
Qed.

(** ** Runs *)

Lemma noPool_inv : poolInv noPool [].
Proof. split; cbn; [|constructor|by unfold topicsMade, slot]. split; cbn; intros *; by rewrite lookup_empty. Qed.

Lemma pool_inv s : rtc pool_step noPool s -> exists πs, poolInv s πs.
Proof.
  refine (rtc_ind_r (fun s => exists πs, poolInv s πs) noPool _ _ s); [exists []; apply noPool_inv|].
  intros s1 s2 _ Hstep [πs Hi]. eapply poolInv_step; [apply entry_safe|done|done].
Qed.

(** C13: In every run of gateway turns, adopt and route commands on one state, with
    calls interleaved, processes stopped anywhere, and answers of Telegram, the
    relay and the database arbitrary or lost, at most one topic was or may have
    been created for a conversation. *)
Theorem one_topic s c : rtc pool_step noPool s -> topicsMade c (po_trace s) <= 1.
Proof.
  intros [πs [_ Hts Htop]]%pool_inv. specialize (Htop c).
  assert (0 <= slot (po_db s) c) by (unfold slot; case_match; [apply indicator_nonneg|lia]).
  assert (0 <= lsum (fun π : permits => π c) πs).
  { clear -Hts. induction Hts as [|[A p] π ts πs [Hp _] _ IH]; cbn; [lia|]. specialize (Hp c). lia. }
  lia.
Qed.

(** C26: In every such run the state binds a conversation to one topic, and a claim
    that is being adopted, routed or complete has its topic. *)
Theorem claims_routed s :
  rtc pool_step noPool s ->
  (forall k1 k2 c, tg_routes (po_db s) !! k1 = Some c -> tg_routes (po_db s) !! k2 = Some c -> k1 = k2) /\
  (forall c row, tg_claims (po_db s) !! c = Some row -> routedPhase (ce_phase row) = true ->
    exists chatID threadID, tg_routes (po_db s) !! (chatID, threadID) = Some c /\ 0 < threadID).
Proof. intros [πs [[H1 H2] _ _]]%pool_inv. split; [exact H1|exact H2]. Qed.
