(* ===== verification/TelegramMail.v ===== *)
(** * Mail through the Telegram gateway

    A delivery is acknowledged only after all of it was sent, or after its
    rejection was recorded; an update is confirmed only after it was handled;
    and the parts of a delivery are its text. *)

From S2P Require Import Prelude Programs GoTime Text Tables Source Messages Deliveries Claims.
From S2P Require Import TelegramState TelegramHealth TelegramClaims TelegramBridge TelegramPool TelegramTopics.
Open Scope Z_scope.

(** ** Runs of one program *)

(** A reply the state or the outside can give. *)
Definition possible (R : Type) (c : Call R) (r : R) : Prop := exists d d', replies d c r d'.

Abbreviation runs := (Programs.runs possible).
Abbreviation tw := (Programs.tw possible).

(** ** Acknowledgements *)

Definition sentPart (chatID threadID : Z) (part : list Z) (messageID : Z) : Event :=
  Did (SendRichMessage chatID threadID part) (inr messageID).

(** All parts of the delivery went to one topic, in order. *)
Definition sentWhole (delivery : Delivery) (tr : list Event) : Prop :=
  exists chatID threadID messageIDs,
    let m := v_Message delivery in
    let parts := renderDelivery (senderOf m) (g_Body m) in
    length messageIDs = length parts /\ zip_with (sentPart chatID threadID) parts messageIDs `sublist_of` tr /\
    Did (Database (RouteForConversation (g_ConversationID m))) (inr (Some (chatID, threadID))) ∈ tr.

(** Its permanent rejection by Telegram is on record. *)
Definition rejectionStaged (delivery : Delivery) (tr : list Event) : Prop :=
  exists class, Did (Database (StageTerminalOutbound (v_ID delivery) (g_ConversationID (v_Message delivery)) class)) (inr tt) ∈ tr.

Definition ackOk (past : list Event) (R : Type) (c : Call R) : Prop :=
  match c with Ack delivery => sentWhole delivery past \/ rejectionStaged delivery past | _ => True end.

(** Programs that acknowledge nothing. *)
Definition ackless {A} (p : Prog A) : Prop := forall past, tw ackOk past p (fun _ _ => True).

Definition notAck {R} (c : Call R) : bool := match c with Ack _ => false | _ => true end.

Lemma ackless_ret {A} (a : A) : ackless (mret a).
Proof. done. Qed.
Lemma ackless_call {R} (c : Call R) : notAck c = true -> ackless (call c).
Proof. intros Hc past. split; [by destruct c|done]. Qed.
Lemma ackless_bind {A B} (p : Prog A) (f : A -> Prog B) : ackless p -> (forall a, ackless (f a)) -> ackless (p ≫= f).
Proof. intros Hp Hf past. eapply tw_bind; [apply Hp|]. intros a past' _. apply Hf. Qed.
Lemma ackless_try {A B} (m : Prog (TgErr + A)) (f : A -> Prog (TgErr + B)) :
  ackless m -> (forall a, ackless (f a)) -> ackless (tryBind f m).
Proof. intros Hm Hf. apply ackless_bind; [done|]. by intros [e|a]. Qed.

Create HintDb ackless.
Ltac ackless_step :=
  lazymatch goal with
  | |- ackless (tryBind _ _) => apply ackless_try; [|intros ?]
  | |- ackless (mbind _ _) => apply ackless_bind; [|intros ?]
  | |- ackless (db _) => by apply ackless_call
  | |- ackless (call _) => by apply ackless_call
  | |- ackless (match ?x with _ => _ end) => destruct x eqn:?
  | |- ackless (let _ := _ in _) => cbv zeta
  | |- ackless (mret _) => apply ackless_ret
  | |- ackless (ok _) => apply ackless_ret
  | |- ackless (failWith _) => apply ackless_ret
  | |- ackless (failing _) => apply ackless_ret
  | |- ackless (check _ _) => unfold check
  | |- ackless _ => by auto with ackless
  end.
Ltac ackless_go := repeat ackless_step.

Section Ackless.
Context (cl : ClaimExecutor) (g : Gateway).

Lemma ackless_mismatched c : ackless (rejectMismatchedRoute cl c).
Proof. unfold rejectMismatchedRoute. ackless_go. Qed.
Hint Resolve ackless_mismatched : ackless.

Lemma ackless_execute c : ackless (ExecuteClaim cl c).
Proof.
  unfold ExecuteClaim, whenPhase, ensureAdoptReserved, executeReserved, ensurePending, localClaimRouteRecoverable,
    executeCreating, takeRoute, createTopic, executeTopicCreated, executeRoutePersisted. ackless_go.
Qed.
Hint Resolve ackless_execute : ackless.

Lemma ackless_mismatches l : ackless (rejectMismatches cl l).
Proof. induction l; cbn [rejectMismatches]; ackless_go; done. Qed.
Lemma ackless_executeAll l : ackless (executeAll cl l).
Proof. induction l; cbn [executeAll]; ackless_go; done. Qed.
Lemma ackless_startClaims l n : ackless (startClaims cl n l).
Proof. revert n. induction l; intros n; cbn [startClaims]; ackless_go; done. Qed.
Hint Resolve ackless_mismatches ackless_executeAll ackless_startClaims : ackless.

Lemma ackless_resume : ackless (ResumeAll cl).
Proof. unfold ResumeAll, rejectCompletedRouteMismatches. ackless_go. Qed.
Lemma ackless_start : ackless (StartPending cl).
Proof. unfold StartPending. ackless_go. Qed.

Lemma ackless_buttons now l : ackless (issueButtons now l).
Proof. induction l; cbn [issueButtons]; ackless_go; done. Qed.
Hint Resolve ackless_buttons : ackless.
End Ackless.
#[export] Hint Resolve ackless_execute ackless_resume ackless_start ackless_buttons : ackless.

Lemma ackless_handle g update : ackless (Handle g update).
Proof.
  unfold Handle, handleCallback, handleCommand, handleList, handleText, markInert, answerCallback, sendOperator, SubmitToRelay.
  ackless_go.
Qed.
#[export] Hint Resolve ackless_handle : ackless.

Lemma ackless_handleAll g updates events next : ackless (handleAll g events next updates).
Proof. revert events next. induction updates; intros; cbn [handleAll]; ackless_go; done. Qed.
#[export] Hint Resolve ackless_handleAll : ackless.

Lemma sendParts_sends chatID threadID m parts past :
  tw ackOk past (sendParts chatID threadID m parts) (fun r past' =>
    match r with
    | inl _ => True
    | inr _ => exists messageIDs tail, past' = past ++ tail /\ length messageIDs = length parts /\
        zip_with (sentPart chatID threadID) parts messageIDs `sublist_of` tail
    end).
Proof.
  revert past. induction parts as [|part parts IH]; intros past; cbn [sendParts].
  { exists [], []. by rewrite app_nil_r. }
  split; [done|]. intros [e|messageID] _; [done|]. split; [done|]. intros now _. split; [done|]. intros [e|[]] _; [done|].
  eapply tw_weaken; [|apply IH]. intros [e|[]] past'; [done|]. intros (ids & tail & -> & Hlen & Hsub).
  eexists (messageID :: ids), _. split; [by rewrite <-!app_assoc|]. split; [cbn; lia|].
  cbn. by do 2 constructor; constructor.
Qed.

Lemma SendDelivery_sends delivery allowed past :
  tw ackOk past (SendDelivery delivery allowed) (fun r past' => match r with inl _ => True | inr _ => sentWhole delivery past' end).
Proof.
  unfold SendDelivery. cbv zeta. case_match; [done|]. split; [done|]. intros [e|[[chatID threadID]|]] _; [done| |done].
  cbn -[tw sendParts renderDelivery senderOf sentWhole]. unfold check. case_match; [done|]. eapply tw_weaken; [|apply sendParts_sends]. intros [e|[]] past'; [done|].
  intros (ids & tail & -> & Hlen & Hsub). exists chatID, threadID, ids. split; [done|]. split; [by apply sublist_inserts_l|].
  rewrite !elem_of_app, list_elem_of_singleton. auto.
Qed.

Lemma sentWhole_later delivery tr ev : sentWhole delivery tr -> sentWhole delivery (tr ++ [ev]).
Proof.
  intros (chatID & threadID & ids & Hlen & Hsub & Hin). exists chatID, threadID, ids. split; [done|].
  split; [by apply sublist_inserts_r|]. apply elem_of_app. auto.
Qed.

Lemma bridgeDelivery_acks allowed o delivery past : tw ackOk past (bridgeDelivery allowed o delivery) (fun _ _ => True).
Proof.
  unfold bridgeDelivery. eapply tw_bind; [apply SendDelivery_sends|]. intros [e|[]] past' Hsent.
  - case_match; [|done]. split; [done|]. intros [e'|[]] _; [done|]. split.
    { right. eexists. apply elem_of_app. right. by apply list_elem_of_singleton. }
    intros [e'|[]] _; [done|]. split; [done|]. by intros [e'|[]] _.
  - split; [done|]. intros [e'|[]] _; [done|]. split; [by left; apply sentWhole_later|]. by intros [e'|[]] _.
Qed.

Lemma bridgeAll_acks allowed deliveries o past : tw ackOk past (bridgeAll allowed o deliveries) (fun _ _ => True).
Proof.
  revert o past. induction deliveries as [|delivery deliveries IH]; intros o past; [done|]. cbn [bridgeAll].
  eapply tw_bind; [apply bridgeDelivery_acks|]. intros [o' [stop|]] past' _; [done|]. apply IH.
Qed.

Ltac step_true := eapply (tw_bind _ _ _ _ _ (fun _ _ => True)).

Lemma turn_acks g offset past : tw ackOk past (gatewayTurn g offset) (fun _ _ => True).
Proof.
  unfold gatewayTurn. step_true.
  - unfold SyncOnce. case_match; [done|]. step_true; [by split|]. intros [e|[]] past0 _; [done|]. step_true.
    { assert (ackless (claimsStep g)) as Ha; [|apply Ha]. unfold claimsStep. ackless_go. }
    intros [e|[]] past1 _; [done|]. step_true.
    { assert (ackless (RunOnce g offset)) as Ha; [|apply Ha]. unfold RunOnce. ackless_go. }
    intros [events [e|next]] past2 _; [done|]. step_true; [by split|]. intros [e|deliveries] past3 _; [done|].
    eapply tw_bind; [apply bridgeAll_acks|]. by intros [o [[phase e]|]] past4 _.
  - intros outcome past' _. match goal with |- tw _ _ ?p _ => assert (ackless p) as Ha; [ackless_go|apply Ha] end.
Qed.


(** ** Updates *)

(** Text of the allowed user, outside of buttons and commands. *)
Definition ordinaryText (g : Gateway) (u : Update) : bool :=
  bool_decide (up_CallbackID u = "") && (up_UserID u =? gw_AllowedUserID g) && negb (up_IsCommand u) && negb (blank (up_Text u)).

(** The message an update becomes. *)
Definition messageOf (u : Update) (conversationID : string) (m : InboundMessage) : Prop :=
  im_ConversationID m = conversationID /\ im_Body m = up_Text u /\ im_TelegramThreadID m = up_ThreadID u /\
  im_IdempotencyKey m = "telegram-update:" +:+ decimal (up_ID u).

(** Why an update may be forgotten: it was processed before; there is nothing to
    send; or the relay took it, or refused it for good, and then it was marked. *)
Inductive handled (g : Gateway) (tr : list Event) (u : Update) : Prop :=
  | handled_before : Did (Database (Processed (up_ID u))) (inr true) ∈ tr -> handled g tr u
  | handled_inert :
      ordinaryText g u = false -> Did (Database (MarkProcessed (up_ID u))) (inr tt) ∈ tr -> handled g tr u
  | handled_unrouted :
      [Did (Database (Route (up_ChatID u) (up_ThreadID u))) (inr None);
       Did (Database (MarkProcessed (up_ID u))) (inr tt)] `sublist_of` tr -> handled g tr u
  | handled_sent c m :
      messageOf u c m ->
      [Did (Database (Route (up_ChatID u) (up_ThreadID u))) (inr (Some c)); Did (SendTelegramInbound m) (inr tt);
       Did (Database (MarkProcessedInboundRecovery (up_ID u) c)) (inr tt)] `sublist_of` tr -> handled g tr u
  | handled_refused c m :
      messageOf u c m ->
      [Did (Database (Route (up_ChatID u) (up_ThreadID u))) (inr (Some c)); Did (SendTelegramInbound m) (inl (TgRelay true));
       Did (Database (MarkProcessedTerminalInbound (up_ID u) c)) (inr tt)] `sublist_of` tr -> handled g tr u.

Lemma handled_later g tr tail u : handled g tr u -> handled g (tr ++ tail) u.
Proof.
  intros [H|Ho H|H|c m Hm H|c m Hm H].
  - apply handled_before, elem_of_app. auto.
  - apply handled_inert; [done|]. apply elem_of_app. auto.
  - apply handled_unrouted. by apply sublist_inserts_r.
  - eapply handled_sent; [done|]. by apply sublist_inserts_r.
  - eapply handled_refused; [done|]. by apply sublist_inserts_r.
Qed.

Lemma tw_db {A B} past (op : T A) (f : A -> Prog (TgErr + B)) (Q : TgErr + B -> list Event -> Prop) :
  (forall e past', Q (inl e) past') ->
  (forall a, tw free (past ++ [Did (Database op) (inr a)]) (f a) Q) -> tw free past (tryBind f (db op)) Q.
Proof. intros Hl Hr. split; [done|]. intros [e|a] _; [apply Hl|apply Hr]. Qed.

Lemma tw_check {B} past b text (f : unit -> Prog (TgErr + B)) (Q : TgErr + B -> list Event -> Prop) :
  Q (inl (TgFailed text)) past -> tw free past (f tt) Q -> tw free past (tryBind f (check b text)) Q.
Proof. by destruct b. Qed.

Section Updates.
Context (g : Gateway).

Definition handles {A} (u : Update) (r : TgErr + A) (past : list Event) : Prop :=
  match r with inl _ => True | inr _ => handled g past u end.

Lemma inert_handled u past : ordinaryText g u = false -> tw free past (markInert (up_ID u)) (handles u).
Proof.
  intros Ho. apply tw_db; [done|]. intros []. apply handled_inert; [done|]. rewrite elem_of_app, list_elem_of_singleton. auto.
Qed.

Lemma callback_handled u past : up_CallbackID u <> "" -> tw free past (handleCallback g u) (handles u).
Proof.
  intros Hc. assert (ordinaryText g u = false) as Ho by (unfold ordinaryText; by rewrite bool_decide_eq_false_2).
  unfold handleCallback. case_match; [apply tw_then; intros; by apply inert_handled|]. apply tw_then. intros now tail.
  apply tw_db; [done|]. intros [c|]; [|apply tw_then; intros; by apply inert_handled]. apply tw_then. intros _ tail2.
  apply tw_db; [done|]. intros []. assert (forall tr, handled g (tr ++ [Did (Database (MarkProcessed (up_ID u))) (inr tt)]) u) as Hh.
  { intros tr. apply handled_inert; [done|]. rewrite elem_of_app, list_elem_of_singleton. auto. }
  case_match; [|apply Hh]. apply tw_then. intros r tail3. apply handled_later, Hh.
Qed.

Lemma command_handled u past : up_IsCommand u = true -> tw free past (handleCommand g u) (handles u).
Proof.
  intros Hc. assert (ordinaryText g u = false) as Ho by (unfold ordinaryText; by rewrite Hc, andb_false_r).
  unfold handleCommand. repeat case_match; try (by apply inert_handled);
    (apply tw_then; intros [e|[]] tail; [done|by apply inert_handled]).
Qed.

Definition submitted (u : Update) (c : string) (r : TgErr + unit) (tail : list Event) : Prop :=
  match r with
  | inr _ => exists m, messageOf u c m /\ Did (SendTelegramInbound m) (inr tt) ∈ tail
  | inl e => isPermanentRelayFailure e = true -> exists m, messageOf u c m /\ Did (SendTelegramInbound m) (inl e) ∈ tail
  end.

Lemma lookup_fails chatID messageID e : possible _ (Database (LookupOutbound chatID messageID)) (inl e) -> e = TgDatabase.
Proof. intros (d & d' & Hr). cbn in Hr. by inversion Hr. Qed.

Lemma submit_submits u c past :
  tw free past (SubmitToRelay (gw_Endpoint g) {| su_UpdateID := up_ID u; su_ConversationID := c; su_Text := up_Text u;
      su_ChatID := up_ChatID u; su_ThreadID := up_ThreadID u; su_ReplyToID := up_ReplyToID u |})
    (fun r past' => exists tail, past' = past ++ tail /\ submitted u c r tail).
Proof.
  assert (forall past2 tail reply, past2 = past ++ tail -> tw free past2 (call (SendTelegramInbound {|
    im_ConversationID := c; im_FromEndpoint := gw_Endpoint g; im_FromParticipant := TelegramUserParticipant; im_Body := up_Text u;
    im_InReplyToMessageID := fst reply; im_InReplyToEndpoint := snd reply; im_TelegramThreadID := up_ThreadID u;
    im_IdempotencyKey := "telegram-update:" +:+ decimal (up_ID u) |}))
    (fun r past' => exists tail, past' = past ++ tail /\ submitted u c r tail)) as Hsend.
  { intros past2 tail reply ->. split; [done|]. intros r _. eexists. split; [by rewrite <-app_assoc|].
    destruct r as [e|[]]; [intros _|]; (eexists; split; [|rewrite elem_of_app, list_elem_of_singleton; by right]); by split_and!. }
  unfold SubmitToRelay. apply tw_check; [exists []; by rewrite app_nil_r|]. cbn [su_ReplyToID].
  case_match; [|by apply (Hsend _ [] ("", "")); rewrite app_nil_r].
  apply (tw_try _ _ _ _ _ (fun r past' => exists tail, past' = past ++ tail /\
    match r with inl e => isPermanentRelayFailure e = false | inr _ => True end)).
  - split; [done|]. intros [e|ref] Hpos; [apply lookup_fails in Hpos as ->; by eexists|]. cbn. repeat case_match; by eexists.
  - intros e past' (tail & -> & He). exists tail. split; [done|]. cbn. by rewrite He.
  - intros reply past' (tail & -> & _). by apply (Hsend _ tail reply).
Qed.

Lemma text_handled u c past :
  tw free (past ++ [Did (Database (Route (up_ChatID u) (up_ThreadID u))) (inr (Some c))]) (handleText g u c) (handles u).
Proof.
  unfold handleText. eapply tw_bind; [apply submit_submits|]. intros r past' (tail & -> & Hs).
  assert (forall m r ev, Did (SendTelegramInbound m) r ∈ tail ->
    [Did (Database (Route (up_ChatID u) (up_ThreadID u))) (inr (Some c)); Did (SendTelegramInbound m) r; ev] `sublist_of`
    ((past ++ [Did (Database (Route (up_ChatID u) (up_ThreadID u))) (inr (Some c))]) ++ tail) ++ [ev]) as Hsub.
  { intros m r0 ev Hin. rewrite <-!app_assoc. apply sublist_inserts_l. cbn. constructor.
    apply (sublist_app [Did (SendTelegramInbound m) r0] tail [ev] [ev]); [|done]. by apply singleton_sublist_l. }
  destruct r as [e|[]]; cbn in Hs.
  - case_match eqn:Hperm; [|done]. destruct (Hs eq_refl) as (m & Hm & Hin). apply tw_db; [done|]. intros [].
    eapply handled_refused; [exact Hm|]. destruct e as [| |[]| | |]; try done. by apply Hsub.
  - destruct Hs as (m & Hm & Hin). apply tw_db; [done|]. intros []. eapply handled_sent; [exact Hm|]. by apply Hsub.
Qed.

Lemma update_handled u past : tw free past (Handle g u) (handles u).
Proof.
  unfold Handle. apply tw_check; [done|]. apply tw_db; [done|]. intros [].
  { apply handled_before. rewrite elem_of_app, list_elem_of_singleton. auto. }
  case_match eqn:Hc; [apply callback_handled; by apply negb_true_iff, bool_decide_eq_false in Hc|].
  case_match eqn:Hu; [apply inert_handled; unfold ordinaryText; apply negb_true_iff in Hu; by rewrite Hu, andb_false_r|].
  case_match eqn:Hcmd; [by apply command_handled|].
  case_match eqn:Hb; [apply inert_handled; unfold ordinaryText; by rewrite Hb, andb_false_r|].
  apply tw_db; [done|]. intros [c|]; [apply text_handled|]. apply tw_db; [done|]. intros [].
  apply handled_unrouted. rewrite <-app_assoc. by apply sublist_inserts_l.
Qed.

(** The page is handled, and the offset is behind it. *)
Definition pageHandled (updates : list Update) (next : Z) (past : list Event) : Prop :=
  Forall (handled g past) updates /\
  (Forall (fun u => is_int64 (up_ID u) /\ up_ID u < int64_max) updates -> Forall (fun u => up_ID u < next) updates).

Lemma page_handled updates events next past :
  tw free past (handleAll g events next updates) (fun r past' =>
    match r.2 with
    | inl _ => True
    | inr next' => pageHandled updates next' past' /\
        (Forall (fun u => is_int64 (up_ID u) /\ up_ID u < int64_max) updates -> next <= next')
    end).
Proof.
  revert events next past. induction updates as [|u updates IH]; intros events next past; cbn [handleAll].
  { split; [split; [constructor|]|]; [constructor|lia]. }
  eapply tw_bind; [apply update_handled|]. intros [e|event] past' Hh; [done|]. eapply tw_weaken; [|apply tw_and; [apply IH|apply tw_grows]].
  intros [events' [e|next']] past'' [Hr [tail ->]]; [done|]. cbn in Hr. destruct Hr as [[Hf Hlt] Hle]. split; [split|].
  - constructor; [by apply handled_later|done].
  - intros [Hu Hus]%Forall_cons. constructor; [|by apply Hlt]. specialize (Hle Hus). destruct Hu as [Hu Hmax].
    rewrite wrap64_id in Hle by (unfold is_int64, int64_min, int64_max in *; lia). case_match eqn:Hn; lia.
  - intros [Hu Hus]%Forall_cons. specialize (Hle Hus). destruct Hu as [Hu Hmax].
    rewrite wrap64_id in Hle by (unfold is_int64, int64_min, int64_max in *; lia). case_match eqn:Hn; lia.
Qed.
End Updates.

(** The offset stays, or a page that was asked for at it is handled. *)
Definition confirms (g : Gateway) (offset next : Z) (past : list Event) : Prop :=
  next = offset \/ exists page, Did (Updates offset) (inr page) ∈ past /\ pageHandled g page next past.

Lemma confirms_later g offset next past tail : confirms g offset next past -> confirms g offset next (past ++ tail).
Proof.
  intros [->|(page & Hin & Hf & Hlt)]; [by left|]. right. exists page. split; [by apply elem_of_app; left|].
  split; [|done]. eapply Forall_impl; [exact Hf|]. intros u. apply handled_later.
Qed.

Lemma page_confirms g offset past :
  tw free past (RunOnce g offset) (fun r past' => match r.2 with inl _ => True | inr next => confirms g offset next past' end).
Proof.
  unfold RunOnce. split; [done|]. intros [e|page] _; [done|].
  eapply tw_weaken; [|apply tw_and; [apply page_handled|apply tw_grows]].
  intros [events [e|next]] past' [Hr [tail ->]]; [done|]. destruct Hr as [Hpage _]. right. exists page. split; [|done].
  rewrite !elem_of_app, list_elem_of_singleton. auto.
Qed.

Lemma cycle_confirms g offset past : tw free past (SyncOnce g offset) (fun r past' => confirms g offset r.1 past').
Proof.
  assert (forall past e, confirms g offset (offset, e : option SyncError).1 past) as Hstay by (by left).
  unfold SyncOnce. case_match; [apply Hstay|]. apply tw_then. intros [e|[]] tail1; [apply Hstay|].
  apply tw_then. intros [e|[]] tail2; [apply Hstay|]. eapply tw_bind; [apply page_confirms|].
  intros [events [e|next]] past' Hr; [apply Hstay|]. cbn in Hr.
  apply tw_then. intros [e|deliveries] tail3; [by apply confirms_later|]. apply tw_then.
  intros [o [[phase e]|]] tail4; by do 2 apply confirms_later.
Qed.

Lemma turn_confirms g offset past : tw free past (gatewayTurn g offset) (fun r past' => confirms g offset r.1 past').
Proof.
  unfold gatewayTurn. eapply tw_bind; [apply cycle_confirms|]. intros [next e] past' Hr. cbn in Hr.
  assert (forall past b, confirms g offset (offset, b : bool).1 past) as Hstay by (by left).
  apply tw_then. intros now tail. destruct e as [e|]; (eapply tw_bind; [apply tw_grows|]); intros recorded ? [tail2 ->];
    repeat case_match; by do 2 apply confirms_later || apply Hstay.
Qed.

(** C15: A turn moves the offset of getUpdates only over a page whose every update
    was handled: it was processed before, or there was nothing to send, or it
    was marked after the relay took its text or refused it for good.  The new
    offset is behind all of them. *)
Theorem confirmed_handled g offset tr next more :
  runs (gatewayTurn g offset) tr (Ret (next, more)) ->
  next = offset \/ exists page, Did (Updates offset) (inr page) ∈ tr /\
    Forall (handled g tr) page /\
    (Forall (fun u => is_int64 (up_ID u) /\ up_ID u < int64_max) page -> Forall (fun u => up_ID u < next) page).
Proof. intros Hr. exact (tw_runs possible free [] _ _ tr _ (turn_confirms g offset []) Hr). Qed.

(** ** The text of a delivery *)

Fixpoint stripPrefix (code l : list Z) : option (list Z) :=
  match code, l with
  | [], _ => Some l
  | c :: code, b :: l => if c =? b then stripPrefix code l else None
  | _, _ => None
  end.

(** How a reader of HTML shows the five entities. *)
Definition entities : list (Z * list Z) :=
  [(0x26, bytesOf "&amp;"); (0x27, bytesOf "&#39;"); (0x3C, bytesOf "&lt;"); (0x3E, bytesOf "&gt;"); (0x22, bytesOf "&#34;")].
Fixpoint readEntity (table : list (Z * list Z)) (l : list Z) : option (Z * list Z) :=
  match table with
  | [] => None
  | (b, code) :: table => match stripPrefix code l with Some rest => Some (b, rest) | None => readEntity table l end
  end.
Fixpoint unescapeFuel (fuel : nat) (l : list Z) : list Z :=
  match fuel, l with
  | S fuel, b :: rest =>
      match readEntity entities l with
      | Some (c, rest) => c :: unescapeFuel fuel rest
      | None => b :: unescapeFuel fuel rest
      end
  | _, _ => []
  end.
Definition unescape (l : list Z) : list Z := unescapeFuel (length l) l.

Definition special (b : Z) : bool := bool_decide (b ∈ entities.*1).

Lemma escape_plain b : special b = false -> escapeByte b = [b].
Proof.
  intros Hb%bool_decide_eq_false. unfold escapeByte. repeat case_match; try done; rewrite Z.eqb_eq in *; subst; exfalso; apply Hb;
    by apply (bool_decide_unpack _); vm_compute.
Qed.

Lemma read_special b rest : special b = true -> readEntity entities (escapeByte b ++ rest) = Some (b, rest).
Proof.
  intros Hb%bool_decide_eq_true. unfold entities in Hb. cbn [fmap list_fmap fst] in Hb. rewrite !elem_of_cons, elem_of_nil in Hb.
  destruct Hb as [->|[->|[->|[->|[->|[]]]]]]; by vm_compute.
Qed.

Lemma read_plain b rest : special b = false -> readEntity entities (b :: rest) = None.
Proof.
  intros Hb. assert ((0x26 =? b) = false) as Hne.
  { apply Z.eqb_neq. intros <-. by vm_compute in Hb. }
  assert (forall code rest', stripPrefix (0x26 :: code) (b :: rest') = None) as Hstrip by (intros; cbn [stripPrefix]; by rewrite Hne).
  unfold entities. cbn [readEntity].
  repeat match goal with |- context [stripPrefix (bytesOf ?s) _] =>
    let v := eval vm_compute in (bytesOf s) in change (bytesOf s) with v; rewrite Hstrip end. done.
Qed.

Lemma escape_nonempty b : exists c l, escapeByte b = c :: l.
Proof. unfold escapeByte. repeat case_match; by eexists _, _. Qed.

Lemma unescape_escape l : unescape (EscapeString l) = l.
Proof.
  assert (forall fuel, (length l <= fuel)%nat -> unescapeFuel fuel (EscapeString l) = l) as Hfuel.
  { induction l as [|b l IH]; intros fuel Hf; [by destruct fuel|]. destruct fuel as [|fuel]; [cbn in Hf; lia|].
    change (EscapeString (b :: l)) with (escapeByte b ++ EscapeString l). cbn in Hf. specialize (IH fuel ltac:(lia)).
    destruct (special b) eqn:Hb.
    - pose proof (read_special b (EscapeString l) Hb) as Hr. destruct (escape_nonempty b) as (c & t & Hc). rewrite Hc in *.
      cbn [unescapeFuel app] in *. by rewrite Hr, IH.
    - rewrite (escape_plain b Hb). cbn [unescapeFuel app]. by rewrite read_plain, IH. }
  apply Hfuel. clear Hfuel. induction l as [|b l IH]; [done|].
  change (EscapeString (b :: l)) with (escapeByte b ++ EscapeString l). rewrite length_app. cbn [length].
  destruct (escape_nonempty b) as (c & t & ->). cbn. lia.
Qed.

(** What the topic shows of the text: the part without its frame. *)
Definition shownText (endpoint : string) (part : list Z) : list Z :=
  unescape (take (length part - length (renderHeader endpoint) - length renderFooter) (drop (length (renderHeader endpoint)) part)).

Lemma shown_part endpoint piece : shownText endpoint (renderPart (renderHeader endpoint) piece) = piece.
Proof.
  unfold shownText, renderPart. rewrite drop_app_length, !length_app, take_app_length'; [apply unescape_escape|lia].
Qed.

Lemma escape_length l : (length (EscapeString l) <= 5 * length l)%nat.
Proof.
  induction l as [|b l IH]; [done|]. change (EscapeString (b :: l)) with (escapeByte b ++ EscapeString l).
  rewrite length_app. cbn [length]. unfold escapeByte. repeat case_match; cbn; lia.
Qed.

Lemma part_length header piece :
  length (renderPart header piece) = (length header + length (EscapeString piece) + length renderFooter)%nat.
Proof. unfold renderPart. rewrite !length_app. lia. Qed.

Definition fits (header piece : list Z) : Prop := Z.of_nat (length (renderPart header piece)) <= maxRichMessageBytes.

Lemma parts_exact header current runes :
  Forall Utf8Facts.rune_wf runes ->
  (forall r, r ∈ runes -> fits header (Utf8.encoding r)) -> (current <> [] -> fits header current) ->
  exists pieces, renderParts header current runes = renderPart header <$> pieces /\
    mjoin pieces = current ++ Utf8.encode runes /\ Forall (fits header) pieces.
Proof.
  intros Hwf. revert current. induction Hwf as [|r runes (Hv & Hne & _) _ IH]; intros current Hfit Hcur; cbn [renderParts].
  - case_bool_decide as Hc; [exists []; subst; done|]. exists [current]. cbn. rewrite !app_nil_r. auto.
  - assert (runeBytes r = Utf8.encoding r) as -> by (unfold runeBytes; by rewrite Hv).
    rewrite Utf8Facts.encode_cons. destruct (_ && _) eqn:Hsplit.
    + apply andb_true_iff in Hsplit as [Hc%negb_true_iff%bool_decide_eq_false _].
      destruct (IH (Utf8.encoding r)) as (pieces & -> & Hj & Hf); [by intros; apply Hfit; constructor|by intros; apply Hfit; constructor|].
      exists (current :: pieces). rewrite <-Hj. by split_and!; [..|constructor; [apply Hcur|]].
    + destruct (IH (current ++ Utf8.encoding r)) as (pieces & -> & Hj & Hf); [by intros; apply Hfit; constructor| |].
      { intros _. apply andb_false_iff in Hsplit as [Hc%negb_false_iff%bool_decide_eq_true|Hle%Z.ltb_ge]; [|done].
        subst. apply Hfit. by constructor. }
      exists pieces. by rewrite Hj, <-app_assoc.
Qed.

Lemma rune_length l r : r ∈ Utf8.decode l -> (length (Utf8.encoding r) <= 4)%nat.
Proof.
  induction l as [|l ok x n Hl E IH] using Utf8Facts.decode_ind; [by intros ?%elem_of_nil|].
  rewrite (Utf8Facts.decode_cons l ok x n), elem_of_cons by done. intros [->|Hr]; [|by apply IH]. cbn. rewrite length_take.
  pose proof (Utf8Facts.decodeRune_width _ _ _ _ Hl E). lia.
Qed.

