(* ===== verification/TelegramResume.v ===== *)
(** * Claims that are resumed

    An executor that runs alone with a relay and a Telegram that answer brings a
    claim from wherever it was interrupted to its end. *)

From S2P Require Import Prelude Programs GoTime Text Tables Source Messages Deliveries Claims.
From S2P Require Import TelegramState TelegramHealth TelegramClaims TelegramBridge TelegramPool TelegramTopics TelegramRuns.
Open Scope Z_scope.

(** ** Running a program *)

(** The replies of the outside. *)
Definition Outside : Type := forall R, Call R -> R.

Definition answer (outside : Outside) {R} (c : Call R) (d : TgDb) : R * TgDb :=
  match c in Call R return R -> R * TgDb with
  | Database op => fun _ => match op d with inl e => (inl e, d) | inr (a, d') => (inr a, d') end
  | _ => fun r => (r, d)
  end (outside R c).

Fixpoint exec {A} (outside : Outside) (p : Prog A) (d : TgDb) : A * TgDb * list Event :=
  match p with
  | Ret a => (a, d, [])
  | Vis c k =>
      let '(r, d1) := answer outside c d in
      let '(a, d2, tr) := exec outside (k r) d1 in
      (a, d2, Did c r :: tr)
  end.

Lemma answer_replies outside {R} (c : Call R) d r d' : answer outside c d = (r, d') -> replies d c r d'.
Proof.
  destruct c; cbn; try (by intros [= _ ->]). destruct (op d) as [e|[a d1]] eqn:Ho; intros [= <- <-];
    [by apply answer_refused|by apply answer_commit].
Qed.

Lemma exec_pool {A} outside (p : Prog A) d a d' tr trace :
  exec outside p d = (a, d', tr) ->
  rtc pool_step {| po_threads := [process p]; po_db := d; po_trace := trace |}
    {| po_threads := [process (Ret a)]; po_db := d'; po_trace := trace ++ tr |}.
Proof.
  revert d trace tr. induction p as [a0|R c k IH]; intros d trace tr; cbn.
  - intros [= -> -> <-]. by rewrite app_nil_r.
  - destruct (answer outside c d) as [r d1] eqn:Hr. destruct (exec outside (k r) d1) as [[a1 d2] tr1] eqn:He.
    intros [= -> -> <-]. eapply rtc_l; [|specialize (IH r d1 (trace ++ [Did c r]) tr1 He); by rewrite <-app_assoc in IH].
    apply (pool_call _ _ _ [] []). by eapply answer_replies.
Qed.

(** [p] ends with [a] and leaves [d']. *)
Definition leads (outside : Outside) {A} (p : Prog A) (d : TgDb) (a : A) (d' : TgDb) : Prop := (exec outside p d).1 = (a, d').

Section Leads.
Context (outside : Outside).

Lemma leads_bind {A B} (p : Prog A) (f : A -> Prog B) d a d1 b d2 :
  leads outside p d a d1 -> leads outside (f a) d1 b d2 -> leads outside (p ≫= f) d b d2.
Proof.
  unfold leads. revert d. induction p as [a0|R c k IH]; intros d; cbn; [by intros [= -> ->]|].
  destruct (answer outside c d) as [r d0]. specialize (IH r d0). destruct (exec outside (k r) d0) as [[a1 d1'] tr1].
  intros [= -> ->] Hf. specialize (IH eq_refl Hf). unfold mbind in IH. by destruct (exec outside _ d0) as [[b' d2'] tr'].
Qed.

Lemma leads_try {A B} (m : Prog (TgErr + A)) (f : A -> Prog (TgErr + B)) d a d1 r d2 :
  leads outside m d (inr a) d1 -> leads outside (f a) d1 r d2 -> leads outside (tryBind f m) d r d2.
Proof. intros Hm Hf. by eapply leads_bind; [exact Hm|]. Qed.

Lemma leads_db {A} (op : T A) d a d' : op d = inr (a, d') -> leads outside (db op) d (inr a) d'.
Proof. intros Ho. unfold leads. cbn. by rewrite Ho. Qed.

Lemma leads_check d b text : b = false -> leads outside (check b text) d (inr tt) d.
Proof. by intros ->. Qed.

Lemma leads_ret {A} (a : A) d : leads outside (mret a) d a d.
Proof. done. Qed.
End Leads.

(** A run keeps the invariant of the state. *)
Lemma wp_exec {A} outside (p : Prog A) π K Q d :
  wp π K p Q -> tgInv d -> K d -> tgInv (exec outside p d).1.2.
Proof.
  revert π K d. induction p as [a|R c k IH]; intros π K d Hw Hi HK; [done|]. cbn.
  destruct (answer outside c d) as [r d1] eqn:Hr. apply answer_replies in Hr.
  destruct (Hw d r d1 Hi HK Hr) as (Hi1 & _ & π1 & K1 & _ & _ & _ & HK1 & Hw1). specialize (IH r π1 K1 d1 Hw1 Hi1 HK1).
  by destruct (exec outside (k r) d1) as [[a d2] tr].
Qed.

Lemma safe_leads {A} outside (p : Prog A) d a d' : safe p -> tgInv d -> leads outside p d a d' -> tgInv d'.
Proof. intros Hs Hi Hl. pose proof (wp_exec outside p _ _ _ d Hs Hi I) as H. by rewrite Hl in H. Qed.

(** ** The stages of a claim *)

Section Resume.
Context (cl : ClaimExecutor) (outside : Outside) (c name : string) (topic : Z).
Abbreviation allowed := (cl_AllowedUserID cl).

(** The relay reserves and completes, Telegram creates the topic. *)
Record helpful : Prop := {
  hp_claim key : exists id, outside _ (ClaimConversation c TelegramGatewayEndpoint key) =
    inr {| rc_ConversationID := id; rc_Status := "pending"; rc_DisplayName := name |};
  hp_topic label : outside _ (CreateForumTopic c allowed label) = inr topic;
  hp_complete : outside _ (CompleteTelegramClaim c) = inr tt;
}.

Definition sanitizes (s : string) : Prop := exists label, SanitizeConversationDisplayName s = Some label /\ label <> "".

(** The conversation has its topic in the allowed chat, or topic [t] is free. *)
Definition place (d : TgDb) (t : Z) : Prop :=
  routeOf (tg_routes d) c = None /\ tg_routes d !! (allowed, t) = None \/
  exists t', routeOf (tg_routes d) c = Some (allowed, t') /\ 0 < t'.

(** Where a claim can be resumed: everywhere but in a creation whose outcome is
    unknown. *)
Definition resumable (d : TgDb) (row : ClaimRow) : Prop :=
  match ce_phase row with
  | ClaimPhaseReserved =>
      ce_thread_id row = None /\ place d topic /\
      (ce_skip_reserve row = true -> sanitizes (default "" (ce_display_name row)))
  | ClaimPhaseTopicCreated => exists t, ce_thread_id row = Some t /\ 0 < t /\ ce_chat_id row = Some allowed /\ place d t
  | ClaimPhaseAdopting | ClaimPhaseRoutePersisted => True
  | ClaimPhaseCreating | ClaimPhaseComplete => False
  end.

Hypotheses (Hc : blank c = false) (Hallowed : allowed <> 0) (Htopics : cl_Topics cl = true) (Htopic : 0 < topic)
  (Hname : name <> "") (Hblank : blank name = false) (Hsan : sanitizes name) (Hh : helpful).

Definition inState (d : TgDb) (phase : ClaimPhase) : Prop := exists row, tg_claims d !! c = Some row /\ ce_phase row = phase.

Lemma update_present d row when f :
  tg_claims d !! c = Some row -> when row = true ->
  updateClaim c when f d = inr (1, set_claims (<[c := f row]> (tg_claims d)) d).
Proof. intros Hrow Hw. unfold updateClaim, mbind, Trans_bind, st_read. by rewrite Hrow, Hw. Qed.

Lemma stage_complete e d :
  cx_ConversationID e = c -> is_Some (tg_claims d !! c) ->
  exists d', leads outside (executeRoutePersisted e) d (inr tt) d' /\ inState d' ClaimPhaseComplete.
Proof.
  intros He [row Hrow]. exists (set_claims (<[c := with_phase ClaimPhaseComplete row]> (tg_claims d)) d). split.
  - unfold executeRoutePersisted. rewrite He. eapply leads_bind; [unfold leads; cbn; by rewrite (hp_complete Hh)|]. cbv beta iota.
    apply leads_db. unfold MarkClaimComplete, mbind, Trans_bind. by erewrite update_present.
  - eexists. cbn. by rewrite lookup_insert_eq.
Qed.

Lemma stage_route d t :
  place d t -> 0 < t -> is_Some (tg_claims d !! c) ->
  exists d', PersistClaimRoute allowed t c d = inr (tt, d') /\ is_Some (tg_claims d' !! c).
Proof.
  intros Hp Ht [row Hrow]. unfold PersistClaimRoute, mbind, Trans_bind, st_read.
  rewrite Hc. replace (allowed =? 0) with false by lia. replace (t <=? 0) with false by lia. cbn -[Z.ltb].
  destruct Hp as [[Hn Hf]|(t' & Hs & Ht')].
  - rewrite Hn, Hf. unfold insertRoute, mbind, Trans_bind, st_read, st_reject.
    assert (mexists (fun k c0 => negb (bool_decide (k = (allowed, t))) && bool_decide (c0 = c)) (tg_routes d) = false) as ->.
    { apply mexists_false. intros k c0 Hk. apply andb_false_iff. right. apply bool_decide_eq_false. intros ->. by eapply routeOf_none. }
    cbn. erewrite update_present; [|exact Hrow|done]. eexists. split; [done|]. cbn. rewrite lookup_insert_eq. eauto.
  - rewrite Hs. replace (0 <? t') with true by lia. rewrite Z.eqb_refl. cbn.
    erewrite update_present; [|exact Hrow|done]. eexists. split; [done|]. cbn. rewrite lookup_insert_eq. eauto.
Qed.

Lemma stage_created e d t :
  cx_ConversationID e = c -> cx_ThreadID e = t -> 0 < t -> cx_ChatID e = allowed -> place d t -> is_Some (tg_claims d !! c) ->
  exists d', leads outside (executeTopicCreated cl e) d (inr (with_claim_phase ClaimPhaseRoutePersisted e)) d' /\
    is_Some (tg_claims d' !! c).
Proof.
  intros He Ht Hpos Hchat Hp Hrow. destruct (stage_route d t Hp Hpos Hrow) as (d' & Ho & Hrow'). exists d'. split; [|done].
  unfold executeTopicCreated. rewrite He, Ht, Hchat. eapply leads_try.
  { apply leads_check. rewrite Z.eqb_refl. replace (allowed =? 0) with false by lia. by replace (t <=? 0) with false by lia. }
  eapply leads_try; [by apply leads_db|apply leads_ret].
Qed.

Lemma name_stage d row label :
  tg_claims d !! c = Some row ->
  exists d' row', PersistClaimDisplayName c label d = inr (tt, d') /\ tg_routes d' = tg_routes d /\
    tg_claims d' !! c = Some row' /\ ce_phase row' = ce_phase row /\ ce_thread_id row' = ce_thread_id row.
Proof.
  intros Hrow. unfold PersistClaimDisplayName, mbind, Trans_bind. erewrite update_present; [|exact Hrow|done].
  eexists _, _. split; [done|]. cbn. by rewrite lookup_insert_eq.
Qed.

Lemma stage_pending e d row :
  cx_ConversationID e = c -> tg_claims d !! c = Some row -> (cx_SkipReserve e = true -> sanitizes (cx_DisplayName e)) ->
  exists e' d' row', leads outside (ensurePending cl e) d (inr e') d' /\
    cx_ConversationID e' = c /\ cx_ThreadID e' = cx_ThreadID e /\ sanitizes (cx_DisplayName e') /\
    tg_routes d' = tg_routes d /\ tg_claims d' !! c = Some row' /\ ce_phase row' = ce_phase row /\
    ce_thread_id row' = ce_thread_id row.
Proof.
  intros He Hrow Hskip. unfold ensurePending. rewrite He. destruct (cx_SkipReserve e).
  { exists e, d, row. split; [apply leads_ret|]. auto 10. }
  destruct (name_stage d row name Hrow) as (d' & row' & Ho & Hr & Hrow' & Hp & Ht).
  exists (with_claim_name name e), d', row'. split; [|by split_and!]. destruct (hp_claim Hh (GatewayClaimKey c)) as [id Hid].
  eapply leads_bind; [unfold leads; cbn; by rewrite Hid|]. cbn [rc_Status rc_DisplayName].
  rewrite (bool_decide_eq_true_2 ("pending" = "pending")) by done. eapply leads_try; [apply leads_ret|].
  rewrite bool_decide_eq_false_2 by done. eapply leads_try; [by apply leads_db|apply leads_ret].
Qed.

Lemma thread_stage d t :
  0 < t -> is_Some (tg_claims d !! c) ->
  exists d', PersistClaimThread c allowed t d = inr (tt, d') /\ tg_routes d' = tg_routes d /\ is_Some (tg_claims d' !! c).
Proof.
  intros Ht [row Hrow]. unfold PersistClaimThread, mbind, Trans_bind. rewrite Hc. replace (allowed =? 0) with false by lia.
  replace (t <=? 0) with false by lia. cbn [orb st_reject mret Trans_ret]. erewrite update_present; [|exact Hrow|done].
  eexists. split; [done|]. cbn. rewrite lookup_insert_eq. eauto.
Qed.

Lemma begin_stage d row :
  routeOf (tg_routes d) c = None -> tg_claims d !! c = Some row -> ce_phase row = ClaimPhaseReserved -> ce_thread_id row = None ->
  exists d', BeginClaimCreating c allowed d = inr (None, d') /\ tg_routes d' = tg_routes d /\ is_Some (tg_claims d' !! c).
Proof.
  intros Hn Hrow Hp Ht. unfold BeginClaimCreating, mbind, Trans_bind, st_read. rewrite Hc. cbn -[Z.ltb]. rewrite Hn. cbv beta iota.
  erewrite update_present; [|exact Hrow|]; [|unfold inPhase, unthreaded; by rewrite Hp, Ht].
  eexists. split; [done|]. cbn. rewrite lookup_insert_eq. eauto.
Qed.

Lemma stage_create e d row :
  cx_ConversationID e = c -> sanitizes (cx_DisplayName e) -> routeOf (tg_routes d) c = None ->
  tg_claims d !! c = Some row -> ce_phase row = ClaimPhaseReserved -> ce_thread_id row = None ->
  exists d', leads outside (createTopic cl e) d (inr (with_claim_topic allowed topic e)) d' /\
    tg_routes d' = tg_routes d /\ is_Some (tg_claims d' !! c).
Proof.
  intros He (label & Hl & Hne) Hn Hrow Hp Ht. destruct (begin_stage d row Hn Hrow Hp Ht) as (d1 & Hb & Hr1 & Hs1).
  destruct (thread_stage d1 topic Htopic Hs1) as (d2 & Hth & Hr2 & Hs2). exists d2. split; [|split; [congruence|done]].
  unfold createTopic. rewrite He, Hl. eapply leads_try.
  { apply leads_check. rewrite Htopics. by replace (allowed =? 0) with false by lia. }
  destruct label as [|a l]; [done|]. eapply leads_bind; [by apply leads_db|]. cbv beta iota.
  eapply leads_bind; [unfold leads; cbn; by rewrite (hp_topic Hh)|]. cbv beta iota zeta.
  replace (0 <? topic) with true by lia. eapply leads_try; [by apply leads_db|apply leads_ret].
Qed.

(** What the stage after has to find. *)
Definition topicReady (e : ClaimExecution) (d : TgDb) : Prop :=
  cx_ConversationID e = c /\ cx_Phase e = ClaimPhaseTopicCreated /\ 0 < cx_ThreadID e /\ cx_ChatID e = allowed /\
  place d (cx_ThreadID e) /\ is_Some (tg_claims d !! c).

Lemma stage_reserved e d row :
  cx_ConversationID e = c -> cx_ThreadID e = 0 -> tg_claims d !! c = Some row -> ce_phase row = ClaimPhaseReserved ->
  ce_thread_id row = None -> place d topic -> (cx_SkipReserve e = true -> sanitizes (cx_DisplayName e)) ->
  exists e' d', leads outside (executeReserved cl e) d (inr e') d' /\ topicReady e' d'.
Proof.
  intros He Ht Hrow Hp Hth Hplace Hskip. destruct (stage_pending e d row He Hrow Hskip) as
    (e1 & d1 & row1 & Hl1 & He1 & Ht1 & Hs1 & Hr1 & Hrow1 & Hp1 & Hth1).
  unfold executeReserved. destruct Hplace as [[Hn Hf]|(t' & Hs & Ht')].
  - destruct (stage_create e1 d1 row1) as (d2 & Hl2 & Hr2 & Hs2); [done..|by rewrite Hr1|done|congruence|congruence|].
    exists (with_claim_topic allowed topic e1), d2. split.
    + eapply leads_try; [exact Hl1|]. rewrite Ht1, Ht. cbn [Z.ltb Z.compare]. apply (leads_try _ _ _ _ None d1); [|exact Hl2].
      unfold takeRoute. rewrite He1. eapply leads_try; [by apply leads_db|]. rewrite Hr1, Hn. apply leads_ret.
    + split_and!; [done..| |done]. left. by rewrite Hr2, Hr1.
  - destruct (thread_stage d1 t' Ht') as (d2 & Ho2 & Hr2 & Hs2); [by exists row1|].
    exists (with_claim_topic allowed t' e1), d2. split.
    + eapply leads_try; [exact Hl1|]. rewrite Ht1, Ht. cbn [Z.ltb Z.compare].
      apply (leads_try _ _ _ _ (Some (with_claim_topic allowed t' e1)) d2); [|apply leads_ret].
      unfold takeRoute. rewrite He1. eapply leads_try; [by apply leads_db|]. rewrite Hr1, Hs.
      replace (0 <? t') with true by lia. eapply leads_try; [apply leads_check; unfold foreignChat; by rewrite Z.eqb_refl, andb_false_r|].
      eapply leads_try; [by apply leads_db|apply leads_ret].
    + split_and!; [done..| |done]. right. exists t'. by rewrite Hr2, Hr1.
Qed.

Lemma skip_phase phase branch e d : cx_Phase e <> phase -> leads outside (whenPhase phase branch e) d (inr e) d.
Proof. intros Hp. unfold whenPhase. by rewrite bool_decide_eq_false_2. Qed.
Lemma run_phase phase branch e d r d' :
  cx_Phase e = phase -> leads outside (branch e) d r d' -> leads outside (whenPhase phase branch e) d r d'.
Proof. intros Hp. unfold whenPhase. by rewrite bool_decide_eq_true_2. Qed.

(** The end of [Execute], from a topic on. *)
Definition lastStages (e : ClaimExecution) : Prog (TgErr + unit) :=
  e ⇐ whenPhase ClaimPhaseTopicCreated (executeTopicCreated cl) e;
  if bool_decide (cx_Phase e = ClaimPhaseRoutePersisted) then executeRoutePersisted e else ok tt.

Lemma last_persisted e d :
  cx_ConversationID e = c -> cx_Phase e = ClaimPhaseRoutePersisted -> is_Some (tg_claims d !! c) ->
  exists d', leads outside (lastStages e) d (inr tt) d' /\ inState d' ClaimPhaseComplete.
Proof.
  intros He Hp Hs. destruct (stage_complete e d He Hs) as (d' & Hl & Hd). exists d'. split; [|done].
  eapply leads_try; [apply skip_phase; by rewrite Hp|]. by rewrite bool_decide_eq_true_2.
Qed.

Lemma last_created e d : topicReady e d -> exists d', leads outside (lastStages e) d (inr tt) d' /\ inState d' ClaimPhaseComplete.
Proof.
  intros (He & Hp & Ht & Hchat & Hplace & Hs). destruct (stage_created e d _ He eq_refl Ht Hchat Hplace Hs) as (d1 & Hl1 & Hs1).
  destruct (stage_complete (with_claim_phase ClaimPhaseRoutePersisted e) d1 He Hs1) as (d' & Hl & Hd). exists d'. split; [|done].
  eapply leads_try; [by apply run_phase|]. by rewrite bool_decide_eq_true_2.
Qed.

Lemma stage_adopt e d row :
  cx_ConversationID e = c -> tg_claims d !! c = Some row ->
  exists e' d', leads outside (ensureAdoptReserved e) d (inr e') d' /\ cx_ConversationID e' = c /\
    cx_Phase e' = ClaimPhaseRoutePersisted /\ is_Some (tg_claims d' !! c).
Proof.
  intros He Hrow. destruct (name_stage d row name Hrow) as (d1 & row1 & Ho & Hr & Hrow1 & Hp & Ht).
  assert (exists d2, PersistClaimAdoptReserved c d1 = inr (tt, d2) /\ is_Some (tg_claims d2 !! c)) as (d2 & Ho2 & Hs2).
  { unfold PersistClaimAdoptReserved, mbind, Trans_bind. rewrite Hc. cbn [st_reject mret Trans_ret]. unfold updateClaim, mbind, Trans_bind, st_read.
    rewrite Hrow1. destruct (inPhase _ row1); eexists; (split; [done|]); cbn; rewrite ?lookup_insert_eq; eauto. }
  exists (with_claim_phase ClaimPhaseRoutePersisted (with_claim_name name e)), d2. split; [|by split_and!]. unfold ensureAdoptReserved. rewrite He. destruct (hp_claim Hh (AdoptClaimKey c)) as [id Hid].
  eapply leads_bind; [unfold leads; cbn; by rewrite Hid|]. cbn [rc_Status rc_DisplayName].
  eapply leads_try; [by apply leads_check|]. eapply leads_try; [by apply leads_db|].
  rewrite (bool_decide_eq_true_2 ("pending" = "pending")) by done. eapply leads_try; [by apply leads_db|apply leads_ret].
Qed.

Lemma resumes d row :
  tg_claims d !! c = Some row -> resumable d row ->
  exists d', leads outside (ExecuteClaim cl c) d (inr tt) d' /\ inState d' ClaimPhaseComplete.
Proof.
  intros Hrow Hres. set (e := scanClaimExecution c row). assert (cx_Phase e = ce_phase row) as Hpe by done.
  assert (forall e1 d1 e2 d2 d', cx_Phase e <> ClaimPhaseComplete ->
    leads outside (whenPhase ClaimPhaseAdopting ensureAdoptReserved e) d (inr e1) d1 ->
    leads outside (whenPhase ClaimPhaseReserved (executeReserved cl) e1) d1 (inr e2) d2 -> cx_Phase e2 <> ClaimPhaseCreating ->
    leads outside (lastStages e2) d2 (inr tt) d' -> leads outside (ExecuteClaim cl c) d (inr tt) d') as Hexec.
  { intros e1 d1 e2 d2 d' Hnc H1 H2 Hcr H3. unfold ExecuteClaim. eapply leads_try; [by apply leads_check|].
    eapply leads_try; [by apply leads_db|]. rewrite Hrow. cbn [fmap option_fmap option_map]. fold e. rewrite bool_decide_eq_false_2 by done.
    eapply leads_try; [exact H1|]. eapply leads_try; [exact H2|]. eapply leads_try; [by apply skip_phase|exact H3]. }
  unfold resumable in Hres. destruct (ce_phase row) eqn:Hp; [| done | | | |done].
  - destruct Hres as (Hth & Hplace & Hskip). destruct (stage_reserved e d row) as (e' & d1 & Hl & Hready); [done| |done..| ].
    { cbn. by rewrite Hth. }
    destruct (last_created e' d1 Hready) as (d' & Hl' & Hd). exists d'. split; [|done].
    eapply Hexec; [by rewrite Hpe|apply skip_phase; by rewrite Hpe|by apply run_phase|by rewrite (proj1 (proj2 Hready))|done].
  - destruct Hres as (t & Hth & Ht & Hchat & Hplace). assert (topicReady e d) as Hready.
    { split_and!; [done|by rewrite Hpe|cbn; by rewrite Hth|cbn; by rewrite Hchat|cbn; by rewrite Hth|by exists row]. }
    destruct (last_created e d Hready) as (d' & Hl' & Hd). exists d'. split; [|done].
    eapply Hexec; [by rewrite Hpe|apply skip_phase; by rewrite Hpe|apply skip_phase; by rewrite Hpe|by rewrite Hpe|done].
  - destruct (stage_adopt e d row) as (e' & d1 & Hl & He' & Hp' & Hs); [done..|].
    destruct (last_persisted e' d1 He' Hp' Hs) as (d' & Hl' & Hd). exists d'. split; [|done].
    eapply Hexec; [by rewrite Hpe|by apply run_phase|apply skip_phase; by rewrite Hp'|by rewrite Hp'|done].
  - destruct (last_persisted e d) as (d' & Hl' & Hd); [done|by rewrite Hpe|by exists row|]. exists d'. split; [|done].
    eapply Hexec; [by rewrite Hpe|apply skip_phase; by rewrite Hpe|apply skip_phase; by rewrite Hpe|by rewrite Hpe|done].
Qed.

End Resume.
