(* ===== verification/TelegramWitness.v ===== *)
(** * The Telegram gateway on concrete inputs

    Runs that show that the hypotheses of its theorems can hold. *)

From S2P Require Import Prelude Programs GoTime Text Tables Source Messages Deliveries Claims.
From S2P Require Import TelegramState TelegramHealth TelegramClaims TelegramBridge TelegramPool TelegramTopics.
From S2P Require Import TelegramRuns TelegramMail TelegramResume.
Open Scope Z_scope.

Lemma exec_runs {A} outside (p : Prog A) d : runs p (exec outside p d).2 (Ret (exec outside p d).1.1).
Proof.
  revert d. induction p as [a|R c k IH]; intros d; cbn; [constructor|].
  destruct (answer outside c d) as [r d1] eqn:Hr. specialize (IH r d1).
  destruct (exec outside (k r) d1) as [[a d2] tr]. constructor; [|done]. exists d, d1. by eapply answer_replies.
Qed.

Lemma exec_prefix {A} outside (p : Prog A) d n ev :
  (exec outside p d).2 !! n = Some ev -> exists p', runs p (take n (exec outside p d).2 ++ [ev]) p'.
Proof.
  intros Hn. pose proof (exec_runs outside p d) as Hr. rewrite <-(take_drop_middle _ _ _ Hn) in Hr.
  rewrite (cons_middle ev), app_assoc in Hr. by apply runs_prefix in Hr.
Qed.

(** ** A turn that claims a topic, takes a text and sends a delivery *)

Definition demoDelivery : Delivery := {|
  v_ID := "delivery"; v_RecipientEndpoint := "telegram"; v_RecipientRole := "";
  v_Message := {| g_ID := "message"; g_ConversationID := "room"; g_Sequence := 1; g_FromEndpoint := "agent"; g_FromRole := "";
    g_FromParticipant := ""; g_InReplyToMessageID := ""; g_InReplyToEndpoint := ""; g_TelegramThreadID := 0; g_Body := "a < b";
    g_CreatedAt := 1 |};
  v_LeaseToken := "lease"; v_LeaseGeneration := 1; v_LeaseUntil := 2 |}.

Definition demoUpdate : Update := {|
  up_ID := 5; up_UserID := 7; up_ChatID := 7; up_ThreadID := 42; up_MessageID := 1; up_Text := "hello"; up_CallbackID := "";
  up_CallbackData := ""; up_ReplyToID := 0; up_IsCommand := false; up_Command := "" |}.

Definition demoOutside : Outside := fun R c =>
  match c in Call R return R with
  | Database _ => inl TgDatabase
  | ClaimConversation id _ _ => inr {| rc_ConversationID := id; rc_Status := "pending"; rc_DisplayName := "Room" |}
  | CompleteTelegramClaim _ => inr tt
  | PendingTelegramClaims _ _ => inr [{| rc_ConversationID := "room"; rc_Status := "pending"; rc_DisplayName := "Room" |}]
  | CreateForumTopic _ _ _ => inr 42
  | Advertise _ => inr tt
  | Lease _ => inr [demoDelivery]
  | Ack _ => inr tt
  | SendTelegramInbound _ => inr tt
  | ListUnclaimed => inr []
  | Updates _ => inr [demoUpdate]
  | SendMessage _ _ _ => inr tt
  | AnswerCallbackQuery _ _ => inr tt
  | SendRichMessage _ _ _ => inr 100
  | Clock => 1000000000
  | RandomBytes => None
  end.

Definition demoGateway : Gateway := {|
  gw_AllowedUserID := 7; gw_Endpoint := "telegram"; gw_ListUnclaimed := true; gw_Notify := true;
  gw_Claims := Some {| cl_Topics := true; cl_AllowedUserID := 7 |} |}.

Abbreviation demoRun := (exec demoOutside (gatewayTurn demoGateway 0) emptyTg).

Lemma demo_pool :
  exists s, rtc pool_step noPool s /\ po_db s = demoRun.1.2 /\ po_trace s = demoRun.2.
Proof.
  eexists. split; [|split].
  - eapply rtc_l; [apply pool_start, (entry_turn demoGateway 0)|]. apply (exec_pool demoOutside _ _ demoRun.1.1 demoRun.1.2 demoRun.2).
    by destruct demoRun as [[a d] tr].
  - done.
  - done.
Qed.

Lemma one_topic_witness : exists s, rtc pool_step noPool s /\ topicsMade "room" (po_trace s) = 1 /\ topicsMade "room" (po_trace s) <= 1.
Proof.
  destruct demo_pool as (s & Hs & _ & Htr). exists s. split; [exact Hs|]. split.
  - rewrite Htr. vm_compute. reflexivity.
  - apply (one_topic s "room"). exact Hs.
Defined.

Lemma claims_routed_witness :
  exists s row, rtc pool_step noPool s /\ tg_claims (po_db s) !! "room" = Some row /\ ce_phase row = ClaimPhaseComplete /\
    exists chatID threadID, tg_routes (po_db s) !! (chatID, threadID) = Some "room" /\ 0 < threadID.
Proof.
  destruct demo_pool as (s & Hs & Hdb & _). eexists s, _. split; [exact Hs|].
  assert (tg_claims (po_db s) !! "room" = Some {| ce_thread_id := Some 42; ce_chat_id := Some 7; ce_phase := ClaimPhaseComplete;
    ce_display_name := Some "Room"; ce_skip_reserve := true |}) as Hrow by (rewrite Hdb; vm_compute; reflexivity).
  split; [exact Hrow|]. split; [reflexivity|]. apply (proj2 (claims_routed s Hs) "room" _ Hrow). reflexivity.
Defined.


Lemma confirmed_handled_witness :
  exists tr, runs (gatewayTurn demoGateway 0) tr (Ret (6, true)) /\
    (6 = 0 \/ exists page, Did (Updates 0) (inr page) ∈ tr /\ Forall (handled demoGateway tr) page /\
      (Forall (fun u => is_int64 (up_ID u) /\ up_ID u < int64_max) page -> Forall (fun u => up_ID u < 6) page)).
Proof.
  assert (demoRun.1.1 = (6, true)) as Hend by (vm_compute; reflexivity).
  pose proof (exec_runs demoOutside (gatewayTurn demoGateway 0) emptyTg) as Hr. rewrite Hend in Hr.
  exists demoRun.2. split; [exact Hr|]. exact (confirmed_handled demoGateway 0 _ 6 true Hr).
Defined.


(** ** A claim that is resumed *)

Definition demoReserved : TgDb := set_claims {["room" := {| ce_thread_id := None; ce_chat_id := None;
  ce_phase := ClaimPhaseReserved; ce_display_name := None; ce_skip_reserve := false |}]} emptyTg.

Lemma demoReserved_inv : tgInv demoReserved.
Proof.
  split; cbn; [intros *; by rewrite lookup_empty|]. intros c row [<- <-]%lookup_singleton_Some. done.
Qed.


(** ** A claim with another topic than its route

    While a topic is created, the operator routes the conversation to another
    topic and adopts it.  The gateway records its own topic after that, and
    stops; the adoption then completes the claim, which names a topic that is
    not its route, and nothing resumes a complete claim. *)

Definition stepThread (t : Thread) (d : TgDb) : Thread * TgDb * list Event :=
  match t with
  | process (Ret a) => (process (Ret a), d, [])
  | process (Vis c k) => let '(r, d') := answer demoOutside c d in (process (k r), d', [Did c r])
  end.

(** The threads in the list move one call each, in turn. *)
Fixpoint schedule (moves : list nat) (s : Pool) : Pool :=
  match moves with
  | [] => s
  | i :: moves =>
      schedule moves match po_threads s !! i with
      | None => s
      | Some t =>
          let '(t', d', tr) := stepThread t (po_db s) in
          {| po_threads := <[i := t']> (po_threads s); po_db := d'; po_trace := po_trace s ++ tr |}
      end
  end.

Lemma schedule_runs moves s : rtc pool_step s (schedule moves s).
Proof.
  revert s. induction moves as [|i moves IH]; intros [ts d trace]; [done|]. cbn.
  destruct (ts !! i) as [[A [a|R c k]]|] eqn:Hi; cbn; [| |apply IH].
  - rewrite list_insert_id, app_nil_r by done. apply IH.
  - destruct (answer demoOutside c d) as [r d'] eqn:Hr. eapply rtc_l; [|apply IH].
    rewrite insert_take_drop by (by eapply lookup_lt_Some). rewrite <-(take_drop_middle _ _ _ Hi) at 1.
    constructor. by eapply answer_replies.
Qed.

Definition raceThreads : list Thread :=
  [process (gatewayTurn demoGateway 0); process (db (SetRoute 7 9 "room")); process (Adopt "room" 7)].
Definition racePool : Pool :=
  schedule (repeat 0%nat 14 ++ [1%nat] ++ repeat 2%nat 7 ++ repeat 0%nat 2 ++ [2%nat])
    {| po_threads := raceThreads; po_db := emptyTg; po_trace := [] |}.

Example adopt_keeps_other_topic :
  rtc pool_step noPool racePool /\
  (exists row, tg_claims (po_db racePool) !! "room" = Some row /\ ce_phase row = ClaimPhaseComplete /\ ce_thread_id row = Some 42) /\
  routeOf (tg_routes (po_db racePool)) "room" = Some (7, 9).
Proof.
  split; [|split].
  - eapply rtc_l; [apply pool_start, (entry_adopt "room" 7)|]. eapply rtc_l; [apply pool_start, (entry_route 7 9 "room")|].
    eapply rtc_l; [apply pool_start, (entry_turn demoGateway 0)|]. apply schedule_runs.
  - eexists. vm_compute. split; [reflexivity|]. by split.
  - by vm_compute.
Qed.
