(* ===== verification/Adapter.v ===== *)
(** * The adapter ([sync.go], [mailbox.go], [offer_outbox.go] of
      [src/internal/adapter], and the loop of [src/cmd/punaro-adapter/main.go])

    A machine's adapter advertises the attached local sessions, hands leased
    deliveries to the local mailbox and acknowledges them, starts roles on
    request, and sends the notices of its outbox.  Its journal and its outbox
    are SQLite files; every statement or transaction is one call. *)

From S2P Require Import Prelude Programs GoTime Text Tables Messages Deliveries Invocations.
Open Scope Z_scope.

(** ** Data *)

(** An inert envelope of the local mailbox. *)
Record InboundMessage := {
  in_PunaroMessageID : string;
  in_ConversationID : string;
  in_Sequence : Z;
  in_FromEndpoint : string;
  in_FromRole : string;
  in_FromParticipant : string;
  in_RecipientRole : string;
  in_InReplyToEndpoint : string;
  in_InReplyToPunaroMessageID : string;
  in_TelegramThreadID : Z;
  in_Body : string;
  in_CreatedAt : Z;
}.

Inductive deliveryState := deliveryReceived | deliveryForwarded | deliveryAcknowledged.
Inductive invocationState := invocationPending | invocationAccepted.

#[export] Instance deliveryState_eq_dec : EqDecision deliveryState.
Proof. solve_decision. Defined.
#[export] Instance invocationState_eq_dec : EqDecision invocationState.
Proof. solve_decision. Defined.

(** inbound_deliveries and inbound_invocations. *)
Record InboundRow := { ir_message : string; ir_state : deliveryState; ir_updated_at : Z }.
Record StartRow := { sr_fence : string; sr_state : invocationState; sr_updated_at : Z }.

Record Journal := { jn_deliveries : gmap string InboundRow; jn_invocations : gmap string StartRow }.
Definition emptyJournal : Journal := {| jn_deliveries := ∅; jn_invocations := ∅ |}.
Definition set_inbound (x : gmap string InboundRow) (j : Journal) : Journal :=
  {| jn_deliveries := x; jn_invocations := jn_invocations j |}.
Definition set_starts (x : gmap string StartRow) (j : Journal) : Journal :=
  {| jn_deliveries := jn_deliveries j; jn_invocations := x |}.

(** The errors: of the program's own checks, of a database, and of a call to the
    outside, which may be a final rejection. *)
Inductive AdErr := AdFailed (text : string) | AdDatabase | AdRemote (permanent : bool).

Definition JT (A : Type) : Type := Trans Journal AdErr A.

(** ** The journal *)

(** The INSERT and the SELECT of [ensureReceived]. *)
Definition insertReceived (deliveryID messageID : string) (now : Z) : JT unit :=
  st_write (fun j => set_inbound (match jn_deliveries j !! deliveryID with
    | Some _ => jn_deliveries j
    | None => <[deliveryID := {| ir_message := messageID; ir_state := deliveryReceived;
        ir_updated_at := Time.UnixMilli now |}]> (jn_deliveries j)
    end) j).
Definition readReceived (deliveryID messageID : string) : JT deliveryState :=
  rows ← st_read jn_deliveries;
  match rows !! deliveryID with
  | None => st_fail AdDatabase
  | Some row =>
      st_reject (negb (bool_decide (ir_message row = messageID))) (AdFailed "delivery ID was reused with another message");;
      mret (ir_state row)
  end.

Definition MarkForwarded (deliveryID messageID : string) (now : Z) : JT unit :=
  st_write (fun j => set_inbound (<[deliveryID := match jn_deliveries j !! deliveryID with
    | Some row => {| ir_message := ir_message row;
        ir_state := if bool_decide (ir_state row = deliveryAcknowledged) then deliveryAcknowledged else deliveryForwarded;
        ir_updated_at := Time.UnixMilli now |}
    | None => {| ir_message := messageID; ir_state := deliveryForwarded; ir_updated_at := Time.UnixMilli now |}
    end]> (jn_deliveries j)) j).

Definition MarkAcknowledged (deliveryID : string) (now : Z) : JT unit :=
  rows ← st_read jn_deliveries;
  match rows !! deliveryID with
  | None => st_fail (AdFailed "adapter journal delivery is missing")
  | Some row => st_write (set_inbound (<[deliveryID := {| ir_message := ir_message row; ir_state := deliveryAcknowledged;
      ir_updated_at := Time.UnixMilli now |}]> rows))
  end.

Definition insertInvocation (invocationID fence : string) (now : Z) : JT unit :=
  st_write (fun j => set_starts (match jn_invocations j !! invocationID with
    | Some _ => jn_invocations j
    | None => <[invocationID := {| sr_fence := fence; sr_state := invocationPending;
        sr_updated_at := Time.UnixMilli now |}]> (jn_invocations j)
    end) j).
Definition readInvocation (invocationID fence : string) : JT invocationState :=
  rows ← st_read jn_invocations;
  match rows !! invocationID with
  | None => st_fail AdDatabase
  | Some row =>
      st_reject (negb (bool_decide (sr_fence row = fence))) (AdFailed "invocation ID was reused with another fence");;
      mret (sr_state row)
  end.

Definition invocationJournalRetention : Z := 48 * Time.Hour.

Definition pruneInvocationRecoveryRows (now : Z) : JT unit :=
  st_write (fun j => set_starts
    (filter (fun kv => Time.UnixMilli (Time.Add now (- invocationJournalRetention)) <= sr_updated_at kv.2) (jn_invocations j)) j).

Definition markInvocationAccepted (invocationID fence : string) (now : Z) : JT unit :=
  rows ← st_read jn_invocations;
  match rows !! invocationID with
  | Some row =>
      if bool_decide (sr_fence row = fence) then
        st_write (set_starts (<[invocationID := {| sr_fence := fence; sr_state := invocationAccepted;
          sr_updated_at := Time.UnixMilli now |}]> rows))
      else st_fail (AdFailed "adapter invocation journal is missing")
  | None => st_fail (AdFailed "adapter invocation journal is missing")
  end.

Definition removeInvocation (invocationID fence : string) : JT unit :=
  rows ← st_read jn_invocations;
  match rows !! invocationID with
  | Some row =>
      if bool_decide (sr_fence row = fence) then st_write (set_starts (delete invocationID rows))
      else st_fail (AdFailed "adapter journal invocation is missing")
  | None => st_fail (AdFailed "adapter journal invocation is missing")
  end.

(** ** The outbox of notices *)

Record NoticeRow := {
  on_conversation : string;
  on_endpoint : string;
  on_body : string;
  on_active : bool;
  on_created_at : Z;
}.
Abbreviation Outbox := (gmap string NoticeRow).
Definition OT (A : Type) : Type := Trans Outbox AdErr A.

Definition maxOfferNoticeOutboxRows : Z := 64.
Definition maxOfferNoticeOutboxBytes : Z := maxOfferNoticeOutboxRows * Z.shiftl 32 10.
Definition maxOfferNoticeConversationBytes : Z := 128.
Definition maxOfferNoticeEndpointBytes : Z := 256.
Definition maxOfferNoticeIdempotencyBytes : Z := 256.

Definition noticeBytes (key : string) (row : NoticeRow) : Z :=
  goLen key + goLen (on_conversation row) + goLen (on_endpoint row) + goLen (on_body row).

(** [encoded] is the result of [EncodeOfferNotice]. *)
Definition ReserveV3OfferNotice (conversationID fromEndpoint : string) (encoded : option string) (idempotencyKey : string)
    (now : Z) : OT unit :=
  st_reject (blank conversationID || blank fromEndpoint || blank idempotencyKey ||
    (maxOfferNoticeConversationBytes <? goLen conversationID) || (maxOfferNoticeEndpointBytes <? goLen fromEndpoint) ||
    (maxOfferNoticeIdempotencyBytes <? goLen idempotencyKey)) (AdFailed "offer notice routing and outbox are required");;
  match encoded with
  | None => st_fail (AdFailed "encode v3 attachment offer notice")
  | Some body =>
      rows ← st_read (fun o => o);
      match rows !! idempotencyKey with
      | Some previous =>
          st_reject (negb (bool_decide (on_conversation previous = conversationID)) ||
            negb (bool_decide (on_endpoint previous = fromEndpoint)) || negb (bool_decide (on_body previous = body)))
            (AdFailed "changed v3 offer notice idempotency key")
      | None =>
          let row := {| on_conversation := conversationID; on_endpoint := fromEndpoint; on_body := body; on_active := false;
            on_created_at := Time.UnixMilli now |} in
          st_reject ((maxOfferNoticeOutboxRows <=? Z.of_nat (size rows)) ||
            (maxOfferNoticeOutboxBytes - noticeBytes idempotencyKey row <? msum noticeBytes rows))
            (AdFailed "v3 offer notice outbox capacity exhausted");;
          st_write (fun _ => <[idempotencyKey := row]> rows)
      end
  end.

(** The UPDATE of [ActivateV3OfferNotice] and the SELECT after it. *)
Definition activateNotice (idempotencyKey : string) : OT bool :=
  rows ← st_read (fun o => o);
  match rows !! idempotencyKey with
  | Some row =>
      if on_active row then mret false
      else
        st_write (fun _ => <[idempotencyKey := {| on_conversation := on_conversation row; on_endpoint := on_endpoint row;
          on_body := on_body row; on_active := true; on_created_at := on_created_at row |}]> rows);;
        mret true
  | None => mret false
  end.
Definition noticeActive (idempotencyKey : string) : OT unit :=
  rows ← st_read (fun o => o);
  match rows !! idempotencyKey with
  | Some row => st_reject (negb (on_active row)) (AdFailed "offer notice activation is unavailable")
  | None => st_fail (AdFailed "offer notice activation is unavailable")
  end.

Record Notice := { no_key : string; no_conversation : string; no_endpoint : string; no_body : string }.

Definition noticeLe (a b : string * NoticeRow) : bool :=
  (on_created_at a.2 <? on_created_at b.2) ||
  (on_created_at a.2 =? on_created_at b.2) && negb (stringLt b.1 a.1).

(** SELECT ... WHERE active=1 ORDER BY created_at, idempotency_key *)
Definition activeNotices : OT (list Notice) :=
  st_read (fun rows => (fun kv => {| no_key := kv.1; no_conversation := on_conversation kv.2; no_endpoint := on_endpoint kv.2;
      no_body := on_body kv.2 |}) <$>
    sortBy noticeLe (filter (fun kv => on_active kv.2 = true) (map_to_list rows))).

Definition sameNotice (notice : Notice) (row : NoticeRow) : bool :=
  bool_decide (on_conversation row = no_conversation notice) && bool_decide (on_endpoint row = no_endpoint notice) &&
  bool_decide (on_body row = no_body notice).

Definition deleteNotice (notice : Notice) : OT unit :=
  st_write (fun rows => match rows !! no_key notice with
    | Some row => if sameNotice notice row then delete (no_key notice) rows else rows
    | None => rows
    end).

(** ** Calls *)

Record Membership := { mb_Person : string; mb_Active : bool }.

Inductive Call : Type -> Type :=
  | JournalDb {A} (op : JT A) : Call (AdErr + A)
  | OutboxDb {A} (op : OT A) : Call (AdErr + A)
  | GroupMembers (cursor : string) : Call (AdErr + option (list Membership * string))
  | MailboxSend (endpoint : string) (message : InboundMessage) : Call (AdErr + unit)
  | Advertise (endpoints : list string) : Call (AdErr + unit)
  | Lease (endpoint : string) : Call (AdErr + list Delivery)
  | Ack (delivery : Delivery) : Call (AdErr + unit)
  | LeaseInvocations : Call (AdErr + list Invocation)
  | ReportInvocation (invocation : Invocation) (accepted : bool) : Call (AdErr + unit)
  | Invoke (invocation : Invocation) : Call (AdErr + unit)
  | SendNotice (notice : Notice) : Call (AdErr + unit)
  | Now : Call Z.

Abbreviation Prog := (Program Call).

Definition failed {A} (text : string) : Prog (AdErr + A) := failWith (AdFailed text).
Definition guard (b : bool) (text : string) : Prog (AdErr + unit) := if b then failed text else ok tt.
Definition journal {A} (op : JT A) : Prog (AdErr + A) := call (JournalDb op).
Definition outbox {A} (op : OT A) : Prog (AdErr + A) := call (OutboxDb op).

(** ** The local mailbox *)

Definition maximumMemberships : Z := 256.
Definition sortStrings (l : list string) : list string := sortBy (fun a b => negb (stringLt b a)) l.

(** The active members of a page, in order; an active member twice is an error. *)
Fixpoint activeMembers (seen : gset string) (memberships : list Membership) : option (gset string * list string) :=
  match memberships with
  | [] => Some (seen, [])
  | membership :: memberships =>
      let person := TrimSpace (mb_Person membership) in
      if negb (mb_Active membership) || bool_decide (person = "") then activeMembers seen memberships
      else if bool_decide (person ∈ seen) then None
      else '(seen, endpoints) ← activeMembers ({[person]} ∪ seen) memberships; Some (seen, person :: endpoints)
  end.

Definition badCursor (cursor nextCursor : string) : bool :=
  bool_decide (nextCursor = cursor) || (4096 <? goLen nextCursor) ||
  ContainsByte nextCursor (Ascii.ascii_of_nat 13) || ContainsByte nextCursor (Ascii.ascii_of_nat 10) || ContainsByte nextCursor (Ascii.ascii_of_nat 0).

Fixpoint attachedPages (pages : nat) (cursor : string) (count : Z) (seen : gset string) (endpoints : list string)
    : Prog (AdErr + list string) :=
  match pages with
  | O => failed "decode local mailbox attachment group: pagination limit exceeded"
  | S pages =>
      page ⇐ call (GroupMembers cursor);
      match page with
      | None => failed "decode local mailbox attachment group"
      | Some (memberships, nextCursor) =>
          let count := count + Z.of_nat (length memberships) in
          if maximumMemberships <? count then failed "decode local mailbox attachment group: membership limit exceeded"
          else match activeMembers seen memberships with
          | None => failed "decode local mailbox attachment group: duplicate active member"
          | Some (seen, members) =>
              let endpoints := endpoints ++ members in
              if bool_decide (nextCursor = "") then ok (sortStrings endpoints)
              else if badCursor cursor nextCursor then failed "decode local mailbox attachment group: invalid cursor"
              else attachedPages pages nextCursor count seen endpoints
          end
      end
  end.

Definition Attached : Prog (AdErr + list string) := attachedPages 8 "" 0 ∅ [].

(** The method [Send] of the mailbox. *)
Definition mailboxSend (endpoint : string) (message : InboundMessage) : Prog (AdErr + unit) :=
  guard (blank endpoint) "mailbox endpoint is required" ⨟ call (MailboxSend endpoint message).

(** ** Deliveries *)

Definition inboundEnvelope (delivery : Delivery) : InboundMessage :=
  let m := v_Message delivery in {|
  in_PunaroMessageID := g_ID m;
  in_ConversationID := g_ConversationID m;
  in_Sequence := g_Sequence m;
  in_FromEndpoint := if bool_decide (g_FromParticipant m = TelegramUserParticipant) then TelegramUserParticipant
                     else g_FromEndpoint m;
  in_FromRole := g_FromRole m;
  in_FromParticipant := g_FromParticipant m;
  in_RecipientRole := v_RecipientRole delivery;
  in_InReplyToEndpoint := g_InReplyToEndpoint m;
  in_InReplyToPunaroMessageID := g_InReplyToMessageID m;
  in_TelegramThreadID := g_TelegramThreadID m;
  in_Body := g_Body m;
  in_CreatedAt := g_CreatedAt m |}.

Definition uniqueEndpoints (endpoints : list string) : Prog (AdErr + list string) :=
  guard (existsb blank endpoints) "attached mailbox contains an empty endpoint" ⨟
  ok (sortStrings (elements (list_to_set endpoints : gset string))).

Definition ensureReceived (deliveryID messageID : string) (now : Z) : Prog (AdErr + deliveryState) :=
  guard (blank deliveryID || blank messageID) "delivery and message IDs are required" ⨟
  journal (insertReceived deliveryID messageID now) ⨟
  journal (readReceived deliveryID messageID).

Definition acknowledge (delivery : Delivery) (now : Z) : Prog (AdErr + unit) :=
  call (Ack delivery) ⨟ journal (MarkAcknowledged (v_ID delivery) now).

Definition forwardAndAcknowledge (endpoint : string) (delivery : Delivery) (now : Z) : Prog (AdErr + unit) :=
  let messageID := g_ID (v_Message delivery) in
  state ⇐ ensureReceived (v_ID delivery) messageID now;
  match state with
  | deliveryAcknowledged => ok tt
  | deliveryReceived =>
      mailboxSend endpoint (inboundEnvelope delivery) ⨟
      journal (MarkForwarded (v_ID delivery) messageID now) ⨟
      acknowledge delivery now
  | deliveryForwarded => acknowledge delivery now
  end.

Fixpoint forwardAll (endpoint : string) (deliveries : list Delivery) : Prog (AdErr + unit) :=
  match deliveries with
  | [] => ok tt
  | delivery :: deliveries =>
      now ← call Now;
      forwardAndAcknowledge endpoint delivery now ⨟ forwardAll endpoint deliveries
  end.

Fixpoint syncEndpoints (endpoints : list string) : Prog (AdErr + unit) :=
  match endpoints with
  | [] => ok tt
  | endpoint :: endpoints =>
      deliveries ⇐ call (Lease endpoint);
      forwardAll endpoint deliveries ⨟ syncEndpoints endpoints
  end.

(** ** Starts *)

Definition ensureInvocation (invocationID fence : string) (now : Z) : Prog (AdErr + invocationState) :=
  guard (blank invocationID || blank fence) "invocation ID and fence are required" ⨟
  journal (insertInvocation invocationID fence now) ⨟
  journal (readInvocation invocationID fence).

(** Report an outcome and forget the start. *)
Definition reportAndRemove (invocation : Invocation) (accepted : bool) : Prog (AdErr + unit) :=
  call (ReportInvocation invocation accepted) ⨟ journal (removeInvocation (i_ID invocation) (i_Fence invocation)).

(** A start that was not accepted before. *)
Definition startInvocation (invocation : Invocation) (now : Z) : Prog (AdErr + unit) :=
  if i_RecoveryOnly invocation then
    reportAndRemove invocation false ⨟ failed "recovery-only invocation has no accepted local handoff"
  else
    attached ⇐ Attached;
    attached ⇐ uniqueEndpoints attached;
    if bool_decide (i_TargetEndpoint invocation ∈ attached) then reportAndRemove invocation true
    else
      invoked ← call (Invoke invocation);
      match invoked with
      | inl e => reportAndRemove invocation false ⨟ failWith e
      | inr _ =>
          journal (markInvocationAccepted (i_ID invocation) (i_Fence invocation) now) ⨟
          reportAndRemove invocation true
      end.

Fixpoint syncStarts (invocations : list Invocation) (now : Z) : Prog (AdErr + unit) :=
  match invocations with
  | [] => ok tt
  | invocation :: invocations =>
      state ⇐ ensureInvocation (i_ID invocation) (i_Fence invocation) now;
      match state with
      | invocationAccepted => reportAndRemove invocation true
      | invocationPending => startInvocation invocation now
      end ⨟
      syncStarts invocations now
  end.

Definition syncInvocations (now : Z) : Prog (AdErr + unit) :=
  journal (pruneInvocationRecoveryRows now) ⨟
  invocations ⇐ call LeaseInvocations;
  syncStarts invocations now.

(** ** A cycle *)

Definition SyncOnce (invoker : bool) : Prog (AdErr + unit) :=
  endpoints ⇐ Attached;
  endpoints ⇐ uniqueEndpoints endpoints;
  call (Advertise endpoints) ⨟
  syncEndpoints endpoints ⨟
  if invoker then (now ← call Now; syncInvocations now) else ok tt.

(** ** Notices *)

Definition ActivateV3OfferNotice (idempotencyKey : string) : Prog (AdErr + unit) :=
  guard (blank idempotencyKey) "offer notice activation is required" ⨟
  changed ⇐ outbox (activateNotice idempotencyKey);
  if changed : bool then ok tt else outbox (noticeActive idempotencyKey).

Definition EnqueueV3OfferNotice (conversationID fromEndpoint : string) (encoded : option string) (idempotencyKey : string)
    : Prog (AdErr + unit) :=
  now ← call Now;
  outbox (ReserveV3OfferNotice conversationID fromEndpoint encoded idempotencyKey now) ⨟
  ActivateV3OfferNotice idempotencyKey.

Definition terminalNotice (e : AdErr) : bool := match e with AdRemote permanent => permanent | _ => false end.

Fixpoint flushAll (notices : list Notice) : Prog (AdErr + unit) :=
  match notices with
  | [] => ok tt
  | notice :: notices =>
      sent ← call (SendNotice notice);
      match sent with
      | inl e => (if terminalNotice e then outbox (deleteNotice notice) else ok tt) ⨟ failWith e
      | inr _ => outbox (deleteNotice notice) ⨟ flushAll notices
      end
  end.

Definition Flush : Prog (AdErr + unit) :=
  notices ⇐ outbox activeNotices; flushAll notices.

(** One turn of the loop of [run]; failures wait for the next one. *)
Definition adapterTurn (invoker : bool) : Prog unit :=
  Flush;; SyncOnce invoker;; mret tt.
