(* ===== verification/AdapterRelay.v ===== *)
(** * A machine's adapter and the relay

    First the calls of the adapter's programs: which of them touch the delivery
    rows of the journal, and what they do to the outbox.  Then one machine's
    processes run against the relay. *)

From S2P Require Import Prelude GoTime RateLimit Quota Text Sha256 Tables Tx Sessions Pending.
From S2P Require Import QuotaInv Invocations Rooms Claims Roles Directory Messages Deliveries Relay QuotaOps.
From S2P Require Import History Progress Fence Programs Adapter.
Open Scope Z_scope.

(** ** Operations on the outbox *)

Definition noticeOf (key : string) (row : NoticeRow) : Notice :=
  {| no_key := key; no_conversation := on_conversation row; no_endpoint := on_endpoint row; no_body := on_body row |}.

Lemma sameNotice_of notice row : sameNotice notice row = true -> noticeOf (no_key notice) row = notice.
Proof. unfold sameNotice, noticeOf. intros Hs. bool_hyps. destruct notice; cbn in *. by subst. Qed.

(** ** Bounds *)

Definition withinBounds (o : Outbox) : Prop :=
  Z.of_nat (size o) <= maxOfferNoticeOutboxRows /\ msum noticeBytes o <= maxOfferNoticeOutboxBytes.

Lemma noticeBytes_nonneg key row : 0 <= noticeBytes key row.
Proof. unfold noticeBytes, goLen. lia. Qed.

Lemma bounds_delete key (o : gmap string NoticeRow) : withinBounds o -> withinBounds (delete key o).
Proof.
  intros [Hs Hb]. destruct (o !! key) as [row|] eqn:Hrow; [|by rewrite delete_id by done].
  pose proof (msum_delete noticeBytes _ _ _ Hrow). pose proof (noticeBytes_nonneg key row).
  assert (is_Some (o !! key)) as Hd%map_size_delete_Some by done. split; [rewrite Hd; lia|lia].
Qed.

(** The operations on the outbox the programs use: they keep the bounds, and a
    deletion removes one notice only. *)
Definition boxOp {A} (op : OT A) (gone : option Notice) : Prop :=
  forall o a o', op o = inr (a, o') ->
    (withinBounds o -> withinBounds o') /\
    forall key row, o !! key = Some row -> on_active row = true -> o' !! key = Some row \/ gone = Some (noticeOf key row).

Lemma reserve_op c e body key now : boxOp (ReserveV3OfferNotice c e body key now) None.
Proof.
  intros o a o' Hop. unfold ReserveV3OfferNotice in Hop. st_cases; [auto|]. bool_hyps. cbn. split.
  - intros [Hs Hb]. split.
    + rewrite map_size_insert_None by done. lia.
    + rewrite msum_insert_new by done. lia.
  - intros k r Hk _. left. by rewrite lookup_insert_ne by (intros ->; congruence).
Qed.
Lemma activate_op key : boxOp (activateNotice key) None.
Proof.
  intros o a o' Hop. unfold activateNotice in Hop. st_cases; try (by auto). cbn. split.
  - intros [Hs Hb]. split; [by rewrite map_size_insert_Some by done|]. erewrite msum_update by done. unfold noticeBytes in *. cbn. lia.
  - intros k r Hk Ha. left. rewrite lookup_insert_ne; [done|]. intros ->. congruence.
Qed.
Lemma active_op key : boxOp (noticeActive key) None.
Proof. intros o a o' Hop. unfold noticeActive in Hop. st_cases. auto. Qed.
Lemma select_op : boxOp activeNotices None.
Proof. intros o a o' Hop. unfold activeNotices in Hop. st_cases. auto. Qed.
Lemma delete_op notice : boxOp (deleteNotice notice) (Some notice).
Proof.
  intros o a o' Hop. unfold deleteNotice in Hop. st_cases. cbn. destruct (o !! no_key notice) as [row|] eqn:Hrow; [|auto].
  destruct (sameNotice notice row) eqn:Hsame; [|auto]. split; [apply bounds_delete|].
  intros key row' Hk _. destruct (decide (key = no_key notice)) as [->|Hne].
  - right. simplify_eq. by rewrite (sameNotice_of _ _ Hsame).
  - left. by rewrite lookup_delete_ne.
Qed.

(** ** Calls *)

(** Calls that neither acknowledge nor touch the delivery rows. *)
Definition quiet (R : Type) (c : Call R) : Prop :=
  match c with
  | JournalDb op => forall j a j', op j = inr (a, j') -> jn_deliveries j' = jn_deliveries j
  | Ack _ => False
  | _ => True
  end.
(** Calls that leave the active notices in the outbox. *)
Definition boxQuiet (R : Type) (c : Call R) : Prop := match c with OutboxDb op => boxOp op None | _ => True end.
Definition harmless (R : Type) (c : Call R) : Prop := quiet R c /\ boxQuiet R c.

Create HintDb calls.
#[export] Hint Resolve reserve_op activate_op active_op select_op : calls.

Ltac calls_leaf :=
  apply every_call;
  lazymatch goal with
  | |- harmless _ _ => split; [cbn [quiet]|cbn [boxQuiet]]
  | |- quiet _ _ => cbn [quiet]
  | |- boxQuiet _ _ => cbn [boxQuiet]
  | _ => idtac
  end; try exact I; auto with calls;
  try (let Hop := fresh in intros ? ? ? Hop;
    unfold insertInvocation, readInvocation, pruneInvocationRecoveryRows, markInvocationAccepted, removeInvocation in Hop; st_cases; done).
Ltac calls_step :=
  lazymatch goal with
  | |- everyCall _ (tryBind _ _) => apply every_try; [|intros ?]
  | |- everyCall _ (mbind _ _) => apply every_bind; [|intros ?]
  | |- everyCall _ (journal _) => calls_leaf
  | |- everyCall _ (outbox _) => calls_leaf
  | |- everyCall _ (call _) => calls_leaf
  | |- everyCall _ (match ?x with _ => _ end) => destruct x eqn:?
  | |- everyCall _ (mret _) => exact I
  | |- everyCall _ (ok _) => exact I
  | |- everyCall _ (failWith _) => exact I
  | |- everyCall _ (failed _) => exact I
  | |- everyCall _ (guard _ _) => unfold guard
  | |- everyCall _ (let _ := _ in _) => cbv zeta
  | |- everyCall _ _ => by auto with calls
  end.
Ltac calls := repeat calls_step.

(** *** Harmless programs *)

Lemma pages_harmless n cursor count seen endpoints : everyCall harmless (attachedPages n cursor count seen endpoints).
Proof. revert cursor count seen endpoints. induction n; intros; cbn [attachedPages]; calls; auto. Qed.
Lemma attached_harmless : everyCall harmless Attached.
Proof. apply pages_harmless. Qed.
Lemma unique_harmless l : everyCall harmless (uniqueEndpoints l).
Proof. unfold uniqueEndpoints. calls. Qed.
Lemma report_harmless i accepted : everyCall harmless (reportAndRemove i accepted).
Proof. unfold reportAndRemove. calls. Qed.
#[export] Hint Resolve attached_harmless unique_harmless report_harmless : calls.

Lemma start_harmless i now : everyCall harmless (startInvocation i now).
Proof. unfold startInvocation. calls. Qed.
Lemma ensure_harmless i fence now : everyCall harmless (ensureInvocation i fence now).
Proof. unfold ensureInvocation. calls. Qed.
#[export] Hint Resolve start_harmless ensure_harmless : calls.

Lemma starts_harmless l now : everyCall harmless (syncStarts l now).
Proof. induction l; cbn [syncStarts]; calls; auto. Qed.
#[export] Hint Resolve starts_harmless : calls.
Lemma invocations_harmless now : everyCall harmless (syncInvocations now).
Proof. unfold syncInvocations. calls. Qed.
#[export] Hint Resolve invocations_harmless : calls.

Lemma activate_harmless key : everyCall harmless (ActivateV3OfferNotice key).
Proof. unfold ActivateV3OfferNotice. calls. Qed.
#[export] Hint Resolve activate_harmless : calls.
Lemma enqueue_harmless c e body key : everyCall harmless (EnqueueV3OfferNotice c e body key).
Proof. unfold EnqueueV3OfferNotice. calls. Qed.
#[export] Hint Resolve enqueue_harmless : calls.

Lemma harmless_quiet {A} (p : Prog A) : everyCall harmless p -> everyCall quiet p.
Proof. apply every_impl. by intros R c [? _]. Qed.
Lemma harmless_box {A} (p : Prog A) : everyCall harmless p -> everyCall boxQuiet p.
Proof. apply every_impl. by intros R c [_ ?]. Qed.
#[export] Hint Resolve harmless_quiet harmless_box : calls.

(** *** Notices do not touch the journal, deliveries not the outbox *)

Lemma flushAll_quiet l : everyCall quiet (flushAll l).
Proof. induction l; cbn [flushAll]; calls; auto. Qed.
#[export] Hint Resolve flushAll_quiet : calls.
Lemma flush_quiet : everyCall quiet Flush.
Proof. unfold Flush. calls. Qed.

Lemma forwardAll_box endpoint l : everyCall boxQuiet (forwardAll endpoint l).
Proof. induction l; cbn [forwardAll]; unfold forwardAndAcknowledge, ensureReceived, mailboxSend, acknowledge; calls; auto. Qed.
#[export] Hint Resolve forwardAll_box : calls.
Lemma syncEndpoints_box l : everyCall boxQuiet (syncEndpoints l).
Proof. induction l; cbn [syncEndpoints]; calls; auto. Qed.
#[export] Hint Resolve syncEndpoints_box : calls.
Lemma syncOnce_box invoker : everyCall boxQuiet (SyncOnce invoker).
Proof. unfold SyncOnce. calls. Qed.

(** * One machine and the relay

    One machine's adapter processes, their journal and outbox, and the relay
    they call, whose operations are the ones of the other files.  A call to the
    relay may not arrive, and its answer may be lost.  Between any two calls the
    relay may do anything else. *)

Abbreviation Event := (Programs.Event Call).
Abbreviation Thread := (Programs.Thread Call).

Record Site := { si_relay : St; si_journal : Journal; si_outbox : Outbox }.
Definition with_relay (t : St) (s : Site) : Site := {| si_relay := t; si_journal := si_journal s; si_outbox := si_outbox s |}.
Definition with_journal (j : Journal) (s : Site) : Site := {| si_relay := si_relay s; si_journal := j; si_outbox := si_outbox s |}.
Definition with_outbox (o : Outbox) (s : Site) : Site := {| si_relay := si_relay s; si_journal := si_journal s; si_outbox := o |}.
Abbreviation relayDb := (fun s : Site => st_db (si_relay s)).

(** A relay operation called over the network; only an operation that was not
    carried out is rejected for good. *)
Inductive overNetwork {A B} (op : M A) (f : A -> B) (s : St) : AdErr + B -> St -> Prop :=
  | network_ok a s' : op s = (inr a, s') -> overNetwork op f s (inr (f a)) s'
  | network_refused e s' permanent : op s = (inl e, s') -> overNetwork op f s (inl (AdRemote permanent)) s'
  | network_lost r s' : op s = (r, s') -> overNetwork op f s (inl (AdRemote false)) s'
  | network_denied permanent : overNetwork op f s (inl (AdRemote permanent)) s.

Section Site.
Context `{Env} (machineID : string).

(** The append a notice becomes. *)
Definition noticeInput (notice : Notice) (principalID : string) (now : Z) : AppendInput := {|
  ai_ConversationID := no_conversation notice;
  ai_SenderMachineID := machineID;
  ai_PrincipalID := principalID;
  ai_FromEndpoint := no_endpoint notice;
  ai_TargetRole := "";
  ai_Body := no_body notice;
  ai_ArtifactIDs := [];
  ai_IdempotencyKey := no_key notice;
  ai_Now := now |}.

Definition atRelay {A B} (op : M A) (f : A -> B) (s : Site) (r : AdErr + B) (s' : Site) : Prop :=
  exists t, overNetwork op f (si_relay s) r t /\ s' = with_relay t s.

Definition siteReplies (s : Site) (R : Type) (c : Call R) : R -> Site -> Prop :=
  match c in Call R return R -> Site -> Prop with
  | JournalDb op => fun r s' => exists j, answers AdDatabase op (si_journal s) r j /\ s' = with_journal j s
  | OutboxDb op => fun r s' => exists o, answers AdDatabase op (si_outbox s) r o /\ s' = with_outbox o s
  | Advertise endpoints => fun r s' => exists now ttl,
      atRelay (AdvertiseEndpoints machineID endpoints now ttl) (fun u => u) s r s'
  | Lease endpoint => fun r s' => exists consumerID now ttl limit,
      atRelay (LeaseDeliveries machineID consumerID endpoint "" now ttl limit) p_Deliveries s r s'
  | Ack v => fun r s' => exists now,
      atRelay (AckDelivery machineID (v_RecipientEndpoint v) (v_ID v) (v_LeaseToken v) (v_LeaseGeneration v) now)
        (fun u => u) s r s'
  | LeaseInvocations => fun r s' => exists consumerID now ttl limit,
      atRelay (Invocations.LeaseInvocations machineID consumerID now ttl limit) (fun l => l) s r s'
  | ReportInvocation i accepted => fun r s' => exists now,
      atRelay (Invocations.ReportInvocation machineID (i_ID i) (i_LeaseToken i) (i_LeaseGeneration i) accepted now)
        (fun u => u) s r s'
  | SendNotice notice => fun r s' => exists principalID now,
      atRelay (AppendMessage (noticeInput notice principalID now)) (fun _ => tt) s r s'
  | _ => fun _ s' => s' = s
  end.

(** What may be started: turns of the daemon and the offer commands. *)
Inductive entry : Thread -> Prop :=
  | entry_turn invoker : entry (process (adapterTurn invoker))
  | entry_reserve c e body key now : entry (process (outbox (ReserveV3OfferNotice c e body key now)))
  | entry_activate key : entry (process (ActivateV3OfferNotice key))
  | entry_enqueue c e body key : entry (process (EnqueueV3OfferNotice c e body key)).

(** The relay works for others too. *)
Definition others (s s' : Site) : Prop := exists t, step (si_relay s) t /\ s' = with_relay t s.

Definition siteStep := pool_step siteReplies entry others.
Abbreviation Pool := (Programs.Pool Call Site).

Definition newSite (t : St) : Site := {| si_relay := t; si_journal := emptyJournal; si_outbox := ∅ |}.
Definition newPool (t : St) : Pool := {| po_threads := []; po_db := newSite t; po_trace := [] |}.
Definition siteRun (p : Pool) : Prop := exists t, reachable t /\ rtc siteStep (newPool t) p.

(** *** The relay's own steps *)

Lemma network_step {A B} (op : Op) (m : M A) (f : A -> B) s r s' :
  (forall t, run_op op t = void m t) -> overNetwork m f s r s' -> rtc step s s'.
Proof.
  intros Hop. assert (forall a t, m s = (a, t) -> rtc step s t) as Hstep.
  { intros a t Hm. assert (exists b, run_op op s = (b, t)) as [b Hb].
    { rewrite Hop. unfold void, mbind, M_bind. rewrite Hm. destruct a; by eexists. }
    by eapply rtc_once, step_op. }
  by intros [a t Ha|e t permanent Ha|a t Ha|permanent]; eauto; apply rtc_refl.
Qed.

Lemma void_unit (m : M unit) s : m s = void m s.
Proof. unfold void, mbind, M_bind, mret, M_ret. by destruct (m s) as [[e|[]] t]. Qed.

Ltac reply_cases Hr :=
  cbn in Hr; unfold atRelay in Hr; repeat match goal with H : ex _ |- _ => destruct H as [? H] end;
  lazymatch type of Hr with _ /\ _ => destruct Hr as [Hr ->] | _ => subst end.

Lemma replies_steps s R c r s' : siteReplies s R c r s' -> rtc step (si_relay s) (si_relay s').
Proof.
  intros Hr. destruct c; reply_cases Hr; cbn; try apply rtc_refl.
  - by eapply (network_step (OpAdvertiseEndpoints _ _ _ _)); [intros t; apply void_unit|].
  - by eapply (network_step (OpLeaseDeliveries _ _ _ _ _ _ _)).
  - by eapply (network_step (OpAckDelivery _ _ _ _ _ _)); [intros t; apply void_unit|].
  - by eapply (network_step (OpLeaseInvocations _ _ _ _ _)).
  - by eapply (network_step (OpReportInvocation _ _ _ _ _ _)); [intros t; apply void_unit|].
  - by eapply (network_step (OpAppendMessage _)).
Qed.

(** *** Who writes what *)

Lemma replies_journal s R (c : Call R) r s' :
  siteReplies s R c r s' ->
  match c in Call R return R -> Prop with
  | JournalDb op => fun r => answers AdDatabase op (si_journal s) r (si_journal s')
  | _ => fun _ => si_journal s' = si_journal s
  end r.
Proof. intros Hr. destruct c; by reply_cases Hr. Qed.

Lemma replies_outbox s R (c : Call R) r s' :
  siteReplies s R c r s' ->
  match c in Call R return R -> Prop with
  | OutboxDb op => fun r => answers AdDatabase op (si_outbox s) r (si_outbox s')
  | _ => fun _ => si_outbox s' = si_outbox s
  end r.
Proof. intros Hr. destruct c; by reply_cases Hr. Qed.

(** *** What is leased is what is stored *)

(** The delivery is of the tables: its text, sender and recipient are those of
    the rows. *)
Definition stored (d : Db) (v : Delivery) : Prop :=
  exists dl m, db_deliveries d !! v_ID v = Some dl /\ db_messages d !! dl_message dl = Some m /\
    v_Message v = messageOf (dl_message dl) m (db_message_from_roles d !! dl_message dl) /\
    v_RecipientRole v = default "" (parseRoleRecipient (dl_recipient dl)).

Lemma stored_steps s s' v : rtc step s s' -> stored (st_db s) v -> stored (st_db s') v.
Proof.
  intros Hs (dl & m & Hdl & Hm & Hmsg & Hrole).
  destruct (stable_steps _ _ _ Hs (deliveries_evolve_refl (st_db s)) _ _ Hdl) as (dl' & Hdl' & Em & Er & _).
  destruct (messages_immutable _ _ _ _ Hs Hm) as [Hm' Hroles].
  exists dl', m. rewrite Em, Er, Hroles. auto.
Qed.

(** The two leases of one delivery carry the same envelope. *)
Lemma stored_envelope d v v' : stored d v -> stored d v' -> v_ID v' = v_ID v -> inboundEnvelope v' = inboundEnvelope v.
Proof.
  intros (dl & m & Hdl & Hm & Hmsg & Hrole) (dl' & m' & Hdl' & Hm' & Hmsg' & Hrole') Hid. rewrite Hid in Hdl'. simplify_eq.
  unfold inboundEnvelope. by rewrite Hmsg, Hmsg', Hrole, Hrole'.
Qed.

Definition pageRow (d : Db) (endpoint : string) (row : string * DeliveryRow * MessageRow) (v : Delivery) : Prop :=
  v_ID v = row.1.1 /\ v_RecipientEndpoint v = endpoint /\ v_Message v = messageOf (dl_message row.1.2) row.2 (db_message_from_roles d !! dl_message row.1.2) /\
  v_RecipientRole v = default "" (parseRoleRecipient (dl_recipient row.1.2)).

Lemma leaseDelivery_row endpoint ownership consumer now ttl id dl m r s s' :
  leaseDelivery machineID endpoint ownership consumer now ttl (id, dl, m) s = (inr r, s') ->
  pageRow (st_db s) endpoint (id, dl, m) r.1 /\ exists x, st_db s' = set_deliveries x (st_db s).
Proof.
  intros Hl. unfold leaseDelivery in Hl. tx_inv Hl. destruct (leaseCurrent _ _ _ _ _); tx_inv Hl; simplify_eq.
  - split; [done|]. exists (db_deliveries (st_db s)). by destruct (st_db s).
  - split; [done|]. apply sql_update_ok in Hm0 as [(_ & -> & _)|(_ & dl' & _ & _ & _ & _ & ->)]; cbn.
    + exists (db_deliveries (st_db s)). by destruct (st_db s).
    + by eexists.
Qed.

Lemma lease_loop_rows endpoint ownership consumer now ttl rows r s s' :
  collect rows (leaseDelivery machineID endpoint ownership consumer now ttl) s = (inr r, s') ->
  Forall2 (pageRow (st_db s) endpoint) rows r.*1 /\ exists x, st_db s' = set_deliveries x (st_db s).
Proof.
  revert r s. induction rows as [|[[id dl] m] rows IH]; intros r s Hl; simpl in Hl; tx_inv Hl.
  { split; [constructor|]. exists (db_deliveries (st_db s)). by destruct (st_db s). }
  apply leaseDelivery_row in Hm as [Hrow [x Hx]]. destruct (IH _ _ Hm0) as [Hrows [y Hy]]. rewrite Hx in Hy. split; [|by eexists].
  constructor; [done|]. by rewrite Hx in Hrows.
Qed.

Lemma candidates_stored d rs conversationID ownership consumer now n row :
  row ∈ take n (leaseCandidates d rs machineID conversationID ownership consumer now) ->
  db_messages d !! dl_message row.1.2 = Some row.2.
Proof.
  intros (i & Hrow & _)%elem_of_take. apply list_elem_of_lookup_2 in Hrow.
  unfold leaseCandidates in Hrow. apply elem_of_sortBy in Hrow.
  apply list_elem_of_omap in Hrow as ([id dl] & _ & Hrow). simpl in Hrow.
  destruct (pendingMessage d dl) as [m|] eqn:Hm; [|done]. destruct (_ && _); [|done]. simplify_eq.
  unfold pendingMessage in Hm. cbn. by destruct (dl_acked dl).
Qed.

Lemma lease_contents consumerID endpoint conversationID now ttl limit page s s' :
  LeaseDeliveries machineID consumerID endpoint conversationID now ttl limit s = (inr page, s') ->
  NoDup (v_ID <$> p_Deliveries page) /\
  forall v, v ∈ p_Deliveries page -> stored (st_db s') v /\ v_RecipientEndpoint v = endpoint.
Proof.
  intros Hl. unfold LeaseDeliveries, sessionRecipientIDs in Hl. tx_inv Hl. cbn [fst p_Deliveries].
  apply endpointOwnership_ok in Hm1 as (e & _ & -> & ->).
  edestruct leaseCandidates_pending as [Hp Hnd].
  pose proof (lease_loop_evolve (st_db s2) _ _ _ _ _ _ _ _ _ _ Hm5 Hp Hnd (deliveries_evolve_refl _)) as Hev.
  destruct (lease_loop_rows _ _ _ _ _ _ _ _ _ Hm5) as [Hrows [x Hx]].
  assert (st_db s4 = st_db s3) as Hs4 by (revert Hm6; apply reads_collect; intros id; reads).
  split.
  { match goal with |- NoDup ?l => match type of Hnd with NoDup ?l' => assert (l = l') as -> end end; [|done].
    clear -Hrows. induction Hrows as [|row v rows vs (Hid & _) _ IH]; [done|]. cbn. by rewrite Hid, IH. }
  intros v Hv. apply list_elem_of_lookup in Hv as [j Hv]. destruct (Forall2_lookup_r _ _ _ _ _ Hrows Hv) as ([[id dl] m] & Hin%list_elem_of_lookup_2 & Hid & Hep & Hmsg & Hrole). cbn in Hid, Hmsg, Hrole.
  split; [|done].
  destruct (Hp _ Hin) as [Hdl _]. destruct (Hev _ _ Hdl) as (dl' & Hdl' & Em & Er & _). cbn in Hdl', Em, Er.
  apply candidates_stored in Hin. cbn in Hin. change (stored (st_db s4) v). rewrite Hs4.
  exists dl', m. rewrite Hid, Em, Er. split_and!; [done|by rewrite Hx| |done]. by rewrite Hx.
Qed.

(** An acknowledged delivery is closed. *)
Definition closedAt (d : Db) (id : string) : Prop := exists dl, db_deliveries d !! id = Some dl /\ isPending dl = false.

Lemma closed_steps s s' id : rtc step s s' -> closedAt (st_db s) id -> closedAt (st_db s') id.
Proof.
  intros Hs (dl & Hdl & Hp). destruct (stable_steps _ _ _ Hs (deliveries_evolve_refl (st_db s)) _ _ Hdl) as (dl' & Hdl' & _ & _ & _ & _ & Hc).
  exists dl'. split; [done|]. by rewrite Hc.
Qed.

Lemma ack_closes endpoint id token generation now s s' :
  AckDelivery machineID endpoint id token generation now s = (inr tt, s') -> closedAt (st_db s') id.
Proof.
  intros (r & s1 & Ht & ->)%AckDelivery_ok. apply ackTransaction_ok in Ht as (e & dl & _ & Hdl & _ & _ & Hcase).
  destruct Hcase as [(_ & -> & Hp)|(_ & _ & _ & m & s2 & s3 & s4 & _ & _ & -> & H1 & H2 & H3)]; [by exists dl|].
  set (s0 := set_row t_deliveries id (ackRow now dl) s) in *. exists (ackRow now dl). split; [|done].
  assert (same_mail (st_db s0) (st_db s3)) as (H1d & _) by by step_back H1.
  assert (same_mail (st_db s3) (st_db s4)) as (H2d & _) by by step_back H2.
  assert (same_mail (st_db s4) (st_db s1)) as (H3d & _) by by step_back H3.
  rewrite H3d, H2d, H1d. cbn. apply lookup_insert_eq.
Qed.
End Site.
