(* ===== verification/AdapterMail.v ===== *)
(** * Deliveries and notices through the adapter

    Whatever the processes of a machine's adapter do, wherever they stop and
    whatever is lost on the way to the relay: a delivery is acknowledged only
    after the local mailbox took the very message the relay stored.  Offer notices
    stay in the bounded outbox until the relay has answered for them. *)

From S2P Require Import Prelude GoTime RateLimit Quota Text Sha256 Tables Tx Sessions Pending.
From S2P Require Import QuotaInv Invocations Rooms Claims Roles Directory Messages Deliveries Relay QuotaOps.
From S2P Require Import History Replay Progress Fence Programs Adapter AdapterRelay.
Open Scope Z_scope.

(** ** Events *)

Definition asLease (ev : Event) : option (string * list Delivery) :=
  match ev with
  | @Did _ R c r => match c in Call R return R -> option (string * list Delivery) with
      | Lease e => fun r => match r with inr page => Some (e, page) | inl _ => None end
      | _ => fun _ => None
      end r
  end.
Definition asAck (ev : Event) : option (Delivery * bool) :=
  match ev with
  | @Did _ R c r => match c in Call R return R -> option (Delivery * bool) with
      | Ack v => fun r => Some (v, match r with inr _ => true | inl _ => false end)
      | _ => fun _ => None
      end r
  end.

(** The delivery was leased. *)
Definition leasedAs (tr : list Event) (v : Delivery) : Prop :=
  exists ev endpoint page, ev ∈ tr /\ asLease ev = Some (endpoint, page) /\ v ∈ page.
(** The mailbox took the envelope of a lease of it. *)
Definition injected (tr : list Event) (id : string) : Prop :=
  exists v endpoint, leasedAs tr v /\ v_ID v = id /\ Did (MailboxSend endpoint (inboundEnvelope v)) (inr tt) ∈ tr.
(** The relay confirmed its acknowledgement. *)
Definition acked (tr : list Event) (id : string) : Prop := exists ev v, ev ∈ tr /\ asAck ev = Some (v, true) /\ v_ID v = id.

Lemma leasedAs_later v : lasting (fun tr => leasedAs tr v).
Proof. intros tr tail (ev & e & page & Hin & ? & ?). exists ev, e, page. rewrite elem_of_app. auto. Qed.
Lemma injected_later id : lasting (fun tr => injected tr id).
Proof. intros tr tail (v & e & Hl & Hid & Hin). exists v, e. rewrite elem_of_app. split_and!; [by apply leasedAs_later|done|by left]. Qed.
Lemma acked_later id : lasting (fun tr => acked tr id).
Proof. intros tr tail (ev & v & Hin & ? & ?). exists ev, v. rewrite elem_of_app. auto. Qed.
#[export] Hint Resolve leasedAs_later injected_later acked_later : lasting.

Lemma leasedAs_snoc tr ev v : leasedAs (tr ++ [ev]) v -> leasedAs tr v \/ exists e page, asLease ev = Some (e, page) /\ v ∈ page.
Proof.
  intros (ev' & e & page & Hin & Hl & Hv). apply elem_of_app in Hin as [Hin| ->%list_elem_of_singleton]; [|by eauto].
  left. by exists ev', e, page.
Qed.
Lemma acked_snoc tr ev id : acked (tr ++ [ev]) id -> acked tr id \/ exists v, asAck ev = Some (v, true) /\ v_ID v = id.
Proof.
  intros (ev' & v & Hin & Ha & Hv). apply elem_of_app in Hin as [Hin| ->%list_elem_of_singleton]; [|by eauto].
  left. by exists ev', v.
Qed.

(** ** The invariant *)

Section Mail.
Context `{Env} (machineID : string).

(** A lease named this message for the delivery. *)
Definition named (tr : list Event) (id messageID : string) : Prop :=
  exists v, leasedAs tr v /\ v_ID v = id /\ g_ID (v_Message v) = messageID.

Record rowOk (tr : list Event) (id : string) (row : InboundRow) : Prop := {
  ro_message : named tr id (ir_message row);
  ro_injected : ir_state row <> deliveryReceived -> injected tr id;
  ro_acked : ir_state row = deliveryAcknowledged -> acked tr id;
}.

(** Acknowledgements follow the injection. *)
Definition ackFounded (past : list Event) (ev : Event) : Prop :=
  match ev with
  | @Did _ R c r => match c with Ack v => leasedAs past v /\ injected past (v_ID v) | _ => True end
  end.

Record mailInv (s : Site) (tr : list Event) : Prop := {
  mi_leased v : leasedAs tr v -> stored (relayDb s) v;
  mi_journal : map_Forall (rowOk tr) (jn_deliveries (si_journal s));
  mi_closed id : acked tr id -> closedAt (relayDb s) id;
  mi_order : ordered ackFounded tr;
}.

Lemma rowOk_later tr tail id row : rowOk tr id row -> rowOk (tr ++ tail) id row.
Proof.
  intros [(v & Hl & ?) Hi Ha]. split; [exists v; split; [by apply leasedAs_later|done]|..]; intros; [apply injected_later|apply acked_later]; auto.
Qed.
Lemma named_later id messageID : lasting (fun tr => named tr id messageID).
Proof. intros tr tail (v & Hl & ?). exists v. split; [by apply leasedAs_later|done]. Qed.

Lemma mailInv_call s tr R (c : Call R) r s' :
  mailInv s tr -> siteReplies machineID s R c r s' -> ackFounded tr (Did c r) ->
  map_Forall (rowOk (tr ++ [Did c r])) (jn_deliveries (si_journal s')) -> mailInv s' (tr ++ [Did c r]).
Proof.
  intros [Hl _ Hc Ho] Hr Hf Hj. pose proof (replies_steps _ _ _ _ _ _ Hr) as Hs. split; [| done | |].
  - intros v [Hv|(e & page & Hev & Hv)]%leasedAs_snoc; [by eapply stored_steps, Hl|].
    destruct c; try discriminate Hev. destruct r as [err|l]; [discriminate|]. cbn in Hev. simplify_eq.
    destruct Hr as (consumerID & now & ttl & limit & t & Hn & ->). inversion Hn; subst. by eapply lease_contents.
  - intros id [Ha|(v & Hev & <-)]%acked_snoc; [by eapply closed_steps, Hc|].
    destruct c; try discriminate Hev. destruct r as [err|[]]; [discriminate|]. cbn in Hev. simplify_eq.
    destruct Hr as (now & t & Hn & ->). inversion Hn; subst. by eapply ack_closes.
  - by apply ordered_snoc.
Qed.

Lemma mailInv_journal s tr {A} (op : JT A) r s' :
  mailInv s tr -> siteReplies machineID s _ (JournalDb op) r s' ->
  (forall a j', op (si_journal s) = inr (a, j') ->
    map_Forall (rowOk (tr ++ [Did (JournalDb op) r])) (jn_deliveries j')) -> mailInv s' (tr ++ [Did (JournalDb op) r]).
Proof.
  intros Hi Hr Hop. eapply mailInv_call; [done..|]. destruct Hr as (j & Ha & ->). cbn.
  apply answers_after in Ha as [->|[a Ha]]; [|by eapply Hop]. destruct Hi as [_ Hj _ _].
  eapply map_Forall_impl; [exact Hj|]. intros id row. apply rowOk_later.
Qed.

Lemma mailInv_quiet s tr R (c : Call R) r s' :
  quiet R c -> mailInv s tr -> siteReplies machineID s R c r s' -> mailInv s' (tr ++ [Did c r]).
Proof.
  intros Hq Hi Hr. assert (map_Forall (rowOk (tr ++ [Did c r])) (jn_deliveries (si_journal s))) as Hj.
  { eapply map_Forall_impl; [apply (mi_journal _ _ Hi)|]. intros id row. apply rowOk_later. }
  eapply mailInv_call; [done|done|by destruct c|]. apply replies_journal in Hr. destruct c; try (by rewrite Hr). cbn in Hr.
  apply answers_after in Hr as [->|[a Ha]]; [done|]. by rewrite (Hq _ _ _ Ha).
Qed.

(** ** Programs *)

Abbreviation keepsMail := (wk (siteReplies machineID) mailInv).

Lemma quiet_keeps {A} (p : Prog A) K : everyCall quiet p -> lasting K -> keepsMail K p (fun _ => K).
Proof. intros Hp HK. eapply every_keeps; [|done|exact Hp]. intros d tr R c r d'. apply mailInv_quiet. Qed.

(** *** One delivery *)

Lemma ensureReceived_keeps (K : list Event -> Prop) id messageID now :
  lasting K -> (forall tr, K tr -> named tr id messageID) -> keepsMail K (ensureReceived id messageID now) (fun r tr => K tr /\
    match r with inr deliveryForwarded => injected tr id | _ => True end).
Proof.
  intros HK Hnamed. unfold ensureReceived. eapply (wk_try _ _ _ _ _ (fun _ => K)); [|by intros|intros []].
  { apply quiet_keeps; [calls|done]. }
  eapply (wk_try _ _ _ _ _ (fun _ => K)); [|by intros|intros []].
  { eapply (wk_learn _ _ _ (fun _ => K)); [done| |by intros r tr Hk]. intros d tr r d' Hi Hk Hr. split; [|by apply HK].
    eapply mailInv_journal; [done..|]. intros a j' Hop. unfold insertReceived in Hop. st_cases. cbn.
    assert (map_Forall (rowOk (tr ++ [Did (JournalDb (insertReceived id messageID now)) r])) (jn_deliveries (si_journal d))) as Hj.
    { eapply map_Forall_impl; [apply (mi_journal _ _ Hi)|]. intros k row. apply rowOk_later. }
    case_match; [done|]. apply map_Forall_insert_2; [|done]. split; [by apply named_later, Hnamed|done..]. }
  eapply (wk_learn _ _ _ (fun r tr => K tr /\ match r with inr deliveryForwarded => injected tr id | _ => True end)).
  - intros [e|[]]; auto using lasting_and, lasting_true, injected_later.
  - intros d tr r d' Hi Hk Hr. split.
    { eapply mailInv_journal; [done..|]. intros a j' Hop. unfold readReceived in Hop. st_cases.
      eapply map_Forall_impl; [apply (mi_journal _ _ Hi)|]. intros k row. apply rowOk_later. }
    split; [by apply HK|]. destruct r as [e|[]]; [done|done| |done]. apply injected_later.
    destruct Hr as (j & Ha & _). inversion Ha as [a j1 Hop| | |]; subst. unfold readReceived in Hop. st_cases.
    apply (ro_injected _ _ _ (mi_journal _ _ Hi _ _ Heqo)). by rewrite Hop.
  - by intros r tr Hk.
Qed.

(** The mark is made once the mailbox has it. *)
Lemma markForwarded_keeps (K : list Event -> Prop) id messageID now :
  lasting K -> (forall tr, K tr -> named tr id messageID) -> keepsMail (fun tr => K tr /\ injected tr id) (journal (MarkForwarded id messageID now)) (fun _ tr => K tr /\ injected tr id).
Proof.
  intros HK Hnamed. eapply (wk_learn _ _ _ (fun _ tr => K tr /\ injected tr id)); [auto with lasting| |by intros r tr Hk].
  intros d tr r d' Hi [Hk Hin] Hr. split; [|split; [by apply HK|by apply injected_later]].
  eapply mailInv_journal; [done..|]. intros a j' Hop. unfold MarkForwarded in Hop. st_cases. cbn. apply map_Forall_insert_2.
  - split; cbn.
    + apply named_later. destruct (jn_deliveries (si_journal d) !! id) as [row|] eqn:Hrow; [|by apply Hnamed].
      by apply (ro_message _ _ _ (mi_journal _ _ Hi _ _ Hrow)).
    + intros _. by apply injected_later.
    + intros Hst. apply acked_later. destruct (jn_deliveries (si_journal d) !! id) as [row|] eqn:Hrow; [|done]. cbn in Hst.
      case_bool_decide; [|done]. by apply (ro_acked _ _ _ (mi_journal _ _ Hi _ _ Hrow)).
  - eapply map_Forall_impl; [apply (mi_journal _ _ Hi)|]. intros k row. apply rowOk_later.
Qed.

Lemma acknowledge_keeps (K : list Event -> Prop) v now :
  lasting K -> keepsMail (fun tr => K tr /\ leasedAs tr v /\ injected tr (v_ID v)) (acknowledge v now) (fun _ => K).
Proof.
  intros HK. unfold acknowledge.
  eapply (wk_try _ _ _ _ _ (fun r tr => (K tr /\ injected tr (v_ID v)) /\ match r with inr _ => acked tr (v_ID v) | inl _ => True end));
    [|by intros e tr [[? _] _]|intros []].
  - eapply (wk_learn _ _ _ (fun r tr => (K tr /\ injected tr (v_ID v)) /\ match r with inr _ => acked tr (v_ID v) | inl _ => True end)).
    + intros [e|u]; auto with lasting.
    + intros d tr r d' Hi (Hk & Hl & Hin) Hr. split.
      { eapply mailInv_call; [done..|]. destruct Hr as (x & t & _ & ->). cbn.
        eapply map_Forall_impl; [apply (mi_journal _ _ Hi)|]. intros k row. apply rowOk_later. }
      split; [split; [by apply HK|by apply injected_later]|]. destruct r as [e|[]]; [done|].
      exists (Did (Ack v) (inr tt)), v. split; [|done]. apply elem_of_app. right. by apply list_elem_of_singleton.
    + by intros r tr Hk.
  - eapply (wk_learn _ _ _ (fun _ => K)); [done| |by intros r tr Hk]. intros d tr r d' Hi [[Hk Hin] Ha] Hr. split; [|by apply HK].
    eapply mailInv_journal; [done..|]. intros a j' Hop. unfold MarkAcknowledged in Hop. st_cases. cbn. apply map_Forall_insert_2.
    + split; cbn; [|intros _; by apply injected_later|intros _; by apply acked_later].
      apply named_later. by apply (ro_message _ _ _ (mi_journal _ _ Hi _ _ Heqo)).
    + eapply map_Forall_impl; [apply (mi_journal _ _ Hi)|]. intros k row. apply rowOk_later.
Qed.

Lemma mailboxSend_keeps (K : list Event -> Prop) endpoint v :
  lasting K -> keepsMail (fun tr => K tr /\ leasedAs tr v) (mailboxSend endpoint (inboundEnvelope v)) (fun r tr => (K tr /\ leasedAs tr v) /\
    match r with inr _ => injected tr (v_ID v) | inl _ => True end).
Proof.
  intros HK. unfold mailboxSend, guard. destruct (blank endpoint); [by intros tr ?|].
  eapply (wk_learn _ _ _ (fun r tr => (K tr /\ leasedAs tr v) /\ match r with inr _ => injected tr (v_ID v) | inl _ => True end)).
  - intros [e|u]; auto with lasting.
  - intros d tr r d' Hi [Hk Hl] Hr. split; [by eapply mailInv_quiet|]. split; [split; [by apply HK|by apply leasedAs_later]|].
    destruct r as [e|[]]; [done|]. exists v, endpoint. split_and!; [by apply leasedAs_later|done|].
    apply elem_of_app. right. by apply list_elem_of_singleton.
  - by intros [e|[]] tr Hk.
Qed.

Lemma forward_keeps (K : list Event -> Prop) endpoint v now :
  lasting K -> keepsMail (fun tr => K tr /\ leasedAs tr v) (forwardAndAcknowledge endpoint v now) (fun _ => K).
Proof.
  intros HK. unfold forwardAndAcknowledge. cbv zeta.
  assert (forall tr, K tr /\ leasedAs tr v -> named tr (v_ID v) (g_ID (v_Message v))) as Hnamed by (intros tr [_ Hl]; by exists v).
  eapply wk_try; [apply (ensureReceived_keeps (fun tr => K tr /\ leasedAs tr v)); auto with lasting|by intros e tr [[? _] _]|].
  intros []; cbn beta iota.
  - eapply wk_try; [eapply wk_weaken; [| |apply (mailboxSend_keeps K endpoint v HK)]; [by intros tr [? _]|by intros a tr Ha]|by intros e tr [[? _] _]|intros []].
    eapply wk_try; [eapply wk_weaken; [| |apply (markForwarded_keeps (fun tr => K tr /\ leasedAs tr v))]; [by intros tr [? ?]|by intros a tr Ha|auto with lasting|done]|by intros e tr [[? _] _]|intros []].
    eapply wk_weaken; [| |by apply (acknowledge_keeps K)]; [by intros tr [[? ?] ?]|done].
  - eapply wk_weaken; [| |by apply (acknowledge_keeps K)]; [by intros tr [[? ?] ?]|done].
  - by intros tr [[? _] _].
Qed.

Lemma forwardAll_keeps (K : list Event -> Prop) endpoint l :
  lasting K -> keepsMail (fun tr => K tr /\ Forall (leasedAs tr) l) (forwardAll endpoint l) (fun _ => K).
Proof.
  intros HK. induction l as [|v l IH]; cbn [forwardAll]; [by intros tr [? _]|].
  assert (lasting (fun tr => K tr /\ Forall (leasedAs tr) (v :: l))) as Hl.
  { apply lasting_and; [done|]. intros tr tail Hv. eapply Forall_impl; [exact Hv|]. intros w. apply leasedAs_later. }
  assert (lasting (fun tr => K tr /\ Forall (leasedAs tr) l)) as Hl'.
  { apply lasting_and; [done|]. intros tr tail Hv. eapply Forall_impl; [exact Hv|]. intros w. apply leasedAs_later. }
  eapply wk_bind; [by apply (quiet_keeps (call Now))|]. intros now.
  eapply (wk_try _ _ _ _ _ (fun _ tr => K tr /\ Forall (leasedAs tr) l)); [|by intros e tr [? _]|by intros []].
  eapply wk_weaken; [| |apply (forward_keeps _ endpoint v now Hl')]; [|done].
  intros tr [? Hv]. apply Forall_cons in Hv as [? ?]. auto.
Qed.

Lemma syncEndpoints_keeps (K : list Event -> Prop) l : lasting K -> keepsMail K (syncEndpoints l) (fun _ => K).
Proof.
  intros HK. induction l as [|endpoint l IH]; cbn [syncEndpoints]; [by intros tr ?|].
  eapply (wk_try _ _ _ _ _ (fun r tr => K tr /\ match r with inr page => Forall (leasedAs tr) page | inl _ => True end));
    [|by intros e tr [? _]|intros page].
  - eapply (wk_learn _ _ _ (fun r tr => K tr /\ match r with inr page => Forall (leasedAs tr) page | inl _ => True end)).
    + intros [e|page]; (apply lasting_and; [done|]); [done|]. intros tr tail Hv. eapply Forall_impl; [exact Hv|]. intros w. apply leasedAs_later.
    + intros d tr r d' Hi Hk Hr. split; [by eapply mailInv_quiet|]. split; [by apply HK|]. destruct r as [e|page]; [done|].
      apply Forall_forall. intros v Hv. exists (Did (Lease endpoint) (inr page)), endpoint, page.
      split_and!; [|done..]. apply elem_of_app. right. by apply list_elem_of_singleton.
    + by intros r tr Hk.
  - eapply wk_try; [by apply forwardAll_keeps|by intros e tr ?|by intros []].
Qed.

Lemma syncOnce_keeps invoker (K : list Event -> Prop) : lasting K -> keepsMail K (SyncOnce invoker) (fun _ => K).
Proof.
  intros HK. unfold SyncOnce. eapply wk_try; [apply quiet_keeps; [auto with calls|done]|by intros|intros l].
  eapply wk_try; [apply quiet_keeps; [auto with calls|done]|by intros|intros l'].
  eapply wk_try; [apply quiet_keeps; [calls|done]|by intros|intros []].
  eapply wk_try; [by apply syncEndpoints_keeps|by intros|intros []]. apply quiet_keeps; [calls|done].
Qed.

Lemma entry_keeps t tr : entry t -> threadKeeps (siteReplies machineID) mailInv tr t.
Proof.
  intros Ht. assert (lasting (fun _ : list Event => True)) as HT by apply lasting_true.
  destruct Ht as [invoker|c e body key now|key|c e body key]; exists (fun _ => True); (split_and!; [done..|]).
  2-4: apply (quiet_keeps _ (fun _ => True)); [calls|done].
  unfold adapterTurn. eapply (wk_bind _ _ _ _ _ (fun _ _ => True)); [apply quiet_keeps; [apply flush_quiet|done]|intros _].
  eapply (wk_bind _ _ _ _ _ (fun _ _ => True)); [by apply syncOnce_keeps|by intros _ tr' _].
Qed.

Lemma mailInv_others d d' tr : mailInv d tr -> others d d' -> mailInv d' tr.
Proof.
  intros [Hl Hj Hc Ho] (t & Ht & ->). apply rtc_once in Ht. split; cbn; [|done| |done].
  - intros v Hv. by eapply stored_steps, Hl.
  - intros id Ha. by eapply closed_steps, Hc.
Qed.

Lemma mailInv_run p : siteRun machineID p -> mailInv (po_db p) (po_trace p).
Proof.
  intros (t & _ & Hs). eapply (pool_invariant _ _ _ mailInv); [apply entry_keeps|apply mailInv_others|exact Hs|done|].
  split; cbn.
  - by intros v (ev & e & page & ?%elem_of_nil & _).
  - apply map_Forall_empty.
  - by intros id (ev & v & ?%elem_of_nil & _).
  - apply ordered_nil.
Qed.

(** ** What was injected *)

(** The envelope of a stored delivery, from its rows. *)
Definition storedEnvelope (dl : DeliveryRow) (m : MessageRow) (fromRole : option string) : InboundMessage :=
  let participant := default "" (ms_participant m) in
  let role := default "" fromRole in {|
  in_PunaroMessageID := dl_message dl;
  in_ConversationID := ms_conversation m;
  in_Sequence := ms_sequence m;
  in_FromEndpoint := if bool_decide (participant = TelegramUserParticipant) then TelegramUserParticipant
                     else if bool_decide (role = "") then ms_from m else "";
  in_FromRole := role;
  in_FromParticipant := participant;
  in_RecipientRole := default "" (parseRoleRecipient (dl_recipient dl));
  in_InReplyToEndpoint := default "" (ms_reply_endpoint m);
  in_InReplyToPunaroMessageID := default "" (ms_reply_message m);
  in_TelegramThreadID := default 0 (ms_thread m);
  in_Body := ms_body m;
  in_CreatedAt := Time.fromMillis (ms_created_at m) |}.

Lemma envelope_rows v dl m fromRole :
  v_Message v = messageOf (dl_message dl) m fromRole -> v_RecipientRole v = default "" (parseRoleRecipient (dl_recipient dl)) ->
  inboundEnvelope v = storedEnvelope dl m fromRole.
Proof.
  intros Hm Hr. unfold inboundEnvelope, storedEnvelope. rewrite Hm, Hr. unfold messageOf. cbn.
  destruct fromRole as [role|]; cbn; [|done]. destruct (decide (role = "")) as [->|Hne]; [done|].
  by rewrite (bool_decide_false (role = "")) by done.
Qed.

(** C12: In every run of a machine's adapter against the relay, with any interleaving,
    crash, lost answer and any other work of the relay in between, each
    acknowledgement of a delivery comes after the local mailbox took an envelope
    that carries exactly the message, sender and recipient role in the relay's
    tables; and an acknowledgement the relay confirmed has closed the delivery. *)
Theorem injected_before_ack p tr1 v r tr2 :
  siteRun machineID p -> po_trace p = tr1 ++ Did (Ack v) r :: tr2 ->
  let d := relayDb (po_db p) in
  exists dl m endpoint,
    db_deliveries d !! v_ID v = Some dl /\ db_messages d !! dl_message dl = Some m /\
    Did (MailboxSend endpoint (storedEnvelope dl m (db_message_from_roles d !! dl_message dl))) (inr tt) ∈ tr1 /\
    (r = inr tt -> isPending dl = false).
Proof.
  intros Hp Htr d. apply mailInv_run in Hp as [Hl _ Hc Ho].
  destruct (Ho tr1 (Did (Ack v) r) tr2 Htr) as [_ (w & endpoint & Hw & Hid & Hin)].
  destruct (Hl w) as (dl & m & Hdl & Hm & Hmsg & Hrole).
  { rewrite Htr. by apply leasedAs_later. }
  exists dl, m, endpoint. rewrite Hid in Hdl. split_and!; [done|done| |].
  - apply envelope_rows in Hmsg; [|done]. unfold d. by rewrite <-Hmsg.
  - intros ->. destruct (Hc (v_ID v)) as (dl' & Hdl' & Hp'); [|by simplify_eq].
    exists (Did (Ack v) (inr tt)), v. split; [|done]. rewrite Htr. apply elem_of_app. right. by left.
Qed.
End Mail.

(** * Offer notices through the outbox

    The outbox stays within its bounds, and an active notice leaves it only
    after the relay recorded its message or refused it for good. *)

(** ** The invariant *)

Definition asSent (ev : Event) : option (Notice * (AdErr + unit)) :=
  match ev with
  | @Did _ R c r => match c in Call R return R -> option (Notice * (AdErr + unit)) with
      | SendNotice n => fun r => Some (n, r)
      | _ => fun _ => None
      end r
  end.

(** The relay took the notice, or refused it for good. *)
Definition answered (tr : list Event) (n : Notice) : Prop :=
  Did (SendNotice n) (inr tt) ∈ tr \/ Did (SendNotice n) (inl (AdRemote true)) ∈ tr.

Lemma answered_later n : lasting (fun tr => answered tr n).
Proof. unfold answered. auto with lasting. Qed.

(** What an event may do to the outbox, after [past]. *)
Definition boxSafe (past : list Event) (ev : Event) : Prop :=
  match ev with
  | @Did _ R c r => match c with
      | OutboxDb op => exists gone, boxOp op gone /\ forall n, gone = Some n -> answered past n
      | _ => True
      end
  end.

Section Notices.
Context `{Env} (machineID : string).

(** The relay recorded the message of the notice under its key. *)
Definition recordedNotice (d : Db) (n : Notice) : Prop :=
  exists msg, recorded d machineID (no_key n) (appendHash (noticeInput machineID n "" 0)) msg.

Record boxInv (s : Site) (tr : list Event) : Prop := {
  bi_reachable : reachable (si_relay s);
  bi_bounds : withinBounds (si_outbox s);
  bi_sent n : Did (SendNotice n) (inr tt) ∈ tr -> recordedNotice (relayDb s) n;
  bi_safe : ordered boxSafe tr;
}.

Lemma recordedNotice_steps s s' n : rtc step s s' -> recordedNotice (st_db s) n -> recordedNotice (st_db s') n.
Proof. intros Hs [msg Hr]. exists msg. by eapply recorded_steps. Qed.

Lemma boxInv_call s tr R (c : Call R) r s' :
  boxInv s tr -> siteReplies machineID s R c r s' -> boxSafe tr (Did c r) -> boxInv s' (tr ++ [Did c r]).
Proof.
  intros [Hr Hb Hs Ht] Hc Hsafe. pose proof (replies_steps _ _ _ _ _ _ Hc) as Hsteps. split.
  - unfold reachable in *. by etransitivity.
  - pose proof (replies_outbox _ _ _ _ _ _ Hc) as Ho. destruct c; try (by rewrite Ho). cbn in Ho.
    destruct Hsafe as (gone & Hop & _). apply answers_after in Ho as [->|[a Ha]]; [done|]. by apply (Hop _ _ _ Ha).
  - intros n [Hn|Hn]%elem_of_app; [by eapply recordedNotice_steps, Hs|]. apply list_elem_of_singleton in Hn.
    apply (f_equal asSent) in Hn. destruct c; try discriminate Hn. cbn in Hn. simplify_eq.
    destruct Hc as (principalID & now & t & Hn & ->). inversion Hn as [a t' Ha| | |]; subst.
    exists a.1. change (appendHash _) with (appendHash (noticeInput machineID notice principalID now)).
    apply (append_recorded _ _ _ _ Ha). by apply (reachable_invariant from_refs).
  - by apply ordered_snoc.
Qed.

(** ** Programs *)

Abbreviation keepsBox := (wk (siteReplies machineID) boxInv).

Lemma boxQuiet_safe {R} (c : Call R) r past : boxQuiet R c -> boxSafe past (Did c r).
Proof. destruct c; try done. intros Hq. by exists None. Qed.

Lemma quietBox_keeps {A} (p : Prog A) K : everyCall boxQuiet p -> lasting K -> keepsBox K p (fun _ => K).
Proof.
  intros Hp HK. eapply every_keeps; [|done|exact Hp]. intros d tr R c r d' Hq Hi Hr.
  eapply boxInv_call; [done..|]. by apply boxQuiet_safe.
Qed.

(** A notice is deleted once the relay has answered. *)
Lemma delete_keeps (K : list Event -> Prop) n :
  lasting K -> keepsBox (fun tr => K tr /\ answered tr n) (outbox (deleteNotice n)) (fun _ => K).
Proof.
  intros HK d tr r d' Hi [Hk Hn] Hr. split.
  - eapply boxInv_call; [done..|]. exists (Some n). split; [apply delete_op|]. by intros ? [= <-].
  - exists K. split_and!; [done|by apply HK|by intros ?].
Qed.

Lemma send_keeps (K : list Event -> Prop) n :
  lasting K -> keepsBox K (call (SendNotice n)) (fun r tr => K tr /\
    match r with inr _ | inl (AdRemote true) => answered tr n | _ => True end).
Proof.
  intros HK. eapply (wk_learn _ _ _ (fun r tr => K tr /\ match r with inr _ | inl (AdRemote true) => answered tr n | _ => True end)).
  - intros [[| |[]]|[]]; auto using lasting_and, lasting_true, answered_later.
  - intros d tr r d' Hi Hk Hr. split; [by eapply boxInv_call|]. split; [by apply HK|].
    destruct r as [[| |[]]|[]]; try done; [right|left]; apply elem_of_app; right; by apply list_elem_of_singleton.
  - by intros r tr Hk.
Qed.

Lemma flushAll_keeps (K : list Event -> Prop) l : lasting K -> keepsBox K (flushAll l) (fun _ => K).
Proof.
  intros HK. induction l as [|n l IH]; cbn [flushAll]; [by intros tr ?|].
  eapply wk_bind; [by apply send_keeps|]. intros [e|[]].
  - eapply (wk_try _ _ _ _ _ (fun _ => K)); [|by intros|by intros [] tr ?]. destruct e as [text| |[]]; cbn [terminalNotice].
    1,2,4: by intros tr [? _]. by apply delete_keeps.
  - eapply (wk_try _ _ _ _ _ (fun _ => K)); [by apply delete_keeps|by intros|by intros []].
Qed.

Lemma flush_keeps (K : list Event -> Prop) : lasting K -> keepsBox K Flush (fun _ => K).
Proof.
  intros HK. unfold Flush. eapply (wk_try _ _ _ _ _ (fun _ => K)); [|by intros|intros l; by apply flushAll_keeps].
  apply quietBox_keeps; [calls|done].
Qed.

Lemma box_entry t tr : entry t -> threadKeeps (siteReplies machineID) boxInv tr t.
Proof.
  intros Ht. assert (lasting (fun _ : list Event => True)) as HT by apply lasting_true.
  destruct Ht as [invoker|c e body key now|key|c e body key]; exists (fun _ => True); (split_and!; [done..|]).
  2-4: apply (quietBox_keeps _ (fun _ => True)); [calls|done].
  unfold adapterTurn. eapply (wk_bind _ _ _ _ _ (fun _ _ => True)); [by apply flush_keeps|intros _].
  eapply (wk_bind _ _ _ _ _ (fun _ _ => True)); [apply quietBox_keeps; [apply syncOnce_box|done]|by intros _ tr' _].
Qed.

Lemma boxInv_others d d' tr : boxInv d tr -> others d d' -> boxInv d' tr.
Proof.
  intros [Hr Hb Hs Ht] (t & Hstep & ->). split; cbn; [by eapply rtc_r|done| |done].
  intros n Hn. eapply recordedNotice_steps; [by apply rtc_once|]. by apply Hs.
Qed.

Lemma boxInv_run p : siteRun machineID p -> boxInv (po_db p) (po_trace p).
Proof.
  intros (t & Ht & Hs). eapply (pool_invariant _ _ _ boxInv); [apply box_entry|apply boxInv_others|exact Hs|done|].
  split; cbn; [done| | |].
  - split; [rewrite map_size_empty; done|rewrite msum_empty; done].
  - by intros n ?%elem_of_nil.
  - apply ordered_nil.
Qed.

(** ** Theorems *)

(** In every run the outbox holds at most 64 notices of at most 2 MiB together,
    however many processes reserve, activate and flush at once. *)
Theorem outbox_bounded p :
  siteRun machineID p -> Z.of_nat (size (si_outbox (po_db p))) <= 64 /\ msum noticeBytes (si_outbox (po_db p)) <= 2097152.
Proof. intros Hp. exact (bi_bounds _ _ (boxInv_run p Hp)). Qed.

(** One step keeps an active notice or follows an answer. *)
Lemma step_keeps_notice p q key row :
  siteRun machineID p -> siteStep machineID p q -> si_outbox (po_db p) !! key = Some row -> on_active row = true ->
  si_outbox (po_db q) !! key = Some row \/ answered (po_trace p) (noticeOf key row).
Proof.
  intros Hp Hstep Hrow Hact. assert (siteRun machineID q) as Hq.
  { destruct Hp as (t & Ht & Hs). exists t. split; [done|]. by eapply rtc_r. }
  apply boxInv_run in Hq as [_ _ _ Hsafe].
  destruct Hstep as [ts1 ts2 A R c k d r d' trace Hr|t ts d trace Ht|t ts1 ts2 d trace|ts d d' trace (t & _ & ->)]; cbn in *; [|by left..].
  apply replies_outbox in Hr. destruct c; try (left; by rewrite Hr). cbn in Hr.
  apply answers_after in Hr as [->|[a Ha]]; [by left|].
  destruct (Hsafe trace (Did (OutboxDb op) r) [] eq_refl) as (gone & Hop & Hgone).
  destruct (proj2 (Hop _ _ _ Ha) _ _ Hrow Hact) as [?|Hg]; [by left|]. right. by apply Hgone.
Qed.

(** C17: An activated offer notice is not lost: at every later point of the run it is
    still in the outbox, unchanged and active, or the relay has recorded a
    message under its key and the digest of its room, sender and text, or the
    relay refused it for good. *)
Theorem notice_not_lost p q key row :
  siteRun machineID p -> rtc (siteStep machineID) p q -> si_outbox (po_db p) !! key = Some row -> on_active row = true ->
  si_outbox (po_db q) !! key = Some row \/
  recordedNotice (relayDb (po_db q)) (noticeOf key row) \/
  Did (SendNotice (noticeOf key row)) (inl (AdRemote true)) ∈ po_trace q.
Proof.
  intros Hp Hs Hrow Hact.
  assert (siteRun machineID q /\ (si_outbox (po_db q) !! key = Some row \/ answered (po_trace q) (noticeOf key row))) as [Hq Hcase].
  { revert Hs. refine (rtc_ind_r (fun q => siteRun machineID q /\ (si_outbox (po_db q) !! key = Some row \/ answered (po_trace q) (noticeOf key row))) p _ _ q); [auto|].
    clear q. intros q q' _ Hstep [Hq Hcase]. split.
    { destruct Hq as (t & Ht & Hs). exists t. split; [done|]. by eapply rtc_r. }
    assert (exists tail, po_trace q' = po_trace q ++ tail) as [tail Htail].
    { destruct Hstep; cbn; eauto; exists []; by rewrite app_nil_r. }
    destruct Hcase as [Hin|Hans].
    - destruct (step_keeps_notice _ _ _ _ Hq Hstep Hin Hact) as [?|Hans]; [by left|]. right. rewrite Htail. by apply answered_later.
    - right. rewrite Htail. by apply answered_later. }
  apply boxInv_run in Hq as [_ _ Hsent _]. destruct Hcase as [?|[Hok|Hno]]; [by left|right; left; by apply Hsent|by right; right].
Qed.
End Notices.
