(* ===== verification/AdapterStarts.v ===== *)
(** * Starting roles

    A role is started only for a leased request that is not recovery-only, whose
    journal row was pending and whose session was not attached; and the relay is
    told of a start only when the runtime took it or the session is there. *)

From S2P Require Import Prelude Programs GoTime RateLimit Quota Text Sha256 Tables Tx Sessions Pending.
From S2P Require Import Invocations Relay Deliveries Adapter AdapterRelay.
Open Scope Z_scope.

(** ** Events *)

Definition leasedStart (tr : list Event) (i : Invocation) : Prop :=
  exists page, Did LeaseInvocations (inr page) ∈ tr /\ i ∈ page.
Definition readPending (tr : list Event) (i : Invocation) : Prop :=
  Did (JournalDb (readInvocation (i_ID i) (i_Fence i))) (inr invocationPending) ∈ tr.
(** The runtime took the start with this fence. *)
Definition started (tr : list Event) (id fence : string) : Prop :=
  exists i, i_ID i = id /\ i_Fence i = fence /\ Did (Invoke i) (inr tt) ∈ tr.
(** The group listed the session as an active member. *)
Definition listed (tr : list Event) (endpoint : string) : Prop :=
  exists cursor members next mb, Did (GroupMembers cursor) (inr (Some (members, next))) ∈ tr /\
    mb ∈ members /\ mb_Active mb = true /\ TrimSpace (mb_Person mb) = endpoint.

Definition startSafe (past : list Event) (ev : Event) : Prop :=
  match ev with
  | @Did _ R c r => match c with
      | Invoke i => leasedStart past i /\ i_RecoveryOnly i = false /\ readPending past i
      | ReportInvocation i accepted => leasedStart past i /\
          (accepted = true -> started past (i_ID i) (i_Fence i) \/ listed past (i_TargetEndpoint i))
      | _ => True
      end
  end.

Lemma leasedStart_later i : lasting (fun tr => leasedStart tr i).
Proof. intros tr tail (page & Hin & Hi). exists page. rewrite elem_of_app. auto. Qed.
Lemma readPending_later i : lasting (fun tr => readPending tr i).
Proof. apply lasting_event. Qed.
Lemma started_later id fence : lasting (fun tr => started tr id fence).
Proof. intros tr tail (i & ? & ? & Hin). exists i. rewrite elem_of_app. auto. Qed.
Lemma listed_later endpoint : lasting (fun tr => listed tr endpoint).
Proof. intros tr tail (c & ms & n & mb & Hin & ?). exists c, ms, n, mb. rewrite elem_of_app. auto. Qed.
#[export] Hint Resolve leasedStart_later readPending_later started_later listed_later : lasting.

(** ** The invariant *)

Definition startRowOk (tr : list Event) (id : string) (row : StartRow) : Prop :=
  sr_state row = invocationAccepted -> started tr id (sr_fence row).

Record startInv (s : Site) (tr : list Event) : Prop := {
  sv_journal : map_Forall (startRowOk tr) (jn_invocations (si_journal s));
  sv_order : ordered startSafe tr;
}.

Lemma startRows_later tr tail (rows : gmap string StartRow) : map_Forall (startRowOk tr) rows -> map_Forall (startRowOk (tr ++ tail)) rows.
Proof. intros Hr. eapply map_Forall_impl; [exact Hr|]. intros id row Ho Hst. by apply started_later, Ho. Qed.

(** Calls that start, report and mark nothing. *)
Definition startless (R : Type) (c : Call R) : Prop :=
  match c with
  | JournalDb op => forall tr j a j', op j = inr (a, j') ->
      map_Forall (startRowOk tr) (jn_invocations j) -> map_Forall (startRowOk tr) (jn_invocations j')
  | Invoke _ | ReportInvocation _ _ => False
  | _ => True
  end.

Lemma startless_received id messageID now : startless _ (JournalDb (insertReceived id messageID now)).
Proof. intros tr j a j' Hop Hj. unfold insertReceived in Hop. by st_cases. Qed.
Lemma startless_readReceived id messageID : startless _ (JournalDb (readReceived id messageID)).
Proof. intros tr j a j' Hop Hj. unfold readReceived in Hop. by st_cases. Qed.
Lemma startless_forwarded id messageID now : startless _ (JournalDb (MarkForwarded id messageID now)).
Proof. intros tr j a j' Hop Hj. unfold MarkForwarded in Hop. by st_cases. Qed.
Lemma startless_acknowledged id now : startless _ (JournalDb (MarkAcknowledged id now)).
Proof. intros tr j a j' Hop Hj. unfold MarkAcknowledged in Hop. by st_cases. Qed.
Lemma startless_insert id fence now : startless _ (JournalDb (insertInvocation id fence now)).
Proof.
  intros tr j a j' Hop Hj. unfold insertInvocation in Hop. st_cases. cbn. case_match; [done|].
  by apply map_Forall_insert_2.
Qed.
Lemma startless_read id fence : startless _ (JournalDb (readInvocation id fence)).
Proof. intros tr j a j' Hop Hj. unfold readInvocation in Hop. by st_cases. Qed.
Lemma startless_prune now : startless _ (JournalDb (pruneInvocationRecoveryRows now)).
Proof.
  intros tr j a j' Hop Hj. unfold pruneInvocationRecoveryRows in Hop. st_cases. intros id row Hrow.
  apply map_lookup_filter_Some in Hrow as [Hrow _]. by apply Hj.
Qed.
Lemma startless_remove id fence : startless _ (JournalDb (removeInvocation id fence)).
Proof. intros tr j a j' Hop Hj. unfold removeInvocation in Hop. st_cases. by apply map_Forall_delete. Qed.
#[export] Hint Resolve startless_received startless_readReceived startless_forwarded startless_acknowledged : calls.
#[export] Hint Resolve startless_insert startless_read startless_prune startless_remove : calls.

Section Starts.
Context `{Env} (machineID : string).

Lemma startInv_call s tr R (c : Call R) r s' :
  startInv s tr -> siteReplies machineID s R c r s' -> startSafe tr (Did c r) ->
  map_Forall (startRowOk (tr ++ [Did c r])) (jn_invocations (si_journal s')) -> startInv s' (tr ++ [Did c r]).
Proof. intros [_ Ho] _ Hs Hj. split; [done|]. by apply ordered_snoc. Qed.

Lemma startInv_startless s tr R (c : Call R) r s' :
  startless R c -> startInv s tr -> siteReplies machineID s R c r s' -> startInv s' (tr ++ [Did c r]).
Proof.
  intros Hq [Hj Ho] Hr. eapply startInv_call; [by split|done|by destruct c|]. apply replies_journal in Hr.
  apply (startRows_later _ [Did c r]) in Hj. destruct c; try (by rewrite Hr). cbn in Hr.
  apply answers_after in Hr as [->|[a Ha]]; [done|]. by eapply Hq.
Qed.

(** ** Programs *)

Abbreviation keepsStarts := (wk (siteReplies machineID) startInv).

Lemma startless_keeps {A} (p : Prog A) K : everyCall startless p -> lasting K -> keepsStarts K p (fun _ => K).
Proof. intros Hp HK. eapply every_keeps; [|done|exact Hp]. intros d tr R c r d'. apply startInv_startless. Qed.

(** The members of the attached list were listed. *)
Lemma activeMembers_listed seen members seen' endpoints e :
  activeMembers seen members = Some (seen', endpoints) -> e ∈ endpoints ->
  exists mb, mb ∈ members /\ mb_Active mb = true /\ TrimSpace (mb_Person mb) = e.
Proof.
  revert seen seen' endpoints. induction members as [|mb members IH]; intros seen seen' endpoints Ha He; cbn in Ha.
  { simplify_eq. by apply elem_of_nil in He. }
  destruct (negb (mb_Active mb) || bool_decide (TrimSpace (mb_Person mb) = "")) eqn:Hskip.
  { destruct (IH _ _ _ Ha He) as (mb' & Hin & ?). exists mb'. split; [by right|done]. }
  apply orb_false_iff in Hskip as [Hact _]. apply negb_false_iff in Hact. case_bool_decide; [done|].
  destruct (activeMembers _ members) as [[seen1 l]|] eqn:Hrec; [|done]. cbn in Ha. simplify_eq.
  apply elem_of_cons in He as [->|He]; [exists mb; by split; [left|]|].
  destruct (IH _ _ _ Hrec He) as (mb' & Hin & ?). exists mb'. split; [by right|done].
Qed.

Definition allListed (tr : list Event) (endpoints : list string) : Prop := Forall (listed tr) endpoints.
Lemma allListed_later l : lasting (fun tr => allListed tr l).
Proof. intros tr tail Hl. eapply Forall_impl; [exact Hl|]. intros e. apply listed_later. Qed.

Lemma pages_listed (K : list Event -> Prop) n cursor count seen endpoints :
  lasting K -> keepsStarts (fun tr => K tr /\ allListed tr endpoints) (attachedPages n cursor count seen endpoints)
    (fun r tr => K tr /\ match r with inr l => allListed tr l | inl _ => True end).
Proof.
  intros HK. revert cursor count seen endpoints. induction n as [|n IH]; intros; cbn [attachedPages]; [by intros tr [? _]|].
  eapply (wk_try _ _ _ _ _ (fun r tr => (K tr /\ allListed tr endpoints) /\ match r with inr page => Did (GroupMembers cursor) (inr page) ∈ tr | inl _ => True end));
    [|by intros e tr [[? _] _]|intros page].
  { eapply (wk_learn _ _ _ (fun r tr => (K tr /\ allListed tr endpoints) /\ match r with inr page => Did (GroupMembers cursor) (inr page) ∈ tr | inl _ => True end)).
    - intros [e|page]; auto using lasting_and, lasting_true, lasting_event, allListed_later.
    - intros d tr r d' Hi [Hk Hl] Hr. split; [by eapply startInv_startless|]. split; [split; [by apply HK|by apply allListed_later]|].
      destruct r; [done|]. apply elem_of_app. right. by apply list_elem_of_singleton.
    - by intros r tr Hk. }
  destruct page as [[members next]|]; [|by intros tr [[? _] _]].
  destruct (maximumMemberships <? _); [by intros tr [[? _] _]|].
  destruct (activeMembers seen members) as [[seen1 l]|] eqn:Ha; [|by intros tr [[? _] _]].
  assert (forall tr, (K tr /\ allListed tr endpoints) /\ Did (GroupMembers cursor) (inr (Some (members, next))) ∈ tr -> K tr /\ allListed tr (endpoints ++ l)) as Hnext.
  { intros tr [[Hk Hl] Hin]. split; [done|]. apply Forall_app. split; [done|]. apply Forall_forall. intros e He.
    destruct (activeMembers_listed _ _ _ _ _ Ha He) as (mb & ? & ? & ?). by exists cursor, members, next, mb. }
  case_bool_decide.
  - intros tr [Hk Hl]%Hnext. split; [done|]. unfold allListed, sortStrings. by rewrite sortBy_perm.
  - destruct (badCursor cursor next); [by intros tr [[? _] _]|]. eapply wk_weaken; [exact Hnext| |apply IH]. done.
Qed.

Lemma attached_listed (K : list Event -> Prop) :
  lasting K -> keepsStarts K Attached (fun r tr => K tr /\ match r with inr l => allListed tr l | inl _ => True end).
Proof. intros HK. eapply wk_weaken; [| |by apply pages_listed]; [|done]. intros tr Hk. split; [done|]. constructor. Qed.

Lemma unique_listed (K : list Event -> Prop) l :
  keepsStarts (fun tr => K tr /\ allListed tr l) (uniqueEndpoints l)
    (fun r tr => K tr /\ match r with inr l => allListed tr l | inl _ => True end).
Proof.
  unfold uniqueEndpoints, guard. destruct (existsb blank l); intros tr [Hk Hl]; (split; [done|]); [done|].
  unfold allListed, sortStrings. rewrite sortBy_perm. apply Forall_forall. intros e He.
  apply elem_of_elements, elem_of_list_to_set in He. by eapply Forall_forall in Hl.
Qed.

(** The start happened, or the session is there. *)
Definition founded (tr : list Event) (i : Invocation) : Prop :=
  started tr (i_ID i) (i_Fence i) \/ listed tr (i_TargetEndpoint i).
Lemma founded_later i : lasting (fun tr => founded tr i).
Proof. unfold founded. auto with lasting. Qed.

Lemma report_keeps (K : list Event -> Prop) i (accepted : bool) :
  lasting K -> (forall tr, K tr -> leasedStart tr i /\ (accepted = true -> founded tr i)) ->
  keepsStarts K (reportAndRemove i accepted) (fun _ => K).
Proof.
  intros HK Hi. unfold reportAndRemove. eapply (wk_try _ _ _ _ _ (fun _ => K)); [|by intros|intros []; apply startless_keeps; [calls|done]].
  intros d tr r d' Hinv Hk Hr. split; [|exists K; split_and!; [done|by apply HK|by intros ?]].
  eapply startInv_call; [done..|by apply Hi|]. apply replies_journal in Hr. rewrite Hr. apply startRows_later, Hinv.
Qed.

(** The start itself, which has its grounds. *)
Lemma invoke_keeps (K : list Event -> Prop) i :
  lasting K -> (forall tr, K tr -> leasedStart tr i /\ i_RecoveryOnly i = false /\ readPending tr i) ->
  keepsStarts K (call (Invoke i)) (fun r tr => K tr /\ match r with inr _ => started tr (i_ID i) (i_Fence i) | inl _ => True end).
Proof.
  intros HK Hi. eapply (wk_learn _ _ _ (fun r tr => K tr /\ match r with inr _ => started tr (i_ID i) (i_Fence i) | inl _ => True end)).
  - intros [e|u]; auto with lasting.
  - intros d tr r d' Hinv Hk Hr. split.
    + eapply startInv_call; [done..|by apply Hi|]. apply replies_journal in Hr. rewrite Hr. apply startRows_later, Hinv.
    + split; [by apply HK|]. destruct r as [e|[]]; [done|]. exists i. split_and!; [done..|].
      apply elem_of_app. right. by apply list_elem_of_singleton.
  - by intros r tr Hk.
Qed.

Lemma mark_keeps (K : list Event -> Prop) id fence now :
  lasting K -> (forall tr, K tr -> started tr id fence) ->
  keepsStarts K (journal (markInvocationAccepted id fence now)) (fun _ => K).
Proof.
  intros HK Hst d tr r d' [Hj Ho] Hk Hr. split; [|exists K; split_and!; [done|by apply HK|by intros ?]].
  eapply startInv_call; [by split|done|done|]. apply replies_journal in Hr. cbn in Hr.
  apply (startRows_later _ [Did (JournalDb (markInvocationAccepted id fence now)) r]) in Hj.
  apply answers_after in Hr as [->|[a Ha]]; [done|]. unfold markInvocationAccepted in Ha. st_cases. cbn.
  apply map_Forall_insert_2; [|done]. intros _. by apply started_later, Hst.
Qed.

Lemma start_keeps (K : list Event -> Prop) i now :
  lasting K -> keepsStarts (fun tr => K tr /\ leasedStart tr i /\ readPending tr i) (startInvocation i now) (fun _ => K).
Proof.
  intros HK. unfold startInvocation. set (K1 := fun tr => K tr /\ leasedStart tr i /\ readPending tr i).
  assert (lasting K1) as HK1 by (unfold K1; auto with lasting).
  assert (forall tr, K1 tr -> K tr) as HK0 by by intros tr [? _].
  assert (forall tr, K1 tr -> leasedStart tr i /\ (false = true -> founded tr i)) as Hno by (by intros tr (_ & ? & _)).
  destruct (i_RecoveryOnly i) eqn:Hrec.
  { eapply wk_try; [by apply (report_keeps K1)|by intros e tr ?%HK0|by intros [] tr ?%HK0]. }
  eapply wk_try; [by apply attached_listed|by intros e tr [?%HK0 _]|intros l].
  eapply wk_try; [by apply unique_listed|by intros e tr [?%HK0 _]|intros l']. clear l.
  assert (lasting (fun tr => K1 tr /\ allListed tr l')) as Hl by auto using lasting_and, allListed_later.
  case_bool_decide as Hin.
  - eapply wk_weaken; [| |apply (report_keeps _ i true Hl)]; [done|by intros a tr [?%HK0 _]|].
    intros tr [Hk Hall]. split; [by apply Hk|]. intros _. right. by eapply Forall_forall in Hall.
  - eapply wk_bind; [eapply wk_weaken; [| |apply (invoke_keeps K1 i HK1)]|].
    { by intros tr [? _]. } { by intros a tr Ha. } { by intros tr (_ & ? & ?). }
    intros [e|[]].
    + eapply wk_try; [eapply wk_weaken; [| |by apply (report_keeps K1 i false)]|..]; [by intros tr [? _]|by intros a tr Ha|by intros e' tr ?%HK0|by intros [] tr ?%HK0].
    + assert (lasting (fun tr => K1 tr /\ started tr (i_ID i) (i_Fence i))) as Hs by auto with lasting.
      eapply wk_try; [apply (mark_keeps _ _ _ _ Hs); by intros tr [_ ?]|by intros e tr [?%HK0 _]|intros []].
      eapply wk_weaken; [| |apply (report_keeps _ i true Hs)]; [done|by intros a tr [?%HK0 _]|].
      intros tr [(_ & ? & _) ?]. split; [done|]. by left.
Qed.

Lemma ensure_keeps (K : list Event -> Prop) i now :
  lasting K -> keepsStarts K (ensureInvocation (i_ID i) (i_Fence i) now) (fun r tr => K tr /\
    match r with
    | inr invocationAccepted => started tr (i_ID i) (i_Fence i)
    | inr invocationPending => readPending tr i
    | inl _ => True
    end).
Proof.
  intros HK. unfold ensureInvocation. eapply (wk_try _ _ _ _ _ (fun _ => K)); [apply startless_keeps; [calls|done]|by intros|intros []].
  eapply (wk_try _ _ _ _ _ (fun _ => K)); [apply startless_keeps; [calls|done]|by intros|intros []].
  eapply (wk_learn _ _ _ (fun r tr => K tr /\ match r with
    | inr invocationAccepted => started tr (i_ID i) (i_Fence i) | inr invocationPending => readPending tr i | inl _ => True end)).
  - intros [e|[]]; auto with lasting.
  - intros d tr r d' Hi Hk Hr. split; [by eapply startInv_startless; [apply startless_read|..]|]. split; [by apply HK|].
    apply replies_journal in Hr. cbn in Hr. revert Hr. generalize (si_journal d') as j. intros j Hr. destruct r as [e|[]]; [done| |].
    + apply elem_of_app. right. by apply list_elem_of_singleton.
    + inversion Hr as [a j1 Hop| | |]; subst. unfold readInvocation in Hop. st_cases. bool_hyps.
      apply started_later. match goal with Hf : sr_fence _ = i_Fence i |- _ => rewrite <-Hf end. by apply (sv_journal _ _ Hi _ _ Heqo).
  - by intros r tr Hk.
Qed.

Lemma syncStarts_keeps (K : list Event -> Prop) l now :
  lasting K -> keepsStarts (fun tr => K tr /\ Forall (leasedStart tr) l) (syncStarts l now) (fun _ => K).
Proof.
  intros HK. induction l as [|i l IH]; cbn [syncStarts]; [by intros tr [? _]|].
  set (K1 := fun tr => K tr /\ Forall (leasedStart tr) l).
  assert (lasting K1) as HK1.
  { apply lasting_and; [done|]. intros tr tail Hv. eapply Forall_impl; [exact Hv|]. intros w. apply leasedStart_later. }
  assert (lasting (fun tr => K1 tr /\ leasedStart tr i)) as HK2 by auto with lasting.
  eapply wk_try; [eapply wk_weaken; [| |apply (ensure_keeps _ i now HK2)]|..].
  { intros tr [Hk Hl]. apply Forall_cons in Hl as [? ?]. by split. }
  { by intros a tr Ha. }
  { by intros e tr [[[? _] _] _]. }
  intros state. eapply (wk_try _ _ _ _ _ (fun _ => K1)); [|by intros e tr [? _]|intros []; exact IH].
  destruct state; cbn beta iota.
  - eapply wk_weaken; [| |by apply (start_keeps K1 i now)]; [|done]. by intros tr [[? ?] ?].
  - assert (lasting (fun tr => (K1 tr /\ leasedStart tr i) /\ started tr (i_ID i) (i_Fence i))) as HK3 by auto with lasting.
    eapply wk_weaken; [| |apply (report_keeps _ i true HK3)]; [done|by intros a tr [[? _] _]|].
    intros tr [[_ ?] ?]. split; [done|]. by left.
Qed.

Lemma syncInvocations_keeps (K : list Event -> Prop) now : lasting K -> keepsStarts K (syncInvocations now) (fun _ => K).
Proof.
  intros HK. unfold syncInvocations. eapply (wk_try _ _ _ _ _ (fun _ => K)); [apply startless_keeps; [calls|done]|by intros|intros []].
  eapply (wk_try _ _ _ _ _ (fun r tr => K tr /\ match r with inr l => Forall (leasedStart tr) l | inl _ => True end));
    [|by intros e tr [? _]|intros l; by apply syncStarts_keeps].
  eapply (wk_learn _ _ _ (fun r tr => K tr /\ match r with inr l => Forall (leasedStart tr) l | inl _ => True end)).
  - intros [e|l]; (apply lasting_and; [done|]); [done|]. intros tr tail Hv. eapply Forall_impl; [exact Hv|]. intros w. apply leasedStart_later.
  - intros d tr r d' Hi Hk Hr. split; [by eapply startInv_startless|]. split; [by apply HK|]. destruct r as [e|l]; [done|].
    apply Forall_forall. intros i Hi'. exists l. split; [|done]. apply elem_of_app. right. by apply list_elem_of_singleton.
  - by intros r tr Hk.
Qed.

(** *** The rest starts nothing *)

Lemma pages_startless n cursor count seen endpoints : everyCall startless (attachedPages n cursor count seen endpoints).
Proof. revert cursor count seen endpoints. induction n; intros; cbn [attachedPages]; calls; auto. Qed.
Lemma forwardAll_startless endpoint l : everyCall startless (forwardAll endpoint l).
Proof. induction l; cbn [forwardAll]; unfold forwardAndAcknowledge, ensureReceived, mailboxSend, acknowledge; calls; auto. Qed.
Hint Resolve forwardAll_startless : calls.
Lemma syncEndpoints_startless l : everyCall startless (syncEndpoints l).
Proof. induction l; cbn [syncEndpoints]; calls; auto. Qed.
Lemma flushAll_startless l : everyCall startless (flushAll l).
Proof. induction l; cbn [flushAll]; calls; auto. Qed.

Lemma start_entry t tr : entry t -> threadKeeps (siteReplies machineID) startInv tr t.
Proof.
  intros Ht. assert (lasting (fun _ : list Event => True)) as HT by apply lasting_true.
  destruct Ht as [invoker|c e body key now|key|c e body key]; exists (fun _ => True); (split_and!; [done..|]).
  2-4: apply (startless_keeps _ (fun _ => True)); [unfold EnqueueV3OfferNotice, ActivateV3OfferNotice; calls|done].
  pose proof pages_startless. pose proof syncEndpoints_startless. pose proof flushAll_startless.
  unfold adapterTurn. eapply (wk_bind _ _ _ _ _ (fun _ _ => True)); [apply startless_keeps; [unfold Flush; calls; auto|done]|intros _].
  eapply (wk_bind _ _ _ _ _ (fun _ _ => True)); [|by intros _ tr' _]. unfold SyncOnce, Attached, uniqueEndpoints.
  eapply (wk_try _ _ _ _ _ (fun _ _ => True)); [apply startless_keeps; [auto|done]|by intros|intros l].
  eapply (wk_try _ _ _ _ _ (fun _ _ => True)); [apply startless_keeps; [calls|done]|by intros|intros l'].
  eapply (wk_try _ _ _ _ _ (fun _ _ => True)); [apply startless_keeps; [calls|done]|by intros|intros []].
  eapply (wk_try _ _ _ _ _ (fun _ _ => True)); [apply startless_keeps; [auto|done]|by intros|intros []].
  destruct invoker; [|by intros tr' _]. eapply wk_bind; [by apply (startless_keeps (call Now))|]. intros now. by apply syncInvocations_keeps.
Qed.

Lemma startInv_run p : siteRun machineID p -> startInv (po_db p) (po_trace p).
Proof.
  intros (t & _ & Hs). eapply (pool_invariant _ _ _ startInv); [apply start_entry| |exact Hs|done|].
  - by intros d d' tr [Hj Ho] (t' & _ & ->).
  - split; cbn; [apply map_Forall_empty|apply ordered_nil].
Qed.

(** C18: In every run of a machine's adapter, the runtime is asked to start a role
    only for a request the relay leased to the machine that is not
    recovery-only and that the journal read as not yet accepted; and the relay
    is told that a start was accepted only after the runtime took a start of
    that request under that fence, in this or an earlier life of the process,
    or after the local group listed the target session as attached. *)
Theorem starts_justified p tr1 ev tr2 :
  siteRun machineID p -> po_trace p = tr1 ++ ev :: tr2 ->
  (forall i r, ev = Did (Invoke i) r -> leasedStart tr1 i /\ i_RecoveryOnly i = false /\ readPending tr1 i) /\
  (forall i r, ev = Did (ReportInvocation i true) r ->
    leasedStart tr1 i /\ (started tr1 (i_ID i) (i_Fence i) \/ listed tr1 (i_TargetEndpoint i))).
Proof.
  intros Hp Htr. pose proof (sv_order _ _ (startInv_run p Hp) _ _ _ Htr) as Hs. split.
  - intros i r ->. exact Hs.
  - intros i r ->. destruct Hs as [Hl Ha]. auto.
Qed.
End Starts.
