(* ===== verification/AdapterServe.v ===== *)
(** * The adapter with everything working

    A world in which the mailbox, the runtime, the databases and the network
    answer: the programs can be executed, and one pass over an endpoint hands
    every leased delivery over and closes it. *)

From S2P Require Import Prelude Programs GoTime RateLimit Quota Text Sha256 Tables Tx Sessions Pending.
From S2P Require Import Invocations Rooms Claims Roles Directory Messages Deliveries QuotaInv Relay.
From S2P Require Import QuotaOps History Mailbox Occupancy Progress Fence Adapter AdapterRelay AdapterMail.
Open Scope Z_scope.

(** The answers that do not come from the databases or the relay's state. *)
Record World := {
  wo_now : Z;
  wo_ttl : Z;
  wo_limit : Z;
  wo_consumer : string;
  wo_members : list Membership;
}.

Definition locally {D A} (op : Trans D AdErr A) (d : D) : (AdErr + A) * D :=
  match op d with inr (a, d') => (inr a, d') | inl e => (inl e, d) end.
Definition remotely {A B} (op : M A) (f : A -> B) (t : St) : (AdErr + B) * St :=
  match op t with (inr a, t') => (inr (f a), t') | (inl _, t') => (inl (AdRemote false), t') end.

Section Serve.
Context `{Env} (machineID : string) (w : World).

Definition atSite {A} (s : Site) (r : A * St) : A * Site := (r.1, with_relay r.2 s).

Definition serve (s : Site) (R : Type) (c : Call R) : R * Site :=
  match c in Call R return R * Site with
  | JournalDb op => ((locally op (si_journal s)).1, with_journal (locally op (si_journal s)).2 s)
  | OutboxDb op => ((locally op (si_outbox s)).1, with_outbox (locally op (si_outbox s)).2 s)
  | GroupMembers _ => (inr (Some (wo_members w, "")), s)
  | MailboxSend _ _ => (inr tt, s)
  | Advertise endpoints => atSite s (remotely (AdvertiseEndpoints machineID endpoints (wo_now w) (wo_ttl w)) (fun u => u) (si_relay s))
  | Lease endpoint => atSite s (remotely (LeaseDeliveries machineID (wo_consumer w) endpoint "" (wo_now w) (wo_ttl w) (wo_limit w))
      p_Deliveries (si_relay s))
  | Ack v => atSite s (remotely (AckDelivery machineID (v_RecipientEndpoint v) (v_ID v) (v_LeaseToken v) (v_LeaseGeneration v) (wo_now w))
      (fun u => u) (si_relay s))
  | LeaseInvocations => atSite s (remotely (Invocations.LeaseInvocations machineID (wo_consumer w) (wo_now w) (wo_ttl w) 1)
      (fun l => l) (si_relay s))
  | ReportInvocation i accepted => atSite s (remotely
      (Invocations.ReportInvocation machineID (i_ID i) (i_LeaseToken i) (i_LeaseGeneration i) accepted (wo_now w)) (fun u => u) (si_relay s))
  | Invoke _ => (inr tt, s)
  | SendNotice notice => atSite s (remotely (AppendMessage (noticeInput machineID notice "" (wo_now w))) (fun _ => tt) (si_relay s))
  | Now => (wo_now w, s)
  end.

Lemma locally_answers {D A} (op : Trans D AdErr A) d : answers AdDatabase op d (locally op d).1 (locally op d).2.
Proof. unfold locally. destruct (op d) as [e|[a d']] eqn:Hop; cbn; by constructor. Qed.
Lemma remotely_network {A B} (op : M A) (f : A -> B) t : overNetwork op f t (remotely op f t).1 (remotely op f t).2.
Proof. unfold remotely. destruct (op t) as [[e|a] t'] eqn:Hop; cbn; by econstructor. Qed.

Lemma serve_replies s R (c : Call R) : siteReplies machineID s R c (serve s R c).1 (serve s R c).2.
Proof.
  destruct c; cbn; try done.
  1,2: eexists; split; [apply locally_answers|done].
  all: unfold atRelay; repeat eexists; apply remotely_network.
Qed.

(** ** Execution *)

Fixpoint exec {A} (st : Site * list Event) (p : Prog A) : A * (Site * list Event) :=
  match p with
  | Ret a => (a, st)
  | Vis c k => let '(r, s') := serve st.1 _ c in exec (s', st.2 ++ [Did c r]) (k r)
  end.

Lemma exec_call {A R} st (c : Call R) (k : R -> Prog A) :
  exec st (Vis c k) = exec ((serve st.1 R c).2, st.2 ++ [Did c (serve st.1 R c).1]) (k (serve st.1 R c).1).
Proof. cbn. by destruct (serve st.1 R c). Qed.

Lemma exec_bind {A B} st (p : Prog A) (f : A -> Prog B) : exec st (p ≫= f) = (let '(a, st1) := exec st p in exec st1 (f a)).
Proof.
  revert st. induction p as [a|R c k IH]; intros st; [done|]. change (Vis c k ≫= f) with (Vis c (fun r => k r ≫= f)).
  rewrite !exec_call. apply IH.
Qed.

Lemma exec_try {A B} st (m : Prog (AdErr + A)) (f : A -> Prog (AdErr + B)) st1 a :
  exec st m = (inr a, st1) -> exec st (tryBind f m) = exec st1 (f a).
Proof. intros Hm. unfold tryBind. by rewrite exec_bind, Hm. Qed.

(** Executions are runs. *)
Lemma exec_steps {A} st (p : Prog A) a st' ts1 ts2 :
  exec st p = (a, st') ->
  rtc (siteStep machineID) {| po_threads := ts1 ++ process p :: ts2; po_db := st.1; po_trace := st.2 |}
    {| po_threads := ts1 ++ process (Ret a) :: ts2; po_db := st'.1; po_trace := st'.2 |}.
Proof.
  revert st. induction p as [b|R c k IH]; intros st; [by intros [= -> ->]|]. rewrite exec_call. intros Hk.
  eapply rtc_l; [|exact (IH _ _ Hk)]. apply pool_call, serve_replies.
Qed.

(** What a program keeps, its execution keeps. *)
Lemma exec_keeps {A} (Inv : Site -> list Event -> Prop) K (p : Prog A) Q st a st' :
  wk (siteReplies machineID) Inv K p Q -> Inv st.1 st.2 -> K st.2 -> exec st p = (a, st') -> Inv st'.1 st'.2 /\ Q a st'.2.
Proof.
  revert K st. induction p as [b|R c k IH]; intros K st Hp Hi HK; [intros [= -> ->]; split; [done|by apply Hp]|].
  rewrite exec_call. destruct (Hp _ _ _ _ Hi HK (serve_replies st.1 R c)) as (Hi' & K' & _ & HK' & Hk). by apply (IH _ K').
Qed.
End Serve.

(** ** One pass over an endpoint *)

Section Pass.
Context `{UuidNonEmpty} (machineID : string) (w : World) (endpoint : string).
Abbreviation now := (wo_now w).

(** The deliveries can be acknowledged, one after the other. *)
Definition ackable (t : St) (l : list Delivery) : Prop :=
  reachable t /\ writable (st_db t) = true /\
  exists e, owns (st_db t) endpoint machineID now e /\
    forall v, v ∈ l -> exists recipient, recipient ∈ sessionIDs (st_db t) machineID endpoint (ep_generation e) now /\
      granted (st_db t) machineID (ep_generation e) (ep_consumer_generation e) now (v_ID v) recipient (v_LeaseToken v) (v_LeaseGeneration v).

Definition sameSession (d0 d : Db) : Prop :=
  db_endpoints d = db_endpoints d0 /\ db_role_bindings d = db_role_bindings d0 /\ writable d = writable d0.

Lemma ack_session id token generation d0 : keeps (sameSession d0) (AckDelivery machineID endpoint id token generation now).
Proof. keep; preserve. Qed.

Lemma ackable_next t v l :
  ackable t (v :: l) -> v_ID v ∉ v_ID <$> l ->
  exists t', AckDelivery machineID endpoint (v_ID v) (v_LeaseToken v) (v_LeaseGeneration v) now t = (inr tt, t') /\ ackable t' l.
Proof.
  intros (Hreach & Hw & e & Ho & Hg) Hnew. destruct (Hg v) as (recipient & Hin & Hgr); [by left|].
  destruct (ack_run _ _ _ _ _ _ _ _ _ Hw (reachable_sound _ Hreach) Ho Hin Hgr) as (t' & dl & E & Hid & Hd).
  exists t'. split; [done|]. assert (sameSession (st_db t) (st_db t')) as (He & Hb & Hw') by by eapply ack_session.
  split_and!; [|by rewrite Hw'|].
  - eapply rtc_r; [done|]. by eapply (step_op (OpAckDelivery _ _ _ _ _ _)).
  - exists e. split; [unfold owns; by rewrite He|]. intros v' Hv'. destruct (Hg v') as (r' & Hr' & dl' & Hdl' & Hrest); [by right|].
    exists r'. split; [unfold sessionIDs; by rewrite Hb|]. exists dl'. split; [|done]. rewrite Hd, lookup_insert_ne; [done|].
    intros Heq. apply Hnew. rewrite Heq. by apply list_elem_of_fmap_2.
Qed.

(** The journal is ready for a delivery. *)
Definition journalReady (j : Journal) (v : Delivery) : Prop :=
  match jn_deliveries j !! v_ID v with
  | Some row => ir_message row = g_ID (v_Message v) /\ ir_state row <> deliveryAcknowledged
  | None => True
  end.
Definition acknowledgedIn (j : Journal) (id : string) : Prop :=
  exists row, jn_deliveries j !! id = Some row /\ ir_state row = deliveryAcknowledged.

(** Only the row of the delivery changes. *)
Definition rowSet (j j' : Journal) (id : string) (row : InboundRow) : Prop :=
  jn_deliveries j' !! id = Some row /\ forall k, k <> id -> jn_deliveries j' !! k = jn_deliveries j !! k.

Lemma rowSet_trans j1 j2 j3 id row row' : rowSet j1 j2 id row -> rowSet j2 j3 id row' -> rowSet j1 j3 id row'.
Proof. intros [_ H1] [Hr H2]. split; [done|]. intros k Hk. by rewrite H2, H1. Qed.
Lemma rowSet_insert j id row : rowSet j (set_inbound (<[id:=row]> (jn_deliveries j)) j) id row.
Proof. split; cbn; [apply lookup_insert_eq|]. intros k Hk. by rewrite lookup_insert_ne. Qed.

Abbreviation run := (exec machineID w).
Abbreviation at_ t j o := ({| si_relay := t; si_journal := j; si_outbox := o |}).

Lemma exec_journal {A} t j o tr (op : JT A) a j' :
  op j = inr (a, j') -> run (at_ t j o, tr) (journal op) = (inr a, (at_ t j' o, tr ++ [Did (JournalDb op) (inr a)])).
Proof. intros Hop. cbn. unfold locally. by rewrite Hop. Qed.

Lemma exec_received t j o tr v :
  journalReady j v -> blank (v_ID v) = false -> blank (g_ID (v_Message v)) = false ->
  exists row j' tr', run (at_ t j o, tr) (ensureReceived (v_ID v) (g_ID (v_Message v)) now) = (inr (ir_state row), (at_ t j' o, tr')) /\
    rowSet j j' (v_ID v) row /\ ir_state row <> deliveryAcknowledged.
Proof.
  intros Hj Hb1 Hb2. unfold ensureReceived, guard. rewrite Hb1, Hb2. cbn [orb].
  erewrite exec_try by reflexivity. erewrite exec_try by (by apply exec_journal).
  set (j1 := set_inbound _ j). assert (exists row, rowSet j j1 (v_ID v) row /\ ir_message row = g_ID (v_Message v) /\ ir_state row <> deliveryAcknowledged) as (row & Hrow & Hm & Hst).
  { unfold j1, journalReady in *. destruct (jn_deliveries j !! v_ID v) as [row|] eqn:Hr.
    - exists row. split; [|done]. by split.
    - eexists. split; [apply rowSet_insert|done]. }
  eexists row, j1, _. split; [|done]. apply exec_journal. unfold readReceived, mbind, Trans_bind, st_read. destruct Hrow as [-> _].
  by rewrite bool_decide_true.
Qed.

Lemma exec_acknowledge t j o tr v row t' :
  AckDelivery machineID endpoint (v_ID v) (v_LeaseToken v) (v_LeaseGeneration v) now t = (inr tt, t') ->
  v_RecipientEndpoint v = endpoint -> jn_deliveries j !! v_ID v = Some row ->
  exists row' j' tr', run (at_ t j o, tr) (acknowledge v now) = (inr tt, (at_ t' j' o, tr')) /\
    rowSet j j' (v_ID v) row' /\ ir_state row' = deliveryAcknowledged.
Proof.
  intros Ha Hep Hrow. unfold acknowledge. erewrite exec_try.
  2: { cbn. unfold remotely. by rewrite Hep, Ha. }
  unfold with_relay. cbn [si_journal si_outbox].
  do 3 eexists. split; [apply exec_journal; unfold MarkAcknowledged, mbind, Trans_bind, st_read; by rewrite Hrow|].
  split; [apply rowSet_insert|done].
Qed.

Lemma exec_forward t j o tr v t' :
  AckDelivery machineID endpoint (v_ID v) (v_LeaseToken v) (v_LeaseGeneration v) now t = (inr tt, t') ->
  journalReady j v -> v_RecipientEndpoint v = endpoint ->
  blank endpoint = false -> blank (v_ID v) = false -> blank (g_ID (v_Message v)) = false ->
  exists row j' tr', run (at_ t j o, tr) (forwardAndAcknowledge endpoint v now) = (inr tt, (at_ t' j' o, tr')) /\
    rowSet j j' (v_ID v) row /\ ir_state row = deliveryAcknowledged.
Proof.
  intros Ha Hj Hep Hb1 Hb2 Hb3. unfold forwardAndAcknowledge. cbv zeta.
  destruct (exec_received t j o tr v Hj Hb2 Hb3) as (row & j1 & tr1 & E1 & Hs1 & Hst). erewrite exec_try by exact E1.
  destruct (ir_state row) eqn:Hstate; [| |done].
  - erewrite exec_try by (unfold mailboxSend, guard; rewrite Hb1; reflexivity). cbn [fst snd].
    erewrite exec_try by (by apply exec_journal). set (j2 := set_inbound _ j1).
    destruct Hs1 as [Hrow Ho]. assert (rowSet j1 j2 (v_ID v) {| ir_message := ir_message row; ir_state := deliveryForwarded; ir_updated_at := Time.UnixMilli now |}) as Hs2.
    { unfold j2. rewrite Hrow, Hstate. apply rowSet_insert. }
    edestruct exec_acknowledge as (row3 & j3 & tr3 & E3 & Hs3 & Hst3); [exact Ha|done|exact (proj1 Hs2)|].
    exists row3, j3, tr3. split_and!; [exact E3| |done]. eapply rowSet_trans; [|exact Hs3]. by eapply rowSet_trans.
  - edestruct exec_acknowledge as (row3 & j3 & tr3 & E3 & Hs3 & Hst3); [exact Ha|done|exact (proj1 Hs1)|].
    exists row3, j3, tr3. split_and!; [exact E3| |done]. by eapply rowSet_trans.
Qed.

Lemma exec_forwardAll l t j o tr :
  ackable t l -> NoDup (v_ID <$> l) -> blank endpoint = false ->
  (forall v, v ∈ l -> journalReady j v /\ v_RecipientEndpoint v = endpoint /\ blank (v_ID v) = false /\ blank (g_ID (v_Message v)) = false) ->
  exists t' j' tr', run (at_ t j o, tr) (forwardAll endpoint l) = (inr tt, (at_ t' j' o, tr')) /\
    (forall id, id ∉ v_ID <$> l -> jn_deliveries j' !! id = jn_deliveries j !! id) /\
    forall v, v ∈ l -> acknowledgedIn j' (v_ID v).
Proof.
  intros Hack Hnd Hb. revert t j tr Hack. induction l as [|v l IH]; intros t j tr Hack Hl.
  { exists t, j, tr. split_and!; [done|done|]. by intros v ?%elem_of_nil. }
  apply NoDup_cons in Hnd as [Hnew Hnd]. destruct (ackable_next _ _ _ Hack Hnew) as (t1 & Ha & Hack1).
  destruct (Hl v) as (Hj & Hep & Hb1 & Hb2); [by left|]. cbn [forwardAll]. rewrite exec_bind.
  change (run (at_ t j o, tr) (call Now)) with (now, (at_ t j o, tr ++ [Did Now now])).
  destruct (exec_forward t j o (tr ++ [Did Now now]) v t1 Ha Hj Hep Hb Hb1 Hb2) as (row & j1 & tr1 & E1 & [Hr1 Ho1] & Hst).
  erewrite exec_try by exact E1. destruct (IH Hnd t1 j1 tr1 Hack1) as (t2 & j2 & tr2 & E2 & Ho2 & Hall).
  { intros v' Hv'. destruct (Hl v') as (Hj' & ?); [by right|]. split; [|done]. unfold journalReady. rewrite Ho1; [done|].
    intros Heq. apply Hnew. rewrite <-Heq. by apply list_elem_of_fmap_2. }
  exists t2, j2, tr2. split_and!; [exact E2| |].
  - intros id Hid. rewrite fmap_cons, not_elem_of_cons in Hid. destruct Hid as [Hne Hid]. by rewrite Ho2, Ho1.
  - intros v' [->|Hv']%elem_of_cons; [|by apply Hall]. exists row. split; [|done]. by rewrite Ho2.
Qed.

(** What the lease of a page leaves. *)
Lemma leased_ackable s t page :
  reachable s -> writable (st_db s) = true -> ms now < ms (Time.Add now (wo_ttl w)) ->
  LeaseDeliveries machineID (wo_consumer w) endpoint "" now (wo_ttl w) (wo_limit w) s = (inr page, t) ->
  rtc step s t /\ ackable t (p_Deliveries page).
Proof.
  intros Hreach Hw Httl Hl.
  assert (step s t) as Hstep.
  { eapply (step_op (OpLeaseDeliveries machineID (wo_consumer w) endpoint "" now (wo_ttl w) (wo_limit w))).
    simpl. unfold void. erewrite bind_run by exact Hl. done. }
  split; [by apply rtc_once|]. split_and!; [by eapply rtc_r| |by eapply lease_page].
  assert (keeps (fun d => writable d = true)
    (LeaseDeliveries machineID (wo_consumer w) endpoint "" now (wo_ttl w) (wo_limit w))) as Hk by (keep; preserve).
  by eapply Hk.
Qed.

(** No journal row keeps a pending delivery back. *)
Lemma journal_ready s tr t v :
  mailInv s tr -> rtc step (si_relay s) t -> stored (st_db t) v -> ~ closedAt (st_db t) (v_ID v) -> journalReady (si_journal s) v.
Proof.
  intros Hi Hs Hv Hopen. unfold journalReady. destruct (jn_deliveries (si_journal s) !! v_ID v) as [row|] eqn:Hrow; [|done].
  destruct (mi_journal _ _ Hi _ _ Hrow) as [(v0 & Hl0 & Hid0 & <-) _ Hacked]. split.
  - apply (mi_leased _ _ Hi), (stored_steps _ _ _ Hs) in Hl0 as (dl0 & m0 & Hdl0 & Hm0 & -> & _).
    destruct Hv as (dl & m & Hdl & Hm & -> & _). rewrite Hid0 in Hdl0. by simplify_eq.
  - intros Hst. apply Hopen. eapply closed_steps; [done|]. by apply (mi_closed _ _ Hi), Hacked.
Qed.

End Pass.
