(* ===== verification/AdapterWitness.v ===== *)
(** * The adapter's theorems at concrete runs *)

From S2P Require Import Prelude Programs GoTime RateLimit Quota Text Sha256 Tables Tx Sessions Pending.
From S2P Require Import Invocations Rooms Claims Roles Directory Messages Deliveries QuotaInv Relay Progress Scenario.
From S2P Require Import Adapter AdapterRelay AdapterMail AdapterStarts AdapterServe.
Open Scope Z_scope.

#[local] Instance adapter_ids : UuidNonEmpty.
Proof. intros n. discriminate. Qed.

Definition worldAt (seconds : Z) (members : list string) : World := {|
  wo_now := at_ seconds;
  wo_ttl := 30 * Time.Second;
  wo_limit := 10;
  wo_consumer := "consumer-1";
  wo_members := (fun person => {| mb_Person := person; mb_Active := true |}) <$> members |}.

(** A program run to its end by machine [m], after what happened before. *)
Section Runs.
Context (m : string) (w : World).

Definition finished (st : Site * list Event) : Pool Call Site :=
  {| po_threads := [process (Ret tt)]; po_db := st.1; po_trace := st.2 |}.

Lemma exec_siteRun t (p : Prog unit) : reachable t -> entry (process p) -> siteRun m (finished (exec m w (newSite t, []) p).2).
Proof.
  intros Ht Hp. exists t. split; [done|]. destruct (exec m w (newSite t, []) p) as [[] st'] eqn:E.
  eapply rtc_l; [by apply (pool_start _ _ _ (process p))|]. exact (exec_steps m w _ p _ _ [] [] E).
Qed.
End Runs.

(** ** A delivery *)

Definition mailTurn : Pool Call Site := finished (exec "m2" (worldAt 1003 ["e2"]) (newSite state1, []) (adapterTurn false)).2.

Lemma mailTurn_run : siteRun "m2" mailTurn.
Proof. apply exec_siteRun; [exact state1_reachable|constructor]. Qed.

Lemma asAck_event ev v b : asAck ev = Some (v, b) -> exists r, ev = Did (Ack v) r.
Proof. destruct ev as [R c r]. destruct c; try done. cbn. intros [= <- _]. by exists r. Qed.

(** A run that has an event of some kind splits there. *)
Lemma find_event {B} (f : Event -> option B) tr : length (omap f tr) <> 0%nat -> exists tr1 ev tr2 b, tr = tr1 ++ ev :: tr2 /\ f ev = Some b.
Proof.
  induction tr as [|ev tr IH]; [done|]. cbn. destruct (f ev) as [b|] eqn:Hf; intros Hn.
  - by exists [], ev, tr, b.
  - destruct (IH Hn) as (tr1 & ev' & tr2 & b & -> & Hb). by exists (ev :: tr1), ev', tr2, b.
Qed.

Lemma injected_before_ack_witness : exists tr1 v r tr2, po_trace mailTurn = tr1 ++ Did (Ack v) r :: tr2 /\
  let d := relayDb (po_db mailTurn) in
  exists dl m endpoint, db_deliveries d !! v_ID v = Some dl /\ db_messages d !! dl_message dl = Some m /\
    Did (MailboxSend endpoint (storedEnvelope dl m (db_message_from_roles d !! dl_message dl))) (inr tt) ∈ tr1 /\
    (r = inr tt -> isPending dl = false).
Proof.
  destruct (find_event asAck (po_trace mailTurn)) as (tr1 & ev & tr2 & [v b] & Htr & Hev); [vm_compute; discriminate|].
  destruct (asAck_event _ _ _ Hev) as [r ->]. exists tr1, v, r, tr2. split; [exact Htr|].
  exact (injected_before_ack "m2" mailTurn tr1 v r tr2 mailTurn_run Htr).
Defined.

Definition beforeTurn : Pool Call Site := newPool state1.
Lemma beforeTurn_run : siteRun "m2" beforeTurn.
Proof. exists state1. split; [exact state1_reachable|apply rtc_refl]. Qed.

Definition mailLease : M DeliveryLeasePage := LeaseDeliveries "m2" "consumer-1" "e2" "" (at_ 1003) (30 * Time.Second) 10.
Definition mailPage : DeliveryLeasePage :=
  match (mailLease state1).1 with inr page => page | inl _ => {| p_Deliveries := []; p_Cursors := ∅ |} end.

Lemma mailLease_ok : mailLease state1 = (inr mailPage, (mailLease state1).2).
Proof. apply ran. vm_compute; reflexivity. Qed.

Lemma page_named l :
  forallb (fun v => negb (blank (v_ID v)) && negb (blank (g_ID (v_Message v)))) l = true ->
  Forall (fun v => blank (v_ID v) = false /\ blank (g_ID (v_Message v)) = false) l.
Proof.
  induction l as [|v l IH]; [constructor|]. cbn [forallb]. intros [[H1 H2]%andb_true_iff Hl]%andb_true_iff.
  constructor; [by rewrite <-!negb_true_iff|by apply IH].
Qed.

Lemma mailPage_named : Forall (fun v => blank (v_ID v) = false /\ blank (g_ID (v_Message v)) = false) (p_Deliveries mailPage).
Proof. apply page_named. vm_compute; reflexivity. Qed.


(** ** A notice *)

Definition offering : Prog (AdErr + unit) := EnqueueV3OfferNotice room "e1" (Some "an offer") "offer-1".
Definition noticeWorld : World := worldAt 1003 ["e1"].
Definition offered : Site * list Event := (exec "m1" noticeWorld (newSite state0, []) offering).2.
Definition offeredPool : Pool Call Site := {| po_threads := [process (Ret (inr tt : AdErr + unit))]; po_db := offered.1; po_trace := offered.2 |}.
Definition noticeRow : NoticeRow :=
  {| on_conversation := room; on_endpoint := "e1"; on_body := "an offer"; on_active := true; on_created_at := Time.UnixMilli (at_ 1003) |}.

Lemma exec_done {A} m w st (p : Prog A) a : (exec m w st p).1 = a -> exec m w st p = (a, (exec m w st p).2).
Proof. destruct (exec m w st p). by intros <-. Qed.

Lemma offeredPool_run : siteRun "m1" offeredPool.
Proof.
  exists state0. split; [exact state0_reachable|]. eapply rtc_l; [apply (pool_start _ _ _ (process offering)); constructor|].
  apply (exec_steps "m1" noticeWorld (newSite state0, []) offering (inr tt) offered [] []).
  apply exec_done. vm_compute; reflexivity.
Qed.

Lemma offered_row : si_outbox (po_db offeredPool) !! "offer-1" = Some noticeRow.
Proof. vm_compute; reflexivity. Qed.

Lemma exec_unit m w st (p : Prog unit) : exec m w st p = (tt, (exec m w st p).2).
Proof. by destruct (exec m w st p) as [[] st']. Qed.

(** The next turn sends it. *)
Definition flushed : Site * list Event := (exec "m1" noticeWorld offered (adapterTurn false)).2.
Definition flushedPool : Pool Call Site :=
  {| po_threads := [process (Ret tt); process (Ret (inr tt : AdErr + unit))]; po_db := flushed.1; po_trace := flushed.2 |}.

Lemma flushedPool_steps : rtc (siteStep "m1") offeredPool flushedPool.
Proof.
  eapply rtc_l; [apply (pool_start _ _ _ (process (adapterTurn false))); constructor|].
  apply (exec_steps "m1" noticeWorld offered (adapterTurn false) tt flushed [] [_]). exact (exec_unit _ _ _ _).
Qed.

Lemma outbox_bounded_witness : size (si_outbox (po_db offeredPool)) = 1%nat /\
  Z.of_nat (size (si_outbox (po_db offeredPool))) <= 64 /\ msum noticeBytes (si_outbox (po_db offeredPool)) <= 2097152.
Proof. split; [vm_compute; reflexivity|]. exact (outbox_bounded "m1" offeredPool offeredPool_run). Defined.

Lemma notice_not_lost_witness : size (si_outbox (po_db flushedPool)) = 0%nat /\
  (si_outbox (po_db flushedPool) !! "offer-1" = Some noticeRow \/
   recordedNotice "m1" (relayDb (po_db flushedPool)) (noticeOf "offer-1" noticeRow) \/
   Did (SendNotice (noticeOf "offer-1" noticeRow)) (inl (AdRemote true)) ∈ po_trace flushedPool).
Proof.
  split; [vm_compute; reflexivity|].
  exact (notice_not_lost "m1" offeredPool flushedPool "offer-1" noticeRow offeredPool_run flushedPool_steps offered_row eq_refl).
Defined.

(** ** A start *)

Definition startTurn : Pool Call Site := finished (exec "m2" (worldAt 1703 []) (newSite startState, []) (adapterTurn true)).2.

Lemma startTurn_run : siteRun "m2" startTurn.
Proof. apply exec_siteRun; [exact startState_reachable|constructor]. Qed.

Definition asInvoke (ev : Event) : option Invocation :=
  match ev with @Did _ R c r => match c with Invoke i => Some i | _ => None end end.
Definition asAccepted (ev : Event) : option Invocation :=
  match ev with @Did _ R c r => match c with ReportInvocation i true => Some i | _ => None end end.
Lemma asInvoke_event ev i : asInvoke ev = Some i -> exists r, ev = Did (Invoke i) r.
Proof. destruct ev as [R c r]. destruct c; try done. cbn. intros [= <-]. by exists r. Qed.
Lemma asAccepted_event ev i : asAccepted ev = Some i -> exists r, ev = Did (ReportInvocation i true) r.
Proof. destruct ev as [R c r]. destruct c; try done. cbn. destruct accepted; [|done]. intros [= <-]. by exists r. Qed.

Lemma starts_justified_witness :
  (exists tr1 i, leasedStart tr1 i /\ i_RecoveryOnly i = false /\ readPending tr1 i) /\
  exists tr1 i, leasedStart tr1 i /\ (started tr1 (i_ID i) (i_Fence i) \/ listed tr1 (i_TargetEndpoint i)).
Proof.
  split.
  - destruct (find_event asInvoke (po_trace startTurn)) as (tr1 & ev & tr2 & i & Htr & Hev); [vm_compute; discriminate|].
    destruct (asInvoke_event _ _ Hev) as [r Hr]. exists tr1, i.
    exact (proj1 (starts_justified "m2" startTurn tr1 ev tr2 startTurn_run Htr) i r Hr).
  - destruct (find_event asAccepted (po_trace startTurn)) as (tr1 & ev & tr2 & i & Htr & Hev); [vm_compute; discriminate|].
    destruct (asAccepted_event _ _ Hev) as [r Hr]. exists tr1, i.
    exact (proj2 (starts_justified "m2" startTurn tr1 ev tr2 startTurn_run Htr) i r Hr).
Defined.
