(* ===== verification/Attachment.v ===== *)
(** * Attachment records (src/internal/attachment/v3)

    The signed records of the attachment protocol (manifest, permit, operation,
    envelope, offer payload, permit request), the rules that admit them, the
    fixed route grammar, the lifecycle of a transfer ([transfer.go]) and the
    canonical result of an operation.  The store that redeems them is in
    [SourceStore].

    Fixed byte arrays are lists of bytes.  CBOR, BLAKE3 and Ed25519 are third
    party or standard-library cryptography: functions of [V3Env]. *)

From Stdlib Require Import Ascii.
From S2P Require Import Prelude GoTime Text.
Open Scope Z_scope.

(** ** Results *)
Definition Res (A : Type) : Type := string + A.
#[export] Instance Res_ret : MRet Res := fun A a => inr a.
#[export] Instance Res_bind : MBind Res := fun A B k m =>
  match m with inl e => inl e | inr a => k a end.
Definition guard_ (b : bool) (msg : string) : Res unit := if b then inr tt else inl msg.
Definition need {A} (o : option A) (msg : string) : Res A :=
  match o with Some a => inr a | None => inl msg end.

(** ** CBOR maps

    Every record is a map with small integer keys; [keyasint] structures and
    the literal maps of the [signedBytes] methods encode the same way. *)
Inductive CborVal := CInt (n : Z) | CBytes (b : list Z).
#[export] Instance CborVal_eq_dec : EqDecision CborVal.
Proof. solve_decision. Defined.
Definition CborMap : Type := list (Z * CborVal).

Class V3Env := {
  cbor_Marshal : CborMap -> list Z;              (* canonicalEncoding.Marshal *)
  cbor_Unmarshal : list Z -> option CborMap;     (* strictDecoding.Unmarshal *)
  blake3_Sum256 : list Z -> list Z;
  ed25519_verify : list Z -> list Z -> list Z -> bool;
  ed25519_sign : list Z -> list Z -> list Z;
  ed25519_public : list Z -> list Z;
}.

Definition zero16 : list Z := replicate 16 0.
Definition zero32 : list Z := replicate 32 0.
Definition zero64 : list Z := replicate 64 0.
Definition isZero16 (b : list Z) : bool := bool_decide (b = zero16).
Definition isZero32 (b : list Z) : bool := bool_decide (b = zero32).
Definition eqb (a b : list Z) : bool := bool_decide (a = b).
Definition len (b : list Z) : Z := Z.of_nat (length b).
Definition MaxInt64 : Z := int64_max.
Definition MaxUint64 : Z := 2 ^ 64 - 1.

(** What a map on the wire holds: unsigned 64-bit integers and byte strings. *)
Definition isByte (x : Z) : Prop := 0 <= x <= 255.
Definition wireValue (v : CborVal) : Prop :=
  match v with
  | CInt n => 0 <= n <= MaxUint64
  | CBytes b => Forall isByte b /\ len b <= MaxInt64
  end.
Definition wireMap (m : CborMap) : Prop := Forall (fun kv => 0 <= kv.1 <= MaxUint64 /\ wireValue kv.2) m.

(** The deterministic encoding of a map with ascending keys decodes to it, and
    decoding yields such values only; a digest has 32 bytes. *)
Class V3Laws `{V3Env} := {
  unmarshal_marshal : forall m,
    StronglySorted Z.lt (fst <$> m) -> wireMap m -> cbor_Unmarshal (cbor_Marshal m) = Some m;
  unmarshal_wire : forall b m, cbor_Unmarshal b = Some m -> wireMap m;
  sum256_length : forall b, length (blake3_Sum256 b) = 32%nat;
}.

(** Decoding one field into a structure: an absent key leaves the zero value;
    a byte string of another length than the array would not re-encode to the
    same bytes. *)
Fixpoint fieldOf (m : CborMap) (k : Z) : option CborVal :=
  match m with
  | [] => None
  | (k', v) :: m => if k =? k' then Some v else fieldOf m k
  end.
Definition intOf (m : CborMap) (k : Z) : option Z :=
  match fieldOf m k with
  | None => Some 0
  | Some (CInt n) => if (0 <=? n) && (n <=? MaxUint64) then Some n else None
  | Some (CBytes _) => None
  end.
Definition arrayOf (n : nat) (m : CborMap) (k : Z) : option (list Z) :=
  match fieldOf m k with
  | None => Some (replicate n 0)
  | Some (CBytes b) => if bool_decide (length b = n) then Some b else None
  | Some (CInt _) => None
  end.
Definition bytesField (m : CborMap) (k : Z) : option (list Z) :=
  match fieldOf m k with
  | None => Some []
  | Some (CBytes b) => Some b
  | Some (CInt _) => None
  end.
(** [ExtraDecErrorUnknownField]: a key the structure lacks is an error. *)
Definition knownKeys (m : CborMap) (known : list Z) : bool :=
  forallb (fun kv => bool_decide (kv.1 ∈ known)) m.

Definition protocolVersion : Z := 3.
Definition PublicKeySize : Z := 32.
Definition PrivateKeySize : Z := 64.

(** ** Time *)
Definition Unix (t : Z) : Z := t / Time.Second.
Definition MaxManifestLifetime : Z := 10 * Time.Minute.
Definition MaxFutureClockSkew : Z := Time.Minute.

Definition unixSeconds (value : Z) : Res Z :=
  guard_ (value <=? MaxInt64) "unrepresentable Unix timestamp";; mret value.

Definition issuedWithinClockSkew (issued nowUnix : Z) : bool :=
  (0 <=? nowUnix) && (issued <=? nowUnix + MaxFutureClockSkew / Time.Second).

(** ** The lifecycle of a transfer ([transfer.go]) *)
Inductive transferStatus :=
  | transferCreated | transferSourceUploading | transferSourceReady | transferOffered
  | transferAccepted | transferTransferring | transferCompleted | transferExpired
  | transferCancelled | transferRevoked.
#[export] Instance transferStatus_eq_dec : EqDecision transferStatus.
Proof. solve_decision. Defined.

Definition statusCode (s : transferStatus) : Z :=
  match s with
  | transferCreated => 1 | transferSourceUploading => 2 | transferSourceReady => 3
  | transferOffered => 4 | transferAccepted => 5 | transferTransferring => 6
  | transferCompleted => 7 | transferExpired => 8 | transferCancelled => 9
  | transferRevoked => 10
  end.

Definition statuses : list transferStatus :=
  [transferCreated; transferSourceUploading; transferSourceReady; transferOffered; transferAccepted;
   transferTransferring; transferCompleted; transferExpired; transferCancelled; transferRevoked].
Definition statusOf (code : Z) : option transferStatus :=
  snd <$> list_find (fun s => statusCode s = code) statuses.

Definition isStatus (a b : transferStatus) : bool := bool_decide (a = b).

Definition terminal (s : transferStatus) : bool :=
  isStatus s transferCompleted || isStatus s transferExpired || isStatus s transferCancelled
  || isStatus s transferRevoked.

Inductive transferAction :=
  | transferActionSourceInit | transferActionSourceReady | transferActionOffer
  | transferActionAccept | transferActionBegin | transferActionComplete
  | transferActionExpire | transferActionCancel | transferActionRevoke.

Record transferRecord := {
  x_TransferID : list Z;
  x_ManifestCommitment : list Z;
  x_Status : transferStatus;
  x_AttemptGeneration : Z;
  x_ExpiresAt : Z;
}.

Record transitionProof := {
  sourceComplete : bool;
  receiptComplete : bool;
  expectedAttemptGeneration : Z;
}.

Definition newTransferRecord (transferID commitment : list Z) (expiresAt : Z) : transferRecord :=
  {| x_TransferID := transferID; x_ManifestCommitment := commitment; x_Status := transferCreated;
     x_AttemptGeneration := 0; x_ExpiresAt := expiresAt |}.

Definition validTransferRecord (r : transferRecord) : bool :=
  negb (isZero16 (x_TransferID r)) && negb (isZero32 (x_ManifestCommitment r)) && (0 <? x_ExpiresAt r)
  && (x_AttemptGeneration r <=? 1)
  && match x_Status r with
     | transferCreated | transferSourceUploading | transferSourceReady | transferOffered
     | transferAccepted => x_AttemptGeneration r =? 0
     | transferTransferring | transferCompleted => x_AttemptGeneration r =? 1
     | transferExpired | transferCancelled | transferRevoked => true
     end.

Definition withStatus (status : transferStatus) (attempt : Z) (r : transferRecord) : transferRecord :=
  {| x_TransferID := x_TransferID r; x_ManifestCommitment := x_ManifestCommitment r; x_Status := status;
     x_AttemptGeneration := attempt; x_ExpiresAt := x_ExpiresAt r |}.

Definition transition (r : transferRecord) (action : transferAction) (now : Z)
    (proof : transitionProof) : Res transferRecord :=
  let goto status attempt := inr (withStatus status attempt r) in
  let keep status := goto status (x_AttemptGeneration r) in
  let when (b : bool) (result : Res transferRecord) :=
    if b then result else inl "invalid transfer transition" in
  if negb (validTransferRecord r) || terminal (x_Status r) then inl "invalid or terminal transfer" else
  let seconds := Unix now in
  if seconds <? 0 then inl "invalid transition time" else
  match action with
  | transferActionExpire =>
      if seconds <? x_ExpiresAt r then inl "transfer has not expired" else keep transferExpired
  | _ =>
      if x_ExpiresAt r <=? seconds then inl "transfer expired" else
      match action with
      | transferActionCancel => keep transferCancelled
      | transferActionRevoke => keep transferRevoked
      | transferActionSourceInit =>
          when (isStatus (x_Status r) transferCreated) (keep transferSourceUploading)
      | transferActionSourceReady =>
          when (isStatus (x_Status r) transferSourceUploading && sourceComplete proof) (keep transferSourceReady)
      | transferActionOffer => when (isStatus (x_Status r) transferSourceReady) (keep transferOffered)
      | transferActionAccept => when (isStatus (x_Status r) transferOffered) (keep transferAccepted)
      | transferActionBegin =>
          when (isStatus (x_Status r) transferAccepted && (x_AttemptGeneration r =? 0)
                && (expectedAttemptGeneration proof =? 0)) (goto transferTransferring 1)
      | transferActionComplete =>
          when (isStatus (x_Status r) transferTransferring && (x_AttemptGeneration r =? 1)
                && receiptComplete proof && (expectedAttemptGeneration proof =? x_AttemptGeneration r))
               (keep transferCompleted)
      | transferActionExpire => inl "invalid transfer transition"
      end
  end.

(** ** The records

    [...Fields] is the map of a [signedBytes] method, [...Wire] the encoded
    structure with its signature, [...Of] the strict decoding of one. *)
Record Manifest := mkManifest {
  m_Audience : list Z;
  m_TransferID : list Z;
  m_ConversationID : list Z;
  m_SenderDeviceID : list Z;
  m_SenderGeneration : Z;
  m_RecipientDeviceID : list Z;
  m_RecipientGeneration : Z;
  m_DirectoryHead : list Z;
  m_MembershipCommitment : list Z;
  m_RevocationEpoch : Z;
  m_IssuedAt : Z;
  m_ExpiresAt : Z;
  m_ContentSalt : list Z;
  m_PlaintextCommitment : list Z;
  m_ChunkSize : Z;
  m_ChunkCount : Z;
  m_PlaintextSize : Z;
  m_SignerKeyID : list Z;
  m_Signature : list Z;
}.

Record Permit := mkPermit {
  p_Audience : list Z;
  p_Serial : list Z;
  p_IssuerKeyID : list Z;
  p_HolderDeviceID : list Z;
  p_HolderGeneration : Z;
  p_HolderRole : Z;
  p_TransferID : list Z;
  p_ConversationID : list Z;
  p_SenderDeviceID : list Z;
  p_SenderGeneration : Z;
  p_RecipientDeviceID : list Z;
  p_RecipientGeneration : Z;
  p_AttemptGeneration : Z;
  p_Operation : Z;
  p_DirectoryHead : list Z;
  p_MembershipCommitment : list Z;
  p_RevocationEpoch : Z;
  p_IssuedAt : Z;
  p_ExpiresAt : Z;
  p_MaxBytes : Z;
  p_MaxChunks : Z;
  p_MaxOperations : Z;
  p_StagedManifestCommitment : list Z;
  p_OutcomeOfSerial : list Z;
  p_Signature : list Z;
}.

Record OperationRecord := mkOperationRecord {
  o_PermitSerial : list Z;
  o_OperationID : list Z;
  o_Operation : Z;
  o_Method : Z;
  o_PathCommitment : list Z;
  o_TargetCommitment : list Z;
  o_BodyCommitment : list Z;
  o_IdempotencyKey : list Z;
  o_IssuedAt : Z;
  o_ExpiresAt : Z;
  o_StagedManifestCommitment : list Z;
  o_Signature : list Z;
}.

Record PermitRequest := mkPermitRequest {
  q_RequestID : list Z;
  q_HolderDeviceID : list Z;
  q_HolderGeneration : Z;
  q_HolderRole : Z;
  q_TransferID : list Z;
  q_ConversationID : list Z;
  q_SenderDeviceID : list Z;
  q_SenderGeneration : Z;
  q_RecipientDeviceID : list Z;
  q_RecipientGeneration : Z;
  q_AttemptGeneration : Z;
  q_Operation : Z;
  q_MembershipCommitment : list Z;
  q_StagedManifestCommitment : list Z;
  q_OutcomeOfSerial : list Z;
  q_IssuedAt : Z;
  q_ExpiresAt : Z;
  q_MaxBytes : Z;
  q_MaxChunks : Z;
  q_MaxOperations : Z;
  q_Signature : list Z;
}.

Record Envelope := mkEnvelope {
  e_Audience : list Z;
  e_TransferID : list Z;
  e_ConversationID : list Z;
  e_SenderDeviceID : list Z;
  e_SenderGeneration : Z;
  e_RecipientDeviceID : list Z;
  e_RecipientGeneration : Z;
  e_RecipientHPKEKeyID : list Z;
  e_ManifestCommitment : list Z;
  e_EncapsulatedKey : list Z;
  e_Ciphertext : list Z;
  e_SignerKeyID : list Z;
  e_Signature : list Z;
}.

Definition hpkeKEMID : Z := 0x0020.
Definition hpkeKDFID : Z := 0x0001.
Definition hpkeAEADID : Z := 0x0003.

Definition manifestFields (r : Manifest) : CborMap :=
  [(1, CInt protocolVersion); (2, CBytes (m_Audience r)); (3, CBytes (m_TransferID r));
   (4, CBytes (m_ConversationID r)); (5, CBytes (m_SenderDeviceID r));
   (6, CInt (m_SenderGeneration r)); (7, CBytes (m_RecipientDeviceID r));
   (8, CInt (m_RecipientGeneration r)); (9, CBytes (m_DirectoryHead r));
   (10, CBytes (m_MembershipCommitment r)); (11, CInt (m_RevocationEpoch r));
   (12, CInt (m_IssuedAt r)); (13, CInt (m_ExpiresAt r)); (14, CBytes (m_ContentSalt r));
   (15, CBytes (m_PlaintextCommitment r)); (16, CInt (m_ChunkSize r)); (17, CInt (m_ChunkCount r));
   (18, CInt (m_PlaintextSize r)); (19, CBytes (m_SignerKeyID r)); (20, CInt 1)].
Definition manifestWire (r : Manifest) : CborMap := manifestFields r ++ [(99, CBytes (m_Signature r))].
Definition manifestOf (m : CborMap) : option Manifest :=
  aAudience ← arrayOf 32 m 2; aTransferID ← arrayOf 16 m 3; aConversationID ← arrayOf 16 m 4;
  aSenderDeviceID ← arrayOf 16 m 5; aSenderGeneration ← intOf m 6; aRecipientDeviceID ← arrayOf 16 m 7;
  aRecipientGeneration ← intOf m 8; aDirectoryHead ← arrayOf 32 m 9;
  aMembershipCommitment ← arrayOf 32 m 10; aRevocationEpoch ← intOf m 11; aIssuedAt ← intOf m 12;
  aExpiresAt ← intOf m 13; aContentSalt ← arrayOf 32 m 14; aPlaintextCommitment ← arrayOf 32 m 15;
  aChunkSize ← intOf m 16; aChunkCount ← intOf m 17; aPlaintextSize ← intOf m 18;
  aSignerKeyID ← arrayOf 32 m 19; aSignature ← arrayOf 64 m 99;
  if knownKeys m [1; 2; 3; 4; 5; 6; 7; 8; 9; 10; 11; 12; 13; 14; 15; 16; 17; 18; 19; 20; 99]
     && bool_decide (fieldOf m 1 = Some (CInt protocolVersion)) && bool_decide (fieldOf m 20 = Some (CInt 1))
  then Some (mkManifest aAudience aTransferID aConversationID aSenderDeviceID aSenderGeneration
              aRecipientDeviceID aRecipientGeneration aDirectoryHead aMembershipCommitment
              aRevocationEpoch aIssuedAt aExpiresAt aContentSalt aPlaintextCommitment aChunkSize
              aChunkCount aPlaintextSize aSignerKeyID aSignature)
  else None.

Definition permitFields (r : Permit) : CborMap :=
  [(1, CInt protocolVersion); (2, CBytes (p_Audience r)); (3, CBytes (p_Serial r));
   (4, CBytes (p_IssuerKeyID r)); (5, CBytes (p_HolderDeviceID r));
   (6, CInt (p_HolderGeneration r)); (7, CInt (p_HolderRole r)); (8, CBytes (p_TransferID r));
   (9, CBytes (p_ConversationID r)); (10, CBytes (p_SenderDeviceID r));
   (11, CInt (p_SenderGeneration r)); (12, CBytes (p_RecipientDeviceID r));
   (13, CInt (p_RecipientGeneration r)); (14, CInt (p_AttemptGeneration r));
   (15, CInt (p_Operation r)); (16, CBytes (p_DirectoryHead r));
   (17, CBytes (p_MembershipCommitment r)); (18, CInt (p_RevocationEpoch r));
   (19, CInt (p_IssuedAt r)); (20, CInt (p_ExpiresAt r)); (21, CInt (p_MaxBytes r));
   (22, CInt (p_MaxChunks r)); (23, CInt (p_MaxOperations r));
   (24, CBytes (p_StagedManifestCommitment r)); (25, CBytes (p_OutcomeOfSerial r))].
Definition permitWire (r : Permit) : CborMap := permitFields r ++ [(99, CBytes (p_Signature r))].
Definition permitOf (m : CborMap) : option Permit :=
  aAudience ← arrayOf 32 m 2; aSerial ← arrayOf 16 m 3; aIssuerKeyID ← arrayOf 32 m 4;
  aHolderDeviceID ← arrayOf 16 m 5; aHolderGeneration ← intOf m 6; aHolderRole ← intOf m 7;
  aTransferID ← arrayOf 16 m 8; aConversationID ← arrayOf 16 m 9; aSenderDeviceID ← arrayOf 16 m 10;
  aSenderGeneration ← intOf m 11; aRecipientDeviceID ← arrayOf 16 m 12;
  aRecipientGeneration ← intOf m 13; aAttemptGeneration ← intOf m 14; aOperation ← intOf m 15;
  aDirectoryHead ← arrayOf 32 m 16; aMembershipCommitment ← arrayOf 32 m 17;
  aRevocationEpoch ← intOf m 18; aIssuedAt ← intOf m 19; aExpiresAt ← intOf m 20;
  aMaxBytes ← intOf m 21; aMaxChunks ← intOf m 22; aMaxOperations ← intOf m 23;
  aStagedManifestCommitment ← arrayOf 32 m 24; aOutcomeOfSerial ← arrayOf 16 m 25;
  aSignature ← arrayOf 64 m 99;
  if knownKeys m [1; 2; 3; 4; 5; 6; 7; 8; 9; 10; 11; 12; 13; 14; 15; 16; 17; 18; 19; 20; 21; 22; 23; 24; 25; 99]
     && bool_decide (fieldOf m 1 = Some (CInt protocolVersion))
  then Some (mkPermit aAudience aSerial aIssuerKeyID aHolderDeviceID aHolderGeneration aHolderRole
              aTransferID aConversationID aSenderDeviceID aSenderGeneration aRecipientDeviceID
              aRecipientGeneration aAttemptGeneration aOperation aDirectoryHead
              aMembershipCommitment aRevocationEpoch aIssuedAt aExpiresAt aMaxBytes aMaxChunks
              aMaxOperations aStagedManifestCommitment aOutcomeOfSerial aSignature)
  else None.

Definition operationFields (r : OperationRecord) : CborMap :=
  [(1, CInt protocolVersion); (2, CBytes (o_PermitSerial r)); (3, CBytes (o_OperationID r));
   (4, CInt (o_Operation r)); (5, CInt (o_Method r)); (6, CBytes (o_PathCommitment r));
   (7, CBytes (o_TargetCommitment r)); (8, CBytes (o_BodyCommitment r));
   (9, CBytes (o_IdempotencyKey r)); (10, CInt (o_IssuedAt r)); (11, CInt (o_ExpiresAt r));
   (24, CBytes (o_StagedManifestCommitment r))].
Definition operationWire (r : OperationRecord) : CborMap := operationFields r ++ [(99, CBytes (o_Signature r))].
Definition operationOf (m : CborMap) : option OperationRecord :=
  aPermitSerial ← arrayOf 16 m 2; aOperationID ← arrayOf 16 m 3; aOperation ← intOf m 4;
  aMethod ← intOf m 5; aPathCommitment ← arrayOf 32 m 6; aTargetCommitment ← arrayOf 32 m 7;
  aBodyCommitment ← arrayOf 32 m 8; aIdempotencyKey ← arrayOf 32 m 9; aIssuedAt ← intOf m 10;
  aExpiresAt ← intOf m 11; aStagedManifestCommitment ← arrayOf 32 m 24; aSignature ← arrayOf 64 m 99;
  if knownKeys m [1; 2; 3; 4; 5; 6; 7; 8; 9; 10; 11; 24; 99]
     && bool_decide (fieldOf m 1 = Some (CInt protocolVersion))
  then Some (mkOperationRecord aPermitSerial aOperationID aOperation aMethod aPathCommitment
              aTargetCommitment aBodyCommitment aIdempotencyKey aIssuedAt aExpiresAt
              aStagedManifestCommitment aSignature)
  else None.

Definition permitRequestFields (r : PermitRequest) : CborMap :=
  [(1, CInt protocolVersion); (2, CBytes (q_RequestID r)); (3, CBytes (q_HolderDeviceID r));
   (4, CInt (q_HolderGeneration r)); (5, CInt (q_HolderRole r)); (6, CBytes (q_TransferID r));
   (7, CBytes (q_ConversationID r)); (8, CBytes (q_SenderDeviceID r));
   (9, CInt (q_SenderGeneration r)); (10, CBytes (q_RecipientDeviceID r));
   (11, CInt (q_RecipientGeneration r)); (12, CInt (q_AttemptGeneration r));
   (13, CInt (q_Operation r)); (14, CBytes (q_MembershipCommitment r)); (15, CInt (q_IssuedAt r));
   (16, CInt (q_ExpiresAt r)); (17, CInt (q_MaxBytes r)); (18, CInt (q_MaxChunks r));
   (19, CInt (q_MaxOperations r)); (24, CBytes (q_StagedManifestCommitment r));
   (25, CBytes (q_OutcomeOfSerial r))].
Definition permitRequestWire (r : PermitRequest) : CborMap := permitRequestFields r ++ [(99, CBytes (q_Signature r))].
Definition permitRequestOf (m : CborMap) : option PermitRequest :=
  aRequestID ← arrayOf 16 m 2; aHolderDeviceID ← arrayOf 16 m 3; aHolderGeneration ← intOf m 4;
  aHolderRole ← intOf m 5; aTransferID ← arrayOf 16 m 6; aConversationID ← arrayOf 16 m 7;
  aSenderDeviceID ← arrayOf 16 m 8; aSenderGeneration ← intOf m 9;
  aRecipientDeviceID ← arrayOf 16 m 10; aRecipientGeneration ← intOf m 11;
  aAttemptGeneration ← intOf m 12; aOperation ← intOf m 13; aMembershipCommitment ← arrayOf 32 m 14;
  aStagedManifestCommitment ← arrayOf 32 m 24; aOutcomeOfSerial ← arrayOf 16 m 25;
  aIssuedAt ← intOf m 15; aExpiresAt ← intOf m 16; aMaxBytes ← intOf m 17; aMaxChunks ← intOf m 18;
  aMaxOperations ← intOf m 19; aSignature ← arrayOf 64 m 99;
  if knownKeys m [1; 2; 3; 4; 5; 6; 7; 8; 9; 10; 11; 12; 13; 14; 15; 16; 17; 18; 19; 24; 25; 99]
     && bool_decide (fieldOf m 1 = Some (CInt protocolVersion))
  then Some (mkPermitRequest aRequestID aHolderDeviceID aHolderGeneration aHolderRole aTransferID
              aConversationID aSenderDeviceID aSenderGeneration aRecipientDeviceID
              aRecipientGeneration aAttemptGeneration aOperation aMembershipCommitment
              aStagedManifestCommitment aOutcomeOfSerial aIssuedAt aExpiresAt aMaxBytes aMaxChunks
              aMaxOperations aSignature)
  else None.

Definition envelopeFields (r : Envelope) : CborMap :=
  [(1, CInt protocolVersion); (2, CBytes (e_Audience r)); (3, CBytes (e_TransferID r));
   (4, CBytes (e_ConversationID r)); (5, CBytes (e_SenderDeviceID r));
   (6, CInt (e_SenderGeneration r)); (7, CBytes (e_RecipientDeviceID r));
   (8, CInt (e_RecipientGeneration r)); (9, CBytes (e_RecipientHPKEKeyID r));
   (10, CBytes (e_ManifestCommitment r)); (11, CInt hpkeKEMID); (12, CInt hpkeKDFID);
   (13, CInt hpkeAEADID); (14, CBytes (e_EncapsulatedKey r)); (15, CBytes (e_Ciphertext r));
   (16, CBytes (e_SignerKeyID r)); (17, CInt 1)].
Definition envelopeWire (r : Envelope) : CborMap := envelopeFields r ++ [(99, CBytes (e_Signature r))].
Definition envelopeOf (m : CborMap) : option Envelope :=
  aAudience ← arrayOf 32 m 2; aTransferID ← arrayOf 16 m 3; aConversationID ← arrayOf 16 m 4;
  aSenderDeviceID ← arrayOf 16 m 5; aSenderGeneration ← intOf m 6; aRecipientDeviceID ← arrayOf 16 m 7;
  aRecipientGeneration ← intOf m 8; aRecipientHPKEKeyID ← arrayOf 32 m 9;
  aManifestCommitment ← arrayOf 32 m 10; aEncapsulatedKey ← arrayOf 32 m 14;
  aCiphertext ← bytesField m 15; aSignerKeyID ← arrayOf 32 m 16; aSignature ← arrayOf 64 m 99;
  if knownKeys m [1; 2; 3; 4; 5; 6; 7; 8; 9; 10; 11; 12; 13; 14; 15; 16; 17; 99]
     && bool_decide (fieldOf m 1 = Some (CInt protocolVersion)) && bool_decide (fieldOf m 11 = Some (CInt hpkeKEMID)) && bool_decide (fieldOf m 12 = Some (CInt hpkeKDFID)) && bool_decide (fieldOf m 13 = Some (CInt hpkeAEADID)) && bool_decide (fieldOf m 17 = Some (CInt 1))
  then Some (mkEnvelope aAudience aTransferID aConversationID aSenderDeviceID aSenderGeneration
              aRecipientDeviceID aRecipientGeneration aRecipientHPKEKeyID aManifestCommitment
              aEncapsulatedKey aCiphertext aSignerKeyID aSignature)
  else None.

Section Records.
Context `{V3Env}.

(** ** The result of an operation ([transfer_result.go]) *)
Definition encodeTransferResult (transferID commitment : list Z) (status : transferStatus)
    (attempt expiresAt : Z) : list Z :=
  cbor_Marshal [(1, CInt protocolVersion); (2, CBytes transferID); (3, CBytes commitment);
                (4, CInt (statusCode status)); (5, CInt attempt); (6, CInt expiresAt)].

Definition DecodeTransferResult (raw : list Z) : Res transferRecord :=
  guard_ ((0 <? len raw) && (len raw <=? 256)) "invalid v3 transfer result";;
  m ← need (cbor_Unmarshal raw) "invalid v3 transfer result";
  result ← need (version ← intOf m 1; transferID ← arrayOf 16 m 2; commitment ← arrayOf 32 m 3;
                 code ← intOf m 4; attempt ← intOf m 5; expires ← intOf m 6;
                 status ← statusOf code;
                 if knownKeys m [1; 2; 3; 4; 5; 6] && (version =? protocolVersion)
                    && negb (isStatus status transferCreated)
                 then Some {| x_TransferID := transferID; x_ManifestCommitment := commitment;
                              x_Status := status; x_AttemptGeneration := attempt;
                              x_ExpiresAt := expires |}
                 else None) "invalid v3 transfer result";
  guard_ (validTransferRecord result) "invalid v3 transfer result";;
  guard_ (eqb raw (encodeTransferResult (x_TransferID result) (x_ManifestCommitment result)
                     (x_Status result) (x_AttemptGeneration result) (x_ExpiresAt result)))
    "non-canonical v3 transfer result";;
  mret result.

(** Signing domains: the text followed by a zero byte. *)
Definition domain (text : string) : list Z := bytesOf text ++ [0].

(** ** Manifests ([manifest.go]) *)
Definition maxManifestEncodedBytes : Z := Z.shiftl 4 10.

Definition validateManifest (m : Manifest) : Res unit :=
  guard_ (negb (isZero16 (m_TransferID m) || isZero16 (m_ConversationID m) || isZero16 (m_SenderDeviceID m)
                || isZero16 (m_RecipientDeviceID m) || isZero32 (m_Audience m) || isZero32 (m_DirectoryHead m)
                || isZero32 (m_MembershipCommitment m) || isZero32 (m_ContentSalt m)
                || isZero32 (m_PlaintextCommitment m) || isZero32 (m_SignerKeyID m)))
    "missing manifest binding";;
  guard_ (negb ((m_SenderGeneration m =? 0) || (m_RecipientGeneration m =? 0)
                || (m_ExpiresAt m <=? m_IssuedAt m) || (MaxInt64 <? m_ExpiresAt m)
                || (MaxManifestLifetime / Time.Second <? m_ExpiresAt m - m_IssuedAt m)
                || (m_ChunkSize m =? 0) || (Z.shiftl 256 10 <? m_ChunkSize m)
                || (m_ChunkCount m =? 0) || (4096 <? m_ChunkCount m)
                || (Z.shiftl 64 20 <? m_PlaintextSize m)))
    "invalid manifest bounds";;
  if (m_PlaintextSize m =? 0) && (m_ChunkCount m =? 1) then mret tt else
  let fullChunksBeforeLast := m_ChunkSize m * (m_ChunkCount m - 1) in
  guard_ (negb ((m_PlaintextSize m <=? fullChunksBeforeLast)
                || (m_ChunkSize m * m_ChunkCount m <? m_PlaintextSize m)))
    "inconsistent manifest chunk geometry".

Definition succeeds {A} (r : Res A) : bool := match r with inr _ => true | inl _ => false end.

Definition VerifyManifest (m : Manifest) (public : list Z) : bool :=
  (len public =? PublicKeySize) && succeeds (validateManifest m)
  && ed25519_verify public (domain "punaro/attachment/manifest/v3" ++ cbor_Marshal (manifestFields m))
       (m_Signature m).

Definition EncodeManifest (m : Manifest) : Res (list Z) :=
  validateManifest m;; mret (cbor_Marshal (manifestWire m)).

Definition DecodeManifest (raw : list Z) : Res Manifest :=
  guard_ ((0 <? len raw) && (len raw <=? maxManifestEncodedBytes)) "invalid manifest size";;
  m ← need (cbor_Unmarshal raw ≫= manifestOf) "decode manifest";
  validateManifest m;;
  canonical ← EncodeManifest m;
  guard_ (eqb raw canonical) "non-canonical manifest";;
  mret m.

Definition validateManifestTime (m : Manifest) (now : Z) : Res unit :=
  let seconds := Unix now in
  guard_ ((0 <=? seconds) && issuedWithinClockSkew (m_IssuedAt m) seconds && (m_ExpiresAt m <=? MaxInt64))
    "invalid manifest time";;
  guard_ (seconds <? m_ExpiresAt m) "expired manifest".

Record VerifiedSource := {
  v_manifest : Manifest;
  v_raw : list Z;
  v_commitment : list Z;
}.

Definition source_valid (v : VerifiedSource) (now : Z) : bool :=
  (0 <? len (v_raw v)) && negb (isZero32 (v_commitment v))
  && eqb (v_commitment v) (blake3_Sum256 (v_raw v))
  && succeeds (validateManifest (v_manifest v)) && succeeds (validateManifestTime (v_manifest v) now).

(** A fresh directory view, as the interfaces of the package give it. *)
Record AttachmentAuthority := {
  ValidateManifestAuthority : Manifest -> Z -> option (list Z);
  ValidateRetainedManifestAuthority : Manifest -> Z -> option (list Z);
  ValidatePermitAuthority : Permit -> Z -> option (list Z);
  CurrentDeviceSigningKey : list Z -> Z -> option (list Z);
}.

Definition verifySource (validate : Manifest -> Z -> option (list Z)) (msg : string) (raw : list Z)
    (now : Z) : Res VerifiedSource :=
  m ← DecodeManifest raw;
  validateManifestTime m now;;
  public ← need (validate m now) msg;
  guard_ (VerifyManifest m public) msg;;
  mret {| v_manifest := m; v_raw := raw; v_commitment := blake3_Sum256 raw |}.

Definition DecodeAndVerifySourceInit (raw : list Z) (directory : AttachmentAuthority) (now : Z) :=
  verifySource (ValidateManifestAuthority directory) "invalid manifest signer binding" raw now.

Definition DecodeAndVerifyRetainedSource (raw : list Z) (directory : AttachmentAuthority) (now : Z) :=
  verifySource (ValidateRetainedManifestAuthority directory) "invalid retained manifest authority" raw now.

(** ** Permits ([permit.go]) *)
Definition maxPermitEncodedBytes : Z := Z.shiftl 4 10.
Definition maxPermitCiphertextBytes : Z := Z.shiftl 64 20 + 4096 * 16.
Definition permitHolderSender : Z := 1.
Definition permitHolderRecipient : Z := 2.
Definition permitOperationSourceInit : Z := 1.
Definition permitOperationSourceUpload : Z := 2.
Definition permitOperationOffer : Z := 3.
Definition permitOperationAccept : Z := 4.
Definition permitOperationDownload : Z := 5.
Definition permitOperationBegin : Z := 6.
Definition permitOperationComplete : Z := 7.
Definition permitOperationCancel : Z := 8.
Definition permitOperationOutcome : Z := 9.

Definition oneOf (x : Z) (l : list Z) : bool := existsb (Z.eqb x) l.

Definition validPermitOperation (operation holderRole attemptGeneration : Z) : bool :=
  if oneOf operation [permitOperationSourceInit; permitOperationSourceUpload; permitOperationOffer;
                      permitOperationCancel]
  then (holderRole =? permitHolderSender) && (attemptGeneration =? 0)
  else if operation =? permitOperationAccept
  then (holderRole =? permitHolderRecipient) && (attemptGeneration =? 0)
  else if oneOf operation [permitOperationBegin; permitOperationDownload; permitOperationComplete]
  then (holderRole =? permitHolderRecipient) && (attemptGeneration =? 1)
  else if operation =? permitOperationOutcome
  then ((holderRole =? permitHolderSender) || (holderRole =? permitHolderRecipient)) && (attemptGeneration =? 0)
  else false.

Definition validatePermit (p : Permit) : Res unit :=
  guard_ (negb (isZero32 (p_Audience p) || isZero16 (p_Serial p) || isZero32 (p_IssuerKeyID p)
                || isZero16 (p_HolderDeviceID p) || isZero16 (p_TransferID p) || isZero16 (p_ConversationID p)
                || isZero16 (p_SenderDeviceID p) || isZero16 (p_RecipientDeviceID p)
                || isZero32 (p_DirectoryHead p) || isZero32 (p_MembershipCommitment p)
                || isZero32 (p_StagedManifestCommitment p) || (p_HolderGeneration p =? 0)
                || (p_SenderGeneration p =? 0) || (p_RecipientGeneration p =? 0)
                || (p_HolderRole p <? permitHolderSender) || (permitHolderRecipient <? p_HolderRole p)
                || (p_Operation p <? permitOperationSourceInit) || (permitOperationOutcome <? p_Operation p)
                || (MaxInt64 <? p_IssuedAt p) || (MaxInt64 <? p_ExpiresAt p) || (p_ExpiresAt p <=? p_IssuedAt p)
                || (30 <? p_ExpiresAt p - p_IssuedAt p) || (maxPermitCiphertextBytes <? p_MaxBytes p)
                || (4096 <? p_MaxChunks p) || (p_MaxOperations p =? 0) || (4096 <? p_MaxOperations p)
                || ((p_Operation p =? permitOperationOutcome) && isZero16 (p_OutcomeOfSerial p))
                || (negb (p_Operation p =? permitOperationOutcome) && negb (isZero16 (p_OutcomeOfSerial p)))))
    "invalid v3 permit";;
  guard_ (negb ((p_HolderRole p =? permitHolderSender)
                && (negb (eqb (p_HolderDeviceID p) (p_SenderDeviceID p))
                    || negb (p_HolderGeneration p =? p_SenderGeneration p))))
    "invalid sender permit holder";;
  guard_ (negb ((p_HolderRole p =? permitHolderRecipient)
                && (negb (eqb (p_HolderDeviceID p) (p_RecipientDeviceID p))
                    || negb (p_HolderGeneration p =? p_RecipientGeneration p))))
    "invalid recipient permit holder";;
  guard_ (validPermitOperation (p_Operation p) (p_HolderRole p) (p_AttemptGeneration p))
    "invalid permit operation binding".

Definition permitPayload (p : Permit) : list Z :=
  domain "punaro/attachment/permit/v3" ++ cbor_Marshal (permitFields p).

Definition VerifyPermit (p : Permit) (authority : AttachmentAuthority) (now : Z) : Res unit :=
  guard_ (succeeds (validatePermit p)) "invalid permit";;
  let seconds := Unix now in
  guard_ ((0 <=? seconds) && issuedWithinClockSkew (p_IssuedAt p) seconds && (seconds <? p_ExpiresAt p))
    "expired permit";;
  key ← need (ValidatePermitAuthority authority p now) "unknown permit issuer";
  guard_ (len key =? PublicKeySize) "unknown permit issuer";;
  guard_ (ed25519_verify key (permitPayload p) (p_Signature p)) "invalid permit signature".

Definition EncodePermit (p : Permit) : Res (list Z) :=
  validatePermit p;; mret (cbor_Marshal (permitWire p)).

Definition DecodePermit (raw : list Z) : Res Permit :=
  guard_ ((0 <? len raw) && (len raw <=? maxPermitEncodedBytes)) "invalid permit size";;
  p ← need (cbor_Unmarshal raw ≫= permitOf) "decode permit";
  validatePermit p;;
  canonical ← EncodePermit p;
  guard_ (eqb raw canonical) "non-canonical permit";;
  mret p.

(** ** Envelopes and offers ([envelope.go], [offer.go]) *)
Definition maxEnvelopeEncodedBytes : Z := Z.shiftl 16 10.
Definition maxOfferPayloadBytes : Z := 24555.

Definition validateEnvelope (e : Envelope) : Res unit :=
  guard_ (negb (isZero32 (e_Audience e) || isZero16 (e_TransferID e) || isZero16 (e_ConversationID e)
                || isZero16 (e_SenderDeviceID e) || (e_SenderGeneration e =? 0)
                || isZero16 (e_RecipientDeviceID e) || (e_RecipientGeneration e =? 0)
                || isZero32 (e_RecipientHPKEKeyID e) || isZero32 (e_ManifestCommitment e)
                || isZero32 (e_SignerKeyID e) || (len (e_Ciphertext e) <? 16) || (256 <? len (e_Ciphertext e))))
    "invalid v3 envelope".

Definition sameEnvelopeManifestBinding (e : Envelope) (m : Manifest) (raw : list Z) : bool :=
  eqb (e_Audience e) (m_Audience m) && eqb (e_TransferID e) (m_TransferID m)
  && eqb (e_ConversationID e) (m_ConversationID m) && eqb (e_SenderDeviceID e) (m_SenderDeviceID m)
  && (e_SenderGeneration e =? m_SenderGeneration m) && eqb (e_RecipientDeviceID e) (m_RecipientDeviceID m)
  && (e_RecipientGeneration e =? m_RecipientGeneration m)
  && eqb (e_ManifestCommitment e) (blake3_Sum256 raw) && eqb (e_SignerKeyID e) (m_SignerKeyID m).

Definition verifyEnvelope (e : Envelope) (m : Manifest) (raw signer : list Z) : bool :=
  (len signer =? PublicKeySize) && succeeds (validateEnvelope e) && sameEnvelopeManifestBinding e m raw
  && ed25519_verify signer (domain "punaro/attachment/envelope/v3" ++ cbor_Marshal (envelopeFields e))
       (e_Signature e).

Definition EncodeEnvelope (e : Envelope) : Res (list Z) :=
  validateEnvelope e;; mret (cbor_Marshal (envelopeWire e)).

Definition DecodeEnvelope (raw : list Z) : Res Envelope :=
  guard_ ((0 <? len raw) && (len raw <=? maxEnvelopeEncodedBytes)) "invalid v3 envelope size";;
  e ← need (cbor_Unmarshal raw ≫= envelopeOf) "decode v3 envelope";
  validateEnvelope e;;
  canonical ← EncodeEnvelope e;
  guard_ (eqb raw canonical) "non-canonical v3 envelope";;
  mret e.

Record OfferPayload := {
  f_Manifest : Manifest;
  f_ManifestRaw : list Z;
  f_Envelope : Envelope;
  f_AcceptanceNonce : list Z;
}.

Definition decodeOfferPayload (raw : list Z) : Res OfferPayload :=
  guard_ ((0 <? len raw) && (len raw <=? maxOfferPayloadBytes)) "invalid v3 offer payload";;
  m ← need (cbor_Unmarshal raw) "invalid v3 offer payload";
  manifestRaw ← need (bytesField m 2) "invalid v3 offer payload";
  envelopeRaw ← need (bytesField m 3) "invalid v3 offer payload";
  nonce ← need (arrayOf 32 m 4) "invalid v3 offer payload";
  guard_ (knownKeys m [1; 2; 3; 4] && bool_decide (fieldOf m 1 = Some (CInt protocolVersion))
          && negb (isZero32 nonce)) "invalid v3 offer payload";;
  guard_ (eqb raw (cbor_Marshal [(1, CInt protocolVersion); (2, CBytes manifestRaw);
                                 (3, CBytes envelopeRaw); (4, CBytes nonce)]))
    "non-canonical v3 offer payload";;
  manifest ← DecodeManifest manifestRaw;
  envelope ← DecodeEnvelope envelopeRaw;
  guard_ (sameEnvelopeManifestBinding envelope manifest manifestRaw) "invalid v3 offer envelope";;
  mret {| f_Manifest := manifest; f_ManifestRaw := manifestRaw; f_Envelope := envelope;
          f_AcceptanceNonce := nonce |}.

(** ** Binding a permit to a manifest ([http_schema.go]) *)
Definition retainedManifestPermitBinding (permit : Permit) (manifest : Manifest) (raw : list Z) : bool :=
  eqb (blake3_Sum256 raw) (p_StagedManifestCommitment permit) && eqb (m_Audience manifest) (p_Audience permit)
  && eqb (m_TransferID manifest) (p_TransferID permit)
  && eqb (m_ConversationID manifest) (p_ConversationID permit)
  && eqb (m_SenderDeviceID manifest) (p_SenderDeviceID permit)
  && (m_SenderGeneration manifest =? p_SenderGeneration permit)
  && eqb (m_RecipientDeviceID manifest) (p_RecipientDeviceID permit)
  && (m_RecipientGeneration manifest =? p_RecipientGeneration permit)
  && eqb (m_MembershipCommitment manifest) (p_MembershipCommitment permit)
  && (p_ExpiresAt permit <=? m_ExpiresAt manifest).

Definition sourceInitPermitBinding (permit : Permit) (manifest : Manifest) (raw : list Z) : bool :=
  eqb (blake3_Sum256 raw) (p_StagedManifestCommitment permit) && eqb (m_Audience manifest) (p_Audience permit)
  && eqb (m_TransferID manifest) (p_TransferID permit)
  && eqb (m_ConversationID manifest) (p_ConversationID permit)
  && eqb (m_SenderDeviceID manifest) (p_SenderDeviceID permit)
  && (m_SenderGeneration manifest =? p_SenderGeneration permit)
  && eqb (m_RecipientDeviceID manifest) (p_RecipientDeviceID permit)
  && (m_RecipientGeneration manifest =? p_RecipientGeneration permit)
  && eqb (m_DirectoryHead manifest) (p_DirectoryHead permit)
  && eqb (m_MembershipCommitment manifest) (p_MembershipCommitment permit)
  && (m_RevocationEpoch manifest =? p_RevocationEpoch permit)
  && (p_ExpiresAt permit <=? m_ExpiresAt manifest).

Definition validateOfferPayloadForPermit (raw : list Z) (permit : Permit) : Res unit :=
  f ← decodeOfferPayload raw;
  guard_ (retainedManifestPermitBinding permit (f_Manifest f) (f_ManifestRaw f))
    "invalid v3 offer permit binding".

(** ** Routes ([http_schema.go]) *)
Definition attachmentHTTPPost : Z := 1.
Definition attachmentHTTPPut : Z := 2.
Definition attachmentHTTPGet : Z := 3.

Record AttachmentRoute := {
  r_TransferID : list Z;
  r_Operation : Z;
  r_ChunkIndex : Z;
  r_AttemptGeneration : Z;
  r_httpMethod : Z;
  r_path : string;
}.

Definition attachmentHTTPMethod (method : string) : option Z :=
  if bool_decide (method = "POST") then Some attachmentHTTPPost
  else if bool_decide (method = "PUT") then Some attachmentHTTPPut
  else if bool_decide (method = "GET") then Some attachmentHTTPGet
  else None.

(** [strings.Split(path, "/")] *)
Fixpoint splitSlash (s : string) : list string :=
  match s with
  | EmptyString => [""]
  | String c s =>
      if bool_decide (c = "/"%char) then "" :: splitSlash s
      else match splitSlash s with
           | part :: parts => String c part :: parts
           | [] => [String c ""]
           end
  end.

Definition lowerNibble (b : Z) : option Z :=
  if Utf8.inRange 0x30 0x39 b then Some (b - 0x30)
  else if Utf8.inRange 0x61 0x66 b then Some (b - 0x57)
  else None.
Fixpoint lowerHex (l : list Z) : option (list Z) :=
  match l with
  | [] => Some []
  | h :: l :: rest => high ← lowerNibble h; low ← lowerNibble l; bytes ← lowerHex rest;
                      Some (16 * high + low :: bytes)
  | _ => None
  end.

Definition parseAttachmentTransferID (raw : string) : option (list Z) :=
  if negb (goLen raw =? 32) then None else
  id ← lowerHex (bytesOf raw);
  if isZero16 id then None else Some id.

(** [strconv.ParseUint(raw, 10, 64)] *)
Fixpoint decimal (acc : Z) (l : list Z) : option Z :=
  match l with
  | [] => Some acc
  | d :: l => if Utf8.inRange 0x30 0x39 d then decimal (10 * acc + (d - 0x30)) l else None
  end.
Definition parseAttachmentUint (raw : string) : option Z :=
  if bool_decide (raw = "") || ((1 <? goLen raw) && HasPrefix raw "0") then None else
  value ← decimal 0 (bytesOf raw);
  if value <=? MaxUint64 then Some value else None.

Definition containsAny (s : string) (chars : list Z) : bool :=
  existsb (fun b => oneOf b chars) (bytesOf s).

Definition ParseAttachmentRoute (method path : string) : option AttachmentRoute :=
  (* any of the characters percent, question mark, hash and NUL *)
  if bool_decide (path = "") || containsAny path [0x25; 0x3F; 0x23; 0] then None else
  methodID ← attachmentHTTPMethod method;
  let is_post := methodID =? attachmentHTTPPost in
  let is_put := methodID =? attachmentHTTPPut in
  let is_get := methodID =? attachmentHTTPGet in
  match splitSlash path with
  | root :: version :: kind :: transfer :: rest =>
      if negb (bool_decide (root = "")) || negb (bool_decide (version = "v3"))
         || negb (bool_decide (kind = "attachments")) then None else
      transferID ← parseAttachmentTransferID transfer;
      let route operation index attempt :=
        Some {| r_TransferID := transferID; r_Operation := operation; r_ChunkIndex := index;
                r_AttemptGeneration := attempt; r_httpMethod := methodID; r_path := path |} in
      match rest with
      | [last] =>
          if bool_decide (last = "source") && is_post then route permitOperationSourceInit 0 0
          else if bool_decide (last = "offer") && is_post then route permitOperationOffer 0 0
          else if bool_decide (last = "accept") && is_post then route permitOperationAccept 0 0
          else if bool_decide (last = "complete") && is_post then route permitOperationComplete 0 0
          else if bool_decide (last = "cancel") && is_post then route permitOperationCancel 0 0
          else if bool_decide (last = "outcome") && is_get then route permitOperationOutcome 0 0
          else None
      | [group; index] =>
          if bool_decide (group = "chunks") && is_get
          then i ← parseAttachmentUint index; route permitOperationDownload i 0
          else None
      | [group; middle; last] =>
          if bool_decide (group = "source") && bool_decide (middle = "chunks") && is_put
          then i ← parseAttachmentUint last; route permitOperationSourceUpload i 0
          else if bool_decide (group = "attempts") && bool_decide (last = "begin") && is_post
          then attempt ← parseAttachmentUint middle;
               if attempt =? 1 then route permitOperationBegin 0 attempt else None
          else None
      | _ => None
      end
  | _ => None
  end.

Definition attachmentRouteTarget (route : AttachmentRoute) : list Z :=
  cbor_Marshal
    ([(1, CInt protocolVersion); (2, CBytes (r_TransferID route)); (3, CInt (r_Operation route))]
     ++ (if oneOf (r_Operation route) [permitOperationSourceUpload; permitOperationDownload]
         then [(4, CInt (r_ChunkIndex route))] else [])
     ++ (if r_Operation route =? permitOperationBegin
         then [(5, CInt (r_AttemptGeneration route))] else [])).

Definition VerifyAttachmentRoute (route : AttachmentRoute) (permit : Permit) : Res unit :=
  guard_ (eqb (r_TransferID route) (p_TransferID permit) && (r_Operation route =? p_Operation permit)
          && negb (r_httpMethod route =? 0) && negb (bool_decide (r_path route = "")))
    "v3 route does not match permit";;
  guard_ (if r_Operation route =? permitOperationBegin
          then (r_AttemptGeneration route =? 1) && (p_AttemptGeneration permit =? r_AttemptGeneration route)
          else if oneOf (r_Operation route) [permitOperationDownload; permitOperationComplete]
          then (r_AttemptGeneration route =? 0) && (p_AttemptGeneration permit =? 1)
          else (r_AttemptGeneration route =? 0) && (p_AttemptGeneration permit =? 0))
    "v3 route attempt does not match permit".

(** ** Operations ([operation.go]) *)
Definition maxOperationEncodedBytes : Z := Z.shiftl 4 10.
Definition maxOperationPathBytes : Z := Z.shiftl 4 10.
Definition maxOperationTargetBytes : Z := Z.shiftl 4 10.
Definition maxCiphertextChunkBytes : Z := Z.shiftl 256 10 + 16.

Record OperationRequest := {
  w_method : Z;
  w_path : string;
  w_target : list Z;
  w_body : list Z;
  w_responseCiphertext : list Z;
}.

Definition validateOperationRequest (request : OperationRequest) : Res unit :=
  guard_ (negb ((w_method request =? 0) || (goLen (w_path request) =? 0)
                || (maxOperationPathBytes <? goLen (w_path request))
                || negb (HasPrefix (w_path request) "/")
                || containsAny (w_path request) [0x3F; 0x23; 0]
                || (len (w_target request) =? 0) || (maxOperationTargetBytes <? len (w_target request))
                || (maxCiphertextChunkBytes <? len (w_body request))
                || (maxCiphertextChunkBytes <? len (w_responseCiphertext request))))
    "invalid v3 operation request".

Definition newOperationRecordRequest (method : Z) (path : string) (target body : list Z)
    : Res OperationRequest :=
  let request := {| w_method := method; w_path := path; w_target := target; w_body := body;
                    w_responseCiphertext := [] |} in
  validateOperationRequest request;; mret request.

Definition operationRequestCommitments (request : OperationRequest) : list Z * list Z * list Z :=
  (blake3_Sum256 (domain "punaro/attachment/operation-path/v3" ++ bytesOf (w_path request)),
   blake3_Sum256 (domain "punaro/attachment/operation-target/v3" ++ w_target request),
   blake3_Sum256 (domain "punaro/attachment/operation-body/v3" ++ w_body request)).

(** The bytes and chunks an operation takes from its permit. *)
Definition operationUsage (operation : Z) (request : OperationRequest) : Res (Z * Z) :=
  validateOperationRequest request;;
  if operation =? permitOperationSourceUpload then
    guard_ (negb (len (w_body request) =? 0) && (len (w_responseCiphertext request) =? 0))
      "v3 ciphertext chunk is required";;
    mret (len (w_body request), 1)
  else if operation =? permitOperationDownload then
    guard_ ((len (w_body request) =? 0) && negb (len (w_responseCiphertext request) =? 0))
      "v3 stored ciphertext chunk is required";;
    mret (len (w_responseCiphertext request), 1)
  else
    guard_ (len (w_responseCiphertext request) =? 0) "unexpected v3 response ciphertext";;
    mret (0, 0).

Definition validAttachmentRequestBody (operation : Z) (body : list Z) : bool :=
  if operation =? permitOperationSourceInit
  then (0 <? len body) && (len body <=? maxManifestEncodedBytes)
  else if operation =? permitOperationSourceUpload then 0 <? len body
  else if operation =? permitOperationOffer
  then (0 <? len body) && (len body <=? maxOfferPayloadBytes)
  else if operation =? permitOperationAccept then len body =? 32
  else if oneOf operation [permitOperationBegin; permitOperationComplete; permitOperationCancel;
                           permitOperationOutcome]
  then len body =? 0
  else false.

Definition NewAttachmentOperationRequest (method path : string) (body responseCiphertext : list Z)
    : Res (AttachmentRoute * OperationRequest) :=
  route ← need (ParseAttachmentRoute method path) "invalid v3 attachment route";
  let target := attachmentRouteTarget route in
  if oneOf (r_Operation route) [permitOperationDownload; permitOperationOutcome] then
    guard_ ((len body =? 0) && (len responseCiphertext =? 0)) "v3 download request body is forbidden";;
    request ← newOperationRecordRequest (r_httpMethod route) path target [];
    mret (route, request)
  else
    guard_ ((len responseCiphertext =? 0) && validAttachmentRequestBody (r_Operation route) body)
      "invalid v3 attachment request body";;
    request ← newOperationRecordRequest (r_httpMethod route) path target body;
    mret (route, request).

Definition verifyAttachmentRequestRoute (route : AttachmentRoute) (permit : Permit)
    (request : OperationRequest) : Res unit :=
  guard_ ((w_method request =? r_httpMethod route) && bool_decide (w_path request = r_path route))
    "v3 operation request route mismatch";;
  guard_ (eqb (w_target request) (attachmentRouteTarget route)) "v3 operation request route mismatch";;
  if oneOf (r_Operation route) [permitOperationDownload; permitOperationOutcome] then
    guard_ ((len (w_body request) =? 0) && (len (w_responseCiphertext request) =? 0))
      "invalid v3 download request body"
  else
    guard_ ((len (w_responseCiphertext request) =? 0)
            && validAttachmentRequestBody (r_Operation route) (w_body request))
      "invalid v3 attachment request body";;
    (if r_Operation route =? permitOperationSourceInit then
       manifest ← DecodeManifest (w_body request);
       guard_ (sourceInitPermitBinding permit manifest (w_body request)) "invalid v3 source-init permit body"
     else mret tt);;
    (if r_Operation route =? permitOperationOffer then validateOfferPayloadForPermit (w_body request) permit
     else mret tt).

Definition validateOperation (r : OperationRecord) : Res unit :=
  guard_ (negb (isZero16 (o_PermitSerial r) || isZero16 (o_OperationID r)
                || (o_Operation r <? permitOperationSourceInit) || (permitOperationOutcome <? o_Operation r)
                || (o_Method r =? 0) || isZero32 (o_PathCommitment r) || isZero32 (o_TargetCommitment r)
                || isZero32 (o_BodyCommitment r) || isZero32 (o_IdempotencyKey r)
                || isZero32 (o_StagedManifestCommitment r) || (o_ExpiresAt r <=? o_IssuedAt r)))
    "invalid v3 operation record".

Definition VerifyOperation (r : OperationRecord) (permit : Permit) (holders : AttachmentAuthority)
    (now : Z) : Res unit :=
  guard_ (succeeds (validateOperation r) && succeeds (validatePermit permit)
          && eqb (o_PermitSerial r) (p_Serial permit) && (o_Operation r =? p_Operation permit)
          && eqb (o_StagedManifestCommitment r) (p_StagedManifestCommitment permit)
          && (p_IssuedAt permit <=? o_IssuedAt r) && (o_ExpiresAt r <=? p_ExpiresAt permit))
    "invalid v3 operation permit binding";;
  let seconds := Unix now in
  guard_ ((0 <=? seconds) && issuedWithinClockSkew (o_IssuedAt r) seconds && (seconds <? o_ExpiresAt r))
    "expired v3 operation record";;
  holder ← need (CurrentDeviceSigningKey holders (p_HolderDeviceID permit) (p_HolderGeneration permit))
             "unknown v3 operation holder";
  guard_ (len holder =? PublicKeySize) "unknown v3 operation holder";;
  guard_ (ed25519_verify holder (domain "punaro/attachment/operation/v3" ++ cbor_Marshal (operationFields r))
            (o_Signature r)) "invalid v3 operation signature".

Definition verifyOperationRequestAuthorization (r : OperationRecord) (permit : Permit)
    (holders : AttachmentAuthority) (request : OperationRequest) (now : Z) : Res unit :=
  VerifyOperation r permit holders now;;
  validateOperationRequest request;;
  let '(path, target, body) := operationRequestCommitments request in
  guard_ ((o_Method r =? w_method request) && eqb (o_PathCommitment r) path
          && eqb (o_TargetCommitment r) target && eqb (o_BodyCommitment r) body)
    "v3 operation request commitment mismatch".

Definition VerifyAttachmentOperationAdmission (r : OperationRecord) (permit : Permit)
    (holders : AttachmentAuthority) (route : AttachmentRoute) (request : OperationRequest) (now : Z)
    : Res unit :=
  VerifyAttachmentRoute route permit;;
  verifyAttachmentRequestRoute route permit request;;
  verifyOperationRequestAuthorization r permit holders request now.

Definition VerifyAttachmentOperationRequest (r : OperationRecord) (permit : Permit)
    (holders : AttachmentAuthority) (route : AttachmentRoute) (request : OperationRequest) (now : Z)
    : Res (Z * Z) :=
  VerifyAttachmentOperationAdmission r permit holders route request now;;
  operationUsage (o_Operation r) request.

(** The holder's side: every commitment is derived from the route and the body. *)
Definition SignOperation (r : OperationRecord) (private : list Z) : Res OperationRecord :=
  guard_ ((len private =? PrivateKeySize) && succeeds (validateOperation r)) "invalid v3 operation signer";;
  mret (mkOperationRecord (o_PermitSerial r) (o_OperationID r) (o_Operation r) (o_Method r)
          (o_PathCommitment r) (o_TargetCommitment r) (o_BodyCommitment r) (o_IdempotencyKey r)
          (o_IssuedAt r) (o_ExpiresAt r) (o_StagedManifestCommitment r)
          (ed25519_sign private (domain "punaro/attachment/operation/v3" ++ cbor_Marshal (operationFields r)))).

Definition BuildSignedAttachmentOperation (permit : Permit) (method path : string) (body operationID
    idempotencyKey : list Z) (issuedAt expiresAt : Z) (private : list Z) : Res OperationRecord :=
  guard_ (succeeds (validatePermit permit) && negb (isZero16 operationID) && negb (isZero32 idempotencyKey)
          && (p_IssuedAt permit <=? issuedAt) && (expiresAt <=? p_ExpiresAt permit) && (issuedAt <? expiresAt))
    "invalid v3 attachment operation input";;
  routed ← NewAttachmentOperationRequest method path body [];
  let '(route, request) := routed in
  VerifyAttachmentRoute route permit;;
  verifyAttachmentRequestRoute route permit request;;
  let '(pathCommitment, targetCommitment, bodyCommitment) := operationRequestCommitments request in
  SignOperation
    (mkOperationRecord (p_Serial permit) operationID (p_Operation permit) (w_method request) pathCommitment
       targetCommitment bodyCommitment idempotencyKey issuedAt expiresAt (p_StagedManifestCommitment permit) zero64)
    private.

Definition EncodeOperation (r : OperationRecord) : Res (list Z) :=
  validateOperation r;; mret (cbor_Marshal (operationWire r)).

Definition DecodeOperation (raw : list Z) : Res OperationRecord :=
  guard_ ((0 <? len raw) && (len raw <=? maxOperationEncodedBytes)) "invalid v3 operation record size";;
  r ← need (cbor_Unmarshal raw ≫= operationOf) "decode v3 operation record";
  validateOperation r;;
  canonical ← EncodeOperation r;
  guard_ (eqb raw canonical) "non-canonical v3 operation record";;
  mret r.

(** ** Permit requests ([permit_issuer.go]) *)
Definition maxPermitRequestEncodedBytes : Z := Z.shiftl 4 10.

Definition validatePermitRequest (r : PermitRequest) : Res unit :=
  guard_ (negb (isZero16 (q_RequestID r) || isZero16 (q_HolderDeviceID r) || isZero16 (q_TransferID r)
                || isZero16 (q_ConversationID r) || isZero16 (q_SenderDeviceID r)
                || isZero16 (q_RecipientDeviceID r) || isZero32 (q_MembershipCommitment r)
                || isZero32 (q_StagedManifestCommitment r) || (q_HolderGeneration r =? 0)
                || (q_SenderGeneration r =? 0) || (q_RecipientGeneration r =? 0)
                || (q_HolderRole r <? permitHolderSender) || (permitHolderRecipient <? q_HolderRole r)
                || (q_Operation r <? permitOperationSourceInit) || (permitOperationOutcome <? q_Operation r)
                || (MaxInt64 <? q_IssuedAt r) || (MaxInt64 <? q_ExpiresAt r) || (q_ExpiresAt r <=? q_IssuedAt r)
                || (30 <? q_ExpiresAt r - q_IssuedAt r) || (q_MaxBytes r =? 0)
                || (maxPermitCiphertextBytes <? q_MaxBytes r) || (q_MaxChunks r =? 0)
                || (4096 <? q_MaxChunks r) || (q_MaxOperations r =? 0) || (4096 <? q_MaxOperations r)
                || ((q_Operation r =? permitOperationOutcome) && isZero16 (q_OutcomeOfSerial r))
                || (negb (q_Operation r =? permitOperationOutcome) && negb (isZero16 (q_OutcomeOfSerial r)))))
    "invalid v3 permit request";;
  guard_ (validPermitOperation (q_Operation r) (q_HolderRole r) (q_AttemptGeneration r))
    "invalid v3 permit request holder".

Definition permitRequestPayload (r : PermitRequest) : list Z :=
  domain "punaro/attachment/permit-request/v3" ++ cbor_Marshal (permitRequestFields r).

Definition EncodePermitRequest (r : PermitRequest) : Res (list Z) :=
  validatePermitRequest r;; mret (cbor_Marshal (permitRequestWire r)).

Definition DecodePermitRequest (raw : list Z) : Res PermitRequest :=
  guard_ ((0 <? len raw) && (len raw <=? maxPermitRequestEncodedBytes)) "invalid v3 permit request";;
  r ← need (cbor_Unmarshal raw ≫= permitRequestOf) "invalid v3 permit request";
  canonical ← EncodePermitRequest r;
  guard_ (eqb raw canonical) "non-canonical v3 permit request";;
  mret r.
End Records.
