(* ===== verification/SourceStore.v ===== *)
(** * The attachment source store (src/internal/attachment/v3)

    One SQLite database holds the staged sources, the lifecycle of their
    transfers, the quota counters, the issued permits, the redeemed operations
    and their results.  Its operations run in serialised transactions
    ([SetMaxOpenConns(1)]); a failed one leaves the database as it was.

    - tables: the [CREATE TABLE] statements of [openSourceStore];
    - staging: [initializeTx], [uploadTx], [readyAt], [cancel], [reapExpired]
      of [source_store.go], [reserveCrypto] of [artifact.go];
    - permits: [permit_issuer.go], [permit_ledger.go];
    - redemptions: [source_init_ledger.go], [upload_store.go],
      [offer_store.go], [receipt_store.go], [cancel_store.go],
      [outcome_store.go]. *)

From S2P Require Import Prelude GoTime Text Sha256 Attachment.
Open Scope Z_scope.

(** ** Tables *)
Definition quotaKey : Type := Z * list Z.   (* scope, scope_id *)

Record SpecRow := {
  sp_commitment : list Z;
  sp_manifest : list Z;
  sp_chunkSize : Z;
  sp_chunkCount : Z;
  sp_plaintextSize : Z;
  sp_expires : Z;
  sp_ready : bool;
}.
Record TransferRow := {
  tr_commitment : list Z;
  tr_status : transferStatus;
  tr_attempt : Z;
  tr_expires : Z;
}.
Record ChunkRow := { ch_ciphertext : list Z; ch_commitment : list Z }.
Record QuotaRow := { qr_bytes : Z; qr_chunks : Z; qr_transfers : Z }.
Record TombstoneRow := { tb_commitment : list Z; tb_retain : Z }.
Record IssuedRow := {
  is_permit : list Z;
  is_transfer : list Z;
  is_commitment : list Z;
  is_expires : Z;
  is_retain : Z;
}.
Record RequestRow := {
  rq_request : list Z;
  rq_permit : list Z;
  rq_serial : list Z;
  rq_holder : list Z;
  rq_expires : Z;
  rq_retain : Z;
}.
Inductive FenceState := FenceCommitting | FenceTerminal.
#[export] Instance FenceState_eq_dec : EqDecision FenceState.
Proof. solve_decision. Defined.
Record FenceRow := { fe_transfer : list Z; fe_commitment : list Z; fe_state : FenceState }.
Record RedeemedRow := {
  rd_operation : Z;
  rd_method : Z;
  rd_path : list Z;
  rd_target : list Z;
  rd_body : list Z;
  rd_idempotency : list Z;
  rd_bytes : Z;
  rd_chunks : Z;
  rd_result : list Z;
}.
Record LedgerRow := { lg_commitment : list Z; lg_operations : Z; lg_bytes : Z; lg_retain : Z }.
Record OfferRow := { of_manifest : list Z; of_envelope : list Z; of_nonce : list Z; of_consumed : bool }.

Record SourceDb := mkSourceDb {
  specs : gmap (list Z) SpecRow;
  transfers : gmap (list Z) TransferRow;
  chunks : gmap (list Z * Z) ChunkRow;
  quota : gmap quotaKey QuotaRow;
  tombstones : gmap (list Z) TombstoneRow;
  uniqueness : gmap (list Z) (list Z);
  admission : gmap quotaKey Z;
  fileKeys : gset (list Z);
  contentSalts : gset (list Z);
  nonceTuples : gset (list Z * list Z * Z);
  cryptoAdmission : gmap quotaKey Z;
  issued : gmap (list Z) IssuedRow;
  requests : gmap (list Z) RequestRow;
  fences : gmap (list Z) FenceRow;
  redeemed : gmap (list Z * list Z) RedeemedRow;
  ledger : gmap (list Z) LedgerRow;
  offers : gmap (list Z) OfferRow;
  receipts : gmap (list Z * Z * Z) (list Z);
}.

Definition emptySourceDb : SourceDb :=
  mkSourceDb ∅ ∅ ∅ ∅ ∅ ∅ ∅ ∅ ∅ ∅ ∅ ∅ ∅ ∅ ∅ ∅ ∅ ∅.

Definition set_specs (v : gmap (list Z) SpecRow) (d : SourceDb) : SourceDb :=
  mkSourceDb v (transfers d) (chunks d) (quota d) (tombstones d) (uniqueness d) (admission d)
    (fileKeys d) (contentSalts d) (nonceTuples d) (cryptoAdmission d) (issued d) (requests d)
    (fences d) (redeemed d) (ledger d) (offers d) (receipts d).
Definition set_transfers (v : gmap (list Z) TransferRow) (d : SourceDb) : SourceDb :=
  mkSourceDb (specs d) v (chunks d) (quota d) (tombstones d) (uniqueness d) (admission d)
    (fileKeys d) (contentSalts d) (nonceTuples d) (cryptoAdmission d) (issued d) (requests d)
    (fences d) (redeemed d) (ledger d) (offers d) (receipts d).
Definition set_chunks (v : gmap (list Z * Z) ChunkRow) (d : SourceDb) : SourceDb :=
  mkSourceDb (specs d) (transfers d) v (quota d) (tombstones d) (uniqueness d) (admission d)
    (fileKeys d) (contentSalts d) (nonceTuples d) (cryptoAdmission d) (issued d) (requests d)
    (fences d) (redeemed d) (ledger d) (offers d) (receipts d).
Definition set_quota (v : gmap quotaKey QuotaRow) (d : SourceDb) : SourceDb :=
  mkSourceDb (specs d) (transfers d) (chunks d) v (tombstones d) (uniqueness d) (admission d)
    (fileKeys d) (contentSalts d) (nonceTuples d) (cryptoAdmission d) (issued d) (requests d)
    (fences d) (redeemed d) (ledger d) (offers d) (receipts d).
Definition set_tombstones (v : gmap (list Z) TombstoneRow) (d : SourceDb) : SourceDb :=
  mkSourceDb (specs d) (transfers d) (chunks d) (quota d) v (uniqueness d) (admission d)
    (fileKeys d) (contentSalts d) (nonceTuples d) (cryptoAdmission d) (issued d) (requests d)
    (fences d) (redeemed d) (ledger d) (offers d) (receipts d).
Definition set_uniqueness (v : gmap (list Z) (list Z)) (d : SourceDb) : SourceDb :=
  mkSourceDb (specs d) (transfers d) (chunks d) (quota d) (tombstones d) v (admission d)
    (fileKeys d) (contentSalts d) (nonceTuples d) (cryptoAdmission d) (issued d) (requests d)
    (fences d) (redeemed d) (ledger d) (offers d) (receipts d).
Definition set_admission (v : gmap quotaKey Z) (d : SourceDb) : SourceDb :=
  mkSourceDb (specs d) (transfers d) (chunks d) (quota d) (tombstones d) (uniqueness d) v
    (fileKeys d) (contentSalts d) (nonceTuples d) (cryptoAdmission d) (issued d) (requests d)
    (fences d) (redeemed d) (ledger d) (offers d) (receipts d).
Definition set_fileKeys (v : gset (list Z)) (d : SourceDb) : SourceDb :=
  mkSourceDb (specs d) (transfers d) (chunks d) (quota d) (tombstones d) (uniqueness d)
    (admission d) v (contentSalts d) (nonceTuples d) (cryptoAdmission d) (issued d) (requests d)
    (fences d) (redeemed d) (ledger d) (offers d) (receipts d).
Definition set_contentSalts (v : gset (list Z)) (d : SourceDb) : SourceDb :=
  mkSourceDb (specs d) (transfers d) (chunks d) (quota d) (tombstones d) (uniqueness d)
    (admission d) (fileKeys d) v (nonceTuples d) (cryptoAdmission d) (issued d) (requests d)
    (fences d) (redeemed d) (ledger d) (offers d) (receipts d).
Definition set_nonceTuples (v : gset (list Z * list Z * Z)) (d : SourceDb) : SourceDb :=
  mkSourceDb (specs d) (transfers d) (chunks d) (quota d) (tombstones d) (uniqueness d)
    (admission d) (fileKeys d) (contentSalts d) v (cryptoAdmission d) (issued d) (requests d)
    (fences d) (redeemed d) (ledger d) (offers d) (receipts d).
Definition set_cryptoAdmission (v : gmap quotaKey Z) (d : SourceDb) : SourceDb :=
  mkSourceDb (specs d) (transfers d) (chunks d) (quota d) (tombstones d) (uniqueness d)
    (admission d) (fileKeys d) (contentSalts d) (nonceTuples d) v (issued d) (requests d) (fences d)
    (redeemed d) (ledger d) (offers d) (receipts d).
Definition set_issued (v : gmap (list Z) IssuedRow) (d : SourceDb) : SourceDb :=
  mkSourceDb (specs d) (transfers d) (chunks d) (quota d) (tombstones d) (uniqueness d)
    (admission d) (fileKeys d) (contentSalts d) (nonceTuples d) (cryptoAdmission d) v (requests d)
    (fences d) (redeemed d) (ledger d) (offers d) (receipts d).
Definition set_requests (v : gmap (list Z) RequestRow) (d : SourceDb) : SourceDb :=
  mkSourceDb (specs d) (transfers d) (chunks d) (quota d) (tombstones d) (uniqueness d)
    (admission d) (fileKeys d) (contentSalts d) (nonceTuples d) (cryptoAdmission d) (issued d) v
    (fences d) (redeemed d) (ledger d) (offers d) (receipts d).
Definition set_fences (v : gmap (list Z) FenceRow) (d : SourceDb) : SourceDb :=
  mkSourceDb (specs d) (transfers d) (chunks d) (quota d) (tombstones d) (uniqueness d)
    (admission d) (fileKeys d) (contentSalts d) (nonceTuples d) (cryptoAdmission d) (issued d)
    (requests d) v (redeemed d) (ledger d) (offers d) (receipts d).
Definition set_redeemed (v : gmap (list Z * list Z) RedeemedRow) (d : SourceDb) : SourceDb :=
  mkSourceDb (specs d) (transfers d) (chunks d) (quota d) (tombstones d) (uniqueness d)
    (admission d) (fileKeys d) (contentSalts d) (nonceTuples d) (cryptoAdmission d) (issued d)
    (requests d) (fences d) v (ledger d) (offers d) (receipts d).
Definition set_ledger (v : gmap (list Z) LedgerRow) (d : SourceDb) : SourceDb :=
  mkSourceDb (specs d) (transfers d) (chunks d) (quota d) (tombstones d) (uniqueness d)
    (admission d) (fileKeys d) (contentSalts d) (nonceTuples d) (cryptoAdmission d) (issued d)
    (requests d) (fences d) (redeemed d) v (offers d) (receipts d).
Definition set_offers (v : gmap (list Z) OfferRow) (d : SourceDb) : SourceDb :=
  mkSourceDb (specs d) (transfers d) (chunks d) (quota d) (tombstones d) (uniqueness d)
    (admission d) (fileKeys d) (contentSalts d) (nonceTuples d) (cryptoAdmission d) (issued d)
    (requests d) (fences d) (redeemed d) (ledger d) v (receipts d).
Definition set_receipts (v : gmap (list Z * Z * Z) (list Z)) (d : SourceDb) : SourceDb :=
  mkSourceDb (specs d) (transfers d) (chunks d) (quota d) (tombstones d) (uniqueness d)
    (admission d) (fileKeys d) (contentSalts d) (nonceTuples d) (cryptoAdmission d) (issued d)
    (requests d) (fences d) (redeemed d) (ledger d) (offers d) v.

(** ** Transactions *)
Definition Tx (A : Type) : Type := SourceDb -> Res (A * SourceDb).
#[export] Instance Tx_ret : MRet Tx := fun A a d => inr (a, d).
#[export] Instance Tx_bind : MBind Tx := fun A B k m d =>
  match m d with inl e => inl e | inr (a, d1) => k a d1 end.
Definition fails {A} (msg : string) : Tx A := fun _ => inl msg.
Definition lift {A} (r : Res A) : Tx A := fun d =>
  match r with inl e => inl e | inr a => inr (a, d) end.
Definition must (b : bool) (msg : string) : Tx unit := lift (guard_ b msg).
Definition reads {A} (f : SourceDb -> A) : Tx A := fun d => inr (f d, d).
(** [QueryRow ... Scan] where [sql.ErrNoRows] is the error [msg]. *)
Definition fetch {A} (f : SourceDb -> option A) (msg : string) : Tx A := fun d =>
  match f d with Some a => inr (a, d) | None => inl msg end.
Definition writes (f : SourceDb -> SourceDb) : Tx unit := fun d => inr (tt, f d).
(** The transaction's writes are not committed. *)
Definition rolledBack {A} (m : Tx A) : Tx A := fun d =>
  match m d with inl e => inl e | inr (a, _) => inr (a, d) end.
(** Replace the error. *)
Definition orElse {A} (m : Tx A) (msg : string) : Tx A := fun d =>
  match m d with inl _ => inl msg | r => r end.
Fixpoint each {A} (l : list A) (f : A -> Tx unit) : Tx unit :=
  match l with
  | [] => mret tt
  | x :: l => f x;; each l f
  end.
(** INSERT: the primary key must be free. *)
Definition insertRow {K V} `{Countable K} (get : SourceDb -> gmap K V)
    (set_ : gmap K V -> SourceDb -> SourceDb) (k : K) (v : V) (msg : string) : Tx unit := fun d =>
  match get d !! k with
  | Some _ => inl msg
  | None => inr (tt, set_ (<[k:=v]> (get d)) d)
  end.
(** A UNIQUE column: no row of the table has the value. *)
Definition absent {K V} `{Countable K} (get : SourceDb -> gmap K V) (p : V -> bool) (msg : string) : Tx unit :=
  fun d => if mexists (fun _ v => p v) (get d) then inl msg else inr (tt, d).
(** INSERT into a table that is only its primary key. *)
Definition insertKey {K} `{Countable K} (get : SourceDb -> gset K)
    (set_ : gset K -> SourceDb -> SourceDb) (k : K) (msg : string) : Tx unit := fun d =>
  if bool_decide (k ∈ get d) then inl msg else inr (tt, set_ ({[k]} ∪ get d) d).

(** ** Limits *)
Definition maxCiphertextFrame : Z := Z.shiftl 256 10 + 16.
Definition defaultTombstoneRetention : Z := 24 * Time.Hour.

Record quotaLimit := {
  ql_CiphertextBytes : Z;
  ql_Chunks : Z;
  ql_Transfers : Z;
  ql_DurableSources : Z;
  ql_CryptoReservations : Z;
}.
Record sourceLimits := {
  sl_Sender : quotaLimit;
  sl_Recipient : quotaLimit;
  sl_Conversation : quotaLimit;
  sl_Relay : quotaLimit;
  sl_TombstoneRetention : Z;
}.

Definition validLimit (limit : quotaLimit) : bool :=
  negb ((ql_CiphertextBytes limit =? 0) || (Z.shiftl 1 40 <? ql_CiphertextBytes limit)
        || (ql_Chunks limit =? 0) || (Z.shiftl 1 20 <? ql_Chunks limit)
        || (ql_Transfers limit =? 0) || (Z.shiftl 1 20 <? ql_Transfers limit)
        || (ql_DurableSources limit =? 0) || (Z.shiftl 1 30 <? ql_DurableSources limit)
        || (ql_CryptoReservations limit =? 0) || (Z.shiftl 1 32 <? ql_CryptoReservations limit)).
Definition limits_valid (l : sourceLimits) : bool :=
  forallb validLimit [sl_Sender l; sl_Recipient l; sl_Conversation l; sl_Relay l]
  && (0 <? sl_TombstoneRetention l) && (sl_TombstoneRetention l <=? 30 * 24 * Time.Hour).

Definition defaultQuotaLimit : quotaLimit :=
  {| ql_CiphertextBytes := Z.shiftl 65 20; ql_Chunks := 4096; ql_Transfers := 64;
     ql_DurableSources := Z.shiftl 1 20; ql_CryptoReservations := Z.shiftl 1 20 |}.
Definition defaultSourceLimits : sourceLimits :=
  {| sl_Sender := defaultQuotaLimit; sl_Recipient := defaultQuotaLimit;
     sl_Conversation := defaultQuotaLimit; sl_Relay := defaultQuotaLimit;
     sl_TombstoneRetention := defaultTombstoneRetention |}.

Definition sourceScopeSender : Z := 1.
Definition sourceScopeRecipient : Z := 2.
Definition sourceScopeConversation : Z := 3.
Definition sourceScopeRelay : Z := 4.

Record sourceSpec := {
  ss_TransferID : list Z;
  ss_ManifestCommitment : list Z;
  ss_Manifest : list Z;
  ss_ChunkSize : Z;
  ss_ChunkCount : Z;
  ss_PlaintextSize : Z;
  ss_ExpiresAt : Z;
}.
#[export] Instance sourceSpec_eq_dec : EqDecision sourceSpec.
Proof. solve_decision. Defined.

(** [binary.BigEndian.PutUint64] *)
Fixpoint bigEndian (n : nat) (z : Z) : list Z :=
  match n with
  | O => []
  | S n => bigEndian n (z / 256) ++ [z `mod` 256]
  end.

Section Store.
Context `{V3Env}.
Variable limits : sourceLimits.

(** ** Specifications *)
Definition sourceSpecOf (v : VerifiedSource) : Res sourceSpec :=
  expiresAt ← unixSeconds (m_ExpiresAt (v_manifest v));
  mret {| ss_TransferID := m_TransferID (v_manifest v); ss_ManifestCommitment := v_commitment v;
          ss_Manifest := v_raw v; ss_ChunkSize := m_ChunkSize (v_manifest v);
          ss_ChunkCount := m_ChunkCount (v_manifest v); ss_PlaintextSize := m_PlaintextSize (v_manifest v);
          ss_ExpiresAt := expiresAt |}.

Definition specRow (spec : sourceSpec) (ready : bool) : SpecRow :=
  {| sp_commitment := ss_ManifestCommitment spec; sp_manifest := ss_Manifest spec;
     sp_chunkSize := ss_ChunkSize spec; sp_chunkCount := ss_ChunkCount spec;
     sp_plaintextSize := ss_PlaintextSize spec; sp_expires := ss_ExpiresAt spec; sp_ready := ready |}.

Definition rowSpec (transferID : list Z) (row : SpecRow) : sourceSpec :=
  {| ss_TransferID := transferID; ss_ManifestCommitment := sp_commitment row;
     ss_Manifest := sp_manifest row; ss_ChunkSize := sp_chunkSize row;
     ss_ChunkCount := sp_chunkCount row; ss_PlaintextSize := sp_plaintextSize row;
     ss_ExpiresAt := sp_expires row |}.

Definition consistentStoredSpec (spec : sourceSpec) : bool :=
  match DecodeManifest (ss_Manifest spec) with
  | inl _ => false
  | inr manifest =>
      eqb (ss_ManifestCommitment spec) (blake3_Sum256 (ss_Manifest spec))
      && (m_ExpiresAt manifest <=? MaxInt64)
      && eqb (m_TransferID manifest) (ss_TransferID spec)
      && (m_ChunkSize manifest =? ss_ChunkSize spec) && (m_ChunkCount manifest =? ss_ChunkCount spec)
      && (m_PlaintextSize manifest =? ss_PlaintextSize spec) && (m_ExpiresAt manifest =? ss_ExpiresAt spec)
  end.

(** [None]: not found. *)
Definition loadSpecTx (transferID : list Z) : Tx (option sourceSpec) :=
  row ← reads (fun d => specs d !! transferID);
  match row with
  | None => mret None
  | Some row =>
      let spec := rowSpec transferID row in
      must (consistentStoredSpec spec) "invalid stored source specification";;
      mret (Some spec)
  end.

(** The specification, with [msg] for both an error and an absent source. *)
Definition loadedSpec (transferID : list Z) (msg : string) : Tx sourceSpec :=
  found ← orElse (loadSpecTx transferID) msg;
  lift (need found msg).

Definition expectedCiphertextLength (spec : sourceSpec) (index : Z) : Z :=
  let plain := if index =? wrapu64 (ss_ChunkCount spec - 1)
               then wrapu64 (ss_PlaintextSize spec - ss_ChunkSize spec * (ss_ChunkCount spec - 1))
               else ss_ChunkSize spec in
  wrapu64 (plain + 16).

Definition ciphertextCommitment (ciphertext : list Z) : list Z :=
  blake3_Sum256 (domain "punaro/attachment/ciphertext/v3" ++ ciphertext).

Definition tracked (ready : bool) (status : transferStatus) (attempts : Z) : bool :=
  if ready then
    ((isStatus status transferSourceReady || isStatus status transferOffered
      || isStatus status transferAccepted) && (attempts =? 0))
    || ((isStatus status transferTransferring || isStatus status transferCompleted) && (attempts =? 1))
  else isStatus status transferSourceUploading && (attempts =? 0).

(** The transfer row of a (transfer, commitment) pair. *)
Definition transferOf (transferID commitment : list Z) (d : SourceDb) : option TransferRow :=
  row ← transfers d !! transferID;
  if eqb (tr_commitment row) commitment then Some row else None.

Definition verifyTrackedSourceTx (spec : sourceSpec) : Tx unit :=
  let msg := "invalid tracked source lifecycle state" in
  row ← fetch (fun d => specs d !! ss_TransferID spec) msg;
  must (eqb (sp_commitment row) (ss_ManifestCommitment spec)) msg;;
  transfer ← fetch (transferOf (ss_TransferID spec) (ss_ManifestCommitment spec)) msg;
  must ((tr_expires transfer =? ss_ExpiresAt spec)
        && tracked (sp_ready row) (tr_status transfer) (tr_attempt transfer)) msg.

(** The check of the whole database when it is opened. *)
Definition untracked (d : SourceDb) (transferID : list Z) (row : SpecRow) : bool :=
  match transferOf transferID (sp_commitment row) d with
  | None => true
  | Some transfer =>
      negb (tr_expires transfer =? sp_expires row)
      || negb (tracked (sp_ready row) (tr_status transfer) (tr_attempt transfer))
  end.
Definition verifyTrackedSources : Tx unit :=
  missing ← reads (fun d => mexists (untracked d) (specs d));
  must (negb missing) "untracked source staging state requires operator recovery".

(** ** Quotas *)
Definition scopeKey (scope : Z) (values : list (list Z)) : quotaKey :=
  (scope, blake3_Sum256 (domain "punaro/attachment/source-quota/v3" ++ [scope] ++ mjoin values)).

Definition quotaKeysOf (manifest : Manifest) : list quotaKey :=
  [scopeKey sourceScopeSender [m_Audience manifest; m_SenderDeviceID manifest;
                               bigEndian 8 (m_SenderGeneration manifest)];
   scopeKey sourceScopeRecipient [m_Audience manifest; m_RecipientDeviceID manifest;
                                  bigEndian 8 (m_RecipientGeneration manifest)];
   scopeKey sourceScopeConversation [m_Audience manifest; m_ConversationID manifest];
   scopeKey sourceScopeRelay [bytesOf "all"]].

Definition sourceQuotaKeys (spec : sourceSpec) : Res (list quotaKey) :=
  manifest ← DecodeManifest (ss_Manifest spec);
  mret (quotaKeysOf manifest).

Definition scopeLimit (scope : Z) : quotaLimit :=
  if scope =? sourceScopeSender then sl_Sender limits
  else if scope =? sourceScopeRecipient then sl_Recipient limits
  else if scope =? sourceScopeConversation then sl_Conversation limits
  else sl_Relay limits.

Definition sourceUsage (spec : sourceSpec) : Res (Z * Z) :=
  guard_ (ss_ChunkCount spec <=? wrapu64 (MaxUint64 - ss_PlaintextSize spec) / 16)
    "source ciphertext arithmetic overflow";;
  let bytes := wrapu64 (ss_PlaintextSize spec + 16 * ss_ChunkCount spec) in
  guard_ (bytes <=? MaxInt64) "source ciphertext exceeds SQLite range";;
  mret (bytes, ss_ChunkCount spec).

Definition noQuota : QuotaRow := {| qr_bytes := 0; qr_chunks := 0; qr_transfers := 0 |}.

Definition reserveOne (bytes chunks : Z) (key : quotaKey) : Tx unit :=
  current ← reads (fun d => default noQuota (quota d !! key));
  let limit := scopeLimit key.1 in
  must (negb ((ql_CiphertextBytes limit <? bytes) || (ql_Chunks limit <? chunks)
              || (ql_CiphertextBytes limit - bytes <? qr_bytes current)
              || (ql_Chunks limit - chunks <? qr_chunks current)
              || (ql_Transfers limit <=? qr_transfers current)))
    "source quota exceeded";;
  writes (fun d => set_quota (<[key := {| qr_bytes := qr_bytes current + bytes;
                                          qr_chunks := qr_chunks current + chunks;
                                          qr_transfers := qr_transfers current + 1 |}]> (quota d)) d).

Definition reserveSourceTx (spec : sourceSpec) : Tx unit :=
  usage ← lift (sourceUsage spec);
  keys ← lift (sourceQuotaKeys spec);
  each keys (reserveOne usage.1 usage.2).

Definition admitOne (key : quotaKey) : Tx unit :=
  current ← reads (fun d => default 0 (admission d !! key));
  must (current <? ql_DurableSources (scopeLimit key.1)) "source durable admission budget exhausted";;
  writes (fun d => set_admission (<[key := current + 1]> (admission d)) d).

Definition admitDurableSourceTx (spec : sourceSpec) : Tx unit :=
  keys ← lift (sourceQuotaKeys spec);
  each keys admitOne.

Definition admitCryptoOne (units : Z) (key : quotaKey) : Tx unit :=
  current ← reads (fun d => default 0 (cryptoAdmission d !! key));
  let limit := ql_CryptoReservations (scopeLimit key.1) in
  must (negb ((limit <? units) || (limit - units <? current))) "crypto reservation budget exhausted";;
  writes (fun d => set_cryptoAdmission (<[key := current + units]> (cryptoAdmission d)) d).

Definition admitCryptoTx (manifest : list Z) (units : Z) : Tx unit :=
  m ← lift (DecodeManifest manifest);
  must (negb ((units <? 2) || (4098 <? units))) "invalid crypto admission";;
  each (quotaKeysOf m) (admitCryptoOne units).

(** ** Staging a source *)
Definition initializeTx (source : VerifiedSource) (now : Z) : Tx bool :=
  must (source_valid source now) "invalid source specification";;
  spec ← lift (sourceSpecOf source);
  current ← loadSpecTx (ss_TransferID spec);
  match current with
  | Some current =>
      must (bool_decide (current = spec)) "source specification replacement is forbidden";;
      verifyTrackedSourceTx current;;
      mret false
  | None =>
      reserveSourceTx spec;;
      admitDurableSourceTx spec;;
      absent uniqueness (eqb (ss_ManifestCommitment spec)) "source transfer identity is not reusable";;
      insertRow uniqueness set_uniqueness (ss_TransferID spec) (ss_ManifestCommitment spec)
        "source transfer identity is not reusable";;
      absent specs (fun row => eqb (sp_commitment row) (ss_ManifestCommitment spec)) "constraint v3_source_specs";;
      insertRow specs set_specs (ss_TransferID spec) (specRow spec false) "constraint v3_source_specs";;
      absent transfers (fun row => eqb (tr_commitment row) (ss_ManifestCommitment spec)) "constraint v3_transfers";;
      insertRow transfers set_transfers (ss_TransferID spec)
        {| tr_commitment := ss_ManifestCommitment spec; tr_status := transferSourceUploading;
           tr_attempt := 0; tr_expires := ss_ExpiresAt spec |} "constraint v3_transfers";;
      mret true
  end.

Definition initialize (source : VerifiedSource) (now : Z) : Tx unit := initializeTx source now;; mret tt.

(** ** Terminal states *)
Definition setStatus (transferID : list Z) (row : TransferRow) (status : transferStatus) (attempt : Z) : Tx unit :=
  writes (fun d => set_transfers
    (<[transferID := {| tr_commitment := tr_commitment row; tr_status := status; tr_attempt := attempt;
                        tr_expires := tr_expires row |}]> (transfers d)) d).

Definition releaseOne (bytes chunks : Z) (key : quotaKey) : Tx unit :=
  current ← fetch (fun d => quota d !! key) "invalid source quota release";
  must ((bytes <=? qr_bytes current) && (chunks <=? qr_chunks current) && (1 <=? qr_transfers current))
    "invalid source quota release";;
  writes (fun d => set_quota (<[key := {| qr_bytes := qr_bytes current - bytes;
                                          qr_chunks := qr_chunks current - chunks;
                                          qr_transfers := qr_transfers current - 1 |}]> (quota d)) d).

(** [now.UTC().Add(TombstoneRetention).Unix()], at least [expiry]. *)
Definition retainFrom (now expiry : Z) : Z :=
  Z.max (Unix (Time.Add now (sl_TombstoneRetention limits))) expiry.

Definition keepIssued (retain : Z) (row : IssuedRow) : IssuedRow :=
  {| is_permit := is_permit row; is_transfer := is_transfer row; is_commitment := is_commitment row;
     is_expires := is_expires row; is_retain := Z.max (is_retain row) retain |}.
Definition keepLedger (retain : Z) (row : LedgerRow) : LedgerRow :=
  {| lg_commitment := lg_commitment row; lg_operations := lg_operations row; lg_bytes := lg_bytes row;
     lg_retain := Z.max (lg_retain row) retain |}.

Definition dropTransfer (transferID : list Z) (d : SourceDb) : SourceDb :=
  let d := set_offers (delete transferID (offers d)) d in
  let d := set_receipts (filter (fun kv => kv.1.1.1 <> transferID) (receipts d)) d in
  let d := set_specs (delete transferID (specs d)) d in
  (* ON DELETE CASCADE *)
  set_chunks (filter (fun kv => kv.1.1 <> transferID) (chunks d)) d.

Definition releaseTerminalSourceTx (spec : sourceSpec) (now : Z) : Tx unit :=
  usage ← lift (sourceUsage spec);
  keys ← lift (sourceQuotaKeys spec);
  each keys (releaseOne usage.1 usage.2);;
  let retain := retainFrom now (ss_ExpiresAt spec) in
  let id := ss_TransferID spec in
  let commitment := ss_ManifestCommitment spec in
  existing ← reads (fun d => tombstones d !! id);
  match existing with
  | Some _ => mret tt
  | None =>
      absent tombstones (fun row => eqb (tb_commitment row) commitment) "constraint v3_source_tombstones";;
      writes (fun d => set_tombstones (<[id := {| tb_commitment := commitment; tb_retain := retain |}]>
                                         (tombstones d)) d)
  end;;
  writes (fun d => set_issued ((fun row => if eqb (is_transfer row) id && eqb (is_commitment row) commitment
                                           then keepIssued retain row else row) <$> issued d) d);;
  writes (fun d => set_ledger (map_imap (fun k row => Some (if eqb k id && eqb (lg_commitment row) commitment
                                                            then keepLedger retain row else row)) (ledger d)) d);;
  writes (dropTransfer id).

Definition terminalizeSourceTx (spec : sourceSpec) (now : Z) : Tx unit :=
  let msg := "invalid source terminal transition" in
  row ← fetch (transferOf (ss_TransferID spec) (ss_ManifestCommitment spec)) msg;
  must (tr_expires row =? ss_ExpiresAt spec) msg;;
  if isStatus (tr_status row) transferCompleted && (tr_attempt row =? 1)
  then releaseTerminalSourceTx spec now
  else
    must (negb (terminal (tr_status row))) msg;;
    must (negb (isStatus (tr_status row) transferCreated)) msg;;
    setStatus (ss_TransferID spec) row
      (if ss_ExpiresAt spec <=? Unix now then transferExpired else transferCancelled) (tr_attempt row);;
    releaseTerminalSourceTx spec now.

Definition cancel (transferID : list Z) (now : Z) : Tx unit :=
  must (negb (isZero16 transferID) && (0 <=? Unix now)) "invalid source cancellation";;
  found ← loadSpecTx transferID;
  match found with
  | None => fetch (fun d => tombstones d !! transferID) "unknown staged source";; mret tt
  | Some spec => terminalizeSourceTx spec now
  end.

(** [ORDER BY expires_at, transfer_id]: blobs compare byte by byte. *)
Fixpoint blobLe (a b : list Z) : bool :=
  match a, b with
  | [], _ => true
  | _ :: _, [] => false
  | x :: a, y :: b => (x <? y) || ((x =? y) && blobLe a b)
  end.
Definition expiryLe (a b : list Z * SpecRow) : bool :=
  (sp_expires a.2 <? sp_expires b.2) || ((sp_expires a.2 =? sp_expires b.2) && blobLe a.1 b.1).
Definition expiredSources (now limit : Z) (d : SourceDb) : list (list Z) :=
  take (Z.to_nat limit)
    (fst <$> sortBy expiryLe (map_to_list (filter (fun kv => sp_expires kv.2 <= Unix now) (specs d)))).

Definition reapOne (now : Z) (id : list Z) : Tx unit :=
  found ← loadSpecTx id;
  match found with Some spec => terminalizeSourceTx spec now | None => mret tt end.

Definition purge (cutoff : Z) (d : SourceDb) : SourceDb :=
  let d := set_tombstones (filter (fun kv => ~ tb_retain kv.2 <= cutoff) (tombstones d)) d in
  let old := issued d in
  let stale serial := match old !! serial with Some row => is_retain row <=? cutoff | None => false end in
  let d := set_redeemed (filter (fun kv => stale kv.1.1 = false) (redeemed d)) d in
  let d := set_issued (filter (fun kv => ~ is_retain kv.2 <= cutoff) (issued d)) d in
  let d := set_ledger (filter (fun kv => ~ lg_retain kv.2 <= cutoff) (ledger d)) d in
  let d := set_requests (filter (fun kv => ~ rq_retain kv.2 <= cutoff) (requests d)) d in
  let kept := requests d in
  set_fences (filter (fun kv => mexists (fun _ row => eqb (rq_serial row) kv.1) kept = true) (fences d)) d.

Definition reapExpired (now limit : Z) : Tx Z :=
  must ((0 <=? Unix now) && (0 <? limit) && (limit <=? 1024)) "invalid source reaper request";;
  ids ← reads (expiredSources now limit);
  each ids (reapOne now);;
  writes (purge (Unix now));;
  mret (Z.of_nat (length ids)).

(** ** Chunks *)
Definition storedChunks (id : list Z) (d : SourceDb) : Z := mcount (fun k _ => eqb k.1 id) (chunks d).

Definition uploadTx (transferID : list Z) (index : Z) (ciphertext : list Z) (now : Z) : Tx unit :=
  must (negb (isZero16 transferID) && (0 <? len ciphertext) && (len ciphertext <=? maxCiphertextFrame))
    "invalid staged chunk";;
  spec ← loadedSpec transferID "unknown staged source";
  must ((Unix now <? ss_ExpiresAt spec) && (index <? ss_ChunkCount spec)
        && (len ciphertext =? expectedCiphertextLength spec index)) "invalid staged chunk";;
  let commitment := ciphertextCommitment ciphertext in
  existing ← reads (fun d => chunks d !! (transferID, index));
  match existing with
  | Some row => must (eqb (ch_ciphertext row) ciphertext && eqb (ch_commitment row) commitment)
                  "staged chunk replacement is forbidden"
  | None => insertRow chunks set_chunks (transferID, index)
              {| ch_ciphertext := ciphertext; ch_commitment := commitment |} "constraint v3_source_chunks"
  end;;
  stored ← reads (storedChunks transferID);
  if negb (stored =? ss_ChunkCount spec) then mret tt else
  row ← fetch (fun d => specs d !! transferID) "unknown staged source";
  if negb (sp_ready row) then
    writes (fun d => set_specs (<[transferID := specRow spec true]> (specs d)) d);;
    transfer ← fetch (transferOf transferID (ss_ManifestCommitment spec)) "source-ready lifecycle transition failed";
    must (isStatus (tr_status transfer) transferSourceUploading && (tr_attempt transfer =? 0)
          && (tr_expires transfer =? ss_ExpiresAt spec)) "source-ready lifecycle transition failed";;
    setStatus transferID transfer transferSourceReady (tr_attempt transfer)
  else
    verifyTrackedSourceTx spec;;
    transfer ← fetch (fun d => transfers d !! transferID) "invalid ready source lifecycle state";
    must (isStatus (tr_status transfer) transferSourceReady) "invalid ready source lifecycle state".

Definition upload := uploadTx.

(** The chunks of a source in index order, checked one after the other. *)
Fixpoint chunksIntact (spec : sourceSpec) (index : Z) (rows : list (Z * ChunkRow)) : bool :=
  match rows with
  | [] => index =? ss_ChunkCount spec
  | (stored, row) :: rows =>
      (stored =? index) && (len (ch_commitment row) =? 32)
      && (len (ch_ciphertext row) =? expectedCiphertextLength spec index)
      && eqb (ch_commitment row) (ciphertextCommitment (ch_ciphertext row))
      && chunksIntact spec (index + 1) rows
  end.
Definition chunksOf (id : list Z) (d : SourceDb) : list (Z * ChunkRow) :=
  sortBy (fun a b => a.1 <=? b.1)
    (omap (fun kv => if eqb kv.1.1 id then Some (kv.1.2, kv.2) else None) (map_to_list (chunks d))).

Definition readyAt (transferID : list Z) (now : Z) : Tx bool :=
  must (negb (isZero16 transferID)) "invalid source lookup";;
  found ← loadSpecTx transferID;
  match found with
  | None => mret false
  | Some spec =>
      verifyTrackedSourceTx spec;;
      if ss_ExpiresAt spec <=? Unix now then mret false else
      row ← fetch (fun d => specs d !! transferID) "invalid source state";
      if negb (sp_ready row) then mret false else
      rows ← reads (chunksOf transferID);
      must (chunksIntact spec 0 rows) "invalid stored staged chunk";;
      mret true
  end.

(** ** Sender-local reservations ([artifact.go]) *)
Definition fileKeyCommitment (fileKey : list Z) : list Z :=
  blake3_Sum256 (domain "punaro/attachment/file-key/v3" ++ fileKey).
Definition contentSaltCommitment (salt : list Z) : list Z :=
  blake3_Sum256 (domain "punaro/attachment/content-salt/v3" ++ salt).

Definition reserveCrypto (fileKey raw commitment : list Z) : Tx unit :=
  let invalid := "invalid cryptographic reservation" in
  manifest ← orElse (lift (DecodeManifest raw)) invalid;
  must (negb (isZero32 fileKey) && negb (isZero32 (m_ContentSalt manifest))
        && negb (isZero16 (m_TransferID manifest)) && negb (isZero32 commitment)
        && negb (m_ChunkCount manifest =? 0) && (m_ChunkCount manifest <=? 4096)
        && eqb (blake3_Sum256 raw) commitment) invalid;;
  let key := fileKeyCommitment fileKey in
  let salt := contentSaltCommitment (m_ContentSalt manifest) in
  let id := m_TransferID manifest in
  existing ← reads (fun d => bool_decide (key ∈ fileKeys d));
  if existing : bool then
    salted ← reads (fun d => bool_decide (salt ∈ contentSalts d));
    nonces ← reads (fun d => Z.of_nat (size (filter (fun n => n.1 = (id, commitment)) (nonceTuples d))));
    must (salted && (nonces =? m_ChunkCount manifest)) "incomplete source cryptographic reservation"
  else
    admitCryptoTx raw (m_ChunkCount manifest + 2);;
    insertKey fileKeys set_fileKeys key "source file key already reserved";;
    insertKey contentSalts set_contentSalts salt "source content salt already reserved";;
    each (seqZ 0 (m_ChunkCount manifest))
      (fun index => insertKey nonceTuples set_nonceTuples (id, commitment, index) "source nonce already reserved").

(** ** The operation ledger ([permit_ledger.go]) *)
Definition maxOperationResultBytes : Z := 256.
Definition maxActivePermitsPerSource : Z := 3 * 4096 + 16.

Definition admitLedgerOperationTx (spec : sourceSpec) (resultBytes now : Z) : Tx unit :=
  let maxOperations := wrapu64 (3 * ss_ChunkCount spec + 16) in
  must (negb ((maxOperations <? ss_ChunkCount spec) || (maxOperationResultBytes <? resultBytes)
              || (maxActivePermitsPerSource <? maxOperations))) "invalid v3 ledger admission";;
  let retain := retainFrom now (ss_ExpiresAt spec) in
  row ← reads (fun d => default {| lg_commitment := ss_ManifestCommitment spec; lg_operations := 0;
                                   lg_bytes := 0; lg_retain := retain |} (ledger d !! ss_TransferID spec));
  must (eqb (lg_commitment row) (ss_ManifestCommitment spec)) "invalid v3 ledger admission state";;
  let maxBytes := maxOperations * maxOperationResultBytes in
  must (negb ((maxOperations <=? lg_operations row) || (maxBytes - resultBytes <? lg_bytes row)))
    "v3 ledger admission exhausted";;
  writes (fun d => set_ledger
    (<[ss_TransferID spec :=
         {| lg_commitment := ss_ManifestCommitment spec; lg_operations := lg_operations row + 1;
            lg_bytes := lg_bytes row + resultBytes; lg_retain := Z.max (lg_retain row) retain |}]>
       (ledger d)) d).

(** ** Permits *)
Definition hasIssuedPermit (permit : Permit) : Tx unit :=
  must (negb (isZero16 (p_Serial permit))) "invalid issued permit receipt";;
  raw ← lift (EncodePermit permit);
  row ← fetch (fun d => issued d !! p_Serial permit) "unknown issued permit receipt";
  must (eqb (is_permit row) raw) "unknown issued permit receipt".

Definition permitCompatibleSourceStatus (permit : Permit) (status : transferStatus) (attempt : Z) : bool :=
  let operation := p_Operation permit in
  let generation := p_AttemptGeneration permit in
  if operation =? permitOperationSourceUpload
  then isStatus status transferSourceUploading && (attempt =? 0) && (generation =? 0)
  else if operation =? permitOperationOffer
  then isStatus status transferSourceReady && (attempt =? 0) && (generation =? 0)
  else if operation =? permitOperationCancel
  then (isStatus status transferSourceUploading || isStatus status transferSourceReady)
       && (attempt =? 0) && (generation =? 0)
  else if operation =? permitOperationAccept
  then isStatus status transferOffered && (attempt =? 0) && (generation =? 0)
  else if operation =? permitOperationBegin
  then isStatus status transferAccepted && (attempt =? 0) && (generation =? 1)
  else if oneOf operation [permitOperationDownload; permitOperationComplete]
  then isStatus status transferTransferring && (attempt =? 1) && (generation =? 1)
  else if operation =? permitOperationOutcome then generation =? 0
  else false.

Definition insertIssuedPermitTx (permit : Permit) (raw : list Z) (permitExpiry now : Z) : Tx unit :=
  let collision := "v3 permit serial collision" in
  absent issued (fun row => eqb (is_permit row) raw) collision;;
  insertRow issued set_issued (p_Serial permit)
    {| is_permit := raw; is_transfer := p_TransferID permit;
       is_commitment := p_StagedManifestCommitment permit; is_expires := p_ExpiresAt permit;
       is_retain := retainFrom now permitExpiry |} collision.

(** [SELECT permit FROM v3_permit_requests WHERE permit_serial = ?]; the column is UNIQUE. *)
Definition requestOfSerial (serial : list Z) (d : SourceDb) : option RequestRow :=
  snd <$> head (filter (fun kv => rq_serial kv.2 = serial) (map_to_list (requests d))).

Definition outcomeOriginPermitTx (outcome : Permit) (now : Z) : Tx Permit :=
  must ((p_Operation outcome =? permitOperationOutcome) && negb (isZero16 (p_OutcomeOfSerial outcome))
        && (0 <=? Unix now)) "invalid v3 outcome origin";;
  row ← fetch (requestOfSerial (p_OutcomeOfSerial outcome)) "unknown v3 outcome origin";
  original ← orElse (lift (DecodePermit (rq_permit row))) "mismatched v3 outcome origin";
  must (eqb (p_Serial original) (p_OutcomeOfSerial outcome)
        && negb (p_Operation original =? permitOperationOutcome) && (p_ExpiresAt original <=? Unix now)
        && eqb (p_TransferID original) (p_TransferID outcome)
        && eqb (p_ConversationID original) (p_ConversationID outcome)
        && eqb (p_SenderDeviceID original) (p_SenderDeviceID outcome)
        && (p_SenderGeneration original =? p_SenderGeneration outcome)
        && eqb (p_RecipientDeviceID original) (p_RecipientDeviceID outcome)
        && (p_RecipientGeneration original =? p_RecipientGeneration outcome)
        && eqb (p_MembershipCommitment original) (p_MembershipCommitment outcome)
        && eqb (p_StagedManifestCommitment original) (p_StagedManifestCommitment outcome)
        && eqb (p_HolderDeviceID original) (p_HolderDeviceID outcome)
        && (p_HolderGeneration original =? p_HolderGeneration outcome)
        && (p_HolderRole original =? p_HolderRole outcome)) "mismatched v3 outcome origin";;
  mret original.

Definition issuePermit (permit : Permit) (authority : AttachmentAuthority) (now : Z) : Tx unit :=
  must (negb (p_Operation permit =? permitOperationSourceInit)) "invalid v3 permit issuance";;
  lift (VerifyPermit permit authority now);;
  raw ← lift (EncodePermit permit);
  permitExpiry ← lift (unixSeconds (p_ExpiresAt permit));
  existing ← reads (fun d => issued d !! p_Serial permit);
  match existing with
  | Some row => must (eqb (is_permit row) raw) "changed v3 permit serial"
  | None =>
      let is_outcome := p_Operation permit =? permitOperationOutcome in
      (if is_outcome then outcomeOriginPermitTx permit now;; mret tt else mret tt);;
      let unknown := "unknown v3 staged source" in
      found ← orElse (loadSpecTx (p_TransferID permit)) unknown;
      match found with
      | None =>
          must is_outcome unknown;;
          insertIssuedPermitTx permit raw permitExpiry now
      | Some spec =>
          must (eqb (ss_ManifestCommitment spec) (p_StagedManifestCommitment permit)) unknown;;
          manifest ← orElse (lift (DecodeManifest (ss_Manifest spec))) "invalid v3 staged permit binding";
          must (retainedManifestPermitBinding permit manifest (ss_Manifest spec)) "invalid v3 staged permit binding";;
          let refused := "v3 permit is not admitted by source lifecycle" in
          transfer ← fetch (transferOf (p_TransferID permit) (p_StagedManifestCommitment permit)) refused;
          must (permitCompatibleSourceStatus permit (tr_status transfer) (tr_attempt transfer)) refused;;
          active ← reads (fun d => mcount (fun _ row => eqb (is_transfer row) (p_TransferID permit)
                                                        && (Unix now <? is_retain row)) (issued d));
          must (active <? maxActivePermitsPerSource) "v3 permit admission exhausted";;
          insertIssuedPermitTx permit raw permitExpiry now
      end
  end.

(** *** The issuer ([permit_issuer.go]) *)
Definition maxRetainedPermitRequests : Z := 3 * 4096 + 16.

Record DirectoryPermitBinding := {
  db_Audience : list Z;
  db_DirectoryHead : list Z;
  db_RevocationEpoch : Z;
  db_ExpiresAt : Z;
}.
Record PermitIssuanceAuthority := {
  ia_authority : AttachmentAuthority;
  CurrentPermitIssuerKey : list Z -> option (list Z);
  CurrentPermitBinding : Z -> option DirectoryPermitBinding;
}.
Record PermitIssuer := {
  i_issuerKeyID : list Z;
  i_privateKey : list Z;
  i_maxLifetime : Z;
  i_maxBytes : Z;
  i_maxChunks : Z;
  i_maxOperations : Z;
  i_maxActive : Z;
}.

Definition NewPermitIssuer (i : PermitIssuer) : Res PermitIssuer :=
  guard_ (negb (isZero32 (i_issuerKeyID i) || negb (len (i_privateKey i) =? PrivateKeySize)
                || (i_maxLifetime i <=? 0) || (30 * Time.Second <? i_maxLifetime i)
                || (i_maxBytes i =? 0) || (maxPermitCiphertextBytes <? i_maxBytes i)
                || (i_maxChunks i =? 0) || (4096 <? i_maxChunks i)
                || (i_maxOperations i =? 0) || (4096 <? i_maxOperations i)
                || (i_maxActive i =? 0) || (maxRetainedPermitRequests <? i_maxActive i)))
    "invalid v3 permit issuer configuration";;
  mret i.

Definition existingRequest (requestID rawRequest : list Z) : Tx (option Permit) :=
  row ← reads (fun d => requests d !! requestID);
  match row with
  | None => mret None
  | Some row =>
      must (eqb (rq_request row) rawRequest) "changed v3 permit issuance request";;
      permit ← orElse (lift (DecodePermit (rq_permit row))) "invalid stored v3 permit";
      mret (Some permit)
  end.

Definition permitRequestRetention (permit : Permit) (now : Z) : Res Z :=
  permitExpiry ← unixSeconds (p_ExpiresAt permit);
  mret (retainFrom now permitExpiry).

(** [Stored permit replayed] or the serial collided and nothing is committed. *)
Inductive Issuance := Stored (permit : Permit) (replayed : bool) | Collision.

(** The deferred rollback to [d0]. *)
Definition abandon {A} (d0 : SourceDb) (a : A) : Tx A := fun _ => inr (a, d0).

Definition persistRequest (issuer : PermitIssuer) (request : PermitRequest) (rawRequest : list Z)
    (permit : Permit) (now : Z) : Tx Issuance := fun d0 =>
  (rawPermit ← lift (EncodePermit permit);
   let cutoff := Unix now in
   must (0 <=? cutoff) "invalid v3 issuer clock";;
   writes (fun d => set_requests (filter (fun kv => ~ rq_retain kv.2 <= cutoff) (requests d)) d);;
   existing ← reads (fun d => requests d !! q_RequestID request);
   match existing with
   | Some row =>
       must (eqb (rq_request row) rawRequest) "changed v3 permit issuance request";;
       previous ← orElse (lift (DecodePermit (rq_permit row))) "invalid stored v3 permit";
       mret (Stored previous true)
   | None =>
       active ← reads (fun d => mcount (fun _ row => eqb (rq_holder row) (q_HolderDeviceID request)) (requests d));
       must (active <? i_maxActive issuer) "active v3 permit quota exhausted";;
       taken ← reads (fun d => issued d !! p_Serial permit);
       match taken with
       | Some _ => abandon d0 Collision
       | None =>
           retain ← lift (permitRequestRetention permit now);
           absent requests (fun row => eqb (rq_serial row) (p_Serial permit)) "record v3 permit issuance";;
           insertRow requests set_requests (q_RequestID request)
             {| rq_request := rawRequest; rq_permit := rawPermit; rq_serial := p_Serial permit;
                rq_holder := q_HolderDeviceID request; rq_expires := p_ExpiresAt permit; rq_retain := retain |}
             "record v3 permit issuance";;
           mret (Stored permit false)
       end
   end) d0.

Definition signedPermit (issuer : PermitIssuer) (p : Permit) : Permit :=
  mkPermit (p_Audience p) (p_Serial p) (p_IssuerKeyID p) (p_HolderDeviceID p) (p_HolderGeneration p)
    (p_HolderRole p) (p_TransferID p) (p_ConversationID p) (p_SenderDeviceID p) (p_SenderGeneration p)
    (p_RecipientDeviceID p) (p_RecipientGeneration p) (p_AttemptGeneration p) (p_Operation p)
    (p_DirectoryHead p) (p_MembershipCommitment p) (p_RevocationEpoch p) (p_IssuedAt p) (p_ExpiresAt p)
    (p_MaxBytes p) (p_MaxChunks p) (p_MaxOperations p) (p_StagedManifestCommitment p) (p_OutcomeOfSerial p)
    (ed25519_sign (i_privateKey issuer) (permitPayload p)).

(** The permit an issuer mints for a request. *)
Definition mint (issuer : PermitIssuer) (request : PermitRequest) (binding : DirectoryPermitBinding)
    (serial : list Z) (issuedAt expiresAt : Z) : Permit :=
  signedPermit issuer
    (mkPermit (db_Audience binding) serial (i_issuerKeyID issuer) (q_HolderDeviceID request)
       (q_HolderGeneration request) (q_HolderRole request) (q_TransferID request) (q_ConversationID request)
       (q_SenderDeviceID request) (q_SenderGeneration request) (q_RecipientDeviceID request)
       (q_RecipientGeneration request) (q_AttemptGeneration request) (q_Operation request)
       (db_DirectoryHead binding) (q_MembershipCommitment request) (db_RevocationEpoch binding) issuedAt
       expiresAt (q_MaxBytes request) (q_MaxChunks request) (q_MaxOperations request)
       (q_StagedManifestCommitment request) (q_OutcomeOfSerial request) zero64).

(** Up to eight serials are drawn; [None] is a failed read of the entropy source. *)
Fixpoint issueAttempts (attempts : nat) (random : nat -> option (list Z)) (draw : nat)
    (issuer : PermitIssuer) (request : PermitRequest) (rawRequest : list Z)
    (authority : PermitIssuanceAuthority) (binding : DirectoryPermitBinding)
    (expiresAt now : Z) : Tx (Permit * bool) :=
  match attempts with
  | O => fails "v3 permit serial collision limit exceeded"
  | S attempts =>
      serial ← lift (need (random draw) "generate v3 permit serial");
      must (negb (isZero16 serial)) "generate v3 permit serial";;
      let permit := mint issuer request binding serial (Unix now) expiresAt in
      must (succeeds (validatePermit permit) && succeeds (VerifyPermit permit (ia_authority authority) now))
        "issuer generated an invalid v3 permit";;
      outcome ← persistRequest issuer request rawRequest permit now;
      match outcome with
      | Stored permit replayed => mret (permit, replayed)
      | Collision => issueAttempts attempts random (S draw) issuer request rawRequest authority binding
                       expiresAt now
      end
  end.

Definition Issue (issuer : PermitIssuer) (random : nat -> option (list Z)) (request : PermitRequest)
    (authority : PermitIssuanceAuthority) (now : Z) : Tx (Permit * bool) :=
  must (succeeds (validatePermitRequest request)) "invalid v3 permit issuance";;
  let nowUnix := Unix now in
  must (0 <=? nowUnix) "invalid v3 permit request time";;
  must (issuedWithinClockSkew (q_IssuedAt request) nowUnix) "invalid v3 permit request time";;
  holder ← lift (need (CurrentDeviceSigningKey (ia_authority authority) (q_HolderDeviceID request)
                         (q_HolderGeneration request)) "unknown v3 permit request holder");
  must (len holder =? PublicKeySize) "unknown v3 permit request holder";;
  must (ed25519_verify holder (permitRequestPayload request) (q_Signature request))
    "invalid v3 permit request signature";;
  rawRequest ← lift (EncodePermitRequest request);
  if q_ExpiresAt request <=? nowUnix then
    stored ← existingRequest (q_RequestID request) rawRequest;
    lift (match stored with Some permit => inr (permit, true) | None => inl "expired v3 permit request" end)
  else
    binding ← lift (need (CurrentPermitBinding authority now)
                      "fresh v3 permit directory authority is unavailable");
    key ← lift (need (CurrentPermitIssuerKey authority (i_issuerKeyID issuer))
                  "v3 permit issuer is not directory-authorized");
    must (eqb key (ed25519_public (i_privateKey issuer))) "v3 permit issuer is not directory-authorized";;
    let issuerExpiry := Unix (Time.Add now (i_maxLifetime issuer)) in
    must (0 <=? issuerExpiry) "invalid v3 issuer clock";;
    let expiresAt := Z.min (Z.min (q_ExpiresAt request) (db_ExpiresAt binding)) issuerExpiry in
    must (negb ((expiresAt <=? nowUnix) || (i_maxBytes issuer <? q_MaxBytes request)
                || (i_maxChunks issuer <? q_MaxChunks request)
                || (i_maxOperations issuer <? q_MaxOperations request)))
      "v3 permit request exceeds issuer policy";;
    issueAttempts 8 random 0 issuer request rawRequest authority binding expiresAt now.

(** The issuance route of [permit_http.go], once its request is decoded and
    admitted: the permit is minted at [issuedNow], read from the issuer's own
    clock, and registered at [now]. *)
Definition servePermit (issuer : PermitIssuer) (random : nat -> option (list Z)) (request : PermitRequest)
    (authority : PermitIssuanceAuthority) (now issuedNow : Z) (d : SourceDb) : Res (list Z) * SourceDb :=
  match Issue issuer random request authority issuedNow d with
  | inl e => (inl e, d)
  | inr ((permit, replayed), d1) =>
      let register : Tx unit :=
        must (0 <=? Unix now) "forbidden";;
        if p_Operation permit =? permitOperationSourceInit then mret tt
        else if replayed && (p_ExpiresAt permit <=? Unix now) then hasIssuedPermit permit
        else issuePermit permit (ia_authority authority) now in
      match register d1 with
      | inl e => (inl e, d1)
      | inr (_, d2) => (EncodePermit permit, d2)
      end
  end.

(** ** Redemptions *)
Definition sameOperation (row : RedeemedRow) (operation : OperationRecord) : bool :=
  (rd_operation row =? o_Operation operation) && (rd_method row =? o_Method operation)
  && eqb (rd_path row) (o_PathCommitment operation) && eqb (rd_target row) (o_TargetCommitment operation)
  && eqb (rd_body row) (o_BodyCommitment operation) && eqb (rd_idempotency row) (o_IdempotencyKey operation).

Definition redeemedAs (permit : Permit) (operation : OperationRecord) (d : SourceDb) : option RedeemedRow :=
  redeemed d !! (p_Serial permit, o_OperationID operation).

Definition recordOperation (permit : Permit) (operation : OperationRecord) (bytes chunks : Z)
    (result : list Z) : Tx unit :=
  let msg := "record v3 operation" in
  taken ← reads (fun d => mexists (fun k row => eqb k.1 (p_Serial permit)
                                     && eqb (rd_idempotency row) (o_IdempotencyKey operation)) (redeemed d));
  must (negb taken) msg;;
  insertRow redeemed set_redeemed (p_Serial permit, o_OperationID operation)
    {| rd_operation := o_Operation operation; rd_method := o_Method operation;
       rd_path := o_PathCommitment operation; rd_target := o_TargetCommitment operation;
       rd_body := o_BodyCommitment operation; rd_idempotency := o_IdempotencyKey operation;
       rd_bytes := bytes; rd_chunks := chunks; rd_result := result |} msg.

(** What the redemptions recorded so far under a serial have used. *)
Definition usedOperations (serial : list Z) (d : SourceDb) : Z :=
  mcount (fun k _ => eqb k.1 serial) (redeemed d).
Definition usedBytes (serial : list Z) (d : SourceDb) : Z :=
  msum (fun k row => if eqb k.1 serial then rd_bytes row else 0) (redeemed d).
Definition usedChunks (serial : list Z) (d : SourceDb) : Z :=
  msum (fun k row => if eqb k.1 serial then rd_chunks row else 0) (redeemed d).

Definition freshIdempotency (permit : Permit) (operation : OperationRecord) : Tx unit :=
  taken ← reads (fun d => mexists (fun k row => eqb k.1 (p_Serial permit)
                                     && eqb (rd_idempotency row) (o_IdempotencyKey operation)) (redeemed d));
  must (negb taken) "reused v3 idempotency key".

Definition withinPermit (permit : Permit) (bytes chunks : Z) : Tx unit :=
  d ← reads (fun d => d);
  must (negb ((p_MaxOperations permit <=? usedOperations (p_Serial permit) d)
              || (p_MaxBytes permit <? bytes)
              || (p_MaxBytes permit - bytes <? usedBytes (p_Serial permit) d)
              || (p_MaxChunks permit <? chunks)
              || (p_MaxChunks permit - chunks <? usedChunks (p_Serial permit) d)))
    "v3 permit operation quota exhausted".

Definition issuedPermit (permit : Permit) (rawPermit : list Z) : Tx unit :=
  let unknown := "unknown or mismatched v3 issued permit" in
  row ← fetch (fun d => issued d !! p_Serial permit) unknown;
  must (eqb (is_permit row) rawPermit && eqb (is_transfer row) (p_TransferID permit)
        && eqb (is_commitment row) (p_StagedManifestCommitment permit)) unknown.

Definition redeemPermitOperation (permit : Permit) (operation : OperationRecord) (route : AttachmentRoute)
    (request : OperationRequest) (authority : AttachmentAuthority) (now : Z)
    (mutation : Tx (list Z)) : Tx (list Z * bool) :=
  lift (VerifyPermit permit authority now);;
  used ← lift (VerifyAttachmentOperationRequest operation permit authority route request now);
  rawPermit ← lift (EncodePermit permit);
  issuedPermit permit rawPermit;;
  existing ← reads (redeemedAs permit operation);
  match existing with
  | Some row =>
      must (sameOperation row operation) "changed v3 operation replay";;
      mret (rd_result row, true)
  | None =>
      let refused := "v3 permit is no longer admitted by source lifecycle" in
      transfer ← fetch (transferOf (p_TransferID permit) (p_StagedManifestCommitment permit)) refused;
      must (permitCompatibleSourceStatus permit (tr_status transfer) (tr_attempt transfer)) refused;;
      spec ← loadedSpec (p_TransferID permit) "unknown v3 source ledger admission";
      must (eqb (ss_ManifestCommitment spec) (p_StagedManifestCommitment permit))
        "unknown v3 source ledger admission";;
      admitLedgerOperationTx spec maxOperationResultBytes now;;
      freshIdempotency permit operation;;
      withinPermit permit used.1 used.2;;
      result ← mutation;
      must (len result <=? maxOperationResultBytes) "v3 operation result exceeds bound";;
      recordOperation permit operation used.1 used.2 result;;
      mret (result, false)
  end.

(** The transfer row, in the state an operation needs. *)
Definition transferIn (permit : Permit) (ok : transferStatus -> bool) (attempt : Z) (msg : string)
    : Tx TransferRow :=
  row ← fetch (transferOf (p_TransferID permit) (p_StagedManifestCommitment permit)) msg;
  must (ok (tr_status row) && (tr_attempt row =? attempt)) msg;;
  mret row.

Definition resultOf (permit : Permit) (status : transferStatus) (attempt expires : Z) : list Z :=
  encodeTransferResult (p_TransferID permit) (p_StagedManifestCommitment permit) status attempt expires.

(** *** [upload_store.go] *)
Definition uploadMutation (permit : Permit) (route : AttachmentRoute) (request : OperationRequest)
    (now : Z) : Tx (list Z) :=
  (* an index of 2^63 or more has no SQLite integer *)
  must (r_ChunkIndex route <=? MaxInt64) "uint64 values with high bit set are not supported";;
  prior ← reads (fun d => chunks d !! (p_TransferID permit, r_ChunkIndex route));
  must (bool_decide (prior = None)) "v3 source chunk already has a retry identity";;
  uploadTx (p_TransferID permit) (r_ChunkIndex route) (w_body request) now;;
  row ← transferIn permit (fun s => isStatus s transferSourceUploading || isStatus s transferSourceReady) 0
          "invalid v3 source-upload lifecycle";
  mret (resultOf permit (tr_status row) (tr_attempt row) (tr_expires row)).

Definition redeemUpload (permit : Permit) (operation : OperationRecord) (route : AttachmentRoute)
    (request : OperationRequest) (authority : AttachmentAuthority) (now : Z) : Tx (list Z * bool) :=
  must ((p_Operation permit =? permitOperationSourceUpload)
        && (r_Operation route =? permitOperationSourceUpload)) "invalid v3 source-upload redemption";;
  redeemPermitOperation permit operation route request authority now
    (uploadMutation permit route request now).

(** *** [cancel_store.go] *)
Definition cancelMutation (permit : Permit) (now : Z) : Tx (list Z) :=
  spec ← loadedSpec (p_TransferID permit) "unknown v3 cancellation source";
  must (eqb (ss_ManifestCommitment spec) (p_StagedManifestCommitment permit)) "unknown v3 cancellation source";;
  transferIn permit (fun s => isStatus s transferSourceUploading || isStatus s transferSourceReady) 0
    "v3 source is no longer cancellable";;
  terminalizeSourceTx spec now;;
  mret (resultOf permit transferCancelled 0 (ss_ExpiresAt spec)).

Definition redeemCancel (permit : Permit) (operation : OperationRecord) (route : AttachmentRoute)
    (request : OperationRequest) (authority : AttachmentAuthority) (now : Z) : Tx (list Z * bool) :=
  must ((p_Operation permit =? permitOperationCancel) && (r_Operation route =? permitOperationCancel))
    "invalid v3 cancellation redemption";;
  redeemPermitOperation permit operation route request authority now (cancelMutation permit now).

(** *** [offer_store.go] *)
Definition offerMutation (permit : Permit) (manifestRaw envelopeRaw nonce : list Z) : Tx (list Z) :=
  spec ← loadedSpec (p_TransferID permit) "staged v3 manifest mismatch";
  must (eqb (ss_ManifestCommitment spec) (p_StagedManifestCommitment permit)
        && eqb (ss_Manifest spec) manifestRaw) "staged v3 manifest mismatch";;
  row ← transferIn permit (fun s => isStatus s transferSourceReady) 0 "v3 transfer cannot be offered";
  insertRow offers set_offers (p_TransferID permit)
    {| of_manifest := manifestRaw; of_envelope := envelopeRaw; of_nonce := nonce; of_consumed := false |}
    "constraint v3_offers";;
  setStatus (p_TransferID permit) row transferOffered 0;;
  mret (resultOf permit transferOffered 0 (tr_expires row)).

Definition redeemOffer (permit : Permit) (operation : OperationRecord) (route : AttachmentRoute)
    (request : OperationRequest) (authority : AttachmentAuthority) (now : Z) : Tx (list Z * bool) :=
  payload ← lift (decodeOfferPayload (w_body request));
  source ← orElse (lift (DecodeAndVerifyRetainedSource (f_ManifestRaw payload) authority now))
             "invalid fresh v3 offer source";
  must (eqb (v_commitment source) (p_StagedManifestCommitment permit)
        && retainedManifestPermitBinding permit (f_Manifest payload) (f_ManifestRaw payload))
    "invalid fresh v3 offer source";;
  signer ← lift (need (ValidateRetainedManifestAuthority authority (f_Manifest payload) now)
                   "invalid fresh v3 offer envelope");
  must (verifyEnvelope (f_Envelope payload) (f_Manifest payload) (f_ManifestRaw payload) signer)
    "invalid fresh v3 offer envelope";;
  envelopeRaw ← lift (EncodeEnvelope (f_Envelope payload));
  redeemPermitOperation permit operation route request authority now
    (offerMutation permit (f_ManifestRaw payload) envelopeRaw (f_AcceptanceNonce payload)).

Definition acceptMutation (permit : Permit) (request : OperationRequest) (authority : AttachmentAuthority)
    (now : Z) : Tx (list Z) :=
  let invalid := "invalid or consumed v3 acceptance" in
  offer ← fetch (fun d => offers d !! p_TransferID permit) invalid;
  must (negb (of_consumed offer) && (len (of_nonce offer) =? 32) && eqb (of_nonce offer) (w_body request)) invalid;;
  source ← orElse (lift (DecodeAndVerifyRetainedSource (of_manifest offer) authority now))
             "invalid fresh v3 acceptance source";
  must (eqb (v_commitment source) (p_StagedManifestCommitment permit)) "invalid fresh v3 acceptance source";;
  envelope ← orElse (lift (DecodeEnvelope (of_envelope offer))) "invalid stored v3 envelope";
  signer ← lift (need (ValidateRetainedManifestAuthority authority (v_manifest source) now)
                   "invalid fresh stored v3 envelope");
  must (verifyEnvelope envelope (v_manifest source) (of_manifest offer) signer) "invalid fresh stored v3 envelope";;
  row ← transferIn permit (fun s => isStatus s transferOffered) 0 "v3 transfer cannot be accepted";
  writes (fun d => set_offers
    (<[p_TransferID permit := {| of_manifest := of_manifest offer; of_envelope := of_envelope offer;
                                 of_nonce := of_nonce offer; of_consumed := true |}]> (offers d)) d);;
  setStatus (p_TransferID permit) row transferAccepted 0;;
  mret (resultOf permit transferAccepted 0 (tr_expires row)).

Definition redeemAccept (permit : Permit) (operation : OperationRecord) (route : AttachmentRoute)
    (request : OperationRequest) (authority : AttachmentAuthority) (now : Z) : Tx (list Z * bool) :=
  must (len (w_body request) =? 32) "invalid v3 acceptance nonce";;
  redeemPermitOperation permit operation route request authority now
    (acceptMutation permit request authority now).

(** *** [receipt_store.go] *)
Definition beginMutation (permit : Permit) : Tx (list Z) :=
  row ← transferIn permit (fun s => isStatus s transferAccepted) 0 "v3 transfer cannot begin";
  setStatus (p_TransferID permit) row transferTransferring 1;;
  mret (resultOf permit transferTransferring 1 (tr_expires row)).

Definition redeemBegin (permit : Permit) (operation : OperationRecord) (route : AttachmentRoute)
    (request : OperationRequest) (authority : AttachmentAuthority) (now : Z) : Tx (list Z * bool) :=
  redeemPermitOperation permit operation route request authority now (beginMutation permit).

Definition loadDownloadCiphertextTx (transferID : list Z) (index : Z) : Tx (list Z * list Z) :=
  let invalid := "invalid v3 stored ciphertext response" in
  spec ← loadedSpec transferID invalid;
  must (index <? ss_ChunkCount spec) invalid;;
  row ← fetch (fun d => chunks d !! (transferID, index)) invalid;
  must ((len (ch_ciphertext row) =? expectedCiphertextLength spec index) && (len (ch_commitment row) =? 32)) invalid;;
  let commitment := ciphertextCommitment (ch_ciphertext row) in
  must (eqb (ch_commitment row) commitment) invalid;;
  mret (ch_ciphertext row, commitment).

Definition redeemDownload (permit : Permit) (operation : OperationRecord) (route : AttachmentRoute)
    (request : OperationRequest) (authority : AttachmentAuthority) (now : Z) : Tx (list Z * list Z * bool) :=
  lift (VerifyPermit permit authority now);;
  lift (VerifyAttachmentOperationAdmission operation permit authority route request now);;
  rawPermit ← lift (EncodePermit permit);
  issuedPermit permit rawPermit;;
  existing ← reads (redeemedAs permit operation);
  match existing with
  | Some row =>
      must (sameOperation row operation) "changed v3 operation replay";;
      found ← loadDownloadCiphertextTx (p_TransferID permit) (r_ChunkIndex route);
      mret (found.1, rd_result row, true)
  | None =>
      transfer ← transferIn permit (fun s => isStatus s transferTransferring) 1 "v3 transfer cannot download";
      spec ← loadedSpec (p_TransferID permit) "unknown v3 source ledger admission";
      must (eqb (ss_ManifestCommitment spec) (p_StagedManifestCommitment permit))
        "unknown v3 source ledger admission";;
      found ← loadDownloadCiphertextTx (p_TransferID permit) (r_ChunkIndex route);
      admitLedgerOperationTx spec maxOperationResultBytes now;;
      freshIdempotency permit operation;;
      let used := len found.1 in
      withinPermit permit used 1;;
      received ← reads (fun d => receipts d !! (p_TransferID permit, 1, r_ChunkIndex route));
      match received with
      | Some commitment => must (eqb commitment found.2) "v3 receipt commitment replacement"
      | None => insertRow receipts set_receipts (p_TransferID permit, 1, r_ChunkIndex route) found.2
                  "constraint v3_receipt_chunks"
      end;;
      let result := resultOf permit transferTransferring 1 (tr_expires transfer) in
      must (len result <=? maxOperationResultBytes) "invalid v3 download result";;
      recordOperation permit operation used 1 result;;
      mret (found.1, result, false)
  end.

Definition receivedChunks (id : list Z) (d : SourceDb) : Z :=
  mcount (fun k _ => eqb k.1.1 id && (k.1.2 =? 1)) (receipts d).

(** A stored chunk without a receipt of the same commitment. *)
Definition unreceived (id : list Z) (d : SourceDb) (k : list Z * Z) (row : ChunkRow) : bool :=
  eqb k.1 id && negb (bool_decide (receipts d !! (id, 1, k.2) = Some (ch_commitment row))).

Definition completeMutation (permit : Permit) : Tx (list Z) :=
  row ← transferIn permit (fun s => isStatus s transferTransferring) 1 "v3 transfer cannot complete";
  spec ← loadedSpec (p_TransferID permit) "missing v3 completion source";
  must (eqb (ss_ManifestCommitment spec) (p_StagedManifestCommitment permit)) "missing v3 completion source";;
  received ← reads (receivedChunks (p_TransferID permit));
  must (received =? ss_ChunkCount spec) "incomplete v3 receipt";;
  mismatch ← reads (fun d => mexists (unreceived (p_TransferID permit) d) (chunks d));
  must (negb mismatch) "invalid v3 receipt commitment";;
  setStatus (p_TransferID permit) row transferCompleted 1;;
  mret (resultOf permit transferCompleted 1 (tr_expires row)).

Definition redeemComplete (permit : Permit) (operation : OperationRecord) (route : AttachmentRoute)
    (request : OperationRequest) (authority : AttachmentAuthority) (now : Z) : Tx (list Z * bool) :=
  redeemPermitOperation permit operation route request authority now (completeMutation permit).

(** *** [source_init_ledger.go] *)
Definition redeemSourceInit (permit : Permit) (operation : OperationRecord) (route : AttachmentRoute)
    (request : OperationRequest) (authority : AttachmentAuthority) (now : Z) : Tx (list Z * bool) :=
  must (p_Operation permit =? permitOperationSourceInit) "invalid v3 source-init redemption";;
  source ← lift (DecodeAndVerifySourceInit (w_body request) authority now);
  lift (VerifyPermit permit authority now);;
  lift (VerifyAttachmentOperationRequest operation permit authority route request now);;
  must (eqb (m_TransferID (v_manifest source)) (p_TransferID permit)
        && eqb (v_commitment source) (p_StagedManifestCommitment permit))
    "source-init verified source does not match permit";;
  rawPermit ← lift (EncodePermit permit);
  permitExpiry ← lift (unixSeconds (p_ExpiresAt permit));
  sourceExpiry ← lift (unixSeconds (m_ExpiresAt (v_manifest source)));
  let unknown := "unknown or mismatched v3 source-init permit issuance" in
  journal ← fetch (requestOfSerial (p_Serial permit)) unknown;
  must (eqb (rq_permit journal) rawPermit) unknown;;
  stored ← reads (fun d => issued d !! p_Serial permit);
  match stored with
  | Some row =>
      must (eqb (is_permit row) rawPermit) "changed v3 source-init permit serial";;
      (* sourceInitReplayTx *)
      existing ← fetch (redeemedAs permit operation) "unknown v3 source-init operation";
      must (sameOperation existing operation) "changed v3 source-init replay";;
      mret (rd_result existing, true)
  | None =>
      insertRow fences set_fences (p_Serial permit)
        {| fe_transfer := p_TransferID permit; fe_commitment := p_StagedManifestCommitment permit;
           fe_state := FenceCommitting |} "v3 source-init is fenced";;
      created ← initializeTx source now;
      must created "v3 source-init already exists";;
      spec ← lift (sourceSpecOf source);
      admitLedgerOperationTx spec maxOperationResultBytes now;;
      absent issued (fun row => eqb (is_permit row) rawPermit) "constraint v3_issued_permits";;
      insertRow issued set_issued (p_Serial permit)
        {| is_permit := rawPermit; is_transfer := p_TransferID permit;
           is_commitment := p_StagedManifestCommitment permit; is_expires := p_ExpiresAt permit;
           is_retain := retainFrom now permitExpiry |} "constraint v3_issued_permits";;
      let result := resultOf permit transferSourceUploading 0 sourceExpiry in
      recordOperation permit operation 0 0 result;;
      mret (result, false)
  end.

(** *** [outcome_store.go] *)
Definition resultOfSerial (serial : list Z) (d : SourceDb) : option (list Z) :=
  (fun kv => rd_result kv.2) <$> head (filter (fun kv => kv.1.1 = serial) (map_to_list (redeemed d))).

(** The answer, with [sourceExists], [admitted] and [knownOriginal]. *)
Definition outcomeAnswer (permit original : Permit) (now : Z) : Tx (list Z * bool * bool * bool) :=
  known ← reads (resultOfSerial (p_Serial original));
  present ← reads (transferOf (p_TransferID permit) (p_StagedManifestCommitment permit));
  match known with
  | Some result =>
      decoded ← orElse (lift (DecodeTransferResult result)) "invalid v3 outcome origin result";
      must (eqb (x_TransferID decoded) (p_TransferID permit)
            && eqb (x_ManifestCommitment decoded) (p_StagedManifestCommitment permit))
        "invalid v3 outcome origin result";;
      mret (result, bool_decide (is_Some present), false, true)
  | None =>
      match present with
      | Some row =>
          if terminal (tr_status row)
          then mret (resultOf permit (tr_status row) (tr_attempt row) (tr_expires row), true, false, false)
          else
            let cannot := "cannot terminalize unknown v3 outcome" in
            spec ← loadedSpec (p_TransferID permit) cannot;
            must (eqb (ss_ManifestCommitment spec) (p_StagedManifestCommitment permit)) cannot;;
            orElse (admitLedgerOperationTx spec maxOperationResultBytes now) cannot;;
            orElse (terminalizeSourceTx spec now) cannot;;
            mret (resultOf permit transferCancelled (tr_attempt row) (ss_ExpiresAt spec), true, true, false)
      | None =>
          must (p_Operation original =? permitOperationSourceInit) "unknown v3 transfer outcome";;
          fence ← reads (fun d => fences d !! p_Serial original);
          (match fence with
           | Some _ => mret tt
           | None => insertRow fences set_fences (p_Serial original)
                       {| fe_transfer := p_TransferID permit; fe_commitment := p_StagedManifestCommitment permit;
                          fe_state := FenceTerminal |} "constraint v3_source_init_fences"
           end);;
          let inconsistent := "inconsistent v3 source-init fence" in
          fence ← fetch (fun d => fences d !! p_Serial original) inconsistent;
          must (eqb (fe_transfer fence) (p_TransferID permit)
                && eqb (fe_commitment fence) (p_StagedManifestCommitment permit)
                && bool_decide (fe_state fence = FenceTerminal)) inconsistent;;
          expires ← lift (unixSeconds (p_ExpiresAt original));
          mret (resultOf permit transferCancelled 0 expires, false, false, false)
      end
  end.

Definition redeemOutcome (permit : Permit) (operation : OperationRecord) (route : AttachmentRoute)
    (request : OperationRequest) (authority : AttachmentAuthority) (now : Z) : Tx (list Z * bool) :=
  must ((p_Operation permit =? permitOperationOutcome) && (r_Operation route =? permitOperationOutcome))
    "invalid v3 outcome redemption";;
  lift (VerifyPermit permit authority now);;
  lift (VerifyAttachmentOperationRequest operation permit authority route request now);;
  rawPermit ← lift (EncodePermit permit);
  let unknown := "unknown or mismatched v3 issued outcome permit" in
  row ← fetch (fun d => issued d !! p_Serial permit) unknown;
  must (eqb (is_permit row) rawPermit) unknown;;
  existing ← reads (redeemedAs permit operation);
  match existing with
  | Some row =>
      must (sameOperation row operation) "changed v3 outcome replay";;
      mret (rd_result row, true)
  | None =>
      original ← outcomeOriginPermitTx permit now;
      answer ← outcomeAnswer permit original now;
      let '(result, sourceExists, admitted, knownOriginal) := answer in
      (if sourceExists && negb admitted then
         let cannot := "cannot admit v3 outcome operation" in
         found ← orElse (loadSpecTx (p_TransferID permit)) cannot;
         match found with
         | Some spec =>
             must (eqb (ss_ManifestCommitment spec) (p_StagedManifestCommitment permit)) cannot;;
             orElse (admitLedgerOperationTx spec maxOperationResultBytes now) cannot
         | None => must knownOriginal cannot
         end
       else mret tt);;
      recordOperation permit operation 0 0 result;;
      mret (result, false)
  end.

(** *** The dispatch of [http.go], once the request is authenticated *)
Definition redeem (permit : Permit) (operation : OperationRecord) (route : AttachmentRoute)
    (request : OperationRequest) (authority : AttachmentAuthority) (now : Z) : Tx (list Z) :=
  let plain (m : Tx (list Z * bool)) : Tx (list Z) := answer ← m; mret answer.1 in
  let op := r_Operation route in
  if op =? permitOperationSourceInit then plain (redeemSourceInit permit operation route request authority now)
  else if op =? permitOperationSourceUpload then plain (redeemUpload permit operation route request authority now)
  else if op =? permitOperationOffer then plain (redeemOffer permit operation route request authority now)
  else if op =? permitOperationAccept then plain (redeemAccept permit operation route request authority now)
  else if op =? permitOperationBegin then plain (redeemBegin permit operation route request authority now)
  else if op =? permitOperationDownload then
    answer ← redeemDownload permit operation route request authority now; mret answer.1.1
  else if op =? permitOperationComplete then plain (redeemComplete permit operation route request authority now)
  else if op =? permitOperationCancel then plain (redeemCancel permit operation route request authority now)
  else if op =? permitOperationOutcome then plain (redeemOutcome permit operation route request authority now)
  else fails "not found".

(** A request admitted by [http.go]: the route and the operation request are
    derived from the method, the path and the body. *)
Definition serveRoute (method path : string) (body : list Z) (permit : Permit) (operation : OperationRecord)
    (authority : AttachmentAuthority) (now : Z) : Tx (list Z) :=
  routed ← lift (NewAttachmentOperationRequest method path body []);
  redeem permit operation routed.1 routed.2 authority now.

Definition maxAttachmentHTTPBody : Z := Z.shiftl 256 10 + 16.

(** [base64.RawURLEncoding.EncodedLen] *)
Definition encodedLen (n : Z) : Z := (n * 8 + 5) / 6.
Definition decodeAttachmentHeader (values : list string) (maximum : Z) : Res (list Z) :=
  let invalid := "invalid v3 attachment credential" in
  match values with
  | [value] =>
      guard_ ((0 <? goLen value) && (goLen value <=? encodedLen maximum)) invalid;;
      raw ← need (Base64.DecodeString value) invalid;
      guard_ ((0 <? len raw) && (len raw <=? maximum) && bool_decide (Base64.EncodeToString raw = value)) invalid;;
      mret raw
  | _ => inl invalid
  end.
Definition decodeAttachmentCredentials (permits operations : list string) : Res (Permit * OperationRecord) :=
  p ← decodeAttachmentHeader permits maxPermitEncodedBytes;
  o ← decodeAttachmentHeader operations maxOperationEncodedBytes;
  permit ← DecodePermit p;
  operation ← DecodeOperation o;
  mret (permit, operation).

(** What [ServeHTTP] reads of a request; [h_Body] is [None] when reading fails. *)
Record HttpRequest := {
  h_Method : string;
  h_Path : string;
  h_RawQuery : string;
  h_Fragment : string;
  h_RawPath : string;
  h_EscapedPath : string;
  h_ContentEncoding : list string;
  h_ContentLength : Z;
  h_Body : option (list Z);
  h_Permit : list string;
  h_Operation : list string;
}.

Definition literalURL (r : HttpRequest) : bool :=
  bool_decide (h_RawQuery r = "") && bool_decide (h_Fragment r = "") && bool_decide (h_RawPath r = "")
  && bool_decide (h_EscapedPath r = h_Path r) && bool_decide (h_ContentEncoding r = []).

Definition readAttachmentHTTPBody (r : HttpRequest) : option (list Z) :=
  if maxAttachmentHTTPBody <? h_ContentLength r then None else
  body ← h_Body r;
  if maxAttachmentHTTPBody <? len body then None else Some body.

(** The status and the body of the response.  [authorize] binds the permit's
    holder to the authenticated machine, [resolve] fetches the directory. *)
Definition ServeHTTP (authorize : Permit -> bool) (resolve : Z -> option AttachmentAuthority) (now : Z)
    (r : HttpRequest) (d : SourceDb) : Z * list Z * SourceDb :=
  if negb (literalURL r) then (400, [], d) else
  match ParseAttachmentRoute (h_Method r) (h_Path r) with
  | None => (404, [], d)
  | Some route =>
  match readAttachmentHTTPBody r with
  | None => (413, [], d)
  | Some body =>
  match decodeAttachmentCredentials (h_Permit r) (h_Operation r) with
  | inl _ => (401, [], d)
  | inr (permit, operation) =>
  if negb (succeeds (VerifyAttachmentRoute route permit)) then (401, [], d) else
  if negb (authorize permit) then (403, [], d) else
  match resolve now with
  | None => (403, [], d)
  | Some authority =>
  match NewAttachmentOperationRequest (h_Method r) (h_Path r) body [] with
  | inl _ => (400, [], d)
  | inr (_, request) =>
      match redeem permit operation route request authority now d with
      | inl _ => (403, [], d)
      | inr (payload, d1) => (200, payload, d1)
      end
  end end end end end.

(** ** Reopening ([reconcileLedgerAdmission]) *)

(** The transfers with redeemed operations: GROUP BY transfer, commitment. *)
Record Recovered := { rc_transfer : list Z; rc_commitment : list Z; rc_operations : Z; rc_retain : Z }.

Definition operationsOf (id commitment : list Z) (d : SourceDb) : Z :=
  mcount (fun k _ => match issued d !! k.1 with
                     | Some row => eqb (is_transfer row) id && eqb (is_commitment row) commitment
                     | None => false
                     end) (redeemed d).
Definition retainOf (id commitment : list Z) (d : SourceDb) : Z :=
  foldr Z.max 0 (omap (fun kv => if eqb (is_transfer kv.2) id && eqb (is_commitment kv.2) commitment
                                    && (0 <? usedOperations kv.1 d) then Some (is_retain kv.2) else None)
                      (map_to_list (issued d))).
Definition recoveredRows (d : SourceDb) : list Recovered :=
  (fun g => {| rc_transfer := g.1; rc_commitment := g.2; rc_operations := operationsOf g.1 g.2 d;
               rc_retain := retainOf g.1 g.2 d |})
  <$> remove_dups (omap (fun kv => row ← issued d !! kv.1.1; Some (is_transfer row, is_commitment row))
                        (map_to_list (redeemed d))).

Definition reconciled (d : SourceDb) (item : Recovered) : Res unit :=
  row ← need (ledger d !! rc_transfer item) "incomplete v3 ledger admission state";
  guard_ (eqb (lg_commitment row) (rc_commitment item) && (lg_operations row =? rc_operations item)
          && (lg_bytes row =? rc_operations item * maxOperationResultBytes)
          && (rc_retain item <=? lg_retain row)) "incomplete v3 ledger admission state";;
  match specs d !! rc_transfer item with
  | Some spec =>
      guard_ (negb (eqb (sp_commitment spec) (rc_commitment item))
              || negb ((4096 <? sp_chunkCount spec) || (sp_chunkCount spec + 16 <? lg_operations row)))
        "invalid v3 ledger admission state"
  | None => mret tt
  end.

Definition backfill (item : Recovered) : Tx unit :=
  let unreconcilable := "unreconcilable v3 ledger state" in
  spec ← loadedSpec (rc_transfer item) unreconcilable;
  must (eqb (ss_ManifestCommitment spec) (rc_commitment item)
        && (rc_operations item <=? ss_ChunkCount spec + 16)) unreconcilable;;
  insertRow ledger set_ledger (rc_transfer item)
    {| lg_commitment := rc_commitment item; lg_operations := rc_operations item;
       lg_bytes := rc_operations item * maxOperationResultBytes; lg_retain := rc_retain item |}
    "constraint v3_ledger_admission".

Definition reconcileLedgerAdmission : Tx unit := fun d =>
  let items := recoveredRows d in
  if bool_decide (ledger d = ∅) then each items backfill d
  else if negb (Z.of_nat (size (ledger d)) =? Z.of_nat (length items))
  then inl "incomplete v3 ledger admission state"
  else (_ ← mapM (reconciled d) items; inr (tt, d)).

(** The checks of [openSourceStore] on an existing database of this schema. *)
Definition openSourceStore : Tx unit :=
  must (limits_valid limits) "invalid source limits";;
  verifyTrackedSources;;
  reconcileLedgerAdmission.
End Store.
