(* ===== verification/SourceInv.v ===== *)
(** * What holds of every attachment store

    [Staged] relates the tables of staged sources: specifications, lifecycle
    rows, chunks, quota counters, offers and receipts.  This file gives the
    effect of each primitive transaction, shows that it keeps [Staged], and
    that every change of a transfer is a [transition] of [transfer.go]. *)

From S2P Require Import Prelude GoTime Text Sha256 Attachment SourceStore.
Open Scope Z_scope.

#[global] Arguments DecodeManifest : simpl never.
#[global] Arguments validateManifest : simpl never.
#[global] Arguments DecodePermit : simpl never.
#[global] Arguments EncodePermit : simpl never.
#[global] Arguments validatePermit : simpl never.
#[global] Arguments consistentStoredSpec : simpl never.
#[global] Arguments expectedCiphertextLength : simpl never.
#[global] Arguments ciphertextCommitment : simpl never.
#[global] Arguments tracked : simpl never.
#[global] Arguments validTransferRecord : simpl never.

(** ** Reading a successful transaction backwards *)
Section Inversion.
Context {A B : Type}.
Implicit Types (d : SourceDb).

Lemma bind_inr (m : Tx A) (k : A -> Tx B) d r :
  (m ≫= k) d = inr r <-> exists a d1, m d = inr (a, d1) /\ k a d1 = inr r.
Proof.
  unfold mbind, Tx_bind. destruct (m d) as [e|[a d1]]; split.
  - done.
  - intros (a & d1 & [=] & _).
  - intros Hk. by exists a, d1.
  - intros (a' & d1' & [= <- <-] & Hk). done.
Qed.
Lemma res_bind_inr (m : Res A) (k : A -> Res B) r :
  (m ≫= k) = inr r <-> exists a, m = inr a /\ k a = inr r.
Proof.
  unfold mbind, Res_bind. destruct m as [e|a]; split; try done.
  - intros (a & [=] & _).
  - intros Hk. by exists a.
  - intros (a' & [= <-] & Hk). done.
Qed.
Lemma ret_inr (a : A) d r : (mret a : Tx A) d = inr r <-> r = (a, d).
Proof. unfold mret, Tx_ret. split; [by intros [= <-]|by intros ->]. Qed.
Lemma res_ret_inr (a r : A) : (mret a : Res A) = inr r <-> r = a.
Proof. unfold mret, Res_ret. split; [by intros [= <-]|by intros ->]. Qed.
Lemma guard_inr b msg r : guard_ b msg = inr r <-> b = true.
Proof. destruct b, r; simpl; split; done. Qed.
Lemma need_inr (o : option A) msg a : need o msg = inr a <-> o = Some a.
Proof. destruct o; simpl; split; congruence. Qed.
Lemma lift_inr (m : Res A) d r : lift m d = inr r <-> exists a, m = inr a /\ r = (a, d).
Proof.
  unfold lift. destruct m as [e|a]; split.
  - done.
  - by intros (a & [=] & _).
  - intros [= <-]. by exists a.
  - by intros (a' & [= <-] & ->).
Qed.
Lemma reads_inr (f : SourceDb -> A) d r : reads f d = inr r <-> r = (f d, d).
Proof. unfold reads. split; [by intros [= <-]|by intros ->]. Qed.
Lemma fetch_inr (f : SourceDb -> option A) msg d r :
  fetch f msg d = inr r <-> exists a, f d = Some a /\ r = (a, d).
Proof.
  unfold fetch. destruct (f d) as [a|]; split.
  - intros [= <-]. by exists a.
  - by intros (a' & [= <-] & ->).
  - done.
  - by intros (a & [=] & _).
Qed.
Lemma writes_inr f d r : writes f d = inr r <-> r = (tt, f d).
Proof. unfold writes. split; [by intros [= <-]|by intros ->]. Qed.
Lemma orElse_inr (m : Tx A) msg d r : orElse m msg d = inr r <-> m d = inr r.
Proof. unfold orElse. destruct (m d); split; congruence. Qed.
End Inversion.

Lemma must_inr b msg d r : must b msg d = inr r <-> b = true /\ r = (tt, d).
Proof.
  unfold must. rewrite lift_inr. split.
  - intros ([] & Hb & ->). by rewrite guard_inr in Hb.
  - intros [Hb ->]. exists tt. by rewrite guard_inr.
Qed.

Lemma insertRow_inr {K V} `{Countable K} get set_ (k : K) (v : V) msg d r :
  insertRow get set_ k v msg d = inr r <-> get d !! k = None /\ r = (tt, set_ (<[k:=v]> (get d)) d).
Proof.
  unfold insertRow. destruct (get d !! k); split.
  - done.
  - by intros [[=] _].
  - by intros [= <-].
  - by intros [_ ->].
Qed.
Lemma absent_inr {K V} `{Countable K} (get : SourceDb -> gmap K V) p msg d r :
  absent get p msg d = inr r <-> (forall k v, get d !! k = Some v -> p v = false) /\ r = (tt, d).
Proof.
  unfold absent. rewrite <-(mexists_false (fun _ v => p v)).
  destruct (mexists _ _); split; try done.
  - by intros [[=] _].
  - by intros [= <-].
  - by intros [_ ->].
Qed.

Lemma eqb_true a b : eqb a b = true <-> a = b.
Proof. apply bool_decide_eq_true. Qed.
Lemma eqb_false a b : eqb a b = false <-> a <> b.
Proof. apply bool_decide_eq_false. Qed.
Lemma eqb_refl a : eqb a a = true.
Proof. by apply eqb_true. Qed.
Lemma isStatus_true a b : isStatus a b = true <-> a = b.
Proof. apply bool_decide_eq_true. Qed.
Lemma succeeds_true {A} (r : Res A) : succeeds r = true <-> exists a, r = inr a.
Proof. destruct r; simpl; split; [done|by intros (a & [=])|by eexists|done]. Qed.

(** [txinv H] takes a successful transaction apart. *)
Ltac txprim H :=
  lazymatch type of H with
  | must _ _ _ = inr _ => apply must_inr in H as [H ?]
  | lift _ _ = inr _ => let a := fresh "a" in let Ha := fresh "Hl" in apply lift_inr in H as (a & Ha & H)
  | reads _ _ = inr _ => apply reads_inr in H
  | fetch _ _ _ = inr _ => let a := fresh "row" in let Ha := fresh "Hf" in apply fetch_inr in H as (a & Ha & H)
  | writes _ _ = inr _ => apply writes_inr in H
  | insertRow _ _ _ _ _ _ = inr _ => let Ha := fresh "Hnew" in apply insertRow_inr in H as [Ha H]
  | absent _ _ _ _ = inr _ => let Ha := fresh "Habs" in apply absent_inr in H as [Ha H]
  | mret _ _ = inr _ => apply ret_inr in H
  | fails _ _ = inr _ => discriminate H
  | orElse _ _ _ = inr _ => apply orElse_inr in H; txprim H
  | _ => idtac
  end.
Ltac txclean :=
  repeat match goal with
  | H : (_, _) = (_, _) |- _ => injection H; clear H; intros; subst
  end.
Ltac txinv H :=
  lazymatch type of H with
  | mbind _ _ _ = inr _ =>
      let a := fresh "x" in let d1 := fresh "d1" in let H1 := fresh "Hs" in
      apply bind_inr in H as (a & d1 & H1 & H);
      txinv H1; txclean; cbn beta iota in H; txinv H
  | _ => txprim H; txclean
  end.
Ltac resinv H :=
  lazymatch type of H with
  | mbind _ _ = inr _ =>
      let a := fresh "x" in let H1 := fresh "Hs" in
      apply res_bind_inr in H as (a & H1 & H); cbn beta iota in H; resinv H1; resinv H
  | guard_ _ _ = inr _ => apply guard_inr in H
  | need _ _ = inr _ => apply need_inr in H
  | mret _ = inr _ => apply (proj1 (res_ret_inr _ _)) in H; subst
  | _ => idtac
  end.
(** Facts from boolean tests, with the tests of this development. *)
Ltac tests :=
  repeat (bool_hyps; match goal with
  | H : eqb _ _ = true |- _ => apply eqb_true in H
  | H : eqb _ _ = false |- _ => apply eqb_false in H
  | H : isStatus _ _ = true |- _ => apply isStatus_true in H
  | H : isZero16 _ = false |- _ => unfold isZero16 in H
  | H : isZero32 _ = false |- _ => unfold isZero32 in H
  | H : succeeds _ = true |- _ => apply succeeds_true in H as [? H]
  end); bool_hyps.

(** ** Running a transaction forwards *)
Section Forwards.
Implicit Types (d : SourceDb).
Lemma go_lift {A B} (r : Res A) a (k : A -> Tx B) d : r = inr a -> (lift r ≫= k) d = k a d.
Proof. by intros ->. Qed.
Lemma go_must {B} b msg (k : unit -> Tx B) d : b = true -> (must b msg ≫= k) d = k tt d.
Proof. by intros ->. Qed.
Lemma go_reads {A B} (f : SourceDb -> A) (k : A -> Tx B) d : (reads f ≫= k) d = k (f d) d.
Proof. done. Qed.
Lemma go_fetch {A B} (f : SourceDb -> option A) a msg (k : A -> Tx B) d : f d = Some a -> (fetch f msg ≫= k) d = k a d.
Proof. unfold mbind, Tx_bind, fetch. by intros ->. Qed.
Lemma go_bind {A B} (m : Tx A) (k : A -> Tx B) d a d1 : m d = inr (a, d1) -> (m ≫= k) d = k a d1.
Proof. unfold mbind, Tx_bind. by intros ->. Qed.
Lemma go_orElse {A B} (m : Tx A) msg (k : A -> Tx B) d a d1 : m d = inr (a, d1) -> (orElse m msg ≫= k) d = k a d1.
Proof. unfold mbind, Tx_bind, orElse. by intros ->. Qed.
Lemma bind_same {A B} (m m' : Tx A) (k : A -> Tx B) d : m d = m' d -> (m ≫= k) d = (m' ≫= k) d.
Proof. unfold mbind, Tx_bind. by intros ->. Qed.
End Forwards.

(** ** Counting rows with consecutive indices *)
Lemma mcount_size {K V} `{Countable K} (p : K -> V -> bool) (m : gmap K V) :
  mcount p m = Z.of_nat (size (filter (fun kv => p kv.1 kv.2 = true) m)).
Proof.
  unfold mcount. induction m as [|k v m Hk IH] using map_ind; [done|].
  rewrite msum_insert_new by done. destruct (p k v) eqn:Hp.
  - rewrite map_filter_insert_True, map_size_insert_None by (try apply map_lookup_filter_None; auto).
    simpl. lia.
  - rewrite map_filter_insert_not' by (simpl; congruence). simpl. lia.
Qed.

Lemma msum_filter {K V} `{Countable K} (f : K -> V -> Z) (P : K * V -> Prop) `{forall x, Decision (P x)} (m : gmap K V) :
  (forall k v, m !! k = Some v -> ~ P (k, v) -> f k v = 0) -> msum f (filter P m) = msum f m.
Proof.
  induction m as [|k v m Hk IH] using map_ind; [done|]. intros Hz.
  assert (msum f (filter P m) = msum f m) as Hm.
  { apply IH. intros k' v' Hk'. apply Hz. rewrite lookup_insert_ne by congruence. done. }
  rewrite (msum_insert_new f m) by done. destruct (decide (P (k, v))) as [HP|HP].
  - rewrite map_filter_insert_True, msum_insert_new by (try apply map_lookup_filter_None; auto). lia.
  - rewrite map_filter_insert_not' by congruence. rewrite (Hz k v), Hm by (try apply lookup_insert_eq; done). lia.
Qed.

Section Range.
Context {K V : Type} `{Countable K}.
Variables (m : gmap K V) (p : K -> V -> bool) (f : Z -> K) (n : Z).
Context `{!Inj (=) (=) f}.
Hypothesis Hn : 0 <= n.
Hypothesis Hp : forall k v, m !! k = Some v -> p k v = true -> exists i, 0 <= i < n /\ k = f i.

Let counted : gset K := dom (filter (fun kv => p kv.1 kv.2 = true) m).
Let wanted : gset K := list_to_set (f <$> seqZ 0 n).

Lemma wanted_size : Z.of_nat (size wanted) = n.
Proof.
  unfold wanted. rewrite size_list_to_set.
  - rewrite length_fmap, length_seqZ. lia.
  - apply NoDup_fmap_2, NoDup_seqZ; apply _.
Qed.
Lemma counted_wanted : counted ⊆ wanted.
Proof.
  intros k Hk. unfold counted in Hk. apply elem_of_dom in Hk as [v Hv].
  apply map_lookup_filter_Some in Hv as [Hv Hpv]. destruct (Hp k v Hv Hpv) as (i & Hi & ->).
  unfold wanted. apply elem_of_list_to_set, list_elem_of_fmap. exists i. split; [done|]. apply elem_of_seqZ. lia.
Qed.

(** As many rows as indices: every index has one. *)
Lemma range_full : mcount p m = n -> forall i, 0 <= i < n -> exists v, m !! f i = Some v /\ p (f i) v = true.
Proof.
  intros Hc i Hi. rewrite mcount_size in Hc. pose proof wanted_size as Hw.
  assert (counted = wanted) as Heq.
  { apply leibniz_equiv, set_subseteq_size_equiv; [apply counted_wanted|].
    unfold counted. rewrite size_dom. lia. }
  assert (f i ∈ counted) as Hin.
  { rewrite Heq. unfold wanted. apply elem_of_list_to_set, list_elem_of_fmap.
    exists i. split; [done|]. apply elem_of_seqZ. lia. }
  unfold counted in Hin. apply elem_of_dom in Hin as [v Hv]. apply map_lookup_filter_Some in Hv as [Hv Hpv].
  by exists v.
Qed.
Lemma full_range : (forall i, 0 <= i < n -> exists v, m !! f i = Some v /\ p (f i) v = true) -> mcount p m = n.
Proof.
  intros Hall. rewrite mcount_size, <-size_dom. fold counted. rewrite <-wanted_size. f_equal.
  enough (counted = wanted) as -> by done. apply leibniz_equiv. intros k. split; [apply counted_wanted|].
  unfold wanted. rewrite elem_of_list_to_set, list_elem_of_fmap. intros (i & -> & Hi).
  apply elem_of_seqZ in Hi. destruct (Hall i) as (v & Hv & Hpv); [lia|].
  unfold counted. apply elem_of_dom. exists v. by apply map_lookup_filter_Some.
Qed.
End Range.

(** ** Manifests that decode *)
Section Staged.
Context `{Laws : V3Laws}.
Variable limits : sourceLimits.
Implicit Types (d : SourceDb).

Lemma intOf_range m k n : intOf m k = Some n -> 0 <= n <= MaxUint64.
Proof.
  unfold intOf, MaxUint64. destruct (fieldOf m k) as [[v|b]|]; [|done|intros [= <-]; lia].
  destruct (_ && _) eqn:Hr; [|done]. intros [= <-]. tests. unfold MaxUint64 in *. lia.
Qed.

(** What decoding a manifest establishes of its geometry. *)
Definition sized (m : Manifest) : Prop :=
  1 <= m_ChunkSize m <= 262144 /\ 1 <= m_ChunkCount m <= 4096 /\ 0 <= m_PlaintextSize m <= 67108864
  /\ m_ChunkSize m * (m_ChunkCount m - 1) <= m_PlaintextSize m <= m_ChunkSize m * m_ChunkCount m.

Lemma manifest_sized m : validateManifest m = inr tt ->
  0 <= m_ChunkSize m -> 0 <= m_ChunkCount m -> 0 <= m_PlaintextSize m -> sized m.
Proof.
  unfold validateManifest, sized. intros Hv Hs Hc Hp. resinv Hv. tests.
  change (Z.shiftl 256 10) with 262144 in *. change (Z.shiftl 64 20) with 67108864 in *.
  destruct ((m_PlaintextSize m =? 0) && (m_ChunkCount m =? 1)) eqn:Hz; tests; [repeat split; nia|].
  resinv Hv. tests. repeat split; nia.
Qed.

Lemma manifestOf_nonneg c m : manifestOf c = Some m ->
  0 <= m_ChunkSize m /\ 0 <= m_ChunkCount m /\ 0 <= m_PlaintextSize m.
Proof.
  unfold manifestOf. intros Hm.
  repeat match type of Hm with
  | mbind _ _ = Some _ => let a := fresh "a" in let Ha := fresh "Ha" in
      apply bind_Some in Hm as (a & Ha & Hm); try apply intOf_range in Ha
  end.
  destruct (_ && _) in Hm; [|done]. injection Hm as <-. simpl. lia.
Qed.

Lemma decoded_manifest raw m : DecodeManifest raw = inr m ->
  validateManifest m = inr tt /\ sized m /\ raw = cbor_Marshal (manifestWire m).
Proof.
  unfold DecodeManifest, EncodeManifest. intros Hd.
  apply res_bind_inr in Hd as ([] & _ & Hd). apply res_bind_inr in Hd as (m' & Hm & Hd).
  apply need_inr, bind_Some in Hm as (c & _ & Hc). apply manifestOf_nonneg in Hc as (? & ? & ?).
  apply res_bind_inr in Hd as ([] & Hv & Hd). apply res_bind_inr in Hd as (canonical & Hcan & Hd).
  apply res_bind_inr in Hcan as ([] & _ & Hcan). apply (proj1 (res_ret_inr _ _)) in Hcan as ->.
  apply res_bind_inr in Hd as ([] & Heq & Hd). apply guard_inr, eqb_true in Heq as ->.
  apply (proj1 (res_ret_inr _ _)) in Hd as ->. split; [done|]. split; [by apply manifest_sized|done].
Qed.

Lemma consistent_spec spec : consistentStoredSpec spec = true ->
  exists m, DecodeManifest (ss_Manifest spec) = inr m /\ sized m /\ validateManifest m = inr tt
    /\ ss_ManifestCommitment spec = blake3_Sum256 (ss_Manifest spec)
    /\ m_TransferID m = ss_TransferID spec /\ m_ChunkSize m = ss_ChunkSize spec
    /\ m_ChunkCount m = ss_ChunkCount spec /\ m_PlaintextSize m = ss_PlaintextSize spec
    /\ m_ExpiresAt m = ss_ExpiresAt spec.
Proof.
  unfold consistentStoredSpec. destruct (DecodeManifest _) as [|m] eqn:Hm; [done|]. intros Hc. tests.
  apply decoded_manifest in Hm as (Hv & Hsz & _). exists m. done.
Qed.

Lemma usage_consistent spec : consistentStoredSpec spec = true ->
  sourceUsage spec = inr (ss_PlaintextSize spec + 16 * ss_ChunkCount spec, ss_ChunkCount spec).
Proof.
  intros (m & _ & (? & ? & ? & ?) & _ & _ & _ & _ & Hc & Hp & _)%consistent_spec.
  unfold sourceUsage, wrapu64, MaxUint64, MaxInt64, int64_max.
  rewrite !Z.mod_small by lia.
  rewrite (proj2 (Z.leb_le (ss_ChunkCount spec) _)) by (apply Z.div_le_lower_bound; lia).
  by rewrite (proj2 (Z.leb_le (_ + _) _)) by lia.
Qed.

(** ** Quota counters *)
Definition manifestKeys (manifest : list Z) : list quotaKey :=
  match DecodeManifest manifest with inr m => quotaKeysOf m | inl _ => [] end.
Definition rowBytes (row : SpecRow) : Z := sp_plaintextSize row + 16 * sp_chunkCount row.
Definition charged (key : quotaKey) (f : SpecRow -> Z) (m : gmap (list Z) SpecRow) : Z :=
  msum (fun _ row => if bool_decide (key ∈ manifestKeys (sp_manifest row)) then f row else 0) m.
(** What the live sources charge to a scope. *)
Definition usage (key : quotaKey) (m : gmap (list Z) SpecRow) : QuotaRow :=
  {| qr_bytes := charged key rowBytes m; qr_chunks := charged key sp_chunkCount m;
     qr_transfers := charged key (fun _ => 1) m |}.
Definition counter (key : quotaKey) d : QuotaRow := default noQuota (quota d !! key).

Definition addUsage (bytes chunks transfers : Z) (q : QuotaRow) : QuotaRow :=
  {| qr_bytes := qr_bytes q + bytes; qr_chunks := qr_chunks q + chunks;
     qr_transfers := qr_transfers q + transfers |}.

Lemma quotaKeys_NoDup m : NoDup (quotaKeysOf m).
Proof.
  unfold quotaKeysOf, scopeKey. repeat constructor; rewrite ?elem_of_cons, ?elem_of_nil;
    intros Hin; destruct_or?; simplify_eq.
Qed.

(** A loop over distinct scopes that updates each one's counter. *)
Lemma each_counter (one : quotaKey -> Tx unit) (g : QuotaRow -> QuotaRow) (P : quotaKey -> QuotaRow -> Prop) keys :
  (forall key d x d', one key d = inr (x, d') ->
     d' = set_quota (<[key := g (counter key d)]> (quota d)) d /\ P key (counter key d)) ->
  NoDup keys ->
  forall d x d', each keys one d = inr (x, d') ->
  exists q, d' = set_quota q d
    /\ (forall key, default noQuota (q !! key) = if bool_decide (key ∈ keys) then g (counter key d) else counter key d)
    /\ (forall key, key ∈ keys -> P key (counter key d)).
Proof.
  intros Hone. induction 1 as [|key keys Hkey _ IH]; intros d x d' He.
  - apply ret_inr in He. simplify_eq. exists (quota d). split; [by destruct d|].
    split; [|set_solver]. intros key. rewrite bool_decide_eq_false_2 by set_solver. done.
  - simpl in He. apply bind_inr in He as ([] & d1 & H1 & He).
    apply Hone in H1 as [-> HP]. apply IH in He as (q & -> & Hq & HPs).
    assert (forall k, k <> key ->
      counter k (set_quota (<[key := g (counter key d)]> (quota d)) d) = counter k d) as Hother.
    { intros k Hk. unfold counter. simpl. by rewrite lookup_insert_ne by congruence. }
    exists q. split; [done|]. split.
    + intros k. rewrite Hq. destruct (decide (k = key)) as [->|Hne].
      * rewrite (bool_decide_eq_false_2 (key ∈ keys)), (bool_decide_eq_true_2 (key ∈ key :: keys)) by set_solver.
        unfold counter. simpl. by rewrite lookup_insert_eq.
      * rewrite Hother by done. do 2 case_bool_decide; set_solver.
    + intros k [->|Hk]%elem_of_cons; [done|]. rewrite <-(Hother k); [by apply HPs|]. intros ->. done.
Qed.

(** Inserting and removing a source. *)
Lemma usage_insert key id row m : m !! id = None ->
  usage key (<[id := row]> m) =
  if bool_decide (key ∈ manifestKeys (sp_manifest row))
  then addUsage (rowBytes row) (sp_chunkCount row) 1 (usage key m) else usage key m.
Proof.
  intros Hid. unfold usage, charged. rewrite !msum_insert_new by done.
  case_bool_decide; unfold addUsage; simpl; f_equal; lia.
Qed.
Lemma usage_delete key id row m : m !! id = Some row ->
  usage key m =
  if bool_decide (key ∈ manifestKeys (sp_manifest row))
  then addUsage (rowBytes row) (sp_chunkCount row) 1 (usage key (delete id m)) else usage key (delete id m).
Proof.
  intros Hid. rewrite <-(insert_delete_id m id row Hid) at 1. apply usage_insert, lookup_delete_eq.
Qed.
Lemma usage_ready key id row row' m : m !! id = Some row ->
  sp_manifest row' = sp_manifest row -> sp_plaintextSize row' = sp_plaintextSize row ->
  sp_chunkCount row' = sp_chunkCount row -> usage key (<[id := row']> m) = usage key m.
Proof.
  intros Hid Hm Hp Hc. unfold usage, charged. rewrite !(msum_update _ _ _ _ _ Hid).
  rewrite Hm, Hc. unfold rowBytes. rewrite Hp, Hc. f_equal; lia.
Qed.

(** ** The invariant of staged sources *)
Definition recordOf (id : list Z) (t : TransferRow) : transferRecord :=
  {| x_TransferID := id; x_ManifestCommitment := tr_commitment t; x_Status := tr_status t;
     x_AttemptGeneration := tr_attempt t; x_ExpiresAt := tr_expires t |}.

Definition withinLimit (limit : quotaLimit) (q : QuotaRow) : Prop :=
  qr_bytes q <= ql_CiphertextBytes limit /\ qr_chunks q <= ql_Chunks limit /\ qr_transfers q <= ql_Transfers limit.

(** Where the lifecycle stands when the offer is visible. *)
Definition offered (o : OfferRow) (status : transferStatus) : Prop :=
  if of_consumed o then status = transferAccepted \/ status = transferTransferring \/ status = transferCompleted
  else status = transferOffered.
Definition receiving (status : transferStatus) : Prop :=
  status = transferTransferring \/ status = transferCompleted.

(** Every chunk of the source is stored, and every chunk has a receipt. *)
Definition allStored d (id : list Z) (row : SpecRow) : Prop :=
  forall i, 0 <= i < sp_chunkCount row -> is_Some (chunks d !! (id, i)).
Definition allReceived d (id : list Z) (row : SpecRow) : Prop :=
  forall i, 0 <= i < sp_chunkCount row -> exists c,
    chunks d !! (id, i) = Some c /\ receipts d !! (id, 1, i) = Some (ch_commitment c).

Record Staged d : Prop := {
  st_spec id row : specs d !! id = Some row -> consistentStoredSpec (rowSpec id row) = true;
  st_track id row : specs d !! id = Some row -> exists t, transfers d !! id = Some t
    /\ tr_commitment t = sp_commitment row /\ tr_expires t = sp_expires row
    /\ tracked (sp_ready row) (tr_status t) (tr_attempt t) = true;
  st_ended id t : transfers d !! id = Some t -> specs d !! id = None -> terminal (tr_status t) = true;
  st_ident id : tr_commitment <$> transfers d !! id = uniqueness d !! id;
  st_unique a b c : uniqueness d !! a = Some c -> uniqueness d !! b = Some c -> a = b;
  st_valid id t : transfers d !! id = Some t -> validTransferRecord (recordOf id t) = true;
  st_chunk id i c : chunks d !! (id, i) = Some c -> exists row, specs d !! id = Some row
    /\ 0 <= i < sp_chunkCount row /\ len (ch_ciphertext c) = expectedCiphertextLength (rowSpec id row) i
    /\ ch_commitment c = ciphertextCommitment (ch_ciphertext c);
  st_ready id row : specs d !! id = Some row -> sp_ready row = true <-> allStored d id row;
  st_quota (key : quotaKey) : counter key d = usage key (specs d);
  st_limit (key : quotaKey) : withinLimit (scopeLimit limits key.1) (counter key d) \/ counter key d = noQuota;
  st_offer id o : offers d !! id = Some o -> exists row t, specs d !! id = Some row
    /\ transfers d !! id = Some t /\ of_manifest o = sp_manifest row /\ offered o (tr_status t);
  st_receipt id g i c : receipts d !! (id, g, i) = Some c -> g = 1 /\ exists t ch,
    transfers d !! id = Some t /\ receiving (tr_status t) /\ chunks d !! (id, i) = Some ch
    /\ ch_commitment ch = c;
  st_completed id row t : specs d !! id = Some row -> transfers d !! id = Some t ->
    tr_status t = transferCompleted -> allReceived d id row;
}.

(** ** Creating a source *)
Definition genuine (source : VerifiedSource) : Prop :=
  DecodeManifest (v_raw source) = inr (v_manifest source).

Lemma reserveOne_effect bytes chunks key d x d' :
  reserveOne limits bytes chunks key d = inr (x, d') ->
  d' = set_quota (<[key := addUsage bytes chunks 1 (counter key d)]> (quota d)) d
  /\ withinLimit (scopeLimit limits key.1) (addUsage bytes chunks 1 (counter key d)).
Proof.
  unfold reserveOne. intros Hr. txinv Hr. split; [done|]. tests.
  unfold withinLimit, addUsage, counter. simpl. lia.
Qed.

Lemma each_admit keys d x d' : each keys (admitOne limits) d = inr (x, d') -> exists a, d' = set_admission a d.
Proof.
  revert d. induction keys as [|key keys IH]; intros d He; simpl in He; txinv He.
  - exists (admission d). by destruct d.
  - apply IH in He as [a ->].
    unfold admitOne in Hs. txinv Hs. by exists a.
Qed.

Lemma genuine_spec source spec now : genuine source -> source_valid source now = true ->
  sourceSpecOf source = inr spec ->
  consistentStoredSpec spec = true /\ 0 <= Unix now < ss_ExpiresAt spec
  /\ validTransferRecord (newTransferRecord (ss_TransferID spec) (ss_ManifestCommitment spec) (ss_ExpiresAt spec)) = true
  /\ ss_TransferID spec = m_TransferID (v_manifest source) /\ ss_ManifestCommitment spec = v_commitment source
  /\ ss_Manifest spec = v_raw source.
Proof.
  unfold genuine, source_valid, sourceSpecOf, unixSeconds, validateManifestTime. intros Hg Hv Hs. tests.
  resinv Hs. resinv H1. tests. simpl. unfold consistentStoredSpec. simpl.
  rewrite Hg.
  assert (validateManifest (v_manifest source) = inr tt) as Hm by (by destruct x0).
  unfold validTransferRecord. simpl.
  unfold validateManifest in Hm. resinv Hm. tests. clear Hm.
  rewrite !eqb_refl, !Z.eqb_refl. unfold isZero16, isZero32.
  repeat split; try lia; try (rewrite ?bool_decide_eq_false_2 by done; simpl);
    rewrite ?andb_true_iff, ?Z.leb_le, ?Z.ltb_lt; repeat split; try done; try lia.
  by apply eqb_true.
Qed.

Definition uploadingRow (spec : sourceSpec) : TransferRow :=
  {| tr_commitment := ss_ManifestCommitment spec; tr_status := transferSourceUploading; tr_attempt := 0;
     tr_expires := ss_ExpiresAt spec |}.

(** The database after a source is created: [q] and [a] are the new counters. *)
Definition created (spec : sourceSpec) (q : gmap quotaKey QuotaRow) (a : gmap quotaKey Z) d : SourceDb :=
  set_transfers (<[ss_TransferID spec := uploadingRow spec]> (transfers d))
    (set_specs (<[ss_TransferID spec := specRow spec false]> (specs d))
       (set_uniqueness (<[ss_TransferID spec := ss_ManifestCommitment spec]> (uniqueness d))
          (set_admission a (set_quota q d)))).

(** The facts a creation has checked and the counters it has written. *)
Record Creates (spec : sourceSpec) (now : Z) (q : gmap quotaKey QuotaRow) d : Prop := {
  cr_consistent : consistentStoredSpec spec = true;
  cr_time : 0 <= Unix now < ss_ExpiresAt spec;
  cr_valid : validTransferRecord (newTransferRecord (ss_TransferID spec) (ss_ManifestCommitment spec)
                                    (ss_ExpiresAt spec)) = true;
  cr_spec : specs d !! ss_TransferID spec = None;
  cr_transfer : transfers d !! ss_TransferID spec = None;
  cr_identity : uniqueness d !! ss_TransferID spec = None;
  cr_commitment k c : uniqueness d !! k = Some c -> c <> ss_ManifestCommitment spec;
  cr_counter (key : quotaKey) : default noQuota (q !! key) =
    if bool_decide (key ∈ manifestKeys (ss_Manifest spec))
    then addUsage (ss_PlaintextSize spec + 16 * ss_ChunkCount spec) (ss_ChunkCount spec) 1 (counter key d)
    else counter key d;
  cr_limit (key : quotaKey) : key ∈ manifestKeys (ss_Manifest spec) ->
    withinLimit (scopeLimit limits key.1) (default noQuota (q !! key));
}.

Lemma loadSpec_effect id d r d' : loadSpecTx id d = inr (r, d') ->
  d' = d /\ match r with
            | None => specs d !! id = None
            | Some spec => exists row, specs d !! id = Some row /\ spec = rowSpec id row
                             /\ consistentStoredSpec spec = true
            end.
Proof.
  unfold loadSpecTx. intros Hl. txinv Hl. destruct (specs d !! id) as [row|] eqn:Hrow; txinv Hl; split; eauto.
Qed.
Lemma loadedSpec_effect id msg d spec d' : loadedSpec id msg d = inr (spec, d') ->
  d' = d /\ exists row, specs d !! id = Some row /\ spec = rowSpec id row /\ consistentStoredSpec spec = true.
Proof.
  unfold loadedSpec. intros Hl. txinv Hl. apply need_inr in Hl0 as ->.
  apply loadSpec_effect in Hs as (-> & row & ? & ? & ?). split; [done|]. by exists row.
Qed.

Lemma verifyTracked_effect spec d x d' : verifyTrackedSourceTx spec d = inr (x, d') -> d' = d.
Proof. unfold verifyTrackedSourceTx. intros Hv. by txinv Hv. Qed.

Lemma keys_consistent spec : consistentStoredSpec spec = true ->
  sourceQuotaKeys spec = inr (manifestKeys (ss_Manifest spec)) /\ NoDup (manifestKeys (ss_Manifest spec)).
Proof.
  intros (m & Hm & _)%consistent_spec. unfold sourceQuotaKeys, manifestKeys. rewrite Hm.
  split; [done|apply quotaKeys_NoDup].
Qed.

Lemma reserve_effect spec d x d' : consistentStoredSpec spec = true -> reserveSourceTx limits spec d = inr (x, d') ->
  let bytes := ss_PlaintextSize spec + 16 * ss_ChunkCount spec in
  exists q, d' = set_quota q d
    /\ (forall key, default noQuota (q !! key) =
          if bool_decide (key ∈ manifestKeys (ss_Manifest spec))
          then addUsage bytes (ss_ChunkCount spec) 1 (counter key d) else counter key d)
    /\ (forall key, key ∈ manifestKeys (ss_Manifest spec) ->
          withinLimit (scopeLimit limits key.1) (addUsage bytes (ss_ChunkCount spec) 1 (counter key d))).
Proof.
  intros Hc Hres bytes. destruct (keys_consistent spec Hc) as [Hkeys Hnd]. unfold reserveSourceTx in Hres.
  rewrite (usage_consistent spec Hc), Hkeys in Hres. txinv Hres. injection Hl as <-. injection Hl0 as <-.
  exact (each_counter (reserveOne limits bytes (ss_ChunkCount spec)) _
    (fun key q => withinLimit (scopeLimit limits key.1) (addUsage bytes (ss_ChunkCount spec) 1 q)) _
    (reserveOne_effect _ _) Hnd _ _ _ Hres).
Qed.

Lemma initialize_effect source now d b d' : genuine source -> initializeTx limits source now d = inr (b, d') ->
  if b then exists spec q a, sourceSpecOf source = inr spec /\ d' = created spec q a d /\ Creates spec now q d
  else d' = d.
Proof.
  unfold initializeTx. intros Hg Hi. apply bind_inr in Hi as ([] & d0 & Hv & Hi). txinv Hv.
  apply bind_inr in Hi as (spec0 & d1 & Hspec & Hi). txinv Hspec. rename a into spec.
  apply bind_inr in Hi as (current & d1 & Hcur & Hi).
  apply loadSpec_effect in Hcur as [-> Hcur]. destruct current as [current|].
  { txinv Hi. by apply verifyTracked_effect in Hs0. }
  destruct (genuine_spec source spec now Hg Hv Hl) as (Hc & Htime & Hvalid & _).
  apply bind_inr in Hi as ([] & d1 & Hres & Hi).
  apply reserve_effect in Hres as (q & -> & Hq & Hlim); [|done].
  apply bind_inr in Hi as ([] & d1 & Hadm & Hi). unfold admitDurableSourceTx in Hadm. txinv Hadm.
  apply each_admit in Hadm as [adm ->]. txinv Hi. exists spec, q, adm. split; [done|]. split; [done|].
  split; try done.
  - intros k c Hk. apply Habs in Hk. apply eqb_false in Hk. congruence.
  - intros key Hin. rewrite Hq, bool_decide_eq_true_2 by done. by apply Hlim.
Qed.

Lemma rowSpec_specRow spec ready : rowSpec (ss_TransferID spec) (specRow spec ready) = spec.
Proof. by destruct spec. Qed.

(** A lookup in an updated table: the row just written, or an old one. *)
Ltac at_key H :=
  apply lookup_insert_Some in H as [[<- <-]|[? H]].

Lemma chunk_count spec : consistentStoredSpec spec = true -> 1 <= ss_ChunkCount spec <= 4096.
Proof. intros (m & _ & (_ & ? & _) & _ & _ & _ & _ & <- & _)%consistent_spec. lia. Qed.

Lemma allStored_frame d d' id row row' : chunks d' = chunks d -> sp_chunkCount row' = sp_chunkCount row ->
  allStored d' id row' <-> allStored d id row.
Proof. unfold allStored. by intros -> ->. Qed.

Theorem staged_created spec now q a d : Staged d -> Creates spec now q d -> Staged (created spec q a d).
Proof.
  intros HI HC. pose proof (cr_spec _ _ _ _ HC) as Hno. pose proof (cr_transfer _ _ _ _ HC) as Hnt.
  assert (forall i, chunks d !! (ss_TransferID spec, i) = None) as Hnc.
  { intros i. destruct (chunks d !! _) as [c|] eqn:Hc; [|done].
    apply (st_chunk _ HI) in Hc as (row & Hrow & _). congruence. }
  split; unfold created; simpl.
  - intros id row Hrow. at_key Hrow; [|by apply (st_spec _ HI)].
    rewrite rowSpec_specRow. apply (cr_consistent _ _ _ _ HC).
  - intros id row Hrow. at_key Hrow.
    + exists (uploadingRow spec). rewrite lookup_insert_eq. done.
    + rewrite lookup_insert_ne by done. by apply (st_track _ HI).
  - intros id t Ht Hspec. apply lookup_insert_None in Hspec as [Hspec Hne]. at_key Ht; [done|].
    by apply (st_ended _ HI id).
  - intros id. destruct (decide (id = ss_TransferID spec)) as [->|Hne].
    + by rewrite !lookup_insert_eq.
    + rewrite !lookup_insert_ne by done. apply (st_ident _ HI).
  - intros x y c Hx Hy. apply lookup_insert_Some in Hx as [[<- Hc]|[? Hx]];
      apply lookup_insert_Some in Hy as [[<- Hc']|[? Hy]]; [done| | |by apply (st_unique _ HI x y c)].
    + apply (cr_commitment _ _ _ _ HC) in Hy. congruence.
    + apply (cr_commitment _ _ _ _ HC) in Hx. congruence.
  - intros id t Ht. at_key Ht; [|by apply (st_valid _ HI)]. apply (cr_valid _ _ _ _ HC).
  - intros id i c Hc. destruct (st_chunk _ HI _ _ _ Hc) as (row & Hrow & Hrest). exists row.
    rewrite lookup_insert_ne by congruence. done.
  - intros id row Hrow. at_key Hrow.
    + split; [done|]. intros Hall. destruct (Hall 0) as [c Hc].
      * pose proof (chunk_count spec (cr_consistent _ _ _ _ HC)). simpl. lia.
      * simpl in Hc. rewrite Hnc in Hc. done.
    + by apply (st_ready _ HI).
  - intros key. unfold counter. simpl. rewrite (cr_counter _ _ _ _ HC), usage_insert by done.
    rewrite (st_quota _ HI). done.
  - intros key. unfold counter. simpl. destruct (decide (key ∈ manifestKeys (ss_Manifest spec))) as [Hin|Hout].
    + left. by apply (cr_limit _ _ _ _ HC).
    + rewrite (cr_counter _ _ _ _ HC), bool_decide_eq_false_2 by done. apply (st_limit _ HI).
  - intros id o Ho. destruct (st_offer _ HI _ _ Ho) as (row & t & Hrow & Ht & Hrest). exists row, t.
    rewrite !lookup_insert_ne by congruence. done.
  - intros id g i c Hc. destruct (st_receipt _ HI _ _ _ _ Hc) as (-> & t & ch & Ht & Hrest). split; [done|].
    exists t, ch. rewrite lookup_insert_ne by congruence. done.
  - intros id row t Hrow Ht Hs. apply lookup_insert_Some in Ht as [[<- <-]|[? Ht]]; [done|].
    rewrite lookup_insert_ne in Hrow by done. by apply (st_completed _ HI id row t).
Qed.

(** ** Ending a transfer *)
Lemma releaseOne_effect bytes chunks key d x d' :
  releaseOne bytes chunks key d = inr (x, d') ->
  d' = set_quota (<[key := addUsage (- bytes) (- chunks) (-1) (counter key d)]> (quota d)) d /\ True.
Proof.
  unfold releaseOne. intros Hr. txinv Hr. split; [|done]. unfold counter. rewrite Hf. simpl. done.
Qed.

Definition sameIssued (a b : gmap (list Z) IssuedRow) : Prop := forall s,
  match a !! s, b !! s with
  | Some x, Some y => is_permit y = is_permit x /\ is_transfer y = is_transfer x
      /\ is_commitment y = is_commitment x /\ is_expires y = is_expires x /\ is_retain x <= is_retain y
  | None, None => True
  | _, _ => False
  end.
Definition sameLedger (a b : gmap (list Z) LedgerRow) : Prop := forall id,
  match a !! id, b !! id with
  | Some x, Some y => lg_commitment y = lg_commitment x /\ lg_operations y = lg_operations x
      /\ lg_bytes y = lg_bytes x /\ lg_retain x <= lg_retain y
  | None, None => True
  | _, _ => False
  end.

(** The database after transfer [id] has ended in state [t] and its rows are
    released. *)
Definition ended (id : list Z) (t : TransferRow) (q : gmap quotaKey QuotaRow) (tb : gmap (list Z) TombstoneRow)
    (iss : gmap (list Z) IssuedRow) (led : gmap (list Z) LedgerRow) d : SourceDb :=
  dropTransfer id
    (set_ledger led (set_issued iss (set_tombstones tb (set_quota q
       (set_transfers (<[id := t]> (transfers d)) d))))).

Definition released (spec : sourceSpec) (q : gmap quotaKey QuotaRow) d : Prop := forall key,
  default noQuota (q !! key) =
  if bool_decide (key ∈ manifestKeys (ss_Manifest spec))
  then addUsage (- (ss_PlaintextSize spec + 16 * ss_ChunkCount spec)) (- ss_ChunkCount spec) (-1) (counter key d)
  else counter key d.

(** The tombstones after the release: the old ones and perhaps the source's. *)
Definition buried (spec : sourceSpec) (tb : gmap (list Z) TombstoneRow) d : Prop := forall id b,
  tb !! id = Some b -> tombstones d !! id = Some b
    \/ id = ss_TransferID spec /\ tb_commitment b = ss_ManifestCommitment spec.

Lemma release_effect spec now d x d' : consistentStoredSpec spec = true ->
  releaseTerminalSourceTx limits spec now d = inr (x, d') ->
  exists q tb iss led, released spec q d /\ buried spec tb d
    /\ sameIssued (issued d) iss /\ sameLedger (ledger d) led
    /\ d' = dropTransfer (ss_TransferID spec)
              (set_ledger led (set_issued iss (set_tombstones tb (set_quota q d)))).
Proof.
  intros Hc Hr. destruct (keys_consistent spec Hc) as [Hkeys Hnd]. unfold releaseTerminalSourceTx in Hr.
  rewrite (usage_consistent spec Hc), Hkeys in Hr.
  apply bind_inr in Hr as (u & d1 & Hu & Hr). txinv Hu. injection Hl as <-.
  apply bind_inr in Hr as (ks & d1 & Hk & Hr). txinv Hk. injection Hl as <-. cbn [fst snd] in Hr.
  apply bind_inr in Hr as ([] & d1 & He & Hr).
  destruct (each_counter _ _ (fun _ _ => True) _ (releaseOne_effect _ _) Hnd _ _ _ He) as (q & -> & Hq & _).
  apply bind_inr in Hr as (old & d1 & Hold & Hr). txinv Hold.
  apply bind_inr in Hr as ([] & d1 & Htb & Hr).
  assert (exists tb, d1 = set_tombstones tb (set_quota q d) /\ buried spec tb d) as (tb & -> & Htomb).
  { destruct (tombstones _ !! _); txinv Htb.
    - exists (tombstones d). split; [by destruct d|]. intros id b Hb. by left.
    - eexists. split; [reflexivity|]. intros id b. simpl. rewrite lookup_insert_Some.
      intros [[<- <-]|[_ Hb]]; [by right|by left]. }
  txinv Hr. exists q, tb. eexists _, _. split; [exact Hq|]. split; [exact Htomb|]. split; [|split; [|reflexivity]].
  - intros s. simpl. rewrite lookup_fmap. destruct (issued d !! s) as [row|]; [|done]. simpl.
    destruct (_ && _); simpl; repeat split; lia.
  - intros id. simpl. rewrite map_lookup_imap. destruct (ledger d !! id) as [row|]; [|done]. simpl.
    destruct (_ && _); simpl; repeat split; lia.
Qed.

(** The state a transfer ends in: a completed one stays completed. *)
Definition endsAs (now : Z) (t t' : TransferRow) : Prop :=
  tr_commitment t' = tr_commitment t /\ tr_expires t' = tr_expires t /\ tr_attempt t' = tr_attempt t
  /\ if terminal (tr_status t) then tr_status t = transferCompleted /\ tr_status t' = transferCompleted
     else tr_status t' = (if tr_expires t <=? Unix now then transferExpired else transferCancelled).

Lemma transferOf_Some id c d t : transferOf id c d = Some t <-> transfers d !! id = Some t /\ tr_commitment t = c.
Proof.
  unfold transferOf. rewrite bind_Some. split.
  - intros (row & Hrow & Hc). destruct (eqb _ _) eqn:He; [|done]. injection Hc as <-. apply eqb_true in He. done.
  - intros [Ht <-]. exists t. rewrite eqb_refl. done.
Qed.

Lemma terminalize_effect spec now d x d' : consistentStoredSpec spec = true ->
  terminalizeSourceTx limits spec now d = inr (x, d') ->
  exists t t' q tb iss led, transfers d !! ss_TransferID spec = Some t
    /\ tr_commitment t = ss_ManifestCommitment spec /\ tr_expires t = ss_ExpiresAt spec
    /\ endsAs now t t' /\ released spec q d /\ buried spec tb d
    /\ sameIssued (issued d) iss /\ sameLedger (ledger d) led
    /\ d' = ended (ss_TransferID spec) t' q tb iss led d.
Proof.
  intros Hc Ht. unfold terminalizeSourceTx in Ht.
  apply bind_inr in Ht as (t & d1 & Hf & Ht). txinv Hf. apply transferOf_Some in Hf0 as [Hrow Hcom].
  apply bind_inr in Ht as ([] & d1 & He & Ht). txinv He. tests.
  destruct (isStatus (tr_status row) transferCompleted && (tr_attempt row =? 1)) eqn:Hdone.
  - tests. apply release_effect in Ht as (q & tb & iss & led & Hq & Htb & Hi & Hl & ->); [|done].
    exists row, row, q, tb, iss, led. repeat (split; [done|]).
    split; [unfold endsAs; rewrite H0; done|]. repeat (split; [done|]).
    unfold ended. rewrite insert_id by done. by destruct d.
  - apply bind_inr in Ht as ([] & d1 & Hterm & Ht). txinv Hterm.
    apply bind_inr in Ht as ([] & d1 & Hcr & Ht). txinv Hcr.
    apply bind_inr in Ht as ([] & d1 & Hset & Ht). unfold setStatus in Hset. txinv Hset.
    apply release_effect in Ht as (q & tb & iss & led & Hq & Htb & Hi & Hl & ->); [|done].
    exists row, {| tr_commitment := tr_commitment row;
      tr_status := if ss_ExpiresAt spec <=? Unix now then transferExpired else transferCancelled;
      tr_attempt := tr_attempt row; tr_expires := tr_expires row |}, q, tb, iss, led.
    do 3 (split; [done|]). split; [|done].
    unfold endsAs. apply negb_true_iff in Hterm. rewrite Hterm. simpl. rewrite He. done.
Qed.

Lemma addUsage_undo bytes chunks transfers q :
  addUsage (- bytes) (- chunks) (- transfers) (addUsage bytes chunks transfers q) = q.
Proof. destruct q. unfold addUsage. simpl. f_equal; lia. Qed.

Lemma charged_nonneg d key f : Staged d ->
  (forall id row, specs d !! id = Some row -> 0 <= f row) -> 0 <= charged key f (specs d).
Proof. intros HI Hf. apply msum_nonneg. intros id row Hrow. case_bool_decide; [|done]. by apply (Hf id). Qed.

Lemma spec_sizes d id row : Staged d -> specs d !! id = Some row ->
  1 <= sp_chunkCount row <= 4096 /\ 0 <= sp_plaintextSize row /\ 0 <= rowBytes row.
Proof.
  intros HI Hrow. pose proof (st_spec _ HI _ _ Hrow) as Hc.
  apply consistent_spec in Hc as (m & _ & (? & ? & ? & _) & _ & _ & _ & _ & Hn & Hp & _).
  simpl in *. unfold rowBytes. lia.
Qed.

Lemma endsAs_terminal now t t' : endsAs now t t' -> terminal (tr_status t') = true.
Proof.
  intros (_ & _ & _ & Hs). destruct (terminal (tr_status t)).
  - destruct Hs as [_ ->]. done.
  - rewrite Hs. by destruct (_ <=? _).
Qed.
Lemma endsAs_valid id now t t' : endsAs now t t' ->
  validTransferRecord (recordOf id t) = true -> validTransferRecord (recordOf id t') = true.
Proof.
  intros (Hc & He & Ha & Hs). unfold validTransferRecord, recordOf. simpl. rewrite Hc, He, Ha.
  rewrite !andb_true_iff. intros ((((? & ?) & ?) & ?) & Hst). repeat (split; [done|]).
  destruct (terminal (tr_status t)).
  - destruct Hs as [Hs ->]. by rewrite Hs in Hst.
  - rewrite Hs. by destruct (_ <=? _).
Qed.

Section Ended.
Variables (d : SourceDb) (id : list Z) (row : SpecRow) (t t' : TransferRow) (now : Z).
Variables (q : gmap quotaKey QuotaRow) (tb : gmap (list Z) TombstoneRow)
          (iss : gmap (list Z) IssuedRow) (led : gmap (list Z) LedgerRow).
Hypothesis HI : Staged d.
Hypothesis Hrow : specs d !! id = Some row.
Hypothesis Ht : transfers d !! id = Some t.
Hypothesis He : endsAs now t t'.
Hypothesis Hq : released (rowSpec id row) q d.

Lemma released_usage (key : quotaKey) : default noQuota (q !! key) = usage key (delete id (specs d)).
Proof.
  rewrite (Hq key), (st_quota _ HI), (usage_delete key id row) by done. simpl.
  case_bool_decide; [|done]. apply (addUsage_undo _ _ 1).
Qed.

Lemma released_limit (key : quotaKey) :
  withinLimit (scopeLimit limits key.1) (default noQuota (q !! key)) \/ default noQuota (q !! key) = noQuota.
Proof.
  destruct (spec_sizes d id row HI Hrow) as (? & ? & ?). unfold rowBytes in *.
  destruct (st_limit _ HI key) as [(? & ? & ?)|Hz].
  - left. rewrite (Hq key). case_bool_decide; [|done]. unfold withinLimit, addUsage. simpl. lia.
  - pose proof (st_quota _ HI key) as Hu. rewrite (usage_delete key id row), Hz in Hu by done.
    rewrite (Hq key). simpl. case_bool_decide; [|by right]. exfalso.
    apply (f_equal qr_transfers) in Hu. simpl in Hu.
    enough (0 <= charged key (fun _ => 1) (delete id (specs d))) by lia.
    apply msum_nonneg. intros. by case_bool_decide.
Qed.

Theorem staged_ended : Staged (ended id t' q tb iss led d).
Proof.
  destruct He as (Hcom & Hexp & _ & _). split; unfold ended, dropTransfer; simpl.
  - intros id' row' Hr. apply lookup_delete_Some in Hr as [_ Hr]. by apply (st_spec _ HI).
  - intros id' row' Hr. apply lookup_delete_Some in Hr as [Hne Hr]. rewrite lookup_insert_ne by done.
    by apply (st_track _ HI).
  - intros id' t0 Ht0 Hs. at_key Ht0; [by eapply endsAs_terminal|].
    rewrite lookup_delete_ne in Hs by done. by apply (st_ended _ HI id').
  - intros id'. rewrite <-(st_ident _ HI). destruct (decide (id = id')) as [<-|Hne].
    + rewrite lookup_insert_eq, Ht. simpl. by rewrite Hcom.
    + by rewrite lookup_insert_ne.
  - intros a b c. apply (st_unique _ HI).
  - intros id' t0 Ht0. at_key Ht0; [|by apply (st_valid _ HI)].
    eapply endsAs_valid; [done|]. by apply (st_valid _ HI).
  - intros id' i c Hc. apply map_lookup_filter_Some in Hc as [Hc Hne]. simpl in Hne.
    rewrite lookup_delete_ne by done. by apply (st_chunk _ HI).
  - intros id' row' Hr. apply lookup_delete_Some in Hr as [Hne Hr]. rewrite (st_ready _ HI _ _ Hr).
    unfold allStored. simpl. apply forall_proper. intros i. apply forall_proper. intros Hi.
    rewrite map_lookup_filter. destruct (chunks d !! (id', i)); simpl; [|done].
    rewrite option_guard_True by done. done.
  - intros key. apply released_usage.
  - intros key. apply released_limit.
  - intros id' o Ho. apply lookup_delete_Some in Ho as [Hne Ho]. rewrite lookup_delete_ne, lookup_insert_ne by done.
    by apply (st_offer _ HI).
  - intros id' g i c Hc. apply map_lookup_filter_Some in Hc as [Hc Hne]. simpl in Hne.
    destruct (st_receipt _ HI _ _ _ _ Hc) as (-> & t0 & ch & Ht0 & Hrest & Hch & Hcc). split; [done|].
    exists t0, ch. rewrite lookup_insert_ne by done. split; [done|]. split; [done|].
    split; [|done]. by apply map_lookup_filter_Some.
  - intros id' row' t0 Hr Ht0 Hs. apply lookup_delete_Some in Hr as [Hne Hr]. rewrite lookup_insert_ne in Ht0 by done.
    intros i Hi. destruct (st_completed _ HI _ _ _ Hr Ht0 Hs i Hi) as (c & Hc & Hrc). exists c.
    simpl. split; apply map_lookup_filter_Some; done.
Qed.
End Ended.

(** ** Storing a chunk *)
Definition chunkOf (ciphertext : list Z) : ChunkRow :=
  {| ch_ciphertext := ciphertext; ch_commitment := ciphertextCommitment ciphertext |}.
Definition atStatus (status : transferStatus) (t : TransferRow) : TransferRow :=
  {| tr_commitment := tr_commitment t; tr_status := status; tr_attempt := tr_attempt t; tr_expires := tr_expires t |}.

(** The database after chunk [i] is stored: [ready] and [t'] are the source's
    new flag and lifecycle row. *)
Definition stored (id : list Z) (i : Z) (ciphertext : list Z) (row : SpecRow) (ready : bool) (t' : TransferRow)
    d : SourceDb :=
  set_transfers (<[id := t']> (transfers d))
    (set_specs (<[id := specRow (rowSpec id row) ready]> (specs d))
       (set_chunks (<[(id, i) := chunkOf ciphertext]> (chunks d)) d)).

(** What an upload has checked, and how the lifecycle row moves. *)
Record Stores (id : list Z) (i : Z) (ciphertext : list Z) (now : Z) (row : SpecRow) (ready : bool)
    (t t' : TransferRow) d : Prop := {
  up_row : specs d !! id = Some row;
  up_transfer : transfers d !! id = Some t;
  up_time : Unix now < sp_expires row;
  up_index : i < sp_chunkCount row;
  up_length : len ciphertext = expectedCiphertextLength (rowSpec id row) i;
  up_free : chunks d !! (id, i) = None \/ chunks d !! (id, i) = Some (chunkOf ciphertext);
  up_moves : if ready && negb (sp_ready row)
             then tr_status t = transferSourceUploading /\ t' = atStatus transferSourceReady t
             else t' = t;
  up_ready : ready = sp_ready row \/ ready = true;
  up_count : storedChunks id (stored id i ciphertext row ready t' d) = sp_chunkCount row -> ready = true;
  up_full : ready = true -> sp_ready row = false ->
            storedChunks id (stored id i ciphertext row ready t' d) = sp_chunkCount row;
}.

Lemma row_eta id row : specRow (rowSpec id row) (sp_ready row) = row.
Proof. by destruct row. Qed.

Lemma upload_effect id i ciphertext now d x d' : Staged d -> uploadTx id i ciphertext now d = inr (x, d') ->
  exists row ready t t', d' = stored id i ciphertext row ready t' d /\ Stores id i ciphertext now row ready t t' d.
Proof.
  intros HI Hu. unfold uploadTx in Hu.
  apply bind_inr in Hu as ([] & d1 & Hm & Hu). txinv Hm.
  apply bind_inr in Hu as (spec & d1 & Hl & Hu). apply loadedSpec_effect in Hl as (-> & row & Hrow & -> & Hc).
  destruct (st_track _ HI _ _ Hrow) as (t & Ht & Hcom & Hexp & Htr).
  apply bind_inr in Hu as ([] & d1 & Hg & Hu). txinv Hg. tests. simpl in *.
  apply bind_inr in Hu as (old & d1 & Hold & Hu). txinv Hold.
  apply bind_inr in Hu as ([] & d1 & Hins & Hu).
  assert (d1 = set_chunks (<[(id, i) := chunkOf ciphertext]> (chunks d)) d
          /\ (chunks d !! (id, i) = None \/ chunks d !! (id, i) = Some (chunkOf ciphertext))) as [-> Hfree].
  { destruct (chunks d !! (id, i)) as [c|] eqn:Hch; txinv Hins; [|by auto]. tests.
    assert (c = chunkOf ciphertext) as -> by (destruct c; simpl in *; by subst).
    rewrite insert_id by done. split; [by destruct d|by right]. }
  apply bind_inr in Hu as (n & d1 & Hn & Hu). txinv Hn.
  set (dc := set_chunks _ _) in *.
  assert (forall r tt', storedChunks id (stored id i ciphertext row r tt' d) = storedChunks id dc) as Hcount by done.
  destruct (storedChunks id dc =? sp_chunkCount row) eqn:Hfull; tests; simpl in Hu.
  - apply bind_inr in Hu as (row0 & d1 & Hr0 & Hu). txinv Hr0. simpl in Hf. rewrite Hrow in Hf. injection Hf as <-.
    destruct (sp_ready row) eqn:Hready; simpl in Hu.
    + apply bind_inr in Hu as ([] & d1 & Hv & Hu). apply verifyTracked_effect in Hv as ->. txinv Hu.
      exists row, true, t, t. split.
      * unfold stored. rewrite <-Hready, row_eta, !insert_id by done. by destruct d.
      * split; rewrite ?Hready; auto; congruence.
    + txinv Hu. unfold setStatus in Hu. txinv Hu. tests. apply transferOf_Some in Hf as [Hf _]. simpl in Hf.
      rewrite Ht in Hf. injection Hf as <-. exists row, true, t, (atStatus transferSourceReady t). split; [done|].
      split; rewrite ?Hready; simpl; auto.
  - txinv Hu. exists row, (sp_ready row), t, t. split.
    + unfold stored. rewrite row_eta, !insert_id by done. by destruct d.
    + split; auto.
      * by destruct (sp_ready row).
      * rewrite Hcount. intros ?; congruence.
Qed.

(** The chunk rows of a source are exactly its indices below the count once
    there are as many of them. *)
Lemma storedChunks_full d id n : 0 <= n ->
  (forall i c, chunks d !! (id, i) = Some c -> 0 <= i < n) ->
  storedChunks id d = n <-> (forall i, 0 <= i < n -> is_Some (chunks d !! (id, i))).
Proof.
  intros Hn Hr. set (p := fun (k : list Z * Z) (_ : ChunkRow) => eqb k.1 id).
  assert (forall k v, chunks d !! k = Some v -> p k v = true -> exists i, 0 <= i < n /\ k = (id, i)) as Hp.
  { intros [id' i] v Hk Hpk. apply eqb_true in Hpk. simpl in Hpk. subst. exists i. split; [by eapply Hr|done]. }
  split.
  - intros Hc i Hi. destruct (range_full (chunks d) p (pair id) n Hn Hp Hc i Hi) as (v & Hv & _). by exists v.
  - intros Hall. apply (full_range (chunks d) p (pair id) n Hn Hp). intros i Hi.
    destruct (Hall i Hi) as [v Hv]. exists v. split; [done|apply eqb_refl].
Qed.

Lemma tracked_uploading status attempt :
  tracked false status attempt = true <-> status = transferSourceUploading /\ attempt = 0.
Proof. unfold tracked. rewrite andb_true_iff, isStatus_true, Z.eqb_eq. done. Qed.

Section Stored.
Variables (d : SourceDb) (id : list Z) (i now : Z) (ciphertext : list Z) (row : SpecRow) (ready : bool)
          (t t' : TransferRow).
Hypothesis HI : Staged d.
Hypothesis Hi : 0 <= i.
Hypothesis HS : Stores id i ciphertext now row ready t t' d.
Let d' := stored id i ciphertext row ready t' d.

Lemma stored_moves : tr_commitment t' = tr_commitment t /\ tr_expires t' = tr_expires t
  /\ tr_attempt t' = tr_attempt t
  /\ (t' = t \/ tr_status t = transferSourceUploading /\ tr_status t' = transferSourceReady).
Proof.
  pose proof (up_moves _ _ _ _ _ _ _ _ _ HS) as Hm. destruct (ready && negb (sp_ready row)).
  - destruct Hm as [Hs ->]. simpl. repeat (split; [done|]). by right.
  - subst t'. repeat (split; [done|]). by left.
Qed.

Lemma stored_chunk id' j c : chunks d' !! (id', j) = Some c ->
  (id' = id /\ j = i /\ c = chunkOf ciphertext) \/ chunks d !! (id', j) = Some c.
Proof. simpl. intros Hc. apply lookup_insert_Some in Hc as [[[= <- <-] <-]|[_ Hc]]; auto. Qed.
Lemma stored_grows id' j c : chunks d !! (id', j) = Some c -> chunks d' !! (id', j) = Some c.
Proof.
  intros Hc. simpl. destruct (decide ((id, i) = (id', j))) as [Heq|Hne]; [|by rewrite lookup_insert_ne].
  injection Heq as <- <-. rewrite lookup_insert_eq. destruct (up_free _ _ _ _ _ _ _ _ _ HS); congruence.
Qed.

Lemma stored_range j c : chunks d' !! (id, j) = Some c -> 0 <= j < sp_chunkCount row.
Proof.
  intros [(_ & -> & _)|Hc]%stored_chunk.
  - pose proof (up_index _ _ _ _ _ _ _ _ _ HS). lia.
  - apply (st_chunk _ HI) in Hc as (row' & Hrow & Hr & _). rewrite (up_row _ _ _ _ _ _ _ _ _ HS) in Hrow.
    by injection Hrow as <-.
Qed.

Lemma stored_ready : ready = true <-> allStored d' id row.
Proof.
  pose proof (up_row _ _ _ _ _ _ _ _ _ HS) as Hrow. destruct (spec_sizes d id row HI Hrow) as [Hn _].
  unfold allStored. rewrite <-(storedChunks_full d' id (sp_chunkCount row) ltac:(lia) stored_range).
  split; [|apply (up_count _ _ _ _ _ _ _ _ _ HS)]. intros Hready.
  destruct (sp_ready row) eqn:Hr; [|by apply (up_full _ _ _ _ _ _ _ _ _ HS)].
  apply (st_ready _ HI _ _ Hrow) in Hr.
  apply (storedChunks_full d' id (sp_chunkCount row) ltac:(lia) stored_range). intros j Hj.
  destruct (Hr j Hj) as [c Hc]. exists c. by apply stored_grows.
Qed.

Lemma stored_tracked : tracked ready (tr_status t') (tr_attempt t') = true.
Proof.
  destruct (st_track _ HI _ _ (up_row _ _ _ _ _ _ _ _ _ HS)) as (t0 & Ht0 & _ & _ & Htr).
  rewrite (up_transfer _ _ _ _ _ _ _ _ _ HS) in Ht0. injection Ht0 as <-.
  pose proof (up_moves _ _ _ _ _ _ _ _ _ HS) as Hm. pose proof (up_ready _ _ _ _ _ _ _ _ _ HS) as Hr.
  destruct ready, (sp_ready row); simpl in Hm; try (by subst).
  - destruct Hm as [_ ->]. apply tracked_uploading in Htr as [_ Ha]. simpl. by rewrite Ha.
  - by destruct Hr.
Qed.

(** The new lifecycle row where the transfer was already visible is the old one. *)
Lemma stored_visible : tr_status t <> transferSourceUploading -> t' = t.
Proof. intros Hne. destruct stored_moves as (_ & _ & _ & [?|[? _]]); done. Qed.

Theorem staged_stored : Staged d'.
Proof.
  pose proof (up_row _ _ _ _ _ _ _ _ _ HS) as Hrow. pose proof (up_transfer _ _ _ _ _ _ _ _ _ HS) as Ht.
  destruct stored_moves as (Hcom & Hexp & Hatt & Hmoves).
  destruct (st_track _ HI _ _ Hrow) as (t0 & Ht0 & Hc0 & He0 & Htr0). rewrite Ht in Ht0. injection Ht0 as <-.
  split; unfold d', stored; simpl.
  - intros id' row' Hr. at_key Hr; [|by apply (st_spec _ HI)]. apply (st_spec _ HI) in Hrow. by destruct row.
  - intros id' row' Hr. at_key Hr.
    + exists t'. rewrite lookup_insert_eq. simpl. rewrite Hcom, Hexp. split; [done|]. split; [done|].
      split; [done|]. apply stored_tracked.
    + rewrite lookup_insert_ne by done. by apply (st_track _ HI).
  - intros id' t0 Ht1 Hs. apply lookup_insert_None in Hs as [Hs Hne]. rewrite lookup_insert_ne in Ht1 by done.
    by apply (st_ended _ HI id').
  - intros id'. rewrite <-(st_ident _ HI). destruct (decide (id = id')) as [<-|Hne].
    + rewrite lookup_insert_eq, Ht. simpl. by rewrite Hcom.
    + by rewrite lookup_insert_ne.
  - apply (st_unique _ HI).
  - intros id' t0 Ht1. at_key Ht1; [|by apply (st_valid _ HI)]. apply (st_valid _ HI) in Ht.
    destruct Hmoves as [->|[Hs Hs']]; [done|]. unfold validTransferRecord, recordOf in *. simpl in *.
    rewrite Hcom, Hexp, Hatt, Hs'. by rewrite Hs in Ht.
  - intros id' j c Hc. apply stored_chunk in Hc as [(-> & -> & ->)|Hc].
    + exists (specRow (rowSpec id row) ready). rewrite lookup_insert_eq. simpl.
      split; [done|]. split; [split; [done|]; apply (up_index _ _ _ _ _ _ _ _ _ HS)|].
      split; [|done]. apply (up_length _ _ _ _ _ _ _ _ _ HS).
    + destruct (st_chunk _ HI _ _ _ Hc) as (row' & Hrow' & Hrest).
      destruct (decide (id = id')) as [<-|Hne].
      * rewrite Hrow in Hrow'. injection Hrow' as <-. exists (specRow (rowSpec id row) ready).
        rewrite lookup_insert_eq. by destruct row.
      * exists row'. by rewrite lookup_insert_ne.
  - intros id' row' Hr. at_key Hr; [apply stored_ready|].
    rewrite (st_ready _ HI _ _ Hr). unfold allStored. simpl. apply forall_proper. intros j.
    apply forall_proper. intros _. rewrite lookup_insert_ne by congruence. done.
  - intros key. change (counter key _) with (counter key d). rewrite (st_quota _ HI).
    symmetry. by eapply usage_ready.
  - apply (st_limit _ HI).
  - intros id' o Ho. destruct (st_offer _ HI _ _ Ho) as (row' & t0 & Hr & Ht0 & Hman & Hof).
    destruct (decide (id = id')) as [<-|Hne].
    + rewrite Hrow in Hr. rewrite Ht in Ht0. injection Hr as <-. injection Ht0 as <-.
      exists (specRow (rowSpec id row) ready), t'. rewrite !lookup_insert_eq. do 2 (split; [done|]).
      split; [done|]. rewrite stored_visible; [done|]. intros Hs. rewrite Hs in Hof. unfold offered in Hof.
      destruct (of_consumed o); [destruct_or?|]; done.
    + exists row', t0. by rewrite !lookup_insert_ne.
  - intros id' g j c Hc. destruct (st_receipt _ HI _ _ _ _ Hc) as (-> & t0 & ch & Ht0 & Hrec & Hch & Hcc).
    split; [done|]. assert (exists t1, <[id := t']> (transfers d) !! id' = Some t1 /\ receiving (tr_status t1))
      as (t1 & Ht1 & Hrec1).
    { destruct (decide (id = id')) as [<-|Hne]; [|exists t0; by rewrite lookup_insert_ne].
      rewrite Ht in Ht0. injection Ht0 as <-. exists t'. rewrite lookup_insert_eq. split; [done|].
      rewrite stored_visible; [done|]. intros Hs. rewrite Hs in Hrec. by destruct Hrec. }
    exists t1, ch. do 2 (split; [done|]). split; [|done]. by apply stored_grows.
  - intros id' row' t0 Hr Ht1 Hs j Hj.
    assert (allReceived d id' row') as Hall.
    { destruct (decide (id = id')) as [<-|Hne].
      - rewrite lookup_insert_eq in Hr. rewrite lookup_insert_eq in Ht1. injection Hr as <-. injection Ht1 as <-.
        destruct Hmoves as [->|[_ Hs']]; [|congruence]. by apply (st_completed _ HI _ _ _ Hrow Ht).
      - rewrite lookup_insert_ne in Hr by done. rewrite lookup_insert_ne in Ht1 by done. by apply (st_completed _ HI _ _ _ Hr Ht1). }
    destruct (Hall j Hj) as (c & Hc & Hrc). exists c. split; [by apply stored_grows|done].
Qed.
End Stored.

(** ** The lifecycle of a ready source *)

(** The database after a ready source has moved on: [off] is its offer now. *)
Definition moved (id : list Z) (t' : TransferRow) (off : option OfferRow) d : SourceDb :=
  set_transfers (<[id := t']> (transfers d)) (set_offers (partial_alter (fun _ => off) id (offers d)) d).

Record Moves (id : list Z) (row : SpecRow) (t t' : TransferRow) (off : option OfferRow) d : Prop := {
  mv_row : specs d !! id = Some row;
  mv_transfer : transfers d !! id = Some t;
  mv_ready : sp_ready row = true;
  mv_commitment : tr_commitment t' = tr_commitment t;
  mv_expires : tr_expires t' = tr_expires t;
  mv_tracked : tracked true (tr_status t') (tr_attempt t') = true;
  mv_offer o : off = Some o -> of_manifest o = sp_manifest row /\ offered o (tr_status t');
  mv_receiving : receiving (tr_status t) -> receiving (tr_status t');
  mv_completed : tr_status t' = transferCompleted -> allReceived d id row;
}.

Lemma tracked_attempt ready status attempt : tracked ready status attempt = true ->
  match status with
  | transferSourceUploading => ready = false /\ attempt = 0
  | transferSourceReady | transferOffered | transferAccepted => ready = true /\ attempt = 0
  | transferTransferring | transferCompleted => ready = true /\ attempt = 1
  | _ => False
  end.
Proof. unfold tracked. destruct ready, status; simpl; intros Htr; tests; try done; split; try done; lia. Qed.

Lemma tracked_valid id t t' ready : tr_commitment t' = tr_commitment t -> tr_expires t' = tr_expires t ->
  tracked ready (tr_status t') (tr_attempt t') = true ->
  validTransferRecord (recordOf id t) = true -> validTransferRecord (recordOf id t') = true.
Proof.
  intros Hc He Htr%tracked_attempt. unfold validTransferRecord, recordOf. simpl. rewrite Hc, He, !andb_true_iff.
  intros ((((? & ?) & ?) & _) & _).
  destruct (tr_status t'); try done; destruct Htr as [_ ->]; repeat (split; [done|]); done.
Qed.

Theorem staged_moved id row t t' off d : Staged d -> Moves id row t t' off d -> Staged (moved id t' off d).
Proof.
  intros HI HM. pose proof (mv_row _ _ _ _ _ _ HM) as Hrow. pose proof (mv_transfer _ _ _ _ _ _ HM) as Ht.
  pose proof (mv_commitment _ _ _ _ _ _ HM) as Hcom. pose proof (mv_expires _ _ _ _ _ _ HM) as Hexp.
  pose proof (mv_ready _ _ _ _ _ _ HM) as Hready. pose proof (mv_tracked _ _ _ _ _ _ HM) as Htr.
  destruct (st_track _ HI _ _ Hrow) as (t0 & Ht0 & Hc0 & He0 & _). rewrite Ht in Ht0. injection Ht0 as <-.
  split; unfold moved; simpl.
  - apply (st_spec _ HI).
  - intros id' row' Hr. destruct (decide (id = id')) as [<-|Hne].
    + rewrite Hrow in Hr. injection Hr as <-. exists t'. rewrite lookup_insert_eq, Hcom, Hexp, Hready. done.
    + rewrite lookup_insert_ne by done. by apply (st_track _ HI).
  - intros id' t0 Ht1 Hs. at_key Ht1; [congruence|]. by apply (st_ended _ HI id').
  - intros id'. rewrite <-(st_ident _ HI). destruct (decide (id = id')) as [<-|Hne].
    + rewrite lookup_insert_eq, Ht. simpl. by rewrite Hcom.
    + by rewrite lookup_insert_ne.
  - apply (st_unique _ HI).
  - intros id' t0 Ht1. at_key Ht1; [|by apply (st_valid _ HI)].
    eapply tracked_valid; try done. by apply (st_valid _ HI).
  - apply (st_chunk _ HI).
  - apply (st_ready _ HI).
  - apply (st_quota _ HI).
  - apply (st_limit _ HI).
  - intros id' o Ho. destruct (decide (id = id')) as [<-|Hne].
    + rewrite lookup_partial_alter_eq in Ho. exists row, t'. rewrite lookup_insert_eq.
      split; [done|]. split; [done|]. by apply (mv_offer _ _ _ _ _ _ HM).
    + rewrite lookup_partial_alter_ne in Ho by done. rewrite lookup_insert_ne by done. by apply (st_offer _ HI).
  - intros id' g i c Hc. destruct (st_receipt _ HI _ _ _ _ Hc) as (-> & t0 & ch & Ht0 & Hrec & Hrest).
    split; [done|]. destruct (decide (id = id')) as [<-|Hne].
    + rewrite Ht in Ht0. injection Ht0 as <-. exists t', ch. rewrite lookup_insert_eq.
      split; [done|]. split; [|done]. by apply (mv_receiving _ _ _ _ _ _ HM).
    + exists t0, ch. by rewrite lookup_insert_ne.
  - intros id' row' t0 Hr Ht1 Hs. at_key Ht1; [|by apply (st_completed _ HI _ _ _ Hr Ht1)].
    rewrite Hrow in Hr. injection Hr as <-. by apply (mv_completed _ _ _ _ _ _ HM).
Qed.

(** A receipt for a stored chunk. *)
Definition receipted (id : list Z) (i : Z) (c : list Z) d : SourceDb :=
  set_receipts (<[(id, 1, i) := c]> (receipts d)) d.

Theorem staged_receipted id i c d t : Staged d -> transfers d !! id = Some t -> tr_status t = transferTransferring ->
  chunks d !! (id, i) = Some c ->
  (receipts d !! (id, 1, i) = None \/ receipts d !! (id, 1, i) = Some (ch_commitment c)) ->
  Staged (receipted id i (ch_commitment c) d).
Proof.
  intros HI Ht Hs Hc Hfree. destruct HI. split; try done.
  - intros id' g j x Hx. simpl in Hx. apply lookup_insert_Some in Hx as [[[= <- <- <-] <-]|[_ Hx]].
    + split; [done|]. exists t, c. split; [done|]. split; [by left|]. done.
    + by apply st_receipt0 in Hx.
  - intros id' row t0 Hr Ht0 Hst j Hj. simpl. destruct (st_completed0 _ _ _ Hr Ht0 Hst j Hj) as (x & Hx & Hrx).
    exists x. split; [done|]. rewrite lookup_insert_ne; [done|]. intros [= <- _]. simpl in *. congruence.
Qed.

(** [Staged] speaks of the tables of staged sources only. *)
Definition sameStaging d d' : Prop :=
  specs d' = specs d /\ transfers d' = transfers d /\ chunks d' = chunks d /\ quota d' = quota d
  /\ uniqueness d' = uniqueness d /\ offers d' = offers d /\ receipts d' = receipts d.
Lemma staged_frame d d' : sameStaging d d' -> Staged d -> Staged d'.
Proof.
  intros (Hs & Ht & Hc & Hq & Hu & Ho & Hr) HI. destruct d, d'. simpl in *. subst. destruct HI. by split.
Qed.
End Staged.

(** * The attachment store follows the lifecycle of [transfer.go]

    Every transaction changes the staged sources by a sequence of [Change]s:
    a source is created, a chunk stored, a transfer moved or ended, a chunk
    receipted.  A change keeps the invariant [Staged] and moves each transfer
    by a [transition] of [transfer.go], taken at the time of the call and
    backed by the chunks and receipts of the database. *)

Section Life.
Context `{Laws : V3Laws}.
Variable limits : sourceLimits.
Implicit Types (d : SourceDb).
Abbreviation Staged := (Staged limits).

(** ** Changes *)
Definition moveAction (a : transferAction) (t t' : TransferRow) : Prop :=
  match a with
  | transferActionOffer => tr_status t = transferSourceReady /\ tr_attempt t = 0
      /\ tr_status t' = transferOffered /\ tr_attempt t' = 0
  | transferActionAccept => tr_status t = transferOffered /\ tr_attempt t = 0
      /\ tr_status t' = transferAccepted /\ tr_attempt t' = 0
  | transferActionBegin => tr_status t = transferAccepted /\ tr_attempt t = 0
      /\ tr_status t' = transferTransferring /\ tr_attempt t' = 1
  | transferActionComplete => tr_status t = transferTransferring /\ tr_attempt t = 1
      /\ tr_status t' = transferCompleted /\ tr_attempt t' = 1
  | _ => False
  end.

Inductive Change (now : Z) d : SourceDb -> Prop :=
  | ChNone d' : sameStaging d d' -> Change now d d'
  | ChCreated spec q a d' : Creates limits spec now q d -> sameStaging (created spec q a d) d' -> Change now d d'
  | ChStored id i ciphertext row ready t t' d' :
      0 <= i -> 0 <= Unix now -> Stores id i ciphertext now row ready t t' d ->
      sameStaging (stored id i ciphertext row ready t' d) d' -> Change now d d'
  | ChEnded id row t t' q tb iss led d' :
      0 <= Unix now -> specs d !! id = Some row -> transfers d !! id = Some t -> endsAs now t t' ->
      released (rowSpec id row) q d ->
      sameStaging (ended id t' q tb iss led d) d' -> Change now d d'
  | ChMoved a id row t t' off d' :
      0 <= Unix now < tr_expires t -> moveAction a t t' -> Moves id row t t' off d ->
      sameStaging (moved id t' off d) d' -> Change now d d'
  | ChReceipted id i c t d' :
      transfers d !! id = Some t -> tr_status t = transferTransferring -> chunks d !! (id, i) = Some c ->
      (receipts d !! (id, 1, i) = None \/ receipts d !! (id, 1, i) = Some (ch_commitment c)) ->
      sameStaging (receipted id i (ch_commitment c) d) d' -> Change now d d'.

Lemma change_staged now d d' : Staged d -> Change now d d' -> Staged d'.
Proof.
  intros HI Hch. destruct Hch; (eapply staged_frame; [eassumption|]).
  - done.
  - by eapply staged_created.
  - by eapply staged_stored.
  - by eapply staged_ended.
  - by eapply staged_moved.
  - by eapply staged_receipted.
Qed.

(** ** The abstract lifecycle *)
Definition lifecycle d (id : list Z) : option transferRecord := recordOf id <$> transfers d !! id.

(** The evidence of a transition is true of the database. *)
Definition justified d (id : list Z) (proof : transitionProof) : Prop :=
  (sourceComplete proof = true -> exists row, specs d !! id = Some row /\ allStored d id row)
  /\ (receiptComplete proof = true -> exists row, specs d !! id = Some row /\ allReceived d id row).

Inductive lifeStep (now : Z) d (id : list Z) : option transferRecord -> option transferRecord -> Prop :=
  | LifeCreate c e r : transition (newTransferRecord id c e) transferActionSourceInit now
                         {| sourceComplete := false; receiptComplete := false; expectedAttemptGeneration := 0 |} = inr r ->
      lifeStep now d id None (Some r)
  | LifeAct a r r' proof : transition r a now proof = inr r' -> justified d id proof ->
      lifeStep now d id (Some r) (Some r').

Definition moves (now : Z) d d' : Prop := forall id,
  lifecycle d' id = lifecycle d id \/ lifeStep now d' id (lifecycle d id) (lifecycle d' id).

Lemma lifecycle_insert id t d d' id' : transfers d' = <[id := t]> (transfers d) ->
  lifecycle d' id' = if decide (id = id') then Some (recordOf id t) else lifecycle d id'.
Proof.
  intros Heq. unfold lifecycle. rewrite Heq. destruct (decide _) as [<-|Hne].
  - by rewrite lookup_insert_eq.
  - by rewrite lookup_insert_ne.
Qed.

(** One step of [transition] on a live record, before and after its expiry. *)
Ltac take_transition Hv Hterm :=
  unfold transition; rewrite Hv; cbn [x_Status x_ExpiresAt x_AttemptGeneration recordOf]; rewrite Hterm;
  cbn [negb orb]; rewrite (proj2 (Z.ltb_ge _ _)) by done.

Lemma transition_end id now t t' proof : validTransferRecord (recordOf id t) = true ->
  terminal (tr_status t) = false -> 0 <= Unix now -> endsAs now t t' ->
  exists a, transition (recordOf id t) a now proof = inr (recordOf id t').
Proof.
  intros Hv Hterm Hn (Hc & He & Ha & Hs). rewrite Hterm in Hs.
  assert (forall s, s = tr_status t' -> recordOf id t' = withStatus s (tr_attempt t) (recordOf id t)) as Heq.
  { intros s ->. unfold recordOf, withStatus. simpl. by rewrite Hc, He, Ha. }
  destruct (tr_expires t <=? Unix now) eqn:Hx.
  - exists transferActionExpire. take_transition Hv Hterm. tests.
    rewrite (proj2 (Z.ltb_ge _ _)) by done. by rewrite (Heq transferExpired).
  - exists transferActionCancel. take_transition Hv Hterm. rewrite Hx. by rewrite (Heq transferCancelled).
Qed.

Definition completeProof (a : transferAction) : transitionProof :=
  {| sourceComplete := match a with transferActionSourceReady => true | _ => false end;
     receiptComplete := match a with transferActionComplete => true | _ => false end;
     expectedAttemptGeneration := match a with transferActionComplete => 1 | _ => 0 end |}.

Lemma transition_move a id now t t' : validTransferRecord (recordOf id t) = true ->
  0 <= Unix now < tr_expires t -> moveAction a t t' ->
  tr_commitment t' = tr_commitment t -> tr_expires t' = tr_expires t ->
  transition (recordOf id t) a now (completeProof a) = inr (recordOf id t').
Proof.
  intros Hv [Hn Hx] Hm Hc He. apply Z.leb_gt in Hx.
  destruct a; try done; destruct Hm as (Hs & Ha & Hs' & Ha');
    (unfold transition; rewrite Hv; simpl; rewrite Hs; simpl; rewrite (proj2 (Z.ltb_ge _ _)) by done;
     rewrite Hx, ?Ha; simpl; unfold recordOf, withStatus; simpl; by rewrite Hc, He, Hs', Ha').
Qed.

Lemma transition_ready id now t : validTransferRecord (recordOf id t) = true -> 0 <= Unix now < tr_expires t ->
  tr_status t = transferSourceUploading ->
  transition (recordOf id t) transferActionSourceReady now (completeProof transferActionSourceReady)
  = inr (recordOf id (atStatus transferSourceReady t)).
Proof.
  intros Hv [Hn Hx] Hs. apply Z.leb_gt in Hx. unfold transition. rewrite Hv. simpl. rewrite Hs. simpl.
  rewrite (proj2 (Z.ltb_ge _ _)) by done. by rewrite Hx.
Qed.

Lemma change_moves now d d' : Staged d -> Change now d d' -> moves now d d'.
Proof.
  intros HI Hch. pose proof (change_staged now d d' HI Hch) as HI'.
  intros id'. destruct Hch as [d' HF|spec q a d' HC HF|id i ciphertext row ready t t' d' Hi Hn HS HF|
    id row t t' q tb iss led d' Hn Hrow Ht He Hq HF|a id row t t' off d' Hn Ha HM HF|id i c t d' Ht Hs Hc Hfree HF].
  - left. unfold lifecycle. destruct HF as (_ & -> & _). done.
  - rewrite (lifecycle_insert (ss_TransferID spec) (uploadingRow spec) d) by (by destruct HF as (_ & -> & _)).
    destruct (decide _) as [<-|Hne]; [right|by left]. unfold lifecycle at 1.
    rewrite (cr_transfer _ _ _ _ _ HC). simpl. eapply (LifeCreate _ _ _ (ss_ManifestCommitment spec) (ss_ExpiresAt spec)).
    pose proof (cr_valid _ _ _ _ _ HC) as Hv. destruct (cr_time _ _ _ _ _ HC) as [Hn Hx]. apply Z.leb_gt in Hx.
    unfold transition. rewrite Hv. simpl. rewrite (proj2 (Z.ltb_ge _ _)) by done. by rewrite Hx.
  - rewrite (lifecycle_insert id t' d) by (by destruct HF as (_ & -> & _)).
    destruct (decide _) as [<-|Hne]; [|by left]. unfold lifecycle. pose proof (up_transfer _ _ _ _ _ _ _ _ _ HS) as Ht.
    rewrite Ht. simpl. pose proof (up_moves _ _ _ _ _ _ _ _ _ HS) as Hm.
    destruct (ready && negb (sp_ready row)) eqn:Hb; [|left; by subst]. tests. subst ready. destruct Hm as [Hs ->].
    right. destruct (st_track _ _ HI _ _ (up_row _ _ _ _ _ _ _ _ _ HS)) as (t0 & Ht0 & _ & He0 & _).
    rewrite Ht in Ht0. injection Ht0 as <-. pose proof (up_time _ _ _ _ _ _ _ _ _ HS).
    eapply (LifeAct _ _ _ transferActionSourceReady); [apply transition_ready; [by apply (st_valid _ _ HI)|lia|done]|].
    split; [intros _|done]. destruct HF as (Hsp & _ & Hch & _).
    exists (specRow (rowSpec id row) true). assert (specs d' !! id = Some (specRow (rowSpec id row) true)) as Hr.
    { rewrite Hsp. simpl. apply lookup_insert_eq. }
    split; [done|]. by apply (st_ready _ _ HI' _ _ Hr).
  - rewrite (lifecycle_insert id t' d) by (by destruct HF as (_ & -> & _)).
    destruct (decide _) as [<-|Hne]; [|by left]. unfold lifecycle. rewrite Ht. simpl.
    destruct (terminal (tr_status t)) eqn:Hterm.
    + left. destruct He as (Hc & Hx & Hatt & Hs). rewrite Hterm in Hs. destruct Hs as [Hs Hs'].
      unfold recordOf. by rewrite Hc, Hx, Hatt, Hs, Hs'.
    + right. destruct (transition_end id now t t' (completeProof transferActionCancel)) as [a Hact]; try done.
      { by apply (st_valid _ _ HI). }
      by eapply (LifeAct _ _ _ a).
  - rewrite (lifecycle_insert id t' d) by (by destruct HF as (_ & -> & _)).
    destruct (decide _) as [<-|Hne]; [|by left]. unfold lifecycle. pose proof (mv_transfer _ _ _ _ _ _ HM) as Ht.
    rewrite Ht. simpl. right. eapply (LifeAct _ _ _ a).
    + apply transition_move; try done; [by apply (st_valid _ _ HI)|apply (mv_commitment _ _ _ _ _ _ HM)|
        apply (mv_expires _ _ _ _ _ _ HM)].
    + split; [by destruct a|]. intros Hrc. destruct a; try done. destruct Ha as (_ & _ & Hs' & _).
      exists row. destruct HF as (-> & _ & Hck & _ & _ & _ & Hrcp). simpl in *.
      split; [apply (mv_row _ _ _ _ _ _ HM)|]. unfold allReceived. rewrite Hck, Hrcp.
      by apply (mv_completed _ _ _ _ _ _ HM).
  - left. unfold lifecycle. destruct HF as (_ & -> & _). done.
Qed.

(** ** Stored chunks are immutable *)

(** The transfer has ended and its source is gone. *)
Definition retired d (id : list Z) : Prop := specs d !! id = None /\ is_Some (transfers d !! id).

(** A chunk stays as it is until its source goes, and a source never comes back. *)
Definition frozen d d' : Prop :=
  (forall id i c, chunks d !! (id, i) = Some c -> chunks d' !! (id, i) = Some c \/ retired d' id)
  /\ (forall id, retired d id -> retired d' id).

Lemma frozen_same d d' : sameStaging d d' -> frozen d d'.
Proof.
  intros (Hs & Ht & Hc & _). unfold frozen, retired. rewrite Hs, Ht, Hc. split; [by left|done].
Qed.
Lemma frozen_trans a b c : frozen a b -> frozen b c -> frozen a c.
Proof.
  intros [Hab Hrab] [Hbc Hrbc]. split; [|by eauto]. intros id i ch Hc.
  apply Hab in Hc as [Hc|Hr]; [by apply Hbc|by right; apply Hrbc].
Qed.

(** Rows of one transfer written, where that transfer had its source. *)
Lemma retired_other d d' id id' : is_Some (specs d !! id) ->
  (id' <> id -> specs d' !! id' = specs d !! id' /\ transfers d' !! id' = transfers d !! id') ->
  retired d id' -> retired d' id'.
Proof.
  intros Hid Hsame [Hs Ht]. destruct (decide (id' = id)) as [->|Hne]; [by destruct Hid; congruence|].
  destruct (Hsame Hne) as [H1 H2]. unfold retired. by rewrite H1, H2.
Qed.

Lemma change_frozen now d d' : Staged d -> Change now d d' -> frozen d d'.
Proof.
  intros HI Hch. destruct Hch as [d' HF|spec q a d' HC HF|id i ciphertext row ready t t' d' Hi Hn HS HF|
    id row t t' q tb iss led d' Hn Hrow Ht He Hq HF|a id row t t' off d' Hn Ha HM HF|id i c t d' Ht Hs Hc Hfree HF];
    (eapply frozen_trans; [|by apply frozen_same]).
  - by apply frozen_same.
  - split; [by left|]. intros id' [Hs Ht]. unfold retired. simpl. pose proof (cr_transfer _ _ _ _ _ HC) as Hnew.
    assert (ss_TransferID spec <> id') as Hne by (intros <-; rewrite Hnew in Ht; by destruct Ht).
    by rewrite !lookup_insert_ne.
  - split; [intros id' j c Hc; left; by eapply stored_grows|]. intros id'.
    apply (retired_other _ _ id); [exists row; apply (up_row _ _ _ _ _ _ _ _ _ HS)|]. intros Hne. simpl.
    by rewrite !lookup_insert_ne.
  - split.
    + intros id' j c Hc. destruct (decide (id' = id)) as [->|Hne].
      * right. unfold retired. simpl. rewrite lookup_delete_eq, lookup_insert_eq. done.
      * left. simpl. apply map_lookup_filter_Some. done.
    + intros id'. apply (retired_other _ _ id); [by exists row|]. intros Hne. simpl.
      by rewrite lookup_delete_ne, lookup_insert_ne.
  - split; [by left|]. intros id'. apply (retired_other _ _ id); [exists row; apply (mv_row _ _ _ _ _ _ HM)|].
    intros Hne. simpl. by rewrite lookup_insert_ne.
  - by split; [left|].
Qed.

(** ** The transactions that change a source *)

(** The permits, operations and ledger are what they were, up to retention. *)
Definition sameJournal d d' : Prop :=
  sameIssued (issued d) (issued d') /\ sameLedger (ledger d) (ledger d') /\ redeemed d' = redeemed d
  /\ requests d' = requests d /\ fences d' = fences d
  /\ (forall id b, tombstones d' !! id = Some b -> tombstones d !! id = Some b
        \/ tr_commitment <$> transfers d' !! id = Some (tb_commitment b)).

Lemma sameIssued_refl m : sameIssued m m.
Proof. intros s. destruct (m !! s); [repeat split; lia|done]. Qed.
Lemma sameLedger_refl m : sameLedger m m.
Proof. intros s. destruct (m !! s); [repeat split; lia|done]. Qed.
Lemma sameJournal_by d d' : issued d' = issued d -> ledger d' = ledger d -> redeemed d' = redeemed d ->
  requests d' = requests d -> fences d' = fences d -> tombstones d' = tombstones d -> sameJournal d d'.
Proof.
  intros Hi Hl Hr Hq Hf Ht. unfold sameJournal. rewrite Hi, Hl, Ht.
  split; [apply sameIssued_refl|]. split; [apply sameLedger_refl|]. do 3 (split; [done|]). by left.
Qed.
Lemma sameStaging_refl d : sameStaging d d.
Proof. by repeat split. Qed.
#[local] Hint Resolve sameStaging_refl : core.
#[local] Hint Extern 0 (sameJournal _ _) => apply sameJournal_by; reflexivity : core.

(** [d'] is [d] after one change, its journal kept. *)
Definition Changed (now : Z) d d' : Prop := Change now d d' /\ sameJournal d d'.

Lemma upload_changes id i ciphertext now d x d' : Staged d -> 0 <= i -> 0 <= Unix now ->
  uploadTx id i ciphertext now d = inr (x, d') -> Changed now d d'.
Proof.
  intros HI Hi Hn Hu. apply (upload_effect limits) in Hu as (row & ready & t & t' & -> & HS); [|done]. split.
  - exact (ChStored _ _ _ _ _ _ _ _ _ _ Hi Hn HS (sameStaging_refl _)).
  - done.
Qed.

Lemma terminalize_changes id row now d x d' : Staged d -> 0 <= Unix now -> specs d !! id = Some row ->
  consistentStoredSpec (rowSpec id row) = true ->
  terminalizeSourceTx limits (rowSpec id row) now d = inr (x, d') -> Changed now d d'.
Proof.
  intros HI Hn Hrow Hc Ht.
  apply terminalize_effect in Ht as (t & t' & q & tb & iss & led & Ht & Hcom & _ & He & Hq & Htb & Hi & Hl & ->); [|done].
  split; [exact (ChEnded _ _ _ _ _ _ _ _ _ _ _ Hn Hrow Ht He Hq (sameStaging_refl _))|].
  do 5 (split; [done|]). intros id' b Hb. apply Htb in Hb as [Hb|[-> Hb]]; [by left|right].
  simpl. rewrite lookup_insert_eq. simpl. destruct He as [-> _]. by rewrite Hcom, Hb.
Qed.

Lemma initialize_changes source now d b d' : genuine source -> initializeTx limits source now d = inr (b, d') ->
  Changed now d d'.
Proof.
  intros Hg Hi. apply initialize_effect in Hi; [|done]. destruct b.
  - destruct Hi as (spec & q & a & _ & -> & HC). split; [exact (ChCreated _ _ _ _ _ _ HC (sameStaging_refl _))|done].
  - subst d'. split; [by apply ChNone|done].
Qed.

(** The facts of a redemption its mutation relies on: the permit is live, and
    expires no later than the transfer it names. *)
Record Admits (permit : Permit) (now : Z) d : Prop := {
  ad_now : 0 <= Unix now;
  ad_live t : transfers d !! p_TransferID permit = Some t ->
    tr_commitment t = p_StagedManifestCommitment permit -> Unix now < tr_expires t;
}.

Lemma transferIn_effect permit ok attempt msg d t d' : transferIn permit ok attempt msg d = inr (t, d') ->
  d' = d /\ transfers d !! p_TransferID permit = Some t /\ tr_commitment t = p_StagedManifestCommitment permit
  /\ ok (tr_status t) = true /\ tr_attempt t = attempt.
Proof.
  unfold transferIn. intros Ht. txinv Ht. apply transferOf_Some in Hf as [Hrow Hc]. tests. done.
Qed.

(** A live transfer has its source, and the source agrees with the status. *)
Lemma live_source d id t : Staged d -> transfers d !! id = Some t -> terminal (tr_status t) = false ->
  exists row, specs d !! id = Some row /\ tr_commitment t = sp_commitment row /\ tr_expires t = sp_expires row
    /\ tracked (sp_ready row) (tr_status t) (tr_attempt t) = true.
Proof.
  intros HI Ht Hterm. destruct (specs d !! id) as [row|] eqn:Hrow.
  - exists row. split; [done|]. destruct (st_track _ _ HI _ _ Hrow) as (t0 & Ht0 & Hrest).
    rewrite Ht in Ht0. by injection Ht0 as <-.
  - rewrite (st_ended _ _ HI _ _ Ht Hrow) in Hterm. done.
Qed.

Lemma upload_mutation permit route request now d r d' : Staged d -> Admits permit now d -> 0 <= r_ChunkIndex route ->
  uploadMutation permit route request now d = inr (r, d') -> Changed now d d'.
Proof.
  intros HI HA Hi Hu. unfold uploadMutation in Hu.
  apply bind_inr in Hu as ([] & d1 & Hm & Hu). txinv Hm. apply bind_inr in Hu as (prior & d1 & Hp & Hu). txinv Hp.
  apply bind_inr in Hu as ([] & d1 & Hb & Hu). txinv Hb. apply bind_inr in Hu as ([] & d1 & Hup & Hu).
  apply upload_changes in Hup; [|done..|by destruct HA].
  apply bind_inr in Hu as (t & d2 & Ht & Hu). apply transferIn_effect in Ht as [-> _]. by txinv Hu.
Qed.

Lemma cancel_mutation permit now d r d' : Staged d -> Admits permit now d ->
  cancelMutation limits permit now d = inr (r, d') -> Changed now d d'.
Proof.
  intros HI HA Hc. unfold cancelMutation in Hc.
  apply bind_inr in Hc as (spec & d1 & Hl & Hc). apply loadedSpec_effect in Hl as (-> & row & Hrow & -> & Hcon).
  apply bind_inr in Hc as ([] & d1 & Hm & Hc). txinv Hm.
  apply bind_inr in Hc as (t & d1 & Ht & Hc). apply transferIn_effect in Ht as [-> _].
  apply bind_inr in Hc as ([] & d1 & Hend & Hc). txinv Hc.
  eapply terminalize_changes; try done. by destruct HA.
Qed.

(** A move of a live transfer of the permit. *)
Lemma move_changes permit now d row t t' off a : Staged d -> Admits permit now d ->
  transfers d !! p_TransferID permit = Some t -> tr_commitment t = p_StagedManifestCommitment permit ->
  moveAction a t t' -> Moves (p_TransferID permit) row t t' off d ->
  Changed now d (moved (p_TransferID permit) t' off d).
Proof.
  intros HI HA Ht Hc Ha HM. split; [|done].
  refine (ChMoved _ _ _ _ _ _ _ _ _ _ Ha HM (sameStaging_refl _)).
  split; [by destruct HA|]. by apply (ad_live _ _ _ HA).
Qed.

Lemma moved_same id t' d : moved id t' (offers d !! id) d = set_transfers (<[id := t']> (transfers d)) d.
Proof.
  assert (partial_alter (fun _ => offers d !! id) id (offers d) = offers d) as Heq.
  { apply map_eq. intros k. destruct (decide (id = k)) as [<-|];
      [by rewrite lookup_partial_alter_eq|by rewrite lookup_partial_alter_ne]. }
  unfold moved. rewrite Heq. by destruct d.
Qed.

Lemma offer_mutation permit manifestRaw envelopeRaw nonce now d r d' : Staged d -> Admits permit now d ->
  offerMutation permit manifestRaw envelopeRaw nonce d = inr (r, d') -> Changed now d d'.
Proof.
  intros HI HA Ho. unfold offerMutation in Ho.
  apply bind_inr in Ho as (spec & d1 & Hl & Ho). apply loadedSpec_effect in Hl as (-> & row & Hrow & -> & Hcon).
  apply bind_inr in Ho as ([] & d1 & Hm & Ho). txinv Hm. tests. simpl in *.
  apply bind_inr in Ho as (t & d1 & Ht & Ho). apply transferIn_effect in Ht as (-> & Ht & Hcom & Hs & Ha). tests.
  destruct (live_source d _ t HI Ht) as (row' & Hrow' & _ & _ & Htr); [by rewrite Hs|].
  rewrite Hrow in Hrow'. injection Hrow' as <-. rewrite Hs in Htr. apply tracked_attempt in Htr as [Hready _].
  unfold setStatus in Ho. txinv Ho. eapply (move_changes _ _ _ row t _ (Some _) transferActionOffer); try done.
  split; try done.
  - intros o [= <-]. done.
  - rewrite Hs. by intros [?|?].
Qed.

Lemma accept_mutation permit request authority now d r d' : Staged d -> Admits permit now d ->
  acceptMutation permit request authority now d = inr (r, d') -> Changed now d d'.
Proof.
  intros HI HA Ho. unfold acceptMutation in Ho.
  apply bind_inr in Ho as (o & d1 & Hf & Ho). txinv Hf. rename row into offer. rename Hf0 into Hoffer.
  apply bind_inr in Ho as ([] & d1 & Hm & Ho). txinv Hm. tests.
  apply bind_inr in Ho as (src & d1 & Hsrc & Ho). txinv Hsrc.
  apply bind_inr in Ho as ([] & d1 & Hc & Ho). txinv Hc.
  apply bind_inr in Ho as (env & d1 & Henv & Ho). txinv Henv.
  apply bind_inr in Ho as (key & d1 & Hkey & Ho). txinv Hkey.
  apply bind_inr in Ho as ([] & d1 & Hv & Ho). txinv Hv.
  apply bind_inr in Ho as (t & d1 & Ht & Ho). apply transferIn_effect in Ht as (-> & Ht & Hcom & Hs & Ha). tests.
  destruct (st_offer _ _ HI _ _ Hoffer) as (row & t0 & Hrow & _ & Hman & _).
  destruct (live_source d _ t HI Ht) as (row' & Hrow' & _ & _ & Htr); [by rewrite Hs|].
  rewrite Hrow in Hrow'. injection Hrow' as <-. rewrite Hs in Htr. apply tracked_attempt in Htr as [Hready _].
  unfold setStatus in Ho. txinv Ho. eapply (move_changes _ _ _ row t _ (Some _) transferActionAccept); try done.
  split; try done.
  - intros o [= <-]. split; [done|]. by left.
  - rewrite Hs. by intros [?|?].
Qed.

Lemma begin_mutation permit now d r d' : Staged d -> Admits permit now d ->
  beginMutation permit d = inr (r, d') -> Changed now d d'.
Proof.
  intros HI HA Ho. unfold beginMutation in Ho.
  apply bind_inr in Ho as (t & d1 & Ht & Ho). apply transferIn_effect in Ht as (-> & Ht & Hcom & Hs & Ha). tests.
  destruct (live_source d _ t HI Ht) as (row & Hrow & _ & _ & Htr); [by rewrite Hs|].
  rewrite Hs in Htr. apply tracked_attempt in Htr as [Hready _].
  unfold setStatus in Ho. txinv Ho. rewrite <-moved_same.
  eapply (move_changes _ _ _ row t _ _ transferActionBegin); try done. split; try done.
  - intros o Ho. destruct (st_offer _ _ HI _ _ Ho) as (row' & t0 & Hrow' & Ht0 & Hman & Hof).
    rewrite Hrow in Hrow'. rewrite Ht in Ht0. injection Hrow' as <-. injection Ht0 as <-. split; [done|].
    unfold offered in *. destruct (of_consumed o); [by right; left|congruence].
  - intros _. by left.
Qed.

Lemma complete_mutation permit now d r d' : Staged d -> Admits permit now d ->
  completeMutation permit d = inr (r, d') -> Changed now d d'.
Proof.
  intros HI HA Ho. unfold completeMutation in Ho.
  apply bind_inr in Ho as (t & d1 & Ht & Ho). apply transferIn_effect in Ht as (-> & Ht & Hcom & Hs & Ha). tests.
  apply bind_inr in Ho as (spec & d1 & Hl & Ho). apply loadedSpec_effect in Hl as (-> & row & Hrow & -> & Hcon).
  destruct (live_source d _ t HI Ht) as (row' & Hrow' & _ & _ & Htr); [by rewrite Hs|].
  rewrite Hrow in Hrow'. injection Hrow' as <-. rewrite Hs in Htr. apply tracked_attempt in Htr as [Hready _].
  unfold setStatus in Ho. txinv Ho. tests. rewrite <-moved_same.
  pose proof (proj1 (mexists_false _ (chunks d)) Hs2) as Hs3. clear Hs2. rename Hs3 into Hs2.
  eapply (move_changes _ _ _ row t _ _ transferActionComplete); try done. split; try done.
  - intros o Ho. destruct (st_offer _ _ HI _ _ Ho) as (row' & t0 & Hrow' & Ht0 & Hman & Hof).
    rewrite Hrow in Hrow'. rewrite Ht in Ht0. injection Hrow' as <-. injection Ht0 as <-. split; [done|].
    unfold offered in *. destruct (of_consumed o); [by right; right|congruence].
  - intros _. by right.
  - intros _ i Hi. apply (st_ready _ _ HI _ _ Hrow) in Hready. destruct (Hready i Hi) as [c Hc].
    exists c. split; [done|]. specialize (Hs2 _ _ Hc). unfold unreceived in Hs2. simpl in Hs2.
    rewrite eqb_refl in Hs2. simpl in Hs2. tests. done.
Qed.
End Life.
