(* ===== verification/SourceRuns.v ===== *)
(** * The journal of permits and operations

    What holds of the registered permits, the recorded operations, the ledger
    and the tombstones, and the effect of every redemption: the invariant is
    kept, each transfer moves by at most one [transition], permits and recorded
    operations last, and the operation is recorded with its result.  Then the
    calls of the service, and that every one of them does as much. *)

From S2P Require Import Prelude GoTime Text Sha256 Attachment SourceStore SourceInv.
Open Scope Z_scope.

(** ** Permits and their encoding *)
Section Codec.
Context `{Laws : V3Laws}.

Lemma permit_keys p : StronglySorted Z.lt (fst <$> permitWire p).
Proof. simpl. repeat constructor; lia. Qed.

Lemma encoded_permit p raw : EncodePermit p = inr raw -> validatePermit p = inr tt /\ raw = cbor_Marshal (permitWire p).
Proof.
  unfold EncodePermit. intros He. apply res_bind_inr in He as ([] & Hv & He).
  apply (proj1 (res_ret_inr _ _)) in He. done.
Qed.

(** A permit as it comes off the wire. *)
Definition wirePermit (p : Permit) : Prop := wireMap (permitWire p).

Lemma EncodePermit_inj p q raw : wirePermit p -> wirePermit q ->
  EncodePermit p = inr raw -> EncodePermit q = inr raw -> p = q.
Proof.
  intros Hwp Hwq [_ Hp]%encoded_permit [_ Hq]%encoded_permit. subst raw.
  apply (f_equal cbor_Unmarshal) in Hq. rewrite !unmarshal_marshal in Hq by (done || apply permit_keys).
  apply (inj Some) in Hq. destruct p, q. cbv [permitWire permitFields] in Hq. simpl in Hq. injection Hq. by intros; subst.
Qed.

Lemma fieldOf_wire m k v : wireMap m -> fieldOf m k = Some v -> wireValue v.
Proof.
  unfold wireMap. induction m as [|[k' v'] m IH]; intros Hm Hf; simpl in Hf; [done|].
  apply Forall_cons in Hm as [[_ Hv] Hm]. destruct (k =? k'); [by injection Hf as <-|by apply IH].
Qed.

Lemma arrayOf_wire n m k b : wireMap m -> Z.of_nat n <= MaxInt64 -> arrayOf n m k = Some b -> wireValue (CBytes b).
Proof.
  intros Hm Hn Ha. unfold arrayOf in Ha. destruct (fieldOf m k) as [[|b']|] eqn:Hf; [done|..].
  - case_bool_decide; [|done]. injection Ha as <-. by eapply fieldOf_wire.
  - injection Ha as <-. split; [|unfold len; by rewrite length_replicate].
    apply Forall_replicate. unfold isByte. lia.
Qed.

Lemma permitOf_wire m p : wireMap m -> permitOf m = Some p ->
  wirePermit p /\ 0 <= p_MaxBytes p /\ 0 <= p_MaxChunks p /\ 0 <= p_MaxOperations p.
Proof.
  intros Hw. unfold permitOf. intros Hm.
  repeat match type of Hm with
  | arrayOf ?n m ?k ≫= _ = Some _ => let a := fresh "a" in let Ha := fresh "Ha" in
      apply bind_Some in Hm as (a & Ha & Hm); apply (arrayOf_wire _ _ _ _ Hw) in Ha; [|by vm_compute]
  | intOf m ?k ≫= _ = Some _ => let a := fresh "a" in let Ha := fresh "Ha" in
      apply bind_Some in Hm as (a & Ha & Hm); apply intOf_range in Ha
  end.
  destruct (_ && _) in Hm; [|done]. injection Hm as <-. cbn [p_MaxBytes p_MaxChunks p_MaxOperations].
  split; [|lia]. unfold wirePermit, wireMap, permitWire, permitFields. cbn.
  repeat (constructor; [split; [by vm_compute|]|]); try done.
Qed.

Lemma decoded_permit raw p : DecodePermit raw = inr p -> EncodePermit p = inr raw /\ wirePermit p
  /\ 0 <= p_MaxBytes p /\ 0 <= p_MaxChunks p /\ 1 <= p_MaxOperations p.
Proof.
  unfold DecodePermit. intros Hd. apply res_bind_inr in Hd as ([] & _ & Hd).
  apply res_bind_inr in Hd as (p' & Hp & Hd). apply need_inr, bind_Some in Hp as (c & Hcb & Hc).
  apply permitOf_wire in Hc as (Hwire & Hb & Hk & Ho); [|by eapply unmarshal_wire].
  apply res_bind_inr in Hd as ([] & Hv & Hd). apply res_bind_inr in Hd as (canonical & Hcan & Hd).
  apply res_bind_inr in Hd as ([] & Heq & Hd). apply guard_inr, eqb_true in Heq as ->.
  apply (proj1 (res_ret_inr _ _)) in Hd as ->. do 4 (split; [done|]).
  unfold validatePermit in Hv. apply res_bind_inr in Hv as ([] & Hg & _). apply guard_inr in Hg. tests. lia.
Qed.

(** What decoding a permit gives. *)
Definition decodedPermit (permit : Permit) : Prop :=
  wirePermit permit /\ 0 <= p_MaxBytes permit /\ 0 <= p_MaxChunks permit /\ 1 <= p_MaxOperations permit.

Lemma verified_permit p authority now x : VerifyPermit p authority now = inr x ->
  validatePermit p = inr tt /\ 0 <= Unix now < p_ExpiresAt p.
Proof.
  unfold VerifyPermit. intros Hv. apply res_bind_inr in Hv as ([] & Hs & Hv). apply guard_inr in Hs.
  apply succeeds_true in Hs as [[] Hs]. apply res_bind_inr in Hv as ([] & Ht & _). apply guard_inr in Ht.
  tests. split; [done|lia].
Qed.
End Codec.

(** ** The journal of permits and operations *)
Section Journal.
Context `{Laws : V3Laws}.
Variable limits : sourceLimits.
Implicit Types (d : SourceDb).

(** The transfer a permit names is the staged one, and outlives the permit. *)
Definition boundBy d (row : IssuedRow) (p : Permit) : Prop :=
  exists t, transfers d !! is_transfer row = Some t /\ tr_commitment t = is_commitment row
    /\ p_ExpiresAt p <= tr_expires t.

(** The permits that are redeemed against a staged source. *)
Definition ordinary (p : Permit) : Prop :=
  p_Operation p <> permitOperationOutcome /\ p_Operation p <> permitOperationSourceInit.

Definition holds (p : Permit) (row : IssuedRow) : Prop :=
  wirePermit p /\ EncodePermit p = inr (is_permit row) /\ p_TransferID p = is_transfer row
  /\ p_StagedManifestCommitment p = is_commitment row.

Definition withinMax (p : Permit) d : Prop :=
  usedOperations (p_Serial p) d <= p_MaxOperations p /\ usedBytes (p_Serial p) d <= p_MaxBytes p
  /\ usedChunks (p_Serial p) d <= p_MaxChunks p.

Record Journal d : Prop := {
  jn_issued s row : issued d !! s = Some row ->
    exists p, holds p row /\ p_Serial p = s /\ p_ExpiresAt p <= is_retain row /\ (ordinary p -> boundBy d row p);
  jn_redeemed s o r : redeemed d !! (s, o) = Some r -> is_Some (issued d !! s);
  jn_once s a b x y : redeemed d !! (s, a) = Some x -> redeemed d !! (s, b) = Some y ->
    rd_idempotency x = rd_idempotency y -> a = b;
  jn_quota o r row p : wirePermit p -> redeemed d !! (p_Serial p, o) = Some r -> issued d !! p_Serial p = Some row ->
    EncodePermit p = inr (is_permit row) -> p_Operation p <> permitOperationOutcome -> withinMax p d;
  jn_ledger id l : ledger d !! id = Some l -> tr_commitment <$> transfers d !! id = Some (lg_commitment l)
    /\ lg_bytes l = maxOperationResultBytes * lg_operations l /\ 0 <= lg_operations l <= maxActivePermitsPerSource;
  jn_tomb id b : tombstones d !! id = Some b -> tr_commitment <$> transfers d !! id = Some (tb_commitment b);
}.

Definition kept d d' : Prop := forall id t, transfers d !! id = Some t ->
  exists t', transfers d' !! id = Some t' /\ tr_commitment t' = tr_commitment t /\ tr_expires t' = tr_expires t.

Lemma transfers_kept d d' : transfers d' = transfers d -> kept d d'.
Proof. intros Heq id t Ht. exists t. by rewrite Heq. Qed.

Lemma transition_keeps r a now proof r' : transition r a now proof = inr r' ->
  x_ManifestCommitment r' = x_ManifestCommitment r /\ x_ExpiresAt r' = x_ExpiresAt r.
Proof.
  unfold transition. destruct (_ || _); [done|]. destruct (_ <? 0); [done|].
  destruct a; repeat (case_match; try done); intros [= <-]; done.
Qed.

Lemma moves_kept now d d' : moves now d d' -> kept d d'.
Proof.
  intros Hm id t Ht. destruct (Hm id) as [Heq|Hs].
  - unfold lifecycle in Heq. rewrite Ht in Heq. destruct (transfers d' !! id) as [t'|]; [|done].
    exists t'. split; [done|]. injection Heq as Hc _ _ He. done.
  - unfold lifecycle in Hs. rewrite Ht in Hs. inversion Hs as [|a r r' proof Htr _ Hr Hr']; subst.
    destruct (transfers d' !! id) as [t'|] eqn:Ht'; [|done]. exists t'. split; [done|].
    apply transition_keeps in Htr. injection Hr' as ->. done.
Qed.

Lemma boundBy_kept d d' row p : kept d d' -> boundBy d row p -> boundBy d' row p.
Proof.
  intros Hk (t & Ht & Hc & He). destruct (Hk _ _ Ht) as (t' & Ht' & Hc' & He'). exists t'.
  rewrite Hc', He'. done.
Qed.

Lemma kept_commitment d d' id c : kept d d' -> tr_commitment <$> transfers d !! id = Some c ->
  tr_commitment <$> transfers d' !! id = Some c.
Proof.
  intros Hk Hc. destruct (transfers d !! id) as [t|] eqn:Ht; [|done]. destruct (Hk _ _ Ht) as (t' & -> & Hc' & _).
  simpl in *. by rewrite Hc'.
Qed.

(** A change of the staged sources keeps the journal. *)
Lemma journal_kept d d' : kept d d' -> sameJournal d d' -> Journal d -> Journal d'.
Proof.
  intros Hk (Hi & Hl & Hr & _ & _ & Htb) HJ.
  assert (forall s row', issued d' !! s = Some row' -> exists row, issued d !! s = Some row
            /\ is_permit row' = is_permit row /\ is_transfer row' = is_transfer row
            /\ is_commitment row' = is_commitment row /\ is_retain row <= is_retain row') as Hold.
  { intros s row' Hrow'. specialize (Hi s). rewrite Hrow' in Hi. destruct (issued d !! s) as [row|]; [|done].
    exists row. naive_solver. }
  split.
  - intros s row' Hrow'. destruct (Hold s row' Hrow') as (row & Hrow & Hp & Ht & Hc & Hret).
    destruct (jn_issued _ HJ s row Hrow) as (p & He & Hs & Hx & Hb). exists p.
    unfold holds, boundBy in *. rewrite Hp, Ht, Hc. do 2 (split; [done|]). split; [lia|]. intros Ho.
    by apply (boundBy_kept d d' row), Hb.
  - intros s o r Hrd. rewrite Hr in Hrd. destruct (jn_redeemed _ HJ _ _ _ Hrd) as [row Hrow].
    specialize (Hi s). rewrite Hrow in Hi. by destruct (issued d' !! s).
  - intros s a b x y. rewrite Hr. apply (jn_once _ HJ).
  - intros o r row' p Hw Hrd Hrow' He Hop. unfold withinMax, usedOperations, usedBytes, usedChunks. rewrite Hr in *.
    destruct (Hold _ row' Hrow') as (row & Hrow & Hp & _). rewrite Hp in He. by eapply (jn_quota _ HJ).
  - intros id l' Hl'. specialize (Hl id). rewrite Hl' in Hl. destruct (ledger d !! id) as [l|] eqn:Hll; [|done].
    destruct Hl as (Hc & Ho & Hb & _). destruct (jn_ledger _ HJ id l Hll) as (Hcom & Hlb & Hlo).
    rewrite Hc, Ho, Hb. split; [by eapply kept_commitment|done].
  - intros id b Hb. apply Htb in Hb as [Hb|Hb]; [|done].
    by eapply kept_commitment, (jn_tomb _ HJ).
Qed.

(** *** Admission to the ledger *)
Lemma ledger_effect spec now d x d' : Journal d ->
  tr_commitment <$> transfers d !! ss_TransferID spec = Some (ss_ManifestCommitment spec) ->
  admitLedgerOperationTx limits spec maxOperationResultBytes now d = inr (x, d') ->
  exists led, d' = set_ledger led d /\ Journal d'.
Proof.
  intros HJ Hcom Ha. unfold admitLedgerOperationTx in Ha. txinv Ha. tests.
  eexists. split; [reflexivity|]. destruct HJ as [Hi Hr Ho Hq Hl Ht]. split; try done.
  intros id l. simpl. rewrite lookup_insert_Some. intros [[<- <-]|[_ Hold]]; [|by apply Hl]. simpl.
  split; [done|]. destruct (ledger d !! ss_TransferID spec) as [l|] eqn:Hll; simpl in *;
    [apply Hl in Hll as (_ & ? & ?)|]; unfold maxOperationResultBytes, maxActivePermitsPerSource in *; lia.
Qed.

(** The permit has room for the operation. *)
Definition room (permit : Permit) (bytes chunks : Z) d : Prop :=
  usedOperations (p_Serial permit) d + 1 <= p_MaxOperations permit
  /\ usedBytes (p_Serial permit) d + bytes <= p_MaxBytes permit
  /\ usedChunks (p_Serial permit) d + chunks <= p_MaxChunks permit.

Lemma room_frame permit bytes chunks d d' : redeemed d' = redeemed d ->
  room permit bytes chunks d -> room permit bytes chunks d'.
Proof. intros Heq. unfold room, usedOperations, usedBytes, usedChunks. by rewrite Heq. Qed.

(** *** Recording an operation *)
Lemma used_recorded (f : RedeemedRow -> Z) s o r d : redeemed d !! (s, o) = None ->
  msum (fun k row => if eqb k.1 s then f row else 0) (<[(s, o) := r]> (redeemed d))
  = f r + msum (fun k row => if eqb k.1 s then f row else 0) (redeemed d).
Proof. intros Hnew. rewrite msum_insert_new by done. simpl. by rewrite eqb_refl. Qed.

Lemma used_other (f : RedeemedRow -> Z) s s' o r d : redeemed d !! (s, o) = None -> s <> s' ->
  msum (fun k row => if eqb k.1 s' then f row else 0) (<[(s, o) := r]> (redeemed d))
  = msum (fun k row => if eqb k.1 s' then f row else 0) (redeemed d).
Proof.
  intros Hnew Hne. rewrite msum_insert_new by done. simpl.
  by rewrite (proj2 (eqb_false _ _)) by done.
Qed.

Lemma record_effect permit operation bytes chunks result d x d' row :
  Journal d -> issued d !! p_Serial permit = Some row -> holds permit row ->
  (p_Operation permit <> permitOperationOutcome -> room permit bytes chunks d) ->
  recordOperation permit operation bytes chunks result d = inr (x, d') ->
  exists r, d' = set_redeemed (<[(p_Serial permit, o_OperationID operation) := r]> (redeemed d)) d
    /\ redeemedAs permit operation d = None /\ rd_result r = result /\ sameOperation r operation = true /\ Journal d'.
Proof.
  intros HJ Hrow (Hwp & He & _) Hmax Hr. unfold recordOperation in Hr. txinv Hr. tests.
  match goal with Hm : mexists _ _ = false |- _ => pose proof (proj1 (mexists_false _ _) Hm) as Hfree end. eexists. split; [reflexivity|].
  split; [done|]. split; [done|]. split; [by unfold sameOperation; simpl; rewrite !Z.eqb_refl, !eqb_refl|].
  destruct HJ as [Hi Hrd Ho Hq Hl Ht]. split; try done.
  - intros s o r. simpl. rewrite lookup_insert_Some. intros [[[= <- <-] <-]|[_ Hold]]; [done|by eapply Hrd].
  - intros s a b x y. simpl. rewrite !lookup_insert_Some.
    intros [[Hk <-]|[_ Hx]] [[Hk' <-]|[_ Hy]] Heq; simplify_eq; simpl in *; try done.
    + specialize (Hfree _ _ Hy). simpl in Hfree. by rewrite <-Heq, !eqb_refl in Hfree.
    + specialize (Hfree _ _ Hx). simpl in Hfree. by rewrite Heq, !eqb_refl in Hfree.
    + by eapply Ho.
  - intros o r row' p Hw Hin Hrow' He' Hop. simpl in *. unfold withinMax, usedOperations, usedBytes, usedChunks, mcount, indicator in *.
    simpl. destruct (decide (p_Serial permit = p_Serial p)) as [Heq|Hne].
    + rewrite <-Heq, Hrow in Hrow'. injection Hrow' as <-.
      assert (p = permit) as -> by (by eapply EncodePermit_inj). clear Heq.
      rewrite (used_recorded (fun _ => 1)), (used_recorded rd_bytes), (used_recorded rd_chunks) by done.
      destruct (Hmax Hop) as (? & ? & ?). unfold usedOperations, usedBytes, usedChunks, mcount, indicator in *. simpl. lia.
    + rewrite (used_other (fun _ => 1)), (used_other rd_bytes), (used_other rd_chunks) by done.
      apply lookup_insert_Some in Hin as [[[= ? _] _]|[_ Hin]]; [done|]. by eapply Hq.
Qed.

(** *** Issuing and forgetting *)
Lemma journal_issue permit row d : Journal d -> issued d !! p_Serial permit = None -> holds permit row ->
  p_ExpiresAt permit <= is_retain row -> (ordinary permit -> boundBy d row permit) -> Journal (set_issued (<[p_Serial permit := row]> (issued d)) d).
Proof.
  intros HJ Hnew Hrow Hx Hb. destruct HJ as [Hi Hrd Ho Hq Hl Ht]. split; try done.
  - intros s row'. simpl. rewrite lookup_insert_Some. intros [[<- <-]|[_ Hold]]; [by exists permit|by apply Hi].
  - intros s o r Hin. simpl. apply lookup_insert_is_Some'. right. by eapply Hrd.
  - intros o r row' p Hw Hin. simpl. rewrite lookup_insert_Some. intros [[Heq _]|[_ Hold]] He Hop.
    + apply Hrd in Hin as [y Hy]. congruence.
    + by eapply Hq.
Qed.

Lemma journal_purge cutoff d : Journal d -> Journal (purge cutoff d).
Proof.
  intros HJ. destruct HJ as [Hi Hrd Ho Hq Hl Ht].
  assert (forall s o r, redeemed (purge cutoff d) !! (s, o) = Some r -> redeemed d !! (s, o) = Some r
            /\ exists row, issued d !! s = Some row /\ cutoff < is_retain row) as Hred.
  { intros s o r. simpl. rewrite map_lookup_filter_Some. intros [Hin Hst]. split; [done|]. simpl in Hst.
    destruct (Hrd _ _ _ Hin) as [row Hrow]. exists row. rewrite Hrow in Hst. tests. done. }
  split.
  - intros s row. simpl. rewrite map_lookup_filter_Some. intros [Hin _]. by apply Hi.
  - intros s o r Hin. apply Hred in Hin as (_ & row & Hrow & Hr). exists row. simpl.
    apply map_lookup_filter_Some. split; [done|]. simpl. lia.
  - intros s a b x y [Hx _]%Hred [Hy _]%Hred. by eapply Ho.
  - intros o r row p Hw [Hin (row' & Hrow' & Hr)]%Hred. simpl. rewrite map_lookup_filter_Some. intros [Hrow _] He Hop.
    specialize (Hq _ _ _ _ Hw Hin Hrow He Hop). unfold withinMax, usedOperations, usedBytes, usedChunks, mcount in *.
    simpl. rewrite !msum_filter; [done|..]; intros [s o'] r' _ Hst; simpl in *;
      (destruct (eqb s (p_Serial p)) eqn:Hs; [|done]); apply eqb_true in Hs as ->; destruct Hst;
      rewrite Hrow'; apply Z.leb_gt; lia.
  - intros id l. simpl. rewrite map_lookup_filter_Some. intros [Hin _]. by apply Hl.
  - intros id b. simpl. rewrite map_lookup_filter_Some. intros [Hin _]. by apply Ht.
Qed.

(** ** What a call does *)
Record Inv d : Prop := { inv_staged : Staged limits d; inv_journal : Journal d }.

(** Permits and operations last as long as they are retained. *)
Definition lasting (now : Z) d d' : Prop := forall s row, issued d !! s = Some row -> Unix now < is_retain row ->
  (exists row', issued d' !! s = Some row' /\ is_permit row' = is_permit row /\ is_transfer row' = is_transfer row
     /\ is_commitment row' = is_commitment row /\ is_retain row <= is_retain row')
  /\ forall o r, redeemed d !! (s, o) = Some r -> redeemed d' !! (s, o) = Some r.

Definition Good (now : Z) d d' : Prop := Inv d' /\ moves now d d' /\ lasting now d d' /\ frozen d d'.

Lemma lasting_trans now a b c : lasting now a b -> lasting now b c -> lasting now a c.
Proof.
  intros Hab Hbc s row Hrow Hn. destruct (Hab s row Hrow Hn) as ((row1 & H1 & Hp1 & Ht1 & Hc1 & Hr1) & Hrd1).
  destruct (Hbc s row1 H1 ltac:(lia)) as ((row2 & H2 & Hp2 & Ht2 & Hc2 & Hr2) & Hrd2). split.
  - exists row2. rewrite Hp2, Ht2, Hc2, Hp1, Ht1, Hc1. do 4 (split; [done|]). lia.
  - intros o r Hr. by apply Hrd2, Hrd1.
Qed.

Lemma lasting_same now d d' : issued d' = issued d -> redeemed d' = redeemed d -> lasting now d d'.
Proof. intros Hi Hr s row Hrow _. rewrite Hi, Hr. split; [|done]. exists row. repeat (split; [done|]). lia. Qed.

Lemma lasting_journal now d d' : sameJournal d d' -> lasting now d d'.
Proof.
  intros (Hi & _ & Hr & _) s row Hrow _. specialize (Hi s). rewrite Hrow in Hi.
  split; [|by rewrite Hr]. destruct (issued d' !! s) as [row'|]; [|done]. exists row'. naive_solver.
Qed.

Lemma lasting_record now k r d : redeemed d !! k = None ->
  lasting now d (set_redeemed (<[k := r]> (redeemed d)) d).
Proof.
  intros Hnew s row Hrow _. split; [exists row; repeat (split; [done|]); lia|].
  intros o r' Hr. simpl. rewrite lookup_insert_ne; [done|congruence].
Qed.

Lemma lasting_issue now s row d : issued d !! s = None -> lasting now d (set_issued (<[s := row]> (issued d)) d).
Proof.
  intros Hnew s' row' Hrow _. split; [|done]. exists row'. simpl. rewrite lookup_insert_ne by congruence.
  repeat (split; [done|]). lia.
Qed.

Lemma lasting_purge now d : Journal d -> lasting now d (purge (Unix now) d).
Proof.
  intros HJ s row Hrow Hn. split.
  - exists row. split; [apply map_lookup_filter_Some; split; [done|simpl; lia]|]. repeat (split; [done|]). lia.
  - intros o r Hr. simpl. apply map_lookup_filter_Some. split; [done|]. simpl. rewrite Hrow. by apply Z.leb_gt.
Qed.

Lemma moves_frame now d d1 d2 d3 : sameStaging d d1 -> moves now d1 d2 -> sameStaging d2 d3 -> moves now d d3.
Proof.
  intros (_ & H1 & _) Hm (Hs3 & H3 & Hc3 & _ & _ & _ & Hr3) id. specialize (Hm id). unfold lifecycle in *.
  rewrite <-H1, H3. destruct Hm as [Hm|Hm]; [by left|right].
  destruct Hm as [c e r Ht|a r r' proof Ht [Hj1 Hj2]]; [by eapply LifeCreate|eapply LifeAct; [done|]].
  unfold justified, allStored, allReceived in *. rewrite Hs3, Hc3, Hr3. done.
Qed.

Lemma moves_same now d d' : transfers d' = transfers d -> moves now d d'.
Proof. intros Heq id. left. unfold lifecycle. by rewrite Heq. Qed.

Lemma sameStaging_kept d d' : sameStaging d d' -> kept d d'.
Proof. intros (_ & Ht & _). by apply transfers_kept. Qed.

(** A change of the staged sources, between two changes of the journal. *)
Lemma good_change now d d1 d2 d3 : Staged limits d -> sameStaging d d1 -> Journal d1 -> Changed limits now d1 d2 ->
  sameStaging d2 d3 -> (Journal d2 -> Journal d3) -> lasting now d d1 -> lasting now d2 d3 -> Good now d d3.
Proof.
  intros HS H1 HJ [Hc Hj] H3 HJ3 HL1 HL3. pose proof (staged_frame _ _ _ H1 HS) as HS1.
  pose proof (change_moves _ _ _ _ HS1 Hc) as Hm. split; [|split; [by eapply moves_frame|split]].
  2: { eapply lasting_trans; [done|]. eapply lasting_trans; [by apply lasting_journal|done]. }
  2: { eapply frozen_trans; [by apply frozen_same|]. eapply frozen_trans; [by eapply change_frozen|by apply frozen_same]. }
  split.
  - eapply staged_frame; [done|]. by eapply change_staged.
  - apply HJ3. eapply journal_kept; [|done..]. by eapply moves_kept.
Qed.

Lemma good_frame now d d' : Inv d -> sameStaging d d' -> Journal d' -> lasting now d d' -> Good now d d'.
Proof.
  intros [HS _] Hf HJ HL. split; [split; [by eapply staged_frame|done]|]. split; [|split; [done|by apply frozen_same]].
  apply moves_same. by destruct Hf as (_ & ? & _).
Qed.

Lemma good_same now d : Inv d -> Good now d d.
Proof. intros HI. apply good_frame; [done|apply sameStaging_refl|apply HI|by apply lasting_same]. Qed.

(** The live transfer of a registered permit. *)
Lemma admitted permit row authority now x d : Journal d -> issued d !! p_Serial permit = Some row ->
  holds permit row -> VerifyPermit permit authority now = inr x -> ordinary permit ->
  Admits permit now d.
Proof.
  intros HJ Hrow (Hwp & He & _) Hv Ho. apply verified_permit in Hv as (_ & Hn & Hx).
  destruct (jn_issued _ HJ _ _ Hrow) as (p & (Hw & Hp & Hid & Hc) & Hs & _ & Hb).
  assert (p = permit) as -> by (by eapply EncodePermit_inj). destruct (Hb Ho) as (t & Ht & _ & Hexp).
  split; [done|]. intros t' Ht' _. rewrite Hid in Ht'. rewrite Ht in Ht'. injection Ht' as <-. lia.
Qed.

Lemma issuedPermit_effect permit raw d x d' : wirePermit permit -> EncodePermit permit = inr raw -> issuedPermit permit raw d = inr (x, d') ->
  d' = d /\ exists row, issued d !! p_Serial permit = Some row /\ is_permit row = raw /\ holds permit row.
Proof.
  intros Hw He Hi. unfold issuedPermit in Hi. txinv Hi. tests. split; [done|]. exists row. subst raw. done.
Qed.

Lemma admission_route operation permit authority route request now x :
  VerifyAttachmentOperationAdmission operation permit authority route request now = inr x ->
  r_Operation route = p_Operation permit /\ 0 <= Unix now.
Proof.
  unfold VerifyAttachmentOperationAdmission. intros Hv. apply res_bind_inr in Hv as ([] & Hr & Hv).
  apply res_bind_inr in Hv as ([] & _ & Hv). apply res_bind_inr in Hr as ([] & Hr & _). apply guard_inr in Hr.
  apply res_bind_inr in Hv as ([] & Ho & _). apply res_bind_inr in Ho as ([] & _ & Ho).
  apply res_bind_inr in Ho as ([] & Ht & _). apply guard_inr in Ht. tests. done.
Qed.
Lemma request_route operation permit authority route request now x :
  VerifyAttachmentOperationRequest operation permit authority route request now = inr x ->
  r_Operation route = p_Operation permit /\ 0 <= Unix now.
Proof.
  unfold VerifyAttachmentOperationRequest. intros Hv. apply res_bind_inr in Hv as ([] & Hr & _).
  by eapply admission_route.
Qed.

Lemma compatible_ordinary permit status attempt : p_Operation permit <> permitOperationOutcome ->
  permitCompatibleSourceStatus permit status attempt = true -> ordinary permit.
Proof.
  intros Ho Hc. split; [done|]. intros Hi. unfold permitCompatibleSourceStatus in Hc. by rewrite Hi in Hc.
Qed.

Lemma within_effect permit bytes chunks d x d' : withinPermit permit bytes chunks d = inr (x, d') -> d' = d
  /\ room permit bytes chunks d.
Proof. unfold withinPermit, room. intros Hw. txinv Hw. tests. split; [done|lia]. Qed.

Lemma freshIdempotency_effect permit operation d x d' : freshIdempotency permit operation d = inr (x, d') -> d' = d.
Proof. unfold freshIdempotency. intros Hf. by txinv Hf. Qed.


(** *** Redeeming a registered permit *)

(** The permit is registered and the operation has its result. *)
Definition recorded (permit : Permit) (operation : OperationRecord) (result : list Z) d : Prop :=
  (exists row, issued d !! p_Serial permit = Some row /\ holds permit row)
  /\ exists r, redeemedAs permit operation d = Some r /\ sameOperation r operation = true /\ rd_result r = result.

Lemma sameJournal_issued d d' s row : sameJournal d d' -> issued d !! s = Some row -> exists row',
  issued d' !! s = Some row' /\ is_permit row' = is_permit row /\ is_transfer row' = is_transfer row
  /\ is_commitment row' = is_commitment row.
Proof.
  intros (Hi & _) Hrow. specialize (Hi s). rewrite Hrow in Hi. destruct (issued d' !! s) as [row'|]; [|done].
  exists row'. naive_solver.
Qed.

Lemma changed_journal now d d' : Staged limits d -> Changed limits now d d' -> Journal d -> Journal d'.
Proof. intros HS [Hc Hj] HJ. eapply journal_kept; [|done..]. by eapply moves_kept, change_moves. Qed.

Lemma changed_holds now d d' permit row : Changed limits now d d' -> issued d !! p_Serial permit = Some row ->
  holds permit row -> exists row', issued d' !! p_Serial permit = Some row' /\ holds permit row'.
Proof.
  intros [_ Hj] Hrow Hh. destruct (sameJournal_issued _ _ _ _ Hj Hrow) as (row' & Hrow' & Hp & Ht & Hc).
  exists row'. unfold holds in *. by rewrite Hp, Ht, Hc.
Qed.

(** The record of an operation, after a change of the sources and of the journal. *)
Lemma good_record permit operation bytes chunks result now d d1 d2 d3 row x d' :
  Inv d -> sameStaging d d1 -> Journal d1 -> lasting now d d1 -> Changed limits now d1 d2 ->
  sameStaging d2 d3 -> Journal d3 -> lasting now d2 d3 -> issued d3 !! p_Serial permit = Some row -> holds permit row ->
  (p_Operation permit <> permitOperationOutcome -> room permit bytes chunks d3) ->
  recordOperation permit operation bytes chunks result d3 = inr (x, d') ->
  Good now d d' /\ recorded permit operation result d'.
Proof.
  intros [HS _] H1 HJ1 HL1 Hch H3 HJ3 HL3 Hrow Hh Hroom Hrec.
  eapply record_effect in Hrec as (r & -> & Hnew & Hres & Hsame & HJ'); [|done|done|apply Hh|done].
  split.
  - eapply (good_change _ _ d1 d2); try done. eapply lasting_trans; [done|by apply lasting_record].
  - split; [by exists row|]. exists r. unfold redeemedAs. simpl. by rewrite lookup_insert_eq.
Qed.

Theorem redeem_good permit operation route request authority now mutation d r d' :
  Inv d -> decodedPermit permit -> r_Operation route <> permitOperationOutcome ->
  (forall d1 r d2, Staged limits d1 -> Admits permit now d1 -> mutation d1 = inr (r, d2) -> Changed limits now d1 d2) ->
  redeemPermitOperation limits permit operation route request authority now mutation d = inr (r, d') ->
  Good now d d' /\ recorded permit operation r.1 d'.
Proof.
  intros HI Hdec Hop Hmut Hr. unfold redeemPermitOperation in Hr.
  apply bind_inr in Hr as (v & d1 & Hv & Hr). txinv Hv. rename Hl into Hverified.
  apply bind_inr in Hr as (used & d1 & Hu & Hr). txinv Hu.
  destruct (request_route _ _ _ _ _ _ _ Hl) as [Hroute _]. rewrite Hroute in Hop.
  apply bind_inr in Hr as (raw & d1 & He & Hr). txinv He. rename Hl0 into Henc.
  apply bind_inr in Hr as ([] & d1 & Hi & Hr). apply issuedPermit_effect in Hi as (-> & row & Hrow & Hraw & Hh); [|by destruct Hdec|done].
  apply bind_inr in Hr as (old & d1 & Ho & Hr). txinv Ho. destruct (redeemedAs permit operation d) as [e|] eqn:Hold.
  { txinv Hr. split; [by apply good_same|]. split; [by exists row|by exists e]. }
  apply bind_inr in Hr as (t & d1 & Ht & Hr). txinv Ht. apply transferOf_Some in Hf as [Ht Hcom].
  apply bind_inr in Hr as ([] & d1 & Hc & Hr). txinv Hc. apply compatible_ordinary in Hc; [|done].
  apply bind_inr in Hr as (spec & d1 & Hl' & Hr). apply loadedSpec_effect in Hl' as (-> & srow & Hsrow & -> & Hcon).
  apply bind_inr in Hr as ([] & d1 & Hm & Hr). txinv Hm. tests.
  apply bind_inr in Hr as ([] & d1 & Hadm & Hr).
  apply ledger_effect in Hadm as (led & -> & HJ1); [|apply HI|rewrite Hm; simpl; rewrite Ht; simpl; by rewrite Hcom].
  apply bind_inr in Hr as ([] & d1 & Hfr & Hr). apply freshIdempotency_effect in Hfr as ->.
  apply bind_inr in Hr as ([] & d1 & Hw & Hr). apply within_effect in Hw as [-> Hw].
  apply bind_inr in Hr as (result & d2 & Hmu & Hr).
  apply bind_inr in Hr as ([] & d3 & Hlen & Hr). txinv Hlen.
  apply bind_inr in Hr as ([] & d3 & Hrec & Hr). txinv Hr. simpl.
  assert (sameStaging d (set_ledger led d)) as Hf1 by done.
  assert (Changed limits now (set_ledger led d) d2) as Hch.
  { eapply Hmut; [by eapply staged_frame, HI|by eapply (admitted _ row), Hc|done]. }
  destruct (changed_holds _ _ _ permit row Hch Hrow Hh) as (row' & Hrow' & Hh').
  eapply (good_record _ _ _ _ _ _ d _ d2 d2); try done;
    [by apply lasting_same|by eapply changed_journal, HJ1; [eapply staged_frame, HI|]|by apply lasting_same|].
  intros _. eapply room_frame; [|exact Hw]. by destruct Hch as [_ (_ & _ & -> & _)].
Qed.

(** *** Downloads *)
Lemma load_effect id i d found d' : loadDownloadCiphertextTx id i d = inr (found, d') -> d' = d
  /\ exists c, chunks d !! (id, i) = Some c /\ found = (ch_ciphertext c, ch_commitment c).
Proof.
  unfold loadDownloadCiphertextTx. intros Hl.
  apply bind_inr in Hl as (spec & d1 & Hs & Hl). apply loadedSpec_effect in Hs as (-> & _).
  txinv Hl. tests. split; [done|]. exists row. split; [done|]. congruence.
Qed.

(** A stored chunk loads. *)
Lemma load_stored id i c d : Staged limits d -> chunks d !! (id, i) = Some c ->
  loadDownloadCiphertextTx id i d = inr ((ch_ciphertext c, ch_commitment c), d).
Proof.
  intros HS Hc. destruct (st_chunk _ _ HS _ _ _ Hc) as (row & Hrow & Hi & Hlen & Hcom).
  unfold loadDownloadCiphertextTx. apply bind_inr. exists (rowSpec id row), d. split.
  { unfold loadedSpec, loadSpecTx, mbind, Tx_bind, orElse, reads, must, lift, mret, Tx_ret. rewrite Hrow.
    by rewrite (st_spec _ _ HS _ _ Hrow). }
  apply bind_inr. exists tt, d. split; [apply must_inr; split; [apply Z.ltb_lt; simpl; lia|done]|].
  apply bind_inr. exists c, d. split; [apply fetch_inr; by exists c|].
  apply bind_inr. exists tt, d. split.
  { apply must_inr. split; [|done]. rewrite Hlen, Z.eqb_refl, Hcom. unfold ciphertextCommitment, len.
    by rewrite sum256_length. }
  apply bind_inr. exists tt, d. rewrite <-Hcom. split; [apply must_inr; split; [apply eqb_refl|done]|done].
Qed.

(** A receipt for a chunk, or the one already there. *)
Lemma receipt_changes id i c t now d x d' :
  transfers d !! id = Some t -> tr_status t = transferTransferring -> chunks d !! (id, i) = Some c ->
  (match receipts d !! (id, 1, i) with
   | Some commitment => must (eqb commitment (ch_commitment c)) "v3 receipt commitment replacement"
   | None => insertRow receipts set_receipts (id, 1, i) (ch_commitment c) "constraint v3_receipt_chunks"
   end) d = inr (x, d') -> Changed limits now d d' /\ chunks d' = chunks d.
Proof.
  intros Ht Hs Hc Hr. destruct (receipts d !! _) as [old|] eqn:Hold; txinv Hr; (split; [|done]).
  - split; [apply ChNone, sameStaging_refl|by apply sameJournal_by].
  - split; [|by apply sameJournal_by].
    eapply ChReceipted; [exact Ht|done|exact Hc|by left|apply sameStaging_refl].
Qed.

Theorem download_good permit operation route request authority now d r d' : Inv d -> decodedPermit permit ->
  r_Operation route <> permitOperationOutcome ->
  redeemDownload limits permit operation route request authority now d = inr (r, d') ->
  Good now d d' /\ recorded permit operation r.1.2 d'
  /\ exists c, chunks d' !! (p_TransferID permit, r_ChunkIndex route) = Some c /\ r.1.1 = ch_ciphertext c.
Proof.
  intros HI Hdec Hop Hr. unfold redeemDownload in Hr.
  apply bind_inr in Hr as (v & d1 & Hv & Hr). txinv Hv.
  apply bind_inr in Hr as (used & d1 & Hu & Hr). txinv Hu.
  destruct (admission_route _ _ _ _ _ _ _ Hl0) as [Hroute _]. rewrite Hroute in Hop.
  apply bind_inr in Hr as (raw & d1 & He & Hr). txinv He.
  apply bind_inr in Hr as ([] & d1 & Hi & Hr). apply issuedPermit_effect in Hi as (-> & row & Hrow & Hraw & Hh); [|by destruct Hdec|done].
  apply bind_inr in Hr as (old & d1 & Ho & Hr). txinv Ho. destruct (redeemedAs permit operation d) as [e|] eqn:Hold.
  { apply bind_inr in Hr as ([] & d1 & Hsame & Hr). txinv Hsame.
    apply bind_inr in Hr as (found & d1 & Hload & Hr). txinv Hr. pose proof Hload as Hload'.
    apply load_effect in Hload' as (-> & c & Hc & ->).
    split; [by apply good_same|]. split; [split; [by exists row|by exists e]|].
    by exists c. }
  apply bind_inr in Hr as (t & d1 & Ht & Hr). apply transferIn_effect in Ht as (-> & Ht & Hcom & Hst & _). tests.
  apply bind_inr in Hr as (spec & d1 & Hl' & Hr). apply loadedSpec_effect in Hl' as (-> & srow & Hsrow & -> & Hcon).
  apply bind_inr in Hr as ([] & d1 & Hm & Hr). txinv Hm. tests.
  apply bind_inr in Hr as (found & d1 & Hload & Hr). pose proof Hload as Hload'.
  apply load_effect in Hload' as (-> & c & Hc & ->).
  apply bind_inr in Hr as ([] & d1 & Hadm & Hr).
  apply ledger_effect in Hadm as (led & -> & HJ1); [|apply HI|rewrite Hm; simpl; rewrite Ht; simpl; by rewrite Hcom].
  apply bind_inr in Hr as ([] & d1 & Hfr & Hr). apply freshIdempotency_effect in Hfr as ->.
  apply bind_inr in Hr as ([] & d1 & Hw & Hr). apply within_effect in Hw as [-> Hw].
  apply bind_inr in Hr as (old & d1 & Hrd & Hr). txinv Hrd.
  apply bind_inr in Hr as ([] & d2 & Hrc & Hr).
  cbn [fst snd] in Hrc, Hr, Hw. eapply (receipt_changes _ _ c t now (set_ledger led d)) in Hrc as (Hch & Hck); [|done..].
  apply bind_inr in Hr as ([] & d3 & Hlen & Hr). txinv Hlen.
  apply bind_inr in Hr as ([] & d3 & Hrec & Hr). txinv Hr. simpl.
  assert (sameStaging d (set_ledger led d)) as Hf1 by done.
  destruct (changed_holds _ _ _ permit row Hch Hrow Hh) as (row' & Hrow' & Hh').
  assert (chunks d3 = chunks d2) as Hck3.
  { unfold recordOperation in Hrec. by txinv Hrec. }
  enough (Good now d d3 /\ recorded permit operation
            (resultOf permit transferTransferring 1 (tr_expires t)) d3) as [HG HR].
  { split; [done|]. split; [done|]. exists c. by rewrite Hck3, Hck. }
  eapply (good_record _ _ _ _ _ _ d _ d2 d2); try done;
    [by apply lasting_same|by eapply changed_journal, HJ1; [eapply staged_frame, HI|]|by apply lasting_same|].
  intros _. eapply room_frame; [|exact Hw]. by destruct Hch as [_ (_ & _ & -> & _)].
Qed.

(** *** Source-init *)
Lemma issued_holds permit row d : Journal d -> wirePermit permit -> issued d !! p_Serial permit = Some row ->
  EncodePermit permit = inr (is_permit row) -> holds permit row.
Proof.
  intros HJ Hw Hrow He. destruct (jn_issued _ HJ _ _ Hrow) as (p & Hp & _).
  by assert (p = permit) as <- by (eapply EncodePermit_inj; [apply Hp|done|apply Hp|done]).
Qed.

Lemma verified_genuine validate msg raw now source : verifySource validate msg raw now = inr source -> genuine source.
Proof. unfold verifySource. intros Hv. resinv Hv. done. Qed.

(** Nothing is used under a serial that is not registered. *)
Lemma unused s d : Journal d -> issued d !! s = None ->
  usedOperations s d = 0 /\ usedBytes s d = 0 /\ usedChunks s d = 0.
Proof.
  intros HJ Hnone. unfold usedOperations, usedBytes, usedChunks, mcount, indicator.
  rewrite !msum_zero; [done|..]; intros [s' o] r Hr; simpl; (destruct (eqb s' s) eqn:Hs; [|done]);
    apply eqb_true in Hs as ->; apply (jn_redeemed _ HJ) in Hr as [x Hx]; congruence.
Qed.

(** The permit is registered and its operation recorded, after the source is created. *)
Lemma register_good spec permit row operation result now d d1 d2 r d' :
  Inv d -> sameStaging d d1 -> Journal d1 -> lasting now d d1 -> Changed limits now d1 d2 -> Journal d2 ->
  tr_commitment <$> transfers d2 !! ss_TransferID spec = Some (ss_ManifestCommitment spec) ->
  holds permit row -> p_ExpiresAt permit <= is_retain row -> p_Operation permit = permitOperationSourceInit ->
  decodedPermit permit ->
  (admitLedgerOperationTx limits spec maxOperationResultBytes now;;
   absent issued (fun old => eqb (is_permit old) (is_permit row)) "constraint v3_issued_permits";;
   insertRow issued set_issued (p_Serial permit) row "constraint v3_issued_permits";;
   recordOperation permit operation 0 0 result;;
   mret (result, false)) d2 = inr (r, d') ->
  Good now d d' /\ recorded permit operation r.1 d' /\ requests d' = requests d2.
Proof.
  intros HI H1 HJ1 HL1 Hch HJ2 Hcom Hh Hx Hop (_ & Hb & Hk & Ho) Hr.
  apply bind_inr in Hr as ([] & d3 & Hadm & Hr). apply ledger_effect in Hadm as (led & -> & HJ3); [|done..].
  apply bind_inr in Hr as ([] & d3 & Habs & Hr). txinv Habs.
  apply bind_inr in Hr as ([] & d3 & Hins & Hr). txinv Hins.
  apply (journal_issue permit row) in HJ3 as HJ4; [|done..|by intros [_ ?]].
  apply bind_inr in Hr as ([] & d3 & Hrec & Hr). txinv Hr. simpl.
  assert (requests d3 = requests d2) as -> by (unfold recordOperation in Hrec; by txinv Hrec).
  enough (Good now d d3 /\ recorded permit operation result d3) as [HG HR] by done.
  eapply (good_record _ _ _ _ _ _ d d1 d2 (set_issued (<[p_Serial permit := row]> (issued d2)) (set_ledger led d2)) row);
    try done; [|by apply lookup_insert_eq|].
  { eapply lasting_trans; [by apply lasting_same|by apply (lasting_issue _ _ _ (set_ledger led d2))]. }
  intros _. destruct (unused (p_Serial permit) (set_ledger led d2)) as (H2 & H3 & H4); [done..|].
  eapply (room_frame _ _ _ (set_ledger led d2)); [done|]. unfold room. lia.
Qed.

Theorem sourceInit_good permit operation route request authority now d r d' : Inv d ->
  decodedPermit permit ->
  redeemSourceInit limits permit operation route request authority now d = inr (r, d') ->
  Good now d d' /\ recorded permit operation r.1 d'
  /\ requests d' = requests d.
Proof.
  intros HI Hdec Hr. unfold redeemSourceInit in Hr.
  apply bind_inr in Hr as ([] & d1 & Hop & Hr). txinv Hop. apply Z.eqb_eq in Hop.
  apply bind_inr in Hr as (source & d1 & Hsrc & Hr). txinv Hsrc. apply verified_genuine in Hl. rename a into source.
  apply bind_inr in Hr as ([] & d1 & Hv & Hr). txinv Hv.
  apply bind_inr in Hr as (used & d1 & Hu & Hr). txinv Hu.
  apply bind_inr in Hr as ([] & d1 & Hm & Hr). txinv Hm. tests.
  apply bind_inr in Hr as (raw & d1 & He & Hr). txinv He.
  apply bind_inr in Hr as (pe & d1 & Hpe & Hr). txinv Hpe.
  apply bind_inr in Hr as (se & d1 & Hse & Hr). txinv Hse.
  apply bind_inr in Hr as (journal & d1 & Hj & Hr). txinv Hj. rename row into journal.
  apply bind_inr in Hr as ([] & d1 & Hjp & Hr). txinv Hjp. tests.
  apply bind_inr in Hr as (old & d1 & Ho & Hr). txinv Ho.
  destruct (issued d !! p_Serial permit) as [row|] eqn:Hrow.
  { txinv Hr. tests. split; [by apply good_same|].
    split; [|done]. split; [exists row; split; [done|]; eapply issued_holds; [apply HI|by destruct Hdec|done|congruence]|by eexists]. }
  apply bind_inr in Hr as ([] & d1 & Hfe & Hr). txinv Hfe.
  apply bind_inr in Hr as (b & d2 & Hinit & Hr).
  apply bind_inr in Hr as ([] & d3 & Hb & Hr). txinv Hb.
  set (df := set_fences _ d) in Hinit. assert (sameStaging d df) as Hf1 by done.
  assert (Journal df) as HJf by (destruct HI as [_ []]; by split).
  assert (Staged limits df) as HSf by (by eapply staged_frame, HI).
  pose proof (initialize_changes limits source now df true d2 Hl Hinit) as Hch.
  pose proof (changed_journal _ _ _ HSf Hch HJf) as HJ2.
  apply bind_inr in Hr as (spec' & d3 & Hs' & Hr). txinv Hs'.
  pose proof Hinit as Hcr. apply initialize_effect in Hcr as (spec & q & adm & Hspec & Hd2 & HC); [|done].
  rewrite Hspec in Hl5. injection Hl5 as <-.
  assert (requests d2 = requests d) as Hq by (by rewrite Hd2).
  rewrite <-Hq. eapply (register_good spec permit _ operation _ now d df d2); [done..|by apply lasting_same|done|done| | | |done|done|exact Hr].
  - rewrite Hd2. simpl. by rewrite lookup_insert_eq.
  - split; [by destruct Hdec|done].
  - unfold unixSeconds in Hl3. resinv Hl3. simpl. unfold retainFrom. lia.
Qed.

(** *** Outcomes *)
Lemma unchanged now d : Changed limits now d d.
Proof. split; [apply ChNone, sameStaging_refl|by apply sameJournal_by]. Qed.

Lemma origin_effect outcome now d r d' : outcomeOriginPermitTx outcome now d = inr (r, d') -> d' = d.
Proof. unfold outcomeOriginPermitTx. intros Ho. by txinv Ho. Qed.

Lemma fences_journal f d : Journal d -> Journal (set_fences f d).
Proof. intros []. by split. Qed.

Lemma answer_effect permit original now d answer d' : Inv d -> 0 <= Unix now ->
  outcomeAnswer limits permit original now d = inr (answer, d') ->
  exists d1, sameStaging d d1 /\ issued d1 = issued d /\ redeemed d1 = redeemed d /\ Journal d1 /\ Changed limits now d1 d'.
Proof.
  intros HI Hn Ha. unfold outcomeAnswer in Ha.
  apply bind_inr in Ha as (known & d1 & Hk & Ha). txinv Hk. apply bind_inr in Ha as (present & d1 & Hp & Ha). txinv Hp.
  destruct (resultOfSerial _ d) as [result|].
  { apply bind_inr in Ha as (dec & d1 & Hdec & Ha). txinv Hdec. txinv Ha.
    exists d. do 3 (split; [done|]). split; [apply HI|apply unchanged]. }
  destruct (transferOf _ _ d) as [t|] eqn:Ht.
  - destruct (terminal _).
    { txinv Ha. exists d. do 3 (split; [done|]). split; [apply HI|apply unchanged]. }
    apply transferOf_Some in Ht as [Ht Hcom].
    apply bind_inr in Ha as (spec & d1 & Hl & Ha). apply loadedSpec_effect in Hl as (-> & row & Hrow & -> & Hcon).
    apply bind_inr in Ha as ([] & d1 & Hm & Ha). txinv Hm. tests.
    apply bind_inr in Ha as ([] & d1 & Hadm & Ha). txinv Hadm.
    apply ledger_effect in Hadm as (led & -> & HJ1); [|apply HI|rewrite Hm; simpl; rewrite Ht; simpl; by rewrite Hcom].
    apply bind_inr in Ha as ([] & d1 & Hend & Ha). txinv Hend. txinv Ha.
    exists (set_ledger led d). do 4 (split; [done|]).
    eapply terminalize_changes; [|done..|exact Hend]. by eapply staged_frame, HI.
  - apply bind_inr in Ha as ([] & d1 & Hm & Ha). txinv Hm.
    apply bind_inr in Ha as (fence & d1 & Hfe & Ha). txinv Hfe.
    apply bind_inr in Ha as ([] & d1 & Hins & Ha).
    assert (exists f, d1 = set_fences f d) as [f ->].
    { destruct (fences d !! _); txinv Hins; [by exists (fences d); destruct d|by eexists]. }
    txinv Ha. exists (set_fences f d). do 3 (split; [done|]). split; [by apply fences_journal, HI|apply unchanged].
Qed.

(** Admission of the outcome itself, where the source is still there. *)
Lemma admission_effect permit b known now d x d' : Inv d ->
  (if b : bool then
     let cannot := "cannot admit v3 outcome operation" in
     found ← orElse (loadSpecTx (p_TransferID permit)) cannot;
     match found with
     | Some spec =>
         must (eqb (ss_ManifestCommitment spec) (p_StagedManifestCommitment permit)) cannot;;
         orElse (admitLedgerOperationTx limits spec maxOperationResultBytes now) cannot
     | None => must known cannot
     end
   else mret tt) d = inr (x, d') -> sameStaging d d' /\ issued d' = issued d /\ redeemed d' = redeemed d /\ Journal d'.
Proof.
  intros [HS HJ] Ha. destruct b; [|by txinv Ha]. simpl in Ha.
  apply bind_inr in Ha as (found & d1 & Hl & Ha). txinv Hl. apply loadSpec_effect in Hl as [-> Hfound].
  destruct found as [spec|]; [|by txinv Ha]. destruct Hfound as (row & Hrow & -> & Hcon).
  apply bind_inr in Ha as ([] & d1 & Hm & Ha). txinv Hm. txinv Ha.
  destruct (st_track _ _ HS _ _ Hrow) as (t & Ht & Hc & _).
  apply ledger_effect in Ha as (led & -> & HJ1); [done|done|]. simpl. rewrite Ht. simpl. by rewrite Hc.
Qed.

Theorem outcome_good permit operation route request authority now d r d' : Inv d -> decodedPermit permit ->
  redeemOutcome limits permit operation route request authority now d = inr (r, d') ->
  Good now d d' /\ recorded permit operation r.1 d'.
Proof.
  intros HI Hdec Hr. unfold redeemOutcome in Hr.
  apply bind_inr in Hr as ([] & d1 & Hop & Hr). txinv Hop. tests.
  apply bind_inr in Hr as (v & d1 & Hv & Hr). txinv Hv. apply verified_permit in Hl as [_ [Hn _]].
  apply bind_inr in Hr as (used & d1 & Hu & Hr). txinv Hu.
  apply bind_inr in Hr as (raw & d1 & He & Hr). txinv He.
  apply bind_inr in Hr as (row & d1 & Hi & Hr). txinv Hi. rename row0 into row.
  apply bind_inr in Hr as ([] & d1 & Hraw & Hr). txinv Hraw. tests.
  assert (holds permit row) as Hh by (eapply issued_holds; [apply HI|by destruct Hdec|done|congruence]).
  apply bind_inr in Hr as (old & d1 & Ho & Hr). txinv Ho. destruct (redeemedAs permit operation d) as [e|] eqn:Hold.
  { txinv Hr. split; [by apply good_same|]. split; [by exists row|by exists e]. }
  apply bind_inr in Hr as (original & d1 & Hor & Hr). apply origin_effect in Hor as ->.
  apply bind_inr in Hr as ([[[result ex] adm] known] & d2 & Ha & Hr). cbn beta iota in Hr.
  apply answer_effect in Ha as (d1 & Hf1 & Hi1 & Hd1 & HJ1 & Hch); [|done..].
  assert (Staged limits d1) as HS1 by (by eapply staged_frame, HI).
  assert (Inv d2) as HI2.
  { split; [by eapply change_staged, Hch|by eapply changed_journal, HJ1]. }
  apply bind_inr in Hr as ([] & d3 & Had & Hr). apply admission_effect in Had as (Hf3 & Hi3 & Hd3 & HJ3); [|done].
  apply bind_inr in Hr as ([] & d4 & Hrec & Hr). txinv Hr. simpl.
  rewrite <-Hi1 in Hf. destruct (changed_holds _ _ _ permit row Hch Hf Hh) as (row' & Hrow' & Hh').
  rewrite <-Hi3 in Hrow'. eapply (good_record _ _ _ _ _ _ d d1 d2 d3); try done; by apply lasting_same.
Qed.
End Journal.

(** * Runs of the attachment store

    The calls the service makes on its store, their effect, and what holds of
    every run of them. *)

(** ** The calls *)
Section Calls.
Context `{V3Env}.

(** What the service runs on its store: a request of the attachment route
    (method, path, body and the two credentials), the minting of a permit and
    its registration (the permit is the one its encoding holds), the reaper, and the operations of the package
    on a staged source. *)
Inductive Call :=
  | CallAttach (method path : string) (body rawPermit rawOperation : list Z) (authority : AttachmentAuthority) (now : Z)
  | CallIssue (issuer : PermitIssuer) (random : nat -> option (list Z)) (request : PermitRequest)
      (authority : PermitIssuanceAuthority) (now : Z)
  | CallRegister (raw : list Z) (authority : AttachmentAuthority) (now : Z)
  | CallReap (now limit : Z)
  | CallStage (raw : list Z) (authority : AttachmentAuthority) (now : Z)
  | CallUpload (id : list Z) (index : N) (ciphertext : list Z) (now : Z)
  | CallCancel (id : list Z) (now : Z)
  | CallReserve (fileKey raw commitment : list Z).

Definition callTime (c : Call) : Z :=
  match c with
  | CallAttach _ _ _ _ _ _ now | CallIssue _ _ _ _ now | CallRegister _ _ now | CallReap now _
  | CallStage _ _ now | CallUpload _ _ _ now | CallCancel _ now => now
  | CallReserve _ _ _ => 0
  end.

Definition attach (limits : sourceLimits) (method path : string) (body rawPermit rawOperation : list Z)
    (authority : AttachmentAuthority) (now : Z) : Tx (list Z) :=
  permit ← lift (DecodePermit rawPermit);
  operation ← lift (DecodeOperation rawOperation);
  serveRoute limits method path body permit operation authority now.

Definition stage (limits : sourceLimits) (raw : list Z) (authority : AttachmentAuthority) (now : Z) : Tx unit :=
  source ← lift (DecodeAndVerifySourceInit raw authority now);
  initialize limits source now.

Definition callTx (limits : sourceLimits) (c : Call) : Tx unit :=
  match c with
  | CallAttach method path body rawPermit rawOperation authority now =>
      attach limits method path body rawPermit rawOperation authority now;; mret tt
  | CallIssue issuer random request authority now => Issue limits issuer random request authority now;; mret tt
  | CallRegister raw authority now => permit ← lift (DecodePermit raw); issuePermit limits permit authority now
  | CallReap now limit => reapExpired limits now limit;; mret tt
  | CallStage raw authority now => stage limits raw authority now
  | CallUpload id index ciphertext now =>
      must (0 <=? Unix now) "invalid time";; upload id (Z.of_N index) ciphertext now
  | CallCancel id now => cancel limits id now
  | CallReserve fileKey raw commitment => reserveCrypto limits fileKey raw commitment
  end.

(** A failed call leaves the database alone. *)
Definition perform (limits : sourceLimits) (d : SourceDb) (c : Call) : SourceDb :=
  match callTx limits c d with inr (_, d') => d' | inl _ => d end.
Definition run (limits : sourceLimits) (calls : list Call) (d : SourceDb) : SourceDb :=
  foldl (perform limits) d calls.
End Calls.

(** ** What each call does *)
Section Effects.
Context `{Laws : V3Laws}.
Variable limits : sourceLimits.
Implicit Types (d : SourceDb).
Abbreviation Inv := (Inv limits).
Abbreviation Good := (Good limits).

(** *** Requests of the attachment route *)
Lemma decimal_nonneg l acc n : 0 <= acc -> decimal acc l = Some n -> 0 <= n.
Proof.
  revert acc. induction l as [|x l IH]; intros acc Ha Hd; simpl in Hd; [by injection Hd as <-|].
  unfold Utf8.inRange in Hd. destruct (_ && _) eqn:Hr; [|done]. tests. apply IH in Hd; lia.
Qed.

Lemma route_index method path route : ParseAttachmentRoute method path = Some route -> 0 <= r_ChunkIndex route.
Proof.
  assert (forall raw n, parseAttachmentUint raw = Some n -> 0 <= n) as Hn.
  { intros raw n Hp. unfold parseAttachmentUint in Hp. case_match; [done|]. apply bind_Some in Hp as (v & Hv & Hp).
    case_match; [|done]. injection Hp as <-. by eapply decimal_nonneg, Hv. }
  unfold ParseAttachmentRoute. case_match; [done|]. intros Hp. apply bind_Some in Hp as (m & _ & Hp).
  repeat (case_match; try done; []).
  apply bind_Some in Hp as (id & _ & Hp).
  repeat match goal with
  | H : mbind _ _ = Some _ |- _ => apply bind_Some in H as (? & ?%Hn & H)
  | H : Some _ = Some _ |- _ => injection H as <-; simpl; lia
  | H : match ?x with _ => _ end = Some _ |- _ => destruct x eqn:?; try done
  end.
Qed.

Lemma routed method path body response route request :
  NewAttachmentOperationRequest method path body response = inr (route, request) ->
  ParseAttachmentRoute method path = Some route.
Proof.
  unfold NewAttachmentOperationRequest. intros Hn. apply res_bind_inr in Hn as (route' & Hp & Hn).
  apply need_inr in Hp. destruct (oneOf _ _); resinv Hn; simplify_eq; done.
Qed.
Lemma routed_request method path body response route request :
  NewAttachmentOperationRequest method path body response = inr (route, request) -> 0 <= r_ChunkIndex route.
Proof. intros Hn. by eapply route_index, routed. Qed.

(** The answer of the route is the recorded result, or the chunk of a download. *)
Definition answers (permit : Permit) (operation : OperationRecord) (route : AttachmentRoute) (payload : list Z) d : Prop :=
  exists result, recorded permit operation result d
  /\ if r_Operation route =? permitOperationDownload
     then exists c, chunks d !! (p_TransferID permit, r_ChunkIndex route) = Some c /\ payload = ch_ciphertext c
     else payload = result.

Section Dispatch.
Variables (permit : Permit) (operation : OperationRecord) (route : AttachmentRoute) (request : OperationRequest)
          (authority : AttachmentAuthority) (now : Z).
Abbreviation redeem := (redeem limits permit operation route request authority now).
Abbreviation generic := (redeemPermitOperation limits permit operation route request authority now).

(** The redemption a request is dispatched to: it is the whole transaction,
    whatever the database. *)
Inductive Redeems d (payload : list Z) d' : Prop :=
  | RedeemsSourceInit b : r_Operation route = permitOperationSourceInit ->
      (forall d0, redeem d0 = (a ← redeemSourceInit limits permit operation route request authority now; mret a.1) d0) ->
      redeemSourceInit limits permit operation route request authority now d = inr ((payload, b), d') ->
      Redeems d payload d'
  | RedeemsDownload result b : r_Operation route = permitOperationDownload ->
      (forall d0, redeem d0 = (a ← redeemDownload limits permit operation route request authority now; mret a.1.1) d0) ->
      redeemDownload limits permit operation route request authority now d = inr ((payload, result, b), d') ->
      Redeems d payload d'
  | RedeemsOutcome b : r_Operation route = permitOperationOutcome ->
      (forall d0, redeem d0 = (a ← redeemOutcome limits permit operation route request authority now; mret a.1) d0) ->
      redeemOutcome limits permit operation route request authority now d = inr ((payload, b), d') ->
      Redeems d payload d'
  | RedeemsStaged mutation b :
      r_Operation route <> permitOperationDownload -> r_Operation route <> permitOperationOutcome ->
      (forall d1 r d2, Staged limits d1 -> Admits permit now d1 -> mutation d1 = inr (r, d2) -> Changed limits now d1 d2) ->
      (forall d0, redeem d0 = (a ← generic mutation; mret a.1) d0) ->
      generic mutation d = inr ((payload, b), d') -> Redeems d payload d'.

Lemma redeem_cases d payload d' : 0 <= r_ChunkIndex route -> redeem d = inr (payload, d') -> Redeems d payload d'.
Proof.
  intros Hidx Hr. pose proof (fun d0 => eq_refl (redeem d0)) as Heq. unfold SourceStore.redeem in Hr, Heq at 2.
  cbv zeta in Hr, Heq.
  repeat match type of Hr with
  | (if ?b then _ else _) _ = _ =>
      let Hop := fresh "Hop" in destruct b eqn:Hop; [apply Z.eqb_eq in Hop|clear Hop]
  end; [..|by txinv Hr].
  all: apply bind_inr in Hr as ([r b] & d1 & Hr & Ha); txinv Ha; simpl.
  1: by eapply RedeemsSourceInit.
  5: { destruct r as [payload' result]. by eapply RedeemsDownload. }
  7: by eapply RedeemsOutcome.
  - apply bind_inr in Hr as ([] & d2 & Hg & Hr). txinv Hg.
    eapply (RedeemsStaged _ _ _ (uploadMutation permit route request now)); [by rewrite Hop|by rewrite Hop| | |exact Hr].
    + intros. by eapply upload_mutation.
    + intros d0. rewrite Heq. apply bind_same. unfold redeemUpload. by rewrite go_must.
  - do 6 (let Hs := fresh "Hs" in apply bind_inr in Hr as (? & ? & Hs & Hr); txinv Hs).
    eapply RedeemsStaged; [by rewrite Hop|by rewrite Hop| | |exact Hr].
    + intros. by eapply offer_mutation.
    + intros d0. rewrite Heq. apply bind_same. unfold redeemOffer.
      by rewrite (go_lift _ _ _ _ Hl), (go_orElse _ _ _ _ a0 d0), go_must, (go_lift _ _ _ _ Hl1), go_must, (go_lift _ _ _ _ Hl2)
        by (done || (apply lift_inr; by exists a0)).
  - apply bind_inr in Hr as ([] & d2 & Hg & Hr). txinv Hg.
    eapply (RedeemsStaged _ _ _ (acceptMutation permit request authority now)); [by rewrite Hop|by rewrite Hop| | |exact Hr].
    + intros. by eapply accept_mutation.
    + intros d0. rewrite Heq. apply bind_same. unfold redeemAccept. by rewrite go_must.
  - eapply (RedeemsStaged _ _ _ (beginMutation permit)); [by rewrite Hop|by rewrite Hop| |exact Heq|exact Hr].
    intros. by eapply begin_mutation.
  - eapply (RedeemsStaged _ _ _ (completeMutation permit)); [by rewrite Hop|by rewrite Hop| |exact Heq|exact Hr].
    intros. by eapply complete_mutation.
  - apply bind_inr in Hr as ([] & d2 & Hg & Hr). txinv Hg.
    eapply (RedeemsStaged _ _ _ (cancelMutation limits permit now)); [by rewrite Hop|by rewrite Hop| | |exact Hr].
    + intros. by eapply cancel_mutation.
    + intros d0. rewrite Heq. apply bind_same. unfold redeemCancel. by rewrite go_must.
Qed.

Lemma redeem_effect d payload d' : Inv d -> decodedPermit permit -> 0 <= r_ChunkIndex route ->
  redeem d = inr (payload, d') -> Good now d d' /\ answers permit operation route payload d'.
Proof.
  intros HI Hdec Hidx Hr. apply redeem_cases in Hr; [|done]. unfold answers.
  destruct Hr as [b Hop _ Hr|result b Hop _ Hr|b Hop _ Hr|mutation b Hnd Hno Hmut _ Hr].
  - rewrite Hop. apply sourceInit_good in Hr as (HG & HR & _); [|done..]. split; [done|]. by eexists.
  - rewrite Hop. apply download_good in Hr as (HG & HR & c & Hc & Hpay); [|done|done|by rewrite Hop]. split; [done|].
    eexists. split; [exact HR|]. by exists c.
  - rewrite Hop. apply outcome_good in Hr as (HG & HR); [|done..]. split; [done|]. by eexists.
  - apply redeem_good in Hr as [HG HR]; [|done..]. split; [done|]. eexists. split; [exact HR|].
    by rewrite (proj2 (Z.eqb_neq _ _) Hnd).
Qed.
End Dispatch.

(** *** Minting and registering *)
Lemma good_requests now d q : Inv d -> Good now d (set_requests q d).
Proof.
  intros HI. apply good_frame; [done|done| |by apply lasting_same]. destruct HI as [_ []]. by split.
Qed.

Lemma set_requests_id d : d = set_requests (requests d) d.
Proof. by destruct d. Qed.

Lemma persist_effect issuer request raw permit now d r d' :
  persistRequest limits issuer request raw permit now d = inr (r, d') -> exists q, d' = set_requests q d.
Proof.
  unfold persistRequest. intros Hp.
  apply bind_inr in Hp as (raw' & d1 & He & Hp). txinv He. apply bind_inr in Hp as ([] & d1 & Hc & Hp). txinv Hc.
  apply bind_inr in Hp as ([] & d1 & Hw & Hp). txinv Hw. apply bind_inr in Hp as (old & d1 & Ho & Hp). txinv Ho.
  case_match; [txinv Hp; by eexists|].
  apply bind_inr in Hp as (active & d1 & Ha & Hp). txinv Ha. apply bind_inr in Hp as ([] & d1 & Hq & Hp). txinv Hq.
  apply bind_inr in Hp as (taken & d1 & Ht & Hp). txinv Ht. simpl in Hp. destruct (issued d !! _).
  - unfold abandon in Hp. injection Hp as _ <-. exists (requests d). apply set_requests_id.
  - txinv Hp. by eexists.
Qed.

Lemma attempts_effect n random draw issuer request raw authority binding expiresAt now d r d' :
  issueAttempts limits n random draw issuer request raw authority binding expiresAt now d = inr (r, d') ->
  exists q, d' = set_requests q d.
Proof.
  revert draw d. induction n as [|n IH]; intros draw d Hi; cbn [issueAttempts] in Hi; [by txinv Hi|].
  apply bind_inr in Hi as (serial & d1 & Hs & Hi). txinv Hs. apply bind_inr in Hi as ([] & d1 & Hz & Hi). txinv Hz.
  apply bind_inr in Hi as ([] & d1 & Hv & Hi). txinv Hv. apply bind_inr in Hi as (o & d1 & Hp & Hi).
  apply persist_effect in Hp as [q ->]. destruct o as [p b|].
  - txinv Hi. by exists q.
  - apply IH in Hi as [q' ->]. by exists q'.
Qed.

Lemma issue_effect issuer random request authority now d r d' :
  Issue limits issuer random request authority now d = inr (r, d') -> exists q, d' = set_requests q d.
Proof.
  pose proof (ex_intro (fun q => d = set_requests q d) _ (set_requests_id d)) as Hd.
  unfold Issue. intros Hi.
  do 7 (let Hs := fresh "Hs" in apply bind_inr in Hi as (? & ? & Hs & Hi); txinv Hs).
  match type of Hi with (if ?b then _ else _) _ = _ => destruct b end.
  - apply bind_inr in Hi as (stored & d1 & He & Hi). unfold existingRequest in He. txinv He.
    destruct (requests d !! _); txinv He; txinv Hi; done.
  - do 5 (let Hs := fresh "Hs" in apply bind_inr in Hi as (? & ? & Hs & Hi); txinv Hs).
    by apply attempts_effect in Hi.
Qed.

Lemma insertIssued_effect permit raw expiry now d x d' :
  insertIssuedPermitTx limits permit raw expiry now d = inr (x, d') -> issued d !! p_Serial permit = None
  /\ d' = set_issued (<[p_Serial permit :=
      {| is_permit := raw; is_transfer := p_TransferID permit; is_commitment := p_StagedManifestCommitment permit;
         is_expires := p_ExpiresAt permit; is_retain := retainFrom limits now expiry |}]> (issued d)) d.
Proof. unfold insertIssuedPermitTx. intros Hi. by txinv Hi. Qed.

Lemma good_issued permit raw now d row : Inv d -> wirePermit permit -> issued d !! p_Serial permit = None ->
  EncodePermit permit = inr raw ->
  row = {| is_permit := raw; is_transfer := p_TransferID permit; is_commitment := p_StagedManifestCommitment permit;
           is_expires := p_ExpiresAt permit; is_retain := retainFrom limits now (p_ExpiresAt permit) |} ->
  (ordinary permit -> boundBy d row permit) ->
  Good now d (set_issued (<[p_Serial permit := row]> (issued d)) d).
Proof.
  intros HI Hw Hnew He -> Hb. apply good_frame; [done|done| |by apply lasting_issue].
  apply journal_issue; [apply HI|done|done| |done]. simpl. unfold retainFrom. lia.
Qed.

Lemma register_effect permit authority now d x d' : Inv d -> wirePermit permit ->
  issuePermit limits permit authority now d = inr (x, d') -> Good now d d'.
Proof.
  intros HI Hw Hi. unfold issuePermit in Hi. apply bind_inr in Hi as ([] & d1 & Hop & Hi). txinv Hop. tests.
  apply bind_inr in Hi as (v & d1 & Hv & Hi). txinv Hv. apply bind_inr in Hi as (raw & d1 & He & Hi). txinv He.
  apply bind_inr in Hi as (expiry & d1 & Hx & Hi). txinv Hx. unfold unixSeconds in Hl1. resinv Hl1.
  apply bind_inr in Hi as (old & d1 & Ho & Hi). txinv Ho. destruct (issued d !! _) as [row|].
  { txinv Hi. by apply good_same. }
  apply bind_inr in Hi as ([] & d1 & Hor & Hi).
  assert (d1 = d) as ->.
  { destruct (_ =? _) in Hor; [|by txinv Hor]. apply bind_inr in Hor as (? & d2 & Hor & Hr).
    apply origin_effect in Hor as ->. by txinv Hr. }
  apply bind_inr in Hi as (found & d1 & Hl' & Hi). txinv Hl'. apply loadSpec_effect in Hl' as [-> Hfound].
  destruct found as [spec|].
  - destruct Hfound as (row & Hrow & -> & Hcon). apply bind_inr in Hi as ([] & d1 & Hm & Hi). txinv Hm. tests.
    apply bind_inr in Hi as (m & d1 & Hman & Hi). txinv Hman.
    apply bind_inr in Hi as ([] & d1 & Hbind & Hi). txinv Hbind. unfold retainedManifestPermitBinding in Hbind. tests.
    do 4 (let Hs := fresh "Hs" in apply bind_inr in Hi as (? & ? & Hs & Hi); txinv Hs).
    apply insertIssued_effect in Hi as [Hnew ->]. eapply good_issued; [done|done|done|done|done|].
    intros _. apply transferOf_Some in Hf as [Ht Hc]. exists row0. simpl. do 2 (split; [done|]).
    destruct (st_track _ _ (inv_staged _ _ HI) _ _ Hrow) as (t' & Ht' & _ & Hexp & _).
    rewrite Ht in Ht'. injection Ht' as <-. rewrite Hexp.
    apply consistent_spec in Hcon as (m' & Hm' & _ & _ & _ & _ & _ & _ & _ & Hme). simpl in *. congruence.
  - apply bind_inr in Hi as ([] & d1 & Hm & Hi). txinv Hm. tests.
    apply insertIssued_effect in Hi as [Hnew ->]. eapply good_issued; [done|done|done|done|done|by intros [? _]].
Qed.

(** *** The reaper *)

(** Each transfer is as it was or has ended. *)
Definition ending (now : Z) d d' : Prop := forall id, lifecycle d' id = lifecycle d id
  \/ exists a r r', lifecycle d id = Some r /\ lifecycle d' id = Some r' /\ terminal (x_Status r') = true
       /\ transition r a now (completeProof transferActionCancel) = inr r'.

Lemma transition_live r a now proof r' : transition r a now proof = inr r' -> terminal (x_Status r) = false.
Proof. unfold transition. destruct (terminal _); [|done]. by rewrite orb_true_r. Qed.

Lemma ending_trans now a b c : ending now a b -> ending now b c -> ending now a c.
Proof.
  intros Hab Hbc id. destruct (Hab id) as [H1|(x & r & r1 & Hr & Hr1 & Hend & Hx)].
  - rewrite <-H1. apply Hbc.
  - right. destruct (Hbc id) as [H2|(y & r1' & r2 & Hr1' & _ & _ & Hy)].
    + exists x, r, r1. by rewrite H2.
    + rewrite Hr1 in Hr1'. injection Hr1' as <-. apply transition_live in Hy. congruence.
Qed.

Lemma ending_moves now d d' : ending now d d' -> moves now d d'.
Proof.
  intros He id. destruct (He id) as [Heq|(a & r & r' & Hr & Hr' & _ & Ht)]; [by left|right].
  rewrite Hr, Hr'. by eapply LifeAct.
Qed.

Lemma terminalize_ending id row now d x d' : Inv d -> 0 <= Unix now -> specs d !! id = Some row ->
  terminalizeSourceTx limits (rowSpec id row) now d = inr (x, d') ->
  Good now d d' /\ ending now d d' /\ specs d' = delete id (specs d) /\ retired d' id.
Proof.
  intros HI Hn Hrow Ht. pose proof (st_spec _ _ (inv_staged _ _ HI) _ _ Hrow) as Hcon.
  pose proof (terminalize_changes _ _ _ _ _ _ _ (inv_staged _ _ HI) Hn Hrow Hcon Ht) as Hch.
  apply terminalize_effect in Ht as (t & t' & q & tb & iss & led & Ht & _ & _ & He & _ & _ & _ & _ & ->); [|done].
  split.
  { eapply (good_change _ _ _ d); try done; [apply HI|apply HI|by apply lasting_same|by apply lasting_same]. }
  split; [|split; [done|unfold retired; simpl; rewrite lookup_delete_eq, lookup_insert_eq; done]].
  intros id'. rewrite (lifecycle_insert id t' d) by done. destruct (decide _) as [<-|Hne]; [|by left].
  unfold lifecycle. simpl in Ht. rewrite Ht. simpl. destruct (terminal (tr_status t)) eqn:Hterm.
  - left. destruct He as (Hc & Hx & Hatt & Hs). rewrite Hterm in Hs. destruct Hs as [Hs Hs'].
    unfold recordOf. by rewrite Hc, Hx, Hatt, Hs, Hs'.
  - right. pose proof (endsAs_terminal _ _ _ He) as Hend.
    destruct (transition_end id now t t' (completeProof transferActionCancel)) as [a Hact]; try done.
    { by apply (st_valid _ _ (inv_staged _ _ HI)). }
    by exists a, (recordOf id t), (recordOf id t').
Qed.

Record Reaped (now : Z) (ids : list (list Z)) d d' : Prop := {
  rp_inv : Inv d';
  rp_ending : ending now d d';
  rp_lasting : lasting now d d';
  rp_frozen : frozen d d';
  rp_specs id row : specs d' !! id = Some row -> specs d !! id = Some row;
  rp_gone id : id ∈ ids -> specs d' !! id = None;
}.

Lemma reapOne_effect now id d x d' : Inv d -> 0 <= Unix now -> reapOne limits now id d = inr (x, d') ->
  Reaped now [id] d d'.
Proof.
  intros HI Hn Hr. unfold reapOne in Hr. apply bind_inr in Hr as (found & d1 & Hl & Hr).
  apply loadSpec_effect in Hl as [-> Hfound]. destruct found as [spec|].
  - destruct Hfound as (row & Hrow & -> & _).
    apply terminalize_ending in Hr as ((HI' & _ & HL & HF) & He & Hs & [Hnone _]); [|done..].
    split; try done; [|intros k ->%list_elem_of_singleton; done].
    intros k r. rewrite Hs. intros Hk. by apply lookup_delete_Some in Hk as [_ Hk].
  - txinv Hr. split; [done|by left|by apply lasting_same|by apply frozen_same|done|].
    by intros k ->%list_elem_of_singleton.
Qed.

Lemma reap_effect now ids d x d' : Inv d -> 0 <= Unix now -> each ids (reapOne limits now) d = inr (x, d') ->
  Reaped now ids d d'.
Proof.
  intros HI Hn. revert d HI. induction ids as [|id ids IH]; intros d HI He; simpl in He.
  - txinv He. split; [done|by left|by apply lasting_same|by apply frozen_same|done|set_solver].
  - apply bind_inr in He as ([] & d1 & H1 & He). apply reapOne_effect in H1 as [HI1 He1 HL1 HF1 Hs1 Hg1]; [|done..].
    apply IH in He as [HI2 He2 HL2 HF2 Hs2 Hg2]; [|done]. split.
    + done.
    + by eapply ending_trans.
    + by eapply lasting_trans.
    + by eapply frozen_trans.
    + auto.
    + intros k [->|Hk]%elem_of_cons; [|by apply Hg2]. destruct (specs d' !! id) as [row|] eqn:Hrow; [|done].
      apply Hs2 in Hrow. by rewrite Hg1 in Hrow by set_solver.
Qed.

Lemma purge_staging cutoff d : sameStaging d (purge cutoff d).
Proof. by repeat split. Qed.

Lemma reaper_effect now limit d n d' : Inv d -> reapExpired limits now limit d = inr (n, d') ->
  Good now d d' /\ exists d1, Reaped now (expiredSources now limit d) d d1 /\ sameStaging d1 d'
    /\ n = Z.of_nat (length (expiredSources now limit d)).
Proof.
  intros HI Hr. unfold reapExpired in Hr. apply bind_inr in Hr as ([] & d1 & Hm & Hr). txinv Hm. tests.
  apply bind_inr in Hr as (ids & d1 & Hi & Hr). txinv Hi. apply bind_inr in Hr as ([] & d1 & He & Hr).
  apply reap_effect in He as HR; [|done..]. txinv Hr. destruct HR as [HI1 He1 HL1 HF1 Hs1 Hg1]. split.
  - split; [split; [by eapply staged_frame, HI1; apply purge_staging|apply journal_purge, HI1]|]. split.
    + eapply moves_frame; [apply sameStaging_refl|by apply ending_moves|apply purge_staging].
    + split; [eapply lasting_trans; [done|by apply lasting_purge, HI1]|].
      eapply frozen_trans; [done|apply frozen_same, purge_staging].
  - exists d1. split; [done|]. split; [apply purge_staging|done].
Qed.

(** *** The sender's reservations *)
Definition reservedOnly d d' : Prop := sameStaging d d' /\ issued d' = issued d /\ redeemed d' = redeemed d
  /\ ledger d' = ledger d /\ tombstones d' = tombstones d /\ requests d' = requests d /\ fences d' = fences d.

Lemma reserved_refl d : reservedOnly d d.
Proof. by repeat split. Qed.
Lemma reserved_trans a b c : reservedOnly a b -> reservedOnly b c -> reservedOnly a c.
Proof. unfold reservedOnly, sameStaging. intros. destruct_and!. split_and!; congruence. Qed.

Lemma each_reserved {A} (l : list A) (f : A -> Tx unit) d x d' :
  (forall a d x d', f a d = inr (x, d') -> reservedOnly d d') -> each l f d = inr (x, d') -> reservedOnly d d'.
Proof.
  intros Hf. revert d. induction l as [|a l IH]; intros d He; simpl in He; [txinv He; apply reserved_refl|].
  apply bind_inr in He as ([] & d1 & H1 & He). eapply reserved_trans; [by eapply Hf|by apply IH].
Qed.

Lemma reserveCrypto_effect fileKey raw commitment d x d' :
  reserveCrypto limits fileKey raw commitment d = inr (x, d') -> reservedOnly d d'.
Proof.
  unfold reserveCrypto. intros Hr. apply bind_inr in Hr as (m & d1 & Hm & Hr). txinv Hm.
  apply bind_inr in Hr as ([] & d1 & Hg & Hr). txinv Hg. apply bind_inr in Hr as (ex & d1 & He & Hr). txinv He.
  destruct (bool_decide _); [txinv Hr; apply reserved_refl|].
  apply bind_inr in Hr as ([] & d1 & Ha & Hr). eapply (reserved_trans _ d1).
  { unfold admitCryptoTx in Ha. apply bind_inr in Ha as (m' & d2 & Hm & Ha). txinv Hm.
    apply bind_inr in Ha as ([] & d2 & Hu & Ha). txinv Hu. eapply each_reserved, Ha. intros key d0 x0 d0' Hk.
    unfold admitCryptoOne in Hk. txinv Hk. done. }
  clear Ha. apply bind_inr in Hr as ([] & d2 & Hk & Hr). apply bind_inr in Hr as ([] & d3 & Hs & Hr).
  unfold insertKey in Hk, Hs. destruct (bool_decide _) in Hk; [done|]. destruct (bool_decide _) in Hs; [done|].
  injection Hk as <-. injection Hs as <-. eapply (reserved_trans _ _ _); [|eapply each_reserved, Hr].
  - done.
  - intros i d0 x0 d0' Hi. unfold insertKey in Hi. destruct (bool_decide _); [done|]. injection Hi as <- <-. done.
Qed.

Lemma reserved_good now d d' : Inv d -> reservedOnly d d' -> Good now d d'.
Proof.
  intros HI (Hs & Hi & Hr & Hl & Ht & Hq & Hf). apply good_frame; [done|done| |by apply lasting_same].
  eapply (journal_kept d); [by apply sameStaging_kept| |apply HI]. by apply sameJournal_by.
Qed.

Lemma good_changed now d d' : Inv d -> Changed limits now d d' -> Good now d d'.
Proof.
  intros HI Hch. eapply (good_change _ _ _ d d' d'); [apply HI|apply sameStaging_refl|apply HI|done|
    apply sameStaging_refl|done|by apply lasting_same|by apply lasting_same].
Qed.

(** *** Every call *)
Lemma attach_effect method path body rawPermit rawOperation authority now d payload d' : Inv d ->
  attach limits method path body rawPermit rawOperation authority now d = inr (payload, d') ->
  exists permit operation route request, DecodePermit rawPermit = inr permit /\ DecodeOperation rawOperation = inr operation
    /\ NewAttachmentOperationRequest method path body [] = inr (route, request)
    /\ redeem limits permit operation route request authority now d = inr (payload, d')
    /\ Good now d d' /\ answers permit operation route payload d'.
Proof.
  intros HI Ha. unfold attach in Ha. apply bind_inr in Ha as (permit & d1 & Hp & Ha). txinv Hp. rename a into permit.
  apply bind_inr in Ha as (operation & d1 & Ho & Ha). txinv Ho. rename a into operation. unfold serveRoute in Ha.
  apply bind_inr in Ha as ([route request] & d1 & Hr & Ha). txinv Hr. simpl in Ha.
  exists permit, operation, route, request. do 4 (split; [done|]).
  eapply redeem_effect; [done| |by eapply routed_request|done]. apply decoded_permit in Hl as (_ & Hmax). done.
Qed.

Theorem call_good c d x d' : Inv d -> callTx limits c d = inr (x, d') -> Good (callTime c) d d'.
Proof.
  intros HI Hc. destruct c; cbn [callTx callTime] in *.
  - apply bind_inr in Hc as (p & d1 & Ha & Hc). txinv Hc. by apply attach_effect in Ha as (? & ? & ? & ? & _ & _ & _ & _ & HG & _).
  - apply bind_inr in Hc as (p & d1 & Hi & Hc). txinv Hc. apply issue_effect in Hi as [q ->]. by apply good_requests.
  - apply bind_inr in Hc as (permit & d1 & Hp & Hc). txinv Hp. apply decoded_permit in Hl as (_ & Hw & _).
    by eapply register_effect.
  - apply bind_inr in Hc as (n & d1 & Hr & Hc). txinv Hc. by eapply reaper_effect.
  - unfold stage in Hc. apply bind_inr in Hc as (source & d1 & Hs & Hc). txinv Hs.
    apply verified_genuine in Hl. unfold initialize in Hc. apply bind_inr in Hc as (b & d1 & Hi & Hc). txinv Hc.
    by eapply good_changed, initialize_changes.
  - apply bind_inr in Hc as ([] & d1 & Hn & Hc). txinv Hn. apply Z.leb_le in Hn.
    eapply good_changed, upload_changes; [done|apply HI| |done|exact Hc]. lia.
  - unfold cancel in Hc. apply bind_inr in Hc as ([] & d1 & Hm & Hc). txinv Hm. tests.
    apply bind_inr in Hc as (found & d1 & Hl & Hc). apply loadSpec_effect in Hl as [-> Hfound].
    destruct found as [spec|]; [|txinv Hc; by apply good_same]. destruct Hfound as (row & Hrow & -> & _).
    by apply terminalize_ending in Hc as (HG & _).
  - by eapply reserved_good, reserveCrypto_effect.
Qed.

Lemma perform_good c d : Inv d -> Good (callTime c) d (perform limits d c).
Proof.
  intros HI. unfold perform. destruct (callTx limits c d) as [|[x d']] eqn:Hc; [by apply good_same|].
  by eapply call_good.
Qed.

Lemma run_inv calls d : Inv d -> Inv (run limits calls d).
Proof.
  unfold run. revert d. induction calls as [|c calls IH]; intros d HI; [done|]. simpl. apply IH.
  by apply perform_good.
Qed.

Lemma empty_inv : Inv emptySourceDb.
Proof.
  split.
  - split; try done. intros key. by right.
  - split; done.
Qed.
#[local] Hint Resolve empty_inv run_inv : core.

Lemma reachable calls : Inv (run limits calls emptySourceDb).
Proof. auto. Qed.
End Effects.
