(* ===== verification/SourceTheorems.v ===== *)
(** * The guarantees of the attachment service

    What every run of the service gives: transfers follow [transfer.go], the
    quota counters are exact, permits are not overspent, stored chunks are
    immutable, an operation is executed once and its replay answers the same,
    the reaper always succeeds, and only authorized requests change the store. *)

From S2P Require Import Prelude GoTime Text Sha256 Attachment SourceStore SourceInv SourceRuns.
Open Scope Z_scope.

Section Replay.
Context `{Laws : V3Laws}.
Variable limits : sourceLimits.
Implicit Types (d : SourceDb).
Abbreviation Inv := (Inv limits).

(** ** Replays *)
Lemma go_issued permit row d : issued d !! p_Serial permit = Some row -> holds permit row ->
  issuedPermit permit (is_permit row) d = inr (tt, d).
Proof.
  intros Hrow (_ & He & Ht & Hc). unfold issuedPermit. rewrite (go_fetch _ row) by done.
  apply must_inr. split; [|done]. by rewrite <-Ht, <-Hc, !eqb_refl.
Qed.

Lemma redeem_again permit operation route request authority now mutation d r d' d2 :
  redeemPermitOperation limits permit operation route request authority now mutation d = inr (r, d') ->
  recorded permit operation r.1 d2 ->
  redeemPermitOperation limits permit operation route request authority now mutation d2 = inr ((r.1, true), d2).
Proof.
  intros Hr ((row & Hrow & Hh) & e & He & Hsame & Hres). unfold redeemPermitOperation in *.
  apply bind_inr in Hr as (v & d1 & Hv & Hr). txinv Hv. apply bind_inr in Hr as (u & d1 & Hu & _). txinv Hu.
  rewrite (go_lift _ _ _ _ Hl), (go_lift _ _ _ _ Hl0), (go_lift _ (is_permit row)) by (done || apply Hh).
  rewrite (go_bind _ _ _ tt d2) by (by apply go_issued). rewrite go_reads, He, go_must, Hres by done. done.
Qed.

Lemma download_again permit operation route request authority now d r d' d2 c :
  redeemDownload limits permit operation route request authority now d = inr (r, d') ->
  recorded permit operation r.1.2 d2 -> Staged limits d2 ->
  chunks d2 !! (p_TransferID permit, r_ChunkIndex route) = Some c -> r.1.1 = ch_ciphertext c ->
  redeemDownload limits permit operation route request authority now d2 = inr ((r.1, true), d2).
Proof.
  intros Hr ((row & Hrow & Hh) & e & He & Hsame & Hres) HS Hc Hpay. unfold redeemDownload in *.
  apply bind_inr in Hr as (v & d1 & Hv & Hr). txinv Hv. apply bind_inr in Hr as (u & d1 & Hu & _). txinv Hu.
  rewrite (go_lift _ _ _ _ Hl), (go_lift _ _ _ _ Hl0), (go_lift _ (is_permit row)) by (done || apply Hh).
  rewrite (go_bind _ _ _ tt d2) by (by apply go_issued). rewrite go_reads, He, go_must by done.
  rewrite (go_bind _ _ _ _ _ (load_stored _ _ _ _ _ HS Hc)). simpl. destruct r as [[? ?] ?]. simpl in *. by subst.
Qed.

Lemma sourceInit_again permit operation route request authority now d r d' d2 :
  redeemSourceInit limits permit operation route request authority now d = inr (r, d') ->
  recorded permit operation r.1 d2 -> requests d2 = requests d ->
  redeemSourceInit limits permit operation route request authority now d2 = inr ((r.1, true), d2).
Proof.
  intros Hr ((row & Hrow & Hh) & e & He & Hsame & Hres) Hq. unfold redeemSourceInit in *.
  apply bind_inr in Hr as ([] & d1 & Hop & Hr). txinv Hop. apply bind_inr in Hr as (s & d1 & Hs & Hr). txinv Hs.
  apply bind_inr in Hr as (v & d1 & Hv & Hr). txinv Hv. apply bind_inr in Hr as (u & d1 & Hu & Hr). txinv Hu.
  apply bind_inr in Hr as ([] & d1 & Hm & Hr). txinv Hm. apply bind_inr in Hr as (raw & d1 & Hraw & Hr). txinv Hraw.
  apply bind_inr in Hr as (pe & d1 & Hpe & Hr). txinv Hpe. apply bind_inr in Hr as (se & d1 & Hse & Hr). txinv Hse.
  apply bind_inr in Hr as (j & d1 & Hj & Hr). txinv Hj. apply bind_inr in Hr as ([] & d1 & Hjp & Hr). txinv Hjp.
  rewrite go_must, (go_lift _ _ _ _ Hl), (go_lift _ _ _ _ Hl0), (go_lift _ _ _ _ Hl1), go_must by done.
  rewrite (go_lift _ _ _ _ Hl2), (go_lift _ _ _ _ Hl3), (go_lift _ _ _ _ Hl4).
  rewrite (go_fetch _ row0) by (unfold requestOfSerial in *; by rewrite Hq). rewrite go_must by done.
  rewrite go_reads, Hrow. destruct Hh as (_ & Henc & _). rewrite Hl2 in Henc. injection Henc as ->.
  rewrite go_must by apply eqb_refl. rewrite (go_fetch _ e) by done. rewrite go_must, Hres by done. done.
Qed.

Lemma outcome_again permit operation route request authority now d r d' d2 :
  redeemOutcome limits permit operation route request authority now d = inr (r, d') ->
  recorded permit operation r.1 d2 ->
  redeemOutcome limits permit operation route request authority now d2 = inr ((r.1, true), d2).
Proof.
  intros Hr ((row & Hrow & Hh) & e & He & Hsame & Hres). unfold redeemOutcome in *.
  apply bind_inr in Hr as ([] & d1 & Hop & Hr). txinv Hop.
  apply bind_inr in Hr as (v & d1 & Hv & Hr). txinv Hv. apply bind_inr in Hr as (u & d1 & Hu & _). txinv Hu.
  rewrite go_must, (go_lift _ _ _ _ Hl), (go_lift _ _ _ _ Hl0), (go_lift _ (is_permit row)) by (done || apply Hh).
  rewrite (go_fetch _ row), go_must, go_reads, He, go_must, Hres by (done || apply eqb_refl). done.
Qed.

Section Dispatched.
Variables (permit : Permit) (operation : OperationRecord) (route : AttachmentRoute) (request : OperationRequest).
Hypothesis Hdec : decodedPermit permit.
Hypothesis Hidx : 0 <= r_ChunkIndex route.
Abbreviation redeem := (redeem limits permit operation route request).

(** The same request again, at once. *)
Lemma redeem_replays authority now d payload d' : Inv d -> redeem authority now d = inr (payload, d') ->
  redeem authority now d' = inr (payload, d').
Proof.
  intros HI Hr. apply redeem_cases in Hr; [|done].
  destruct Hr as [b Hop Heq Hr|result b Hop Heq Hr|b Hop Heq Hr|mutation b Hnd Hno Hmut Heq Hr]; rewrite Heq.
  - apply sourceInit_good in Hr as Hg; [|done..]. destruct Hg as (_ & HR & Hq).
    eapply sourceInit_again in Hr; [|done..]. by rewrite (go_bind _ _ _ _ _ Hr).
  - apply download_good in Hr as Hg; [|done|done|by rewrite Hop]. destruct Hg as ((HI' & _) & HR & c & Hc & Hpay).
    eapply download_again in Hr; [|done|apply HI'|done..]. by rewrite (go_bind _ _ _ _ _ Hr).
  - apply outcome_good in Hr as Hg; [|done..]. destruct Hg as (_ & HR).
    eapply outcome_again in Hr; [|done]. by rewrite (go_bind _ _ _ _ _ Hr).
  - apply redeem_good in Hr as Hg; [|done..]. destruct Hg as (_ & HR).
    eapply redeem_again in Hr; [|done]. by rewrite (go_bind _ _ _ _ _ Hr).
Qed.

(** A recorded operation is answered from the journal, and nothing else is done. *)
Lemma redeem_once authority now d payload d' result : recorded permit operation result d ->
  redeem authority now d = inr (payload, d') ->
  d' = d /\ if r_Operation route =? permitOperationDownload
            then exists c, chunks d !! (p_TransferID permit, r_ChunkIndex route) = Some c /\ payload = ch_ciphertext c
            else payload = result.
Proof.
  intros ((row & Hrow & Hh) & e & He & Hsame & Hres) Hr. unfold redeemedAs in He.
  apply redeem_cases in Hr; [|done].
  destruct Hr as [b Hop _ Hr|result' b Hop _ Hr|b Hop _ Hr|mutation b Hnd Hno Hmut _ Hr].
  - rewrite Hop. unfold redeemSourceInit in Hr.
    do 10 (let Hs := fresh "Hs" in apply bind_inr in Hr as (? & ? & Hs & Hr); txinv Hs).
    apply bind_inr in Hr as (old & d1 & Ho & Hr). txinv Ho. rewrite Hrow in Hr. txinv Hr.
    unfold redeemedAs in *. rewrite He in *. by simplify_eq.
  - rewrite Hop. unfold redeemDownload in Hr.
    do 3 (let Hs := fresh "Hs" in apply bind_inr in Hr as (? & ? & Hs & Hr); txinv Hs).
    apply bind_inr in Hr as ([] & d1 & Hi & Hr). apply issuedPermit_effect in Hi as [-> _]; [|by destruct Hdec|done].
    apply bind_inr in Hr as (old & d1 & Ho & Hr). txinv Ho. unfold redeemedAs in Hr. rewrite He in Hr.
    apply bind_inr in Hr as ([] & d1 & Hm & Hr). txinv Hm. apply bind_inr in Hr as (found & d1 & Hf & Hr).
    apply load_effect in Hf as (-> & c & Hc & ->). txinv Hr. split; [done|]. by exists c.
  - rewrite Hop. unfold redeemOutcome in Hr.
    do 6 (let Hs := fresh "Hs" in apply bind_inr in Hr as (? & ? & Hs & Hr); txinv Hs).
    apply bind_inr in Hr as (old & d1 & Ho & Hr). txinv Ho. unfold redeemedAs in Hr. rewrite He in Hr. by txinv Hr.
  - rewrite (proj2 (Z.eqb_neq _ _) Hnd). unfold redeemPermitOperation in Hr.
    do 3 (let Hs := fresh "Hs" in apply bind_inr in Hr as (? & ? & Hs & Hr); txinv Hs).
    apply bind_inr in Hr as ([] & d1 & Hi & Hr). apply issuedPermit_effect in Hi as [-> _]; [|by destruct Hdec|done].
    apply bind_inr in Hr as (old & d1 & Ho & Hr). txinv Ho. unfold redeemedAs in Hr. rewrite He in Hr. by txinv Hr.
Qed.

(** Every redemption has verified its credentials. *)
Lemma redeem_verified authority now d payload d' : redeem authority now d = inr (payload, d') ->
  VerifyPermit permit authority now = inr tt
  /\ VerifyAttachmentOperationAdmission operation permit authority route request now = inr tt.
Proof.
  assert (forall x, VerifyAttachmentOperationRequest operation permit authority route request now = inr x ->
    VerifyAttachmentOperationAdmission operation permit authority route request now = inr tt) as Hreq.
  { intros x Hx. unfold VerifyAttachmentOperationRequest in Hx. by apply res_bind_inr in Hx as ([] & Hx & _). }
  intros Hr. apply redeem_cases in Hr; [|done].
  destruct Hr as [b _ _ Hr|result' b _ _ Hr|b _ _ Hr|mutation b _ _ _ _ Hr].
  - unfold redeemSourceInit in Hr.
    do 4 (let Hs := fresh "Hs" in apply bind_inr in Hr as (? & ? & Hs & Hr); txinv Hs). destruct a0. eauto.
  - unfold redeemDownload in Hr.
    do 2 (let Hs := fresh "Hs" in apply bind_inr in Hr as (? & ? & Hs & Hr); txinv Hs). destruct a, a0. eauto.
  - unfold redeemOutcome in Hr.
    do 3 (let Hs := fresh "Hs" in apply bind_inr in Hr as (? & ? & Hs & Hr); txinv Hs). destruct a. eauto.
  - unfold redeemPermitOperation in Hr.
    do 2 (let Hs := fresh "Hs" in apply bind_inr in Hr as (? & ? & Hs & Hr); txinv Hs). destruct a. eauto.
Qed.
End Dispatched.
End Replay.

(** ** The reaper does not fail *)
Section Reaper.
Context `{Laws : V3Laws}.
Variable limits : sourceLimits.
Implicit Types (d : SourceDb).
Abbreviation Inv := (Inv limits).

(** The counter of a scope covers the release. *)
Definition covers (bytes chunks : Z) (key : quotaKey) d : Prop :=
  bytes <= qr_bytes (counter key d) /\ chunks <= qr_chunks (counter key d) /\ 1 <= qr_transfers (counter key d).

Lemma each_release bytes chunks keys d : NoDup keys -> (forall key, key ∈ keys -> covers bytes chunks key d) ->
  exists q, each keys (releaseOne bytes chunks) d = inr (tt, set_quota q d).
Proof.
  intros Hnd. revert d. induction Hnd as [|key keys Hkey _ IH]; intros d Hc.
  { exists (quota d). simpl. by destruct d. }
  destruct (Hc key) as (Hb & Hk & Ht); [set_solver|]. unfold covers, counter in *.
  destruct (quota d !! key) as [row|] eqn:Hrow; simpl in *; [|lia].
  set (d1 := set_quota (<[key := {| qr_bytes := qr_bytes row - bytes; qr_chunks := qr_chunks row - chunks;
                                    qr_transfers := qr_transfers row - 1 |}]> (quota d)) d).
  destruct (IH d1) as [q Hq].
  { intros k Hin. unfold d1. simpl. rewrite lookup_insert_ne by congruence. apply Hc. set_solver. }
  exists q. rewrite (go_bind _ _ _ tt d1); [done|]. unfold releaseOne. rewrite (go_fetch _ row) by done.
  rewrite go_must; [done|]. apply andb_true_iff. split; [apply andb_true_iff; split|]; by apply Z.leb_le.
Qed.

Lemma source_covers d id row key : Staged limits d -> specs d !! id = Some row -> key ∈ manifestKeys (sp_manifest row) ->
  covers (rowBytes row) (sp_chunkCount row) key d.
Proof.
  intros HS Hrow Hin. unfold covers. rewrite (st_quota _ _ HS), (usage_delete key id row) by done.
  rewrite bool_decide_eq_true_2 by done.
  assert (forall f, (forall id' row', specs d !! id' = Some row' -> 0 <= f row') ->
            0 <= charged key f (delete id (specs d))) as Hnn.
  { intros f Hf. apply msum_nonneg. intros id' row' Hr. case_bool_decide; [|done].
    apply lookup_delete_Some in Hr as [_ Hr]. by eapply Hf. }
  simpl. split; [|split].
  - enough (0 <= charged key rowBytes (delete id (specs d))) by lia. apply Hnn. intros id' row' Hr.
    by destruct (spec_sizes _ _ _ _ HS Hr) as (_ & _ & ?).
  - enough (0 <= charged key sp_chunkCount (delete id (specs d))) by lia. apply Hnn. intros id' row' Hr.
    destruct (spec_sizes _ _ _ _ HS Hr) as (? & _ & _). lia.
  - enough (0 <= charged key (fun _ => 1) (delete id (specs d))) by lia. by apply Hnn.
Qed.

Lemma release_succeeds id row now d d0 : Inv d -> specs d !! id = Some row -> quota d0 = quota d ->
  tombstones d0 = tombstones d -> exists d', releaseTerminalSourceTx limits (rowSpec id row) now d0 = inr (tt, d').
Proof.
  intros [HS HJ] Hrow Hq Htb. pose proof (st_spec _ _ HS _ _ Hrow) as Hcon.
  destruct (keys_consistent _ Hcon) as [Hkeys Hnd]. unfold releaseTerminalSourceTx.
  rewrite (go_lift _ _ _ _ (usage_consistent _ Hcon)), (go_lift _ _ _ _ Hkeys). cbn [fst snd].
  destruct (each_release (rowBytes row) (sp_chunkCount row) (manifestKeys (ss_Manifest (rowSpec id row))) d0) as [q He];
    [done| |].
  { intros key Hin. pose proof (source_covers _ _ _ _ HS Hrow Hin) as Hc. unfold covers, counter in *. by rewrite Hq. }
  rewrite (go_bind _ _ _ _ _ He), go_reads. cbn [tombstones set_quota ss_TransferID rowSpec]. rewrite Htb.
  destruct (tombstones d !! id) as [b|] eqn:Hb; [by eexists|].
  enough (forall k b, tombstones d !! k = Some b -> eqb (tb_commitment b) (sp_commitment row) = false) as Habs.
  { unfold mbind at 1, Tx_bind at 1, mbind at 1, Tx_bind at 1, absent. cbn [tombstones set_quota].
    rewrite Htb, (proj2 (mexists_false _ _)) by done. by eexists. }
  intros k b Hk. apply eqb_false. intros Heq. pose proof (jn_tomb _ HJ _ _ Hk) as Hc'.
  destruct (st_track _ _ HS _ _ Hrow) as (t & Ht & Hc & _).
  rewrite (st_ident _ _ HS), Heq in Hc'. assert (uniqueness d !! id = Some (sp_commitment row)) as Hu.
  { rewrite <-(st_ident _ _ HS), Ht. simpl. by rewrite Hc. }
  assert (k = id) as -> by (by eapply (st_unique _ _ HS)). congruence.
Qed.

Lemma terminalize_succeeds id row now d : Inv d -> specs d !! id = Some row ->
  exists d', terminalizeSourceTx limits (rowSpec id row) now d = inr (tt, d').
Proof.
  intros HI Hrow. destruct (st_track _ _ (inv_staged _ _ HI) _ _ Hrow) as (t & Ht & Hc & He & Htr).
  unfold terminalizeSourceTx. rewrite (go_fetch _ t) by (by apply transferOf_Some).
  rewrite go_must by (by apply Z.eqb_eq). apply tracked_attempt in Htr.
  destruct (tr_status t); try done; destruct Htr as [_ ->]; simpl; by eapply release_succeeds.
Qed.

Lemma reap_succeeds now ids d : Inv d -> 0 <= Unix now -> exists d', each ids (reapOne limits now) d = inr (tt, d').
Proof.
  intros HI Hn. revert d HI. induction ids as [|id ids IH]; intros d HI; [by eexists|].
  assert (exists d1, reapOne limits now id d = inr (tt, d1)) as [d1 H1].
  { unfold reapOne, loadSpecTx. destruct (specs d !! id) as [row|] eqn:Hrow.
    - rewrite (go_bind _ _ _ (Some (rowSpec id row)) d); [by apply terminalize_succeeds|].
      rewrite go_reads, Hrow, go_must; [done|]. by apply (st_spec _ _ (inv_staged _ _ HI)).
    - exists d. rewrite (go_bind _ _ _ None d); [done|]. by rewrite go_reads, Hrow. }
  destruct (IH d1) as [d' He]; [by eapply reapOne_effect|]. exists d'. simpl. by rewrite (go_bind _ _ _ _ _ H1).
Qed.

(** The sources whose time has passed. *)
Definition overdue (now : Z) d : list (list Z * SpecRow) :=
  map_to_list (filter (fun kv => sp_expires kv.2 <= Unix now) (specs d)).

Lemma expired_all now limit d id row : Z.of_nat (length (overdue now d)) <= limit -> specs d !! id = Some row ->
  sp_expires row <= Unix now -> id ∈ expiredSources now limit d.
Proof.
  intros Hlen Hrow Hx. unfold expiredSources. rewrite take_ge.
  - apply list_elem_of_fmap. exists (id, row). split; [done|]. apply elem_of_sortBy, elem_of_map_to_list.
    by apply map_lookup_filter_Some.
  - rewrite length_fmap, sortBy_perm. unfold overdue in Hlen. lia.
Qed.
End Reaper.

(** ** Over every run *)
Section Guarantees.
Context `{Laws : V3Laws}.
Variable limits : sourceLimits.
Implicit Types (d : SourceDb).
Abbreviation reached calls := (run limits calls emptySourceDb).

Lemma reached_inv calls : Inv limits (reached calls).
Proof. apply reachable. Qed.

(** *** Lasting records *)
Lemma recorded_lasts permit operation result calls d now : Inv limits d -> recorded permit operation result d ->
  Unix now < p_ExpiresAt permit -> Forall (fun c => Unix (callTime c) <= Unix now) calls ->
  recorded permit operation result (run limits calls d).
Proof.
  intros HI HR Hn Hall. unfold run. revert d HI HR. induction Hall as [|c calls Hc _ IH]; intros d HI HR; [done|].
  simpl. destruct (perform_good limits c d HI) as (HI' & _ & HL & _). apply IH; [done|].
  destruct HR as ((row & Hrow & Hh) & e & He & Hrest).
  destruct (jn_issued _ (inv_journal _ _ HI) _ _ Hrow) as (p & Hp & _ & Hx & _).
  assert (p = permit) as -> by (eapply EncodePermit_inj; first [apply Hp|apply Hh]).
  destruct (HL _ _ Hrow ltac:(lia)) as ((row' & Hrow' & Hp' & Ht' & Hc' & _) & Hred).
  split; [exists row'; split; [done|]; unfold holds in *; by rewrite Hp', Ht', Hc'|].
  exists e. split; [|done]. by apply Hred.
Qed.

Lemma frozen_run calls d : Inv limits d -> frozen d (run limits calls d).
Proof.
  unfold run. revert d. induction calls as [|c calls IH]; intros d HI; simpl.
  - apply frozen_same, sameStaging_refl.
  - destruct (perform_good limits c d HI) as (HI' & _ & _ & HF). eapply frozen_trans; [done|by apply IH].
Qed.

(** C10: Every call of a run of the attachment service leaves each transfer as
    it was or moves it by exactly one transition that [transition] of
    [transfer.go] accepts at the time of the call; where the transition needs
    evidence (source-ready: every chunk is stored; complete: every chunk has a
    receipt of the same commitment) the database after the call holds it. *)
Theorem transfers_follow_lifecycle calls c :
  moves (callTime c) (reached calls) (perform limits (reached calls) c).
Proof. by destruct (perform_good limits c _ (reached_inv calls)) as (_ & Hm & _). Qed.

(** C19: In every reachable store the counters of each quota scope (sender,
    recipient, conversation, relay) are exactly the ciphertext bytes, chunks
    and transfers of the sources staged now, and never exceed the limits of
    the scope. *)
Theorem quota_is_exact calls (key : quotaKey) :
  counter key (reached calls) = usage key (specs (reached calls))
  /\ (withinLimit (scopeLimit limits key.1) (counter key (reached calls))
      \/ counter key (reached calls) = noQuota).
Proof. pose proof (inv_staged _ _ (reached_inv calls)) as HS. split; [apply (st_quota _ _ HS)|apply (st_limit _ _ HS)]. Qed.

(** C20: In every reachable store the operations recorded under a permit that
    is not an outcome query are at most the permit's MaxOperations, and the
    ciphertext bytes and chunks charged to them at most its MaxBytes and
    MaxChunks. *)
Theorem permits_not_overspent calls permit row o r : wirePermit permit ->
  issued (reached calls) !! p_Serial permit = Some row -> EncodePermit permit = inr (is_permit row) ->
  redeemed (reached calls) !! (p_Serial permit, o) = Some r -> p_Operation permit <> permitOperationOutcome ->
  withinMax permit (reached calls).
Proof. intros Hw Hrow He Hr Hop. by eapply (jn_quota _ (inv_journal _ _ (reached_inv calls))). Qed.

(** C21: A chunk stored in a reachable store has the length its manifest gives
    it and carries its own commitment, and through any further calls its bytes
    stay what they are until its transfer has ended and its source is gone for
    good. *)
Theorem chunks_are_immutable calls more id i c : chunks (reached calls) !! (id, i) = Some c ->
  (exists row, specs (reached calls) !! id = Some row /\ 0 <= i < sp_chunkCount row
     /\ len (ch_ciphertext c) = expectedCiphertextLength (rowSpec id row) i
     /\ ch_commitment c = ciphertextCommitment (ch_ciphertext c))
  /\ let d' := run limits more (reached calls) in chunks d' !! (id, i) = Some c \/ retired d' id.
Proof.
  intros Hc. split; [by apply (st_chunk _ _ (inv_staged _ _ (reached_inv calls)))|].
  apply (frozen_run more _ (reached_inv calls)), Hc.
Qed.

(** C9: Exactly once: when a request of the attachment route has been answered,
    then after any further calls whose clocks do not run ahead, the same
    credentials on the same route are never executed again: a second
    successful answer is the first one and leaves the store as it is. *)
Theorem operation_executes_once calls method path body rawPermit rawOperation authority now payload d'
    more authority2 now2 payload2 d2 :
  attach limits method path body rawPermit rawOperation authority now (reached calls) = inr (payload, d') ->
  Forall (fun c => Unix (callTime c) <= Unix now2) more ->
  attach limits method path body rawPermit rawOperation authority2 now2 (run limits more d') = inr (payload2, d2) ->
  payload2 = payload /\ d2 = run limits more d'.
Proof.
  intros Ha Hmore Hb.
  apply attach_effect in Ha as (permit & op & route & request & Hp & Ho & Hroute & _ & (HI' & _) & HA);
    [|apply reached_inv].
  pose proof (run_inv limits more _ HI') as HIm. pose proof Hb as Hb'.
  apply attach_effect in Hb' as (permit2 & op2 & route2 & request2 & Hp2 & Ho2 & Hroute2 & Hr & _ & _); [|done].
  rewrite Hp in Hp2. rewrite Ho in Ho2. rewrite Hroute in Hroute2.
  injection Hp2 as <-. injection Ho2 as <-. injection Hroute2 as <- <-.
  assert (decodedPermit permit) as Hdec by (by apply decoded_permit in Hp as (_ & ?)).
  apply routed_request in Hroute as Hidx.
  destruct (redeem_verified _ _ _ _ _ Hidx _ _ _ _ _ Hr) as [[_ [_ Hx]]%verified_permit _].
  destruct HA as (result & HR & Hpay). eapply recorded_lasts in HR; [|done|exact Hx|done].
  eapply redeem_once in Hr as [-> Hpay2]; [|done..]. split; [|done].
  destruct (r_Operation route =? permitOperationDownload); [|congruence].
  destruct Hpay as (c & Hc & ->). destruct Hpay2 as (c2 & Hc2 & ->).
  destruct (frozen_run more _ HI') as [Hfr _]. apply Hfr in Hc as [Hc|[Hnone _]]; [congruence|].
  apply (st_chunk _ _ (inv_staged _ _ HIm)) in Hc2 as (row & Hrow & _). congruence.
Qed.

(** C31: Every operation is idempotent: the request that has just been answered,
    sent again, succeeds with the same answer and changes nothing. *)
Theorem operation_replays calls method path body rawPermit rawOperation authority now payload d' :
  attach limits method path body rawPermit rawOperation authority now (reached calls) = inr (payload, d') ->
  attach limits method path body rawPermit rawOperation authority now d' = inr (payload, d').
Proof.
  intros Ha.
  apply attach_effect in Ha as (permit & op & route & request & Hp & Ho & Hroute & Hr & _); [|apply reached_inv].
  unfold attach, serveRoute. rewrite (go_lift _ _ _ _ Hp), (go_lift _ _ _ _ Ho), (go_lift _ _ _ _ Hroute).
  apply decoded_permit in Hp as (_ & Hdec). apply routed_request in Hroute.
  eapply redeem_replays; [done..|apply reached_inv|done].
Qed.

(** C32: The reaper never fails in a reachable store: with a clock of the Unix
    era and a batch of 1 to 1024 it terminalizes the expired sources it
    selects, and where the batch holds all of them none is left. *)
Theorem reaper_always_succeeds calls now limit : 0 <= Unix now -> 0 < limit <= 1024 ->
  exists d', reapExpired limits now limit (reached calls)
             = inr (Z.of_nat (length (expiredSources now limit (reached calls))), d')
    /\ (forall id, id ∈ expiredSources now limit (reached calls) -> specs d' !! id = None)
    /\ (Z.of_nat (length (overdue now (reached calls))) <= limit ->
        forall id row, specs d' !! id = Some row -> Unix now < sp_expires row).
Proof.
  intros Hn Hlim. set (d := reached calls). destruct (reap_succeeds limits now (expiredSources now limit d) d) as [d1 He];
    [apply reached_inv|done|].
  destruct (reap_effect _ _ _ _ _ _ (reached_inv calls) Hn He) as [_ _ _ _ Hs Hg].
  exists (purge (Unix now) d1). split.
  - unfold reapExpired. rewrite go_must, go_reads by (rewrite !andb_true_iff, Z.ltb_lt, !Z.leb_le; lia).
    by rewrite (go_bind _ _ _ _ _ He).
  - split; [done|]. intros Hall id row Hrow. simpl in Hrow. apply Z.nle_gt. intros Hx.
    rewrite Hg in Hrow; [done|]. by eapply (expired_all _ _ _ _ row); [done|apply Hs|].
Qed.

End Guarantees.
