(* ===== verification/SourceWitness.v ===== *)
(** * A run of the attachment store

    Concrete cryptography and codec (a toy digest and signature, a
    length-prefixed codec), one sender, one recipient and complete transfers
    computed inside the model. *)

From S2P Require Import Prelude GoTime Text Sha256 Attachment SourceStore SourceInv SourceRuns SourceTheorems.
Open Scope Z_scope.

(** ** Codec and cryptography *)
Definition fromBytes (l : list Z) : Z := foldl (fun a b => 256 * a + b) 0 l.

(** A field: its key, a tag, and the integer or the length and the bytes. *)
Definition toyField (kv : Z * CborVal) : list Z :=
  bigEndian 8 kv.1 ++
  match kv.2 with
  | CInt n => [0] ++ bigEndian 8 n
  | CBytes b => [1] ++ bigEndian 8 (len b) ++ b
  end.
Definition toyMarshal (m : CborMap) : list Z := mjoin (toyField <$> m).

Definition byteb (x : Z) : bool := (0 <=? x) && (x <=? 255).
Definition takeBytes (n : nat) (l : list Z) : option (list Z * list Z) :=
  if (n <=? length l)%nat && forallb byteb (take n l) then Some (take n l, drop n l) else None.
Fixpoint toyParse (fuel : nat) (l : list Z) : option CborMap :=
  match fuel, l with
  | _, [] => Some []
  | S fuel, _ =>
      key ← takeBytes 8 l;
      tag ← takeBytes 1 key.2;
      number ← takeBytes 8 tag.2;
      let n := fromBytes number.1 in
      if eqb tag.1 [0] then m ← toyParse fuel number.2; Some ((fromBytes key.1, CInt n) :: m)
      else
        body ← (if n <=? MaxInt64 then takeBytes (Z.to_nat n) number.2 else None);
        m ← toyParse fuel body.2; Some ((fromBytes key.1, CBytes body.1) :: m)
  | _, _ => None
  end.
Definition toyDigest (n : nat) (l : list Z) : list Z :=
  bigEndian n (foldl (fun a b => Z.lxor (Z.shiftr a 1) (if Z.odd a then Z.lxor b 0xa001 else b)) 7 l).
Definition toySign (private message : list Z) : list Z := toyDigest 64 (take 32 private ++ message).
Definition toyVerify (public message signature : list Z) : bool := eqb signature (toySign public message).

#[export] Instance toyEnv : V3Env := {|
  cbor_Marshal := toyMarshal;
  cbor_Unmarshal := fun l => toyParse (length l) l;
  blake3_Sum256 := toyDigest 32;
  ed25519_verify := toyVerify;
  ed25519_sign := toySign;
  ed25519_public := take 32;
|}.

Lemma bigEndian_length n z : length (bigEndian n z) = n.
Proof. revert z. induction n as [|n IH]; intros z; [done|]. simpl. rewrite length_app, IH. simpl. lia. Qed.
Lemma bigEndian_bytes n z : Forall isByte (bigEndian n z).
Proof.
  revert z. induction n as [|n IH]; intros z; [constructor|]. simpl. apply Forall_app. split; [done|].
  constructor; [|done]. unfold isByte. pose proof (Z.mod_pos_bound z 256 ltac:(lia)). lia.
Qed.
Lemma fromBytes_snoc l x : fromBytes (l ++ [x]) = 256 * fromBytes l + x.
Proof. unfold fromBytes. by rewrite foldl_app. Qed.
Lemma fromBytes_bigEndian n z : 0 <= z < 256 ^ Z.of_nat n -> fromBytes (bigEndian n z) = z.
Proof.
  revert z. induction n as [|n IH]; intros z Hz; [unfold fromBytes; simpl in *; lia|]. cbn [bigEndian]. rewrite fromBytes_snoc, IH.
  - pose proof (Z.div_mod z 256 ltac:(lia)). lia.
  - rewrite Nat2Z.inj_succ, Z.pow_succ_r in Hz by lia. split; [apply Z.div_pos; lia|]. apply Z.div_lt_upper_bound; lia.
Qed.
Lemma fromBytes_range l : Forall isByte l -> 0 <= fromBytes l < 256 ^ Z.of_nat (length l).
Proof.
  induction l as [|x l IH] using rev_ind; [by vm_compute|].
  intros [Hl Hx]%Forall_app. apply Forall_cons in Hx as [Hx _]. unfold isByte in Hx. apply IH in Hl.
  rewrite fromBytes_snoc, length_app, Nat2Z.inj_add, Z.pow_add_r by lia. simpl length. change (256 ^ Z.of_nat 1) with 256. lia.
Qed.

Lemma bytes_checked l : forallb byteb l = true <-> Forall isByte l.
Proof.
  rewrite <-Is_true_true, forallb_True. apply Forall_iff. intros x. unfold byteb, isByte.
  rewrite Is_true_true, andb_true_iff, !Z.leb_le. done.
Qed.
Lemma take_app n b l : length b = n -> Forall isByte b -> takeBytes n (b ++ l) = Some (b, l).
Proof.
  intros <- Hb. unfold takeBytes. rewrite take_app_length, drop_app_length, length_app.
  rewrite (proj2 (Nat.leb_le _ _)) by lia. by rewrite (proj2 (bytes_checked b) Hb).
Qed.
Lemma take_bytes n l b rest : takeBytes n l = Some (b, rest) -> Forall isByte b /\ length b = n.
Proof.
  unfold takeBytes. destruct (_ && _) eqn:Hc; [|done]. intros [= <- _]. apply andb_true_iff in Hc as [Hn Hb].
  apply Nat.leb_le in Hn. split; [by apply bytes_checked|]. rewrite length_take. lia.
Qed.

Lemma toyParse_marshal m fuel : wireMap m -> (length (toyMarshal m) <= fuel)%nat -> toyParse fuel (toyMarshal m) = Some m.
Proof.
  revert fuel. induction m as [|[k v] m IH]; intros fuel Hw Hfuel; [by destruct fuel|].
  apply Forall_cons in Hw as [[Hk Hv] Hw]. simpl in Hk. unfold MaxUint64 in *.
  assert (toyMarshal ((k, v) :: m) = toyField (k, v) ++ toyMarshal m) as Heq by done. rewrite Heq in *. clear Heq.
  unfold toyField in *. cbn [fst snd] in *. rewrite <-app_assoc in *.
  destruct fuel as [|fuel]; [rewrite !length_app, bigEndian_length in Hfuel; lia|].
  assert (forall l, l <> [] -> toyParse (S fuel) l = (key ← takeBytes 8 l;
      tag ← takeBytes 1 key.2; number ← takeBytes 8 tag.2; let n := fromBytes number.1 in
      if eqb tag.1 [0] then m ← toyParse fuel number.2; Some ((fromBytes key.1, CInt n) :: m)
      else body ← (if n <=? MaxInt64 then takeBytes (Z.to_nat n) number.2 else None);
           m ← toyParse fuel body.2; Some ((fromBytes key.1, CBytes body.1) :: m))) as Hstep by (by intros [|? ?]).
  rewrite Hstep; [clear Hstep|intros Hnil; apply app_nil in Hnil as [Hnil%(f_equal length) _];
    rewrite bigEndian_length in Hnil; done].
  rewrite take_app by (apply bigEndian_length || apply bigEndian_bytes). cbn [mbind option_bind fst snd].
  destruct v as [n|b]; rewrite <-!app_assoc in *; simpl in Hv.
  - rewrite (take_app 1 [0]) by (done || (repeat constructor; done)). cbn [mbind option_bind fst snd].
    rewrite take_app by (apply bigEndian_length || apply bigEndian_bytes). cbn [mbind option_bind fst snd].
    unfold MaxUint64 in Hv. rewrite IH; [|done|rewrite !length_app, !bigEndian_length in Hfuel; simpl in Hfuel; lia].
    change (eqb [0] [0]) with true. cbn [mbind option_bind]. by rewrite !fromBytes_bigEndian by (simpl; lia).
  - destruct Hv as [Hb Hlen]. unfold MaxInt64, int64_max in *.
    rewrite (take_app 1 [1]) by (done || (repeat constructor; done)). cbn [mbind option_bind fst snd].
    rewrite take_app by (apply bigEndian_length || apply bigEndian_bytes). cbn [mbind option_bind fst snd].
    assert (0 <= len b) by (unfold len; lia).
    rewrite (fromBytes_bigEndian 8 (len b)) by (simpl; lia). change (eqb [1] [0]) with false. cbv iota.
    rewrite (proj2 (Z.leb_le _ _)) by (unfold MaxInt64, int64_max; lia).
    rewrite take_app by (done || (unfold len; lia)). cbn [mbind option_bind fst snd].
    rewrite IH; [|done|rewrite !length_app, !bigEndian_length in Hfuel; simpl in Hfuel; lia].
    cbn [mbind option_bind]. by rewrite fromBytes_bigEndian by (simpl; lia).
Qed.

Lemma toyParse_wire fuel l m : toyParse fuel l = Some m -> wireMap m.
Proof.
  revert l m. induction fuel as [|fuel IH]; intros l m Hp.
  { destruct l; [|done]. injection Hp as <-. constructor. }
  destruct l as [|x l]; [injection Hp as <-; constructor|].
  set (l' := x :: l) in *. change (toyParse (S fuel) l') with (key ← takeBytes 8 l';
      tag ← takeBytes 1 key.2; number ← takeBytes 8 tag.2; let n := fromBytes number.1 in
      if eqb tag.1 [0] then m ← toyParse fuel number.2; Some ((fromBytes key.1, CInt n) :: m)
      else body ← (if n <=? MaxInt64 then takeBytes (Z.to_nat n) number.2 else None);
           m ← toyParse fuel body.2; Some ((fromBytes key.1, CBytes body.1) :: m)) in Hp.
  apply bind_Some in Hp as ([key r1] & [Hk Hkl]%take_bytes & Hp). apply bind_Some in Hp as ([tag r2] & _ & Hp).
  apply bind_Some in Hp as ([number r3] & [Hn Hnl]%take_bytes & Hp). cbn [fst snd] in Hp. cbv zeta in Hp.
  apply fromBytes_range in Hk, Hn. rewrite Hkl in Hk. rewrite Hnl in Hn. change (256 ^ Z.of_nat 8) with (2 ^ 64) in *.
  destruct (eqb tag [0]).
  - apply bind_Some in Hp as (m' & Hm & Hp). injection Hp as <-. constructor; [|by eapply IH].
    simpl. unfold MaxUint64. lia.
  - apply bind_Some in Hp as ([body r4] & Hb & Hp). destruct (_ <=? _) eqn:Hle; [|done]. apply Z.leb_le in Hle.
    apply take_bytes in Hb as [Hb Hbl]. apply bind_Some in Hp as (m' & Hm & Hp). injection Hp as <-.
    constructor; [|by eapply IH]. simpl. unfold MaxUint64, len. rewrite Hbl. split; [lia|]. split; [done|]. lia.
Qed.

#[export] Instance toyLaws : V3Laws.
Proof.
  split.
  - intros m _ Hw. by apply toyParse_marshal.
  - intros b m. apply toyParse_wire.
  - intros b. apply bigEndian_length.
Qed.

(** ** The parties *)
Definition tag16 (z : Z) : list Z := bigEndian 16 z.
Definition tag32 (z : Z) : list Z := bigEndian 32 z.
Definition issuerKey : list Z := bigEndian 64 (77 * 2 ^ 300).
Definition senderKey : list Z := bigEndian 64 (78 * 2 ^ 300).
Definition recipientKey : list Z := bigEndian 64 (79 * 2 ^ 300).
Definition sender : list Z := tag16 11.
Definition recipient : list Z := tag16 12.

Definition authority : AttachmentAuthority := {|
  ValidateManifestAuthority := fun _ _ => Some (take 32 senderKey);
  ValidateRetainedManifestAuthority := fun _ _ => Some (take 32 senderKey);
  ValidatePermitAuthority := fun _ _ => Some (take 32 issuerKey);
  CurrentDeviceSigningKey := fun id _ =>
    if eqb id sender then Some (take 32 senderKey)
    else if eqb id recipient then Some (take 32 recipientKey) else None;
|}.
Definition issuance : PermitIssuanceAuthority := {|
  ia_authority := authority;
  CurrentPermitIssuerKey := fun _ => Some (take 32 issuerKey);
  CurrentPermitBinding := fun _ =>
    Some {| db_Audience := tag32 1; db_DirectoryHead := tag32 2; db_RevocationEpoch := 0; db_ExpiresAt := 5000 |};
|}.
Definition issuer : PermitIssuer := {|
  i_issuerKeyID := tag32 3; i_privateKey := issuerKey; i_maxLifetime := 30 * Time.Second;
  i_maxBytes := 1000000; i_maxChunks := 4096; i_maxOperations := 16; i_maxActive := 1000 |}.

Definition at_ (seconds : Z) : Z := seconds * Time.Second.
Definition transfer : list Z := tag16 20.

Definition unsigned (count : Z) : Manifest :=
  mkManifest (tag32 1) transfer (tag16 13) sender 1 recipient 1 (tag32 2) (tag32 4) 0 1000 1500 (tag32 5)
    (tag32 6) 4 count (4 * count) (tag32 7) zero64.
Definition manifest (count : Z) : Manifest :=
  let m := unsigned count in
  mkManifest (m_Audience m) (m_TransferID m) (m_ConversationID m) sender 1 recipient 1 (m_DirectoryHead m)
    (m_MembershipCommitment m) 0 1000 1500 (m_ContentSalt m) (m_PlaintextCommitment m) 4 count (4 * count)
    (m_SignerKeyID m) (toySign senderKey (domain "punaro/attachment/manifest/v3" ++ toyMarshal (manifestFields m))).
Definition manifestRaw (count : Z) : list Z := toyMarshal (manifestWire (manifest count)).
Definition commitment (count : Z) : list Z := toyDigest 32 (manifestRaw count).

(** The [n]-th permit request: an operation, at a time. *)
Definition permitRequest (count n op now : Z) (outcomeOf : list Z) : PermitRequest :=
  let sends := oneOf op [permitOperationSourceInit; permitOperationSourceUpload; permitOperationOffer;
                         permitOperationCancel; permitOperationOutcome] in
  let attempt := if oneOf op [permitOperationBegin; permitOperationDownload; permitOperationComplete]
                 then 1 else 0 in
  let r signature := mkPermitRequest (tag16 (100 + n)) (if sends then sender else recipient) 1
             (if sends then 1 else 2) transfer (tag16 13) sender 1 recipient 1 attempt op (tag32 4)
             (commitment count) outcomeOf now (now + 20) 100000 100 4 signature in
  r (toySign (if sends then senderKey else recipientKey) (permitRequestPayload (r zero64))).

(** What a party asks of the service. *)
Record Ask := { k_op : Z; k_method : string; k_path : string; k_body : list Z }.

(** The [n]-th permit, as the issuer mints it, and the operation its holder signs. *)
Definition permitFor (count n now op : Z) (outcomeOf : list Z) : Permit :=
  mint issuer (permitRequest count n op now outcomeOf)
    {| db_Audience := tag32 1; db_DirectoryHead := tag32 2; db_RevocationEpoch := 0; db_ExpiresAt := 5000 |}
    (tag16 (1000 + n)) now (now + 20).
Definition operationFor (permit : Permit) (n now : Z) (ask : Ask) : Res OperationRecord :=
  BuildSignedAttachmentOperation permit (k_method ask) (k_path ask) (k_body ask) (tag16 (2000 + n)) (tag32 (3000 + n))
    now (now + 20) (if eqb (p_HolderDeviceID permit) sender then senderKey else recipientKey).
Definition rawPermitOf (permit : Permit) : list Z := toyMarshal (permitWire permit).
Definition rawOperationOf (r : Res OperationRecord) : list Z :=
  match r with inr operation => toyMarshal (operationWire operation) | inl _ => [] end.

(** Issue and register a permit, then redeem one operation under it. *)
Definition callsFor (count n now : Z) (outcomeOf : list Z) (ask : Ask) : list Call :=
  let permit := permitFor count n now (k_op ask) outcomeOf in
  [CallIssue issuer (fun _ => Some (tag16 (1000 + n))) (permitRequest count n (k_op ask) now outcomeOf) issuance (at_ now)]
  ++ (if k_op ask =? permitOperationSourceInit then [] else [CallRegister (rawPermitOf permit) authority (at_ now)])
  ++ [CallAttach (k_method ask) (k_path ask) (k_body ask) (rawPermitOf permit)
        (rawOperationOf (operationFor permit n now ask)) authority (at_ now)].

Definition hexDigit (n : Z) : string := String.String (byteAscii (if n <? 10 then n + 48 else n + 87)) "".
Definition hexText (b : list Z) : string :=
  foldr (fun x s => hexDigit (x / 16) +:+ (hexDigit (x `mod` 16) +:+ s)) "" b.
Fixpoint decimalText (fuel : nat) (n : Z) (acc : string) : string :=
  match fuel with
  | O => acc
  | S fuel => let acc := hexDigit (n `mod` 10) +:+ acc in
              if n <? 10 then acc else decimalText fuel (n / 10) acc
  end.
Definition base : string := "/v3/attachments/" +:+ hexText transfer.

Definition chunk (i : Z) : list Z := (fun j => (7 * i + j) `mod` 256) <$> seqZ 0 20.
Definition envelope (count : Z) : Envelope :=
  let e signature := mkEnvelope (tag32 1) transfer (tag16 13) sender 1 recipient 1 (tag32 8)
    (commitment count) (tag32 9) (replicate 16 5) (tag32 7) signature in
  e (toySign senderKey (domain "punaro/attachment/envelope/v3" ++ toyMarshal (envelopeFields (e zero64)))).
Definition nonce : list Z := tag32 4242.
Definition offerBody (count : Z) : list Z :=
  toyMarshal [(1, CInt 3); (2, CBytes (manifestRaw count)); (3, CBytes (toyMarshal (envelopeWire (envelope count))));
              (4, CBytes nonce)].

Definition indices (count : Z) : list string := (fun i => decimalText 4 i "") <$> seqZ 0 count.
Definition journey (count : Z) : list Ask :=
  [{| k_op := 1; k_method := "POST"; k_path := base +:+ "/source"; k_body := manifestRaw count |}]
  ++ ((fun i => {| k_op := 2; k_method := "PUT"; k_path := base +:+ "/source/chunks/" +:+ decimalText 4 i "";
                   k_body := chunk i |}) <$> seqZ 0 count)
  ++ [{| k_op := 3; k_method := "POST"; k_path := base +:+ "/offer"; k_body := offerBody count |};
      {| k_op := 4; k_method := "POST"; k_path := base +:+ "/accept"; k_body := nonce |};
      {| k_op := 6; k_method := "POST"; k_path := base +:+ "/attempts/1/begin"; k_body := [] |}]
  ++ ((fun i => {| k_op := 5; k_method := "GET"; k_path := base +:+ "/chunks/" +:+ decimalText 4 i "";
                   k_body := [] |}) <$> seqZ 0 count)
  ++ [{| k_op := 7; k_method := "POST"; k_path := base +:+ "/complete"; k_body := [] |}].

(** One ask each second, from second 1000. *)
Definition allCalls (count : Z) (asks : list Ask) : list Call :=
  mjoin (imap (fun n ask => callsFor count (Z.of_nat n) (1000 + Z.of_nat n) zero16 ask) asks).
Definition completed (count : Z) : SourceDb :=
  run defaultSourceLimits (allCalls count (journey count)) emptySourceDb.
Definition statusOf (d : SourceDb) : option transferStatus := tr_status <$> transfers d !! transfer.

(** ** Instances of the guarantees *)
Definition shortRun (n : nat) : list Call := take n (allCalls 1 (journey 1)).
Abbreviation reached_ n := (run defaultSourceLimits (shortRun n) emptySourceDb).

Lemma present {A} (y : A) (x : option A) : bool_decide (is_Some x) = true -> x = Some (default y x).
Proof. intros Hx%bool_decide_eq_true. by destruct Hx as [a ->]. Qed.
Lemma answered {A} (r : Res A) : succeeds r = true -> exists a, r = inr a.
Proof. destruct r as [|a]; [done|]. by exists a. Qed.

(** The upload of the one chunk, as it is sent. *)
Definition uploadAsk : Ask :=
  {| k_op := 2; k_method := "PUT"; k_path := base +:+ "/source/chunks/0"; k_body := chunk 0 |}.
Definition uploadPermit : Permit := permitFor 1 1 1001 2 zero16.
Definition uploadOperation : list Z := rawOperationOf (operationFor uploadPermit 1 1001 uploadAsk).
Definition uploadPath : string := base +:+ "/source/chunks/0".
Definition uploadRaw : list Z := rawPermitOf uploadPermit.
Abbreviation sendUpload now :=
  (attach defaultSourceLimits "PUT" uploadPath (chunk 0) uploadRaw uploadOperation authority now).

Definition noIssued : IssuedRow :=
  {| is_permit := []; is_transfer := []; is_commitment := []; is_expires := 0; is_retain := 0 |}.
Definition noRedeemed : RedeemedRow :=
  {| rd_operation := 0; rd_method := 0; rd_path := []; rd_target := []; rd_body := []; rd_idempotency := [];
     rd_bytes := 0; rd_chunks := 0; rd_result := [] |}.

Lemma uploadPermit_wire : wirePermit uploadPermit.
Proof.
  assert (exists p, DecodePermit uploadRaw = inr p /\ p = uploadPermit) as (p & Hp & <-).
  { exists uploadPermit. split; [by vm_compute|done]. }
  by apply decoded_permit in Hp as (_ & Hw & _).
Qed.

(** The call that uploads the last chunk makes the source ready, by a transition. *)
Definition callAt (n : nat) : Call := nth n (allCalls 1 (journey 1)) (CallReap 0 0).
Lemma transfers_follow_lifecycle_witness :
  tr_status <$> transfers (reached_ 4) !! transfer = Some transferSourceUploading
  /\ tr_status <$> transfers (perform defaultSourceLimits (reached_ 4) (callAt 4)) !! transfer = Some transferSourceReady
  /\ moves (callTime (callAt 4)) (reached_ 4) (perform defaultSourceLimits (reached_ 4) (callAt 4)).
Proof.
  split; [by vm_compute|]. split; [by vm_compute|].
  exact (transfers_follow_lifecycle defaultSourceLimits (shortRun 4) (callAt 4)).
Defined.

(** The scope of the whole relay, with the one source staged. *)
Definition relayScope : quotaKey := scopeKey sourceScopeRelay [bytesOf "all"].
Lemma quota_is_exact_witness :
  counter relayScope (reached_ 5) = {| qr_bytes := 20; qr_chunks := 1; qr_transfers := 1 |}
  /\ counter relayScope (reached_ 5) = usage relayScope (specs (reached_ 5)).
Proof.
  split; [by vm_compute|]. exact (proj1 (quota_is_exact defaultSourceLimits (shortRun 5) relayScope)).
Defined.

(** The upload permit after its one operation. *)
Lemma permits_not_overspent_witness :
  usedOperations (p_Serial uploadPermit) (reached_ 5) = 1 /\ withinMax uploadPermit (reached_ 5).
Proof.
  split; [by vm_compute|].
  apply (permits_not_overspent defaultSourceLimits (shortRun 5) uploadPermit
           (default noIssued (issued (reached_ 5) !! p_Serial uploadPermit)) (tag16 2001)
           (default noRedeemed (redeemed (reached_ 5) !! (p_Serial uploadPermit, tag16 2001)))).
  - apply uploadPermit_wire.
  - apply present. by vm_compute.
  - by vm_compute.
  - apply present. by vm_compute.
  - by vm_compute.
Defined.

(** The chunk, through the rest of the journey. *)
Lemma chunks_are_immutable_witness :
  chunks (reached_ 5) !! (transfer, 0) = Some {| ch_ciphertext := chunk 0; ch_commitment := ciphertextCommitment (chunk 0) |}
  /\ let d' := run defaultSourceLimits (drop 5 (allCalls 1 (journey 1))) (reached_ 5) in
     chunks d' !! (transfer, 0) = Some {| ch_ciphertext := chunk 0; ch_commitment := ciphertextCommitment (chunk 0) |}
     \/ retired d' transfer.
Proof.
  assert (chunks (reached_ 5) !! (transfer, 0)
          = Some {| ch_ciphertext := chunk 0; ch_commitment := ciphertextCommitment (chunk 0) |}) as Hc by (by vm_compute).
  split; [exact Hc|].
  exact (proj2 (chunks_are_immutable defaultSourceLimits (shortRun 5) (drop 5 (allCalls 1 (journey 1))) _ _ _ Hc)).
Defined.

(** The upload, sent again at once. *)
Lemma operation_replays_witness : exists payload d',
  sendUpload (at_ 1001) (reached_ 4) = inr (payload, d') /\ sendUpload (at_ 1001) d' = inr (payload, d').
Proof.
  destruct (answered (sendUpload (at_ 1001) (reached_ 4))) as [[payload d'] Ha]; [by vm_compute|].
  exists payload, d'. split; [exact Ha|].
  exact (operation_replays defaultSourceLimits (shortRun 4) "PUT" uploadPath (chunk 0) uploadRaw uploadOperation
           authority (at_ 1001) payload d' Ha).
Defined.

(** The upload, sent again five seconds later, after the transfer was offered. *)
Definition offering : list Call := take 3 (drop 5 (allCalls 1 (journey 1))).
Definition afterUpload : SourceDb :=
  match sendUpload (at_ 1001) (reached_ 4) with inr (_, d) => d | inl _ => emptySourceDb end.

Lemma operation_executes_once_witness : exists payload payload2 d' d2,
  sendUpload (at_ 1001) (reached_ 4) = inr (payload, d')
  /\ sendUpload (at_ 1006) (run defaultSourceLimits offering d') = inr (payload2, d2)
  /\ payload2 = payload /\ d2 = run defaultSourceLimits offering d'.
Proof.
  destruct (answered (sendUpload (at_ 1001) (reached_ 4))) as [[payload d'] Ha]; [by vm_compute|].
  assert (afterUpload = d') as Hd' by (unfold afterUpload; by rewrite Ha).
  destruct (answered (sendUpload (at_ 1006) (run defaultSourceLimits offering d'))) as [[payload2 d2] Hb];
    [rewrite <-Hd'; by vm_compute|].
  exists payload, payload2, d', d2. split; [exact Ha|]. split; [exact Hb|].
  apply (operation_executes_once defaultSourceLimits (shortRun 4) "PUT" uploadPath (chunk 0) uploadRaw uploadOperation
           authority (at_ 1001) payload d' offering authority (at_ 1006) payload2 d2 Ha); [|exact Hb].
  assert (forallb (fun c => Unix (callTime c) <=? Unix (at_ 1006)) offering = true) as Hc by (by vm_compute).
  apply Forall_forall. intros c Hin. rewrite forallb_forall in Hc. apply Z.leb_le, Hc. by apply list_elem_of_In.
Defined.

(** The source has expired by second 2000. *)
Lemma reaper_always_succeeds_witness :
  expiredSources (at_ 2000) 16 (reached_ 5) = [transfer]
  /\ exists d', reapExpired defaultSourceLimits (at_ 2000) 16 (reached_ 5) = inr (1, d') /\ specs d' !! transfer = None.
Proof.
  assert (expiredSources (at_ 2000) 16 (reached_ 5) = [transfer]) as He by (by vm_compute). split; [exact He|].
  assert (0 <= Unix (at_ 2000)) as Hnow by (by vm_compute). assert (0 < 16 <= 1024) as Hlim by lia.
  pose proof (reaper_always_succeeds defaultSourceLimits (shortRun 5) (at_ 2000) 16 Hnow Hlim) as HR.
  rewrite He in HR. destruct HR as (d' & Hr & Hg & _). exists d'. split; [exact Hr|]. apply Hg. by left.
Defined.

(** The upload as an HTTP request. *)
Definition uploadRequest : HttpRequest := {|
  h_Method := "PUT"; h_Path := uploadPath; h_RawQuery := ""; h_Fragment := ""; h_RawPath := "";
  h_EscapedPath := uploadPath; h_ContentEncoding := []; h_ContentLength := 20; h_Body := Some (chunk 0);
  h_Permit := [Base64.EncodeToString uploadRaw]; h_Operation := [Base64.EncodeToString uploadOperation] |}.
Abbreviation serveUpload :=
  (ServeHTTP defaultSourceLimits (fun _ => true) (fun _ => Some authority) (at_ 1001) uploadRequest (reached_ 4)).


(** The store of a completed transfer of [count] chunks is refused when it is opened again. *)
Definition reopened (count : Z) : option string :=
  match openSourceStore defaultSourceLimits (completed count) with inl e => Some e | inr _ => None end.


(** A source-init permit is issued and never used; thirty seconds later its
    holder asks for the outcome. *)
Definition askOutcome : Ask := {| k_op := 9; k_method := "GET"; k_path := base +:+ "/outcome"; k_body := [] |}.
Definition neverArrived : SourceDb :=
  run defaultSourceLimits (take 1 (shortRun 2) ++ callsFor 1 50 1030 (tag16 1000) askOutcome) emptySourceDb.

